(* ===== verification/_CoqProject ===== *)
-Q . S2P
Prelude.v
GoErrors.v
Names.v
Graph.v
Run.v
Base64.v
State.v
ExecState.v
Json.v
Redact.v
Shape.v
Reflect.v
Secret.v
Evaluator.v
Backoff.v
Functions.v
Debouncer.v
World.v
Send.v
Runner.v
RunnerSpec.v
RunnerStatus.v
Scheduler.v
SchedulerSpec.v
Lifecycle.v
Controller.v
ControllerSpec.v
Pool.v
Reconciler.v
ReconcilerSpec.v
Transport.v
TransportSpec.v
Schema.v
SchemaSpec.v
Elements.v
ElementsSpec.v
Cleaning.v
GraphExport.v
GraphImport.v
ImportValidation.v
ImportSpec.v
GraphRoundtrip.v
Generator.v
Simulation.v
SimulationSpec.v
EdgeValidation.v
EdgeValidationSpec.v
FlowMaps.v
FlowMapsSpec.v
Evals.v
EvalsSpec.v
Manager.v
Ingress.v
ManagerSpec.v
Publish.v
FlowIssues.v
Authoring.v
AuthoringSpec.v
Tools.v
ToolsSpec.v
BuildFlow.v
BuildFlowSpec.v
EditFlow.v
EditFlowSpec.v
Traces.v
Usage.v
CloneSolution.v
CloneSpec.v
Rules.v
Catalog.v
AgentTools.v
Wire.v
Rbac.v
Supervise.v
Telemetry.v
ServiceTools.v
Startup.v
Commands.v
Collector.v
Orphans.v
