(* ===== verification/Prelude.v ===== *)
(** * Tiny Systems module SDK: verification library

    The SDK turns a Go program into a module of a flow platform: a set of
    components whose instances are the nodes of flows. A Kubernetes custom
    resource (TinyNode) says which component a node runs, its edges and the
    configuration of its ports; the module's scheduler keeps one runner per
    node; a message for a node's port goes through the runner to the component,
    and what the component emits leaves over the node's edges, to other nodes of
    the process or to other modules over NATS or gRPC. A run of a flow may be
    durable: its hops are stored in a work queue, each with a deterministic step
    key, and a step ledger in a key-value bucket records what was done.

    This library models that core and proves what it promises. Definitions are
    executable and follow the Go functions, in the order of their statements;
    theorems marked with a claim id are the properties, the lemma named
    [<theorem>_witness] applies each to a concrete case. Where the code does
    less than its comments say, the property states what the code does.

    ** Parts

    Values and text
    - [Prelude]: results, Go's string functions on byte strings, numbers, map
      iteration, shared tactics and lemmas.
    - [GoErrors]: error values and their markings ([pkg/errors/errors.go],
      [module/errors.go], [module/result.go]).
    - [Names]: addresses and names ([pkg/utils/port.go], [naming.go],
      [sanitize.go], [elements.go], [module/info.go], [naming_match.go], the
      subjects of [internal/transport/nats.go]).
    - [Base64], [Json], [Reflect]: standard base64, decoded JSON documents, Go
      values as reflection sees them.

    Data of flows and runs
    - [Graph]: TinyNode and the edits of edges and port configurations
      ([api/v1alpha1/tinynode_types.go], [pkg/utils/edges.go], [edge.go]).
    - [Run]: runs, step keys, contexts, messages, ledger records
      ([module/run.go], [module/ledger.go], [runner/msg.go]).

    Services of a node
    - [State], [ExecState]: node-local state in the node's metadata and
      execution-scoped state in the bucket ([pkg/state]).
    - [Redact], [Shape], [Reflect]: masking of secrets by key, by authored
      schema, by shape and by declared struct tags ([pkg/redact]).
    - [Secret]: secret placeholders ([pkg/secret/secret.go]).
    - [Evaluator]: expressions of edge configurations
      ([pkg/evaluator/evaluator.go]).
    - [Functions]: plus and minus on times and durations, and the functions of
      the expression language ([pkg/evaluator/functions.go]).

    The runtime ([internal/scheduler], [internal/transport], [internal/controller])
    - [World]: the state the operations share and the monad they run in.
    - [Backoff], [Debouncer]: retry delays and the coalescing of status patches.
    - [Send]: one edge with its retry policy, the fan-out over a port's edges.
    - [Runner]: message handling, settings, status, durable steps
      ([runner/runner.go]); [RunnerSpec] and [RunnerStatus] hold its theorems.
    - [Scheduler]: installed components, runners, updates, direct calls, and the
      router of [cli/run.go]; theorems in [SchedulerSpec] and [Lifecycle].
    - [Controller]: the reconcilers of TinyNode and TinyComponent
      ([internal/controller]); theorems in [ControllerSpec].
    - [Pool]: the gRPC connections and the reconciler of TinyModule that keeps
      their addresses ([internal/client], [internal/server]).
    - [Reconciler]: re-driving of stalled durable runs
      ([internal/scheduler/reconciler.go]); theorems in [ReconcilerSpec].
    - [Transport]: the NATS wire ([internal/transport]); theorems in
      [TransportSpec].
    - [Supervise]: the streams and consumers of the JetStream transport, the
      loop that keeps a receiver alive, the ticks of a slow handler
      ([internal/transport/jetstream.go]).
    - [Startup]: the life of a module's process: its set-up in order, its
      goroutines, how it ends ([cli/run.go], [cli/nats.go]).
    - [Orphans]: keys of an edge configuration that a port does not declare
      ([runner/runner.go]).
    - [Telemetry]: where spans and metrics go, how they are set up, and the
      identifiers of spans ([pkg/metrics]).

    Flows as documents ([pkg/schema], [pkg/utils])
    - [Schema]: reading, collecting, overlaying and comparing port schemas
      ([pkg/schema/schema.go], [json.go], [compare.go]); theorems in [SchemaSpec],
      with the schema of a Go value ([json.go]): its definitions and their
      paths, filled with the shape of the value.
    - [Elements]: the editor's elements, the request of an edited flow and what
      it makes of a node's edges and port configurations
      ([pkg/utils/elements.go]); theorems in [ElementsSpec].
    - [Cleaning]: the removal of runtime fields ([pkg/utils/flow.go]).
    - [GraphExport]: nodes and edges as elements ([pkg/utils/nodes.go]).
    - [GraphImport]: elements as nodes ([pkg/utils/graph_import.go]).
    - [ImportValidation]: the checks before an import
      ([pkg/utils/import_validation.go], [project_export.go]); theorems on both
      in [ImportSpec], on export and import together in [GraphRoundtrip].
    - [Generator]: mock values of a schema ([pkg/jsonschemagenerator]).
    - [Simulation]: the data of a port, simulated along the edges that lead to it
      and layered with recorded data and examples ([pkg/utils/portinspect.go]);
      theorems in [SimulationSpec].
    - [EdgeValidation]: what is accepted of an edge's configuration and of a
      node's settings ([pkg/utils/edge_validation.go], [settings_validation.go],
      [expression.go], [secret_placeholder.go]); theorems in
      [EdgeValidationSpec].
    - [FlowMaps]: the schemas, configurations and edges of a flow as the
      validators and the tools read them ([GetFlowMaps] of [pkg/utils/nodes.go]);
      theorems in [FlowMapsSpec].

    Around flows and modules
    - [Traces]: what a recorded run says of ports and edges, and live
      statistics ([pkg/utils/trace.go], [stats.go]).
    - [Usage]: the metering of a hop and the tools that total and list recorded
      runs ([module/usage.go], [pkg/tools/get_usage.go], [get_traces.go],
      [get_trace_detail.go]).
    - [Collector]: the collector's client, its stream of statistics and the
      trace service ([pkg/utils/stats.go], [client.go]); port forwards to the
      cluster ([pkg/resource/portforward.go]).
    - [Commands]: the registry, the embedded helper and the declarations of a
      module ([registry], [module/base.go], [requirements.go]); the services it
      is deployed with ([pkg/bundle]); what it says of its components and its
      access, and the hooks of its chart ([cli/components.go],
      [rbac-values.go], [rbac-check.go], [pre-install.go], [pre-delete.go]).
    - [Wire]: callers outside the SDK ([pkg/wire]).
    - [Rbac]: declared access against the calls of the code
      ([cli/rbaccheck.go]).
    - [Rules]: the rules on the widgets of a solution and on the error ports of
      a module ([pkg/solution/validate.go], [cli/validate.go],
      [component_shape.go]); the internal fields stripped from an export and the
      warnings about one ([pkg/utils/project_export.go]).
    - [Evals]: evaluation specs and their verdicts ([pkg/evals]); theorems in
      [EvalsSpec].
    - [Manager], [Ingress]: what the platform does to the cluster: projects,
      flows, nodes and pages, the cleanup after deletions, waiting for the
      controller, and exposing ports ([pkg/resource/manager.go]); theorems on
      both in [ManagerSpec].

    Tools an agent builds flows with ([pkg/tools])
    - [Publish]: what is blanked before a graph or a sample is published
      ([graph_redact.go], [scenario_capture.go]).
    - [FlowIssues]: structural faults, the wait before a trigger, positions
      ([flow_validate.go], [signal_readiness.go], [position_tracker.go]).
    - [Authoring]: derived schemas and scaffolded samples
      ([schema_required.go], [build_flow_scenarios.go],
      [scenario_scaffold_live.go]); theorems in [AuthoringSpec].
    - [Tools]: the execution context of a tool, the calls a tool makes and their
      history ([interface.go], [edit_flow_lookup.go]); [ToolsSpec] reasons about
      programs over that history.
    - [BuildFlow], [EditFlow]: the tools that write flows ([build_flow.go],
      [edit_flow.go]); theorems in [BuildFlowSpec] and [EditFlowSpec].
    - [CloneSolution]: the installation of a published solution
      ([clone_solution.go]); theorems in [CloneSpec].
    - [Catalog]: the catalogue of components ([list_modules.go],
      [get_component_info.go]).
    - [AgentTools]: the registry, the tool on scenarios and the runs of
      evaluations ([registry.go], [scenario.go], [run_eval.go]).
    - [ServiceTools]: the tools that ask one service of the execution context,
      as programs over typed requests ([list_projects.go], [install_module.go],
      [set_node_dashboard.go] and twelve more); the guide for agents, cut into
      sections that are held back until they are needed ([prompt_sections.go],
      [get_instructions.go]).

    ** How operations are modelled

    Operations of the runtime are state passing functions over a [World.World]:
    the clock, the runners and their component states, the scheduler's maps, the
    bucket, the nodes in the cluster, cancelled contexts and the events that
    leave the process (calls of components, span data, patches). Their outcome
    is a value, a Go panic that a deferred recover may catch, a crash of the
    process (a panic on a goroutine without one), or a lack of fuel. What other
    goroutines do while an operation waits, and the order in which the goroutines
    of a fan-out run, are the methods of the class [World.Env]: theorems hold for
    every such environment, witnesses use the [quiet] one. Components are
    programs over their own state ([World.Prog]): they may emit, read and write
    state, begin runs, sleep, panic and return.

    Third-party code (the JSON codec, uuids, go-cmp, the NATS client, the API
    server, the key-value bucket) is a class whose methods are parameters of the
    definitions; laws are named fields or hypotheses that state documented
    behaviour, and every witness instantiates them with concrete functions.
    The order of Go's map iteration is the class [MapRange]: theorems hold for
    every order.

    [Scheduler.process] ties the router to the scheduler with fuel for the depth
    of nested calls; [SchedulerSpec.routing_terminates] proves that 258 is enough
    for every message, because each emission is one hop deeper and the depth is
    limited. The generator and the simulation of ports take fuel too:
    [Generator.generate_terminates] and [SimulationSpec.simulation_terminates]
    prove how much is enough, for schemas whose references do not go in circles,
    and that without that no fuel is. The backoff waits of the scheduler take
    the list of intervals their policy gives; all other recursion is structural.

    The cluster that [Manager] works on is any state with a [Manager.Client] for
    each kind of object; [ManagerSpec.ClientLaws] says what a server promises
    (an update reaches one object, and one that failed may have reached it),
    and a server over a map, which refuses some updates, keeps these laws.

    A tool of [pkg/tools] is a program over the history of the calls it has made
    ([Tools.M]): a service may answer anything, depending on all that was asked
    before, and so may the question whether the context is done. [ToolsSpec.wp]
    is a triple whose postcondition speaks of the result and of the calls added.

    ** What the theorems show

    - durable runs: a step runs at most once and is recorded after its
      emissions; step keys do not depend on the interleaving of emissions; the
      reconciler's frontier is exactly the recorded outstanding work, and it
      publishes a hop three times at most before it marks the run failed; a
      durable hop crosses the wire without loss. And the limits: the reply
      address is lost at the first hop, a transient failure that goes back to the
      broker is not executed again, a re-drive that fails to publish never counts;
    - delivery: attempts over an edge follow the policy and the marking of the
      error; each destination of a port gets a message once; cycles end at the
      depth limit; a failure keeps text and code over the wire but not its marking;
    - nodes: updates that a component refuses are rolled back, status patches
      coalesce and apply every pending update, removed edges are cancelled, the
      published status holds no declared secret; the scheduler's maps stay in
      order whatever a process goes through, and withdrawing a component stops
      exactly its instances;
    - controllers: a deleted node is stopped before its object goes, a live
      definition never shadows a compiled component, a missing component is
      reported; deleting a refused definition withdraws the compiled component;
    - secrets: each masking leaves no secret of its kind, and what it leaves
      unchanged; placeholder resolution replaces exactly the placeholders;
    - state: the metadata backend refines a map behind its overlay of
      unconfirmed writes, execution-scoped state is isolated per run;
    - text: round trips of addresses and names, valid resource names;
    - documents: what the save of an edited flow does to the edges and port
      configurations of its nodes and to those of other flows; what an import
      makes of each element, that a validated import succeeds, that a flow
      survives its export (and what of it does not); which definition of a
      schema a configured one replaces, and that the walk along definitions ends
      exactly when their references do;
    - validation: what an accepted edge guarantees and where hints point; mocks
      have the declared shape; recorded data wins over mocks and mocks over
      examples; a definition is the same in every port of its node;
    - evaluations: a spec passes exactly when all its claims hold, and an
      environment reference is replaced exactly or reported by name;
    - the cluster: no reference to a deleted node or flow is left but where an
      update was refused and logged, exposing and disclosing a port is the
      identity on rules of the manager's own shape (and damages others), and a
      wait ends exactly when the controller has reported;
    - tools: a build that is refused has written nothing, one that is not writes
      in phases, a response without errors means that all that was asked for is
      there, and a rejected edge is deleted or reported; an edit writes a prefix
      of its plan and all of it on success; a scaffolded sample answers every
      path that the port's edges read and never contradicts the schema it is
      mapped into; derived schemas describe the data; a flow without faults is
      wired; what is published holds no literal secret of the kinds named; a
      cloned solution is complete where every call succeeded;
    - reports: the statistics of a trace and the totals of usage count each span
      exactly once, where it belongs; a page of widgets is accepted exactly when
      no rule forbids it; the access check tells exactly what is not granted;
    - callers: a signal reaches its port and its caller the answer;
    - receivers: whatever a broker loses and whenever, a receiver comes back to
      a live consumer within seven steps of its own once the broker answers, and
      never holds two; a tool that asks services succeeds exactly when all of
      them answered; enriching a schema from a live value ends, keeps what an
      author declared, and depends on the order of a map; identifiers of traces
      sort by time;
    - processes: a module starts exactly when all it needs is there, does its
      steps in order, and says so by its exit code but where named; once it is
      told to stop it ends, if a leader was ever seen, and not before.

    ** Not modelled

    Logging and generated code (protobuf, deepcopy) have no behaviour of their
    own to verify. Reflection over Go types is a library's, of which only the
    hook for properties and what is made of its result are modelled; so are the
    OpenTelemetry SDK, Helm's releases and the watches of the cluster. The
    receivers of core NATS subscribe, wait and drain, which is the client's.
    Of the command line the flags are left out. The
    texts that the tools carry (descriptions, input schemas, the guide itself)
    are constants. *)

From stdpp Require Export base tactics option list strings gmap sorting.
From Stdlib Require Export ZArith Lia.
From Stdlib Require Export Ascii.
From Stdlib Require Import String DecimalString DecimalZ DecimalFacts.

Declare Scope go_scope.
Delimit Scope go_scope with go.

(** ** Results: a Go call that returns [(value, error)] *)

Inductive result (E A : Type) : Type :=
| Ok (a : A)
| Err (e : E).
Arguments Ok {E A} a.
Arguments Err {E A} e.

Definition rbind {E A B} (m : result E A) (k : A -> result E B) : result E B :=
  match m with Ok a => k a | Err e => Err e end.

Notation "'let!' x ':=' m 'in' k" := (rbind m (fun x => k))
  (at level 10, x pattern, m at level 100, k at level 200) : go_scope.

Definition is_ok {E A} (m : result E A) : bool :=
  match m with Ok _ => true | Err _ => false end.

(** ** Go's [strings] package on byte strings

    A Go [string] is a sequence of bytes; so is a Rocq [string]. Only the
    functions the sources call are modelled, on the arguments they use (one
    byte separators). *)

Definition go_has_prefix (s p : string) : bool := String.prefix p s.

Fixpoint go_has_suffix (s p : string) : bool :=
  if String.eqb s p then true
  else match s with EmptyString => false | String _ s' => go_has_suffix s' p end.

Fixpoint go_contains (s sub : string) : bool :=
  if String.prefix sub s then true
  else match s with EmptyString => false | String _ s' => go_contains s' sub end.

(** [strings.Contains(s, c)] for a one byte [c]. *)
Fixpoint str_has (c : ascii) (s : string) : bool :=
  match s with
  | EmptyString => false
  | String d s' => if Ascii.eqb d c then true else str_has c s'
  end.

(** [strings.Split(s, sep)] for a one byte [sep]: never empty. *)
Fixpoint go_split (sep : ascii) (s : string) : list string :=
  match s with
  | EmptyString => [EmptyString]
  | String c s' =>
      if Ascii.eqb c sep then EmptyString :: go_split sep s'
      else match go_split sep s' with
           | [] => [String c EmptyString]
           | w :: ws => String c w :: ws
           end
  end.

(** [strings.Cut]: around the first occurrence of [sep]. *)
Fixpoint go_cut (sep : ascii) (s : string) : option (string * string) :=
  match s with
  | EmptyString => None
  | String c s' =>
      if Ascii.eqb c sep then Some (EmptyString, s')
      else match go_cut sep s' with
           | Some (a, b) => Some (String c a, b)
           | None => None
           end
  end.

(** [strings.SplitN(s, sep, n)]. *)
Fixpoint go_splitn (sep : ascii) (n : nat) (s : string) : list string :=
  match n with
  | O => []
  | S O => [s]
  | S n' => match go_cut sep s with
            | Some (a, b) => a :: go_splitn sep n' b
            | None => [s]
            end
  end.

(** Around the last occurrence of [sep] ([strings.LastIndex] and two slices). *)
Fixpoint go_cut_last (sep : ascii) (s : string) : option (string * string) :=
  match s with
  | EmptyString => None
  | String c s' =>
      match go_cut_last sep s' with
      | Some (a, b) => Some (String c a, b)
      | None => if Ascii.eqb c sep then Some (EmptyString, s') else None
      end
  end.

Fixpoint string_map (f : ascii -> ascii) (s : string) : string :=
  match s with
  | EmptyString => EmptyString
  | String c s' => String (f c) (string_map f s')
  end.

(** [strings.ReplaceAll(s, c, d)] for one byte [c] and [d]. *)
Definition go_replace_char (c d : ascii) (s : string) : string :=
  string_map (fun x => if Ascii.eqb x c then d else x) s.

Definition in_range (lo hi : ascii) (c : ascii) : bool :=
  ((N_of_ascii lo <=? N_of_ascii c) && (N_of_ascii c <=? N_of_ascii hi))%N.

Definition is_upper (c : ascii) : bool := in_range "A" "Z" c.
Definition is_lower (c : ascii) : bool := in_range "a" "z" c.
Definition is_digit (c : ascii) : bool := in_range "0" "9" c.
Definition is_alnum (c : ascii) : bool := is_upper c || is_lower c || is_digit c.

(** [unicode.ToLower] on the ASCII range. *)
Definition lower_ascii (c : ascii) : ascii :=
  if is_upper c then ascii_of_N (N_of_ascii c + 32) else c.

Definition go_to_lower (s : string) : string := string_map lower_ascii s.

(** [strings.EqualFold] on the ASCII range. *)
Definition go_equal_fold (a b : string) : bool :=
  String.eqb (go_to_lower a) (go_to_lower b).

Fixpoint go_trim_left (c : ascii) (s : string) : string :=
  match s with
  | EmptyString => EmptyString
  | String d s' => if Ascii.eqb d c then go_trim_left c s' else s
  end.

Fixpoint string_rev_app (s acc : string) : string :=
  match s with
  | EmptyString => acc
  | String c s' => string_rev_app s' (String c acc)
  end.

Definition string_rev (s : string) : string := string_rev_app s EmptyString.

(** [strings.Trim(s, c)] for a one byte cutset. *)
Definition go_trim (c : ascii) (s : string) : string :=
  string_rev (go_trim_left c (string_rev (go_trim_left c s))).

Fixpoint string_drop (n : nat) (s : string) : string :=
  match n, s with
  | S n', String _ s' => string_drop n' s'
  | _, _ => s
  end.

Fixpoint go_join (sep : string) (l : list string) : string :=
  match l with
  | [] => EmptyString
  | [s] => s
  | s :: l' => (s +:+ sep +:+ go_join sep l')%string
  end.

(** The width in bytes of a leading [unicode.IsSpace] character, 0 for none. *)
Definition space_width (s : string) : nat :=
  match s with
  | String "194" (String ("133" | "160") _) => 2                 (* U+0085, U+00A0 *)
  | String "225" (String "154" (String "128" _)) => 3            (* U+1680 *)
  | String "226" (String "128" (String c _)) =>                  (* U+2000..200A, 2028, 2029, 202F *)
      if in_range "128" "138" c || in_range "168" "169" c || Ascii.eqb c "175" then 3 else 0
  | String "226" (String "129" (String "159" _)) => 3            (* U+205F *)
  | String "227" (String "128" (String "128" _)) => 3            (* U+3000 *)
  | String c _ => if in_range "009" "013" c || Ascii.eqb c " " then 1 else 0
  | EmptyString => 0
  end.

Fixpoint trim_space_left (skip : nat) (s : string) : string :=
  match s with
  | EmptyString => EmptyString
  | String _ s' =>
      match skip with
      | S n => trim_space_left n s'
      | O => match space_width s with O => s | S n => trim_space_left n s' end
      end
  end.

Fixpoint all_space (skip : nat) (s : string) : bool :=
  match s with
  | EmptyString => true
  | String _ s' =>
      match skip with
      | S n => all_space n s'
      | O => match space_width s with O => false | S n => all_space n s' end
      end
  end.

Fixpoint trim_space_right (s : string) : string :=
  if all_space 0 s then EmptyString
  else match s with String c s' => String c (trim_space_right s') | EmptyString => EmptyString end.

(** [strings.TrimSpace]. *)
Definition go_trim_space (s : string) : string := trim_space_right (trim_space_left 0 s).

(** The first [n] bytes. *)
Fixpoint string_take (n : nat) (s : string) : string :=
  match n, s with
  | S n', String c s' => String c (string_take n' s')
  | _, _ => EmptyString
  end.

(** [strings.TrimPrefix]. *)
Definition go_trim_prefix (s p : string) : string :=
  if go_has_prefix s p then string_drop (String.length p) s else s.

(** The byte at offset [i] is between [lo] and [hi]. *)
Definition byte_in (i : nat) (lo hi : N) (s : string) : bool :=
  match String.get i s with
  | Some c => ((lo <=? N_of_ascii c) && (N_of_ascii c <=? hi))%N
  | None => false
  end.

(** The length in bytes of the rune a string starts with, as Go decodes UTF-8:
    1 for ASCII and for an invalid sequence. *)
Definition rune_width (s : string) : nat :=
  let conts n := forallb (fun i => byte_in i 128 191 s) (seq 2 n) in
  if byte_in 0 194 223 s then if byte_in 1 128 191 s then 2 else 1
  else if byte_in 0 224 224 s then if byte_in 1 160 191 s && conts 1 then 3 else 1
  else if byte_in 0 237 237 s then if byte_in 1 128 159 s && conts 1 then 3 else 1
  else if byte_in 0 225 239 s then if byte_in 1 128 191 s && conts 1 then 3 else 1
  else if byte_in 0 240 240 s then if byte_in 1 144 191 s && conts 2 then 4 else 1
  else if byte_in 0 241 243 s then if byte_in 1 128 191 s && conts 2 then 4 else 1
  else if byte_in 0 244 244 s then if byte_in 1 128 143 s && conts 2 then 4 else 1
  else 1.

(** [sort.Strings] (byte order). *)
Definition str_le (a b : string) : Prop := String.leb a b = true.
#[export] Instance str_le_dec (a b : string) : Decision (str_le a b).
Proof. unfold str_le. apply _. Defined.

Definition go_sort_strings (l : list string) : list string := merge_sort str_le l.

(** [sort.SliceStable] by a string key: insertion after the equal ones. *)
Fixpoint insert_stable {A} (key : A -> string) (x : A) (l : list A) : list A :=
  match l with
  | [] => [x]
  | y :: l' => if String.ltb (key x) (key y) then x :: l else y :: insert_stable key x l'
  end.

Definition sort_stable {A} (key : A -> string) (l : list A) : list A :=
  foldl (fun acc x => insert_stable key x acc) [] l.

(** [len] of a string, as an integer. *)
Definition str_len (s : string) : Z := Z.of_nat (String.length s).

#[global] Arguments str_has c%_char_scope s%_string_scope.
#[global] Arguments go_split sep%_char_scope s%_string_scope.
#[global] Arguments go_cut sep%_char_scope s%_string_scope.
#[global] Arguments go_splitn sep%_char_scope n%_nat_scope s%_string_scope.
#[global] Arguments go_cut_last sep%_char_scope s%_string_scope.
#[global] Arguments go_replace_char (c d)%_char_scope s%_string_scope.
#[global] Arguments go_trim c%_char_scope s%_string_scope.
#[global] Arguments go_trim_left c%_char_scope s%_string_scope.

(** ** [strconv] on 64 bit integers *)

Definition min_int64 : Z := - 2 ^ 63.
Definition max_int64 : Z := 2 ^ 63 - 1.

Definition in_int64 (z : Z) : bool := ((min_int64 <=? z) && (z <=? max_int64))%Z.

(** [strconv.Itoa] / [strconv.FormatInt(_, 10)]. *)
Definition go_itoa (z : Z) : string := NilZero.string_of_int (Z.to_int z).

(** An optional sign and decimal digits. *)
Definition parse_decimal (s : string) : option Z :=
  match s with
  | String "+"%char s' => option_map Z.of_uint (NilZero.uint_of_string s')
  | _ => option_map Z.of_int (NilZero.int_of_string s)
  end.

(** [strconv.Atoi] / [strconv.ParseInt(_, 10, 64)], where an error (here
    [None]) is also what is out of range; and the number they return next to
    the error: 0, or the nearest that fits. *)
Definition go_atoi (s : string) : option Z :=
  match parse_decimal s with
  | Some z => if in_int64 z then Some z else None
  | None => None
  end.

Definition go_atoi_value (s : string) : Z :=
  match parse_decimal s with
  | Some z => Z.max min_int64 (Z.min z max_int64)
  | None => 0
  end.

(** [fmt]'s %q: ASCII, and valid UTF-8 of printable characters. *)
Definition hex_char (n : nat) : ascii := ascii_of_nat (if (n <? 10)%nat then 48 + n else 87 + n).

Definition quote_char (c : ascii) : string :=
  let n := nat_of_ascii c in
  let esc x := String "\"%char (String x EmptyString) in
  if Ascii.eqb c "034" || Ascii.eqb c "\" then esc c
  else if (n =? 7)%nat then esc "a"%char
  else if (n =? 8)%nat then esc "b"%char
  else if (n =? 9)%nat then esc "t"%char
  else if (n =? 10)%nat then esc "n"%char
  else if (n =? 11)%nat then esc "v"%char
  else if (n =? 12)%nat then esc "f"%char
  else if (n =? 13)%nat then esc "r"%char
  else if (n <? 32)%nat || (n =? 127)%nat
  then String "\" (String "x" (String (hex_char (n / 16)) (String (hex_char (n mod 16)) EmptyString)))
  else String c EmptyString.

Fixpoint quote_chars (s : string) : string :=
  match s with
  | EmptyString => EmptyString
  | String c s' => String.append (quote_char c) (quote_chars s')
  end.

Definition go_quote (s : string) : string :=
  String "034" (String.append (quote_chars s) (String "034" EmptyString)).

(** ** Map iteration

    The order in which Go ranges over a map is unspecified: a definition that
    ranges over one takes the order from this class, and its theorems hold for
    every order. *)
Class MapRange (V : Type) := {
  map_range : gmap string V -> list (string * V);
  map_range_perm : forall m, map_range m ≡ₚ map_to_list m;
}.

(** A witness order, for concrete evaluations. It is not an instance: a
    theorem must not depend on one order. *)
Definition map_range_some_order (V : Type) : MapRange V :=
  {| map_range := map_to_list; map_range_perm := fun m => reflexivity _ |}.

(** ** [sort.Slice] *)

(** It is not stable; what it does with a [less] that is no ordering of
    the list is left open. *)
Class SliceSort := {
  slice_sort : forall {A : Type}, (A -> A -> bool) -> list A -> list A;
  slice_sort_perm : forall A (less : A -> A -> bool) l, slice_sort less l ≡ₚ l;
  slice_sort_sorted : forall A (less : A -> A -> bool) l,
    (forall x y, x ∈ l -> y ∈ l -> less x y = true -> less y x = false) ->
    (forall x y z, x ∈ l -> y ∈ l -> z ∈ l -> less x y = false -> less y z = false -> less x z = false) ->
    Sorted (fun x y => less y x = false) (slice_sort less l);
}.

(** Insertion sort is one implementation, for concrete evaluations. *)
Fixpoint insert_less {A} (less : A -> A -> bool) (x : A) (l : list A) : list A :=
  match l with [] => [x] | y :: l' => if less y x then y :: insert_less less x l' else x :: l end.
Definition sort_less {A} (less : A -> A -> bool) (l : list A) : list A := foldr (insert_less less) [] l.

Lemma insert_less_perm {A} (less : A -> A -> bool) (x : A) (l : list A) : insert_less less x l ≡ₚ x :: l.
Proof. induction l as [|y l IH]; [done|]. cbn. destruct (less y x); [|done]. rewrite IH. by constructor. Qed.

Lemma sort_less_perm {A} (less : A -> A -> bool) (l : list A) : sort_less less l ≡ₚ l.
Proof. induction l as [|x l IH]; [done|]. cbn. by rewrite insert_less_perm, IH. Qed.

Lemma insert_less_sorted {A} (less : A -> A -> bool) (x : A) (l : list A) :
  (forall y, y ∈ l -> less y x = true -> less x y = false) ->
  Sorted (fun a b => less b a = false) l -> Sorted (fun a b => less b a = false) (insert_less less x l).
Proof.
  intros Hx. induction 1 as [|y l Hl IH Hy]; [by repeat constructor|]. cbn. destruct (less y x) eqn:E.
  - constructor; [apply IH; intros z Hz; apply Hx; by right|].
    destruct l as [|z l]; cbn; [constructor; apply Hx; [by left|done]|].
    destruct (less z x); constructor; [by apply HdRel_inv in Hy|apply Hx; [by left|done]].
  - constructor; [by constructor|by constructor].
Qed.

Lemma sort_less_sorted {A} (less : A -> A -> bool) (l : list A) :
  (forall x y, x ∈ l -> y ∈ l -> less x y = true -> less y x = false) ->
  Sorted (fun a b => less b a = false) (sort_less less l).
Proof.
  induction l as [|x l IH]; intros Ha; [constructor|]. cbn. apply insert_less_sorted.
  - intros y Hy. apply Ha; [|by left]. right. by rewrite <- (sort_less_perm less l).
  - apply IH. intros y z Hy Hz. apply Ha; by right.
Qed.

Definition insertion_sort : SliceSort :=
  {| slice_sort := @sort_less; slice_sort_perm := @sort_less_perm;
     slice_sort_sorted := fun A less l Ha _ => sort_less_sorted less l Ha |}.

(** ** Lemmas on strings *)

Lemma str_app_nil_l (s : string) : ("" +:+ s)%string = s.
Proof. reflexivity. Qed.

Lemma str_app_cons (c : ascii) (a b : string) :
  (String c a +:+ b)%string = String c (a +:+ b)%string.
Proof. reflexivity. Qed.

Lemma str_app_nil_r (s : string) : (s +:+ "")%string = s.
Proof. induction s as [|c s IH]; [done|]. by rewrite str_app_cons, IH. Qed.

Lemma str_app_assoc (a b c : string) :
  ((a +:+ b) +:+ c)%string = (a +:+ (b +:+ c))%string.
Proof. induction a as [|x a IH]; [done|]. by rewrite !str_app_cons, IH. Qed.

Lemma str_length_app (a b : string) :
  String.length (a +:+ b)%string = (String.length a + String.length b)%nat.
Proof. induction a as [|x a IH]; [done|]. rewrite str_app_cons. simpl. by rewrite IH. Qed.

Lemma str_has_app (c : ascii) (a b : string) :
  str_has c (a +:+ b)%string = str_has c a || str_has c b.
Proof.
  induction a as [|d a IH]; [done|]. rewrite str_app_cons. simpl.
  by destruct (Ascii.eqb d c).
Qed.

Lemma str_has_cons_same (c : ascii) (s : string) : str_has c (String c s) = true.
Proof. simpl. by rewrite Ascii.eqb_refl. Qed.

Create Rewrite HintDb gostr.
#[export] Hint Rewrite str_app_nil_l str_app_nil_r str_app_cons str_app_assoc : gostr.

Lemma prefix_refl_app (p s : string) : String.prefix p (p +:+ s)%string = true.
Proof.
  induction p as [|c p IH]; [by destruct s|]. rewrite str_app_cons. simpl.
  destruct (ascii_dec c c); [done|congruence].
Qed.

Lemma prefix_spec (p s : string) :
  String.prefix p s = true -> exists r, s = (p +:+ r)%string.
Proof.
  revert s. induction p as [|c p IH]; intros s H.
  - by exists s.
  - destruct s as [|d s]; simpl in H; [done|].
    destruct (ascii_dec c d) as [->|]; [|done].
    destruct (IH _ H) as [r ->]. by exists r.
Qed.

Lemma has_prefix_iff (s p : string) :
  go_has_prefix s p = true <-> exists r, s = (p +:+ r)%string.
Proof.
  split; [apply prefix_spec|]. intros [r ->]. apply prefix_refl_app.
Qed.

Lemma string_drop_app (p s : string) :
  string_drop (String.length p) (p +:+ s)%string = s.
Proof. induction p as [|c p IH]; [done|]. apply IH. Qed.

Lemma trim_prefix_app (p s : string) : go_trim_prefix (p +:+ s)%string p = s.
Proof.
  unfold go_trim_prefix, go_has_prefix. by rewrite prefix_refl_app, string_drop_app.
Qed.

Lemma string_take_app (p s : string) :
  string_take (String.length p) (p +:+ s)%string = p.
Proof. induction p as [|c p IH]; [by destruct s|]. rewrite str_app_cons. simpl. by rewrite IH. Qed.

Lemma str_app_inj_l (p a b : string) : (p +:+ a)%string = (p +:+ b)%string -> a = b.
Proof. induction p as [|c p IH]; [done|]. rewrite !str_app_cons. intros [= H]. by apply IH. Qed.

Lemma has_suffix_iff (s p : string) :
  go_has_suffix s p = true <-> exists r, s = (r +:+ p)%string.
Proof.
  induction s as [|c s IH].
  - cbn [go_has_suffix]. destruct (String.eqb_spec "" p) as [<-|Hne].
    + split; [intros _; by exists ""|done].
    + split; [done|]. intros [[|x r] Hr]; [by subst|done].
  - cbn [go_has_suffix]. destruct (String.eqb_spec (String c s) p) as [<-|Hne].
    + split; [intros _; by exists ""|done].
    + rewrite IH. split.
      * intros [r ->]. by exists (String c r).
      * intros [[|x r] Hr]; [by subst|]. injection Hr as -> ->. by exists r.
Qed.

Lemma go_split_nosep (sep : ascii) (s : string) :
  str_has sep s = false -> go_split sep s = [s].
Proof.
  induction s as [|c s IH]; [done|]. simpl.
  destruct (Ascii.eqb c sep); [done|]. intros H. by rewrite IH.
Qed.

Lemma go_split_app (sep : ascii) (a b : string) :
  str_has sep a = false ->
  go_split sep (a +:+ String sep b)%string = a :: go_split sep b.
Proof.
  induction a as [|c a IH]; intros H.
  - rewrite str_app_nil_l. simpl. by rewrite Ascii.eqb_refl.
  - rewrite str_app_cons. simpl in *. destruct (Ascii.eqb c sep); [done|].
    by rewrite IH.
Qed.

Lemma go_split_nonempty (sep : ascii) (s : string) : go_split sep s <> [].
Proof.
  destruct s as [|c s]; simpl; [done|].
  destruct (Ascii.eqb c sep); [done|]. by destruct (go_split sep s).
Qed.

Lemma go_split_pieces (sep : ascii) (s : string) :
  Forall (fun w => str_has sep w = false) (go_split sep s).
Proof.
  induction s as [|c s IH]; simpl; [by repeat constructor|].
  destruct (Ascii.eqb c sep) eqn:E; [by constructor|].
  destruct (go_split sep s) as [|w ws].
  - repeat constructor. simpl. by rewrite E.
  - inversion IH; subst. constructor; [|done]. simpl. by rewrite E.
Qed.

(** Joining the pieces with the separator gives the string back. *)
Lemma go_join_split (sep : ascii) (s : string) :
  go_join (String sep "") (go_split sep s) = s.
Proof.
  induction s as [|c s IH]; [done|]. simpl.
  destruct (Ascii.eqb_spec c sep) as [->|Hne].
  - pose proof (go_split_nonempty sep s). destruct (go_split sep s); [done|].
    simpl in *. by rewrite IH.
  - pose proof (go_split_nonempty sep s). destruct (go_split sep s) as [|w ws]; [done|].
    destruct ws; simpl in *; by rewrite <- IH.
Qed.

Lemma go_cut_app (sep : ascii) (a b : string) :
  str_has sep a = false -> go_cut sep (a +:+ String sep b)%string = Some (a, b).
Proof.
  induction a as [|c a IH]; intros H.
  - rewrite str_app_nil_l. simpl. by rewrite Ascii.eqb_refl.
  - rewrite str_app_cons. simpl in *. destruct (Ascii.eqb c sep); [done|].
    by rewrite IH.
Qed.

Lemma go_cut_none (sep : ascii) (s : string) :
  go_cut sep s = None <-> str_has sep s = false.
Proof.
  induction s as [|c s IH]; [done|]. simpl.
  destruct (Ascii.eqb c sep); [done|].
  destruct (go_cut sep s) as [[a b]|]; [|tauto].
  split; [done|]. intros H%IH. done.
Qed.

Lemma go_cut_some (sep : ascii) (s a b : string) :
  go_cut sep s = Some (a, b) -> s = (a +:+ String sep b)%string /\ str_has sep a = false.
Proof.
  revert a. induction s as [|c s IH]; intros a H; [done|]. simpl in H.
  destruct (Ascii.eqb_spec c sep) as [->|Hne].
  - by injection H as <- <-.
  - destruct (go_cut sep s) as [[a' b']|]; [|done]. injection H as <- <-.
    destruct (IH a' eq_refl) as [-> Ha]. split; [done|]. simpl.
    by destruct (Ascii.eqb_spec c sep).
Qed.

Lemma go_cut_last_nosep (sep : ascii) (s : string) :
  str_has sep s = false -> go_cut_last sep s = None.
Proof.
  induction s as [|c s IH]; [done|]. simpl.
  destruct (Ascii.eqb c sep); [done|]. intros H. by rewrite IH.
Qed.

Lemma go_cut_last_app (sep : ascii) (a b : string) :
  str_has sep b = false -> go_cut_last sep (a +:+ String sep b)%string = Some (a, b).
Proof.
  intros Hb. induction a as [|c a IH].
  - rewrite str_app_nil_l. simpl. by rewrite (go_cut_last_nosep _ _ Hb), Ascii.eqb_refl.
  - rewrite str_app_cons. simpl. by rewrite IH.
Qed.

Lemma string_map_app (f : ascii -> ascii) (a b : string) :
  string_map f (a +:+ b)%string = (string_map f a +:+ string_map f b)%string.
Proof. induction a as [|c a IH]; [done|]. rewrite !str_app_cons. simpl. by rewrite IH. Qed.

Lemma string_map_map (f g : ascii -> ascii) (s : string) :
  string_map f (string_map g s) = string_map (fun c => f (g c)) s.
Proof. induction s as [|c s IH]; [done|]. simpl. by rewrite IH. Qed.

Lemma string_map_ext (f g : ascii -> ascii) (s : string) :
  (forall c, f c = g c) -> string_map f s = string_map g s.
Proof. intros H. induction s as [|c s IH]; [done|]. simpl. by rewrite H, IH. Qed.

Lemma string_map_id (f : ascii -> ascii) (s : string) :
  (forall c, f c = c) -> string_map f s = s.
Proof. intros H. induction s as [|c s IH]; [done|]. simpl. by rewrite H, IH. Qed.

Lemma string_map_length (f : ascii -> ascii) (s : string) :
  String.length (string_map f s) = String.length s.
Proof. induction s as [|c s IH]; [done|]. simpl. by rewrite IH. Qed.

(** A property of bytes that can be checked on the 256 values holds of all. *)
Definition all_ascii : list ascii :=
  map (fun n => ascii_of_nat n) (seq 0 256).

Lemma all_ascii_complete (c : ascii) : c ∈ all_ascii.
Proof.
  unfold all_ascii. apply list_elem_of_In, in_map_iff. exists (nat_of_ascii c).
  split; [apply ascii_nat_embedding|]. apply in_seq.
  pose proof (nat_ascii_bounded c). lia.
Qed.

Lemma ascii_forall (P : ascii -> bool) :
  forallb P all_ascii = true -> forall c, P c = true.
Proof.
  intros H c. rewrite forallb_forall in H. apply H, list_elem_of_In, all_ascii_complete.
Qed.

Lemma lower_ascii_idem (c : ascii) : lower_ascii (lower_ascii c) = lower_ascii c.
Proof.
  apply Ascii.eqb_eq.
  apply (ascii_forall (fun c => Ascii.eqb (lower_ascii (lower_ascii c)) (lower_ascii c))).
  vm_compute. reflexivity.
Qed.

#[export] Instance str_le_total : Total str_le.
Proof.
  intros a b. unfold str_le, String.leb. rewrite (String.compare_antisym b a).
  destruct (String.compare a b); [by left|by left|by right].
Qed.

Lemma go_sort_strings_perm (l : list string) : go_sort_strings l ≡ₚ l.
Proof. apply merge_sort_Permutation. Qed.

Lemma go_sort_strings_sorted (l : list string) : Sorted str_le (go_sort_strings l).
Proof. apply Sorted_merge_sort. apply _. Qed.

Lemma str_le_trans : Transitive str_le.
Proof.
  intros a b c. unfold str_le, String.leb. revert b c.
  induction a as [|x a IH]; intros [|y b] [|z c]; simpl; try done.
  unfold Ascii.compare. specialize (IH b c).
  destruct (N.compare_spec (N_of_ascii x) (N_of_ascii y)) as [E|E|E]; try done;
    destruct (N.compare_spec (N_of_ascii y) (N_of_ascii z)) as [E'|E'|E']; try done;
    destruct (N.compare_spec (N_of_ascii x) (N_of_ascii z)); try done; lia.
Qed.

Lemma str_le_antisym (a b : string) : str_le a b -> str_le b a -> a = b.
Proof.
  unfold str_le, String.leb. rewrite (String.compare_antisym a b).
  destruct (String.compare b a) eqn:E; simpl; [|done..]. intros _ _.
  symmetry. by apply String.compare_eq_iff.
Qed.

(** The sorted list depends on no order. *)
Lemma go_sort_strings_proper (l k : list string) : l ≡ₚ k -> go_sort_strings l = go_sort_strings k.
Proof.
  intros Hp. apply (StronglySorted_unique_strong str_le).
  - intros a b _ _. apply str_le_antisym.
  - apply Sorted_StronglySorted; [apply str_le_trans|apply go_sort_strings_sorted].
  - apply Sorted_StronglySorted; [apply str_le_trans|apply go_sort_strings_sorted].
  - by rewrite !go_sort_strings_perm.
Qed.

Lemma flat_map_nil {A B} (f : A -> list B) (l : list A) : flat_map f l = [] <-> forall x, x ∈ l -> f x = [].
Proof.
  induction l as [|a l IH]; cbn; [by split; [intros _ x Hx; by apply not_elem_of_nil in Hx|]|].
  split.
  - intros [Ha Hl]%app_nil x [->|Hx]%elem_of_cons; [done|]. by apply IH.
  - intros Hx. rewrite (Hx a) by left. apply IH. intros x Hin. apply Hx. by right.
Qed.

Lemma insert_stable_perm {A} (key : A -> string) (x : A) (l : list A) :
  insert_stable key x l ≡ₚ x :: l.
Proof.
  induction l as [|y l IH]; [done|]. simpl. destruct (String.ltb (key x) (key y)); [done|].
  rewrite IH. constructor.
Qed.

Lemma ltb_le (a b : string) : String.ltb a b = true -> str_le a b.
Proof. unfold String.ltb, str_le, String.leb. by destruct (String.compare a b). Qed.

Lemma nltb_le (a b : string) : String.ltb a b = false -> str_le b a.
Proof.
  unfold String.ltb, str_le, String.leb. rewrite (String.compare_antisym b a).
  by destruct (String.compare a b).
Qed.

Lemma insert_stable_sorted {A} (key : A -> string) (x : A) (l : list A) :
  Sorted str_le (key <$> l) -> Sorted str_le (key <$> insert_stable key x l).
Proof.
  induction l as [|y l IH]; intros Hs; [repeat constructor|]. simpl.
  destruct (String.ltb (key x) (key y)) eqn:E.
  - csimpl. constructor; [done|]. constructor. by apply ltb_le.
  - csimpl in *. inversion Hs as [|? ? Hl Hh]; subst. constructor; [by apply IH|].
    destruct l as [|z l]; simpl; [constructor; by apply nltb_le|].
    destruct (String.ltb (key x) (key z)); csimpl; constructor; [by apply nltb_le|].
    by inversion Hh.
Qed.

Lemma sort_stable_spec {A} (key : A -> string) (l : list A) :
  sort_stable key l ≡ₚ l /\ Sorted str_le (key <$> sort_stable key l).
Proof.
  unfold sort_stable.
  assert (H : forall acc, Sorted str_le (key <$> acc) ->
    foldl (fun acc x => insert_stable key x acc) acc l ≡ₚ acc ++ l /\
    Sorted str_le (key <$> foldl (fun acc x => insert_stable key x acc) acc l)).
  { induction l as [|x l IH]; intros acc Hs; simpl; [by rewrite List.app_nil_r|].
    destruct (IH (insert_stable key x acc)) as [Hp Hs']; [by apply insert_stable_sorted|].
    split; [|done]. rewrite Hp, insert_stable_perm. by rewrite <- Permutation_middle. }
  apply (H []). constructor.
Qed.

(** ** Lemmas on integers as text *)

Lemma uint_of_string_head (c : ascii) (s : string) (d : Decimal.uint) :
  NilZero.uint_of_string (String c s) = Some d -> is_digit c = true.
Proof.
  unfold NilZero.uint_of_string. simpl. unfold uint_of_char.
  destruct (NilEmpty.uint_of_string s); [|by destruct c as [[] [] [] [] [] [] [] []]].
  by destruct c as [[] [] [] [] [] [] [] []].
Qed.

Lemma itoa_nonplus (z : Z) (s : string) : go_itoa z <> String "+" s.
Proof.
  unfold go_itoa. destruct (Z.to_int z) as [d|d]; simpl; [|done].
  by destruct d.
Qed.

Lemma parse_itoa (z : Z) : parse_decimal (go_itoa z) = Some z.
Proof.
  unfold parse_decimal.
  assert (Hp : (match go_itoa z with
                | String "+"%char s' => option_map Z.of_uint (NilZero.uint_of_string s')
                | _ => option_map Z.of_int (NilZero.int_of_string (go_itoa z))
                end) = option_map Z.of_int (NilZero.int_of_string (go_itoa z))).
  { pose proof (itoa_nonplus z) as Hn. destruct (go_itoa z) as [|c s]; [done|].
    destruct c as [[] [] [] [] [] [] [] []]; try done. by destruct (Hn s). }
  rewrite Hp. unfold go_itoa.
  assert (Hi : NilZero.int_of_string (NilZero.string_of_int (Z.to_int z)) = Some (Z.to_int z)).
  { apply NilZero.isi; destruct z as [|p|p]; simpl; try done;
    intros [=]; by apply (DecimalPos.Unsigned.to_uint_nonnil p). }
  rewrite Hi. simpl. by rewrite DecimalZ.of_to.
Qed.

Lemma atoi_itoa (z : Z) :
  (min_int64 <= z <= max_int64)%Z -> go_atoi (go_itoa z) = Some z.
Proof.
  intros [H1 H2]. unfold go_atoi, in_int64. rewrite parse_itoa.
  by rewrite (proj2 (Z.leb_le _ _) H1), (proj2 (Z.leb_le _ _) H2).
Qed.

Lemma atoi_value_itoa (z : Z) :
  (min_int64 <= z <= max_int64)%Z -> go_atoi_value (go_itoa z) = z.
Proof. unfold go_atoi_value. rewrite parse_itoa. lia. Qed.

(** ** Lemmas on lists filtered by a boolean test *)

Lemma fold_left_ext {A B} (f g : A -> B -> A) (l : list B) (a : A) :
  (forall a b, f a b = g a b) -> fold_left f l a = fold_left g l a.
Proof. intros E. revert a. induction l as [|b l IH]; intros a; [done|]. cbn. by rewrite E. Qed.

Lemma forallb_ext {A} (p q : A -> bool) (l : list A) :
  (forall x, p x = q x) -> forallb p l = forallb q l.
Proof. intros H. induction l as [|x l IH]; [done|]. simpl. by rewrite H, IH. Qed.

Lemma filter_filter_id {A} (p : A -> bool) (l : list A) :
  List.filter p (List.filter p l) = List.filter p l.
Proof.
  induction l as [|x l IH]; [done|]. simpl. destruct (p x) eqn:E; [|done].
  simpl. by rewrite E, IH.
Qed.

Lemma filter_none {A} (p : A -> bool) (l : list A) :
  forallb (fun x => negb (p x)) l = true -> List.filter p l = [].
Proof.
  induction l as [|x l IH]; [done|]. simpl. intros [Hx Hl]%andb_prop.
  apply negb_true_iff in Hx. by rewrite Hx, IH.
Qed.

Lemma filter_all {A} (p : A -> bool) (l : list A) :
  forallb p l = true -> List.filter p l = l.
Proof.
  induction l as [|x l IH]; [done|]. simpl. intros [-> Hl]%andb_prop. by rewrite IH.
Qed.

Lemma existsb_filter_negb {A} (p : A -> bool) (l : list A) :
  existsb p (List.filter (fun x => negb (p x)) l) = false.
Proof.
  induction l as [|x l IH]; [done|]. simpl. destruct (p x) eqn:E; [done|].
  simpl. by rewrite E, IH.
Qed.

Lemma filter_negb_id {A} (p : A -> bool) (l : list A) :
  existsb p l = false -> List.filter (fun x => negb (p x)) l = l.
Proof.
  induction l as [|x l IH]; [done|]. simpl. intros [-> Hl]%orb_false_elim.
  by rewrite IH.
Qed.

(** ** Tactics *)

(** Case on every boolean test and match of the goal, closing the trivial cases. *)
Ltac case_all :=
  repeat match goal with
  | |- context [ if ?b then _ else _ ] => let E := fresh "E" in destruct b eqn:E
  | |- context [ match ?b with _ => _ end ] => let E := fresh "E" in destruct b eqn:E
  end; simplify_eq; try done.

Ltac case_hyp H :=
  repeat match type of H with
  | context [ if ?b then _ else _ ] => let E := fresh "E" in destruct b eqn:E
  | context [ match ?b with _ => _ end ] => let E := fresh "E" in destruct b eqn:E
  end; simplify_eq; try done.
