(* ===== verification/GoErrors.v ===== *)
(** * Errors and results

    The error values that travel through the SDK: [pkg/errors/errors.go]
    (permanent and coded errors), [module/errors.go] (the retryable marking
    and the one predicate every retry layer consults) and [module/result.go]
    (the value a handler returns).

    A Go [error] is an interface value: [option goerror], where [None] is nil.
    [goerror] lists the concrete types the sources build, each with what it
    wraps; [unwrap] is the standard library's [errors.Unwrap], [chain] the
    sequence [errors.As] walks. *)
From S2P Require Import Prelude.

Inductive goerror : Type :=
| ErrorString (msg : string)                   (* errors.New, fmt.Errorf without %w *)
| WrapError (prefix : string) (err : goerror)  (* fmt.Errorf("<prefix>%w", err) *)
| PermanentError (err : goerror)               (* *perrors.PermanentError *)
| CodedError (code : string) (err : option goerror) (* *perrors.CodedError *)
| RetryableError (err : goerror) (retryable : bool) (* module.retryableError *)
| ContextCanceled                              (* context.Canceled *)
| DeadlineExceeded                             (* context.DeadlineExceeded *)
| SuffixError (err : goerror) (suffix : string). (* fmt.Errorf("%w<suffix>", err) *)

Abbreviation error := (option goerror).

(** [errors.Unwrap]: the [Unwrap] method of each type. *)
Definition unwrap (e : goerror) : error :=
  match e with
  | WrapError _ e' | PermanentError e' | RetryableError e' _ | SuffixError e' _ => Some e'
  | CodedError _ e' => e'
  | ErrorString _ | ContextCanceled | DeadlineExceeded => None
  end.

(** The [Error] method of each type. *)
Fixpoint error_text (e : goerror) : string :=
  match e with
  | ErrorString m => m
  | WrapError p e' => (p +:+ error_text e')%string
  | SuffixError e' p => (error_text e' +:+ p)%string
  | PermanentError e' => error_text e'
  | CodedError c None => c
  | CodedError c (Some e') => (c +:+ ": " +:+ error_text e')%string
  | RetryableError e' _ => error_text e'
  | ContextCanceled => "context canceled"
  | DeadlineExceeded => "context deadline exceeded"
  end.

(** The error and everything it wraps, outermost first. *)
Fixpoint chain (e : goerror) : list goerror :=
  e :: match e with
       | WrapError _ e' | PermanentError e' | RetryableError e' _ | SuffixError e' _ => chain e'
       | CodedError _ (Some e') => chain e'
       | _ => []
       end.

(** [errors.As]: the first element of the chain the target type accepts. *)
Definition errors_as {A} (accept : goerror -> option A) (e : goerror) : option A :=
  head (omap accept (chain e)).

(** ** pkg/errors *)

Definition as_permanent (e : goerror) : option goerror :=
  match e with PermanentError e' => Some e' | _ => None end.

Definition as_coded (e : goerror) : option string :=
  match e with CodedError c _ => Some c | _ => None end.

Definition NewPermanentError (err : error) : error :=
  match err with None => None | Some e => Some (PermanentError e) end.

Definition IsPermanent (err : error) : bool :=
  match err with
  | None => false
  | Some e => match errors_as as_permanent e with Some _ => true | None => false end
  end.

Definition NonRetryable (code : string) (err : error) : error :=
  match err with None => None | Some e => Some (CodedError code (Some e)) end.

Definition ErrorCode (err : error) : string :=
  match err with
  | None => ""
  | Some e => match errors_as as_coded e with Some c => c | None => "" end
  end.

(** ** module/errors.go *)

Definition Retryable (err : error) : error :=
  match err with None => None | Some e => Some (RetryableError e true) end.

Definition Permanent (err : error) : error :=
  match err with None => None | Some e => Some (RetryableError e false) end.

Definition as_retryable (e : goerror) : option bool :=
  match e with RetryableError _ b => Some b | _ => None end.

(** [errors.As] on a nil error is false. *)
Definition IsRetryable (err : error) : bool :=
  match err with
  | None => false
  | Some e => match errors_as as_retryable e with Some b => b | None => false end
  end.

Definition ShouldRetry (err : error) : bool :=
  match err with
  | None => false
  | Some _ => if IsPermanent err then false else IsRetryable err
  end.

(** The canonical payload of an error port. *)
Record ErrorMessage (V : Type) := mkErrorMessage {
  em_context : V;
  em_error : string;
  em_retryable : bool;
}.
Arguments mkErrorMessage {V}.
Arguments em_context {V}.
Arguments em_error {V}.
Arguments em_retryable {V}.

Definition NewError {V} (ctx : V) (err : error) : ErrorMessage V :=
  mkErrorMessage ctx
    (match err with None => "" | Some e => error_text e end)
    (IsRetryable err).

(** ** module/result.go

    [any] is Go's [any] as far as [Result] looks into it: nil, a value that
    implements [error], or another value. *)
Inductive any (V : Type) : Type :=
| AnyNil
| AnyErr (e : goerror)
| AnyVal (v : V).
Arguments AnyNil {V}.
Arguments AnyErr {V}.
Arguments AnyVal {V}.

Record Result (V : Type) := mkResult { inner : any V }.
Arguments mkResult {V}.
Arguments inner {V}.

Definition result_ok {V} (v : any V) : Result V := mkResult v.

Definition result_fail {V} (err : error) : Result V :=
  match err with None => mkResult AnyNil | Some e => mkResult (AnyErr e) end.

Definition result_err {V} (r : Result V) : error :=
  match inner r with AnyErr e => Some e | _ => None end.

Definition result_value {V} (r : Result V) : any V :=
  match inner r with AnyErr _ => AnyNil | x => x end.

Definition result_is_err {V} (r : Result V) : bool :=
  match inner r with AnyErr _ => true | _ => false end.

(** ** Lemmas *)

(** Rule induction along what an error wraps. *)
Lemma goerror_chain_ind (P : goerror -> Prop) :
  (forall e, unwrap e = None -> P e) ->
  (forall e e', unwrap e = Some e' -> P e' -> P e) ->
  forall e, P e.
Proof.
  intros H0 HS. fix IH 1. intros [m|p e|e|c [e|]|e b| | |e p].
  1, 5, 7, 8: by apply H0.
  all: by apply (HS _ e); [|apply IH].
Qed.

Lemma chain_unwrap (e : goerror) :
  chain e = e :: match unwrap e with Some e' => chain e' | None => [] end.
Proof. by destruct e as [| | |? []| | | |]. Qed.

Lemma errors_as_unwrap {A} (accept : goerror -> option A) (e : goerror) :
  errors_as accept e =
    match accept e with
    | Some a => Some a
    | None => match unwrap e with Some e' => errors_as accept e' | None => None end
    end.
Proof.
  unfold errors_as. rewrite chain_unwrap. simpl.
  destruct (accept e); [done|]. by destruct (unwrap e).
Qed.

Lemma errors_as_Some {A} (accept : goerror -> option A) (e : goerror) (a : A) :
  errors_as accept e = Some a -> exists x, x ∈ chain e /\ accept x = Some a.
Proof.
  unfold errors_as. intros H.
  assert (Hin : a ∈ omap accept (chain e)).
  { destruct (omap accept (chain e)); simplify_eq/=. by left. }
  by apply list_elem_of_omap in Hin as (x & ? & ?); exists x.
Qed.

Lemma errors_as_None {A} (accept : goerror -> option A) (e : goerror) :
  errors_as accept e = None <-> forall x, x ∈ chain e -> accept x = None.
Proof.
  unfold errors_as. split.
  - intros H x Hx. destruct (accept x) as [a|] eqn:E; [|done].
    assert (Hin : a ∈ omap accept (chain e)) by (apply list_elem_of_omap; eauto).
    destruct (omap accept (chain e)); [by apply not_elem_of_nil in Hin|done].
  - intros H. destruct (omap accept (chain e)) as [|a l] eqn:E; [done|].
    assert (Hin : a ∈ omap accept (chain e)) by (rewrite E; left).
    apply list_elem_of_omap in Hin as (x & Hx & Ha). by rewrite H in Ha.
Qed.

Lemma is_permanent_iff (e : goerror) :
  IsPermanent (Some e) = true <-> exists e', PermanentError e' ∈ chain e.
Proof.
  unfold IsPermanent. destruct (errors_as as_permanent e) as [a|] eqn:E.
  - split; [intros _|done]. apply errors_as_Some in E as (x & Hx & Ha).
    destruct x; simplify_eq/=. eauto.
  - split; [done|]. intros [e' He].
    apply (proj1 (errors_as_None _ _) E) in He. done.
Qed.

(** A wrapper that is neither permanent nor a retry marking is transparent to
    every predicate. *)
Definition transparent (e : goerror) : bool :=
  match e with WrapError _ _ | SuffixError _ _ | CodedError _ (Some _) => true | _ => false end.

Lemma should_retry_transparent (e e' : goerror) :
  transparent e = true -> unwrap e = Some e' ->
  ShouldRetry (Some e) = ShouldRetry (Some e').
Proof.
  intros Ht Hu. unfold ShouldRetry, IsPermanent, IsRetryable.
  rewrite (errors_as_unwrap as_permanent e), (errors_as_unwrap as_retryable e), Hu.
  by destruct e as [| | |? []| | | |].
Qed.

Lemma should_retry_retryable (e : goerror) :
  ShouldRetry (Some (RetryableError e true)) = negb (IsPermanent (Some e)).
Proof.
  unfold ShouldRetry, IsPermanent, IsRetryable.
  rewrite (errors_as_unwrap as_permanent), (errors_as_unwrap as_retryable). simpl.
  by destruct (errors_as as_permanent e).
Qed.

Lemma should_retry_unmarked (e : goerror) :
  (forall x, x ∈ chain e -> as_retryable x = None) -> ShouldRetry (Some e) = false.
Proof.
  intros H%errors_as_None. unfold ShouldRetry, IsRetryable. rewrite H.
  by case_match.
Qed.

(** ** Properties *)

(** [ShouldRetry] is true exactly when nothing in the error's chain is a
    [PermanentError] and the outermost retry marking of the chain says
    retryable: permanence anywhere wins, and without a marking the answer is
    no. *)
Theorem should_retry_spec (e : goerror) :
  ShouldRetry (Some e) = true <->
    (forall e', PermanentError e' ∉ chain e) /\
    exists pre inner post,
      chain e = pre ++ RetryableError inner true :: post /\
      forall x, x ∈ pre -> as_retryable x = None.
Proof.
  assert (Hr : forall e, IsRetryable (Some e) = true <->
    exists pre inner post, chain e = pre ++ RetryableError inner true :: post /\
      forall x, x ∈ pre -> as_retryable x = None).
  { clear e. intros e. unfold IsRetryable. induction e as [e Hu|e e' Hu IH] using goerror_chain_ind;
      rewrite errors_as_unwrap, chain_unwrap, Hu.
    - destruct e as [| | | |i []| | |]; simplify_eq/=; (split; [done|]);
        intros (pre & i' & post & Hc & _);
        (destruct pre as [|? pre]; [done|]); injection Hc as _ Hc; by destruct pre.
    - destruct (as_retryable e) as [b|] eqn:Ha.
      + destruct e as [| | | |i b'| | |]; simplify_eq/=. split.
        * intros ->. exists [], e', (chain e'). split; [done|]. by intros ? ?%not_elem_of_nil.
        * intros ([|x pre] & i' & post & Hc & Hpre); [by simplify_eq/=|].
          injection Hc as Hx _. subst x. specialize (Hpre _ (list_elem_of_here _ _)). done.
      + rewrite IH. split.
        * intros (pre & i' & post & Hc & Hpre). exists (e :: pre), i', post.
          rewrite Hc. split; [done|]. intros x [->|Hx]%elem_of_cons; [done|by apply Hpre].
        * intros ([|x pre] & i' & post & Hc & Hpre); [by simplify_eq/=|].
          injection Hc as <- Hc. exists pre, i', post. split; [done|].
          intros y Hy. apply Hpre. by right. }
  rewrite <- Hr. unfold ShouldRetry. destruct (IsPermanent (Some e)) eqn:Hp.
  - split; [done|]. intros [Hnone _]. apply is_permanent_iff in Hp as [e' He'].
    by destruct (Hnone e').
  - split; [|by intros [_ ?]]. intros H. split; [|done]. intros e' He'.
    by rewrite (proj2 (is_permanent_iff e) (ex_intro _ e' He')) in Hp.
Qed.

(** The marking survives wrapping: however many [fmt.Errorf("...%w")] and
    coded layers are put around an error, [ShouldRetry], and so every retry
    layer, answers as it did on the error itself. *)
Theorem should_retry_survives_wrapping (wraps : list (string + string)) (e : goerror) :
  ShouldRetry (Some (foldr (fun w e => match w with
                                       | inl p => WrapError p e
                                       | inr c => CodedError c (Some e)
                                       end) e wraps)) = ShouldRetry (Some e).
Proof.
  induction wraps as [|[p|c] ws IH]; [done| |]; cbn [foldr];
    rewrite <- IH; by apply should_retry_transparent.
Qed.

(** [IsRetryable] stops at the outermost marking: an error marked
    [Permanent] on top of a retryable one is not retryable, although it wraps
    an error marked retryable, for every underlying error. *)
Theorem permanent_hides_retryable (e : goerror) :
  exists p, Permanent (Retryable (Some e)) = Some p /\
    RetryableError e true ∈ chain p /\
    IsRetryable (Some p) = false /\ ShouldRetry (Some p) = false.
Proof.
  eexists. split; [reflexivity|]. split; [|split].
  - rewrite chain_unwrap. simpl. right. left.
  - unfold IsRetryable. by rewrite errors_as_unwrap.
  - unfold ShouldRetry, IsRetryable. rewrite (errors_as_unwrap as_retryable). simpl.
    by case_match.
Qed.

Lemma result_err_value {V} (r : Result V) :
  (result_is_err r = true <-> exists e, result_err r = Some e) /\
  (result_is_err r = true -> result_value r = AnyNil) /\
  (result_is_err r = false -> r = result_ok (result_value r)).
Proof.
  destruct r as [[|e|v]]; unfold result_err, result_value, result_is_err, result_ok; simpl.
  all: repeat split; try done; try (by intros [? ?]). by exists e.
Qed.

Lemma result_fail_err {V} (err : error) :
  result_err (result_fail err : Result V) = err.
Proof. by destruct err. Qed.

Lemma result_ok_err {V} (v : V) :
  result_err (result_ok (AnyVal v)) = None /\ result_value (result_ok (AnyVal v)) = AnyVal v.
Proof. done. Qed.

Create Rewrite HintDb goerr.
#[export] Hint Rewrite @result_fail_err : goerr.
