(* ===== verification/Names.v ===== *)
(** * Names and addresses

    The textual addresses the SDK routes by: port addresses
    ([pkg/utils/port.go]), node names ([pkg/utils/naming.go],
    [module/info.go]), the tolerant module-name comparison
    ([module/naming_match.go]), resource-name sanitising
    ([pkg/utils/sanitize.go]), edge ids ([pkg/utils/elements.go]) and NATS
    subjects ([internal/transport/nats.go], [pkg/wire/publish.go]). *)
From S2P Require Import Prelude GoErrors.

Open Scope string_scope.

(** ** Port addresses: "<node>:<port>" *)

Definition GetPortFullName (nodeID portName : string) : string :=
  if (nodeID =? "") && (portName =? "") then ""
  else nodeID +:+ ":" +:+ portName.

(** Returns (node, port). *)
Definition ParseFullPortName (name : string) : string * string :=
  match go_split ":" name with
  | [port] => ("", port)
  | [node; port] => (node, port)
  | _ => ("", "")
  end.

(** ** Node names: "<prefix>.<module>.<component>" *)

Definition GetNodeFullName (prefix moduleName componentName : string) : string :=
  prefix +:+ "." +:+ moduleName +:+ "." +:+ componentName.

(** [module.ParseFullName]: (module, component). *)
Definition ParseFullName (fullName : string) : result goerror (string * string) :=
  match go_split "." fullName with
  | _ :: m :: c :: _ => Ok (m, c)
  | _ => Err (ErrorString ("node name " +:+ fullName +:+ " is invalid, separator not found"))
  end.

(** [utils.ParseNodeFullName], the same of a node's name. *)
Definition ParseNodeFullName (fullName : string) : result goerror (string * string) :=
  let parts := go_split "." fullName in
  if (length parts <? 3)%nat then Err (ErrorString ("node name " +:+ fullName +:+ " is invalid, separator not found"))
  else Ok (nth 1 parts "", nth 2 parts "").

(** ** Module names up to a publisher prefix *)

Definition normalizeModuleSeparators (s : string) : string :=
  go_to_lower (go_replace_char "/" "-" s).

Definition NameMatches (found running : string) : bool :=
  let f := normalizeModuleSeparators found in
  let r := normalizeModuleSeparators running in
  if (f =? "") || (r =? "") then false
  else if f =? r then true
  else if go_has_suffix r ("-" +:+ f) then true
  else go_has_suffix f ("-" +:+ r).

(** ** Resource names

    [strings.ToLower] sends exactly two non-ASCII characters to ASCII letters:
    the Kelvin sign (bytes E2 84 AA) to k and the dotted capital I (C4 B0) to
    i. Every other non-ASCII byte stays outside the alphanumeric class, which
    is all [ReplaceAllString] looks at. *)
Fixpoint lower_utf8 (s : string) : string :=
  match s with
  | EmptyString => EmptyString
  | String "226" (String "132" (String "170" s')) => String "k" (lower_utf8 s')
  | String "196" (String "176" s') => String "i" (lower_utf8 s')
  | String c s' => String (lower_ascii c) (lower_utf8 s')
  end.

(** [regexp "[^A-Za-z0-9]+"] replaced by "-". *)
Fixpoint collapse_runs (in_run : bool) (s : string) : string :=
  match s with
  | EmptyString => EmptyString
  | String c s' =>
      if is_alnum c then String c (collapse_runs false s')
      else if in_run then collapse_runs true s'
      else String "-" (collapse_runs true s')
  end.

(** On the ASCII text it is called with, a rune is a byte. *)
Definition limitByRuneKeepSuffix (s : string) (maxLength : nat) : string :=
  if (String.length s <=? maxLength)%nat then s
  else string_drop (String.length s - maxLength) s.

Definition SanitizeResourceName (s : string) : string :=
  go_trim "-" (limitByRuneKeepSuffix (collapse_runs false (lower_utf8 s)) 48).

Definition SanitizeIdentity (s : string) : string :=
  collapse_runs false (lower_utf8 s).

(** ** Edge ids: "<source>_<sourceHandle>-<target>_<targetHandle>" *)

Definition GenerateEdgeID (source sourceHandle target targetHandle : string) : string :=
  source +:+ "_" +:+ sourceHandle +:+ "-" +:+ target +:+ "_" +:+ targetHandle.

Definition ParseEdgeID (edgeID : string)
  : result goerror (string * string * string * string) :=
  match go_splitn "-" 2 edgeID with
  | [a; b] =>
      match go_cut_last "_" a with
      | None => Err (ErrorString ("invalid edge ID format: missing source handle separator in " +:+ edgeID))
      | Some (source, sourceHandle) =>
          match go_cut_last "_" b with
          | None => Err (ErrorString ("invalid edge ID format: missing target handle separator in " +:+ edgeID))
          | Some (target, targetHandle) => Ok (source, sourceHandle, target, targetHandle)
          end
      end
  | _ => Err (ErrorString ("invalid edge ID format: " +:+ edgeID))
  end.

Definition IsEdgeID (id : string) : bool :=
  if negb (go_contains id "_") || negb (go_contains id "-") then false
  else is_ok (ParseEdgeID id).

(** ** NATS subjects *)

Definition subjectPrefix : string := "tinymodule".

Definition SubjectFor (moduleName : string) : string :=
  subjectPrefix +:+ "." +:+ moduleName +:+ ".msg".

Definition SubjectForSystem (moduleName : string) : string :=
  subjectPrefix +:+ "." +:+ moduleName +:+ ".sysmsg".

(** ** Lemmas: port addresses *)

Lemma get_port_full_name_cons (n p : string) :
  (n =? "") && (p =? "") = false -> GetPortFullName n p = n +:+ String ":" p.
Proof. intros H. unfold GetPortFullName. by rewrite H. Qed.

Lemma parse_two (n p : string) :
  str_has ":" n = false -> str_has ":" p = false ->
  ParseFullPortName (n +:+ String ":" p) = (n, p).
Proof.
  intros Hn Hp. unfold ParseFullPortName.
  by rewrite go_split_app, go_split_nosep.
Qed.

Lemma go_split_length_has (sep : ascii) (s : string) :
  str_has sep s = true -> (2 <= List.length (go_split sep s))%nat.
Proof.
  induction s as [|c s IH]; [done|]. simpl.
  destruct (Ascii.eqb c sep).
  - intros _. pose proof (go_split_nonempty sep s). destruct (go_split sep s); simpl; [done|lia].
  - intros H. specialize (IH H). destruct (go_split sep s); simpl in *; lia.
Qed.

Lemma go_split_app_length (sep : ascii) (a b : string) :
  List.length (go_split sep (a +:+ String sep b)) =
  (List.length (go_split sep a) + List.length (go_split sep b))%nat.
Proof.
  induction a as [|c a IH].
  - rewrite str_app_nil_l. simpl. by rewrite Ascii.eqb_refl.
  - rewrite str_app_cons. simpl. destruct (Ascii.eqb c sep); simpl; [by rewrite IH|].
    pose proof (go_split_nonempty sep a) as Ha.
    destruct (go_split sep (a +:+ String sep b)) eqn:E; simpl in IH.
    + destruct (go_split sep a); [done|simpl in IH; lia].
    + destruct (go_split sep a); [done|]. simpl in *. lia.
Qed.

Lemma parse_three (name : string) :
  (3 <= List.length (go_split ":" name))%nat -> ParseFullPortName name = ("", "").
Proof.
  unfold ParseFullPortName. intros H.
  destruct (go_split ":" name) as [|a [|b [|c l]]]; simpl in H; [lia|lia|lia|done].
Qed.

(** A port address round-trips: [ParseFullPortName] gives back the node
    and the port [GetPortFullName] was called with, exactly when neither
    contains a colon; with a colon in either, it gives back nothing. *)
Theorem port_full_name_roundtrip (node port : string) :
  ParseFullPortName (GetPortFullName node port) =
    if str_has ":" node || str_has ":" port then ("", "") else (node, port).
Proof.
  destruct ((node =? "") && (port =? "")) eqn:E.
  - apply andb_prop in E as [->%String.eqb_eq ->%String.eqb_eq]. done.
  - rewrite get_port_full_name_cons by done.
    destruct (str_has ":" node) eqn:En; [|destruct (str_has ":" port) eqn:Ep]; simpl.
    + apply parse_three. rewrite go_split_app_length.
      apply go_split_length_has in En. pose proof (go_split_nonempty ":" port).
      destruct (go_split ":" port); simpl; [done|lia].
    + apply parse_three. rewrite go_split_app_length.
      apply go_split_length_has in Ep. pose proof (go_split_nonempty ":" node).
      destruct (go_split ":" node); simpl; [done|lia].
    + by apply parse_two.
Qed.

(** The module a message is routed to does not depend on the port. *)
Lemma parse_full_name_of_node (prefix m c port : string) :
  str_has "." prefix = false -> str_has "." m = false ->
  exists c', ParseFullName (GetPortFullName (GetNodeFullName prefix m c) port) = Ok (m, c').
Proof.
  intros Hp Hm. unfold GetNodeFullName.
  assert (Hne : ((prefix +:+ "." +:+ m +:+ "." +:+ c) =? "") && (port =? "") = false).
  { by destruct prefix. }
  rewrite get_port_full_name_cons by done. unfold ParseFullName.
  assert (Heq : (prefix +:+ "." +:+ m +:+ "." +:+ c) +:+ String ":" port =
                prefix +:+ String "." (m +:+ String "." (c +:+ String ":" port))).
  { by rewrite !str_app_assoc. }
  rewrite Heq, !go_split_app by done.
  pose proof (go_split_nonempty "." (c +:+ String ":" port)).
  destruct (go_split "." _); [done|]. eauto.
Qed.

(** A node's name gives back its module and component; both parsers agree on
    every name. *)
Lemma node_full_name_roundtrip (prefix m c : string) :
  str_has "." prefix = false -> str_has "." m = false -> str_has "." c = false ->
  ParseNodeFullName (GetNodeFullName prefix m c) = Ok (m, c).
Proof.
  intros Hp Hm Hc. unfold ParseNodeFullName, GetNodeFullName.
  change ("." +:+ m +:+ "." +:+ c) with (String "." (m +:+ String "." c)).
  by rewrite !go_split_app, go_split_nosep by done.
Qed.

Lemma parsers_agree (s : string) : ParseNodeFullName s = ParseFullName s.
Proof. unfold ParseNodeFullName, ParseFullName. by destruct (go_split "." s) as [|a [|b [|c l]]]. Qed.

(** ** Lemmas: module names *)

Lemma normalize_idem (s : string) :
  normalizeModuleSeparators (normalizeModuleSeparators s) = normalizeModuleSeparators s.
Proof.
  unfold normalizeModuleSeparators, go_to_lower, go_replace_char. rewrite !string_map_map.
  apply string_map_ext. intros c. apply Ascii.eqb_eq.
  apply (ascii_forall (fun c => Ascii.eqb
    (lower_ascii (if Ascii.eqb (lower_ascii (if Ascii.eqb c "/" then "-" else c)%char) "/" then "-"
                  else lower_ascii (if Ascii.eqb c "/" then "-" else c))%char)
    (lower_ascii (if Ascii.eqb c "/" then "-" else c)%char))).
  vm_compute. reflexivity.
Qed.

Lemma name_matches_norm (f r : string) :
  NameMatches f r =
  NameMatches (normalizeModuleSeparators f) (normalizeModuleSeparators r).
Proof. unfold NameMatches. by rewrite !normalize_idem. Qed.

Lemma normalize_app (a b : string) :
  normalizeModuleSeparators (a +:+ b) =
  normalizeModuleSeparators a +:+ normalizeModuleSeparators b.
Proof. unfold normalizeModuleSeparators, go_to_lower, go_replace_char. by rewrite !string_map_app. Qed.

Lemma normalize_empty (s : string) : normalizeModuleSeparators s = "" -> s = "".
Proof. by destruct s. Qed.

Lemma has_suffix_app (a p : string) : go_has_suffix (a +:+ p) p = true.
Proof. apply has_suffix_iff. by exists a. Qed.

Lemma normalize_nonempty (m : string) :
  m <> "" -> (normalizeModuleSeparators m =? "") = false.
Proof. intros Hm. apply String.eqb_neq. by intros ?%normalize_empty. Qed.

Lemma name_matches_sym (f r : string) : NameMatches f r = NameMatches r f.
Proof.
  unfold NameMatches.
  generalize (normalizeModuleSeparators f) (normalizeModuleSeparators r). intros F R.
  rewrite (orb_comm (R =? "")), (String.eqb_sym R F).
  destruct (_ || _); [done|]. destruct (F =? R); [done|].
  by destruct (go_has_suffix R _), (go_has_suffix F _).
Qed.

Lemma name_matches_refl (m : string) : m <> "" -> NameMatches m m = true.
Proof. intros Hm. unfold NameMatches. by rewrite normalize_nonempty, String.eqb_refl. Qed.

Lemma name_matches_prefixed (publisher m : string) (sep : ascii) :
  m <> "" -> sep = "/"%char \/ sep = "-"%char ->
  NameMatches m (publisher +:+ String sep m) = true.
Proof.
  intros Hm Hsep. unfold NameMatches. rewrite normalize_nonempty, normalize_app by done.
  assert (Hs : normalizeModuleSeparators (String sep m) = "-" +:+ normalizeModuleSeparators m).
  { by destruct Hsep as [-> | ->]. }
  rewrite Hs, has_suffix_app.
  assert (((normalizeModuleSeparators publisher +:+ "-" +:+ normalizeModuleSeparators m) =? "") = false)
    as -> by (by destruct (normalizeModuleSeparators publisher)).
  cbn [orb]. case_match; reflexivity.
Qed.

Create HintDb gonames.
#[export] Hint Resolve name_matches_refl name_matches_prefixed : gonames.

(** [NameMatches] is symmetric, reflexive on non-empty names, and accepts
    a module name with or without a publisher prefix, whichever side carries
    it and whether the prefix is separated by "/" or "-". *)
Theorem name_matches_publisher_optional (publisher m : string) :
  m <> "" ->
  (forall f r, NameMatches f r = NameMatches r f) /\
  NameMatches m m = true /\
  (forall sep, sep = "/"%char \/ sep = "-"%char ->
     NameMatches m (publisher +:+ String sep m) = true /\
     NameMatches (publisher +:+ String sep m) m = true).
Proof.
  intros Hm. split; [exact name_matches_sym|]. split; [by auto with gonames|].
  intros sep Hsep. rewrite (name_matches_sym (_ +:+ _)). by auto with gonames.
Qed.

Lemma name_matches_publisher_optional_witness :
  NameMatches "http-module-v0" "tinysystems/http-module-v0" = true.
Proof.
  destruct (name_matches_publisher_optional "tinysystems" "http-module-v0") as (_ & _ & H).
  - discriminate.
  - exact (proj1 (H "/"%char (or_introl eq_refl))).
Defined.

(** The comparison is not transitive: two publishers' modules of the same
    bare name both match the bare name, and not each other. *)
Theorem name_matches_not_transitive (p q m : string) :
  m <> "" -> p <> "" -> q <> "" -> String.length p = String.length q ->
  normalizeModuleSeparators p <> normalizeModuleSeparators q ->
  NameMatches (p +:+ "-" +:+ m) m = true /\ NameMatches m (q +:+ "-" +:+ m) = true /\
  NameMatches (p +:+ "-" +:+ m) (q +:+ "-" +:+ m) = false.
Proof.
  intros Hm Hp Hq Hlen Hne.
  split; [rewrite name_matches_sym; apply name_matches_prefixed; auto|].
  split; [apply name_matches_prefixed; auto|].
  unfold NameMatches. rewrite !normalize_app.
  assert (Hlen' : String.length (normalizeModuleSeparators p) =
                  String.length (normalizeModuleSeparators q)).
  { unfold normalizeModuleSeparators, go_to_lower, go_replace_char. by rewrite !string_map_length. }
  assert (Hsfx : forall a b : string, String.length a = String.length b ->
    go_has_suffix a ("-" +:+ b) = false).
  { intros a b Hl. apply not_true_iff_false. intros [r Hr]%has_suffix_iff.
    apply (f_equal String.length) in Hr. rewrite !str_length_app in Hr. simpl in Hr. lia. }
  assert (Hinj : forall a b c : string, String.length a = String.length b ->
    a +:+ c = b +:+ c -> a = b).
  { clear. induction a as [|x a IH]; intros [|y b] c Hl Heq; try done.
    rewrite !str_app_cons in Heq. injection Heq as -> Heq. f_equal.
    eapply IH; [|exact Heq]. by injection Hl. }
  rewrite !Hsfx by (rewrite !str_length_app; lia).
  destruct (String.eqb_spec (normalizeModuleSeparators p +:+ normalizeModuleSeparators "-" +:+
      normalizeModuleSeparators m) (normalizeModuleSeparators q +:+ normalizeModuleSeparators "-" +:+
      normalizeModuleSeparators m)) as [Heq|_].
  - by apply Hinj in Heq.
  - by destruct (_ || _).
Qed.

Lemma name_matches_not_transitive_witness :
  NameMatches "acme-http" "evil-http" = false.
Proof. apply (name_matches_not_transitive "acme" "evil" "http"); (discriminate || reflexivity). Defined.

(** ** Lemmas: edge ids *)

(** An edge id round-trips when the source address holds no "-" and the
    handles no "_". *)
Theorem edge_id_roundtrip (s sh t th : string) :
  str_has "-" (s +:+ "_" +:+ sh) = false ->
  str_has "_" sh = false -> str_has "_" th = false ->
  ParseEdgeID (GenerateEdgeID s sh t th) = Ok (s, sh, t, th).
Proof.
  intros Hd Hs Ht. unfold ParseEdgeID, GenerateEdgeID, go_splitn.
  replace (s +:+ "_" +:+ sh +:+ "-" +:+ t +:+ "_" +:+ th)
    with ((s +:+ "_" +:+ sh) +:+ String "-" (t +:+ "_" +:+ th))
    by (rewrite !str_app_assoc; reflexivity).
  rewrite go_cut_app by done.
  change ("_" +:+ ?x) with (String "_" x).
  by rewrite !go_cut_last_app.
Qed.

Lemma edge_id_roundtrip_witness :
  ParseEdgeID (GenerateEdgeID "router" "out_a" "debug-1" "in") <> Ok ("router", "out_a", "debug-1", "in") /\
  ParseEdgeID (GenerateEdgeID "router" "out" "debug-1" "in") = Ok ("router", "out", "debug-1", "in").
Proof.
  split; [discriminate|]. apply edge_id_roundtrip; reflexivity.
Defined.

(** Every node name the SDK generates carries a "-" (its Kubernetes
    GenerateName ends in one), and an edge id whose source carries a "-" never
    parses back to that source: it is read up to the first "-", or refused. *)
Theorem edge_id_hyphen_lost (s1 s2 sh t th : string) :
  str_has "-" s1 = false ->
  let id := GenerateEdgeID (s1 +:+ "-" +:+ s2) sh t th in
  match ParseEdgeID id with
  | Ok (source, _, _, _) => source <> s1 +:+ "-" +:+ s2
  | Err _ => True
  end.
Proof.
  intros Hd. cbn zeta. unfold ParseEdgeID, GenerateEdgeID, go_splitn.
  replace ((s1 +:+ "-" +:+ s2) +:+ "_" +:+ sh +:+ "-" +:+ t +:+ "_" +:+ th)
    with (s1 +:+ String "-" (s2 +:+ "_" +:+ sh +:+ "-" +:+ t +:+ "_" +:+ th))
    by (rewrite !str_app_assoc; reflexivity).
  rewrite go_cut_app by done.
  destruct (go_cut_last "_" s1) as [[a b]|] eqn:E; [|done].
  match goal with |- context [go_cut_last "_" ?x] => destruct (go_cut_last "_" x) as [[c d]|] end; [|done].
  intros Ha.
  assert (Hs1 : str_has "-" a = false).
  { assert (H : s1 = a +:+ String "_" b); [|rewrite H, str_has_app in Hd; apply orb_false_iff in Hd as [? _]; assumption].
    clear -E. revert a E. induction s1 as [|x s1 IH]; intros a E; [done|]. simpl in E.
    destruct (go_cut_last "_" s1) as [[a' b']|].
    - injection E as <- ->. by rewrite str_app_cons, <- (IH a').
    - destruct (Ascii.eqb_spec x "_") as [->|]; [|done]. by injection E as <- ->. }
  rewrite Ha, str_has_app in Hs1. change ("-" +:+ s2) with (String "-" s2) in Hs1.
  rewrite str_has_cons_same, orb_true_r in Hs1. done.
Qed.

Lemma edge_id_hyphen_lost_witness :
  ParseEdgeID (GenerateEdgeID "ab12cd34.http-module-v0.http_server-x1" "out" "b" "in")
    = Err (ErrorString "invalid edge ID format: missing source handle separator in ab12cd34.http-module-v0.http_server-x1_out-b_in") /\
  match ParseEdgeID (GenerateEdgeID "ab12cd34.http-module-v0.http_server-x1" "out" "b" "in") with
  | Ok (source, _, _, _) => source <> "ab12cd34.http-module-v0.http_server-x1"
  | Err _ => True
  end.
Proof.
  split; [reflexivity|].
  apply (edge_id_hyphen_lost "ab12cd34.http" "module-v0.http_server-x1" "out" "b" "in"). reflexivity.
Defined.

(** ** Lemmas: resource names *)

(** The alphabet of a sanitised name. *)
Definition dns_char (c : ascii) : bool := is_lower c || is_digit c || Ascii.eqb c "-".

Fixpoint str_all (p : ascii -> bool) (s : string) : bool :=
  match s with EmptyString => true | String c s' => p c && str_all p s' end.

(** No two adjacent hyphens; [prev] is whether a hyphen precedes. *)
Fixpoint no_double_hyphen (prev : bool) (s : string) : bool :=
  match s with
  | EmptyString => true
  | String c s' =>
      if Ascii.eqb c "-" then negb prev && no_double_hyphen true s'
      else no_double_hyphen false s'
  end.

Definition starts_with_hyphen (s : string) : bool :=
  match s with String c _ => Ascii.eqb c "-" | EmptyString => false end.

Fixpoint ends_with_hyphen (s : string) : bool :=
  match s with
  | EmptyString => false
  | String c EmptyString => Ascii.eqb c "-"
  | String _ s' => ends_with_hyphen s'
  end.

(** What a sanitised resource name looks like: an RFC 1123 label of at most
    48 bytes without doubled hyphens. *)
Definition sanitized (s : string) : bool :=
  str_all dns_char s && no_double_hyphen false s && negb (ends_with_hyphen s)
  && negb (starts_with_hyphen s) && (String.length s <=? 48)%nat.

Lemma str_all_app p a b : str_all p (a +:+ b) = str_all p a && str_all p b.
Proof.
  induction a as [|c a IH]; [done|]. rewrite str_app_cons. simpl. by rewrite IH, andb_assoc.
Qed.

Lemma string_rev_app_all p a b :
  str_all p (string_rev_app a b) = str_all p a && str_all p b.
Proof.
  revert b. induction a as [|c a IH]; intros b; [done|]. simpl. rewrite IH. simpl.
  destruct (p c), (str_all p a); done.
Qed.

Lemma string_rev_app_spec (a b c : string) :
  string_rev_app a (b +:+ c) = string_rev_app a b +:+ c.
Proof. revert b. induction a as [|x a IH]; intros b; [done|]. simpl. by rewrite <- IH. Qed.

Lemma string_rev_cons (x : ascii) (s : string) :
  string_rev (String x s) = string_rev s +:+ String x "".
Proof. unfold string_rev. simpl. apply (string_rev_app_spec s "" (String x "")). Qed.

Lemma string_rev_snoc (s : string) (x : ascii) :
  string_rev (s +:+ String x "") = String x (string_rev s).
Proof.
  induction s as [|y s IH]; [done|].
  rewrite str_app_cons, !string_rev_cons, IH. done.
Qed.

Lemma string_rev_involutive (s : string) : string_rev (string_rev s) = s.
Proof.
  induction s as [|x s IH]; [done|]. by rewrite string_rev_cons, string_rev_snoc, IH.
Qed.

Lemma ends_with_hyphen_snoc (s : string) (c : ascii) :
  ends_with_hyphen (s +:+ String c "") = Ascii.eqb c "-".
Proof.
  induction s as [|x s IH]; [done|]. rewrite str_app_cons.
  destruct s as [|y s]; [done|]. exact IH.
Qed.

Lemma starts_ends_rev (s : string) :
  starts_with_hyphen (string_rev s) = ends_with_hyphen s.
Proof.
  rewrite <- (string_rev_involutive s) at 2. destruct (string_rev s) as [|c r]; [done|].
  by rewrite string_rev_cons, ends_with_hyphen_snoc.
Qed.

Lemma trim_left_split (s : string) :
  exists h, s = h +:+ go_trim_left "-" s /\ starts_with_hyphen (go_trim_left "-" s) = false.
Proof.
  induction s as [|c s [h [IH1 IH2]]]; [by exists ""|]. simpl.
  destruct (Ascii.eqb c "-") eqn:E.
  - exists (String c h). by rewrite str_app_cons, <- IH1.
  - exists "". simpl. by rewrite E.
Qed.

Lemma trim_left_id (s : string) :
  starts_with_hyphen s = false -> go_trim_left "-" s = s.
Proof. destruct s as [|c s]; [done|]. simpl. by intros ->. Qed.

Lemma string_rev_app_dist (a b : string) :
  string_rev (a +:+ b) = string_rev b +:+ string_rev a.
Proof.
  induction a as [|x a IH]; [by autorewrite with gostr|].
  by rewrite str_app_cons, !string_rev_cons, IH, str_app_assoc.
Qed.

(** [Trim] cuts a prefix and a suffix, and leaves no hyphen at either end. *)
Lemma trim_spec (s : string) :
  exists h t, s = h +:+ go_trim "-" s +:+ t /\
    starts_with_hyphen (go_trim "-" s) = false /\ ends_with_hyphen (go_trim "-" s) = false.
Proof.
  unfold go_trim.
  destruct (trim_left_split s) as [h [H1 H2]]. set (l := go_trim_left "-" s) in *.
  destruct (trim_left_split (string_rev l)) as [t [H3 H4]].
  set (r := go_trim_left "-" (string_rev l)) in *.
  assert (Hl : l = string_rev r +:+ string_rev t).
  { by rewrite <- string_rev_app_dist, <- H3, string_rev_involutive. }
  exists h, (string_rev t). rewrite <- Hl. split; [done|]. split.
  - destruct (string_rev r) as [|c q]; [done|]. rewrite Hl in H2. exact H2.
  - by rewrite <- starts_ends_rev, string_rev_involutive.
Qed.

Lemma trim_id (s : string) :
  starts_with_hyphen s = false -> ends_with_hyphen s = false -> go_trim "-" s = s.
Proof.
  intros Hs He. unfold go_trim. rewrite (trim_left_id s) by done.
  rewrite trim_left_id by (by rewrite starts_ends_rev). apply string_rev_involutive.
Qed.

Lemma no_double_hyphen_app (b : bool) (h s : string) :
  no_double_hyphen b (h +:+ s) = true ->
  no_double_hyphen b h = true /\ no_double_hyphen false s = true.
Proof.
  assert (Hw : forall s b, no_double_hyphen b s = true -> no_double_hyphen false s = true).
  { clear. intros [|c s] b; [done|]. simpl. destruct (Ascii.eqb c "-"); [|done].
    by intros [_ ?]%andb_prop. }
  revert b. induction h as [|c h IH]; intros b H.
  - split; [done|]. by eapply Hw.
  - rewrite str_app_cons in H. simpl in *. destruct (Ascii.eqb c "-").
    + apply andb_prop in H as [-> H]. by apply IH in H as [-> ?].
    + by apply IH in H.
Qed.

Lemma no_double_hyphen_infix (h m t : string) :
  no_double_hyphen false (h +:+ m +:+ t) = true -> no_double_hyphen false m = true.
Proof. by intros [_ [? _]%no_double_hyphen_app]%no_double_hyphen_app. Qed.

Lemma lower_ascii_not_upper (c : ascii) : is_upper (lower_ascii c) = false.
Proof.
  apply negb_true_iff. revert c. apply ascii_forall. vm_compute. reflexivity.
Qed.

Definition no_upper (s : string) : bool := str_all (fun c => negb (is_upper c)) s.

(** Induction following [lower_utf8]'s cases: on strictly shorter strings. *)
Lemma string_length_ind (P : string -> Prop) :
  (forall s, (forall r, (String.length r < String.length s)%nat -> P r) -> P s) ->
  forall s, P s.
Proof.
  intros H s. remember (String.length s) as n eqn:Hn. revert s Hn.
  induction (lt_wf n) as [n _ IH]. intros s ->. apply H. intros r Hr. by eapply IH.
Qed.

Lemma lower_utf8_cons (c : ascii) (s : string) :
  exists d r, lower_utf8 (String c s) = String d (lower_utf8 r) /\
    is_upper d = false /\ (String.length r <= String.length s)%nat.
Proof.
  assert (Hdef : exists d r, String (lower_ascii c) (lower_utf8 s) = String d (lower_utf8 r) /\
    is_upper d = false /\ (String.length r <= String.length s)%nat).
  { exists (lower_ascii c), s. split; [done|]. split; [apply lower_ascii_not_upper|done]. }
  destruct c as [[] [] [] [] [] [] [] []]; try exact Hdef;
  destruct s as [|[[] [] [] [] [] [] [] []] s]; try exact Hdef.
  - destruct s as [|[[] [] [] [] [] [] [] []] s]; try exact Hdef.
    exists "k"%char, s. simpl. split; [done|]. split; [done|lia].
  - exists "i"%char, s. simpl. split; [done|]. split; [done|lia].
Qed.

Lemma lower_utf8_no_upper (s : string) : no_upper (lower_utf8 s) = true.
Proof.
  induction s as [s IH] using string_length_ind. destruct s as [|c s]; [done|].
  destruct (lower_utf8_cons c s) as (d & r & -> & Hd & Hr).
  unfold no_upper in *. simpl. rewrite Hd, IH by (simpl; lia). done.
Qed.

Lemma collapse_spec (b : bool) (s : string) :
  no_upper s = true ->
  str_all dns_char (collapse_runs b s) = true /\
  no_double_hyphen b (collapse_runs b s) = true.
Proof.
  unfold no_upper. revert b. induction s as [|c s IH]; intros b H; [done|]. simpl in *.
  apply andb_prop in H as [Hc H].
  destruct (is_alnum c) eqn:E; [|destruct b]; simpl.
  - destruct (IH false H) as [-> H2].
    assert (Hd : dns_char c = true /\ Ascii.eqb c "-" = false).
    { unfold is_alnum in E. unfold dns_char. apply negb_true_iff in Hc. rewrite Hc in E. simpl in E.
      rewrite E. split; [done|]. destruct (Ascii.eqb_spec c "-") as [->|]; done. }
    destruct Hd as [-> ->]. done.
  - by apply IH.
  - destruct (IH true H) as [-> ->]. done.
Qed.

Lemma dns_fixed (s : string) :
  str_all dns_char s = true ->
  lower_utf8 s = s /\ (forall b, no_double_hyphen b s = true -> collapse_runs b s = s).
Proof.
  induction s as [|c s IH]; [done|]. simpl. intros [Hc H]%andb_prop.
  destruct (IH H) as [IH1 IH2].
  assert (Hl : lower_utf8 (String c s) = String c (lower_utf8 s)).
  { destruct c as [[] [] [] [] [] [] [] []]; try done;
    destruct s as [|[[] [] [] [] [] [] [] []] s]; done. }
  split; [change (lower_utf8 (String c s) = String c s); by rewrite Hl, IH1|].
  intros b Hb. destruct (Ascii.eqb_spec c "-") as [->|Hne]; simpl in *.
  - apply andb_prop in Hb as [Hn Hb]. destruct b; [done|]. by rewrite IH2.
  - assert (Ha : is_alnum c = true).
    { unfold dns_char in Hc. apply Ascii.eqb_neq in Hne. rewrite Hne, orb_false_r in Hc.
      unfold is_alnum. apply orb_prop in Hc as [-> | ->]; by rewrite ?orb_true_r. }
    by rewrite Ha, IH2.
Qed.

Lemma limit_suffix (s : string) (n : nat) :
  exists h, s = h +:+ limitByRuneKeepSuffix s n /\
    (String.length (limitByRuneKeepSuffix s n) <= n)%nat.
Proof.
  unfold limitByRuneKeepSuffix. destruct (Nat.leb_spec (String.length s) n) as [Hle|Hgt].
  - by exists "".
  - assert (Hdrop : forall k s, (k <= String.length s)%nat ->
      exists h, s = h +:+ string_drop k s /\ String.length (string_drop k s) = (String.length s - k)%nat).
    { clear. induction k as [|k IH]; intros s Hk; [exists ""; split; [by destruct s|destruct s; simpl; lia]|].
      destruct s as [|c s]; simpl in Hk; [lia|]. destruct (IH s) as (h & Hh & Hl); [lia|].
      exists (String c h). simpl. by rewrite str_app_cons, <- Hh. }
    destruct (Hdrop (String.length s - n)%nat s) as (h & Hh & Hl); [lia|].
    exists h. split; [done|]. rewrite Hl. lia.
Qed.

(** Whatever the input, [SanitizeResourceName] returns a (possibly empty)
    lower-case RFC 1123 label: letters, digits and single hyphens, no hyphen at
    either end, at most 48 bytes; and sanitising it again changes nothing. *)
Theorem sanitize_resource_name_valid (s : string) :
  sanitized (SanitizeResourceName s) = true /\
  SanitizeResourceName (SanitizeResourceName s) = SanitizeResourceName s.
Proof.
  assert (Hok : sanitized (SanitizeResourceName s) = true).
  { unfold SanitizeResourceName.
    destruct (collapse_spec false (lower_utf8 s) (lower_utf8_no_upper s)) as [Hall Hnd].
    destruct (limit_suffix (collapse_runs false (lower_utf8 s)) 48) as (h & Hh & Hlen).
    set (u := limitByRuneKeepSuffix _ _) in *.
    destruct (trim_spec u) as (h' & t & Hu & Hs & He). set (v := go_trim "-" u) in *.
    rewrite Hh, Hu in Hall, Hnd. rewrite !str_all_app in Hall.
    apply no_double_hyphen_app in Hnd as [_ Hnd]. apply no_double_hyphen_infix in Hnd.
    unfold sanitized. rewrite Hnd, Hs, He. rewrite Hu, !str_length_app in Hlen.
    apply andb_prop in Hall as [_ Hall]. apply andb_prop in Hall as [_ Hall].
    apply andb_prop in Hall as [-> _].
    simpl. apply Nat.leb_le. lia. }
  split; [done|]. revert Hok. generalize (SanitizeResourceName s). intros v Hv.
  unfold sanitized in Hv. rewrite !andb_true_iff, !negb_true_iff in Hv.
  destruct Hv as [[[[Hall Hnd] He] Hs] Hlen].
  destruct (dns_fixed v Hall) as [Hl Hc]. unfold SanitizeResourceName.
  rewrite Hl, (Hc false Hnd). unfold limitByRuneKeepSuffix. rewrite Hlen.
  by apply trim_id.
Qed.

(** ** Subjects *)

(** Subjects address modules without ambiguity: two modules share a
    business subject only if they are the same module, and no business subject
    is a system subject, so a fan-out consumer never sees queue-group work. *)
Theorem subjects_disjoint (m1 m2 : string) :
  (SubjectFor m1 = SubjectFor m2 -> m1 = m2) /\
  (SubjectForSystem m1 = SubjectForSystem m2 -> m1 = m2) /\
  SubjectFor m1 <> SubjectForSystem m2.
Proof.
  assert (Hinj : forall a b s : string, a +:+ s = b +:+ s -> a = b).
  { induction a as [|x a IH]; intros b s H.
    - destruct b; [done|]. apply (f_equal String.length) in H.
      rewrite !str_length_app in H. simpl in H. lia.
    - destruct b as [|y b].
      + apply (f_equal String.length) in H. rewrite !str_length_app in H. simpl in H. lia.
      + rewrite !str_app_cons in H. injection H as -> H. f_equal. by eapply IH. }
  unfold SubjectFor, SubjectForSystem. repeat split.
  - intros H%str_app_inj_l%str_app_inj_l. by apply Hinj in H.
  - intros H%str_app_inj_l%str_app_inj_l. by apply Hinj in H.
  - intros H%str_app_inj_l%str_app_inj_l. apply (f_equal string_rev) in H.
    rewrite !string_rev_app_dist in H. done.
Qed.
