(* ===== verification/Graph.v ===== *)
(** * The flow graph

    The resource types the SDK keeps a flow in ([api/v1alpha1/tinynode_types.go])
    and the operations that edit a node's edges and port configurations
    ([pkg/utils/edges.go], [pkg/utils/edge.go]).

    A flow graph has no central object: each node's spec lists its outgoing
    edges (by source port and target address) and the configuration of its
    ports, per sender. Byte slices are strings; a nil and an empty slice are
    the same to every length test in the sources. *)
From S2P Require Import Prelude GoErrors Names.

Open Scope string_scope.

(** ** api/v1alpha1 *)

Definition FlowNameLabel : string := "tinysystems.io/flow-name".
Definition ProjectNameLabel : string := "tinysystems.io/project-name".
Definition ExecutionModeLabel : string := "tinysystems.io/execution-mode".
Definition ExecutionModeDurable : string := "durable".

Definition ReconcilePort : string := "_reconcile".
Definition ClientPort : string := "_client".
Definition IdentityPort : string := "_identity".
Definition SettingsPort : string := "_settings".
Definition ControlPort : string := "_control".
Definition ErrorPort : string := "error".

Record EdgeRetryPolicy := mkPolicy {
  MaxAttempts : Z;
  InitialDelayMs : Z;
  BackoffCoefficient : string;
  MaxDelayMs : Z;
  NonRetryableErrorCodes : list string;
  TimeoutMs : Z;
}.

Record TinyNodeEdge := mkEdge {
  e_ID : string;
  e_Port : string;
  e_To : string;
  e_FlowID : string;
  e_RetryPolicy : option EdgeRetryPolicy;
}.

Record TinyNodePortConfig := mkPortConfig {
  pc_From : string;
  pc_Port : string;
  pc_Schema : string;
  pc_Configuration : string;
  pc_FlowID : string;
}.

Record TinyNodePortStatus := mkPortStatus {
  ps_Name : string;
  ps_Label : string;
  ps_Position : Z;
  ps_Source : bool;
  ps_Schema : string;
  ps_Configuration : string;
}.

Record TinyNodeSpec := mkSpec {
  spec_Module : string;
  spec_Component : string;
  spec_Ports : list TinyNodePortConfig;
  spec_Edges : list TinyNodeEdge;
}.

Record TinyNodeStatus := mkStatus {
  st_ObservedGeneration : Z;
  st_Description : string;      (* Component.Description *)
  st_Info : string;             (* Component.Info *)
  st_Tags : list string;        (* Component.Tags *)
  st_Ports : list TinyNodePortStatus;
  st_Status : string;
  st_Metadata : gmap string string;
  st_Error : bool;
}.

Record TinyNode := mkNode {
  n_Name : string;
  n_Namespace : string;
  n_Labels : gmap string string;
  n_Generation : Z;
  n_Spec : TinyNodeSpec;
  n_Status : TinyNodeStatus;
}.

Definition empty_status : TinyNodeStatus := mkStatus 0 "" "" [] [] "" ∅ false.

(** Go's index of a missing key in a map of strings. *)
Definition label (n : TinyNode) (k : string) : string := default "" (n_Labels n !! k).

Definition with_edges (n : TinyNode) (es : list TinyNodeEdge) : TinyNode :=
  mkNode (n_Name n) (n_Namespace n) (n_Labels n) (n_Generation n)
    (mkSpec (spec_Module (n_Spec n)) (spec_Component (n_Spec n)) (spec_Ports (n_Spec n)) es)
    (n_Status n).

Definition with_ports (n : TinyNode) (ps : list TinyNodePortConfig) : TinyNode :=
  mkNode (n_Name n) (n_Namespace n) (n_Labels n) (n_Generation n)
    (mkSpec (spec_Module (n_Spec n)) (spec_Component (n_Spec n)) ps (spec_Edges (n_Spec n)))
    (n_Status n).

Definition with_status (n : TinyNode) (s : TinyNodeStatus) : TinyNode :=
  mkNode (n_Name n) (n_Namespace n) (n_Labels n) (n_Generation n) (n_Spec n) s.

#[export] Instance EdgeRetryPolicy_eq_dec : EqDecision EdgeRetryPolicy.
Proof. solve_decision. Defined.
#[export] Instance TinyNodeEdge_eq_dec : EqDecision TinyNodeEdge.
Proof. solve_decision. Defined.
#[export] Instance TinyNodePortConfig_eq_dec : EqDecision TinyNodePortConfig.
Proof. solve_decision. Defined.
#[export] Instance TinyNodePortStatus_eq_dec : EqDecision TinyNodePortStatus.
Proof. solve_decision. Defined.
#[export] Instance TinyNodeStatus_eq_dec : EqDecision TinyNodeStatus.
Proof. solve_decision. Defined.

(** ** pkg/utils/edges.go *)

(** [flowIDs map[string]bool]: a missing flow reads as false. *)
Definition in_flows (flowIDs : gmap string bool) (f : string) : bool :=
  default false (flowIDs !! f).

Definition ReplaceFlowEdges (existing : list TinyNodeEdge) (flowIDs : gmap string bool)
    (newEdges : list TinyNodeEdge) : list TinyNodeEdge :=
  List.filter (fun e => negb (in_flows flowIDs (e_FlowID e))) existing ++ newEdges.

Definition ReplaceFlowPortConfigs (existing : list TinyNodePortConfig)
    (flowIDs : gmap string bool) (newConfigs : list TinyNodePortConfig)
    : list TinyNodePortConfig :=
  List.filter (fun pc => (pc_From pc =? "") || negb (in_flows flowIDs (pc_FlowID pc)))
    existing ++ newConfigs.

Definition edge_targets (name : string) (e : TinyNodeEdge) : bool :=
  (ParseFullPortName (e_To e)).1 =? name.

Definition config_from (name : string) (pc : TinyNodePortConfig) : bool :=
  negb (pc_From pc =? "") && ((ParseFullPortName (pc_From pc)).1 =? name).

Definition RemoveNodeReferences (node : TinyNode) (deletedNodeName : string)
    : TinyNode * bool :=
  let changed := existsb (edge_targets deletedNodeName) (spec_Edges (n_Spec node))
              || existsb (config_from deletedNodeName) (spec_Ports (n_Spec node)) in
  let cleanEdges := List.filter (fun e => negb (edge_targets deletedNodeName e))
                      (spec_Edges (n_Spec node)) in
  let cleanPorts := List.filter (fun pc => negb (config_from deletedNodeName pc))
                      (spec_Ports (n_Spec node)) in
  if changed then (with_ports (with_edges node cleanEdges) cleanPorts, true)
  else (node, false).

(** ** pkg/utils/edge.go *)

(** [uuid.New] is third-party: the fresh id is an argument. *)
Definition NewEdge (id sourcePort targetNode targetPort flowID : string) : TinyNodeEdge :=
  mkEdge id sourcePort (GetPortFullName targetNode targetPort) flowID None.

Definition NewPortConfigWithSchema (sourcePort targetNode targetPort flowID
    configuration schema : string) : TinyNodePortConfig :=
  mkPortConfig (GetPortFullName targetNode targetPort) sourcePort schema configuration flowID.

Definition NewPortConfig (sourcePort targetNode targetPort flowID configuration : string)
    : TinyNodePortConfig :=
  mkPortConfig (GetPortFullName targetNode targetPort) sourcePort "" configuration flowID.

Definition AddEdgeToNode (node : TinyNode) (id sourcePort targetNode targetPort flowID : string)
    : TinyNode * TinyNodeEdge :=
  let edge := NewEdge id sourcePort targetNode targetPort flowID in
  (with_edges node (spec_Edges (n_Spec node) ++ [edge]), edge).

(** The loop of [RemoveEdgeFromNode]: the kept edges, and the [To] of the last
    removed one. *)
Fixpoint remove_edge (edges : list TinyNodeEdge) (edgeID targetTo : string)
    : list TinyNodeEdge * string :=
  match edges with
  | [] => ([], targetTo)
  | e :: es =>
      if e_ID e =? edgeID then remove_edge es edgeID (e_To e)
      else let '(kept, t) := remove_edge es edgeID targetTo in (e :: kept, t)
  end.

Definition RemoveEdgeFromNode (node : TinyNode) (edgeID : string) : TinyNode * string :=
  let '(kept, targetTo) := remove_edge (spec_Edges (n_Spec node)) edgeID "" in
  (with_edges node kept, targetTo).

Definition RemovePortConfigByFrom (node : TinyNode) (from : string) : TinyNode :=
  if from =? "" then node
  else with_ports node (List.filter (fun pc => negb (pc_From pc =? from)) (spec_Ports (n_Spec node))).

Definition DisconnectEdge (node : TinyNode) (edgeID : string) : TinyNode :=
  let '(node', targetTo) := RemoveEdgeFromNode node edgeID in
  RemovePortConfigByFrom node' targetTo.

(** ** Lemmas *)

Lemma with_edges_id (n : TinyNode) : with_edges n (spec_Edges (n_Spec n)) = n.
Proof. by destruct n as [? ? ? ? []]. Qed.

Lemma with_ports_id (n : TinyNode) : with_ports n (spec_Ports (n_Spec n)) = n.
Proof. by destruct n as [? ? ? ? []]. Qed.

Lemma remove_edge_spec (edges : list TinyNodeEdge) (id t : string) :
  (remove_edge edges id t).1 = List.filter (fun e => negb (e_ID e =? id)) edges /\
  (remove_edge edges id t).2 =
    default t (e_To <$> last (List.filter (fun e => e_ID e =? id) edges)).
Proof.
  revert t. induction edges as [|e es IH]; intros t; [done|]. simpl.
  destruct (e_ID e =? id); simpl.
  - destruct (IH (e_To e)) as [-> ->]. split; [done|].
    rewrite last_cons. by destruct (last _).
  - destruct (IH t) as [IH1 IH2]. by destruct (remove_edge es id t); simpl in *; subst.
Qed.

(** Deleting a node leaves no trace of it in any other node: after
    [RemoveNodeReferences] no edge targets it and no port configuration comes
    from it, everything else of the node is kept in order, the flag says
    whether anything was removed, and a second pass changes nothing. *)
Theorem remove_node_references_clean (node : TinyNode) (name : string) :
  let '(node', changed) := RemoveNodeReferences node name in
  spec_Edges (n_Spec node') =
    List.filter (fun e => negb (edge_targets name e)) (spec_Edges (n_Spec node)) /\
  spec_Ports (n_Spec node') =
    List.filter (fun pc => negb (config_from name pc)) (spec_Ports (n_Spec node)) /\
  with_ports (with_edges node (spec_Edges (n_Spec node'))) (spec_Ports (n_Spec node')) = node' /\
  (changed = false <-> node' = node) /\
  RemoveNodeReferences node' name = (node', false).
Proof.
  unfold RemoveNodeReferences at 1.
  destruct (existsb (edge_targets name) _) eqn:E1; [|destruct (existsb (config_from name) _) eqn:E2]; simpl.
  1, 2: unfold RemoveNodeReferences; simpl; rewrite !existsb_filter_negb; simpl;
    split_and!; try done; split; [done|intros Heq; exfalso].
  - apply (f_equal (fun n => spec_Edges (n_Spec n))) in Heq. simpl in Heq.
    pose proof (existsb_filter_negb (edge_targets name) (spec_Edges (n_Spec node))) as H.
    rewrite Heq in H. congruence.
  - apply (f_equal (fun n => spec_Ports (n_Spec n))) in Heq. simpl in Heq.
    pose proof (existsb_filter_negb (config_from name) (spec_Ports (n_Spec node))) as H.
    rewrite Heq in H. congruence.
  - rewrite !filter_negb_id by done. unfold RemoveNodeReferences.
    rewrite E1, E2. simpl. by rewrite with_edges_id, with_ports_id.
Qed.

(** Re-importing a flow replaces exactly that flow: when the new edges and
    configurations belong to the imported flows, what the result holds of those
    flows is what was imported, what it holds of the other flows (and every
    handle-level configuration, whose sender is empty) is what was there, and
    importing the same again changes nothing. *)
Theorem replace_flow_exact (es new_es : list TinyNodeEdge) (pcs new_pcs : list TinyNodePortConfig)
    (flows : gmap string bool) :
  forallb (fun e => in_flows flows (e_FlowID e)) new_es = true ->
  forallb (fun pc => in_flows flows (pc_FlowID pc) && negb (pc_From pc =? "")) new_pcs = true ->
  let mine := fun e => in_flows flows (e_FlowID e) in
  let pc_mine := fun pc => negb (pc_From pc =? "") && in_flows flows (pc_FlowID pc) in
  let r := ReplaceFlowEdges es flows new_es in
  let pr := ReplaceFlowPortConfigs pcs flows new_pcs in
  List.filter mine r = new_es /\
  List.filter (fun e => negb (mine e)) r = List.filter (fun e => negb (mine e)) es /\
  ReplaceFlowEdges r flows new_es = r /\
  List.filter pc_mine pr = new_pcs /\
  List.filter (fun pc => negb (pc_mine pc)) pr = List.filter (fun pc => negb (pc_mine pc)) pcs /\
  ReplaceFlowPortConfigs pr flows new_pcs = pr.
Proof.
  intros He Hp mine pc_mine r pr.
  assert (Hpc : forall pc, (pc_From pc =? "") || negb (in_flows flows (pc_FlowID pc)) = negb (pc_mine pc)).
  { intros pc. unfold pc_mine. by destruct (pc_From pc =? ""), (in_flows flows (pc_FlowID pc)). }
  assert (Hpr : forall l, ReplaceFlowPortConfigs l flows new_pcs =
                (List.filter (fun pc => negb (pc_mine pc)) l ++ new_pcs)%list).
  { intros l. unfold ReplaceFlowPortConfigs. f_equal. apply List.filter_ext, Hpc. }
  assert (Hnp : forallb pc_mine new_pcs = true).
  { erewrite forallb_ext; [exact Hp|]. intros pc. apply andb_comm. }
  assert (Hgen : forall A (p : A -> bool) (l new : list A), forallb p new = true ->
    List.filter p (List.filter (fun x => negb (p x)) l ++ new)%list = new /\
    List.filter (fun x => negb (p x)) (List.filter (fun x => negb (p x)) l ++ new)%list =
      List.filter (fun x => negb (p x)) l).
  { clear. intros A p l new Hn. rewrite !List.filter_app. split.
    - rewrite (filter_all p new) by done. rewrite filter_none; [done|].
      apply forallb_forall. intros x [_ H]%filter_In. exact H.
    - rewrite filter_filter_id, (filter_none (fun x => negb (p x)) new); [apply app_nil_r|].
      erewrite forallb_ext; [exact Hn|]. intros x. apply negb_involutive. }
  unfold pr. rewrite !Hpr. unfold r, ReplaceFlowEdges.
  destruct (Hgen _ mine es new_es He) as [H1 H2]. fold mine.
  destruct (Hgen _ pc_mine pcs new_pcs Hnp) as [H3 H4].
  change (fun e => negb (in_flows flows (e_FlowID e))) with (fun e => negb (mine e)).
  rewrite H1, H2, H3, H4. done.
Qed.

Lemma replace_flow_exact_witness :
  let old := mkEdge "e1" "out" "b:in" "f1" None in
  let other := mkEdge "e2" "out" "c:in" "f2" None in
  let new := mkEdge "e3" "out" "d:in" "f1" None in
  let flows : gmap string bool := {[ "f1" := true ]} in
  let handle := mkPortConfig "" "_settings" "" "{}" "f1" in
  let pc := mkPortConfig "a:out" "in" "" "{}" "f1" in
  ReplaceFlowEdges [old; other] flows [new] = [other; new] /\
  ReplaceFlowPortConfigs [handle; pc] flows [pc] = [handle; pc] /\
  List.filter (fun e => in_flows flows (e_FlowID e)) (ReplaceFlowEdges [old; other] flows [new]) = [new].
Proof.
  intros old other new flows handle pc. split; [reflexivity|]. split; [reflexivity|].
  apply (replace_flow_exact [old; other] [new] [handle; pc] [pc] flows); reflexivity.
Defined.

(** Disconnecting an edge undoes connecting it: adding an edge under a
    fresh id and disconnecting that id restores the node's edges, and drops
    exactly the port configurations whose sender is the edge's target. *)
Theorem disconnect_undoes_add (node : TinyNode) (id port target tport flow : string) :
  existsb (fun e => e_ID e =? id) (spec_Edges (n_Spec node)) = false ->
  let '(node', edge) := AddEdgeToNode node id port target tport flow in
  let from := GetPortFullName target tport in
  DisconnectEdge node' id =
    if from =? "" then node
    else with_ports node (List.filter (fun pc => negb (pc_From pc =? from)) (spec_Ports (n_Spec node))).
Proof.
  intros Hfresh. simpl. unfold DisconnectEdge, RemoveEdgeFromNode. simpl.
  destruct (remove_edge_spec (spec_Edges (n_Spec node) ++
    [NewEdge id port target tport flow])%list id "") as [H1 H2].
  rewrite List.filter_app in H1, H2. rewrite (filter_negb_id _ _ Hfresh) in H1.
  rewrite filter_none in H2.
  2: { apply forallb_forall. intros x Hx. apply negb_true_iff. apply not_true_iff_false.
       intros Hc. apply not_true_iff_false in Hfresh. apply Hfresh, existsb_exists. eauto. }
  simpl in H1, H2. rewrite String.eqb_refl in H1, H2. simpl in H1, H2. rewrite app_nil_r in H1.
  destruct (remove_edge _ id "") as [kept t]; simpl in *; subst.
  unfold RemovePortConfigByFrom.
  replace (with_edges (with_edges node _) _) with node by (by destruct node as [? ? ? ? []]).
  done.
Qed.

Lemma disconnect_undoes_add_witness :
  let node := mkNode "a" "ns" ∅ 1 (mkSpec "m" "c" [mkPortConfig "b:in" "out" "" "{}" "f"] []) empty_status in
  let '(node', _) := AddEdgeToNode node "e1" "out" "b" "in" "f" in
  length (spec_Edges (n_Spec node')) = 1%nat /\ DisconnectEdge node' "e1" = with_ports node [].
Proof.
  intros node. split; [reflexivity|].
  apply (disconnect_undoes_add node "e1" "out" "b" "in" "f"). reflexivity.
Defined.
