(* ===== verification/Run.v ===== *)
(** * Durable runs

    The identity of a durable run and its step keys ([module/run.go]), the step
    ledger's records ([module/ledger.go]) and the message type that carries
    them between nodes ([internal/scheduler/runner/msg.go]).

    A [*Run] is shared by every context derived from the one it was attached
    to, and emitting a hop mutates it: runs live in a store ([RunStore], a
    pointer is an index) and a context holds the pointer. [uuid.NewString] is
    third-party: the fresh id is an argument. *)
From S2P Require Import Prelude GoErrors Names.

Open Scope string_scope.

(** ** FNV-1a, 64 bit (hash/fnv) *)

Definition fnv_offset64 : Z := 14695981039346656037.
Definition fnv_prime64 : Z := 1099511628211.

Definition fnv1a_step (h : Z) (c : ascii) : Z :=
  (Z.lxor h (Z.of_N (N_of_ascii c)) * fnv_prime64) mod 2 ^ 64.

Fixpoint fnv1a (h : Z) (s : string) : Z :=
  match s with EmptyString => h | String c s' => fnv1a (fnv1a_step h c) s' end.

(** [fmt.Sprintf("%0kx", v)] for [0 <= v < 16^k]. *)
Definition hex_digit (d : Z) : ascii :=
  ascii_of_N (Z.to_N (if d <? 10 then 48 + d else 87 + d)%Z).

Fixpoint hex_pad (k : nat) (v : Z) : string :=
  match k with
  | O => ""
  | S k' => hex_pad k' (v / 16) +:+ String (hex_digit (v mod 16)) ""
  end.

(** ** module/ledger.go *)

Record EmitRecord := mkEmit {
  er_To : string;
  er_From : string;
  er_EdgeID : string;
  er_StepKey : string;
  er_Data : string;
  er_ReplySubject : string;
  er_ReplyTarget : string;
  er_ReplyDeadlineUnixMs : Z;
}.

Definition StepStatusDone : string := "done".
Definition StepStatusFailed : string := "failed".

(** Times are Unix nanoseconds. *)
Record StepRecord := mkStep {
  sr_Node : string;
  sr_Status : string;
  sr_Error : string;
  sr_Emits : list EmitRecord;
  sr_StartedAt : Z;
  sr_CompletedAt : Z;
  sr_DurationMs : Z;
}.

Definition stepLedgerPrefix : string := "step/".
Definition StepLedgerKey (stepKey : string) : string := stepLedgerPrefix +:+ stepKey.

(** ** module/run.go *)

Record Run := mkRun {
  r_RunID : string;
  r_StepKey : string;
  r_ReplySubject : string;
  r_ReplyTarget : string;
  r_ReplyDeadlineUnixMs : Z;
  r_seq : gmap string Z;
  r_emits : list EmitRecord;
}.

Definition NewRun (runID stepKey : string) : Run := mkRun runID stepKey "" "" 0 ∅ [].

Definition WithReply (r : Run) (subject target : string) (deadlineUnixMs : Z) : Run :=
  mkRun (r_RunID r) (r_StepKey r) subject target deadlineUnixMs (r_seq r) (r_emits r).

Definition Run_IsReplyHop (r : Run) (targetPortAddr : string) : bool :=
  negb (r_ReplySubject r =? "") && negb (r_ReplyTarget r =? "")
  && (targetPortAddr =? r_ReplyTarget r).

Definition MintRun (uuid : string) : Run := mkRun uuid (uuid +:+ ".root") "" "" 0 ∅ [].

(** The string [NextStepKey] hashes. *)
Definition key_preimage (stepKey edgeID : string) (n : Z) : string :=
  stepKey +:+ "|" +:+ edgeID +:+ "|" +:+ go_itoa n.

Definition step_key (runID stepKey edgeID : string) (n : Z) : string :=
  runID +:+ "." +:+ hex_pad 16 (fnv1a fnv_offset64 (key_preimage stepKey edgeID n)).

Definition NextStepKey (r : Run) (edgeID : string) : string * Run :=
  let n := default 0%Z (r_seq r !! edgeID) in
  (step_key (r_RunID r) (r_StepKey r) edgeID n,
   mkRun (r_RunID r) (r_StepKey r) (r_ReplySubject r) (r_ReplyTarget r)
     (r_ReplyDeadlineUnixMs r) (<[edgeID := (n + 1)%Z]> (r_seq r)) (r_emits r)).

Definition RecordEmit (r : Run) (e : EmitRecord) : Run :=
  mkRun (r_RunID r) (r_StepKey r) (r_ReplySubject r) (r_ReplyTarget r)
    (r_ReplyDeadlineUnixMs r) (r_seq r) (r_emits r ++ [e]).

Definition Emits (r : Run) : list EmitRecord := r_emits r.

(** ** Contexts

    What the SDK reads of a Go context: the run attached to it, the cancel
    functions above it, its deadline and the source node. *)
Record Ctx := mkCtx {
  cx_run : option nat;
  cx_cancels : list nat;
  cx_deadline : option Z;
  cx_source : string;
}.

Definition background : Ctx := mkCtx None [] None "".

Abbreviation RunStore := (list Run).

Definition ctx_with_run (ctx : Ctx) (p : nat) : Ctx :=
  mkCtx (Some p) (cx_cancels ctx) (cx_deadline ctx) (cx_source ctx).

(** [WithRun(ctx, r)] for a run that was just built. *)
Definition WithRun (ctx : Ctx) (r : Run) (st : RunStore) : Ctx * RunStore :=
  (ctx_with_run ctx (length st), st ++ [r])%list.

Definition RunFrom (ctx : Ctx) (st : RunStore) : option (nat * Run) :=
  match cx_run ctx with
  | Some p => (fun r => (p, r)) <$> st !! p
  | None => None
  end.

Definition BeginRun (uuid : string) (ctx : Ctx) (st : RunStore) : Ctx * string * RunStore :=
  match RunFrom ctx st with
  | Some (_, r) => (ctx, r_RunID r, st)
  | None =>
      let r := MintRun uuid in
      let '(ctx', st') := WithRun ctx r st in (ctx', r_RunID r, st')
  end.

Definition BeginRunWithReply (uuid : string) (ctx : Ctx)
    (replySubject targetPortAddr : string) (deadlineUnixMs : Z) (st : RunStore)
    : Ctx * string * RunStore :=
  match RunFrom ctx st with
  | Some (_, r) => (ctx, r_RunID r, st)
  | None =>
      let r := WithReply (MintRun uuid) replySubject targetPortAddr deadlineUnixMs in
      let '(ctx', st') := WithRun ctx r st in (ctx', r_RunID r, st')
  end.

Definition RunID (ctx : Ctx) (st : RunStore) : option string :=
  (fun p => r_RunID p.2) <$> RunFrom ctx st.

(** ** internal/scheduler/runner/msg.go

    [Resp] is the response configuration of the source port, a Go value of the
    component's ([None] is nil). *)
Record Msg (V : Type) := mkMsg {
  m_EdgeID : string;
  m_From : string;
  m_To : string;
  m_Data : string;
  m_Depth : Z;
  m_Mode : string;
  m_RunID : string;
  m_StepKey : string;
  m_ReplySubject : string;
  m_ReplyTarget : string;
  m_ReplyDeadlineUnixMs : Z;
  m_Resp : option V;
}.
Arguments mkMsg {V}.
Arguments m_EdgeID {V}. Arguments m_From {V}. Arguments m_To {V}. Arguments m_Data {V}.
Arguments m_Depth {V}. Arguments m_Mode {V}. Arguments m_RunID {V}. Arguments m_StepKey {V}.
Arguments m_ReplySubject {V}. Arguments m_ReplyTarget {V}.
Arguments m_ReplyDeadlineUnixMs {V}. Arguments m_Resp {V}.

Definition Msg_IsReplyHop {V} (m : Msg V) : bool :=
  negb (m_ReplySubject m =? "") && negb (m_ReplyTarget m =? "") && (m_To m =? m_ReplyTarget m).

(** ** Executions of a handler, as far as its run sees them

    The keys the run hands out when the handler emits over the edges [es], in
    this order (one per call of [NextStepKey]). *)
Fixpoint emit_keys (r : Run) (es : list string) : list (string * string) :=
  match es with
  | [] => []
  | e :: es' => let '(k, r') := NextStepKey r e in (e, k) :: emit_keys r' es'
  end.

(** The keys of the emits over one edge, in order. *)
Definition keys_of (e : string) (ks : list (string * string)) : list string :=
  (List.filter (fun p => p.1 =? e) ks).*2.

Definition count_of (e : string) (es : list string) : nat :=
  length (List.filter (fun x => x =? e) es).

(** ** Lemmas *)

Lemma next_step_key_seq (r : Run) (e e' : string) :
  default 0%Z (r_seq (NextStepKey r e).2 !! e') =
  (default 0%Z (r_seq r !! e') + (if (e =? e')%string then 1 else 0))%Z.
Proof.
  simpl. destruct (String.eqb_spec e e') as [->|Hne].
  - by rewrite lookup_insert_eq.
  - rewrite lookup_insert_ne by done. lia.
Qed.

Lemma keys_of_emit (e : string) (es : list string) (r : Run) :
  keys_of e (emit_keys r es) =
  (fun i => step_key (r_RunID r) (r_StepKey r) e (default 0%Z (r_seq r !! e) + Z.of_nat i)%Z)
    <$> seq 0 (count_of e es).
Proof.
  revert r. induction es as [|x es IH]; intros r; [done|].
  cbn [emit_keys]. pose proof (next_step_key_seq r x e) as Hs.
  destruct (NextStepKey r x) as [k r'] eqn:E. simpl in Hs.
  unfold keys_of, count_of in *. cbn [List.filter fst].
  assert (Hr : r_RunID r' = r_RunID r /\ r_StepKey r' = r_StepKey r) by (by injection E as <- <-).
  destruct Hr as [Hr1 Hr2]. specialize (IH r'). rewrite Hr1, Hr2, Hs in IH.
  destruct (String.eqb_spec x e) as [->|Hne]; cbn [fmap list_fmap length snd].
  - rewrite IH. injection E as <- <-. simpl. rewrite Z.add_0_r. f_equal.
    rewrite <- fmap_S_seq, <- list_fmap_compose. apply list_fmap_ext. intros i ? _.
    unfold compose. f_equal. lia.
  - rewrite IH. apply list_fmap_ext. intros i ? _. f_equal. lia.
Qed.

Lemma hex_digit_inj (a b : Z) :
  (0 <= a < 16)%Z -> (0 <= b < 16)%Z -> hex_digit a = hex_digit b -> a = b.
Proof.
  intros Ha Hb. assert (H : forall z, (0 <= z < 16)%Z -> exists n, (n < 16)%nat /\ z = Z.of_nat n).
  { intros z Hz. exists (Z.to_nat z). lia. }
  destruct (H a Ha) as (n & Hn & ->), (H b Hb) as (m & Hm & ->).
  do 16 (destruct n as [|n]; [do 16 (destruct m as [|m]; [done|]); lia|]). lia.
Qed.

Lemma str_app_snoc_inj (a b : string) (x y : ascii) :
  a +:+ String x "" = b +:+ String y "" -> a = b /\ x = y.
Proof.
  revert b. induction a as [|c a IH]; intros [|d b]; rewrite ?str_app_cons, ?str_app_nil_l; intros H.
  - by injection H.
  - injection H as _ H. by destruct b.
  - injection H as _ H. by destruct a.
  - injection H as -> H. by apply IH in H as [-> ->].
Qed.

Lemma hex_pad_inj (k : nat) (u v : Z) :
  (0 <= u < 16 ^ Z.of_nat k)%Z -> (0 <= v < 16 ^ Z.of_nat k)%Z ->
  hex_pad k u = hex_pad k v -> u = v.
Proof.
  revert u v. induction k as [|k IH]; intros u v Hu Hv H; [simpl in *; lia|].
  rewrite Nat2Z.inj_succ, Z.pow_succ_r in Hu, Hv by lia. simpl in H.
  apply str_app_snoc_inj in H as [H1 H2].
  apply hex_digit_inj in H2; [|apply Z.mod_pos_bound; lia..].
  apply IH in H1; [|split; [apply Z.div_pos; lia|apply Z.div_lt_upper_bound; lia]..].
  rewrite (Z.div_mod u 16), (Z.div_mod v 16) by lia. congruence.
Qed.

Lemma hex_pad_length (k : nat) (v : Z) : String.length (hex_pad k v) = k.
Proof.
  revert v. induction k as [|k IH]; intros v; [done|]. simpl.
  rewrite str_length_app, IH. simpl. lia.
Qed.

Lemma fnv1a_bound (s : string) (h : Z) :
  (0 <= h < 2 ^ 64)%Z -> (0 <= fnv1a h s < 2 ^ 64)%Z.
Proof.
  revert h. induction s as [|c s IH]; intros h Hh; [done|].
  apply IH. unfold fnv1a_step. apply Z.mod_pos_bound. lia.
Qed.

Lemma fnv1a_app (a b : string) (h : Z) : fnv1a h (a +:+ b) = fnv1a (fnv1a h a) b.
Proof. revert h. induction a as [|c a IH]; intros h; [done|]. rewrite str_app_cons. apply IH. Qed.

(** One FNV-1a step is injective in the byte: the prime is odd. *)
Lemma fnv1a_step_inj (h : Z) (a b : ascii) :
  (0 <= h < 2 ^ 64)%Z -> fnv1a_step h a = fnv1a_step h b -> a = b.
Proof.
  intros Hh H. unfold fnv1a_step in H.
  assert (Hbyte : forall c, (0 <= Z.of_N (N_of_ascii c) < 2 ^ 8)%Z).
  { intros c. pose proof (N_ascii_bounded c). lia. }
  assert (Hx : forall c, (0 <= Z.lxor h (Z.of_N (N_of_ascii c)) < 2 ^ 64)%Z).
  { intros c. specialize (Hbyte c). split; [apply Z.lxor_nonneg; lia|].
    destruct (Z.eq_dec (Z.lxor h (Z.of_N (N_of_ascii c))) 0) as [->|Hnz]; [lia|].
    apply Z.log2_lt_pow2; [|eapply Z.le_lt_trans; [apply Z.log2_lxor; lia|]].
    - assert (0 <= Z.lxor h (Z.of_N (N_of_ascii c)))%Z by (apply Z.lxor_nonneg; lia). lia.
    - apply Z.max_lub_lt; (destruct (Z.eq_dec h 0), (Z.eq_dec (Z.of_N (N_of_ascii c)) 0);
        subst; simpl; try lia; try (apply Z.log2_lt_pow2; lia)).
      all: rewrite ?e, ?e0; simpl; try lia; apply Z.log2_lt_pow2; lia. }
  assert (Hinv : forall x, (0 <= x < 2 ^ 64)%Z ->
    ((x * fnv_prime64) mod 2 ^ 64 * 14886173955864302971 mod 2 ^ 64 = x)%Z).
  { intros x Hx'. rewrite Z.mul_mod_idemp_l by lia.
    replace (x * fnv_prime64 * 14886173955864302971)%Z
      with (x + (x * ((fnv_prime64 * 14886173955864302971 - 1) / 2 ^ 64)) * 2 ^ 64)%Z
      by (unfold fnv_prime64; vm_compute ((_ - 1) / _)%Z; lia).
    rewrite Z.mod_add by lia. apply Z.mod_small. exact Hx'. }
  assert (Heq : Z.lxor h (Z.of_N (N_of_ascii a)) = Z.lxor h (Z.of_N (N_of_ascii b))).
  { rewrite <- (Hinv _ (Hx a)), <- (Hinv _ (Hx b)). by rewrite H. }
  apply (f_equal (Z.lxor h)) in Heq. rewrite <- !Z.lxor_assoc, !Z.lxor_nilpotent, !Z.lxor_0_l in Heq.
  apply (f_equal Z.to_N) in Heq. rewrite !N2Z.id in Heq.
  rewrite <- (ascii_N_embedding a), <- (ascii_N_embedding b). by rewrite Heq.
Qed.

Lemma itoa_digit (n : Z) :
  (0 <= n < 10)%Z -> go_itoa n = String (hex_digit n) "".
Proof.
  intros Hn. assert (H : exists m, (m < 10)%nat /\ n = Z.of_nat m) by (exists (Z.to_nat n); lia).
  destruct H as (m & Hm & ->). do 10 (destruct m as [|m]; [reflexivity|]). lia.
Qed.

(** ** Properties *)

(** Idempotency keys are stable across a redelivery: two executions of a
    handler on the same message (same run id and step key) that emit the same
    number of times over each edge hand out the same keys over each edge, in
    the same order, however the emits to different edges interleave; the i-th
    key over an edge is derived from the message's step key, the edge and i. *)
Theorem step_keys_interleaving_independent (runID stepKey e : string) (es1 es2 : list string) :
  count_of e es1 = count_of e es2 ->
  keys_of e (emit_keys (NewRun runID stepKey) es1) =
    keys_of e (emit_keys (NewRun runID stepKey) es2) /\
  keys_of e (emit_keys (NewRun runID stepKey) es1) =
    (fun i => step_key runID stepKey e (Z.of_nat i)) <$> seq 0 (count_of e es1).
Proof. intros H. by rewrite !keys_of_emit, H. Qed.

Lemma step_keys_interleaving_independent_witness :
  keys_of "a" (emit_keys (NewRun "r" "r.root") ["a"; "b"; "a"; "c"]) =
    keys_of "a" (emit_keys (NewRun "r" "r.root") ["c"; "b"; "b"; "a"; "a"]).
Proof.
  apply (step_keys_interleaving_independent "r" "r.root" "a" ["a"; "b"; "a"; "c"]
    ["c"; "b"; "b"; "a"; "a"]). reflexivity.
Defined.

(** The broker's duplicate window never swallows a genuine emit of a
    handler's first ten over one edge: their keys are pairwise different
    (no FNV collision is possible between them), and every key has the length
    of its run id plus 17, however deep the chain. *)
Theorem sibling_step_keys_distinct (runID stepKey e : string) (n m : Z) :
  (0 <= n < 10)%Z -> (0 <= m < 10)%Z ->
  (step_key runID stepKey e n = step_key runID stepKey e m -> n = m) /\
  String.length (step_key runID stepKey e n) = (String.length runID + 17)%nat.
Proof.
  intros Hn Hm. unfold step_key. split.
  - intros H%str_app_inj_l%(str_app_inj_l ".").
    apply hex_pad_inj in H; [|by apply fnv1a_bound; unfold fnv_offset64; lia..].
    unfold key_preimage in H. rewrite !itoa_digit in H by done.
    rewrite <- !str_app_assoc, !fnv1a_app in H. simpl in H.
    apply fnv1a_step_inj in H; [by apply hex_digit_inj in H; lia|].
    apply Z.mod_pos_bound. lia.
  - rewrite !str_length_app, hex_pad_length. simpl. lia.
Qed.

Lemma sibling_step_keys_distinct_witness :
  (0 <> 9)%Z /\ String.length (step_key "run-1" "run-1.root" "e1" 0) = 22%nat /\
  step_key "run-1" "run-1.root" "e1" 0 <> step_key "run-1" "run-1.root" "e1" 9.
Proof.
  split; [lia|]. split; [reflexivity|]. intros H.
  destruct (sibling_step_keys_distinct "run-1" "run-1.root" "e1" 0 9) as [H1 _]; [lia|lia|].
  specialize (H1 H). lia.
Defined.

(** Starting a run is idempotent: where the context already carries a run,
    [BeginRun] and [BeginRunWithReply] return it and change nothing; where it
    carries none they attach a fresh one (with its reply address), leave every
    existing run alone, and a second call returns the same run. *)
Theorem begin_run_idempotent (uuid uuid' subject target : string) (dl : Z) (ctx : Ctx) (st : RunStore) :
  let '(ctx1, id1, st1) := BeginRunWithReply uuid ctx subject target dl st in
  RunID ctx1 st1 = Some id1 /\
  st `prefix_of` st1 /\
  BeginRun uuid' ctx1 st1 = (ctx1, id1, st1) /\
  BeginRunWithReply uuid' ctx1 "" "" 0 st1 = (ctx1, id1, st1) /\
  match RunFrom ctx st with
  | Some (p, r) => ctx1 = ctx /\ st1 = st /\ id1 = r_RunID r
  | None => id1 = uuid /\ st1 <> st /\
      exists p r, RunFrom ctx1 st1 = Some (p, r) /\ r_ReplySubject r = subject /\
        r_ReplyTarget r = target /\ r_emits r = [] /\ st !! p = None
  end.
Proof.
  unfold BeginRunWithReply at 1. destruct (RunFrom ctx st) as [[p r]|] eqn:E.
  - unfold RunID, BeginRun, BeginRunWithReply. rewrite E. done.
  - simpl. set (r := WithReply (MintRun uuid) subject target dl).
    assert (HF : RunFrom (ctx_with_run ctx (length st)) (st ++ [r])%list = Some (length st, r)).
    { unfold RunFrom. change (cx_run (ctx_with_run ctx (length st))) with (Some (length st)).
      cbv beta iota. by rewrite list_lookup_middle. }
    unfold RunID, BeginRun, BeginRunWithReply. rewrite HF.
    split; [done|]. split; [by apply prefix_app_r|]. split; [done|]. split; [done|].
    split; [done|]. split.
    + intros H. apply (f_equal length) in H. rewrite length_app in H. simpl in H. lia.
    + exists (length st), r. repeat split. by apply lookup_ge_None_2.
Qed.
