(* ===== verification/Base64.v ===== *)
(** * Standard base64

    [encoding/base64.StdEncoding] as the metadata backend uses it: encoding
    with padding, and decoding (which skips carriage returns and line feeds
    and refuses everything else outside the alphabet). *)
From S2P Require Import Prelude GoErrors.

Open Scope string_scope.

Definition b64_char (d : N) : ascii :=
  ascii_of_N (if d <? 26 then 65 + d
              else if d <? 52 then 71 + d
              else if d <? 62 then d - 4
              else if d =? 62 then 43 else 47)%N.

Definition b64_val (c : ascii) : option N :=
  let n := N_of_ascii c in
  (if is_upper c then Some (n - 65)
   else if is_lower c then Some (n - 71)
   else if is_digit c then Some (n + 4)
   else if n =? 43 then Some 62
   else if n =? 47 then Some 63
   else None)%N.

Definition byte_N (c : ascii) : N := N_of_ascii c.

(** Three bytes to four digits, and back. *)
Definition enc4 (a b c : N) : N * N * N * N :=
  (a / 4, (a mod 4) * 16 + b / 16, (b mod 16) * 4 + c / 64, c mod 64)%N.

Fixpoint b64_encode (s : string) : string :=
  match s with
  | String a (String b (String c s')) =>
      let '(w, x, y, z) := enc4 (byte_N a) (byte_N b) (byte_N c) in
      String (b64_char w) (String (b64_char x) (String (b64_char y) (String (b64_char z) (b64_encode s'))))
  | String a (String b EmptyString) =>
      let '(w, x, y, _) := enc4 (byte_N a) (byte_N b) 0 in
      String (b64_char w) (String (b64_char x) (String (b64_char y) "="))
  | String a EmptyString =>
      let '(w, x, _, _) := enc4 (byte_N a) 0 0 in
      String (b64_char w) (String (b64_char x) "==")
  | EmptyString => EmptyString
  end.

Definition b64_error : goerror := ErrorString "illegal base64 data".

Definition is_newline (c : ascii) : bool := ((N_of_ascii c =? 10) || (N_of_ascii c =? 13))%N.

Fixpoint strip_newlines (s : string) : string :=
  match s with
  | EmptyString => EmptyString
  | String c s' => if is_newline c then strip_newlines s' else String c (strip_newlines s')
  end.

(** Decoding of quartets; a padded quartet ends the text. *)
Fixpoint b64_quads (s : string) : result goerror string :=
  match s with
  | EmptyString => Ok EmptyString
  | String w (String x (String y (String z s'))) =>
      match b64_val w, b64_val x with
      | Some w, Some x =>
          let a := ascii_of_N (w * 4 + x / 16)%N in
          match b64_val y, b64_val z with
          | Some y, Some z =>
              (let! r := b64_quads s' in
               Ok (String a (String (ascii_of_N ((x mod 16) * 16 + y / 4)%N)
                    (String (ascii_of_N ((y mod 4) * 64 + z)%N) r))))%go
          | Some y, None =>
              if Ascii.eqb z "=" && (s' =? "")
              then Ok (String a (String (ascii_of_N ((x mod 16) * 16 + y / 4)%N) EmptyString))
              else Err b64_error
          | None, _ =>
              if Ascii.eqb y "=" && Ascii.eqb z "=" && (s' =? "")
              then Ok (String a EmptyString) else Err b64_error
          end
      | _, _ => Err b64_error
      end
  | _ => Err b64_error
  end.

Definition b64_decode (s : string) : result goerror string := b64_quads (strip_newlines s).

(** ** Lemmas *)

Definition sixtyfour : list N := map N.of_nat (seq 0 64).

Lemma sixtyfour_complete (d : N) : (d < 64)%N -> In d sixtyfour.
Proof.
  intros Hd. apply in_map_iff. exists (N.to_nat d). split; [lia|]. apply in_seq. lia.
Qed.

Lemma b64_val_char (d : N) : (d < 64)%N -> b64_val (b64_char d) = Some d.
Proof.
  intros Hd%sixtyfour_complete.
  assert (H : forallb (fun d => match b64_val (b64_char d) with
    Some e => (e =? d)%N | None => false end) sixtyfour = true) by (vm_compute; reflexivity).
  rewrite forallb_forall in H. specialize (H d Hd).
  destruct (b64_val (b64_char d)); [|done]. by apply N.eqb_eq in H as ->.
Qed.

Lemma b64_char_not_newline (d : N) : (d < 64)%N -> is_newline (b64_char d) = false.
Proof.
  intros Hd%sixtyfour_complete.
  assert (H : forallb (fun d => negb (is_newline (b64_char d))) sixtyfour = true)
    by (vm_compute; reflexivity).
  rewrite forallb_forall in H. by apply negb_true_iff, H.
Qed.

Lemma byte_N_bound (c : ascii) : (byte_N c < 256)%N.
Proof. apply N_ascii_bounded. Qed.

(** The digits of three bytes are below 64 and carry the bytes. *)
Lemma enc4_spec (a b c : N) :
  (a < 256)%N -> (b < 256)%N -> (c < 256)%N ->
  let '(w, x, y, z) := enc4 a b c in
  (w < 64 /\ x < 64 /\ y < 64 /\ z < 64 /\
   w * 4 + x / 16 = a /\ (x mod 16) * 16 + y / 4 = b /\ (y mod 4) * 64 + z = c)%N.
Proof.
  intros Ha Hb Hc. unfold enc4.
  pose proof (N.div_mod a 4 ltac:(lia)) as Ha4. pose proof (N.mod_lt a 4 ltac:(lia)).
  pose proof (N.div_mod b 16 ltac:(lia)) as Hb4. pose proof (N.mod_lt b 16 ltac:(lia)).
  pose proof (N.div_mod c 64 ltac:(lia)) as Hc4. pose proof (N.mod_lt c 64 ltac:(lia)).
  assert (a / 4 < 64)%N by (apply N.Div0.div_lt_upper_bound; lia).
  assert (b / 16 < 16)%N by (apply N.Div0.div_lt_upper_bound; lia).
  assert (c / 64 < 4)%N by (apply N.Div0.div_lt_upper_bound; lia).
  rewrite (N.add_comm ((a mod 4) * 16)), (N.add_comm ((b mod 16) * 4)).
  rewrite !N.div_add, !N.Div0.mod_add by lia.
  rewrite (N.div_small (b / 16)), (N.div_small (c / 64)), (N.mod_small (b / 16)), (N.mod_small (c / 64)) by lia.
  lia.
Qed.

Lemma string_three_ind (P : string -> Prop) :
  P "" -> (forall a, P (String a "")) -> (forall a b, P (String a (String b ""))) ->
  (forall a b c s, P s -> P (String a (String b (String c s)))) -> forall s, P s.
Proof.
  intros H0 H1 H2 H3. fix IH 1. intros [|a [|b [|c s]]]; [exact H0|apply H1|apply H2|apply H3, IH].
Qed.

Lemma strip_encode (s : string) : strip_newlines (b64_encode s) = b64_encode s.
Proof.
  induction s as [|a|a b|a b c s IH] using string_three_ind; [done|..];
    unfold b64_encode; fold b64_encode.
  - pose proof (enc4_spec (byte_N a) 0 0 (byte_N_bound a) ltac:(lia) ltac:(lia)) as H.
    destruct (enc4 _ _ _) as [[[w x] y] z]. destruct H as (? & ? & ? & ? & _).
    simpl. by rewrite !b64_char_not_newline.
  - pose proof (enc4_spec (byte_N a) (byte_N b) 0 (byte_N_bound a) (byte_N_bound b) ltac:(lia)) as H.
    destruct (enc4 _ _ _) as [[[w x] y] z]. destruct H as (? & ? & ? & ? & _).
    simpl. by rewrite !b64_char_not_newline.
  - pose proof (enc4_spec (byte_N a) (byte_N b) (byte_N c) (byte_N_bound a) (byte_N_bound b) (byte_N_bound c)) as H.
    destruct (enc4 _ _ _) as [[[w x] y] z]. destruct H as (? & ? & ? & ? & _).
    simpl. by rewrite !b64_char_not_newline, IH.
Qed.

Lemma ascii_byte_N (c : ascii) : ascii_of_N (byte_N c) = c.
Proof. apply ascii_N_embedding. Qed.

(** Decoding what was encoded gives the bytes back. *)
Lemma b64_roundtrip (s : string) : b64_decode (b64_encode s) = Ok s.
Proof.
  unfold b64_decode. rewrite strip_encode.
  induction s as [|a|a b|a b c s IH] using string_three_ind; [done|..];
    unfold b64_encode; fold b64_encode.
  - pose proof (enc4_spec (byte_N a) 0 0 (byte_N_bound a) ltac:(lia) ltac:(lia)) as H.
    destruct (enc4 _ _ _) as [[[w x] y] z]. destruct H as (? & ? & ? & ? & Ha & _).
    simpl. rewrite !b64_val_char by done. simpl. by rewrite Ha, ascii_byte_N.
  - pose proof (enc4_spec (byte_N a) (byte_N b) 0 (byte_N_bound a) (byte_N_bound b) ltac:(lia)) as H.
    destruct (enc4 _ _ _) as [[[w x] y] z]. destruct H as (? & ? & ? & ? & Ha & Hb & _).
    simpl. rewrite !b64_val_char by done. simpl. by rewrite Ha, Hb, !ascii_byte_N.
  - pose proof (enc4_spec (byte_N a) (byte_N b) (byte_N c) (byte_N_bound a) (byte_N_bound b) (byte_N_bound c)) as H.
    destruct (enc4 _ _ _) as [[[w x] y] z]. destruct H as (? & ? & ? & ? & Ha & Hb & Hc).
    simpl. rewrite !b64_val_char by done. rewrite IH. simpl. by rewrite Ha, Hb, Hc, !ascii_byte_N.
Qed.

(** The length of an encoding: four digits per three bytes, rounded up. *)
Lemma b64_encode_length (s : string) :
  String.length (b64_encode s) = (4 * ((String.length s + 2) / 3))%nat.
Proof.
  induction s as [|a|a b|a b c s IH] using string_three_ind; [done|done|done|].
  unfold b64_encode; fold b64_encode. destruct (enc4 _ _ _) as [[[w x] y] z].
  cbn [String.length]. rewrite IH.
  replace (S (S (S (String.length s))) + 2)%nat with ((String.length s + 2) + 1 * 3)%nat by lia.
  rewrite Nat.div_add by lia. lia.
Qed.
