(* ===== verification/State.v ===== *)
(** * State backends

    [pkg/state]: the node-local backend that keeps state in the node's status
    metadata behind an overlay of unconfirmed writes ([metadata.go]), the
    execution-scoped backend over a JetStream key-value bucket and the router
    between them ([jetstream.go], [factory.go]).

    The controller-runtime cache and the bucket are third-party: the cache's
    view of the node is an argument of each read ([Reader]), the bucket a type
    with operations ([KVBucket]) and the documented laws of JetStream KV
    ([KVLaws]). The wall clock is an argument, in nanoseconds. *)
From S2P Require Import Prelude GoErrors Names Graph Base64.

Open Scope string_scope.

(** ** pkg/state/metadata.go *)

Definition MaxStateBytes : Z := 900 * 1024.
Definition keyPrefix : string := "_state/".
Definition pendingTTL : Z := 5 * 1000000000.

(** A nil value is a tombstone. *)
Record pendingEntry := mkPending {
  pe_value : option string;
  pe_addedAt : Z;
}.

Record MetadataState := mkMetadataState {
  ms_pending : gmap string pendingEntry;
  ms_emit : bool;   (* whether an emit function is configured *)
}.

Definition NewMetadataState (emit : bool) : MetadataState := mkMetadataState ∅ emit.

(** What a read of the node from the cache gives: there may be no reader. *)
Inductive Reader : Type :=
| NoReader
| ReaderErr (e : goerror)
| ReaderNode (metadata : gmap string string).

(** The reconcile-port updaters the backend emits. *)
Inductive Updater : Type :=
| SetKey (fullKey encoded : string)
| DeleteKey (fullKey : string).

Definition apply_updater (md : gmap string string) (u : Updater) : gmap string string :=
  match u with
  | SetKey k v => <[k := v]> md
  | DeleteKey k => delete k md
  end.

Definition fresh_entry (now : Z) (e : pendingEntry) : bool := (now - pe_addedAt e <? pendingTTL)%Z.

(** The pending entry that still shadows the cache. *)
Definition live_pending (now : Z) (s : MetadataState) (key : string) : option pendingEntry :=
  match ms_pending s !! key with
  | Some e => if fresh_entry now e then Some e else None
  | None => None
  end.

(** [Ok None] is an absent key. *)
Definition meta_get (now : Z) (rd : Reader) (s : MetadataState) (key : string)
    : result goerror (option string) :=
  match live_pending now s key with
  | Some e => Ok (pe_value e)
  | None =>
      match rd with
      | NoReader => Ok None
      | ReaderErr e => Err e
      | ReaderNode md =>
          match md !! (keyPrefix +:+ key) with
          | None => Ok None
          | Some encoded => (let! d := b64_decode encoded in Ok (Some d))%go
          end
      end
  end.

(** The total size of the [_state/] entries of the metadata. *)
Definition entry_size (k v : string) : Z :=
  if go_has_prefix k keyPrefix then str_len k + str_len v else 0.

Definition state_size (md : gmap string string) : Z :=
  map_fold (fun k v acc => (entry_size k v + acc)%Z) 0%Z md.

Definition ErrStateTooLarge : goerror := ErrorString "state size exceeds cap".

(** The total a write of [newEncoded] under [fullKey] is estimated to give. *)
Definition estimated_total (now : Z) (md : gmap string string) (s : MetadataState)
    (fullKey newEncoded : string) : Z :=
  let current0 := state_size md in
  let existing0 := if go_has_prefix fullKey keyPrefix then default "" (md !! fullKey) else "" in
  let userKey := go_trim_prefix fullKey keyPrefix in
  let '(current, existing) :=
    match live_pending now s userKey with
    | Some (mkPending (Some v) _) =>
        let pendingEncoded := b64_encode v in
        if negb (existing0 =? pendingEncoded)
        then (current0 - str_len existing0 + str_len pendingEncoded
                + (if (existing0 =? "")%string then str_len fullKey else 0), pendingEncoded)%Z
        else (current0, existing0)
    | _ => (current0, existing0)
    end in
  let delta := (if (existing =? "")%string then str_len fullKey + str_len newEncoded
                else str_len newEncoded - str_len existing)%Z in
  (current + delta)%Z.

Definition guardSize (now : Z) (rd : Reader) (s : MetadataState) (fullKey newEncoded : string)
    : error :=
  match rd with
  | NoReader | ReaderErr _ => None
  | ReaderNode md =>
      let total := estimated_total now md s fullKey newEncoded in
      if (MaxStateBytes <? total)%Z
      then Some (SuffixError ErrStateTooLarge
             (": write would bring total to " +:+ go_itoa total +:+ " bytes (cap "
              +:+ go_itoa MaxStateBytes
              +:+ "). Evict older keys via Delete() before retrying."))
      else None
  end.

(** A nil and an empty value differ: [value] is [None] for a nil slice. *)
Definition meta_set (now : Z) (rd : Reader) (s : MetadataState) (key : string)
    (value : option string) : result goerror (MetadataState * option Updater) :=
  let encoded := b64_encode (default "" value) in
  let fullKey := keyPrefix +:+ key in
  match guardSize now rd s fullKey encoded with
  | Some e => Err e
  | None =>
      Ok (mkMetadataState (<[key := mkPending value now]> (ms_pending s)) (ms_emit s),
          if ms_emit s then Some (SetKey fullKey encoded) else None)
  end.

Definition meta_delete (now : Z) (s : MetadataState) (key : string)
    : MetadataState * option Updater :=
  (mkMetadataState (<[key := mkPending None now]> (ms_pending s)) (ms_emit s),
   if ms_emit s then Some (DeleteKey (keyPrefix +:+ key)) else None).

(** One step of the loop over the overlay: a tombstone hides, a write shows. *)
Definition overlay_key (now : Z) (prefix k : string) (e : pendingEntry) (keys : gset string)
    : gset string :=
  if negb (go_has_prefix k prefix) then keys
  else if negb (fresh_entry now e) then keys
  else match pe_value e with
       | None => keys ∖ {[ k ]}
       | Some _ => {[ k ]} ∪ keys
       end.

Definition cached_keys (md : gmap string string) (prefix : string) : gset string :=
  list_to_set (omap (fun k =>
    if go_has_prefix k (keyPrefix +:+ prefix) then Some (string_drop (String.length keyPrefix) k)
    else None) (map_to_list md).*1).

Definition meta_list (now : Z) (rd : Reader) (s : MetadataState) (prefix : string)
    : result goerror (list string) :=
  let finish keys :=
    Ok (go_sort_strings (elements (map_fold (overlay_key now prefix) keys (ms_pending s)))) in
  match rd with
  | NoReader => finish ∅
  | ReaderErr e => Err e
  | ReaderNode md => finish (cached_keys md prefix)
  end.

(** ** The overlay in its environment

    A node's state between the component and the API server: the backend, the
    updaters emitted but not yet patched, the persisted metadata, the cache's
    (possibly old) copy of it and the clock. [Patch] is the debounced patch,
    [Sync] the watch, [Remote] a write by someone else. *)
Record Node := mkNodeState {
  nd_now : Z;
  nd_state : MetadataState;
  nd_queue : list Updater;
  nd_stored : gmap string string;
  nd_cache : gmap string string;
}.

Inductive Op : Type :=
| OpSet (key : string) (value : option string)
| OpDelete (key : string)
| Tick (d : Z)
| Patch
| Sync
| Remote (md : gmap string string).

Definition push (q : list Updater) (u : option Updater) : list Updater :=
  match u with Some u => (q ++ [u])%list | None => q end.

(** A rejected [Set] changes nothing. *)
Definition node_step (n : Node) (o : Op) : Node :=
  match o with
  | OpSet k v =>
      match meta_set (nd_now n) (ReaderNode (nd_cache n)) (nd_state n) k v with
      | Ok (s, u) => mkNodeState (nd_now n) s (push (nd_queue n) u) (nd_stored n) (nd_cache n)
      | Err _ => n
      end
  | OpDelete k =>
      let '(s, u) := meta_delete (nd_now n) (nd_state n) k in
      mkNodeState (nd_now n) s (push (nd_queue n) u) (nd_stored n) (nd_cache n)
  | Tick d => mkNodeState (nd_now n + Z.max 0 d) (nd_state n) (nd_queue n) (nd_stored n) (nd_cache n)
  | Patch => mkNodeState (nd_now n) (nd_state n) []
               (foldl apply_updater (nd_stored n) (nd_queue n)) (nd_cache n)
  | Sync => mkNodeState (nd_now n) (nd_state n) (nd_queue n) (nd_stored n) (nd_stored n)
  | Remote md => mkNodeState (nd_now n) (nd_state n) (nd_queue n) md (nd_cache n)
  end.

Definition node_get (n : Node) (key : string) : result goerror (option string) :=
  meta_get (nd_now n) (ReaderNode (nd_cache n)) (nd_state n) key.

Definition accepts (n : Node) (k : string) (v : option string) : bool :=
  is_ok (meta_set (nd_now n) (ReaderNode (nd_cache n)) (nd_state n) k v).

Definition writes (k : string) (o : Op) : bool :=
  match o with OpSet k' _ => k' =? k | OpDelete k' => k' =? k | _ => false end.

(** The contract of a state backend: a map, on which an accepted [Set] of a
    non-nil value inserts, a [Delete] removes, and nothing else writes. *)
Definition spec_step (n : Node) (m : gmap string string) (o : Op) : gmap string string :=
  match o with
  | OpSet k (Some v) => if accepts n k (Some v) then <[k := v]> m else m
  | OpDelete k => delete k m
  | _ => m
  end.

Fixpoint run_ops (n : Node) (m : gmap string string) (os : list Op) : Node * gmap string string :=
  match os with
  | [] => (n, m)
  | o :: os' => run_ops (node_step n o) (spec_step n m o) os'
  end.

(** ** Lemmas: the overlay *)

Lemma node_step_now (n : Node) (o : Op) : (nd_now n <= nd_now (node_step n o))%Z.
Proof.
  destruct o as [k v|k|d| | |md]; unfold node_step; try (simpl; lia).
  destruct (meta_set _ _ _ _ _) as [[s u]|e]; simpl; lia.
Qed.

Lemma node_step_pending (n : Node) (o : Op) (k : string) :
  writes k o = false ->
  ms_pending (nd_state (node_step n o)) !! k = ms_pending (nd_state n) !! k.
Proof.
  intros Hw. destruct o as [k' v|k'|d| | |md]; simpl in Hw; unfold node_step; try done.
  - apply String.eqb_neq in Hw. unfold meta_set. destruct (guardSize _ _ _ _ _); [done|].
    simpl. by rewrite lookup_insert_ne.
  - apply String.eqb_neq in Hw. simpl. by rewrite lookup_insert_ne.
Qed.

Lemma node_steps_now (os : list Op) (n : Node) : (nd_now n <= nd_now (foldl node_step n os))%Z.
Proof.
  revert n. induction os as [|o os IH]; intros n; simpl; [lia|].
  etransitivity; [apply (node_step_now n o)|apply IH].
Qed.

Lemma node_steps_pending (os : list Op) (n : Node) (k : string) :
  existsb (writes k) os = false ->
  ms_pending (nd_state (foldl node_step n os)) !! k = ms_pending (nd_state n) !! k.
Proof.
  revert n. induction os as [|o os IH]; intros n; [done|]. simpl.
  intros [Ho Hos]%orb_false_elim. by rewrite IH, node_step_pending.
Qed.

(** A pending entry answers until it is [pendingTTL] old. *)
Lemma node_get_pending (n : Node) (k : string) (e : pendingEntry) :
  ms_pending (nd_state n) !! k = Some e -> fresh_entry (nd_now n) e = true ->
  node_get n k = Ok (pe_value e).
Proof. intros H Hf. unfold node_get, meta_get, live_pending. by rewrite H, Hf. Qed.

(** ** Lemmas: convergence *)

(** The persisted metadata represents the map [m]. *)
Definition represents (md m : gmap string string) : Prop :=
  forall k, md !! (keyPrefix +:+ k) = b64_encode <$> m !! k.

Lemma key_prefix_inj (a b : string) : keyPrefix +:+ a = keyPrefix +:+ b -> a = b.
Proof. apply str_app_inj_l. Qed.

Lemma represents_set (md m : gmap string string) (k v : string) :
  represents md m -> represents (<[keyPrefix +:+ k := b64_encode v]> md) (<[k := v]> m).
Proof.
  intros H k'. destruct (decide (k = k')) as [->|Hne].
  - by rewrite !lookup_insert_eq.
  - rewrite !lookup_insert_ne; [apply H|done|]. by intros ?%key_prefix_inj.
Qed.

Lemma represents_delete (md m : gmap string string) (k : string) :
  represents md m -> represents (delete (keyPrefix +:+ k) md) (delete k m).
Proof.
  intros H k'. destruct (decide (k = k')) as [->|Hne].
  - by rewrite !lookup_delete_eq.
  - rewrite !lookup_delete_ne; [apply H|done|]. by intros ?%key_prefix_inj.
Qed.

(** Operations of this replica's component and its environment, without nil
    values and without other writers. *)
Definition local_op (o : Op) : bool :=
  match o with OpSet _ None | Remote _ => false | _ => true end.

Definition entries_past (n : Node) : Prop :=
  forall k e, ms_pending (nd_state n) !! k = Some e -> (pe_addedAt e <= nd_now n)%Z.

(** What flushing the queue would persist represents the specification. *)
Definition node_inv (n : Node) (m : gmap string string) : Prop :=
  represents (foldl apply_updater (nd_stored n) (nd_queue n)) m /\
  ms_emit (nd_state n) = true /\ entries_past n.

Lemma entries_past_insert (s : MetadataState) (now : Z) (k : string) (v : option string) :
  (forall k' e, ms_pending s !! k' = Some e -> (pe_addedAt e <= now)%Z) ->
  forall k' e, (<[k := mkPending v now]> (ms_pending s)) !! k' = Some e -> (pe_addedAt e <= now)%Z.
Proof.
  intros H k' e. destruct (decide (k = k')) as [->|Hne].
  - rewrite lookup_insert_eq. intros [= <-]. simpl. lia.
  - rewrite lookup_insert_ne by done. apply H.
Qed.

Lemma node_inv_step (n : Node) (m : gmap string string) (o : Op) :
  local_op o = true -> node_inv n m -> node_inv (node_step n o) (spec_step n m o).
Proof.
  intros Hl (Hr & He & Hp). unfold node_inv.
  destruct o as [k [v|]|k|d| | |md]; try done; unfold node_step, spec_step, accepts.
  - unfold meta_set. destruct (guardSize _ _ _ _ _); simpl; [done|]. rewrite He. simpl.
    rewrite foldl_app. simpl. split; [by apply represents_set|].
    split; [done|]. exact (entries_past_insert (nd_state n) (nd_now n) k (Some v) Hp).
  - simpl. rewrite He. simpl. rewrite foldl_app. simpl. split; [by apply represents_delete|].
    split; [done|]. exact (entries_past_insert (nd_state n) (nd_now n) k None Hp).
  - simpl. split; [done|]. split; [done|]. intros k e H%Hp. simpl. lia.
Qed.

Lemma node_inv_run (os : list Op) (n : Node) (m : gmap string string) :
  forallb local_op os = true -> node_inv n m ->
  let '(n', m') := run_ops n m os in node_inv n' m'.
Proof.
  revert n m. induction os as [|o os IH]; intros n m; [done|]. simpl.
  intros [Ho Hos]%andb_prop Hn. apply IH; [done|]. by apply node_inv_step.
Qed.

(** ** Lemmas: sizes *)

Lemma state_size_insert (md : gmap string string) (k v : string) :
  md !! k = None -> state_size (<[k := v]> md) = (entry_size k v + state_size md)%Z.
Proof.
  intros H. unfold state_size. rewrite map_fold_insert_L; [done| |done].
  intros. lia.
Qed.

Lemma state_size_lookup (md : gmap string string) (k v : string) :
  md !! k = Some v -> state_size md = (entry_size k v + state_size (delete k md))%Z.
Proof.
  intros H. rewrite <- state_size_insert by apply lookup_delete_eq.
  by rewrite insert_delete_id.
Qed.

Lemma entry_size_state (k v : string) :
  entry_size (keyPrefix +:+ k) v = (str_len (keyPrefix +:+ k) + str_len v)%Z.
Proof. unfold entry_size. by rewrite (proj2 (has_prefix_iff _ _) (ex_intro _ k eq_refl)). Qed.

Lemma state_size_set (md : gmap string string) (k v : string) :
  state_size (<[keyPrefix +:+ k := v]> md) =
  (state_size md + str_len v +
   match md !! (keyPrefix +:+ k) with
   | Some v' => - str_len v'
   | None => str_len (keyPrefix +:+ k)
   end)%Z.
Proof.
  destruct (md !! (keyPrefix +:+ k)) as [v'|] eqn:E.
  - rewrite <- insert_delete_eq, state_size_insert by apply lookup_delete_eq.
    rewrite (state_size_lookup md _ _ E), !entry_size_state. lia.
  - rewrite state_size_insert, entry_size_state by done. lia.
Qed.

Lemma b64_nonempty (v : string) : v <> "" -> b64_encode v <> "".
Proof.
  intros Hv H. apply (f_equal b64_decode) in H. rewrite b64_roundtrip in H.
  assert (b64_decode "" = Ok "") by reflexivity. congruence.
Qed.

Lemma str_len_nonneg (s : string) : (0 <= str_len s)%Z.
Proof. unfold str_len. lia. Qed.

(** The estimate is the size the write gives, unless an empty value is stored
    or pending under the key. *)
Lemma estimated_total_exact (now : Z) (md : gmap string string) (s : MetadataState) (key enc : string) :
  md !! (keyPrefix +:+ key) <> Some "" ->
  (forall e, live_pending now s key = Some e -> pe_value e <> Some "") ->
  estimated_total now md s (keyPrefix +:+ key) enc =
    state_size (<[keyPrefix +:+ key := enc]> md).
Proof.
  intros Hmd Hp. rewrite state_size_set. unfold estimated_total.
  rewrite (proj2 (has_prefix_iff _ _) (ex_intro _ key eq_refl)), trim_prefix_app.
  assert (Hne : forall v, md !! (keyPrefix +:+ key) = Some v -> (v =? "") = false).
  { intros v H. apply String.eqb_neq. congruence. }
  destruct (live_pending now s key) as [[[v|] t]|] eqn:El.
  2, 3: destruct (md !! (keyPrefix +:+ key)) as [v'|] eqn:E; simpl;
    [rewrite (Hne v') by done|]; lia.
  specialize (Hp _ eq_refl). simpl in Hp.
  assert (Hpe : (b64_encode v =? "") = false) by (apply String.eqb_neq, b64_nonempty; congruence).
  destruct (md !! (keyPrefix +:+ key)) as [v'|] eqn:E; unfold default, from_option, id.
  - destruct (negb _) eqn:Eq; [rewrite (Hne v') by done; rewrite Hpe; lia|].
    rewrite (Hne v') by done. lia.
  - destruct (String.eqb_spec "" (b64_encode v)) as [Heq|_]; [by rewrite <- Heq in Hpe|].
    simpl negb. cbv iota. rewrite String.eqb_refl, Hpe. change (str_len "") with 0%Z. lia.
Qed.

(** ** Properties of the metadata backend *)

(** Read-your-writes: after an accepted [Set] (or a [Delete]) of a key, the
    component reads its own value (or absence) for [pendingTTL], whatever
    happens to other keys and however stale the cache, late the patch or
    concurrent another replica's write is. *)
Theorem overlay_read_your_writes (n : Node) (k v : string) (os : list Op) :
  existsb (writes k) os = false ->
  (nd_now (foldl node_step n os) < nd_now n + pendingTTL)%Z ->
  (forall n0, accepts n0 k (Some v) = true -> node_step n0 (OpSet k (Some v)) = n ->
     node_get (foldl node_step n os) k = Ok (Some v)) /\
  (forall n0, node_step n0 (OpDelete k) = n -> node_get (foldl node_step n os) k = Ok None).
Proof.
  intros Hw Ht.
  assert (Hget : forall val, ms_pending (nd_state n) !! k = Some (mkPending val (nd_now n)) ->
    node_get (foldl node_step n os) k = Ok val).
  { intros val H. rewrite (node_get_pending _ k (mkPending val (nd_now n))); [done| |].
    - by rewrite node_steps_pending.
    - unfold fresh_entry. simpl. apply Z.ltb_lt. lia. }
  split.
  - intros n0 Ha <-. apply Hget. unfold node_step, accepts, meta_set in *.
    destruct (guardSize _ _ _ _ _); [done|]. simpl. by rewrite lookup_insert_eq.
  - intros n0 <-. apply Hget. simpl. by rewrite lookup_insert_eq.
Qed.

Lemma overlay_read_your_writes_witness :
  let n0 := mkNodeState 0 (NewMetadataState true) [] ∅ ∅ in
  let n := node_step n0 (OpSet "counter" (Some "1")) in
  let os := [Tick 2000000000; Patch; OpSet "other" (Some "x"); Remote ∅; Sync; Tick 2000000000] in
  node_get n0 "counter" = Ok None /\ node_get (foldl node_step n os) "counter" = Ok (Some "1").
Proof.
  intros n0 n os. split; [reflexivity|].
  destruct (overlay_read_your_writes n "counter" "1" os) as [H _];
    [reflexivity|vm_compute; reflexivity|].
  apply (H n0); [vm_compute; reflexivity|reflexivity].
Defined.

(** The backend implements a map, eventually: starting from metadata that
    represents a map, after any sequence of this replica's writes, patches,
    cache refreshes and waits, flushing the pending patch, letting the watch
    catch up and the overlay expire makes every [Get] answer from the map the
    accepted writes give, through base64 and the key prefix. *)
Theorem metadata_state_refines_map (n : Node) (m : gmap string string) (os : list Op) :
  ms_emit (nd_state n) = true -> ms_pending (nd_state n) = ∅ -> nd_queue n = [] ->
  represents (nd_stored n) m ->
  forallb local_op os = true ->
  let '(n', m') := run_ops n m os in
  forall k, node_get (foldl node_step n' [Patch; Sync; Tick pendingTTL]) k = Ok (m' !! k).
Proof.
  intros He Hp Hq Hr Hos. pose proof (node_inv_run os n m Hos) as Hinv.
  assert (Hn : node_inv n m).
  { split; [by rewrite Hq|]. split; [done|]. intros k e. by rewrite Hp, lookup_empty. }
  specialize (Hinv Hn). destruct (run_ops n m os) as [n' m']. destruct Hinv as (Hr' & _ & Hpast).
  intros k. unfold node_get, meta_get, live_pending. cbn.
  destruct (ms_pending (nd_state n') !! k) as [e|] eqn:E.
  - assert (Hf : fresh_entry (nd_now n' + Z.max 0 pendingTTL) e = false).
    { unfold fresh_entry. apply Z.ltb_ge. apply Hpast in E. unfold pendingTTL in *. lia. }
    rewrite Hf. specialize (Hr' k). unfold keyPrefix in *. simpl in *. rewrite Hr'.
    destruct (m' !! k); simpl; [by rewrite b64_roundtrip|done].
  - specialize (Hr' k). unfold keyPrefix in *. simpl in *. rewrite Hr'.
    destruct (m' !! k); simpl; [by rewrite b64_roundtrip|done].
Qed.

Lemma metadata_state_refines_map_witness :
  let m : gmap string string := {[ "a" := "1" ]} in
  let n := mkNodeState 0 (NewMetadataState true) [] {[ "_state/a" := "MQ==" ]} ∅ in
  let os := [OpSet "b" (Some "xyz"); Tick 1; OpDelete "a"; Patch; OpSet "c" (Some "")] in
  (run_ops n m os).2 = (<["c" := ""]> {[ "b" := "xyz" ]} : gmap string string) /\
  node_get (foldl node_step (run_ops n m os).1 [Patch; Sync; Tick pendingTTL]) "b"
    = Ok ((run_ops n m os).2 !! "b").
Proof.
  intros m n os. split; [vm_compute; reflexivity|].
  pose proof (metadata_state_refines_map n m os) as H.
  destruct (run_ops n m os) as [n' m'] eqn:E. apply H; try reflexivity.
  intros k. destruct (decide (k = "a")) as [->|Hne]; [reflexivity|].
  unfold nd_stored, n, m. rewrite !lookup_singleton_ne; [done|congruence|].
  intros Hk. by apply (key_prefix_inj "a" k) in Hk.
Defined.

(** The size guard accepts exactly the writes that keep the node's state
    within [MaxStateBytes]: judged against the cached node, a [Set] is refused
    if and only if the metadata with that write would exceed the cap, provided
    no empty value is stored or pending under the key. *)
Theorem size_guard_exact (now : Z) (md : gmap string string) (s : MetadataState) (key : string)
    (value : option string) :
  md !! (keyPrefix +:+ key) <> Some "" ->
  (forall e, live_pending now s key = Some e -> pe_value e <> Some "") ->
  let md' := <[keyPrefix +:+ key := b64_encode (default "" value)]> md in
  is_ok (meta_set now (ReaderNode md) s key value) = (state_size md' <=? MaxStateBytes)%Z /\
  (is_ok (meta_set now (ReaderNode md) s key value) = false ->
     exists e, meta_set now (ReaderNode md) s key value = Err e /\ ErrStateTooLarge ∈ chain e).
Proof.
  intros Hmd Hp md'. unfold meta_set, guardSize. rewrite estimated_total_exact by done. fold md'.
  rewrite Z.leb_antisym. destruct (MaxStateBytes <? state_size md')%Z eqn:E; simpl.
  - split; [done|]. intros _. eexists. split; [reflexivity|]. simpl. right. left.
  - done.
Qed.

Lemma size_guard_exact_witness :
  is_ok (meta_set 0 (ReaderNode {[ "_state/a" := "MQ==" ]}) (NewMetadataState true) "a" (Some "22")) = true /\
  is_ok (meta_set 0 (ReaderNode {[ "_state/a" := "MQ==" ]}) (NewMetadataState true) "a" (Some "22")) =
    (state_size (<["_state/a" := "MjI="]> {[ "_state/a" := "MQ==" ]}) <=? MaxStateBytes)%Z.
Proof.
  split; [reflexivity|].
  eapply (size_guard_exact 0 {[ "_state/a" := "MQ==" ]} (NewMetadataState true) "a" (Some "22"));
    [discriminate|]. intros e H. discriminate H.
Defined.

(** The guard counts the pending write of the same key only: writes to two
    keys that the watch has not shown yet are accepted one by one, however far
    they exceed the cap together. *)
Lemma size_guard_misses_pending (k1 k2 v1 v2 : string) (now : Z) :
  k1 <> k2 ->
  let n0 := mkNodeState now (NewMetadataState true) [] ∅ ∅ in
  let size k v := (str_len (keyPrefix +:+ k) + str_len (b64_encode v))%Z in
  (size k1 v1 <= MaxStateBytes < size k1 v1 + size k2 v2)%Z -> (size k2 v2 <= MaxStateBytes)%Z ->
  let n1 := node_step n0 (OpSet k1 (Some v1)) in
  accepts n0 k1 (Some v1) = true /\ accepts n1 k2 (Some v2) = true /\
  (MaxStateBytes < state_size (nd_stored (foldl node_step n0 [OpSet k1 (Some v1); OpSet k2 (Some v2); Patch])))%Z.
Proof.
  intros Hk n0 size H1 H2 n1.
  assert (Hacc : forall s k v, (size k v <= MaxStateBytes)%Z -> live_pending now s k = None ->
    meta_set now (ReaderNode ∅) s k (Some v) =
      Ok (mkMetadataState (<[k := mkPending (Some v) now]> (ms_pending s)) (ms_emit s),
          if ms_emit s then Some (SetKey (keyPrefix +:+ k) (b64_encode v)) else None)).
  { intros s k v Hs Hl. unfold meta_set, guardSize.
    rewrite estimated_total_exact; [|by rewrite lookup_empty|intros e He; congruence].
    rewrite state_size_set, lookup_empty. change (state_size ∅) with 0%Z. unfold default, from_option, id, size in *.
    destruct (Z.ltb_spec MaxStateBytes (0 + str_len (b64_encode v) + str_len (keyPrefix +:+ k))); [lia|done]. }
  assert (Hn1 : n1 = mkNodeState now (mkMetadataState {[ k1 := mkPending (Some v1) now ]} true)
    [SetKey (keyPrefix +:+ k1) (b64_encode v1)] ∅ ∅).
  { unfold n1, node_step. simpl nd_now. simpl nd_cache. simpl nd_state. by rewrite Hacc by (done || lia). }
  assert (Hl2 : live_pending now (nd_state n1) k2 = None).
  { rewrite Hn1. unfold live_pending. simpl. by rewrite lookup_singleton_ne. }
  split; [unfold accepts; simpl; by rewrite Hacc by (done || lia)|].
  split.
  - rewrite Hn1 in *. unfold accepts. simpl. by rewrite Hacc.
  - cbn [foldl]. fold n1. rewrite Hn1 in *. unfold node_step at 2. simpl nd_now. simpl nd_cache. simpl nd_state.
    rewrite Hacc by done. cbn -[MaxStateBytes]. rewrite state_size_set.
    rewrite lookup_insert_ne, lookup_empty by (by intros ?%key_prefix_inj).
    rewrite state_size_set, lookup_empty. change (state_size ∅) with 0%Z. unfold size in *. lia.
Qed.
