(* ===== verification/ExecState.v ===== *)
(** * Execution-scoped state

    [pkg/state/jetstream.go]: state of a durable run in a JetStream key-value
    bucket shared by every pod and every run, and the router that hands it out.
    The bucket is third-party: [KVBucket] is its interface, [KVLaws] the
    documented behaviour the code relies on. [ExecStore] is what the runner
    and the reconciler use of it. *)
From S2P Require Import Prelude GoErrors Names Graph Base64 State.

Open Scope string_scope.

Definition ScopeExecution : string := "execution".

(** ** The bucket *)

Inductive kverror : Type :=
| ErrKeyNotFound
| ErrNoKeysFound
| KVError (e : goerror).

Class KVBucket (B : Type) := {
  kv_get : B -> string -> result kverror string;
  kv_put : B -> string -> string -> result kverror B;
  kv_delete : B -> string -> result kverror B;
  kv_keys : B -> result kverror (list string);
}.

Class KVLaws (B : Type) `{KVBucket B} := {
  kv_put_get : forall b b' k v k', kv_put b k v = Ok b' ->
    kv_get b' k' = if (k' =? k)%string then Ok v else kv_get b k';
  kv_delete_get : forall b b' k k', kv_delete b k = Ok b' ->
    kv_get b' k' = if (k' =? k)%string then Err ErrKeyNotFound else kv_get b k';
  kv_delete_missing : forall b k, kv_delete b k = Err ErrKeyNotFound ->
    kv_get b k = Err ErrKeyNotFound;
  kv_keys_exact : forall b ks, kv_keys b = Ok ks ->
    NoDup ks /\ forall k, k ∈ ks <-> exists v, kv_get b k = Ok v;
  kv_keys_none : forall b k, kv_keys b = Err ErrNoKeysFound -> kv_get b k = Err ErrKeyNotFound;
}.

(** A bucket held in memory, for concrete evaluations. *)
Definition mem_bucket : KVBucket (gmap string string) := {|
  kv_get b k := match b !! k with Some v => Ok v | None => Err ErrKeyNotFound end;
  kv_put b k v := Ok (<[k := v]> b);
  kv_delete b k := Ok (delete k b);
  kv_keys b := match (map_to_list b).*1 with [] => Err ErrNoKeysFound | ks => Ok ks end;
|}.

(** ** pkg/state/jetstream.go *)

Definition kv_char (c : ascii) : bool :=
  is_alnum c || existsb (Ascii.eqb c) ["-"; "_"; "/"; "."; "="]%char.

(** [strings.Map] over runes: [skip] counts the remaining bytes of a rune that
    was already replaced. *)
Fixpoint sanitize_from (skip : nat) (k : string) : string :=
  match k with
  | EmptyString => EmptyString
  | String c k' =>
      match skip with
      | S n => sanitize_from n k'
      | O => if kv_char c then String c (sanitize_from 0 k')
             else String "_" (sanitize_from (rune_width k - 1) k')
      end
  end.

Definition sanitizeKey (k : string) : string := sanitize_from 0 k.

(** [newExecState]: the namespace of a run. *)
Definition exec_ns (runID : string) : string := sanitizeKey ("exec/" +:+ runID +:+ "/").

Section jetstream.
  Context {B : Type} `{KVBucket B}.

Definition full (ns key : string) : string := ns +:+ sanitizeKey key.

Definition js_get (ns : string) (b : B) (key : string) : result goerror (option string) :=
  match kv_get b (full ns key) with
  | Err ErrKeyNotFound => Ok None
  | Err ErrNoKeysFound => Err (ErrorString "nats: no keys found")
  | Err (KVError e) => Err e
  | Ok v => Ok (Some v)
  end.

Definition kv_goerror (e : kverror) : goerror :=
  match e with
  | ErrKeyNotFound => ErrorString "nats: key not found"
  | ErrNoKeysFound => ErrorString "nats: no keys found"
  | KVError e => e
  end.

Definition js_set (ns : string) (b : B) (key value : string) : result goerror B :=
  match kv_put b (full ns key) value with Ok b' => Ok b' | Err e => Err (kv_goerror e) end.

Definition js_delete (ns : string) (b : B) (key : string) : result goerror B :=
  match kv_delete b (full ns key) with
  | Err ErrKeyNotFound => Ok b
  | Err e => Err (kv_goerror e)
  | Ok b' => Ok b'
  end.

Definition js_list (ns : string) (b : B) (prefix : string) : result goerror (list string) :=
  match kv_keys b with
  | Err ErrNoKeysFound => Ok []
  | Err e => Err (kv_goerror e)
  | Ok keys =>
      Ok (go_sort_strings
            ((fun k => go_trim_prefix k ns) <$>
               List.filter (fun k => go_has_prefix k (ns +:+ sanitizeKey prefix)) keys))
  end.

End jetstream.

(** [Scoped] of each backend: node-local state, or a run's namespace. The
    metadata backend answers itself, whatever the scope. *)
Inductive Backend : Type :=
| MetadataBackend                  (* *MetadataState *)
| RouterBackend (has_kv : bool)    (* *ScopedRouter over it *)
| ExecBackend (ns : string).       (* *JetStreamState *)

Definition For (factory_has_kv : bool) : Backend :=
  if factory_has_kv then RouterBackend true else MetadataBackend.

Definition Scoped (s : Backend) (scope id : string) : Backend :=
  match s with
  | MetadataBackend => MetadataBackend
  | RouterBackend has_kv =>
      if (scope =? ScopeExecution) && has_kv && negb (id =? "") then ExecBackend (exec_ns id)
      else MetadataBackend
  | ExecBackend ns =>
      if (scope =? ScopeExecution) && negb (id =? "") then ExecBackend (exec_ns id)
      else ExecBackend ns
  end.

(** ** What the runtime uses of execution-scoped state

    The state of one run, by run id. *)
Class ExecStore (S : Type) := {
  exec_get : S -> string -> string -> result goerror (option string);
  exec_set : S -> string -> string -> string -> result goerror S;
}.

(** A run id or key the bucket keeps as it is: nothing is replaced, and the
    run id holds no slash. *)
Definition plain_key (k : string) : bool := sanitizeKey k =? k.
Definition plain_run (id : string) : bool := plain_key id && negb (str_has "/" id).

Class ExecLaws (S : Type) `{ExecStore S} := {
  exec_set_get : forall s s' run key v run' key',
    exec_set s run key v = Ok s' ->
    plain_run run = true -> plain_key key = true ->
    plain_run run' = true -> plain_key key' = true ->
    exec_get s' run' key' =
      if (run' =? run) && (key' =? key) then Ok (Some v) else exec_get s run' key';
}.

#[export] Instance jetstream_exec_store {B} `{KVBucket B} : ExecStore B := {|
  exec_get b run key := js_get (exec_ns run) b key;
  exec_set b run key v := js_set (exec_ns run) b key v;
|}.

(** ** Lemmas *)

Lemma mem_bucket_laws : @KVLaws (gmap string string) mem_bucket.
Proof.
  constructor; simpl.
  - intros b b' k v k' [= <-]. destruct (String.eqb_spec k' k) as [->|Hne].
    + by rewrite lookup_insert_eq.
    + by rewrite lookup_insert_ne.
  - intros b b' k k' [= <-]. destruct (String.eqb_spec k' k) as [->|Hne].
    + by rewrite lookup_delete_eq.
    + by rewrite lookup_delete_ne.
  - done.
  - intros b ks Hks. assert (ks = (map_to_list b).*1) as ->.
    { destruct ((map_to_list b).*1); congruence. }
    split; [apply NoDup_fst_map_to_list|]. intros k. rewrite list_elem_of_fmap. split.
    + intros ([k' v] & -> & Hin). apply elem_of_map_to_list in Hin. simpl. exists v. by rewrite Hin.
    + intros [v Hv]. destruct (b !! k) as [v'|] eqn:E; [|done]. exists (k, v').
      split; [done|]. by apply elem_of_map_to_list.
  - intros b k Hks. destruct (b !! k) as [v|] eqn:E; [|done].
    apply elem_of_map_to_list in E. apply (list_elem_of_fmap_2 fst) in E.
    destruct ((map_to_list b).*1); [by apply not_elem_of_nil in E|done].
Qed.

Lemma sanitize_all (k : string) (n : nat) : str_all kv_char (sanitize_from n k) = true.
Proof.
  revert n. induction k as [|c k IH]; intros n; [done|]. simpl. destruct n as [|n]; [|apply IH].
  destruct (kv_char c) eqn:E; simpl; [by rewrite E, IH|]. apply IH.
Qed.

Lemma sanitize_id (k : string) : str_all kv_char k = true -> sanitizeKey k = k.
Proof.
  unfold sanitizeKey. induction k as [|c k IH]; [done|]. simpl. intros [-> Hk]%andb_prop.
  by rewrite IH.
Qed.

Lemma sanitize_idem (k : string) : sanitizeKey (sanitizeKey k) = sanitizeKey k.
Proof. apply sanitize_id, sanitize_all. Qed.

Lemma plain_key_all (k : string) : plain_key k = true <-> str_all kv_char k = true.
Proof.
  unfold plain_key. split.
  - intros H%String.eqb_eq. rewrite <- H. apply sanitize_all.
  - intros H%sanitize_id. by apply String.eqb_eq.
Qed.

Lemma exec_ns_plain (run : string) : plain_key run = true -> exec_ns run = "exec/" +:+ run +:+ "/".
Proof.
  intros H%plain_key_all. unfold exec_ns. apply sanitize_id.
  rewrite !str_all_app. by rewrite H.
Qed.

(** Namespaces of different runs are prefix-free. *)
Lemma plain_full_inj (r1 r2 k1 k2 : string) :
  plain_run r1 = true -> plain_run r2 = true -> plain_key k1 = true -> plain_key k2 = true ->
  full (exec_ns r1) k1 = full (exec_ns r2) k2 -> r1 = r2 /\ k1 = k2.
Proof.
  unfold plain_run, full. intros [H1 S1]%andb_prop [H2 S2]%andb_prop K1 K2 H.
  rewrite !exec_ns_plain in H by done. apply String.eqb_eq in K1, K2. rewrite K1, K2 in H.
  rewrite !str_app_assoc in H. apply str_app_inj_l in H.
  apply negb_true_iff in S1, S2.
  pose proof (go_cut_app "/" r1 k1 S1) as C1. pose proof (go_cut_app "/" r2 k2 S2) as C2.
  assert (Heq : r1 +:+ String "/" k1 = r2 +:+ String "/" k2) by exact H.
  rewrite Heq in C1. rewrite C1 in C2. by injection C2.
Qed.

#[export] Instance jetstream_exec_laws {B} `{KVLaws B} : ExecLaws B.
Proof.
  constructor. intros s s' run key v run' key' Hs Hr Hk Hr' Hk'. simpl in *.
  unfold js_set in Hs. destruct (kv_put s (full (exec_ns run) key) v) as [b'|] eqn:E; [|done].
  injection Hs as ->. unfold js_get. rewrite (kv_put_get _ _ _ _ _ E).
  destruct (String.eqb_spec (full (exec_ns run') key') (full (exec_ns run) key)) as [Heq|Hne].
  - apply plain_full_inj in Heq as [-> ->]; [|done..]. by rewrite !String.eqb_refl.
  - destruct (String.eqb_spec run' run) as [->|]; [|done].
    destruct (String.eqb_spec key' key) as [->|]; [|done]. done.
Qed.

(** ** Properties *)

(** Runs are isolated in the shared bucket and each is a map: over run ids
    and keys in the bucket's alphabet (ids without a slash), a successful [Set]
    or [Delete] changes what [Get] answers for that run and key, and for no
    other run or key; and listing a run's keys gives, sorted and without the
    namespace, exactly the keys under the prefix that hold a value. *)
Theorem exec_state_isolated {B} `{KVLaws B} (b : B) (run key : string) :
  plain_run run = true -> plain_key key = true ->
  (forall b' v run' key', js_set (exec_ns run) b key v = Ok b' ->
     plain_run run' = true -> plain_key key' = true ->
     js_get (exec_ns run') b' key' =
       if (run' =? run) && (key' =? key) then Ok (Some v) else js_get (exec_ns run') b key') /\
  (forall b' run' key', js_delete (exec_ns run) b key = Ok b' ->
     plain_run run' = true -> plain_key key' = true ->
     js_get (exec_ns run') b' key' =
       if (run' =? run) && (key' =? key) then Ok None else js_get (exec_ns run') b key') /\
  (forall prefix ks, js_list (exec_ns run) b prefix = Ok ks -> plain_key prefix = true ->
     Sorted str_le ks /\
     forall k, plain_key k = true ->
       (k ∈ ks <-> go_has_prefix k prefix = true /\ exists v, js_get (exec_ns run) b k = Ok (Some v))).
Proof.
  intros Hr Hk. split; [|split].
  - intros b' v run' key' Hs Hr' Hk'.
    by apply (exec_set_get (ExecLaws := jetstream_exec_laws) b b' run key v run' key').
  - intros b' run' key' Hd Hr' Hk'. unfold js_delete in Hd, Hd.
    assert (Hget : kv_get b' (full (exec_ns run') key') =
      if (full (exec_ns run') key' =? full (exec_ns run) key) then Err ErrKeyNotFound
      else kv_get b (full (exec_ns run') key')).
    { destruct (kv_delete b (full (exec_ns run) key)) as [b1|[| |e]] eqn:E; simplify_eq.
      - by rewrite (kv_delete_get _ _ _ _ E).
      - destruct (String.eqb_spec (full (exec_ns run') key') (full (exec_ns run) key)) as [->|]; [|done].
        by rewrite (kv_delete_missing _ _ E). }
    unfold js_get. rewrite Hget.
    destruct (String.eqb_spec (full (exec_ns run') key') (full (exec_ns run) key)) as [Heq|Hne].
    + apply plain_full_inj in Heq as [-> ->]; [|done..]. by rewrite !String.eqb_refl.
    + destruct (String.eqb_spec run' run) as [->|]; [|done].
      destruct (String.eqb_spec key' key) as [->|]; [|done]. done.
  - intros prefix ks Hl Hp. unfold js_list in Hl. apply String.eqb_eq in Hp. rewrite Hp in Hl.
    destruct (kv_keys b) as [keys|[| |e]] eqn:E; simplify_eq/=.
    + split; [apply go_sort_strings_sorted|]. destruct (kv_keys_exact _ _ E) as [_ Hex].
      intros k Hkp. apply String.eqb_eq in Hkp.
      rewrite go_sort_strings_perm, list_elem_of_fmap. split.
      * intros (k' & -> & Hin). apply list_elem_of_In, filter_In in Hin as [Hin Hpre].
        apply list_elem_of_In, Hex in Hin as [v Hv].
        apply has_prefix_iff in Hpre as [r ->]. rewrite str_app_assoc in *. rewrite trim_prefix_app in *.
        split; [by apply has_prefix_iff; exists r|]. exists v. unfold js_get, full. by rewrite Hkp, Hv.
      * intros [Hpre [v Hv]]. exists (exec_ns run +:+ k). rewrite trim_prefix_app. split; [done|].
        apply list_elem_of_In, filter_In. split.
        -- apply list_elem_of_In, Hex. exists v. unfold js_get, full in Hv. rewrite Hkp in Hv.
           destruct (kv_get b (exec_ns run +:+ k)) as [v'|[| |e]]; congruence.
        -- apply has_prefix_iff in Hpre as [r ->]. apply has_prefix_iff. exists r. by rewrite str_app_assoc.
    + split; [constructor|]. intros k Hkp. split; [by intros ?%not_elem_of_nil|].
      intros [_ [v Hv]]. unfold js_get in Hv. by rewrite (kv_keys_none _ _ E) in Hv.
Qed.

Lemma exec_state_isolated_witness :
  let b := <["exec/r1/step/x" := "1"]> (∅ : gmap string string) in
  @js_list _ mem_bucket (exec_ns "r1") b "step/" = Ok ["step/x"] /\
  @js_get _ mem_bucket (exec_ns "r2") (<["exec/r1/a" := "1"]> b) "a" = @js_get _ mem_bucket (exec_ns "r2") b "a".
Proof.
  intros b. split; [vm_compute; reflexivity|].
  apply (proj1 (@exec_state_isolated _ mem_bucket mem_bucket_laws b "r1" "a" eq_refl eq_refl)
    _ "1" "r2" "a"); reflexivity.
Defined.

(** Outside that alphabet isolation is lost: keys (and, alike, runs) that
    differ only in a replaced character share one entry. *)
Lemma exec_keys_collide {B} `{KVBucket B} (b : B) (ns pre post : string) :
  plain_key pre = true ->
  js_get ns b (pre +:+ ":" +:+ post) = js_get ns b (pre +:+ " " +:+ post) /\
  js_get (exec_ns (pre +:+ ":" +:+ post)) b "k" = js_get (exec_ns (pre +:+ " " +:+ post)) b "k".
Proof.
  intros Hp%plain_key_all.
  assert (Hs : forall pre post, str_all kv_char pre = true ->
    sanitizeKey (pre +:+ ":" +:+ post) = sanitizeKey (pre +:+ " " +:+ post)).
  { clear. intros pre post. unfold sanitizeKey. induction pre as [|c pre IH]; [done|]. simpl.
    intros [-> Hp]%andb_prop. by rewrite IH. }
  unfold js_get, full, exec_ns. rewrite Hs by done. split; [done|].
  assert (Hns : sanitizeKey ("exec/" +:+ (pre +:+ ":" +:+ post) +:+ "/") =
                sanitizeKey ("exec/" +:+ (pre +:+ " " +:+ post) +:+ "/")).
  { rewrite !str_app_assoc, <- !(str_app_assoc "exec/" pre). apply Hs. by rewrite str_all_app, Hp. }
  by rewrite Hns.
Qed.
