(* ===== verification/Json.v ===== *)
(** * Decoded JSON

    The values [encoding/json] and goccy/go-json decode into [interface{}]:
    nil, booleans, numbers (kept as their literal text), strings, slices and
    string-keyed maps. A Go map has no order: the entries of an object are
    listed in some order of iteration, each key once in a well-formed value
    ([json_wf]); definitions that range over a map follow the listed order. *)
From S2P Require Import Prelude GoErrors.

Inductive json : Type :=
| JNull
| JBool (b : bool)
| JNum (literal : string)
| JStr (s : string)
| JArr (l : list json)
| JObj (m : list (string * json)).

(** Induction that reaches the elements of arrays and objects. *)
Section json_induction.
  Variable P : json -> Prop.
  Hypothesis Hnull : P JNull.
  Hypothesis Hbool : forall b, P (JBool b).
  Hypothesis Hnum : forall s, P (JNum s).
  Hypothesis Hstr : forall s, P (JStr s).
  Hypothesis Harr : forall l, Forall P l -> P (JArr l).
  Hypothesis Hobj : forall m, Forall (fun kv => P kv.2) m -> P (JObj m).

Fixpoint json_nested_ind (v : json) : P v :=
  match v with
  | JNull => Hnull
  | JBool b => Hbool b
  | JNum s => Hnum s
  | JStr s => Hstr s
  | JArr l => Harr l ((fix go l := match l return Forall P l with
                        | [] => List.Forall_nil _
                        | x :: l' => List.Forall_cons _ _ _ (json_nested_ind x) (go l')
                        end) l)
  | JObj m => Hobj m ((fix go m := match m return Forall (fun kv => P kv.2) m with
                        | [] => List.Forall_nil _
                        | (k, x) :: m' => List.Forall_cons _ (k, x) _ (json_nested_ind x) (go m')
                        end) m)
  end.

End json_induction.

#[export] Instance json_eq_dec : EqDecision json.
Proof.
  unfold EqDecision, RelDecision. fix go 1. intros a b. destruct a as [|x|x|x|x|x], b as [|y|y|y|y|y]; try (right; discriminate).
  - by left.
  - destruct (decide (x = y)) as [->|]; [by left|right; congruence].
  - destruct (decide (x = y)) as [->|]; [by left|right; congruence].
  - destruct (decide (x = y)) as [->|]; [by left|right; congruence].
  - destruct (@list_eq_dec _ go x y) as [->|]; [by left|right; congruence].
  - destruct (@list_eq_dec _ (@prod_eq_dec _ (decide_rel (=)) _ go) x y) as [->|];
      [by left|right; congruence].
Defined.

(** ** Maps: lookup, update, keys *)

Definition obj_get (k : string) (m : list (string * json)) : option json :=
  snd <$> List.find (fun kv => (kv.1 =? k)%string) m.

Definition obj_keys (m : list (string * json)) : list string := m.*1.

(** [m[k] = v]. *)
Fixpoint obj_set (k : string) (v : json) (m : list (string * json)) : list (string * json) :=
  match m with
  | [] => [(k, v)]
  | (k', v') :: m' => if (k' =? k)%string then (k, v) :: m' else (k', v') :: obj_set k v m'
  end.

Definition obj_delete (k : string) (m : list (string * json)) : list (string * json) :=
  List.filter (fun kv => negb (kv.1 =? k)%string) m.

(** Type assertions. *)
Definition as_str (v : json) : option string := match v with JStr s => Some s | _ => None end.
Definition as_bool (v : json) : option bool := match v with JBool b => Some b | _ => None end.
Definition as_obj (v : json) : option (list (string * json)) :=
  match v with JObj m => Some m | _ => None end.
Definition as_arr (v : json) : option (list json) := match v with JArr l => Some l | _ => None end.

(** [m[k]] of a Go map of interfaces: nil where [k] is missing. *)
Definition fld (m : list (string * json)) (k : string) : json := default JNull (obj_get k m).

(** Neither a slice nor a map. *)
Definition scalar (v : json) : bool := match v with JArr _ | JObj _ => false | _ => true end.

Definition is_nil (v : json) : bool := match v with JNull => true | _ => false end.

(** ** Numbers

    A decoded number is its literal. [int] of the [float64] it stands for is its
    integer part, where the literal is a float64 (any integer up to 2^53). *)
Fixpoint read_digits (acc : Z) (n : Z) (s : string) : Z * Z * string :=
  match s with
  | EmptyString => (acc, n, s)
  | String c s' =>
      if is_digit c then read_digits (acc * 10 + (Z.of_N (N_of_ascii c) - 48)) (n + 1) s'
      else (acc, n, s)
  end.

(** The integer part of a number's literal, toward zero. *)
Definition num_trunc (s : string) : Z :=
  let '(neg, s1) := match s with String "-"%char r => (true, r) | _ => (false, s) end in
  let '(i, _, s2) := read_digits 0 0 s1 in
  let '(m, frac, s3) := match s2 with
                        | String "."%char r => read_digits i 0 r
                        | _ => (i, 0%Z, s2)
                        end in
  let e := match s3 with
           | String ("e" | "E")%char r => default 0%Z (parse_decimal r)
           | _ => 0%Z
           end in
  let v := if (0 <=? e - frac)%Z then (m * 10 ^ (e - frac))%Z else (m / 10 ^ (frac - e))%Z in
  if neg then (- v)%Z else v.

(** Every object lists each key once. *)
Fixpoint json_wf (v : json) : Prop :=
  match v with
  | JArr l => (fix go l := match l with [] => True | x :: l' => json_wf x /\ go l' end) l
  | JObj m => NoDup m.*1 /\
      (fix go m := match m with [] => True | (_, x) :: m' => json_wf x /\ go m' end) m
  | _ => True
  end.

(** ** Lemmas *)

Lemma json_wf_arr (l : list json) : json_wf (JArr l) <-> Forall json_wf l.
Proof.
  simpl. induction l as [|x l IH]; [by split|]. rewrite Forall_cons, <- IH. done.
Qed.

Lemma json_wf_obj (m : list (string * json)) :
  json_wf (JObj m) <-> NoDup m.*1 /\ Forall (fun kv => json_wf kv.2) m.
Proof.
  simpl. f_equiv. induction m as [|[k x] m IH]; [by split|]. rewrite Forall_cons, <- IH. done.
Qed.

Lemma obj_get_in (k : string) (v : json) (m : list (string * json)) :
  obj_get k m = Some v -> (k, v) ∈ m.
Proof.
  unfold obj_get. intros H. apply fmap_Some in H as ([k' v'] & Hf & ->).
  apply find_some in Hf as [Hin Hk]. apply String.eqb_eq in Hk. simpl in Hk. subst.
  by apply list_elem_of_In.
Qed.

Lemma obj_get_nodup (k : string) (v : json) (m : list (string * json)) :
  NoDup m.*1 -> (k, v) ∈ m -> obj_get k m = Some v.
Proof.
  unfold obj_get. induction m as [|[k' v'] m IH]; intros Hnd Hin; [by apply not_elem_of_nil in Hin|].
  simpl in *. apply NoDup_cons in Hnd as [Hk Hnd]. apply elem_of_cons in Hin as [[= -> ->]|Hin].
  - by rewrite String.eqb_refl.
  - destruct (String.eqb_spec k' k) as [->|Hne]; [|by apply IH].
    destruct Hk. by apply (list_elem_of_fmap_2 fst) in Hin.
Qed.

Lemma obj_get_set (k k' : string) (v : json) (m : list (string * json)) :
  obj_get k' (obj_set k v m) = if (k =? k')%string then Some v else obj_get k' m.
Proof.
  unfold obj_get. induction m as [|[k1 v1] m IH]; simpl.
  - by destruct (String.eqb_spec k k').
  - destruct (String.eqb_spec k1 k) as [->|Hne]; simpl.
    + by destruct (String.eqb_spec k k').
    + destruct (String.eqb_spec k1 k') as [->|]; [|done].
      destruct (String.eqb_spec k k') as [->|]; done.
Qed.

Lemma obj_set_keys (k : string) (v : json) (m : list (string * json)) (x : string) :
  x ∈ (obj_set k v m).*1 <-> x = k \/ x ∈ m.*1.
Proof.
  induction m as [|[k1 v1] m IH]; simpl.
  - rewrite elem_of_cons, elem_of_nil. tauto.
  - destruct (String.eqb_spec k1 k) as [->|Hne]; simpl; rewrite !elem_of_cons; [tauto|].
    rewrite IH. tauto.
Qed.

Lemma obj_set_nodup (k : string) (v : json) (m : list (string * json)) :
  NoDup m.*1 -> NoDup (obj_set k v m).*1.
Proof.
  induction m as [|[k1 v1] m IH]; simpl; [intros _; apply NoDup_singleton|].
  intros [Hk Hnd]%NoDup_cons. destruct (String.eqb_spec k1 k) as [->|Hne]; simpl.
  - by apply NoDup_cons.
  - apply NoDup_cons. split; [|by apply IH]. rewrite obj_set_keys. intros [->|?]; done.
Qed.

Lemma fld_set (m : list (string * json)) (k k' : string) (v : json) :
  fld (obj_set k v m) k' = if (k =? k')%string then v else fld m k'.
Proof. unfold fld. rewrite obj_get_set. by destruct (k =? k')%string. Qed.

Lemma obj_get_delete (m : list (string * json)) (k k' : string) :
  obj_get k' (obj_delete k m) = if (k =? k')%string then None else obj_get k' m.
Proof.
  unfold obj_get, obj_delete. induction m as [|[a v] m IH]; simpl; [by destruct (k =? k')%string|].
  destruct (String.eqb_spec a k) as [->|Hne]; simpl.
  - rewrite IH. by destruct (String.eqb_spec k k').
  - destruct (String.eqb_spec a k') as [->|]; [|exact IH].
    by destruct (String.eqb_spec k k').
Qed.

Lemma obj_get_cons (k k' : string) (v : json) (m : list (string * json)) :
  obj_get k ((k', v) :: m) = if (k' =? k)%string then Some v else obj_get k m.
Proof. unfold obj_get. simpl. by destruct (k' =? k)%string. Qed.

Lemma obj_get_fresh (k : string) (m : list (string * json)) : k ∉ m.*1 -> obj_get k m = None.
Proof.
  induction m as [|[k' v] m IH]; intros Hk; [done|]. cbn in Hk. apply not_elem_of_cons in Hk as [Hne Hk].
  rewrite obj_get_cons. destruct (String.eqb_spec k' k) as [->|]; [done|by apply IH].
Qed.

Lemma obj_get_map (f : json -> json) (m : list (string * json)) (k : string) :
  obj_get k (map (fun kv => (kv.1, f kv.2)) m) = f <$> obj_get k m.
Proof.
  induction m as [|[k' v] m IH]; [done|]. cbn [map fst snd]. rewrite !obj_get_cons.
  by destruct (k' =? k)%string.
Qed.

Lemma wf_member (m : list (string * json)) (k : string) (x : json) :
  json_wf (JObj m) -> obj_get k m = Some x -> json_wf x.
Proof. intros [_ Hm]%json_wf_obj Hg%obj_get_in. rewrite Forall_forall in Hm. exact (Hm _ Hg). Qed.
