(* ===== verification/Redact.v ===== *)
(** * Redaction of decoded payloads

    [pkg/redact]: masking by conventional key name ([redact.go]), by names an
    authored schema declares as credentials ([authored.go]) and by the shape of
    an issued token ([shape.go]). Regular expressions are translated by hand to
    matchers on the same language; [(?i)] folds the two non-ASCII characters
    Go's simple folding sends to ASCII letters (the Kelvin sign and the long
    s). Parsing and printing of JSON text is third-party: see
    [AuthoredSecretNames]'s and [JSONByShape]'s arguments. *)
From S2P Require Import Prelude GoErrors Json.

Open Scope string_scope.

Definition Value : string := "<redacted>".

(** ** redact.go *)

(** Case folding of [(?i)] and [strings.EqualFold]: bytes E2 84 AA (the Kelvin
    sign) fold to k, C5 BF (the long s) to s. *)
Fixpoint fold_ci (s : string) : string :=
  match s with
  | EmptyString => EmptyString
  | String "226" (String "132" (String "170" s')) => String "k" (fold_ci s')
  | String "197" (String "191" s') => String "s" (fold_ci s')
  | String c s' => String (lower_ascii c) (fold_ci s')
  end.

Definition equal_fold (a b : string) : bool := fold_ci a =? fold_ci b.

(** The alternatives of [secretKeyRe], with "[_-]?" written out. *)
Definition secret_key_words : list string :=
  ["apikey"; "api_key"; "api-key"; "secret"; "token"; "passw"; "authorization"; "bearer";
   "credential"; "privatekey"; "private_key"; "private-key";
   "accesskey"; "access_key"; "access-key"].

Definition IsSecretKey (key : string) : bool :=
  negb (key =? "") && existsb (fun w => go_contains (fold_ci key) w) secret_key_words.

Definition IsExpression (s : string) : bool := go_contains s "{{".

(** [value]: a string is masked when it sits under a credential-shaped key;
    the elements of an array inherit the key of the array. *)
Fixpoint value (key : string) (v : json) : json :=
  match v with
  | JObj m => JObj ((fix go m := match m with
                     | [] => []
                     | (k, x) :: m' => (k, value k x) :: go m'
                     end) m)
  | JArr l => JArr ((fix go l := match l with
                     | [] => []
                     | x :: l' => value key x :: go l'
                     end) l)
  | JStr x => if negb (x =? "") && negb (IsExpression x) && IsSecretKey key then JStr Value else JStr x
  | _ => v
  end.

Definition Secrets (v : json) : json := value "" v.

(** ** authored.go *)

Definition declaresSecret (def : list (string * json)) : bool :=
  let str k := obj_get k def ≫= as_str in
  let bool k := obj_get k def ≫= as_bool in
  if match str "format" with Some s => equal_fold s "password" | None => false end then true
  else if default false (bool "writeOnly") then true
  else if default false (bool "secret") then true
  else if match str "writeOnly" with Some s => equal_fold s "true" | None => false end then true
  else match str "secret" with Some s => equal_fold s "true" | None => false end.

(** The names one [properties] object declares. *)
Definition declared_props (props : list (string * json)) : gset string :=
  list_to_set (omap (fun kv =>
    match as_obj kv.2 with
    | Some d => if declaresSecret d then Some kv.1 else None
    | None => None
    end) props).

Fixpoint collectSecretNames (node : json) : gset string :=
  match node with
  | JObj n =>
      match obj_get "properties" n ≫= as_obj with
      | Some props => declared_props props
      | None => ∅
      end ∪
      (fix go m := match m with [] => ∅ | (_, v) :: m' => collectSecretNames v ∪ go m' end) n
  | JArr l => (fix go l := match l with [] => ∅ | v :: l' => collectSecretNames v ∪ go l' end) l
  | _ => ∅
  end.

(** [json.Unmarshal] of the schema text is an argument. *)
Definition AuthoredSecretNames (unmarshal : string -> option json) (schema : string) : gset string :=
  if schema =? "" then ∅
  else match unmarshal schema with
       | None => ∅
       | Some doc => collectSecretNames doc
       end.

(** [byName]: the copy and whether anything was masked. A container is copied
    when an element changed. *)
Fixpoint byName (key : string) (v : json) (names : gset string) : json * bool :=
  match v with
  | JStr s =>
      if negb (bool_decide (key ∈ names)) || (s =? "") || IsExpression s then (v, false)
      else (JStr Value, true)
  | JObj m =>
      let '(copied, changed) :=
        (fix go m := match m with
           | [] => ([], false)
           | (k, child) :: m' =>
               let '(nv, c) := byName k child names in
               let '(rest, cs) := go m' in
               ((k, if c then nv else child) :: rest, c || cs)
           end) m in
      if changed then (JObj copied, true) else (v, false)
  | JArr l =>
      let '(copied, changed) :=
        (fix go l := match l with
           | [] => ([], false)
           | child :: l' =>
               let '(nv, c) := byName key child names in
               let '(rest, cs) := go l' in
               ((if c then nv else child) :: rest, c || cs)
           end) l in
      if changed then (JArr copied, true) else (v, false)
  | _ => (v, false)
  end.

Definition ByName (v : json) (names : gset string) : json * bool :=
  if bool_decide (names = ∅) || match v with JNull => true | _ => false end then (v, false)
  else let '(out, changed) := byName "" v names in
       if changed then (out, true) else (v, false).

(** [redactPayload] of the runner, after parsing and before printing. *)
Definition redact_decoded (declared : gset string) (decoded : json) : json :=
  Secrets (ByName decoded declared).1.

(** ** Reference definitions

    The strings of a value with the key they sit under, in order, and the
    value with every string replaced by one. *)
Fixpoint leaves (key : string) (v : json) : list (string * string) :=
  match v with
  | JStr s => [(key, s)]
  | JArr l => (fix go l := match l with [] => [] | x :: l' => leaves key x ++ go l' end)%list l
  | JObj m => (fix go m := match m with [] => [] | (k, x) :: m' => leaves k x ++ go m' end)%list m
  | _ => []
  end.

Fixpoint skeleton (v : json) : json :=
  match v with
  | JStr _ => JStr ""
  | JArr l => JArr ((fix go l := match l with [] => [] | x :: l' => skeleton x :: go l' end) l)
  | JObj m => JObj ((fix go m := match m with [] => [] | (k, x) :: m' => (k, skeleton x) :: go m' end) m)
  | _ => v
  end.

(** Masking of one leaf, given the keys that are credentials. *)
Definition mask (secret : string -> bool) (kv : string * string) : string * string :=
  if negb (kv.2 =? "") && negb (IsExpression kv.2) && secret kv.1 then (kv.1, Value) else kv.

(** What may remain readable under a credential's key. *)
Definition harmless (s : string) : bool := (s =? "") || IsExpression s || (s =? Value).

(** ** Lemmas: walking *)

Lemma value_arr (key : string) (l : list json) : value key (JArr l) = JArr (value key <$> l).
Proof. reflexivity. Qed.

Lemma value_obj (key : string) (m : list (string * json)) :
  value key (JObj m) = JObj ((fun kv => (kv.1, value kv.1 kv.2)) <$> m).
Proof. simpl. f_equal. induction m as [|[k x] m IH]; [done|]. simpl. by f_equal. Qed.

Lemma leaves_arr (key : string) (l : list json) : leaves key (JArr l) = l ≫= leaves key.
Proof. simpl. induction l as [|x l IH]; [done|]. simpl. by f_equal. Qed.

Lemma leaves_obj (key : string) (m : list (string * json)) :
  leaves key (JObj m) = m ≫= (fun kv => leaves kv.1 kv.2).
Proof. simpl. induction m as [|[k x] m IH]; [done|]. simpl. by f_equal. Qed.

Lemma skeleton_arr (l : list json) : skeleton (JArr l) = JArr (skeleton <$> l).
Proof. reflexivity. Qed.

Lemma skeleton_obj (m : list (string * json)) :
  skeleton (JObj m) = JObj ((fun kv => (kv.1, skeleton kv.2)) <$> m).
Proof. simpl. f_equal. induction m as [|[k x] m IH]; [done|]. simpl. by f_equal. Qed.

Lemma byName_arr (key : string) (l : list json) (names : gset string) :
  byName key (JArr l) names =
  (let l' := (fun x => byName key x names) <$> l in
   if existsb snd l'
   then (JArr (zip_with (fun x (r : json * bool) => if r.2 then r.1 else x) l l'), true)
   else (JArr l, false)).
Proof.
  cbn [byName]. match goal with |- (let '(_, _) := ?f l in _) = _ => set (go := f) end.
  assert (H : go l = (zip_with (fun x (r : json * bool) => if r.2 then r.1 else x) l ((fun x => byName key x names) <$> l),
                      existsb snd ((fun x => byName key x names) <$> l))).
  { induction l as [|x l IH]; [done|]. simpl. rewrite IH. by destruct (byName key x names). }
  rewrite H. by destruct (existsb _ _).
Qed.

Lemma byName_obj (key : string) (m : list (string * json)) (names : gset string) :
  byName key (JObj m) names =
  (let m' := (fun kv => byName kv.1 kv.2 names) <$> m in
   if existsb snd m'
   then (JObj (zip_with (fun (kv : string * json) (r : json * bool) => (kv.1, if r.2 then r.1 else kv.2)) m m'), true)
   else (JObj m, false)).
Proof.
  cbn [byName]. match goal with |- (let '(_, _) := ?f m in _) = _ => set (go := f) end.
  assert (H : go m = (zip_with (fun (kv : string * json) (r : json * bool) => (kv.1, if r.2 then r.1 else kv.2)) m
                        ((fun kv => byName kv.1 kv.2 names) <$> m),
                      existsb snd ((fun kv => byName kv.1 kv.2 names) <$> m))).
  { induction m as [|[k x] m IH]; [done|]. simpl. rewrite IH. by destruct (byName k x names). }
  rewrite H. by destruct (existsb _ _).
Qed.

(** What a walk does to the strings of an array or object, from what it does
    to each element. *)
Lemma bind_fmap_leaves {A} (f : A -> list (string * string)) (g : A -> list (string * string))
    (h : string * string -> string * string) (l : list A) :
  Forall (fun x => f x = h <$> g x) l -> l ≫= f = h <$> (l ≫= g).
Proof.
  induction 1 as [|x l Hx _ IH]; [done|]. csimpl. rewrite fmap_app. by f_equal.
Qed.

Lemma value_leaves (v : json) (key : string) :
  leaves key (value key v) = mask IsSecretKey <$> leaves key v.
Proof.
  revert key. induction v as [|b|n|s|l IH|m IH] using json_nested_ind; intros key; try done.
  - simpl. unfold mask. simpl. by destruct (negb (s =? "") && _ && _).
  - rewrite value_arr, !leaves_arr, list_fmap_bind. apply bind_fmap_leaves.
    eapply Forall_impl; [exact IH|]. intros x Hx. apply Hx.
  - rewrite value_obj, !leaves_obj, list_fmap_bind. apply bind_fmap_leaves.
    eapply Forall_impl; [exact IH|]. intros [k x] Hx. apply Hx.
Qed.

Lemma value_skeleton (v : json) (key : string) : skeleton (value key v) = skeleton v.
Proof.
  revert key. induction v as [|b|n|s|l IH|m IH] using json_nested_ind; intros key; try done.
  - simpl. by destruct (negb (s =? "") && _ && _).
  - rewrite value_arr, !skeleton_arr, <- list_fmap_compose. f_equal.
    apply list_fmap_ext. intros i x Hx. eapply Forall_lookup_1 in IH; [|exact Hx]. apply IH.
  - rewrite value_obj, !skeleton_obj, <- list_fmap_compose. f_equal.
    apply list_fmap_ext. intros i [k x] Hx. eapply Forall_lookup_1 in IH; [|exact Hx].
    unfold compose. simpl. by rewrite IH.
Qed.

Lemma zip_with_fmap {A B C} (f : A -> B -> C) (g : A -> B) (l : list A) :
  zip_with f l (g <$> l) = (fun x => f x (g x)) <$> l.
Proof. induction l as [|x l IH]; [done|]. simpl. by f_equal. Qed.

Lemma existsb_fmap {A B} (p : B -> bool) (f : A -> B) (l : list A) :
  existsb p (f <$> l) = existsb (fun x => p (f x)) l.
Proof. induction l as [|x l IH]; [done|]. cbn [existsb fmap list_fmap]. f_equal. exact IH. Qed.

Lemma existsb_bind {A B} (p : B -> bool) (f : A -> list B) (l : list A) :
  existsb p (l ≫= f) = existsb (fun x => existsb p (f x)) l.
Proof. induction l as [|x l IH]; [done|]. cbn [existsb mbind list_bind]. rewrite existsb_app. f_equal. exact IH. Qed.

(** The leaf is one that is masked. *)
Definition masked (secret : string -> bool) (kv : string * string) : bool :=
  negb (kv.2 =? "") && negb (IsExpression kv.2) && secret kv.1.

Lemma mask_id (secret : string -> bool) (l : list (string * string)) :
  existsb (masked secret) l = false -> mask secret <$> l = l.
Proof.
  induction l as [|kv l IH]; [done|]. csimpl. intros [Hk Hl]%orb_false_elim.
  rewrite IH by done. unfold mask, masked in *. by rewrite Hk.
Qed.

(** The walk with copy on write, against the reference: it masks the declared
    leaves, keeps the rest of the value, and reports exactly whether it masked. *)
Definition byName_ok (names : gset string) (key : string) (v : json) : Prop :=
  let sec := fun k => bool_decide (k ∈ names) in
  let '(out, changed) := byName key v names in
  leaves key (if changed then out else v) = mask sec <$> leaves key v /\
  skeleton (if changed then out else v) = skeleton v /\
  changed = existsb (masked sec) (leaves key v) /\
  (changed = false -> out = v).

Lemma byName_spec (names : gset string) (v : json) (key : string) : byName_ok names key v.
Proof.
  revert key. induction v as [|b|n|s|l IH|m IH] using json_nested_ind; intros key; unfold byName_ok;
    try done.
  - simpl. unfold mask, masked. simpl.
    destruct (bool_decide (key ∈ names)), (s =? ""), (IsExpression s); done.
  - rewrite byName_arr. cbv zeta. rewrite existsb_fmap, zip_with_fmap.
    assert (Hex : existsb (fun x => (byName key x names).2) l =
      existsb (masked (fun k => bool_decide (k ∈ names))) (leaves key (JArr l))).
    { rewrite leaves_arr, existsb_bind. induction IH as [|x l Hx _ IHl]; [done|]. csimpl. rewrite IHl.
      specialize (Hx key). unfold byName_ok in Hx. destruct (byName key x names) as [o c].
      destruct Hx as (_ & _ & -> & _). done. }
    destruct (existsb (fun x => (byName key x names).2) l) eqn:E.
    + split_and!; try done.
      * rewrite !leaves_arr, list_fmap_bind. apply bind_fmap_leaves. eapply Forall_impl; [exact IH|].
        intros x Hx. specialize (Hx key). unfold byName_ok, compose in *.
        destruct (byName key x names) as [o c]. by destruct Hx as (? & _).
      * rewrite !skeleton_arr, <- list_fmap_compose. f_equal. apply list_fmap_ext. intros i x Hx.
        eapply Forall_lookup_1 in IH; [|exact Hx]. specialize (IH key). unfold byName_ok, compose in *.
        destruct (byName key x names) as [o c]. by destruct IH as (_ & ? & _).
    + split_and!; try done. symmetry. by apply mask_id.
  - rewrite byName_obj. cbv zeta. rewrite existsb_fmap, zip_with_fmap.
    assert (Hex : existsb (fun kv : string * json => (byName kv.1 kv.2 names).2) m =
      existsb (masked (fun k => bool_decide (k ∈ names))) (leaves key (JObj m))).
    { rewrite leaves_obj, existsb_bind. induction IH as [|x l Hx _ IHl]; [done|]. csimpl. rewrite IHl.
      specialize (Hx x.1). unfold byName_ok in Hx. destruct (byName x.1 x.2 names) as [o c].
      destruct Hx as (_ & _ & -> & _). done. }
    destruct (existsb (fun kv : string * json => (byName kv.1 kv.2 names).2) m) eqn:E.
    + split_and!; try done.
      * rewrite !leaves_obj, list_fmap_bind. apply bind_fmap_leaves. eapply Forall_impl; [exact IH|].
        intros [k x] Hx. specialize (Hx k). unfold byName_ok, compose in *. simpl in *.
        destruct (byName k x names) as [o c]. by destruct Hx as (? & _).
      * rewrite !skeleton_obj, <- list_fmap_compose. f_equal. apply list_fmap_ext. intros i [k x] Hx.
        eapply Forall_lookup_1 in IH; [|exact Hx]. specialize (IH k). unfold byName_ok, compose in *. simpl in *.
        destruct (byName k x names) as [o c]. f_equal. by destruct IH as (_ & ? & _).
    + split_and!; try done. symmetry. by apply mask_id.
Qed.

(** The strings and the skeleton determine a value. *)
Lemma skeleton_leaves_length (v w : json) (k1 k2 : string) :
  skeleton v = skeleton w -> length (leaves k1 v) = length (leaves k2 w).
Proof.
  revert w k1 k2. induction v as [|b|n|s|l IH|m IH] using json_nested_ind; intros w k1 k2 H;
    destruct w as [|b'|n'|s'|l'|m']; try done.
  - rewrite !skeleton_arr in H. injection H as H. rewrite !leaves_arr.
    revert l' H. induction IH as [|x l Hx _ IHl]; intros [|y l'] H; try done.
    csimpl in H. injection H as H1 H2. csimpl. rewrite !length_app. f_equal; [by apply Hx|by apply IHl].
  - rewrite !skeleton_obj in H. injection H as H. rewrite !leaves_obj.
    revert m' H. induction IH as [|[k x] m Hx _ IHl]; intros [|[k' y] m'] H; try done.
    csimpl in H. injection H as -> H1 H2. csimpl. rewrite !length_app. f_equal; [by apply Hx|by apply IHl].
Qed.

Lemma leaves_skeleton_inj (v w : json) (key : string) :
  skeleton v = skeleton w -> leaves key v = leaves key w -> v = w.
Proof.
  revert w key. induction v as [|b|n|s|l IH|m IH] using json_nested_ind; intros w key H HL;
    destruct w as [|b'|n'|s'|l'|m']; try done.
  - simpl in HL. congruence.
  - rewrite !skeleton_arr in H. injection H as H. rewrite !leaves_arr in HL. f_equal.
    revert l' H HL. induction IH as [|x l Hx _ IHl]; intros [|y l'] H HL; try done.
    csimpl in H; csimpl in HL. injection H as H1 H2.
    apply app_inj_1 in HL as [HL1 HL2]; [|by apply skeleton_leaves_length].
    f_equal; [by eapply Hx|by apply IHl].
  - rewrite !skeleton_obj in H. injection H as H. rewrite !leaves_obj in HL. f_equal.
    revert m' H HL. induction IH as [|[k x] m Hx _ IHl]; intros [|[k' y] m'] H HL; try done.
    csimpl in H; csimpl in HL. injection H as -> H1 H2.
    apply app_inj_1 in HL as [HL1 HL2]; [|by apply skeleton_leaves_length].
    f_equal; [f_equal; by eapply Hx|by apply IHl].
Qed.

Lemma mask_harmless (secret : string -> bool) (kv : string * string) :
  secret (mask secret kv).1 = true -> harmless (mask secret kv).2 = true.
Proof.
  unfold mask, harmless. destruct kv as [k s]. simpl.
  destruct (s =? "") eqn:E1, (IsExpression s) eqn:E2, (secret k) eqn:E3; simpl;
    rewrite ?E1, ?E2, ?E3; try done.
Qed.

Lemma mask_keeps_harmless (secret : string -> bool) (kv : string * string) :
  harmless kv.2 = true -> harmless (mask secret kv).2 = true.
Proof. unfold mask. by destruct (_ && _ && _). Qed.

Lemma mask_key (secret : string -> bool) (kv : string * string) : (mask secret kv).1 = kv.1.
Proof. unfold mask. by destruct (_ && _ && _). Qed.

Lemma mask_mask (p q : string -> bool) (kv : string * string) :
  mask p (mask q kv) = mask (fun k => q k || p k) kv.
Proof.
  unfold mask. destruct kv as [k s]. cbn [fst snd].
  destruct (negb (s =? "")) eqn:E1, (negb (IsExpression s)) eqn:E2, (q k) eqn:E3, (p k) eqn:E4;
    cbn [fst snd andb orb]; rewrite ?E1, ?E2, ?E3, ?E4; reflexivity.
Qed.

Lemma mask_ext (p q : string -> bool) (kv : string * string) :
  (forall k, p k = q k) -> mask p kv = mask q kv.
Proof. intros H. unfold mask. by rewrite H. Qed.

(** The strings [redact_decoded] leaves. *)
Lemma redact_decoded_leaves (declared : gset string) (v : json) :
  leaves "" (redact_decoded declared v) =
    (fun kv => mask IsSecretKey (mask (fun k => bool_decide (k ∈ declared)) kv)) <$> leaves "" v /\
  skeleton (redact_decoded declared v) = skeleton v.
Proof.
  unfold redact_decoded, Secrets. rewrite value_leaves, value_skeleton.
  assert (H : leaves "" (ByName v declared).1 = mask (fun k => bool_decide (k ∈ declared)) <$> leaves "" v /\
              skeleton (ByName v declared).1 = skeleton v).
  { unfold ByName. destruct (bool_decide (declared = ∅)) eqn:E.
    - apply bool_decide_eq_true in E as ->. simpl. split; [|done].
      symmetry. apply mask_id. induction (leaves "" v) as [|kv l IH]; [done|]. csimpl. rewrite IH.
      unfold masked. by rewrite bool_decide_false, andb_false_r by set_solver.
    - destruct v; simpl orb; cbv iota; try done;
      match goal with |- context [byName "" ?v _] => pose proof (byName_spec declared v "") as Hb end;
      unfold byName_ok in Hb; destruct (byName _ _ _) as [o []]; destruct Hb as (? & ? & _); done. }
  destruct H as [-> ->]. split; [|done]. by rewrite <- list_fmap_compose.
Qed.

(** ** Properties *)

(** C40. What the runner writes into a trace holds no readable credential it can
    recognise: after [redactPayload], every string whose key the node's schemas
    declare a credential, or whose key is conventionally one, is empty, a
    template reference or the marker; every other string and everything that is
    not a string is unchanged; and redacting again changes nothing. *)
Theorem redact_payload_complete (declared : gset string) (v : json) :
  Forall (fun kv => kv.1 ∈ declared \/ IsSecretKey kv.1 = true -> harmless kv.2 = true)
    (leaves "" (redact_decoded declared v)) /\
  Forall2 (fun kv kv' => kv'.1 = kv.1 /\
      (kv'.2 = kv.2 \/ (kv'.2 = Value /\ (kv.1 ∈ declared \/ IsSecretKey kv.1 = true))))
    (leaves "" v) (leaves "" (redact_decoded declared v)) /\
  skeleton (redact_decoded declared v) = skeleton v /\
  redact_decoded declared (redact_decoded declared v) = redact_decoded declared v.
Proof.
  destruct (redact_decoded_leaves declared v) as [HL HS].
  assert (Hh : forall kv, let kv' := mask IsSecretKey (mask (fun k => bool_decide (k ∈ declared)) kv) in
    kv'.1 ∈ declared \/ IsSecretKey kv'.1 = true -> harmless kv'.2 = true).
  { intros kv kv' [Hd|Hs]; unfold kv' in *.
    - apply mask_keeps_harmless, mask_harmless. rewrite !mask_key in *. by apply bool_decide_eq_true.
    - by apply mask_harmless. }
  split; [|split; [|split]].
  - rewrite HL. apply Forall_fmap, Forall_forall. intros kv _. exact (Hh kv).
  - rewrite HL. clear HL HS. induction (leaves "" v) as [|kv l IH]; csimpl; constructor; [|done].
    rewrite !mask_key. split; [done|]. unfold mask. destruct kv as [k s]. simpl.
    destruct (_ && bool_decide (k ∈ declared)) eqn:E1; simpl.
    + apply andb_prop in E1 as [_ E1%bool_decide_eq_true]. right.
      by destruct (IsSecretKey k); auto.
    + destruct (_ && IsSecretKey k) eqn:E2; simpl; [|by left].
      apply andb_prop in E2 as [_ E2]. right. auto.
  - done.
  - apply (leaves_skeleton_inj _ _ "").
    + by destruct (redact_decoded_leaves declared (redact_decoded declared v)) as [_ ->].
    + destruct (redact_decoded_leaves declared (redact_decoded declared v)) as [-> _]. rewrite HL.
      rewrite <- list_fmap_compose. apply list_fmap_ext. intros i kv _. unfold compose.
      rewrite !mask_mask. apply mask_ext. intros k.
      by destruct (bool_decide (k ∈ declared)), (IsSecretKey k).
Qed.

(** [sub v w]: [v] is [w] or sits somewhere inside it. *)
Inductive sub : json -> json -> Prop :=
| sub_refl v : sub v v
| sub_arr v x l : x ∈ l -> sub v x -> sub v (JArr l)
| sub_obj v k x m : (k, x) ∈ m -> sub v x -> sub v (JObj m).

Lemma collect_arr (l : list json) : collectSecretNames (JArr l) = ⋃ (collectSecretNames <$> l).
Proof. cbn [collectSecretNames]. induction l as [|x l IH]; [done|]. simpl. by rewrite IH. Qed.

Lemma collect_obj (n : list (string * json)) :
  collectSecretNames (JObj n) =
  match obj_get "properties" n ≫= as_obj with Some props => declared_props props | None => ∅ end
  ∪ ⋃ ((fun kv => collectSecretNames kv.2) <$> n).
Proof.
  cbn [collectSecretNames]. f_equal. induction n as [|[k x] n IH]; [done|]. simpl. by rewrite IH.
Qed.

Lemma declared_props_spec (name : string) (props : list (string * json)) :
  name ∈ declared_props props <-> exists d, (name, JObj d) ∈ props /\ declaresSecret d = true.
Proof.
  unfold declared_props. rewrite elem_of_list_to_set, list_elem_of_omap. split.
  - intros ([k v] & Hin & H). simpl in H. destruct v; simpl in H; try done.
    destruct (declaresSecret m) eqn:E; [|done]. injection H as ->. eauto.
  - intros (d & Hin & Hd). exists (name, JObj d). split; [done|]. simpl. by rewrite Hd.
Qed.

Lemma collect_spec (v : json) (name : string) :
  name ∈ collectSecretNames v <->
  exists o props d, sub (JObj o) v /\ obj_get "properties" o = Some (JObj props) /\
    (name, JObj d) ∈ props /\ declaresSecret d = true.
Proof.
  induction v as [|b|n|s|l IH|m IH] using json_nested_ind.
  1-4: split; [by intros ?%elem_of_empty|intros (o & props & d & Hs & _); inversion Hs].
  - rewrite collect_arr, elem_of_union_list. setoid_rewrite list_elem_of_fmap. split.
    + intros (X & (x & -> & Hx) & Hn). rewrite Forall_forall in IH. apply (IH x Hx) in Hn.
      destruct Hn as (o & props & d & Hs & ?). exists o, props, d. split; [by eapply sub_arr|done].
    + intros (o & props & d & Hs & H). inversion Hs as [|? x ? Hx Hs'|]; subst.
      exists (collectSecretNames x). split; [eauto|]. rewrite Forall_forall in IH. apply (IH x Hx). eauto 10.
  - rewrite collect_obj, elem_of_union, elem_of_union_list. setoid_rewrite list_elem_of_fmap. split.
    + intros [H|(X & ([k x] & -> & Hx) & Hn)].
      * destruct (obj_get "properties" m) as [[]|] eqn:E; simpl in H; try by apply elem_of_empty in H.
        apply declared_props_spec in H as (d & Hin & Hd). exists m, m0, d. split; [apply sub_refl|done].
      * rewrite Forall_forall in IH. apply (IH (k, x) Hx) in Hn.
        destruct Hn as (o & props & d & Hs & ?). exists o, props, d. split; [by eapply sub_obj|done].
    + intros (o & props & d & Hs & Hp & Hin & Hd). inversion Hs as [| |? k x ? Hx Hs']; subst.
      * left. rewrite Hp. simpl. apply declared_props_spec. eauto.
      * right. exists (collectSecretNames x). split; [by exists (k, x)|].
        rewrite Forall_forall in IH. apply (IH (k, x) Hx). eauto 10.
Qed.

(** The user's declaration is read wherever it sits: a name is treated as
    a credential exactly when the schema parses and somewhere in the document,
    at any depth, an object's [properties] maps that name to a definition
    marked [format: password], [writeOnly] or [secret] (as a boolean or as the
    string "true"); a missing or malformed schema declares nothing. *)
Theorem authored_names_exact (unmarshal : string -> option json) (schema name : string) :
  name ∈ AuthoredSecretNames unmarshal schema <->
  schema <> "" /\ exists doc o props d, unmarshal schema = Some doc /\ sub (JObj o) doc /\
    obj_get "properties" o = Some (JObj props) /\ (name, JObj d) ∈ props /\ declaresSecret d = true.
Proof.
  unfold AuthoredSecretNames. destruct (String.eqb_spec schema "") as [->|Hne].
  - split; [by intros ?%elem_of_empty|by intros [? _]].
  - destruct (unmarshal schema) as [doc|].
    + rewrite collect_spec. split.
      * intros (o & props & d & H). split; [done|]. exists doc, o, props, d. tauto.
      * intros (_ & doc' & o & props & d & [= <-] & H). exists o, props, d. done.
    + split; [by intros ?%elem_of_empty|by intros (_ & ? & ? & ? & ? & ? & _)].
Qed.
