(* ===== verification/Reflect.v ===== *)
(** * Go values under reflection

    Values as [reflect] shows them, for the code that walks arbitrary component
    data: [pkg/utils.IsNil], the masking of fields a component declares as
    credentials ([pkg/redact/declared.go]) and, in Secret.v, the resolution of
    secret placeholders.

    A value in a slot (a field, an element, a map entry) whose static type is
    [interface{}] is a [VIface]; the model has no other interface types and no
    cyclic data. A panic of [reflect] is an [Err]. *)
From S2P Require Import Prelude GoErrors Json Redact.

Open Scope string_scope.

(** The parts of a [reflect.StructField] the sources read. *)
Record field := mkField {
  f_Name : string;
  f_exported : bool;
  f_format : string;
  f_secret : string;
  f_writeOnly : string;
}.

Inductive goval : Type :=
| VString (s : string)
| VScalar (text : string)                       (* bool, number, func, chan *)
| VIface (v : option goval)
| VPtr (v : option goval)
| VStruct (fs : list (field * goval))
| VMap (m : option (list (string * goval)))     (* None is a nil map *)
| VSlice (l : option (list goval))
| VArray (l : list goval).

Section goval_induction.
  Variable P : goval -> Prop.
Definition opt_P (o : option goval) : Prop := match o with Some v => P v | None => True end.
  Hypothesis Hstring : forall s, P (VString s).
  Hypothesis Hscalar : forall s, P (VScalar s).
  Hypothesis Hiface : forall o, opt_P o -> P (VIface o).
  Hypothesis Hptr : forall o, opt_P o -> P (VPtr o).
  Hypothesis Hstruct : forall fs, Forall (fun fv => P fv.2) fs -> P (VStruct fs).
  Hypothesis Hmap : forall m, Forall (fun kv => P kv.2) (default [] m) -> P (VMap m).
  Hypothesis Hslice : forall l, Forall P (default [] l) -> P (VSlice l).
  Hypothesis Harray : forall l, Forall P l -> P (VArray l).

Fixpoint goval_nested_ind (v : goval) : P v :=
  let list_ind := fix go l : Forall P l :=
    match l with
    | [] => List.Forall_nil _
    | x :: l' => List.Forall_cons _ _ _ (goval_nested_ind x) (go l')
    end in
  match v with
  | VString s => Hstring s
  | VScalar s => Hscalar s
  | VIface None => Hiface None I
  | VIface (Some w) => Hiface (Some w) (goval_nested_ind w)
  | VPtr None => Hptr None I
  | VPtr (Some w) => Hptr (Some w) (goval_nested_ind w)
  | VStruct fs => Hstruct fs ((fix go fs : Forall (fun fv => P fv.2) fs :=
      match fs with
      | [] => List.Forall_nil _
      | (f, x) :: fs' => List.Forall_cons _ (f, x) _ (goval_nested_ind x) (go fs')
      end) fs)
  | VMap None => Hmap None (List.Forall_nil _)
  | VMap (Some m) => Hmap (Some m) ((fix go m : Forall (fun kv => P kv.2) m :=
      match m with
      | [] => List.Forall_nil _
      | (k, x) :: m' => List.Forall_cons _ (k, x) _ (goval_nested_ind x) (go m')
      end) m)
  | VSlice None => Hslice None (List.Forall_nil _)
  | VSlice (Some l) => Hslice (Some l) (list_ind l)
  | VArray l => Harray l (list_ind l)
  end.

End goval_induction.

(** ** pkg/utils/utils.go *)

(** [v] is the dynamic value of an [interface{}]. *)
Definition IsNil (v : option goval) : bool :=
  match v with
  | None => true
  | Some (VPtr None) | Some (VMap None) | Some (VSlice None) | Some (VIface None) => true
  | Some _ => false
  end.

(** ** pkg/redact/declared.go *)

Definition isSecretField (f : field) : bool :=
  equal_fold (f_format f) "password" || equal_fold (f_secret f) "true"
  || equal_fold (f_writeOnly f) "true".

(** A masked copy is a struct, a map or a slice, so [AssignableTo] fails for a
    slot of pointer or array type. *)
Definition accepts_copy (slot : goval) : bool :=
  match slot with VPtr _ | VArray _ => false | _ => true end.

(** [Set] into a slot: an interface slot wraps the value. *)
Definition set_slot (slot inner : goval) : goval :=
  match slot with VIface _ => VIface (Some inner) | _ => inner end.

Definition reflect_panic : goerror := ErrorString "reflect.Set: value is not assignable".

Section walkers.
  (** The walk of the values inside. *)
  Variable walk : goval -> result goerror (goval * bool).

(** One field of the copy. *)
Definition walkField (f : field) (v : goval) : result goerror (goval * bool) :=
  if negb (f_exported f) then Ok (v, false)
  else if isSecretField f then
    match v with
    | VString s => if s =? "" then Ok (v, false) else Ok (VString Value, true)
    | _ => Ok (v, false)
    end
  else match walk v with
       | Err e => Err e
       | Ok (inner, c) =>
           if c then Ok (if accepts_copy v then set_slot v inner else v, true) else Ok (v, false)
       end.

(** One element of a map or a slice: [SetMapIndex] and [Set] panic when the
    value does not fit. *)
Definition walkElem (v : goval) : result goerror (goval * bool) :=
  match walk v with
  | Err e => Err e
  | Ok (inner, c) =>
      if c then if accepts_copy v then Ok (set_slot v inner, true) else Err reflect_panic
      else Ok (v, false)
  end.

Fixpoint walkStruct (fs : list (field * goval)) : result goerror (list (field * goval) * bool) :=
  match fs with
  | [] => Ok ([], false)
  | (f, v) :: fs' =>
      (let! (v', c) := walkField f v in
       let! (r, cs) := walkStruct fs' in Ok ((f, v') :: r, c || cs))%go
  end.

Fixpoint walkMap (m : list (string * goval)) : result goerror (list (string * goval) * bool) :=
  match m with
  | [] => Ok ([], false)
  | (k, v) :: m' =>
      (let! (v', c) := walkElem v in
       let! (r, cs) := walkMap m' in Ok ((k, v') :: r, c || cs))%go
  end.

Fixpoint walkSlice (l : list goval) : result goerror (list goval * bool) :=
  match l with
  | [] => Ok ([], false)
  | v :: l' =>
      (let! (v', c) := walkElem v in
       let! (r, cs) := walkSlice l' in Ok (v' :: r, c || cs))%go
  end.

End walkers.

Fixpoint walk (rv : goval) : result goerror (goval * bool) :=
  match rv with
  | VPtr (Some w) | VIface (Some w) =>
      (let! (inner, changed) := walk w in if changed then Ok (inner, true) else Ok (rv, false))%go
  | VStruct fs =>
      (let! (copied, changed) := walkStruct walk fs in Ok (VStruct copied, changed))%go
  | VMap (Some m) =>
      (let! (copied, changed) := walkMap walk m in
       if changed then Ok (VMap (Some copied), true) else Ok (rv, false))%go
  | VSlice (Some l) | VArray l =>
      (let! (copied, changed) := walkSlice walk l in
       if changed then Ok (VSlice (Some copied), true) else Ok (rv, false))%go
  | _ => Ok (rv, false)
  end.

(** [Declared]: [None] is a nil interface. *)
Definition Declared (v : option goval) : result goerror (option goval * bool) :=
  match v with
  | None => Ok (None, false)
  | Some w =>
      match walk w with
      | Err e => Err e
      | Ok (out, changed) => if changed then Ok (Some out, true) else Ok (v, false)
      end
  end.

(** ** Reference definitions

    What marshalling shows of a value: exported fields, without pointers and
    interfaces; with [masked] every non-empty declared-secret string is the
    marker. *)
Section view_fields.
  Variable view : bool -> goval -> json.

Fixpoint view_fields (masked : bool) (fs : list (field * goval)) : list (string * json) :=
  match fs with
  | [] => []
  | (f, x) :: fs' =>
      if f_exported f
      then (f_Name f,
            if masked && isSecretField f
            then match x with
                 | VString s => JStr (if s =? "" then s else Value)
                 | x => view false x
                 end
            else view masked x) :: view_fields masked fs'
      else view_fields masked fs'
  end.

End view_fields.

Fixpoint view (masked : bool) (v : goval) : json :=
  match v with
  | VString s => JStr s
  | VScalar t => JNum t
  | VIface None | VPtr None | VMap None | VSlice None => JNull
  | VIface (Some w) | VPtr (Some w) => view masked w
  | VStruct fs => JObj (view_fields view masked fs)
  | VMap (Some m) => JObj (map (fun kv => (kv.1, view masked kv.2)) m)
  | VSlice (Some l) | VArray l => JArr (map (view masked) l)
  end.

(** Some declared-secret string is not empty. *)
Fixpoint has_secret (v : goval) : bool :=
  match v with
  | VIface (Some w) | VPtr (Some w) => has_secret w
  | VStruct fs => existsb (fun fv =>
      f_exported fv.1 &&
      (if isSecretField fv.1 then match fv.2 with VString s => negb (s =? "") | _ => false end
       else has_secret fv.2)) fs
  | VMap (Some m) => existsb (fun kv => has_secret kv.2) m
  | VSlice (Some l) | VArray l => existsb has_secret l
  | _ => false
  end.

(** No slot of pointer or array type holds a declared secret. *)
Definition slot_ok (v : goval) : bool := accepts_copy v || negb (has_secret v).

Fixpoint slots_ok (v : goval) : bool :=
  match v with
  | VIface (Some w) | VPtr (Some w) => slots_ok w
  | VStruct fs => forallb (fun fv =>
      negb (f_exported fv.1) || isSecretField fv.1 || (slot_ok fv.2 && slots_ok fv.2)) fs
  | VMap (Some m) => forallb (fun kv => slot_ok kv.2 && slots_ok kv.2) m
  | VSlice (Some l) | VArray l => forallb (fun x => slot_ok x && slots_ok x) l
  | _ => true
  end.

(** ** Lemmas *)

(** What the walk promises of a value. *)
Definition walk_ok (v : goval) : Prop :=
  slots_ok v = true ->
  exists v', walk v = Ok (v', has_secret v) /\ view false v' = view true v /\
    (has_secret v = false -> v' = v).

Lemma walkElem_ok (x : goval) :
  walk_ok x -> slot_ok x && slots_ok x = true ->
  exists x', walkElem walk x = Ok (x', has_secret x) /\ view false x' = view true x /\
    (has_secret x = false -> x' = x).
Proof.
  intros Hx [Hs Hok]%andb_prop. destruct (Hx Hok) as (x' & Hw & Hv & Hid).
  unfold walkElem. rewrite Hw. destruct (has_secret x) eqn:E.
  - unfold slot_ok in Hs. rewrite E, orb_false_r in Hs. rewrite Hs.
    exists (set_slot x x'). split; [done|]. split; [|done].
    unfold set_slot. by destruct x.
  - exists x. rewrite (Hid eq_refl) in Hv. done.
Qed.

Lemma walkField_ok (f : field) (x : goval) :
  walk_ok x -> negb (f_exported f) || isSecretField f || (slot_ok x && slots_ok x) = true ->
  let sec := f_exported f &&
    (if isSecretField f then match x with VString s => negb (s =? "") | _ => false end
     else has_secret x) in
  exists x', walkField walk f x = Ok (x', sec) /\ (sec = false -> x' = x) /\
    (f_exported f = true ->
       view false x' = if isSecretField f
                       then match x with
                            | VString s => JStr (if s =? "" then s else Value)
                            | x => view false x
                            end
                       else view true x).
Proof.
  intros Hx Hok. unfold walkField. destruct (f_exported f); cbn [negb orb andb] in *; [|by exists x].
  destruct (isSecretField f); cbn [orb] in *.
  - destruct x as [s| | | | | | |]; [|eexists; split_and!; done..].
    destruct (s =? "") eqn:E; [exists (VString s)|exists (VString Value)]; done.
  - apply andb_prop in Hok as [Hs Hok]. destruct (Hx Hok) as (x' & Hw & Hv & Hid). rewrite Hw.
    destruct (has_secret x) eqn:E.
    + unfold slot_ok in Hs. rewrite E, orb_false_r in Hs. rewrite Hs.
      exists (set_slot x x'). split_and!; try done. intros _. unfold set_slot. by destruct x.
    + exists x. rewrite (Hid eq_refl) in Hv. done.
Qed.

Lemma walkStruct_ok (fs : list (field * goval)) :
  Forall (fun fv => walk_ok fv.2) fs -> slots_ok (VStruct fs) = true ->
  exists fs', walkStruct walk fs = Ok (fs', has_secret (VStruct fs)) /\
    view false (VStruct fs') = view true (VStruct fs) /\ (has_secret (VStruct fs) = false -> fs' = fs).
Proof.
  induction 1 as [|[f x] fs Hx _ IH]; [by exists []|]. cbn [slots_ok forallb fst snd] in *.
  intros [H1 H2]%andb_prop. destruct (walkField_ok f x Hx H1) as (x' & Hw & Hid & Hv).
  destruct (IH H2) as (fs' & Hws & Hvs & Hids).
  cbn [walkStruct]. rewrite Hw. cbn [rbind]. rewrite Hws. cbn [rbind].
  exists ((f, x') :: fs'). split; [done|]. split.
  - injection Hvs as Hvs. cbn [view view_fields].
    destruct (f_exported f); [|by rewrite Hvs].
    rewrite (Hv eq_refl). cbn [andb]. rewrite Hvs. by destruct (isSecretField f).
  - cbn [has_secret existsb fst snd] in *. intros [Ha Hb]%orb_false_elim.
    by rewrite (Hid Ha), (Hids Hb).
Qed.

Lemma walkMap_ok (m : list (string * goval)) :
  Forall (fun kv => walk_ok kv.2) m -> slots_ok (VMap (Some m)) = true ->
  exists m', walkMap walk m = Ok (m', has_secret (VMap (Some m))) /\
    view false (VMap (Some m')) = view true (VMap (Some m)) /\
    (has_secret (VMap (Some m)) = false -> m' = m).
Proof.
  induction 1 as [|[k x] m Hx _ IH]; [by exists []|]. cbn [slots_ok forallb fst snd] in *.
  intros [H1 H2]%andb_prop. destruct (walkElem_ok x Hx H1) as (x' & Hw & Hv & Hid).
  destruct (IH H2) as (m' & Hws & Hvs & Hids).
  cbn [walkMap]. rewrite Hw. cbn [rbind]. rewrite Hws. cbn [rbind].
  exists ((k, x') :: m'). split; [done|]. split.
  - injection Hvs as Hvs. cbn [view map fst snd]. by rewrite Hv, Hvs.
  - cbn [has_secret existsb fst snd] in *. intros [Ha Hb]%orb_false_elim.
    by rewrite (Hid Ha), (Hids Hb).
Qed.

Lemma walkSlice_ok (l : list goval) :
  Forall walk_ok l -> slots_ok (VArray l) = true ->
  exists l', walkSlice walk l = Ok (l', has_secret (VArray l)) /\
    view false (VArray l') = view true (VArray l) /\ (has_secret (VArray l) = false -> l' = l).
Proof.
  induction 1 as [|x l Hx _ IH]; [by exists []|]. cbn [slots_ok forallb] in *.
  intros [H1 H2]%andb_prop. destruct (walkElem_ok x Hx H1) as (x' & Hw & Hv & Hid).
  destruct (IH H2) as (l' & Hws & Hvs & Hids).
  cbn [walkSlice]. rewrite Hw. cbn [rbind]. rewrite Hws. cbn [rbind].
  exists (x' :: l'). split; [done|]. split.
  - injection Hvs as Hvs. cbn [view map]. by rewrite Hv, Hvs.
  - cbn [has_secret existsb] in *. intros [Ha Hb]%orb_false_elim.
    by rewrite (Hid Ha), (Hids Hb).
Qed.

Lemma walk_spec (v : goval) : walk_ok v.
Proof.
  induction v as [s|t|o IH|o IH|fs IH|m IH|l IH|l IH] using goval_nested_ind; unfold walk_ok; intros Hok.
  - by exists (VString s).
  - by exists (VScalar t).
  - destruct o as [w|]; [|by exists (VIface None)]. destruct (IH Hok) as (w' & Hw & Hv & Hid).
    cbn [walk]. rewrite Hw. cbn [rbind has_secret]. destruct (has_secret w) eqn:E.
    + by exists w'.
    + exists (VIface (Some w)). rewrite (Hid eq_refl) in Hv. done.
  - destruct o as [w|]; [|by exists (VPtr None)]. destruct (IH Hok) as (w' & Hw & Hv & Hid).
    cbn [walk]. rewrite Hw. cbn [rbind has_secret]. destruct (has_secret w) eqn:E.
    + by exists w'.
    + exists (VPtr (Some w)). rewrite (Hid eq_refl) in Hv. done.
  - destruct (walkStruct_ok fs IH Hok) as (fs' & Hw & Hv & Hid). cbn [walk]. rewrite Hw. cbn [rbind].
    exists (VStruct fs'). split_and!; try done. intros H. by rewrite (Hid H).
  - destruct m as [m|]; [|by exists (VMap None)].
    destruct (walkMap_ok m IH Hok) as (m' & Hw & Hv & Hid). cbn [walk]. rewrite Hw. cbn [rbind].
    destruct (has_secret (VMap (Some m))) eqn:E; [by exists (VMap (Some m'))|].
    exists (VMap (Some m)). rewrite (Hid eq_refl) in Hv. done.
  - destruct l as [l|]; [|by exists (VSlice None)].
    destruct (walkSlice_ok l IH Hok) as (l' & Hw & Hv & Hid). cbn [walk]. rewrite Hw. cbn [rbind].
    change (has_secret (VSlice (Some l))) with (has_secret (VArray l)).
    destruct (has_secret (VArray l)) eqn:E; [by exists (VSlice (Some l'))|].
    exists (VSlice (Some l)). rewrite (Hid eq_refl) in Hv. done.
  - destruct (walkSlice_ok l IH Hok) as (l' & Hw & Hv & Hid). cbn [walk]. rewrite Hw. cbn [rbind].
    destruct (has_secret (VArray l)) eqn:E; [by exists (VSlice (Some l'))|].
    exists (VArray l). rewrite (Hid eq_refl) in Hv. done.
Qed.

(** ** Properties *)

(** [Declared] masks what the component declared: when no declared secret
    sits behind a slot of pointer or array type, the walk does not panic, what
    marshalling shows of its result is what it shows of the value with every
    non-empty declared-secret string replaced by the marker and nothing else
    changed, the flag says exactly whether there was one, and otherwise the
    value itself is returned. *)
Theorem declared_masks (v : goval) :
  slots_ok v = true ->
  exists out, Declared (Some v) = Ok (Some out, has_secret v) /\
    view false out = view true v /\ (has_secret v = false -> out = v).
Proof.
  intros H. destruct (walk_spec v H) as (v' & Hw & Hv & Hid). unfold Declared. rewrite Hw.
  destruct (has_secret v) eqn:E; [by exists v'|]. exists v. rewrite (Hid eq_refl) in Hv. done.
Qed.

Lemma declared_masks_witness :
  let key := mkField "ApiKey" true "password" "" "" in
  let name := mkField "Name" true "" "" "" in
  let v := VPtr (Some (VStruct [(name, VString "x"); (name, VIface (Some (VStruct [(key, VString "hunter2")])))])) in
  has_secret v = true /\
  exists out, Declared (Some v) = Ok (Some out, has_secret v) /\
    view false out = view true v /\ (has_secret v = false -> out = v).
Proof. intros key name v. split; [reflexivity|]. apply (declared_masks v). reflexivity. Defined.

(** Behind a pointer the mask is lost: a struct field of pointer type whose
    target declares a secret is reported as changed and left readable, and a
    slice or map of such pointers makes the walk panic. *)
Theorem declared_pointer_leaks (f key : field) (name secret : string) (rest : list (field * goval)) :
  f_exported f = true -> isSecretField f = false ->
  f_exported key = true -> isSecretField key = true -> secret <> "" ->
  let inner := VPtr (Some (VStruct [(key, VString secret)])) in
  Declared (Some (VStruct [(f, inner)])) = Ok (Some (VStruct [(f, inner)]), true) /\
  view false (VStruct [(f, inner)]) = JObj [(f_Name f, JObj [(f_Name key, JStr secret)])] /\
  Declared (Some (VSlice (Some [inner]))) = Err reflect_panic /\
  Declared (Some (VMap (Some [(name, inner)]))) = Err reflect_panic.
Proof.
  intros Hf Hfs Hk Hks Hs inner. apply String.eqb_neq in Hs.
  assert (Hw : walk inner = Ok (VStruct [(key, VString Value)], true)).
  { unfold inner. cbn [walk walkStruct]. unfold walkField. rewrite Hk, Hks, Hs. done. }
  assert (Hfield : walkField walk f inner = Ok (inner, true)).
  { unfold walkField. rewrite Hf, Hfs, Hw. done. }
  assert (Helem : walkElem walk inner = Err reflect_panic).
  { unfold walkElem. by rewrite Hw. }
  unfold Declared. cbn [walk walkStruct walkSlice walkMap]. rewrite Hfield, Helem. cbn [rbind].
  split_and!; try done. unfold inner. cbn. by rewrite Hf, Hk.
Qed.

Lemma declared_pointer_leaks_witness :
  let f := mkField "Auth" true "" "" "" in
  let key := mkField "Key" true "password" "" "" in
  Declared (Some (VSlice (Some [VPtr (Some (VStruct [(key, VString "hunter2")]))]))) = Err reflect_panic.
Proof.
  intros f key. apply (declared_pointer_leaks f key "k" "hunter2" []); try reflexivity. discriminate.
Defined.
