(* ===== verification/Secret.v ===== *)
(** * Secret placeholders

    [pkg/secret/secret.go]: replacing "[[secret:<name>/<key>]]" strings in
    component settings by values from Kubernetes Secrets, and the read-only
    test for such strings. The API server is third-party: [get_secret] is an
    argument. Resolution mutates the settings in place; the model returns the
    mutated value, and on an error only the error (what was replaced before it
    is not modelled). Settability is [reflect]'s: the target of a pointer, the
    elements of a slice and the exported fields of a settable struct. *)
From S2P Require Import Prelude GoErrors Json Redact Reflect.

Open Scope string_scope.

Definition name_char (c : ascii) : bool := is_alnum c || existsb (Ascii.eqb c) ["."; "_"; "-"]%char.

Fixpoint all_chars (p : ascii -> bool) (s : string) : bool :=
  match s with EmptyString => true | String c s' => p c && all_chars p s' end.

(** [placeholderRe]: the name and the key. *)
Definition placeholder (s : string) : option (string * string) :=
  if negb (go_has_prefix s "[[secret:") then None
  else match go_cut "/" (go_trim_prefix s "[[secret:") with
       | None => None
       | Some (name, rest) =>
           match go_cut "]" rest with
           | Some (key, "]") =>
               if negb (name =? "") && negb (key =? "") && all_chars name_char name
                  && all_chars name_char key
               then Some (name, key) else None
           | _ => None
           end
       end.

Definition format_placeholder (name key : string) : string :=
  "[[secret:" +:+ name +:+ "/" +:+ key +:+ "]]".

Section resolve.
  Variable namespace : string.
  Variable get_secret : string -> result goerror (gmap string string).

Definition fetch (name key : string) : result goerror string :=
  if namespace =? ""
  then Err (ErrorString "secret.Resolve: K8sClient.GetNamespace returned empty — module pod must run with a namespace context")
  else match get_secret name with
       | Err e => Err (WrapError ("secret.Resolve: get Secret " +:+ namespace +:+ "/" +:+ name +:+ ": ") e)
       | Ok data =>
           match data !! key with
           | None => Err (ErrorString ("secret.Resolve: key " +:+ go_quote key +:+ " not found in Secret " +:+ namespace +:+ "/" +:+ name))
           | Some raw => Ok raw
           end
       end.

(** A string that is a placeholder becomes the secret's value. *)
Definition resolve_string (s : string) : result goerror string :=
  match placeholder s with
  | None => Ok s
  | Some (name, key) => fetch name key
  end.

Section walkers.
  Variable walk : bool -> goval -> result goerror goval.

Fixpoint resolve_fields (settable : bool) (fs : list (field * goval))
    : result goerror (list (field * goval)) :=
  match fs with
  | [] => Ok []
  | (f, v) :: fs' =>
      (let! v' := (if settable && f_exported f then walk true v else Ok v) in
       let! r := resolve_fields settable fs' in Ok ((f, v') :: r))%go
  end.

Fixpoint resolve_elems (settable : bool) (l : list goval) : result goerror (list goval) :=
  match l with
  | [] => Ok []
  | v :: l' => (let! v' := walk settable v in let! r := resolve_elems settable l' in Ok (v' :: r))%go
  end.

(** A map entry: a string is replaced, a map, slice or struct is copied,
    walked and written back; anything else is left. *)
Definition resolve_entry (v : goval) : result goerror goval :=
  match v with
  | VString s => (let! s' := resolve_string s in Ok (VString s'))%go
  | VIface (Some (VString s)) => (let! s' := resolve_string s in Ok (VIface (Some (VString s'))))%go
  | VMap _ | VSlice _ | VStruct _ => walk true v
  | VIface (Some ((VMap _ | VSlice _ | VStruct _) as w)) =>
      (let! w' := walk true w in Ok (VIface (Some w')))%go
  | _ => Ok v
  end.

Fixpoint resolve_entries (m : list (string * goval)) : result goerror (list (string * goval)) :=
  match m with
  | [] => Ok []
  | (k, v) :: m' =>
      (let! v' := resolve_entry v in let! r := resolve_entries m' in Ok ((k, v') :: r))%go
  end.

End walkers.

Fixpoint walk (settable : bool) (v : goval) : result goerror goval :=
  match v with
  | VString s => if settable then (let! s' := resolve_string s in Ok (VString s'))%go else Ok v
  | VStruct fs => (let! fs' := resolve_fields walk settable fs in Ok (VStruct fs'))%go
  | VPtr (Some w) => (let! w' := walk true w in Ok (VPtr (Some w')))%go
  | VIface (Some w) => (let! w' := walk false w in Ok (VIface (Some w')))%go
  | VSlice (Some l) => (let! l' := resolve_elems walk true l in Ok (VSlice (Some l')))%go
  | VArray l => (let! l' := resolve_elems walk settable l in Ok (VArray l'))%go
  | VMap (Some m) => (let! m' := resolve_entries walk m in Ok (VMap (Some m')))%go
  | _ => Ok v
  end.

(** [Resolve]: [client] is whether the component has a client. *)
Definition Resolve (client : bool) (settings : option goval) : result goerror (option goval) :=
  if negb client
  then Err (ErrorString "secret.Resolve: K8sClient is nil — component must implement ClientAware and wait for OnClient before resolving")
  else match settings with
       | Some (VPtr (Some w)) => (let! w' := walk true w in Ok (Some (VPtr (Some w'))))%go
       | _ => Err (ErrorString "secret.Resolve: settings must be a non-nil pointer")
       end.

End resolve.

(** ** ContainsPlaceholder *)

Fixpoint containsPlaceholder (v : goval) : bool :=
  match v with
  | VString s => match placeholder s with Some _ => true | None => false end
  | VPtr (Some w) | VIface (Some w) => containsPlaceholder w
  | VStruct fs => existsb (fun fv => containsPlaceholder fv.2) fs
  | VSlice (Some l) | VArray l => existsb containsPlaceholder l
  | VMap (Some m) => existsb (fun kv => containsPlaceholder kv.2) m
  | _ => false
  end.

Definition ContainsPlaceholder (v : option goval) : bool :=
  match v with Some w => containsPlaceholder w | None => false end.

(** ** Reference definitions

    The strings of a value, in the order of the walk, each with whether
    [Resolve] can replace it. *)
Section sites_walkers.
  Variable sites : bool -> goval -> list (bool * string).

Fixpoint sites_fields (settable : bool) (fs : list (field * goval)) : list (bool * string) :=
  match fs with
  | [] => []
  | (f, v) :: fs' =>
      ((if settable && f_exported f then sites true v
        else (fun p => (false, p.2)) <$> sites true v) ++ sites_fields settable fs')%list
  end.

End sites_walkers.

Definition dead (l : list (bool * string)) : list (bool * string) := (fun p => (false, p.2)) <$> l.

Section sites_entry.
  Variable sites : bool -> goval -> list (bool * string).

Definition site_entry (v : goval) : list (bool * string) :=
  match v with
  | VString s | VIface (Some (VString s)) => [(true, s)]
  | VMap _ | VSlice _ | VStruct _ => sites true v
  | VIface (Some ((VMap _ | VSlice _ | VStruct _) as w)) => sites true w
  | VIface (Some w) => dead (sites true w)
  | v => dead (sites true v)
  end.

Fixpoint site_entries (m : list (string * goval)) : list (bool * string) :=
  match m with [] => [] | (_, v) :: m' => site_entry v ++ site_entries m' end%list.

Fixpoint site_elems (settable : bool) (l : list goval) : list (bool * string) :=
  match l with [] => [] | v :: l' => sites settable v ++ site_elems settable l' end%list.

End sites_entry.

Fixpoint sites (settable : bool) (v : goval) : list (bool * string) :=
  match v with
  | VString s => [(settable, s)]
  | VStruct fs => sites_fields sites settable fs
  | VPtr (Some w) => sites true w
  | VIface (Some w) => sites false w
  | VSlice (Some l) => site_elems sites true l
  | VArray l => site_elems sites settable l
  | VMap (Some m) => site_entries sites m
  | _ => []
  end.

(** ** Lemmas *)

Section resolve_lemmas.
  Variable namespace : string.
  Variable get_secret : string -> result goerror (gmap string string).
Let rs := resolve_string namespace get_secret.
Let wk := walk namespace get_secret.

(** A site that can be replaced can be resolved; what it becomes. *)
Definition site_ok (p : bool * string) : bool := negb p.1 || is_ok (rs p.2).
Definition site_step (p : bool * string) : bool * string :=
  (p.1, if p.1 then match rs p.2 with Ok r => r | Err _ => p.2 end else p.2).

(** What a walk of a part promises, from the strings of the part. *)
Definition part_ok {A} (walked : result goerror A) (before : list (bool * string))
    (after : A -> list (bool * string)) : Prop :=
  if forallb site_ok before
  then exists a, walked = Ok a /\ after a = site_step <$> before
  else is_ok walked = false.

(** Walking a head and a tail, in this order. *)
Lemma part_ok_cons {A B C} (m : result goerror A) (n : result goerror B) (f : A -> B -> C)
    b1 b2 g1 g2 g :
  part_ok m b1 g1 -> part_ok n b2 g2 -> (forall a b, g (f a b) = (g1 a ++ g2 b)%list) ->
  part_ok (rbind m (fun a => rbind n (fun b => Ok (f a b)))) (b1 ++ b2)%list g.
Proof.
  unfold part_ok. intros H1 H2 Hg. rewrite forallb_app, fmap_app. destruct (forallb site_ok b1); simpl.
  - destruct H1 as (a & -> & Ha). simpl. destruct (forallb site_ok b2).
    + destruct H2 as (b & -> & Hb). exists (f a b). by rewrite Hg, Ha, Hb.
    + by destruct n.
  - by destruct m.
Qed.

Lemma dead_ok (l : list (bool * string)) :
  forallb site_ok (dead l) = true /\ site_step <$> dead l = dead l.
Proof. induction l as [|p l [IH1 IH2]]; [done|]. split; [done|]. csimpl. by rewrite IH2. Qed.

Lemma string_ok {A} (s : string) (f : string -> A) (g : A -> list (bool * string)) :
  (forall r, g (f r) = [(true, r)]) ->
  part_ok (rbind (rs s) (fun r => Ok (f r))) [(true, s)] g.
Proof.
  intros Hg. unfold part_ok, site_ok. simpl. unfold site_step. simpl.
  destruct (rs s) as [r|e]; simpl; [|done]. exists (f r). by rewrite Hg.
Qed.

Lemma part_ok_map {A B} (m : result goerror A) (f : A -> B) b g :
  part_ok m b (fun a => g (f a)) -> part_ok (rbind m (fun a => Ok (f a))) b g.
Proof.
  unfold part_ok. destruct (forallb site_ok b); [|by destruct m].
  intros (a & -> & H). by exists (f a).
Qed.

Lemma part_ok_id {A} (a : A) b (g : A -> list (bool * string)) :
  g a = dead b -> part_ok (Ok a) (dead b) g.
Proof. intros H. unfold part_ok. destruct (dead_ok b) as [-> Hs]. exists a. by rewrite H, Hs. Qed.

Definition value_ok (v : goval) : Prop :=
  forall settable, part_ok (wk settable v) (sites settable v) (sites settable).

(** The result of the walk keeps the kind of the value. *)
Definition kind (v : goval) : nat :=
  match v with
  | VString _ => 0 | VScalar _ => 1 | VIface None => 2 | VIface (Some _) => 3
  | VPtr _ => 4 | VStruct _ => 5 | VMap _ => 6 | VSlice _ => 7 | VArray _ => 8
  end.

Lemma walk_kind (settable : bool) (v v' : goval) : wk settable v = Ok v' -> kind v' = kind v.
Proof.
  unfold wk. destruct v as [s|t|[w|]|[w|]|fs|[m|]|[l|]|l]; cbn [walk].
  1: destruct settable; [destruct (resolve_string _ _ s)|].
  all: try (intros [= <-]; done).
  all: match goal with |- rbind ?m _ = _ -> _ => destruct m; [|done] end; by intros [= <-].
Qed.

Lemma entry_ok (v : goval) :
  value_ok v -> (forall w, v = VIface (Some w) -> value_ok w) ->
  part_ok (resolve_entry namespace get_secret wk v) (site_entry sites v) (site_entry sites).
Proof.
  intros Hv Hi.
  assert (Hkind : forall w, (match w with VMap _ | VSlice _ | VStruct _ => true | _ => false end = true) ->
    value_ok w ->
    part_ok (wk true w) (sites true w) (site_entry sites) /\
    part_ok (rbind (wk true w) (fun w' => Ok (VIface (Some w')))) (sites true w) (site_entry sites)).
  { intros w Hk Hw. specialize (Hw true). unfold part_ok in *.
    pose proof (walk_kind true w) as Hkind.
    destruct (forallb site_ok (sites true w)).
    - destruct Hw as (a & Ha & Hs). specialize (Hkind a Ha). split.
      + exists a. split; [done|]. rewrite <- Hs. by destruct w, a as [| |[]| | | | |].
      + exists (VIface (Some a)). rewrite Ha. split; [done|]. rewrite <- Hs.
        by destruct w, a as [| |[]| | | | |].
    - split; [done|]. by destruct (wk true w). }
  destruct v as [s|t|[w|]|o|fs|m|l|l]; cbn [resolve_entry site_entry].
  - by apply string_ok.
  - by apply (part_ok_id _ []).
  - specialize (Hi w eq_refl). destruct w as [s|t|o|o|fs|m|l|l].
    + by apply string_ok.
    + by apply part_ok_id.
    + by apply part_ok_id.
    + by apply part_ok_id.
    + by apply Hkind.
    + by apply Hkind.
    + by apply Hkind.
    + by apply part_ok_id.
  - by apply (part_ok_id _ []).
  - by apply part_ok_id.
  - by apply Hkind.
  - by apply Hkind.
  - by apply Hkind.
  - by apply part_ok_id.
Qed.

Lemma elems_ok (settable : bool) (l : list goval) :
  Forall value_ok l ->
  part_ok (resolve_elems wk settable l) (site_elems sites settable l) (site_elems sites settable).
Proof.
  induction 1 as [|v l Hv _ IH]; [by exists []|]. cbn [resolve_elems site_elems].
  by apply (part_ok_cons _ _ _ _ _ (sites settable) (site_elems sites settable)).
Qed.

Lemma fields_ok (settable : bool) (fs : list (field * goval)) :
  Forall (fun fv => value_ok fv.2) fs ->
  part_ok (resolve_fields wk settable fs) (sites_fields sites settable fs) (sites_fields sites settable).
Proof.
  induction 1 as [|[f v] fs Hv _ IH]; [by exists []|]. cbn [resolve_fields sites_fields].
  destruct (settable && f_exported f) eqn:E.
  - apply (part_ok_cons _ _ _ _ _ (sites true) (sites_fields sites settable)); [apply Hv|done|].
    intros a b. cbn [sites_fields]. by rewrite E.
  - apply (part_ok_cons _ _ _ _ _ (fun a => dead (sites true a)) (sites_fields sites settable));
      [by apply part_ok_id|done|].
    intros a b. cbn [sites_fields]. by rewrite E.
Qed.

(** The walk of a value and, through an interface, of the value inside. *)
Definition value_ok2 (v : goval) : Prop :=
  value_ok v /\ forall w, v = VIface (Some w) -> value_ok w.

Lemma entries_ok (m : list (string * goval)) :
  Forall (fun kv => value_ok2 kv.2) m ->
  part_ok (resolve_entries namespace get_secret wk m) (site_entries sites m) (site_entries sites).
Proof.
  induction 1 as [|[k v] m [Hv Hi] _ IH]; [by exists []|]. cbn [resolve_entries site_entries].
  apply (part_ok_cons _ _ _ _ _ (site_entry sites) (site_entries sites)); [by apply entry_ok|done|done].
Qed.

Lemma walk_value_ok (v : goval) : value_ok2 v.
Proof.
  induction v as [s|t|o IH|o IH|fs IH|m IH|l IH|l IH] using goval_nested_ind;
    (split; [intros settable; unfold wk; cbn [walk sites]|]); try done.
  - destruct settable; [by apply string_ok|]. by apply (part_ok_id _ [(true, s)]).
  - by exists (VScalar t).
  - destruct o as [w|]; [|by exists (VIface None)]. apply part_ok_map, (proj1 (IH : value_ok2 w)).
  - destruct o as [w|]; [|done]. intros w' [= <-]. exact (proj1 (IH : value_ok2 w)).
  - destruct o as [w|]; [|by exists (VPtr None)]. apply part_ok_map, (proj1 (IH : value_ok2 w)).
  - apply part_ok_map, fields_ok. eapply Forall_impl; [exact IH|]. by intros ? [? _].
  - destruct m as [m|]; [|by exists (VMap None)]. apply part_ok_map, entries_ok, IH.
  - destruct l as [l|]; [|by exists (VSlice None)]. apply part_ok_map, elems_ok.
    eapply Forall_impl; [exact IH|]. by intros ? [? _].
  - apply part_ok_map, elems_ok. eapply Forall_impl; [exact IH|]. by intros ? [? _].
Qed.
End resolve_lemmas.

Definition is_placeholder (s : string) : bool :=
  match placeholder s with Some _ => true | None => false end.

Lemma existsb_dead (p : string -> bool) (l : list (bool * string)) :
  existsb (fun x => p x.2) (dead l) = existsb (fun x => p x.2) l.
Proof. induction l as [|x l IH]; [done|]. cbn. by rewrite <- IH. Qed.

(** [ContainsPlaceholder] looks at every string of the value. *)
Lemma contains_sites (v : goval) :
  (forall settable, containsPlaceholder v = existsb (fun p => is_placeholder p.2) (sites settable v)) /\
  (forall w, v = VIface (Some w) -> forall settable,
     containsPlaceholder w = existsb (fun p => is_placeholder p.2) (sites settable w)).
Proof.
  induction v as [s|t|o IH|o IH|fs IH|m IH|l IH|l IH] using goval_nested_ind;
    (split; [intros settable; cbn [containsPlaceholder sites]|]); try done.
  - simpl. unfold is_placeholder. by rewrite orb_false_r.
  - destruct o as [w|]; [|done]. destruct IH as [IH _]. apply IH.
  - destruct o as [w|]; [|done]. intros w' [= <-]. destruct IH as [IH _]. apply IH.
  - destruct o as [w|]; [|done]. destruct IH as [IH _]. apply IH.
  - induction IH as [|[f v] fs [Hv _] _ IHf]; [done|]. cbn [existsb sites_fields fst snd].
    cbn [snd] in Hv. rewrite existsb_app, IHf, (Hv true). f_equal. destruct (settable && f_exported f); [done|].
    symmetry. apply (existsb_dead is_placeholder).
  - destruct m as [m|]; [|done]. simpl in IH.
    induction IH as [|[k v] m [Hv Hi] _ IHm]; [done|]. cbn [existsb site_entries fst snd] in *.
    rewrite existsb_app, IHm. f_equal. specialize (Hv true).
    destruct v as [s|t|[w|]|o|fs|m'|l|l]; cbn [site_entry]; rewrite ?existsb_dead; try done.
    specialize (Hi w eq_refl true). change (containsPlaceholder (VIface (Some w))) with (containsPlaceholder w).
    rewrite Hi. destruct w as [s|t|o|o|fs|m'|l|l]; rewrite ?existsb_dead; try done.
  - destruct l as [l|]; [|done]. simpl in IH.
    induction IH as [|v l [Hv _] _ IHl]; [done|]. cbn [existsb site_elems].
    by rewrite existsb_app, IHl, (Hv true).
  - induction IH as [|v l [Hv _] _ IHl]; [done|]. cbn [existsb site_elems].
    by rewrite existsb_app, IHl, (Hv settable).
Qed.

Lemma all_chars_no (p : ascii -> bool) (c : ascii) (s : string) :
  all_chars p s = true -> p c = false -> str_has c s = false.
Proof.
  intros H Hc. induction s as [|d s IH]; [done|]. simpl in *. apply andb_prop in H as [Hd Hs].
  destruct (Ascii.eqb_spec d c) as [->|]; [congruence|by apply IH].
Qed.

Lemma placeholder_format (name key : string) :
  name <> "" -> key <> "" -> all_chars name_char name = true -> all_chars name_char key = true ->
  placeholder (format_placeholder name key) = Some (name, key).
Proof.
  intros Hn Hk Cn Ck. unfold placeholder, format_placeholder.
  rewrite (proj2 (has_prefix_iff _ _) (ex_intro _ _ eq_refl)), trim_prefix_app. simpl negb. cbv iota.
  assert (Heq : name +:+ "/" +:+ key +:+ "]]" = name +:+ String "/" (key +:+ String "]" "]")) by done.
  rewrite Heq, go_cut_app by (by apply (all_chars_no name_char)).
  rewrite go_cut_app by (by apply (all_chars_no name_char)).
  apply String.eqb_neq in Hn, Hk. by rewrite Hn, Hk, Cn, Ck.
Qed.

(** ** Properties *)

(** [Resolve] resolves exactly the placeholders it can reach: on a pointer
    to settings it succeeds if and only if every reachable placeholder names an
    existing secret and key, and then each reachable placeholder is replaced by
    the secret's value and every other string is unchanged; settings without a
    placeholder are returned as they are whatever the cluster holds; and
    [ContainsPlaceholder] is true exactly when some string, reachable or not,
    is a placeholder. *)
Theorem resolve_exact (ns : string) (get_secret : string -> result goerror (gmap string string)) (w : goval) :
  let rs := resolve_string ns get_secret in
  let strings := sites true w in
  match Resolve ns get_secret true (Some (VPtr (Some w))) with
  | Ok out => exists w', out = Some (VPtr (Some w')) /\
      sites true w' = (fun p : bool * string => (p.1, if p.1 then match rs p.2 with Ok r => r | Err _ => p.2 end else p.2)) <$> strings /\
      Forall (fun p : bool * string => p.1 = true -> is_ok (rs p.2) = true) strings
  | Err _ => Exists (fun p : bool * string => p.1 = true /\ is_ok (rs p.2) = false) strings
  end /\
  (containsPlaceholder w = false -> exists w', Resolve ns get_secret true (Some (VPtr (Some w))) =
     Ok (Some (VPtr (Some w'))) /\ sites true w' = strings) /\
  containsPlaceholder w = existsb (fun p => is_placeholder p.2) strings.
Proof.
  intros rs strings. destruct (walk_value_ok ns get_secret w) as [Hw _]. specialize (Hw true).
  unfold part_ok in Hw. fold strings in Hw.
  assert (Hc : containsPlaceholder w = existsb (fun p => is_placeholder p.2) strings) by apply contains_sites.
  split; [|split; [|exact Hc]].
  - cbn [Resolve negb]. destruct (forallb (site_ok ns get_secret) strings) eqn:E.
    + destruct Hw as (w' & -> & Hs). simpl. exists w'. split; [done|]. split; [exact Hs|].
      apply Forall_forall. intros p Hp Hr. rewrite forallb_forall in E.
      specialize (E p (proj1 (list_elem_of_In _ _) Hp)). unfold site_ok in E. by rewrite Hr in E.
    + destruct (walk ns get_secret true w) eqn:Ew; [done|]. simpl. apply Exists_exists.
      clear -E. induction strings as [|p l IH]; [done|]. simpl in E.
      destruct (site_ok ns get_secret p) eqn:Ep.
      * destruct (IH E) as (q & Hq & H). exists q. split; [by right|done].
      * exists p. split; [by left|]. unfold site_ok in Ep. apply orb_false_elim in Ep as [E1 E2].
        by apply negb_false_iff in E1.
  - intros Hn. rewrite Hn in Hc. symmetry in Hc.
    assert (Hid : forallb (site_ok ns get_secret) strings = true /\
                  site_step ns get_secret <$> strings = strings).
    { clear -Hc. induction strings as [|p l IH]; [done|]. csimpl in Hc. apply orb_false_elim in Hc as [Hp Hl].
      destruct (IH Hl) as [IH1 IH2]. csimpl. rewrite IH1, IH2. unfold site_ok, site_step, resolve_string.
      unfold is_placeholder in Hp. destruct p as [[] s]; cbn [fst snd negb] in *; [|done].
      by destruct (placeholder s). }
    destruct Hid as [H1 H2]. rewrite H1, H2 in Hw. destruct Hw as (w' & Hw & Hs).
    exists w'. cbn [Resolve negb]. unfold Resolve. simpl. by rewrite Hw.
Qed.

(** A placeholder that is an element of a [[]any] is never resolved:
    [Resolve] succeeds without looking it up and leaves the placeholder text in
    the settings, although [ContainsPlaceholder] sees it. *)
Theorem any_slice_unresolved (ns : string) (get_secret : string -> result goerror (gmap string string))
    (f : field) (name key : string) :
  f_exported f = true -> name <> "" -> key <> "" ->
  all_chars name_char name = true -> all_chars name_char key = true ->
  let settings := VStruct [(f, VIface (Some (VSlice (Some
                    [VIface (Some (VString (format_placeholder name key)))]))))] in
  ContainsPlaceholder (Some settings) = true /\
  Resolve ns get_secret true (Some (VPtr (Some settings))) = Ok (Some (VPtr (Some settings))).
Proof.
  intros Hf Hn Hk Cn Ck settings. unfold settings. split; cbn; [by rewrite placeholder_format|by rewrite Hf].
Qed.

Lemma any_slice_unresolved_witness :
  let settings := VStruct [(mkField "Context" true "" "" "", VIface (Some (VSlice (Some
                    [VIface (Some (VString "[[secret:db/password]]"))]))))] in
  Resolve "prod" (fun _ => Ok (<["password" := "hunter2"]> ∅)) true (Some (VPtr (Some settings))) =
    Ok (Some (VPtr (Some settings))).
Proof.
  apply (any_slice_unresolved "prod" (fun _ => Ok (<["password" := "hunter2"]> ∅))
    (mkField "Context" true "" "" "") "db" "password"); (discriminate || reflexivity).
Defined.
