(* ===== verification/Evaluator.v ===== *)
(** * Edge expressions

    [pkg/evaluator/evaluator.go]: the configuration of an edge is JSON whose
    strings may hold "{{expression}}"; evaluating it against the message gives
    the data of the target port. Parsing ([ajson.Unmarshal]), the evaluation of
    one expression (the callback) and [fmt]'s "%v" are arguments. The errors
    reported through the error callback are returned as a list. *)
From S2P Require Import Prelude GoErrors Json.

Open Scope string_scope.

Definition newline : ascii := "010".

(** The rest of a match of [exprPattern] after "{{" and one character: up to
    the first "}}", with no line feed before it. Returns the length of the
    expression's remaining text. *)
Fixpoint find_close (s : string) : option nat :=
  match s with
  | EmptyString => None
  | String c s' =>
      if go_has_prefix s "}}" then Some O
      else if Ascii.eqb c newline then None
      else S <$> find_close s'
  end.

(** [exprPattern] at the start of a string: the text between the braces. *)
Definition match_expr (s : string) : option string :=
  if negb (go_has_prefix s "{{") then None
  else match string_drop 2 s with
       | EmptyString => None
       | String c t =>
           if Ascii.eqb c newline then None
           else (fun n => String c (string_take n t)) <$> find_close t
       end.

(** [pureExprPattern]: the whole string, with no line feed inside. *)
Definition pure_expr (s : string) : option string :=
  if go_has_prefix s "{{" && go_has_suffix (string_drop 2 s) "}}"
  then let inner := string_take (String.length s - 4) (string_drop 2 s) in
       if (inner =? "") || str_has newline inner then None else Some inner
  else None.

(** [exprPattern.MatchString]. *)
Fixpoint has_expr (s : string) : bool :=
  match match_expr s with
  | Some _ => true
  | None => match s with EmptyString => false | String _ s' => has_expr s' end
  end.

Section evaluator.
  Variable callback : string -> result goerror json.
  Variable sprint : json -> string.
  Abbreviation errors := (list (string * goerror)).

(** [ReplaceAllStringFunc]: [skip] counts the remaining bytes of a match. *)
Fixpoint interpolate (skip : nat) (s : string) : string * errors :=
  match s with
  | EmptyString => (EmptyString, [])
  | String c s' =>
      match skip with
      | S n => interpolate n s'
      | O =>
          match match_expr s with
          | None => let '(out, errs) := interpolate 0 s' in (String c out, errs)
          | Some inner =>
              let expr := go_trim_space inner in
              let '(out, errs) := interpolate (String.length inner + 3) s' in
              match callback expr with
              | Err e => ("{{" +:+ inner +:+ "}}" +:+ out, (expr, e) :: errs)
              | Ok JNull => (out, errs)
              | Ok val => (sprint val +:+ out, errs)
              end
          end
      end
  end.

Definition evaluateString (str : string) : json * errors :=
  match pure_expr str with
  | Some inner =>
      let expr := go_trim_space inner in
      match callback expr with
      | Err e => (JNull, [(expr, e)])
      | Ok result => (result, [])
      end
  | None =>
      if negb (has_expr str) then (JStr str, [])
      else let '(out, errs) := interpolate 0 str in (JStr out, errs)
  end.

Fixpoint calculateResult (valNode : json) : json * errors :=
  match valNode with
  | JStr s => evaluateString s
  | JObj m =>
      let rs := map (fun kv => (kv.1, calculateResult kv.2)) m in
      (JObj (map (fun r => (r.1, r.2.1)) rs), flat_map (fun r => r.2.2) rs)
  | JArr l =>
      let rs := map calculateResult l in (JArr (map fst rs), flat_map snd rs)
  | v => (v, [])
  end.

Definition Eval (unmarshal : string -> result goerror json) (data : string)
    : result goerror (json * errors) :=
  match unmarshal data with
  | Err e => Err e
  | Ok (JObj m) => Ok (calculateResult (JObj m))
  | Ok _ => Err (ErrorString "node is not an object")
  end.

End evaluator.

(** ** Lemmas *)

(** Evaluate a value without any expression: no string has a match. *)
Fixpoint no_exprs (v : json) : bool :=
  match v with
  | JStr s => negb (has_expr s)
  | JObj m => forallb (fun kv => no_exprs kv.2) m
  | JArr l => forallb no_exprs l
  | _ => true
  end.

(** A template: literals, each followed by an expression, and a last literal. *)
Fixpoint template (parts : list (string * string)) (tail : string) : string :=
  match parts with
  | [] => tail
  | (lit, expr) :: parts' => lit +:+ "{{" +:+ expr +:+ "}}" +:+ template parts' tail
  end.

(** What a template is rendered to, expression by expression. *)
Fixpoint render (callback : string -> result goerror json) (sprint : json -> string)
    (parts : list (string * string)) (tail : string) : string * list (string * goerror) :=
  match parts with
  | [] => (tail, [])
  | (lit, expr) :: parts' =>
      let e := go_trim_space expr in
      let '(out, errs) := render callback sprint parts' tail in
      match callback e with
      | Err err => (lit +:+ "{{" +:+ expr +:+ "}}" +:+ out, (e, err) :: errs)
      | Ok JNull => (lit +:+ out, errs)
      | Ok val => (lit +:+ sprint val +:+ out, errs)
      end
  end.

(** Literals without "{", expressions without "}" and line feed, not empty. *)
Definition part_wf (p : string * string) : bool :=
  negb (str_has "{" p.1) && negb (str_has "}" p.2) && negb (str_has newline p.2) && negb (p.2 =? "").

Lemma find_close_here (r : string) : find_close ("}}" +:+ r) = Some O.
Proof. by destruct r. Qed.

Lemma find_close_app (t r : string) :
  str_has "}" t = false -> str_has newline t = false ->
  find_close (t +:+ "}}" +:+ r) = Some (String.length t).
Proof.
  induction t as [|c t IH]; intros H1 H2; [apply find_close_here|].
  rewrite str_app_cons. simpl in H1, H2. cbn [find_close].
  destruct (Ascii.eqb c "}") eqn:E1; [done|]. destruct (Ascii.eqb c newline) eqn:E2; [done|].
  assert (Hp : go_has_prefix (String c (t +:+ "}}" +:+ r)) "}}" = false).
  { apply Ascii.eqb_neq in E1. unfold go_has_prefix. cbn [String.prefix].
    destruct (ascii_dec "}" c); [congruence|done]. }
  rewrite Hp, IH by done. done.
Qed.

Lemma match_expr_app (e r : string) :
  e <> "" -> str_has "}" e = false -> str_has newline e = false ->
  match_expr ("{{" +:+ e +:+ "}}" +:+ r) = Some e.
Proof.
  intros Hne H1 H2. unfold match_expr.
  rewrite (proj2 (has_prefix_iff _ _) (ex_intro _ _ eq_refl)). cbn [negb].
  change (string_drop 2 ("{{" +:+ e +:+ "}}" +:+ r)) with (e +:+ "}}" +:+ r).
  destruct e as [|c t]; [done|]. rewrite str_app_cons. simpl in H1, H2.
  destruct (Ascii.eqb c "}"); [done|]. destruct (Ascii.eqb c newline) eqn:E; [done|].
  rewrite find_close_app by done. cbn. by rewrite string_take_app.
Qed.

Lemma match_expr_no_brace (c : ascii) (s : string) :
  Ascii.eqb c "{" = false -> match_expr (String c s) = None.
Proof.
  intros H%Ascii.eqb_neq. unfold match_expr, go_has_prefix. cbn [String.prefix].
  destruct (ascii_dec "{" c); [congruence|done].
Qed.

Lemma match_expr_singleton (s : string) : str_has "{" s = false -> match_expr (String "{" s) = None.
Proof.
  intros H. unfold match_expr, go_has_prefix. destruct s as [|c s]; [done|]. simpl in H.
  destruct (Ascii.eqb c "{") eqn:E; [done|]. apply Ascii.eqb_neq in E. cbn [String.prefix].
  destruct (ascii_dec "{" "{"); [|done]. by destruct (ascii_dec "{" c).
Qed.

Section evaluator_lemmas.
  Variable callback : string -> result goerror json.
  Variable sprint : json -> string.

Lemma interpolate_lit (lit r : string) :
  str_has "{" lit = false ->
  interpolate callback sprint 0 (lit +:+ r) =
    (lit +:+ (interpolate callback sprint 0 r).1, (interpolate callback sprint 0 r).2).
Proof.
  induction lit as [|c lit IH]; intros H.
  - rewrite !str_app_nil_l. by destruct (interpolate _ _ 0 r).
  - rewrite !str_app_cons. simpl in H. destruct (Ascii.eqb c "{") eqn:E; [done|].
    cbn [interpolate]. rewrite match_expr_no_brace by done. rewrite IH by done.
    by destruct (interpolate _ _ 0 r).
Qed.

Lemma interpolate_skip (m r : string) :
  interpolate callback sprint (String.length m) (m +:+ r) = interpolate callback sprint 0 r.
Proof. induction m as [|c m IH]; [by rewrite str_app_nil_l|]. rewrite str_app_cons. exact IH. Qed.

Lemma interpolate_template (parts : list (string * string)) (tail : string) :
  forallb part_wf parts = true -> has_expr tail = false ->
  interpolate callback sprint 0 (template parts tail) = render callback sprint parts tail.
Proof.
  intros Hp Ht. induction parts as [|[lit e] parts IH].
  - cbn [template render]. induction tail as [|c s IHs]; [done|]. cbn [has_expr interpolate] in *.
    destruct (match_expr (String c s)); [done|]. by rewrite IHs.
  - cbn [forallb] in Hp. apply andb_prop in Hp as [Hw Hp]. specialize (IH Hp).
    unfold part_wf in Hw. cbn [fst snd] in Hw. rewrite !andb_true_iff, !negb_true_iff in Hw.
    destruct Hw as [[[H1 H2] H3] H4%String.eqb_neq]. cbn [template render].
    rewrite interpolate_lit by done.
    set (rest := template parts tail) in *.
    assert (Hi : interpolate callback sprint 0 ("{{" +:+ e +:+ "}}" +:+ rest) =
      let '(out, errs) := interpolate callback sprint 0 rest in
      match callback (go_trim_space e) with
      | Err err => ("{{" +:+ e +:+ "}}" +:+ out, (go_trim_space e, err) :: errs)
      | Ok JNull => (out, errs)
      | Ok val => (sprint val +:+ out, errs)
      end).
    { change ("{{" +:+ e +:+ "}}" +:+ rest) with (String "{" ("{" +:+ e +:+ "}}" +:+ rest)) at 1.
      cbn [interpolate]. change (String "{" ("{" +:+ e +:+ "}}" +:+ rest)) with ("{{" +:+ e +:+ "}}" +:+ rest).
      rewrite match_expr_app by done.
      assert (Hs : interpolate callback sprint (String.length e + 3) ("{" +:+ e +:+ "}}" +:+ rest) =
                   interpolate callback sprint 0 rest).
      { replace (String.length e + 3)%nat with (String.length ("{" +:+ e +:+ "}}"))
          by (rewrite !str_length_app; simpl; lia).
        rewrite <- interpolate_skip with (m := "{" +:+ e +:+ "}}"). by rewrite !str_app_assoc. }
      by rewrite Hs. }
    rewrite Hi, IH. destruct (render callback sprint parts tail) as [out errs].
    by destruct (callback (go_trim_space e)) as [[]|].
Qed.

Lemma has_expr_app (lit r : string) : has_expr r = true -> has_expr (lit +:+ r) = true.
Proof.
  intros H. induction lit as [|c lit IH]; [done|]. rewrite str_app_cons. cbn [has_expr].
  by destruct (match_expr _).
Qed.

Lemma has_expr_template (lit e r : string) :
  part_wf (lit, e) = true -> has_expr (lit +:+ "{{" +:+ e +:+ "}}" +:+ r) = true.
Proof.
  unfold part_wf. cbn [fst snd]. rewrite !andb_true_iff, !negb_true_iff.
  intros [[[H1 H2] H3] H4%String.eqb_neq]. apply has_expr_app.
  destruct ("{{" +:+ e +:+ "}}" +:+ r) eqn:E; [done|]. cbn [has_expr]. rewrite <- E.
  by rewrite match_expr_app.
Qed.

Lemma pure_expr_intro (inner : string) :
  inner <> "" -> str_has newline inner = false -> pure_expr ("{{" +:+ inner +:+ "}}") = Some inner.
Proof.
  intros Hne Hn. unfold pure_expr.
  rewrite (proj2 (has_prefix_iff _ _) (ex_intro _ _ eq_refl)).
  change (string_drop 2 ("{{" +:+ inner +:+ "}}")) with (inner +:+ "}}").
  rewrite (proj2 (has_suffix_iff _ _) (ex_intro _ inner eq_refl)). cbn [andb].
  rewrite !str_length_app. change (String.length "{{") with 2%nat. change (String.length "}}") with 2%nat.
  replace (2 + (String.length inner + 2) - 4)%nat with (String.length inner) by lia.
  rewrite string_take_app, Hn. by apply String.eqb_neq in Hne as ->.
Qed.

Lemma find_close_some (t r : string) :
  str_has newline t = false -> find_close (t +:+ "}}" +:+ r) <> None.
Proof.
  induction t as [|c t IH]; intros H; [by rewrite str_app_nil_l, find_close_here|].
  rewrite str_app_cons. simpl in H. cbn [find_close].
  destruct (Ascii.eqb c newline) eqn:E; [done|].
  destruct (go_has_prefix _ "}}"); [done|]. specialize (IH H). by destruct (find_close _).
Qed.

Lemma pure_expr_has (s inner : string) : pure_expr s = Some inner -> has_expr s = true.
Proof.
  unfold pure_expr. destruct (go_has_prefix s "{{") eqn:E1; [|done].
  destruct (go_has_suffix (string_drop 2 s) "}}") eqn:E2; [|done]. cbn [andb].
  apply has_prefix_iff in E1 as [r ->].
  change (string_drop 2 ("{{" +:+ r)) with r in *. apply has_suffix_iff in E2 as [t ->].
  rewrite !str_length_app. change (String.length "{{") with 2%nat. change (String.length "}}") with 2%nat.
  replace (2 + (String.length t + 2) - 4)%nat with (String.length t) by lia. rewrite string_take_app.
  destruct (t =? "") eqn:Et; [done|]. destruct (str_has newline t) eqn:En; [done|]. intros _.
  destruct ("{{" +:+ t +:+ "}}") eqn:Es; [done|]. cbn [has_expr]. rewrite <- Es.
  assert (Hm : match_expr ("{{" +:+ t +:+ "}}") <> None).
  { unfold match_expr. rewrite (proj2 (has_prefix_iff _ _) (ex_intro _ _ eq_refl)). cbn [negb].
    change (string_drop 2 ("{{" +:+ t +:+ "}}")) with (t +:+ "}}").
    destruct t as [|c t]; [done|]. rewrite str_app_cons. simpl in En.
    destruct (Ascii.eqb c newline); [done|].
    pose proof (find_close_some t "" En) as Hf. rewrite str_app_nil_r in Hf. by destruct (find_close _). }
  by destruct (match_expr _).
Qed.

(** A value without expressions evaluates to itself, and nothing is called. *)
Lemma calculate_no_exprs (v : json) :
  no_exprs v = true -> calculateResult callback sprint v = (v, []).
Proof.
  induction v as [|b|n|s|l IH|m IH] using json_nested_ind; try done.
  - simpl. intros H%negb_true_iff. unfold evaluateString.
    destruct (pure_expr s) as [inner|] eqn:E; [apply pure_expr_has in E; congruence|]. by rewrite H.
  - cbn [no_exprs calculateResult]. intros H.
    assert (Hl : map (calculateResult callback sprint) l = map (fun v => (v, [])) l).
    { induction IH as [|x l Hx _ IHl]; [done|]. cbn in *. apply andb_prop in H as [H1 H2].
      by rewrite Hx, IHl. }
    rewrite Hl. clear. f_equal.
    + f_equal. induction l as [|x l IH]; [done|]. simpl. by f_equal.
    + induction l as [|x l IH]; [done|]. exact IH.
  - cbn [no_exprs calculateResult]. intros H.
    assert (Hl : map (fun kv => (kv.1, calculateResult callback sprint kv.2)) m =
                 map (fun kv => (kv.1, (kv.2, []))) m).
    { induction IH as [|[k x] m Hx _ IHl]; [done|]. cbn in *. apply andb_prop in H as [H1 H2].
      by rewrite Hx, IHl. }
    rewrite Hl. clear. f_equal.
    + f_equal. induction m as [|[k x] m IH]; [done|]. simpl. by f_equal.
    + induction m as [|x m IH]; [done|]. exact IH.
Qed.
End evaluator_lemmas.

(** ** Properties *)

(** Interpolation: a string that mixes literals and expressions (and is not
    itself "{{...}}") evaluates to the string with each expression replaced, in
    order, by its printed value: nothing for a null, and the expression's own
    text where it fails, with exactly the failures reported. Adjoining text is
    never changed. *)
Theorem evaluate_template (callback : string -> result goerror json) (sprint : json -> string)
    (parts : list (string * string)) (tail : string) :
  parts <> [] -> forallb part_wf parts = true -> has_expr tail = false ->
  pure_expr (template parts tail) = None ->
  evaluateString callback sprint (template parts tail) =
    let '(out, errs) := render callback sprint parts tail in (JStr out, errs).
Proof.
  intros Hne Hp Ht Hpure. unfold evaluateString. rewrite Hpure.
  assert (Hh : has_expr (template parts tail) = true).
  { destruct parts as [|[lit e] parts]; [done|]. cbn [template]. apply has_expr_template.
    cbn [forallb] in Hp. by apply andb_prop in Hp as [? _]. }
  rewrite Hh. cbn [negb]. by rewrite interpolate_template.
Qed.

Lemma evaluate_template_witness :
  let callback e := if e =? "$.name" then Ok (JStr "Ada") else Err (ErrorString "no such path") in
  let sprint v := match v with JStr s => s | _ => "" end in
  evaluateString callback sprint "Hi {{ $.name }}, {{$.x}}!" =
    (JStr "Hi Ada, {{$.x}}!", [("$.x", ErrorString "no such path")]).
Proof.
  intros callback sprint.
  exact (evaluate_template callback sprint [("Hi ", " $.name "); (", ", "$.x")] "!"
    ltac:(discriminate) eq_refl eq_refl eq_refl).
Defined.

(** Two expressions at the two ends of a string are read as one: the text
    from the first "{{" to the last "}}" is evaluated as a single expression,
    and when that fails the whole value becomes null, although each expression
    alone may succeed. *)
Theorem two_expressions_read_as_one (callback : string -> result goerror json) (sprint : json -> string)
    (a mid b : string) :
  str_has newline (a +:+ mid +:+ b) = false ->
  let between := a +:+ "}}" +:+ mid +:+ "{{" +:+ b in
  evaluateString callback sprint ("{{" +:+ a +:+ "}}" +:+ mid +:+ "{{" +:+ b +:+ "}}") =
    match callback (go_trim_space between) with
    | Ok v => (v, [])
    | Err e => (JNull, [(go_trim_space between, e)])
    end.
Proof.
  intros Hn between. unfold evaluateString.
  assert (Heq : "{{" +:+ a +:+ "}}" +:+ mid +:+ "{{" +:+ b +:+ "}}" = "{{" +:+ between +:+ "}}").
  { unfold between. by rewrite !str_app_assoc. }
  rewrite Heq, pure_expr_intro; [by destruct (callback _)| |].
  - unfold between. by destruct a.
  - unfold between. rewrite !str_has_app in *. apply orb_false_elim in Hn as [-> Hn].
    apply orb_false_elim in Hn as [-> ->]. done.
Qed.

Lemma two_expressions_read_as_one_witness :
  let callback e := if (e =? "$.a") || (e =? "$.b") then Ok (JStr "x")
                    else Err (ErrorString "bad expression") in
  evaluateString callback (fun _ => "x") "{{$.a}}-{{$.b}}" =
    (JNull, [("$.a}}-{{$.b", ErrorString "bad expression")]).
Proof.
  intros callback.
  exact (two_expressions_read_as_one callback (fun _ => "x") "$.a" "-" "$.b" eq_refl).
Defined.
