(* ===== verification/Backoff.v ===== *)
(** * Retry delays

    [backoffDelay] ([internal/scheduler/runner/runner.go]): the wait between
    two attempts over an edge. A [time.Duration] is an int64 of nanoseconds,
    with wrap-around; the growth is float64 arithmetic (binary64, with
    [SpecFloat]). Two things of the platform are arguments: [strconv.ParseFloat]
    and what a conversion of a float64 outside the int64 range gives, which Go
    leaves to the implementation (amd64: the smallest int64). *)
From S2P Require Import Prelude GoErrors Names Graph.
From Stdlib Require Import SpecFloat.

Open Scope Z_scope.

Abbreviation float64 := spec_float.
Abbreviation prec64 := 53%Z.
Abbreviation emax64 := 1024%Z.

(** Wrap-around of a 64 bit signed integer. *)
Definition wrap64 (z : Z) : Z := (z + 2 ^ 63) mod 2 ^ 64 - 2 ^ 63.

(** [float64(n)]: rounded to nearest even. *)
Definition float_of_int (n : Z) : float64 := binary_normalize prec64 emax64 n 0 false.

Definition float_mul (a b : float64) : float64 := SFmul prec64 emax64 a b.

(** The integer part, for a finite float. *)
Definition float_trunc (f : float64) : option Z :=
  match f with
  | S754_zero _ => Some 0
  | S754_finite s m e =>
      let a := if (0 <=? e) then Z.pos m * 2 ^ e else Z.pos m / 2 ^ (- e) in
      Some (if s then - a else a)
  | S754_infinity _ | S754_nan => None
  end.

Definition Second : Z := 1000000000.
Definition Millisecond : Z := 1000000.

Section backoff.
  Variable parse_float : string -> option float64.
  Variable out_of_range : float64 -> Z.

(** [time.Duration(d)]. *)
Definition duration_of_float (f : float64) : Z :=
  match float_trunc f with
  | Some z => if in_int64 z then z else out_of_range f
  | None => out_of_range f
  end.

(** [for i := 1; i < attempt; i++ { d *= coefficient }]. *)
Fixpoint grow (n : nat) (d coefficient : float64) : float64 :=
  match n with O => d | S n' => grow n' (float_mul d coefficient) coefficient end.

Definition initial_delay (policy : option EdgeRetryPolicy) : Z :=
  match policy with
  | Some p => if 0 <? InitialDelayMs p then wrap64 (InitialDelayMs p * Millisecond) else Second
  | None => Second
  end.

Definition max_delay (policy : option EdgeRetryPolicy) : Z :=
  match policy with
  | Some p => if 0 <? MaxDelayMs p then wrap64 (MaxDelayMs p * Millisecond) else 30 * Second
  | None => 30 * Second
  end.

(** "v >= 1.0" is false of a NaN. *)
Definition float_ge_one (f : float64) : bool := SFleb (float_of_int 1) f.

Definition backoff_coefficient (policy : option EdgeRetryPolicy) : float64 :=
  match policy with
  | Some p =>
      if (BackoffCoefficient p =? "")%string then float_of_int 2
      else match parse_float (BackoffCoefficient p) with
           | Some v => if float_ge_one v then v else float_of_int 2
           | None => float_of_int 2
           end
  | None => float_of_int 2
  end.

Definition backoffDelay (policy : option EdgeRetryPolicy) (attempt : nat) : Z :=
  let d := grow (attempt - 1) (float_of_int (initial_delay policy)) (backoff_coefficient policy) in
  if max_delay policy <? duration_of_float d then max_delay policy
  else duration_of_float d.

End backoff.

(** ** Properties *)

(** The default schedule: without a policy the wait before attempt n+1 is
    exactly 1s doubled n-1 times, capped at 30s (float64 rounds nothing), for
    every attempt as long as the doubled delay is an int64; and under every
    policy the wait never exceeds the policy's cap. *)
Theorem default_backoff_schedule (parse_float : string -> option float64)
    (out_of_range : float64 -> Z) (n : nat) :
  ((1 <= n <= 34)%nat ->
     backoffDelay parse_float out_of_range None n = Z.min (Second * 2 ^ (Z.of_nat n - 1)) (30 * Second)) /\
  forall policy, backoffDelay parse_float out_of_range policy n <= max_delay policy.
Proof.
  split.
  - intros Hn. destruct n as [|n]; [lia|]. do 34 (destruct n as [|n]; [reflexivity|]). lia.
  - intros policy. unfold backoffDelay.
    destruct (Z.ltb_spec (max_delay policy) (duration_of_float out_of_range
      (grow (n - 1) (float_of_int (initial_delay policy)) (backoff_coefficient parse_float policy)))); lia.
Qed.

(** The cap is applied after the conversion: where the conversion of an
    overflowing float gives the smallest int64 (amd64), the wait is negative,
    so retries run back to back. *)
Lemma backoff_overflow_negative :
  let big := SFdiv prec64 emax64 (float_of_int (10 ^ 200)) (float_of_int 1) in
  let policy := mkPolicy 3 1000 "1e200" 30000 [] 0 in
  backoffDelay (fun s => if (s =? "1e200")%string then Some big else None) (fun _ => min_int64)
    (Some policy) 3 = min_int64.
Proof. vm_compute. reflexivity. Qed.
