(* ===== verification/Functions.v ===== *)
(** * Functions of the expression language

    [pkg/evaluator/functions.go]: what plus and minus do on text that reads as a
    time or a duration, and the functions [now], [RFC3339] and [string]. The
    expression library calls them with its nodes, here JSON values; times are
    the class [GoTime], durations are parsed as [time.ParseDuration] does, in
    nanoseconds. Floats are written by [show]. *)
From S2P Require Import Prelude GoErrors Json Backoff.
From Stdlib Require Import SpecFloat.

Open Scope string_scope.

(** ** Durations *)

Definition max_count : Z := (2 ^ 63)%Z.

(** [leadingInt]: none where it overflows. *)
Fixpoint leadingInt (x : Z) (s : string) : option (Z * string) :=
  match s with
  | String c s' =>
      if is_digit c then
        if (max_count / 10 <? x)%Z then None
        else let x' := (x * 10 + (Z.of_N (N_of_ascii c) - 48))%Z in if (max_count <? x')%Z then None else leadingInt x' s'
      else Some (x, s)
  | EmptyString => Some (x, s)
  end.

(** [leadingFraction]: the digits that fit, and the power of ten they are over. *)
Fixpoint leadingFraction (x scale : Z) (overflow : bool) (s : string) : Z * Z * string :=
  match s with
  | String c s' =>
      if is_digit c then
        if overflow then leadingFraction x scale true s'
        else if ((max_count - 1) / 10 <? x)%Z then leadingFraction x scale true s'
        else let y := (x * 10 + (Z.of_N (N_of_ascii c) - 48))%Z in
             if (max_count <? y)%Z then leadingFraction x scale true s' else leadingFraction y (scale * 10)%Z false s'
      else (x, scale, s)
  | EmptyString => (x, scale, s)
  end.

(** Up to the next point or digit. *)
Fixpoint take_unit (s : string) : string * string :=
  match s with
  | String c s' => if (c =? ".")%char || is_digit c then ("", s) else let '(u, r) := take_unit s' in (String c u, r)
  | EmptyString => ("", "")
  end.

Definition micro (b1 b2 : nat) : string := String (ascii_of_nat b1) (String (ascii_of_nat b2) "s").

Definition unit_of (u : string) : option Z :=
  if u =? "ns" then Some 1%Z
  else if (u =? "us") || (u =? micro 194 181) || (u =? micro 206 188) then Some 1000%Z
  else if u =? "ms" then Some Millisecond
  else if u =? "s" then Some Second
  else if u =? "m" then Some (60 * Second)%Z
  else if u =? "h" then Some (3600 * Second)%Z
  else None.

(** The part of a unit that a fraction is, cut to an integer. *)
Definition fraction_of (f scale unit : Z) : Z :=
  default 0%Z (float_trunc (float_mul (float_of_int f) (SFdiv 53 1024 (float_of_int unit) (float_of_int scale)))).

(** One number with its unit. *)
Definition duration_part (s : string) : option (Z * string) :=
  match leadingInt 0 s with
  | None => None
  | Some (v, s1) =>
      let pre := negb (String.length s =? String.length s1)%nat in
      let '(f, scale, s2, post) := match s1 with
        | String "." s' => let '(f, scale, s2) := leadingFraction 0 1 false s' in (f, scale, s2, negb (String.length s' =? String.length s2)%nat)
        | _ => (0%Z, 1%Z, s1, false)
        end in
      if negb pre && negb post then None
      else
        let '(u, s3) := take_unit s2 in
        match unit_of u with
        | None => None
        | Some unit =>
            if (max_count / unit <? v)%Z then None
            else
              let v := (v * unit)%Z in
              let v := if (0 <? f)%Z then (v + fraction_of f scale unit)%Z else v in
              if (max_count <? v)%Z then None else Some (v, s3)
        end
  end.

Fixpoint duration_parts (fuel : nat) (d : Z) (s : string) : option Z :=
  match s with
  | EmptyString => Some d
  | String _ _ =>
      match fuel with
      | O => None
      | S fuel' =>
          match duration_part s with
          | None => None
          | Some (v, s') => if (max_count <? d + v)%Z then None else duration_parts fuel' (d + v) s'
          end
      end
  end.

Definition ParseDuration (s : string) : option Z :=
  let '(neg, s1) := match s with String "-" r => (true, r) | String "+" r => (false, r) | _ => (false, s) end in
  if s1 =? "0" then Some 0%Z
  else if s1 =? "" then None
  else match duration_parts (String.length s1) 0 s1 with
       | None => None
       | Some d => if neg then Some (- d)%Z else if (max_count - 1 <? d)%Z then None else Some d
       end.

Example durations :
  map ParseDuration ["1h30m"; "-1.5s"; "100ms"; "0"; ""; "5"; "1d"; "."; "9223372036854775807ns"; "9223372036854775808ns"; "-9223372036854775808ns"; "1h2"] =
  [Some (5400 * Second)%Z; Some (-1500000000)%Z; Some (100 * Millisecond)%Z; Some 0%Z; None; None; None; None; Some (2 ^ 63 - 1)%Z; None; Some (- 2 ^ 63)%Z; None].
Proof. vm_compute. reflexivity. Qed.

(** Each part is longer than nothing, so the length is fuel enough. *)
Lemma leading_int_shorter (s s' : string) (x v : Z) : leadingInt x s = Some (v, s') -> (String.length s' <= String.length s)%nat.
Proof.
  revert x. induction s as [|c s IH]; intros x; cbn [leadingInt]; [intros [= _ <-]; done|].
  destruct (is_digit c); [|intros [= _ <-]; done]. destruct (_ <? _)%Z; [done|]. cbv zeta. destruct (_ <? _)%Z; [done|].
  intros H%IH. cbn. lia.
Qed.

Lemma leading_fraction_shorter (s s' : string) (x k f scale : Z) (o : bool) :
  leadingFraction x k o s = (f, scale, s') -> (String.length s' <= String.length s)%nat.
Proof.
  revert x k o. induction s as [|c s IH]; intros x k o; cbn [leadingFraction]; [intros [= _ _ <-]; done|].
  destruct (is_digit c); [|intros [= _ _ <-]; done]. destruct o; [intros H%IH; cbn; lia|].
  destruct (_ <? _)%Z; [intros H%IH; cbn; lia|]. cbv zeta. destruct (_ <? _)%Z; intros H%IH; cbn; lia.
Qed.

Lemma take_unit_length (s u r : string) : take_unit s = (u, r) -> (String.length u + String.length r = String.length s)%nat.
Proof.
  revert u r. induction s as [|c s IH]; intros u r; cbn [take_unit]; [by intros [= <- <-]|].
  destruct (_ || _); [by intros [= <- <-]|]. destruct (take_unit s) as [u' r']. intros [= <- <-]. cbn. f_equal. by apply IH.
Qed.

Lemma duration_part_shorter (s s' : string) (v : Z) : duration_part s = Some (v, s') -> (String.length s' < String.length s)%nat.
Proof.
  unfold duration_part. destruct (leadingInt 0 s) as [[n s1]|] eqn:E1; [|done]. apply leading_int_shorter in E1.
  assert (Hs2 : exists f scale s2 post, match s1 with
      | String "." s' => let '(f, scale, s2) := leadingFraction 0 1 false s' in (f, scale, s2, negb (String.length s' =? String.length s2)%nat)
      | _ => (0%Z, 1%Z, s1, false) end = (f, scale, s2, post) /\ (String.length s2 <= String.length s1)%nat).
  { destruct s1 as [|c r]; [by eexists _, _, _, _|]. destruct (leadingFraction 0 1 false r) as [[f scale] s2] eqn:Ef.
    apply leading_fraction_shorter in Ef. destruct c as [[] [] [] [] [] [] [] []]; try (by eexists _, _, _, _).
    rewrite ?Ef. eexists _, _, _, _. split; [reflexivity|]. cbn. lia. }
  destruct Hs2 as (f & scale & s2 & post & -> & Hs2). destruct (_ && _); [done|].
  destruct (take_unit s2) as [u s3] eqn:Eu. apply take_unit_length in Eu. destruct u as [|c u]; [done|].
  destruct (unit_of _) as [unit|]; [|done]. destruct (_ <? _)%Z; [done|]. cbv zeta. destruct (max_count <? _)%Z; [done|]. intros [= _ <-].
  cbn in Eu. lia.
Qed.

Lemma duration_parts_fuel (fuel : nat) (d : Z) (s : string) : (String.length s <= fuel)%nat ->
  duration_parts fuel d s = duration_parts (String.length s) d s.
Proof.
  revert fuel d. induction s as [s IH] using (well_founded_induction (Wf_nat.well_founded_ltof _ String.length)). intros fuel d Hf.
  destruct s as [|c s]; [by destruct fuel|]. destruct fuel as [|fuel]; [cbn in Hf; lia|]. cbn [duration_parts String.length].
  destruct (duration_part (String c s)) as [[v s']|] eqn:E; [|done]. apply duration_part_shorter in E. cbn in E, Hf.
  destruct (_ <? _)%Z; [done|]. rewrite (IH s') by (unfold Wf_nat.ltof; cbn; lia). symmetry. apply IH; [unfold Wf_nat.ltof; cbn; lia|lia].
Qed.

(** Floats without a minus. *)
Definition unsigned (f : spec_float) : Prop :=
  match f with S754_zero s | S754_infinity s | S754_finite s _ _ => s = false | S754_nan => True end.

Lemma round_aux_unsigned (mx ex : Z) (lx : location) : unsigned (binary_round_aux 53 1024 false mx ex lx).
Proof.
  unfold binary_round_aux. destruct (shr_fexp _ _ _ _ _) as [mrs e]. destruct (shr_fexp _ _ _ _ _) as [mrs' e'].
  destruct (shr_m mrs'); try done. by case_match.
Qed.

Lemma float_of_int_unsigned (n : Z) : (0 <= n)%Z -> unsigned (float_of_int n).
Proof.
  intros Hn. unfold float_of_int, binary_normalize. destruct n as [|p|p]; [done| |lia]. unfold binary_round.
  case_match. apply round_aux_unsigned.
Qed.

Lemma mul_unsigned (a b : spec_float) : unsigned a -> unsigned b -> unsigned (float_mul a b).
Proof.
  unfold float_mul, SFmul. destruct a as [sa|sa| |sa ma ea], b as [sb|sb| |sb mb eb]; cbn; try done; intros -> ->; try done.
  apply round_aux_unsigned.
Qed.

Lemma div_unsigned (a b : spec_float) : unsigned a -> unsigned b -> unsigned (SFdiv 53 1024 a b).
Proof.
  unfold SFdiv. destruct a as [sa|sa| |sa ma ea], b as [sb|sb| |sb mb eb]; cbn; try done; intros -> ->; try done.
  destruct (SFdiv_core_binary _ _ _ _ _ _) as [[mz ez] lz]. apply round_aux_unsigned.
Qed.

Lemma fraction_nonneg (f scale unit : Z) : (0 <= f)%Z -> (0 <= scale)%Z -> (0 <= unit)%Z -> (0 <= fraction_of f scale unit)%Z.
Proof.
  intros Hf Hs Hu. unfold fraction_of.
  assert (H : unsigned (float_mul (float_of_int f) (SFdiv 53 1024 (float_of_int unit) (float_of_int scale)))).
  { apply mul_unsigned; [by apply float_of_int_unsigned|]. apply div_unsigned; by apply float_of_int_unsigned. }
  destruct (float_mul _ _) as [s|s| |s m e]; cbn in *; try lia. subst s. destruct (Z.leb_spec 0 e).
  - apply Z.mul_nonneg_nonneg; [lia|]. apply Z.pow_nonneg. lia.
  - apply Z.div_pos; [lia|]. apply Z.pow_pos_nonneg; lia.
Qed.

Lemma digit_value (c : ascii) : is_digit c = true -> (0 <= Z.of_N (N_of_ascii c) - 48)%Z.
Proof. unfold is_digit, in_range. rewrite andb_true_iff, !N.leb_le. intros [H _]. change (N_of_ascii "0") with 48%N in H. lia. Qed.

Lemma leading_int_nonneg (s s' : string) (x v : Z) : (0 <= x)%Z -> leadingInt x s = Some (v, s') -> (0 <= v)%Z.
Proof.
  revert x. induction s as [|c s IH]; intros x Hx; cbn [leadingInt]; [by intros [= <- _]|].
  destruct (is_digit c) eqn:Ec; [|by intros [= <- _]]. destruct (_ <? _)%Z; [done|]. cbv zeta. destruct (_ <? _)%Z; [done|].
  apply IH. apply digit_value in Ec. lia.
Qed.

Lemma leading_fraction_nonneg (s s' : string) (x k f scale : Z) (o : bool) :
  (0 <= x)%Z -> (0 <= k)%Z -> leadingFraction x k o s = (f, scale, s') -> (0 <= f)%Z /\ (0 <= scale)%Z.
Proof.
  revert x k o. induction s as [|c s IH]; intros x k o Hx Hk; cbn [leadingFraction]; [by intros [= <- <- _]|].
  destruct (is_digit c) eqn:Ec; [|by intros [= <- <- _]]. apply digit_value in Ec. destruct o; [by apply IH|].
  destruct (_ <? _)%Z; [by apply IH|]. cbv zeta. destruct (_ <? _)%Z; [by apply IH|]. apply IH; lia.
Qed.

Lemma unit_positive (u : string) (n : Z) : unit_of u = Some n -> (0 < n)%Z.
Proof. unfold unit_of. repeat case_match; intros [= <-]; done. Qed.

Lemma duration_part_nonneg (s s' : string) (v : Z) : duration_part s = Some (v, s') -> (0 <= v)%Z.
Proof.
  unfold duration_part. destruct (leadingInt 0 s) as [[n s1]|] eqn:E1; [|done]. apply leading_int_nonneg in E1; [|done].
  assert (Hs2 : exists f scale s2 post, match s1 with
      | String "." s' => let '(f, scale, s2) := leadingFraction 0 1 false s' in (f, scale, s2, negb (String.length s' =? String.length s2)%nat)
      | _ => (0%Z, 1%Z, s1, false) end = (f, scale, s2, post) /\ (0 <= f)%Z /\ (0 <= scale)%Z).
  { destruct s1 as [|c r]; [by eexists _, _, _, _|]. destruct (leadingFraction 0 1 false r) as [[f scale] s2] eqn:Ef.
    apply leading_fraction_nonneg in Ef; [|done|done]. destruct c as [[] [] [] [] [] [] [] []]; try (by eexists _, _, _, _). }
  destruct Hs2 as (f & scale & s2 & post & -> & Hf & Hsc). destruct (_ && _); [done|].
  destruct (take_unit s2) as [u s3]. destruct (unit_of u) as [unit|] eqn:Eu; [|done]. apply unit_positive in Eu.
  destruct (_ <? _)%Z; [done|]. cbv zeta. destruct (max_count <? _)%Z; [done|]. intros [= <- _].
  destruct (0 <? f)%Z; [|lia]. pose proof (fraction_nonneg f scale unit Hf Hsc ltac:(lia)). lia.
Qed.

(** A duration that is read is one: it fits in 64 bits. *)
Lemma parse_duration_in_range (s : string) (d : Z) : ParseDuration s = Some d -> (- 2 ^ 63 <= d < 2 ^ 63)%Z.
Proof.
  assert (Hparts : forall fuel t d0 d, duration_parts fuel d0 t = Some d -> (0 <= d0 <= max_count)%Z -> (0 <= d <= max_count)%Z).
  { induction fuel as [|fuel IH]; intros t d0 d'; (destruct t; cbn [duration_parts]; [by intros [= <-]|]); [done|].
    destruct (duration_part _) as [[v t']|] eqn:E; [|done]. apply duration_part_nonneg in E.
    destruct (Z.ltb_spec max_count (d0 + v)); [done|]. intros Hd H0. apply (IH t' (d0 + v)%Z d' Hd). lia. }
  unfold ParseDuration. destruct (match s with String "-" r => (true, r) | String "+" r => (false, r) | _ => (false, s) end) as [neg s1].
  destruct (s1 =? "0"); [intros [= <-]; lia|]. destruct (s1 =? ""); [done|].
  destruct (duration_parts _ 0 s1) as [d'|] eqn:E; [|done]. apply Hparts in E; [|unfold max_count; lia]. unfold max_count in *.
  destruct neg; [intros [= <-]; lia|]. destruct (Z.ltb_spec (2 ^ 63 - 1) d'); [done|]. intros [= <-]. lia.
Qed.

(** ** Plus and minus *)

(** RFC 3339: text with a time zone, to the second. *)
Class GoTime := {
  Time : Type;
  parse_time : string -> option Time;
  format_time : Time -> string;
  time_add : Time -> Z -> Time;
  whole : Time -> Prop;                       (* no fraction of a second *)
  parse_format : forall t, whole t -> parse_time (format_time t) = Some t;
  time_add_add : forall t a b, time_add (time_add t a) b = time_add t (a + b)%Z;
  time_add_zero : forall t, time_add t 0 = t;
  whole_add : forall t d, whole t -> (d mod Second = 0)%Z -> whole (time_add t d);
}.

Section functions.
  Context `{GoTime}.
  (** Numbers as floats and back, and the errors of a node of another type. *)
  Variable number : string -> spec_float.
  Variable literal : spec_float -> string.
  Variable show : spec_float -> string.
  Variable not_a_string not_a_number : goerror.

(** [Duration.Seconds]. *)
Definition Seconds (d : Z) : spec_float :=
  SFadd 53 1024 (float_of_int (Z.quot d Second)) (SFdiv 53 1024 (float_of_int (Z.rem d Second)) (float_of_int Second)).

Definition numeric (v : json) : result goerror spec_float := match v with JNum s => Ok (number s) | _ => Err not_a_number end.
Definition floats (op : spec_float -> spec_float -> spec_float) (left right : json) : result goerror json :=
  match numeric left, numeric right with
  | Ok a, Ok b => Ok (JNum (literal (op a b)))
  | Err e, _ | _, Err e => Err e
  end.

(** Two texts: a time and a duration in either order, or two durations. *)
Definition shifted (sign : Z) (op : spec_float -> spec_float -> spec_float) (l r : string) : option string :=
  match parse_time l, ParseDuration r with
  | Some t, Some d => Some (format_time (time_add t (wrap64 (sign * d))))
  | _, _ =>
      match parse_time r, ParseDuration l with
      | Some t, Some d => Some (format_time (time_add t (wrap64 (sign * d))))
      | _, _ =>
          match ParseDuration l, ParseDuration r with
          | Some a, Some b => Some (show (op (Seconds a) (Seconds b)) +:+ "s")
          | _, _ => None
          end
      end
  end.

Definition minus (left right : json) : result goerror json :=
  match left with
  | JStr l =>
      match right with
      | JStr r => match shifted (-1) (SFsub 53 1024) l r with Some s => Ok (JStr s) | None => floats (SFsub 53 1024) left right end
      | _ => Err not_a_string
      end
  | _ => floats (SFsub 53 1024) left right
  end.

Definition plus (left right : json) : result goerror json :=
  match left with
  | JStr l =>
      match right with
      | JStr r => match shifted 1 (SFadd 53 1024) l r with Some s => Ok (JStr s) | None => Ok (JStr (l +:+ r)) end
      | _ => Err not_a_string
      end
  | _ => floats (SFadd 53 1024) left right
  end.

(** [now], [RFC3339] of a time in seconds in the zone of the process, [string]. *)
Definition now (unix : Z) : json := JNum (literal (float_of_int unix)).
Definition RFC3339 (local : Z -> Time) (out_of_range : spec_float -> Z) (unix : Z) (a : json) : json :=
  JStr (format_time (local (match a with JNum s => duration_of_float out_of_range (number s) | _ => unix end))).
Definition string_ (print : json -> string) (node : json) : json :=
  JStr match node with
       | JNum s => show (number s)
       | JBool b => if b then "true" else "false"
       | JObj _ => print node
       | JStr s => s
       | _ => "unknown"
       end.

(** ** What they come to *)

(** A whole number of seconds that is added to a time can be taken off again,
    and added from either side. *)
Lemma time_shifts_back (l r : string) (t : Time) (d : Z) :
  parse_time l = Some t -> whole t -> ParseDuration r = Some d -> parse_time r = None -> (d mod Second = 0)%Z -> d <> (- 2 ^ 63)%Z ->
  exists s, plus (JStr l) (JStr r) = Ok (JStr s) /\ plus (JStr r) (JStr l) = Ok (JStr s) /\
    minus (JStr s) (JStr r) = Ok (JStr (format_time t)).
Proof.
  intros Hl Hw Hr Hn Hd Hm. pose proof (parse_duration_in_range r d Hr) as Hrange.
  assert (H1 : wrap64 (1 * d) = d) by (unfold wrap64; rewrite Z.mod_small; lia).
  assert (H2 : wrap64 (-1 * d) = (- d)%Z) by (unfold wrap64; rewrite Z.mod_small; lia).
  exists (format_time (time_add t d)). unfold plus, minus, shifted. rewrite Hl, Hr, Hn, H1. split_and!; [done|done|].
  rewrite parse_format by by apply whole_add. rewrite H2, time_add_add, Z.add_opp_diag_r, time_add_zero. done.
Qed.

(** Minus is not: a duration less a time is the time less the duration. *)
Lemma minus_from_either_side (l r : string) (t : Time) (d : Z) :
  parse_time l = Some t -> ParseDuration l = None -> ParseDuration r = Some d -> parse_time r = None ->
  minus (JStr r) (JStr l) = minus (JStr l) (JStr r).
Proof. intros Hl Hd Hr Hn. unfold minus, shifted. by rewrite Hl, Hr, Hn. Qed.

(** Two times have no difference, and text that reads as no time is joined. *)
Lemma two_times (l r : string) : is_Some (parse_time l) -> is_Some (parse_time r) -> ParseDuration l = None -> ParseDuration r = None ->
  minus (JStr l) (JStr r) = Err not_a_number /\ plus (JStr l) (JStr r) = Ok (JStr (l +:+ r)).
Proof. intros [t Hl] [t' Hr] Hd Hd'. unfold minus, plus, shifted, floats. by rewrite Hl, Hr, Hd, Hd'. Qed.
End functions.

(** Seconds, written as digits and a Z. *)
#[export] Instance unix_time : GoTime.
Proof.
  refine {| Time := Z; parse_time s := match go_cut_last "Z" s with Some (a, "") => ((fun n => n * Second)%Z) <$> parse_decimal a | _ => None end;
            format_time t := go_itoa (t / Second) +:+ "Z"; time_add t d := (t + d)%Z; whole t := (t mod Second = 0)%Z |}.
  - intros t Ht. rewrite (go_cut_last_app "Z" (go_itoa (t / Second)) "") by done. rewrite parse_itoa. cbn. f_equal.
    apply Z.mod_divide in Ht as [k ->]; [|done]. by rewrite Z.div_mul.
  - intros t a b. lia.
  - intros t. lia.
  - intros t d Ht Hd. cbn in *. rewrite Z.add_mod, Ht, Hd by done. done.
Defined.

(** Zero is a duration: two zeros that should be joined are added. *)
Example zeros_are_durations :
  let number s := float_of_int (go_atoi_value s) in
  let show f := match float_trunc f with Some z => go_itoa z | None => "" end in
  plus number show show (ErrorString "not a string") (ErrorString "not a number") (JStr "0") (JStr "0") = Ok (JStr "0s").
Proof. vm_compute. reflexivity. Qed.

(** A minute more and less, from either side: less the minute is the time less. *)
Example minutes_around_a_time :
  let number s := float_of_int (go_atoi_value s) in
  let show f := match float_trunc f with Some z => go_itoa z | None => "" end in
  let e := ErrorString "not a string" in
  plus number show show e e (JStr "60Z") (JStr "1m") = Ok (JStr "120Z") /\
  plus number show show e e (JStr "1m") (JStr "60Z") = Ok (JStr "120Z") /\
  minus number show show e e (JStr "120Z") (JStr "1m") = Ok (JStr "60Z") /\
  minus number show show e e (JStr "1m") (JStr "120Z") = Ok (JStr "60Z") /\
  minus number show show e e (JStr "1h") (JStr "90s") = Ok (JStr "3510s").
Proof. vm_compute. split_and!; reflexivity. Qed.
