(* ===== verification/Debouncer.v ===== *)
(** * The reconcile debouncer

    [internal/scheduler/runner/debouncer.go]: rapid status patches of one node
    are coalesced; within a window only the latest runs. The debouncer shares a
    mutex with the callbacks of its timers, and a timer that was stopped may
    have fired already, its callback waiting for the mutex: timers are part of
    the state, armed or fired, and the callback of any fired timer may run at
    any step. An operation returns the update it runs, after unlocking. *)
From S2P Require Import Prelude.

Section debouncer.
  Variable U : Type.

(** The fields, a timer named by its number, and the runtime's timers. *)
Record ReconcileDebouncer := mkDebouncer {
  db_timer : option nat;
  db_pendingUpdate : option U;
  db_pending : bool;
  db_armed : gset nat;
  db_fired : gset nat;
  db_next : nat;
}.

Definition NewReconcileDebouncer : ReconcileDebouncer := mkDebouncer None None false ∅ ∅ 0.

(** Returns whether the call was merged. *)
Definition Debounce (d : ReconcileDebouncer) (update : U) : ReconcileDebouncer * bool :=
  let wasDebounced := db_pending d in
  match db_timer d with
  | Some t =>
      (mkDebouncer (Some t) (Some update) true (db_armed d) (db_fired d) (db_next d), wasDebounced)
  | None =>
      (mkDebouncer (Some (db_next d)) (Some update) true
         ({[db_next d]} ∪ db_armed d) (db_fired d) (S (db_next d)), false)
  end.

(** The window of a timer ends. *)
Definition expire (d : ReconcileDebouncer) (t : nat) : ReconcileDebouncer :=
  if bool_decide (t ∈ db_armed d)
  then mkDebouncer (db_timer d) (db_pendingUpdate d) (db_pending d)
         (db_armed d ∖ {[t]}) ({[t]} ∪ db_fired d) (db_next d)
  else d.

(** The callback of a fired timer takes the mutex. *)
Definition callback (d : ReconcileDebouncer) (t : nat) : ReconcileDebouncer * option U :=
  if bool_decide (t ∈ db_fired d)
  then (mkDebouncer None None false (db_armed d) (db_fired d ∖ {[t]}) (db_next d),
        db_pendingUpdate d)
  else (d, None).

(** [timer.Stop()] disarms a timer that has not fired. *)
Definition stop_timer (d : ReconcileDebouncer) : gset nat :=
  match db_timer d with Some t => db_armed d ∖ {[t]} | None => db_armed d end.

Definition Flush (d : ReconcileDebouncer) : ReconcileDebouncer * option U :=
  (mkDebouncer None None false (stop_timer d) (db_fired d) (db_next d), db_pendingUpdate d).

Definition Stop (d : ReconcileDebouncer) : ReconcileDebouncer :=
  mkDebouncer None None false (stop_timer d) (db_fired d) (db_next d).

Definition IsPending (d : ReconcileDebouncer) : bool := db_pending d.

End debouncer.

Arguments mkDebouncer {U}. Arguments db_timer {U}. Arguments db_pendingUpdate {U}.
Arguments db_pending {U}. Arguments db_armed {U}. Arguments db_fired {U}. Arguments db_next {U}.
Arguments NewReconcileDebouncer {U}. Arguments Debounce {U}. Arguments expire {U}.
Arguments callback {U}. Arguments stop_timer {U}. Arguments Flush {U}. Arguments Stop {U}.
Arguments IsPending {U}.

(** ** Executions *)

Inductive dop (U : Type) : Type :=
| DDebounce (u : U)
| DExpire (t : nat)
| DCallback (t : nat)
| DFlush
| DStop.
Arguments DDebounce {U}. Arguments DExpire {U}. Arguments DCallback {U}.
Arguments DFlush {U}. Arguments DStop {U}.

Definition dstep {U} (d : ReconcileDebouncer U) (o : dop U) : ReconcileDebouncer U * option U :=
  match o with
  | DDebounce u => ((Debounce d u).1, None)
  | DExpire t => (expire d t, None)
  | DCallback t => callback d t
  | DFlush => Flush d
  | DStop => (Stop d, None)
  end.

Fixpoint drun {U} (d : ReconcileDebouncer U) (os : list (dop U)) : ReconcileDebouncer U * list U :=
  match os with
  | [] => (d, [])
  | o :: os' =>
      let '(d1, ran) := dstep d o in
      let '(d2, rest) := drun d1 os' in
      (d2, option_list ran ++ rest)
  end.

(** What coalescing promises, without timers: a slot that holds the latest
    update; a run empties it. [fires] says whether the step runs the slot. *)
Fixpoint spec_run {U} (slot : option U) (os : list (dop U)) (fires : list bool) : option U * list U :=
  match os, fires with
  | o :: os', f :: fires' =>
      match o with
      | DDebounce u => spec_run (Some u) os' fires'
      | DStop => spec_run None os' fires'
      | DFlush =>
          let '(s, ran) := spec_run None os' fires' in (s, option_list slot ++ ran)
      | DCallback _ =>
          if f then let '(s, ran) := spec_run None os' fires' in (s, option_list slot ++ ran)
          else spec_run slot os' fires'
      | DExpire _ => spec_run slot os' fires'
      end
  | _, _ => (slot, [])
  end.

(** Whether each step's callback finds its timer fired. *)
Fixpoint fires_of {U} (d : ReconcileDebouncer U) (os : list (dop U)) : list bool :=
  match os with
  | [] => []
  | o :: os' =>
      match o with DCallback t => bool_decide (t ∈ db_fired d) | _ => false end
      :: fires_of (dstep d o).1 os'
  end.

(** ** The invariant *)

Section invariant.
  Context {U : Type}.

Record debouncer_inv (d : ReconcileDebouncer U) : Prop := {
  inv_pending : db_pending d = bool_decide (is_Some (db_pendingUpdate d));
  inv_live : forall t, db_timer d = Some t -> t ∈ db_armed d \/ t ∈ db_fired d;
  inv_update : is_Some (db_pendingUpdate d) -> is_Some (db_timer d);
}.

Lemma debouncer_inv_new : debouncer_inv (NewReconcileDebouncer (U := U)).
Proof. by constructor; simpl; [|intros ? [=]|intros [? [=]]]. Qed.

Lemma debouncer_inv_step (d : ReconcileDebouncer U) (o : dop U) :
  debouncer_inv d -> debouncer_inv (dstep d o).1.
Proof.
  intros [Hp Hl Hu]. destruct o as [u|t|t| |]; simpl.
  - unfold Debounce. destruct (db_timer d) as [t|] eqn:E; constructor; simpl; eauto.
    intros t' [= <-]. set_solver.
  - unfold expire. case (bool_decide_reflect (t ∈ db_armed d)); intros Ht; constructor; simpl; eauto.
    intros t' E. destruct (Hl t' E); [destruct (decide (t' = t)); set_solver|set_solver].
  - unfold callback. case (bool_decide_reflect (t ∈ db_fired d)); intros Ht; simpl; [|by constructor].
    constructor; simpl; [done|intros ? [=]|intros [? [=]]].
  - constructor; simpl; [done|intros ? [=]|intros [? [=]]].
  - constructor; simpl; [done|intros ? [=]|intros [? [=]]].
Qed.

Lemma debouncer_inv_run (d : ReconcileDebouncer U) (os : list (dop U)) :
  debouncer_inv d -> debouncer_inv (drun d os).1.
Proof.
  revert d. induction os as [|o os IH]; intros d Hd; [done|]. simpl.
  pose proof (debouncer_inv_step d o Hd) as H1. destruct (dstep d o) as [d1 r]. simpl in H1.
  specialize (IH d1 H1). by destruct (drun d1 os).
Qed.

Lemma drun_spec (d : ReconcileDebouncer U) (os : list (dop U)) :
  let '(d', ran) := drun d os in
  spec_run (db_pendingUpdate d) os (fires_of d os) = (db_pendingUpdate d', ran).
Proof.
  revert d. induction os as [|o os IH]; intros d; [done|].
  cbn [drun fires_of]. specialize (IH (dstep d o).1). destruct (dstep d o) as [d1 r] eqn:E.
  cbn [fst] in *. destruct (drun d1 os) as [d2 rest]. cbn [spec_run].
  destruct o as [u|t|t| |]; simpl in E.
  - unfold Debounce in E. destruct (db_timer d); injection E as <- <-; exact IH.
  - injection E as <- <-. unfold expire in *. by case_bool_decide.
  - unfold callback in E. case_bool_decide; injection E as <- <-; simpl in IH; [|exact IH].
    by rewrite IH.
  - injection E as <- <-. simpl in IH. by rewrite IH.
  - injection E as <- <-. exact IH.
Qed.

(** The timer to wait for, if an update is pending. *)
Lemma pending_timer (d : ReconcileDebouncer U) (u : U) :
  debouncer_inv d -> db_pendingUpdate d = Some u ->
  exists t, db_timer d = Some t /\ (t ∈ db_armed d \/ t ∈ db_fired d).
Proof.
  intros [_ Hl Hu] E. destruct Hu as [t Ht]; [by exists u|]. exists t. eauto.
Qed.

End invariant.

(** ** Properties *)

