(* ===== verification/World.v ===== *)
(** * The runtime's world

    What the scheduler and the runners ([internal/scheduler]) share, and the
    monad their operations run in: state passing over a [World], with an outcome
    for a Go panic, one for a panic that ends the process (on a goroutine
    nobody recovers) and one for exhausted fuel.

    A runner is shared by the instances map, by the handlers in flight and by
    the closures it gave out: runners live in a heap and are named by pointer.
    A component is third-party code: its handlers are programs ([Prog]) over
    its own state that may emit, begin runs, wait, panic and return. Goroutines
    of one emission run one after the other, in an order the model does not
    fix, and while one waits the rest of the process runs ([Env]). *)
From S2P Require Import Prelude GoErrors Names Graph Run Reflect ExecState Debouncer.

Open Scope string_scope.

(** ** Components *)

Record Port := mkPort {
  p_Name : string;
  p_Label : string;
  p_Position : Z;
  p_Source : bool;
  p_Schema : option string;
  p_Configuration : option goval;
  p_ResponseConfiguration : option goval;
}.

(** A function that updates a node, as emitted on the reconcile port. *)
Abbreviation NodeUpdater := (TinyNode -> result goerror TinyNode).

(** What a component emits: a value, or a node updater. *)
Inductive OutData : Type :=
| Data (v : option goval)
| UpdateNode (f : NodeUpdater).

Section programs.
  Variable CS : Type.

(** A handler in progress: it reads and writes the component's state, emits
    and goes on with the result, starts a run, waits, panics or returns. *)
Inductive Prog : Type :=
| Return (r : Result goval)
| Panic (msg : string)
| GetState (k : CS -> Prog)
| PutState (s : CS) (k : Prog)
| Emit (ctx : Ctx) (port : string) (data : OutData) (k : Result goval -> Prog)
| Begin (ctx : Ctx) (reply : option (string * string * Z)) (k : Ctx -> string -> Prog)
| Sleep (d : Z) (k : Prog).

(** [module.Component] with the capability interfaces it may implement. *)
Record Component := mkComponent {
  c_Name : string;
  c_Description : string;
  c_Info : string;
  c_Tags : list string;
  c_Instance : CS;
  c_Ports : CS -> list Port;
  c_Handle : Ctx -> string -> option goval -> Prog;
  c_OnSettings : option (Ctx -> option goval -> Prog);
  c_OnControl : option (Ctx -> option goval -> Prog);
  c_OnIdentity : option (TinyNode -> CS -> CS);
  c_OnReconcile : option (TinyNode -> CS -> CS * error);
  c_OnDestroy : option (gmap string string -> CS -> CS);
  c_AgentTool : option (string * string);   (* InputPort, OutputPort *)
}.

End programs.

Arguments Return {CS}. Arguments Panic {CS}. Arguments GetState {CS}. Arguments PutState {CS}.
Arguments Emit {CS}. Arguments Begin {CS}. Arguments Sleep {CS}.
Arguments mkComponent {CS}.
Arguments c_Name {CS}. Arguments c_Description {CS}. Arguments c_Info {CS}. Arguments c_Tags {CS}.
Arguments c_Instance {CS}. Arguments c_Ports {CS}. Arguments c_Handle {CS}.
Arguments c_OnSettings {CS}. Arguments c_OnControl {CS}. Arguments c_OnIdentity {CS}.
Arguments c_OnReconcile {CS}. Arguments c_OnDestroy {CS}. Arguments c_AgentTool {CS}.

(** ** The runner and the world *)

Section world.
  Variable CS : Type.
  Variable S : Type.

Record Runner := mkRunner {
  rn_node : TinyNode;
  rn_name : string;
  rn_flowName : string;
  rn_projectName : string;
  rn_declaredSecrets : gset string;
  rn_execDurable : bool;
  rn_component : Component CS;
  rn_cs : CS;                              (* the component instance's state *)
  rn_nodePorts : option (list Port);       (* the port cache *)
  rn_portMsg : gmap string (option goval);
  rn_settingsSecretAt : gmap string Z;
  rn_pendingNodeUpdaters : list NodeUpdater;
  rn_debouncer : ReconcileDebouncer TinyNode;  (* of patches, by the node they captured *)
  rn_activeEdges : gmap string Z;
  rn_edgeCancels : gmap string nat;
  rn_hasState : bool;
  rn_closeCh : nat;                        (* cancelled when closed *)
  rn_runCtx : nat;
}.

(** What happened, for the statements: component code entered, spans recorded,
    nodes patched. *)
Inductive Event : Type :=
| EvHandle (node port : string) (data : option goval)
| EvCapability (node port : string) (data : option goval)
| EvSpan (payload : string)                 (* a "data" event *)
| EvSpanError (text : string)              (* RecordError, or an emission on the error port *)
| EvExprError (expr text : string)
| EvPatch (node : string) (ok : bool).

Record World := mkWorld {
  w_now : Z;
  w_uuids : nat;                            (* ids drawn so far *)
  w_runs : RunStore;
  w_cancelled : gmap nat Z;                 (* cancel function -> when it was called *)
  w_nextCancel : nat;
  w_store : S;                              (* execution-scoped state *)
  w_runners : list Runner;                  (* the heap *)
  w_instances : gmap string nat;
  w_components : gmap string (Component CS);
  w_nodes : gmap string TinyNode;           (* the API server *)
  w_events : list Event;
}.

(** ** The monad *)

Inductive outcome (A : Type) : Type :=
| Val (a : A) (w : World)
| Panicked (msg : string) (w : World)
| Crashed (msg : string)
| OutOfFuel.

Definition M (A : Type) : Type := World -> outcome A.

End world.

Arguments Val {CS S A}. Arguments Panicked {CS S A}. Arguments Crashed {CS S A}. Arguments OutOfFuel {CS S A}.
Arguments mkRunner {CS}. Arguments mkWorld {CS S}.
Arguments rn_node {CS}. Arguments rn_name {CS}. Arguments rn_flowName {CS}.
Arguments rn_projectName {CS}. Arguments rn_declaredSecrets {CS}. Arguments rn_execDurable {CS}.
Arguments rn_component {CS}. Arguments rn_cs {CS}. Arguments rn_nodePorts {CS}.
Arguments rn_portMsg {CS}. Arguments rn_settingsSecretAt {CS}.
Arguments rn_pendingNodeUpdaters {CS}. Arguments rn_debouncer {CS}.
Arguments rn_activeEdges {CS}. Arguments rn_edgeCancels {CS}. Arguments rn_hasState {CS}.
Arguments rn_closeCh {CS}. Arguments rn_runCtx {CS}.
Arguments w_now {CS S}. Arguments w_uuids {CS S}. Arguments w_runs {CS S}.
Arguments w_cancelled {CS S}. Arguments w_nextCancel {CS S}. Arguments w_store {CS S}.
Arguments w_runners {CS S}. Arguments w_instances {CS S}. Arguments w_components {CS S}.
Arguments w_nodes {CS S}. Arguments w_events {CS S}.

Section operations.
  Context {CS S : Type}.
  Abbreviation W := (World CS S).

Definition ret {A} (a : A) : M CS S A := fun w => Val a w.
Definition bind {A B} (m : M CS S A) (k : A -> M CS S B) : M CS S B :=
  fun w => match m w with
           | Val a w' => k a w'
           | Panicked msg w' => Panicked msg w'
           | Crashed msg => Crashed msg
           | OutOfFuel => OutOfFuel
           end.
Definition panic {A} (msg : string) : M CS S A := fun w => Panicked msg w.
Definition no_fuel {A} : M CS S A := fun _ => OutOfFuel.
Definition get : M CS S W := fun w => Val w w.
Definition modify (f : W -> W) : M CS S unit := fun w => Val tt (f w).

(** [defer f()]: on a panic too. *)
Definition finally {A} (m : M CS S A) (f : W -> W) : M CS S A :=
  fun w => match m w with
           | Val a w' => Val a (f w')
           | Panicked msg w' => Panicked msg (f w')
           | Crashed msg => Crashed msg
           | OutOfFuel => OutOfFuel
           end.

(** [errorpanic.Wrap]: a panic becomes an error. *)
Definition wrap_panic (to_error : string -> goerror) {A} (m : M CS S (result goerror A))
    : M CS S (result goerror A) :=
  fun w => match m w with
           | Panicked msg w' => Val (Err (to_error msg)) w'
           | r => r
           end.

(** On a goroutine of its own: a panic there ends the process. *)
Definition goroutine {A} (m : M CS S A) : M CS S A :=
  fun w => match m w with
           | Panicked msg _ => Crashed msg
           | r => r
           end.

(** Field updates of the world. *)
Definition set_now (z : Z) (w : W) : W :=
  mkWorld z (w_uuids w) (w_runs w) (w_cancelled w) (w_nextCancel w) (w_store w) (w_runners w)
    (w_instances w) (w_components w) (w_nodes w) (w_events w).
Definition set_uuids (n : nat) (w : W) : W :=
  mkWorld (w_now w) n (w_runs w) (w_cancelled w) (w_nextCancel w) (w_store w) (w_runners w)
    (w_instances w) (w_components w) (w_nodes w) (w_events w).
Definition set_runs (r : RunStore) (w : W) : W :=
  mkWorld (w_now w) (w_uuids w) r (w_cancelled w) (w_nextCancel w) (w_store w) (w_runners w)
    (w_instances w) (w_components w) (w_nodes w) (w_events w).
Definition set_cancelled (c : gmap nat Z) (n : nat) (w : W) : W :=
  mkWorld (w_now w) (w_uuids w) (w_runs w) c n (w_store w) (w_runners w)
    (w_instances w) (w_components w) (w_nodes w) (w_events w).
Definition set_store (s : S) (w : W) : W :=
  mkWorld (w_now w) (w_uuids w) (w_runs w) (w_cancelled w) (w_nextCancel w) s (w_runners w)
    (w_instances w) (w_components w) (w_nodes w) (w_events w).
Definition set_runners (r : list (Runner CS)) (w : W) : W :=
  mkWorld (w_now w) (w_uuids w) (w_runs w) (w_cancelled w) (w_nextCancel w) (w_store w) r
    (w_instances w) (w_components w) (w_nodes w) (w_events w).
Definition set_instances (i : gmap string nat) (w : W) : W :=
  mkWorld (w_now w) (w_uuids w) (w_runs w) (w_cancelled w) (w_nextCancel w) (w_store w) (w_runners w)
    i (w_components w) (w_nodes w) (w_events w).
Definition set_components (c : gmap string (Component CS)) (w : W) : W :=
  mkWorld (w_now w) (w_uuids w) (w_runs w) (w_cancelled w) (w_nextCancel w) (w_store w) (w_runners w)
    (w_instances w) c (w_nodes w) (w_events w).
Definition set_nodes (n : gmap string TinyNode) (w : W) : W :=
  mkWorld (w_now w) (w_uuids w) (w_runs w) (w_cancelled w) (w_nextCancel w) (w_store w) (w_runners w)
    (w_instances w) (w_components w) n (w_events w).
Definition add_event (e : Event) (w : W) : W :=
  mkWorld (w_now w) (w_uuids w) (w_runs w) (w_cancelled w) (w_nextCancel w) (w_store w) (w_runners w)
    (w_instances w) (w_components w) (w_nodes w) (w_events w ++ [e])%list.

(** Dereferencing a runner: a pointer that was handed out is always valid, a
    nil dereference would panic. *)
Definition upd_runner (p : nat) (f : Runner CS -> Runner CS) (w : W) : W :=
  set_runners (alter f p (w_runners w)) w.

Definition get_runner (p : nat) : M CS S (Runner CS) :=
  fun w => match w_runners w !! p with
           | Some r => Val r w
           | None => Panicked "invalid memory address or nil pointer dereference" w
           end.

(** ** Contexts *)

(** When the context was done, and with what: the earliest of a cancellation
    above it and its deadline. *)
Definition ctx_err (ctx : Ctx) (w : W) : error :=
  let cancels := omap (fun c => w_cancelled w !! c) (cx_cancels ctx) in
  let cancelled := match cancels with [] => None | t :: ts => Some (fold_right Z.min t ts) end in
  let expired := match cx_deadline ctx with
                 | Some d => if (d <=? w_now w)%Z then Some d else None
                 | None => None
                 end in
  match cancelled, expired with
  | None, None => None
  | Some _, None => Some ContextCanceled
  | None, Some _ => Some DeadlineExceeded
  | Some c, Some d => if (c <=? d)%Z then Some ContextCanceled else Some DeadlineExceeded
  end.

(** [context.WithCancel]: a child context and its cancel function. *)
Definition with_cancel (ctx : Ctx) : M CS S (Ctx * nat) :=
  fun w => let c := w_nextCancel w in
           Val (mkCtx (cx_run ctx) (c :: cx_cancels ctx) (cx_deadline ctx) (cx_source ctx), c)
             (set_cancelled (w_cancelled w) (Datatypes.S c) w).

(** Only the first call of a cancel function counts. *)
Definition cancel (c : nat) (w : W) : W :=
  match w_cancelled w !! c with
  | Some _ => w
  | None => set_cancelled (<[c := w_now w]> (w_cancelled w)) (w_nextCancel w) w
  end.

Definition with_timeout (ctx : Ctx) (d : Z) (w : W) : Ctx :=
  let deadline := (w_now w + d)%Z in
  mkCtx (cx_run ctx) (cx_cancels ctx)
    (Some match cx_deadline ctx with Some d' => Z.min d' deadline | None => deadline end)
    (cx_source ctx).

Definition with_source (ctx : Ctx) (node : string) : Ctx :=
  mkCtx (cx_run ctx) (cx_cancels ctx) (cx_deadline ctx) node.

(** The run of a context. *)
Definition run_from (ctx : Ctx) (w : W) : option (nat * Run) := RunFrom ctx (w_runs w).

Definition upd_run (p : nat) (f : Run -> Run) (w : W) : W :=
  set_runs (alter f p (w_runs w)) w.

End operations.

Declare Scope run_scope.
Delimit Scope run_scope with run.
Notation "'let*' x ':=' m 'in' k" := (bind m (fun x => k))
  (at level 10, x pattern, m at level 100, k at level 200) : run_scope.
Notation "'do' m 'then' k" := (bind m (fun _ => k))
  (at level 10, m at level 100, k at level 200) : run_scope.

(** ** Monotonicity

    What every step of the runtime preserves: time passes, contexts stay
    cancelled, runs keep their identity and only collect hops, runners stay
    where they are and keep their state backend. *)
Definition run_le (r r' : Run) : Prop :=
  r_RunID r' = r_RunID r /\ r_StepKey r' = r_StepKey r /\
  r_ReplySubject r' = r_ReplySubject r /\ r_ReplyTarget r' = r_ReplyTarget r /\
  r_ReplyDeadlineUnixMs r' = r_ReplyDeadlineUnixMs r /\
  r_emits r `prefix_of` r_emits r'.

Section monotone.
  Context {CS S : Type}.

Record world_le (w w' : World CS S) : Prop := {
  le_now : (w_now w <= w_now w')%Z;
  le_cancelled : w_cancelled w ⊆ w_cancelled w';
  le_fresh : (w_nextCancel w <= w_nextCancel w')%nat;
  le_uuids : (w_uuids w <= w_uuids w')%nat;
  le_runs : forall p r, w_runs w !! p = Some r ->
    exists r', w_runs w' !! p = Some r' /\ run_le r r';
  le_runners : forall p r, w_runners w !! p = Some r ->
    exists r', w_runners w' !! p = Some r' /\
      rn_hasState r' = rn_hasState r /\ rn_component r' = rn_component r /\
      rn_closeCh r' = rn_closeCh r;
}.

Definition mono {A} (m : M CS S A) : Prop :=
  forall w, match m w with
            | Val _ w' | Panicked _ w' => world_le w w'
            | Crashed _ | OutOfFuel => True
            end.

#[export] Instance run_le_preorder : PreOrder run_le.
Proof.
  split; [intros r; by repeat split|].
  intros r1 r2 r3 (?&?&?&?&?&?) (?&?&?&?&?&?). repeat split; try congruence. by etrans.
Qed.

#[export] Instance world_le_preorder : PreOrder world_le.
Proof.
  split.
  - intros w. constructor; try done; intros p r H; exists r; by repeat split.
  - intros w1 w2 w3 [] []. constructor; try lia; [by etrans|..]; intros p r H.
    + destruct (le_runs0 p r H) as (r2 & H2 & L2), (le_runs1 p r2 H2) as (r3 & H3 & L3).
      exists r3. split; [done|by etrans].
    + destruct (le_runners0 p r H) as (r2 & H2 & A1 & A2 & A3),
        (le_runners1 p r2 H2) as (r3 & H3 & B1 & B2 & B3).
      exists r3. repeat split; congruence.
Qed.

Lemma mono_ret {A} (a : A) : mono (ret a : M CS S A).
Proof. intros w. change (world_le w w). reflexivity. Qed.

Lemma mono_panic {A} (s : string) : mono (panic s : M CS S A).
Proof. intros w. change (world_le w w). reflexivity. Qed.

Lemma mono_get : mono (get : M CS S _).
Proof. intros w. change (world_le w w). reflexivity. Qed.

Lemma mono_get_runner (p : nat) : mono (get_runner p : M CS S _).
Proof. intros w. unfold get_runner. destruct (w_runners w !! p); reflexivity. Qed.

Lemma mono_bind {A B} (m : M CS S A) (k : A -> M CS S B) :
  mono m -> (forall a, mono (k a)) -> mono (bind m k).
Proof.
  intros Hm Hk w. unfold bind. specialize (Hm w). destruct (m w) as [a w'|msg w'|msg|]; try done.
  specialize (Hk a w'). destruct (k a w'); try done; by etrans.
Qed.

Lemma mono_modify (f : World CS S -> World CS S) :
  (forall w, world_le w (f w)) -> mono (modify f).
Proof. intros Hf w. apply Hf. Qed.

Lemma mono_finally {A} (m : M CS S A) (f : World CS S -> World CS S) :
  mono m -> (forall w, world_le w (f w)) -> mono (finally m f).
Proof.
  intros Hm Hf w. unfold finally. specialize (Hm w). destruct (m w); try done; by etrans.
Qed.

Lemma mono_wrap_panic {A} (te : string -> goerror) (m : M CS S (result goerror A)) :
  mono m -> mono (wrap_panic te m).
Proof. intros Hm w. unfold wrap_panic. specialize (Hm w). by destruct (m w). Qed.

Lemma mono_goroutine {A} (m : M CS S A) : mono m -> mono (goroutine m).
Proof. intros Hm w. unfold goroutine. specialize (Hm w). by destruct (m w). Qed.

(** Each kind of update. *)
Ltac same_world := constructor; try done; try (intros p' r' H'; exists r'; by repeat split).

Lemma le_add_event (e : Event) (w : World CS S) : world_le w (add_event e w).
Proof. same_world. Qed.
Lemma le_set_store (s : S) (w : World CS S) : world_le w (set_store s w).
Proof. same_world. Qed.
Lemma le_set_nodes n (w : World CS S) : world_le w (set_nodes n w).
Proof. same_world. Qed.
Lemma le_set_instances i (w : World CS S) : world_le w (set_instances i w).
Proof. same_world. Qed.
Lemma le_set_components c (w : World CS S) : world_le w (set_components c w).
Proof. same_world. Qed.
Lemma le_set_now z (w : World CS S) : (w_now w <= z)%Z -> world_le w (set_now z w).
Proof. intros. same_world. Qed.
Lemma le_set_uuids n (w : World CS S) : (w_uuids w <= n)%nat -> world_le w (set_uuids n w).
Proof. intros. same_world. Qed.

Lemma le_cancel (c : nat) (w : World CS S) : world_le w (cancel c w).
Proof.
  unfold cancel. destruct (w_cancelled w !! c) eqn:E; [reflexivity|]. same_world.
  by apply insert_subseteq.
Qed.

Lemma mono_with_cancel (ctx : Ctx) : mono (with_cancel ctx : M CS S _).
Proof. intros w. simpl. same_world. simpl. lia. Qed.

Lemma le_upd_runner (p : nat) (f : Runner CS -> Runner CS) (w : World CS S) :
  (forall r, rn_hasState (f r) = rn_hasState r /\ rn_component (f r) = rn_component r /\
    rn_closeCh (f r) = rn_closeCh r) ->
  world_le w (upd_runner p f w).
Proof.
  intros Hf. constructor; try done; [by intros q r H; exists r|]. intros q r H. simpl.
  destruct (decide (p = q)) as [->|Hne].
  - exists (f r). rewrite list_lookup_alter_eq, H. split; [done|apply Hf].
  - exists r. by rewrite list_lookup_alter_ne.
Qed.

Lemma le_upd_run (p : nat) (f : Run -> Run) (w : World CS S) :
  (forall r, run_le r (f r)) -> world_le w (upd_run p f w).
Proof.
  intros Hf. constructor; try done; [|by intros q r H; exists r]. intros q r H. simpl.
  destruct (decide (p = q)) as [->|Hne].
  - exists (f r). by rewrite list_lookup_alter_eq, H.
  - exists r. by rewrite list_lookup_alter_ne.
Qed.

Lemma le_set_runs (rs : RunStore) (w : World CS S) :
  (forall p r, w_runs w !! p = Some r -> exists r', rs !! p = Some r' /\ run_le r r') ->
  world_le w (set_runs rs w).
Proof. intros H. constructor; try done. intros q r Hq. by exists r. Qed.

End monotone.

(** Inversion of a computation that gave a value. *)
Section inversion.
  Context {CS S : Type}.

Lemma bind_Val {A B} (m : M CS S A) (k : A -> M CS S B) (w : World CS S) (b : B) (w' : World CS S) :
  bind m k w = Val b w' <-> exists a w1, m w = Val a w1 /\ k a w1 = Val b w'.
Proof.
  unfold bind. split.
  - destruct (m w) as [a w1|msg w1|msg|] eqn:E; [eauto|done..].
  - by intros (a & w1 & -> & ->).
Qed.

Lemma finally_Val {A} (m : M CS S A) (f : World CS S -> World CS S) (w : World CS S) (a : A) w' :
  finally m f w = Val a w' <-> exists w1, m w = Val a w1 /\ w' = f w1.
Proof.
  unfold finally. split.
  - destruct (m w) as [b w1|msg w1|msg|] eqn:E; [|done..]. intros [= <- <-]. eauto.
  - by intros (w1 & -> & ->).
Qed.

Lemma get_runner_Val (p : nat) (w : World CS S) r w' :
  get_runner p w = Val r w' <-> w_runners w !! p = Some r /\ w' = w.
Proof. unfold get_runner. destruct (w_runners w !! p); naive_solver. Qed.

Lemma mono_Val {A} (m : M CS S A) (w : World CS S) a w' : mono m -> m w = Val a w' -> world_le w w'.
Proof. intros Hm E. specialize (Hm w). by rewrite E in Hm. Qed.

End inversion.

(** Equations for running a computation forward. *)
Section equations.
  Context {CS S : Type}.

Lemma bind_ret_eq {A B} (a : A) (k : A -> M CS S B) w : bind (ret a) k w = k a w.
Proof. reflexivity. Qed.
Lemma bind_get_eq {B} (k : World CS S -> M CS S B) w : bind get k w = k w w.
Proof. reflexivity. Qed.
Lemma bind_modify_eq {B} f (k : unit -> M CS S B) w : bind (modify f) k w = k tt (f w).
Proof. reflexivity. Qed.
Lemma bind_runner_eq {B} (p : nat) (k : Runner CS -> M CS S B) w r :
  w_runners w !! p = Some r -> bind (get_runner p) k w = k r w.
Proof. intros Hr. unfold bind, get_runner. by rewrite Hr. Qed.
Lemma bind_val_eq {A B} (m : M CS S A) (k : A -> M CS S B) w a w' :
  m w = Val a w' -> bind m k w = k a w'.
Proof. intros Hm. unfold bind. by rewrite Hm. Qed.
Lemma lookup_upd_runner (p : nat) f (w : World CS S) r :
  w_runners w !! p = Some r -> w_runners (upd_runner p f w) !! p = Some (f r).
Proof. intros Hr. simpl. by rewrite list_lookup_alter_eq, Hr. Qed.

End equations.

(** Take a computation that gave a value apart, one step. *)
Ltac bind_inv H x w E :=
  apply bind_Val in H as (x & w & E & H).

Create HintDb mono.
#[export] Hint Resolve mono_ret mono_panic mono_get mono_get_runner mono_bind mono_modify
  mono_finally mono_wrap_panic mono_goroutine mono_with_cancel : mono.
#[export] Hint Resolve le_add_event le_set_store le_set_nodes le_set_instances le_set_components
  le_cancel le_upd_runner le_upd_run : mono.

(** ** The environment

    The goroutines of one emission run one after the other in some order of
    its edges. While a goroutine waits for [d] or for its context, the rest of
    the process runs; when both are ready, the choice is arbitrary. *)
Class Env (CS S : Type) := {
  schedule : World CS S -> list TinyNodeEdge -> list TinyNodeEdge;
  others : Ctx -> Z -> World CS S -> World CS S;
  timer_first : World CS S -> bool;
  schedule_perm : forall w es, schedule w es ≡ₚ es;
  others_le : forall ctx d w, world_le w (others ctx d w);
  others_wake : forall ctx d w, ctx_err ctx (others ctx d w) = None ->
    (w_now w + d <= w_now (others ctx d w))%Z;
}.

(** A quiet process: nobody else runs. *)
Definition quiet (CS S : Type) : Env CS S.
Proof.
  refine {| schedule := fun _ es => es;
            others := fun _ d w => set_now (w_now w + Z.max 0 d) w;
            timer_first := fun _ => true |}.
  - done.
  - intros ctx d w. apply le_set_now. lia.
  - intros ctx d w _. simpl. lia.
Defined.

(** [select { case <-ctx.Done(): ...; case <-time.After(d): }]: the context's
    error, if that case was taken. *)
Definition select_wait {CS S} `{Env CS S} (ctx : Ctx) (d : Z) : M CS S error :=
  fun w =>
    let w' := others ctx d w in
    match ctx_err ctx w' with
    | None => Val None w'
    | Some e => if (w_now w + d <=? w_now w')%Z && timer_first w' then Val None w' else Val (Some e) w'
    end.

Lemma mono_select_wait {CS S} `{Env CS S} (ctx : Ctx) (d : Z) : mono (select_wait ctx d).
Proof.
  intros w. unfold select_wait. pose proof (others_le ctx d w).
  destruct (ctx_err ctx (others ctx d w)); [destruct (_ && _)|]; done.
Qed.
#[export] Hint Resolve mono_select_wait : mono.
