(* ===== verification/Send.v ===== *)
(** * Sending over an edge

    [sendToEdgeWithRetry] and [outputHandler] of
    [internal/scheduler/runner/runner.go]: what a component emits on a port is
    marshalled once and sent over every distinct edge of the port, each with
    its retry policy, timeout and, in a durable run, its step key. The handler
    that carries a message away is an argument. *)
From S2P Require Import Prelude GoErrors Names Graph Run Json Reflect ExecState Backoff World.
From Stdlib Require Import SpecFloat.

Open Scope string_scope.

(** ** Third-party code

    What the runtime calls of libraries that are not in the repository. *)
Class Lib := {
  json_marshal : option goval -> result goerror string;       (* github.com/goccy/go-json *)
  json_marshal_func : goerror;                                (* of a function: unsupported *)
  json_marshal_tree : json -> result goerror string;
  json_marshal_step : StepRecord -> result goerror string;
  json_unmarshal : string -> result goerror json;
  json_unmarshal_into : goval -> string -> result goerror goval;  (* by the type of the first *)
  json_error_field : string -> result goerror string;         (* into struct{ Error string } *)
  json_decode_number : string -> result goerror json;         (* a Decoder with UseNumber *)
  ajson_unmarshal : string -> result goerror json;            (* github.com/tiny-systems/ajson *)
  ajson_eval : json -> string -> result goerror json;
  sprint : json -> string;                                    (* fmt's %v *)
  new_uuid : nat -> result goerror string;                    (* the n-th time-based id *)
  uuid_string : nat -> string;                                (* the n-th random id *)
  cmp_equal : option goval -> option goval -> result string bool; (* go-cmp, which may panic *)
  panic_error : string -> goerror;                            (* errorpanic *)
  parse_float : string -> option spec_float;                  (* strconv *)
  out_of_range : spec_float -> Z;                             (* float64 to int64 overflow *)
  create_schema : goval -> result goerror string;             (* jsonschema-go, through pkg/schema *)
}.

Section send.
  Context {CS S : Type} `{Env CS S} `{Lib}.
  Abbreviation W := (World CS S).

(** [runner.Handler]. *)
Definition Handler : Type := Ctx -> Msg goval -> M CS S (result goerror (any goval)).

Definition defaultMaxAttempts : Z := 3.

Definition max_attempts (policy : option EdgeRetryPolicy) : nat :=
  match policy with
  | Some pol => Z.to_nat (if (0 <? MaxAttempts pol)%Z then MaxAttempts pol else defaultMaxAttempts)
  | None => Z.to_nat defaultMaxAttempts
  end.

(** The policy lists the error's code. *)
Definition blocked (policy : option EdgeRetryPolicy) (err : goerror) : bool :=
  let code := ErrorCode (Some err) in
  match policy with
  | Some pol => negb (code =? "") && existsb (String.eqb code) (NonRetryableErrorCodes pol)
  | None => false
  end.

Definition emit_record (msg : Msg goval) : EmitRecord :=
  mkEmit (m_To msg) (m_From msg) (m_EdgeID msg) (m_StepKey msg) (m_Data msg)
    (m_ReplySubject msg) (m_ReplyTarget msg) (m_ReplyDeadlineUnixMs msg).

Definition record_emit (run : option nat) (msg : Msg goval) : M CS S unit :=
  match run with
  | Some p => modify (upd_run p (fun r => RecordEmit r (emit_record msg)))
  | None => ret tt
  end.

(** The loop: [attempt] is the attempt to make, [left] how many may follow. *)
Fixpoint attempts (left attempt : nat) (ctx : Ctx) (policy : option EdgeRetryPolicy)
    (run : option nat) (msg : Msg goval) (handler : Handler) : M CS S (result goerror (any goval)) :=
  (let* r := handler ctx msg in
   match r with
   | Ok res => do record_emit run msg then ret (Ok res)
   | Err err =>
       if negb (ShouldRetry (Some err)) then ret (Err err)
       else if blocked policy err then ret (Err err)
       else match left with
            | O => ret (Err err)
            | Datatypes.S left' =>
                let* e := select_wait ctx (backoffDelay parse_float out_of_range policy attempt) in
                match e with
                | Some e => ret (Err e)
                | None => attempts left' (Datatypes.S attempt) ctx policy run msg handler
                end
            end
   end)%run.

(** The outgoing message; in a durable run this draws the next step key. *)
Definition outgoing (ctx : Ctx) (edge : TinyNodeEdge) (fromPort edgeTo dataBytes : string)
    (responseConfig : option goval) : M CS S (Msg goval * option nat) :=
  fun w =>
    match run_from ctx w with
    | None =>
        Val (mkMsg (e_ID edge) fromPort edgeTo dataBytes 0 "" "" "" "" "" 0 responseConfig, None) w
    | Some (p, r) =>
        let '(key, r') := NextStepKey r (e_ID edge) in
        Val (mkMsg (e_ID edge) fromPort edgeTo dataBytes 0 "" (r_RunID r) key
               (r_ReplySubject r) (r_ReplyTarget r) (r_ReplyDeadlineUnixMs r) responseConfig, Some p)
          (upd_run p (fun _ => r') w)
    end.

Definition set_edgeCancels (f : gmap string nat -> gmap string nat) (r : Runner CS) : Runner CS :=
  mkRunner (rn_node r) (rn_name r) (rn_flowName r) (rn_projectName r) (rn_declaredSecrets r)
    (rn_execDurable r) (rn_component r) (rn_cs r) (rn_nodePorts r) (rn_portMsg r)
    (rn_settingsSecretAt r) (rn_pendingNodeUpdaters r) (rn_debouncer r) (rn_activeEdges r)
    (f (rn_edgeCancels r)) (rn_hasState r) (rn_closeCh r) (rn_runCtx r).

(** The context of the attempts: the policy's timeout covers the whole loop. *)
Definition attempts_ctx (ctx : Ctx) (policy : option EdgeRetryPolicy) (w : W) : Ctx :=
  match policy with
  | Some pol => if (0 <? TimeoutMs pol)%Z then with_timeout ctx (wrap64 (TimeoutMs pol * Millisecond)) w
                else ctx
  | None => ctx
  end.

Definition track_edge (p : nat) (id : string) (c : nat) (w : W) : W :=
  if id =? "" then w else upd_runner p (set_edgeCancels (fun m => <[id := c]> m)) w.

Definition untrack_edge (p : nat) (id : string) (w : W) : W :=
  if id =? "" then w else upd_runner p (set_edgeCancels (fun m => delete id m)) w.

Definition sendToEdgeWithRetry (p : nat) (ctx : Ctx) (edge : TinyNodeEdge)
    (fromPort edgeTo dataBytes : string) (responseConfig : option goval) (handler : Handler)
    : M CS S (result goerror (any goval)) :=
  (let* (ctx, c) := with_cancel ctx in
   finally
     (do modify (track_edge p (e_ID edge) c) then
      finally
        (let policy := e_RetryPolicy edge in
         let* w := get in
         let ctx := attempts_ctx ctx policy w in
         let* (msg, run) := outgoing ctx edge fromPort edgeTo dataBytes responseConfig in
         attempts (max_attempts policy - 1) 1 ctx policy run msg handler)
        (untrack_edge p (e_ID edge)))
     (cancel c))%run.

(** ** outputHandler *)

(** Unique destinations, by the port and the target. *)
Fixpoint unique_edges (seen : list string) (edges : list TinyNodeEdge) : list TinyNodeEdge :=
  match edges with
  | [] => []
  | e :: es =>
      let to := (e_Port e +:+ e_To e) in
      if existsb (String.eqb to) seen then unique_edges seen es
      else e :: unique_edges (to :: seen) es
  end.

Definition port_edges (node : TinyNode) (port : string) : list TinyNodeEdge :=
  List.filter (fun e => e_Port e =? port) (unique_edges [] (spec_Edges (n_Spec node))).

Definition any_nil (v : any goval) : bool :=
  match v with AnyNil => true | AnyVal v => IsNil (Some v) | AnyErr _ => false end.

(** The goroutines of the group, in the order they run. *)
Fixpoint fan_out (p : nat) (ctx : Ctx) (edges : list TinyNodeEdge) (fromPort dataBytes : string)
    (responseConfig : option goval) (handler : Handler)
    : M CS S (list (any goval) * list goerror) :=
  (match edges with
   | [] => ret ([], [])
   | edge :: es =>
       let* r := goroutine (sendToEdgeWithRetry p ctx edge fromPort (e_To edge) dataBytes
                              responseConfig handler) in
       let* (results, errors) := fan_out p ctx es fromPort dataBytes responseConfig handler in
       ret match r with
           | Ok res => if any_nil res then (results, errors) else (res :: results, errors)
           | Err e => (results, e :: errors)
           end
   end)%run.

Definition set_nodePorts (ports : option (list Port)) (r : Runner CS) : Runner CS :=
  mkRunner (rn_node r) (rn_name r) (rn_flowName r) (rn_projectName r) (rn_declaredSecrets r)
    (rn_execDurable r) (rn_component r) (rn_cs r) ports (rn_portMsg r)
    (rn_settingsSecretAt r) (rn_pendingNodeUpdaters r) (rn_debouncer r) (rn_activeEdges r)
    (rn_edgeCancels r) (rn_hasState r) (rn_closeCh r) (rn_runCtx r).

(** A component without ports returns a nil slice, which is not kept. *)
Definition cache_ports (ports : list Port) : option (list Port) :=
  match ports with [] => None | _ => Some ports end.

Definition getNodePorts (p : nat) : M CS S (list Port) :=
  (let* r := get_runner p in
   let ports := c_Ports (rn_component r) (rn_cs r) in
   do modify (upd_runner p (set_nodePorts (cache_ports ports))) then
   ret ports)%run.

Definition getPorts (p : nat) : M CS S (list Port) :=
  (let* r := get_runner p in
   match rn_nodePorts r with
   | Some ports => ret ports
   | None => getNodePorts p
   end)%run.

Definition InvalidatePortCache (p : nat) : W -> W := upd_runner p (set_nodePorts None).

Definition find_port (port : string) (ports : list Port) : option Port :=
  List.find (fun q => p_Name q =? port) ports.

Definition HasPort (p : nat) (port : string) : M CS S bool :=
  (let* ports := getPorts p in ret (existsb (fun q => p_Name q =? port) ports))%run.

Definition GetPort (p : nat) (port : string) : M CS S (option Port) :=
  (let* ports := getPorts p in ret (find_port port ports))%run.

(** Marshalling what a component emits. *)
Definition marshal_out (data : OutData) : result goerror string :=
  match data with Data v => json_marshal v | UpdateNode _ => Err json_marshal_func end.

Definition outputHandler (p : nat) (ctx : Ctx) (port : string) (data : OutData)
    (handler : option Handler) : M CS S (result goerror (any goval)) :=
  (match marshal_out data with
   | Err err => ret (Err err)
   | Ok dataBytes =>
       match handler with
       | None => ret (Ok AnyNil)
       | Some handler =>
           if negb ((ParseFullPortName port).1 =? "")
           then sendToEdgeWithRetry p ctx (mkEdge "" "" "" "" None) "" port dataBytes None handler
           else
             let* r := get_runner p in
             let edges := port_edges (rn_node r) port in
             let* (ctx, c) := with_cancel ctx in
             let* ports := getPorts p in
             let responseConfig := match find_port port ports with
                                   | Some q => p_ResponseConfiguration q
                                   | None => None
                                   end in
             let fromPort := GetPortFullName (rn_name r) port in
             let* w := get in
             let* (results, errors) :=
               fan_out p ctx (schedule w edges) fromPort dataBytes responseConfig handler in
             do modify (cancel c) then
             match results, errors with
             | res :: _, _ => ret (Ok res)
             | [], e :: _ => ret (Err e)
             | [], [] => ret (Ok AnyNil)
             end
       end
   end)%run.

(** ** Traces of attempts

    A trace lists the attempts over an edge: the world before, what the
    handler answered, the world after. *)
Definition attempt_rec : Type := (W * result goerror (any goval) * W)%type.

(** A failure that may be tried again. *)
Definition transient (policy : option EdgeRetryPolicy) (err : goerror) : Prop :=
  ShouldRetry (Some err) = true /\ blocked policy err = false.

(** The attempts follow each other: each makes the same call, and the next
    one comes after a transient failure and the wait of its number. *)
Inductive chained (handler : Handler) (ctx : Ctx) (policy : option EdgeRetryPolicy)
    (msg : Msg goval) : nat -> list attempt_rec -> Prop :=
| chained_last (n : nat) (pre post : W) (res : result goerror (any goval)) :
    handler ctx msg pre = Val res post ->
    chained handler ctx policy msg n [(pre, res, post)]
| chained_next (n : nat) (pre post pre' post' : W) (e : goerror)
    (res' : result goerror (any goval)) (tr : list attempt_rec) :
    handler ctx msg pre = Val (Err e) post ->
    transient policy e ->
    select_wait ctx (backoffDelay parse_float out_of_range policy n) post = Val None pre' ->
    chained handler ctx policy msg (Datatypes.S n) ((pre', res', post') :: tr) ->
    chained handler ctx policy msg n ((pre, Err e, post) :: (pre', res', post') :: tr).

(** How the loop ends after the last attempt, which was number [n] and left
    [res] and [post]: with a success, which is recorded in the run; with a
    failure that is final; or with a failure whose wait the context cut short. *)
Definition ends (ctx : Ctx) (policy : option EdgeRetryPolicy) (run : option nat) (msg : Msg goval)
    (n : nat) (res : result goerror (any goval)) (post : W)
    (out : result goerror (any goval)) (w' : W) : Prop :=
  match res with
  | Ok v => out = Ok v /\ record_emit run msg post = Val tt w'
  | Err e =>
      (out = Err e /\ w' = post /\ (~ transient policy e \/ n = max_attempts policy)) \/
      (exists e', out = Err e' /\ transient policy e /\ (n < max_attempts policy)%nat /\
        select_wait ctx (backoffDelay parse_float out_of_range policy n) post = Val (Some e') w')
  end.

(** A handler that always answers. *)
Definition answers (handler : Handler) : Prop :=
  forall ctx msg w, exists r w', handler ctx msg w = Val r w'.

Lemma max_attempts_pos (policy : option EdgeRetryPolicy) : (1 <= max_attempts policy)%nat.
Proof.
  unfold max_attempts, defaultMaxAttempts. destruct policy as [pol|]; [|lia].
  destruct (Z.ltb_spec 0 (MaxAttempts pol)); lia.
Qed.

Lemma gate (policy : option EdgeRetryPolicy) (e : goerror) :
  if negb (ShouldRetry (Some e)) then ~ transient policy e
  else if blocked policy e then ~ transient policy e else transient policy e.
Proof.
  unfold transient. destruct (ShouldRetry (Some e)); simpl; [destruct (blocked policy e)|]; naive_solver.
Qed.

Lemma select_wait_val (ctx : Ctx) (d : Z) (w : W) : exists e w', select_wait ctx d w = Val e w'.
Proof. unfold select_wait. destruct (ctx_err _ _); [destruct (_ && _)|]; eauto. Qed.

Lemma record_emit_val (run : option nat) (msg : Msg goval) (w : W) :
  exists w', record_emit run msg w = Val tt w'.
Proof. destruct run; simpl; eauto. Qed.

Ltac single_attempt :=
  repeat match goal with
         | |- chained _ _ _ _ _ _ /\ _ => split; [by apply chained_last|]
         | |- ?x = ?x /\ _ => split; [done|]
         | |- (_ <= _)%nat /\ _ => split; [simpl; lia|]
         | |- ex _ /\ _ => split; [by eexists|]
         end.

Lemma attempts_trace (handler : Handler) (ctx : Ctx) (policy : option EdgeRetryPolicy)
    (run : option nat) (msg : Msg goval) (left n : nat) (w : W) :
  answers handler -> (n + left = max_attempts policy)%nat ->
  exists out w' tr res post pre0 res0 post0,
    attempts left n ctx policy run msg handler w = Val out w' /\
    chained handler ctx policy msg n ((pre0, res0, post0) :: tr) /\ pre0 = w /\
    (length tr <= left)%nat /\
    (exists pre, last ((pre0, res0, post0) :: tr) = Some (pre, res, post)) /\
    ends ctx policy run msg (n + length tr) res post out w'.
Proof.
  intros Hans. revert n w. induction left as [|left IH]; intros n w Hn; cbn [attempts];
    unfold bind at 1; destruct (Hans ctx msg w) as (r & w1 & Hcall); rewrite Hcall;
    (destruct r as [v|e]; [|pose proof (gate policy e) as Hg]).
  1, 3: unfold bind at 1; destruct (record_emit_val run msg w1) as [w2 Hrec]; rewrite Hrec;
    exists (Ok v), w2, [], (Ok v), w1, w, (Ok v), w1; (split; [done|]); by single_attempt.
  - exists (Err e), w1, [], (Err e), w1, w, (Err e), w1.
    split; [by destruct (negb (ShouldRetry (Some e))), (blocked policy e)|].
    single_attempt. left. split; [done|]. split; [done|]. right. simpl. lia.
  - destruct (negb (ShouldRetry (Some e))); [|destruct (blocked policy e)].
    1, 2: exists (Err e), w1, [], (Err e), w1, w, (Err e), w1; (split; [done|]);
      single_attempt; (left; split; [done|]; split; [done|]; by left).
    unfold bind. set (d := backoffDelay parse_float out_of_range policy n).
    destruct (select_wait_val ctx d w1) as (oe & w2 & Hwait). rewrite Hwait.
    destruct oe as [e'|].
    + exists (Err e'), w2, [], (Err e), w1, w, (Err e), w1.
      split; [done|]. single_attempt. right. exists e'.
      replace (n + length [])%nat with n by (simpl; lia). repeat split; try done; [apply Hg..|lia].
    + destruct (IH (Datatypes.S n) w2) as (out & w' & tr & res & post & pre0 & res0 & post0
        & Hrun & Hch & -> & Hlen & [pre Hlast] & Hend); [lia|].
      exists out, w', ((w2, res0, post0) :: tr), res, post, w, (Err e), w1.
      split; [exact Hrun|]. split; [by econstructor|]. split; [done|]. split; [simpl; lia|].
      split; [by exists pre|]. by replace (n + length ((w2, res0, post0) :: tr))%nat
        with (Datatypes.S n + length tr)%nat by (simpl; lia).
Qed.

(** ** Monotonicity *)

Lemma mono_record_emit (run : option nat) (msg : Msg goval) : mono (record_emit run msg).
Proof.
  destruct run; simpl; [|apply mono_ret]. apply mono_modify. intros w. apply le_upd_run.
  intros r. repeat split. by apply prefix_app_r.
Qed.

Lemma mono_attempts (left n : nat) (ctx : Ctx) (policy : option EdgeRetryPolicy) (run : option nat)
    (msg : Msg goval) (handler : Handler) :
  (forall ctx msg, mono (handler ctx msg)) -> mono (attempts left n ctx policy run msg handler).
Proof.
  intros Hh. revert n. induction left as [|left IH]; intros n; cbn [attempts];
    (apply mono_bind; [apply Hh|]); intros [v|e];
    try (apply mono_bind; [apply mono_record_emit|intros _; apply mono_ret]).
  - destruct (negb (ShouldRetry (Some e))), (blocked policy e); apply mono_ret.
  - destruct (negb (ShouldRetry (Some e))); [|destruct (blocked policy e)]; [apply mono_ret..|].
    apply mono_bind; [apply mono_select_wait|]. intros [e'|]; [apply mono_ret|apply IH].
Qed.

Lemma mono_outgoing (ctx : Ctx) (edge : TinyNodeEdge) (from to data : string) (resp : option goval) :
  mono (outgoing ctx edge from to data resp).
Proof.
  intros w. unfold outgoing. destruct (run_from ctx w) as [[q r]|] eqn:E; [|reflexivity].
  unfold NextStepKey. constructor; try done; intros p r' Hp; [|exists r'; by repeat split].
  unfold run_from, RunFrom in E. destruct (cx_run ctx) as [q'|]; [|done].
  destruct (w_runs w !! q') as [r''|] eqn:E'; [|done]. injection E as -> ->. simpl.
  destruct (decide (p = q)) as [->|Hne].
  - eexists. rewrite list_lookup_alter_eq, E'. split; [done|]. simplify_eq. by repeat split.
  - exists r'. rewrite list_lookup_alter_ne by done. split; [done|]. by repeat split.
Qed.

Lemma le_track_edge (p : nat) (id : string) (c : nat) (w : W) : world_le w (track_edge p id c w).
Proof. unfold track_edge. destruct (id =? ""); [reflexivity|]. by apply le_upd_runner. Qed.

Lemma le_untrack_edge (p : nat) (id : string) (w : W) : world_le w (untrack_edge p id w).
Proof. unfold untrack_edge. destruct (id =? ""); [reflexivity|]. by apply le_upd_runner. Qed.

Lemma mono_send (p : nat) (ctx : Ctx) (edge : TinyNodeEdge) (from to data : string)
    (resp : option goval) (handler : Handler) :
  (forall ctx msg, mono (handler ctx msg)) ->
  mono (sendToEdgeWithRetry p ctx edge from to data resp handler).
Proof.
  intros Hh. apply mono_bind; [apply mono_with_cancel|]. intros [ctx' c].
  apply mono_finally; [|apply le_cancel].
  apply mono_bind; [apply mono_modify, le_track_edge|]. intros _.
  apply mono_finally; [|apply le_untrack_edge].
  apply mono_bind; [apply mono_get|]. intros w.
  apply mono_bind; [apply mono_outgoing|]. intros [msg run]. by apply mono_attempts.
Qed.

Lemma le_set_nodePorts (p : nat) (ports : option (list Port)) (w : W) :
  world_le w (upd_runner p (set_nodePorts ports) w).
Proof. by apply le_upd_runner. Qed.

Lemma mono_getNodePorts (p : nat) : mono (getNodePorts p).
Proof.
  apply mono_bind; [apply mono_get_runner|]. intros r.
  apply mono_bind; [|intros _; apply mono_ret]. apply mono_modify. intros w. apply le_set_nodePorts.
Qed.

Lemma mono_getPorts (p : nat) : mono (getPorts p).
Proof.
  apply mono_bind; [apply mono_get_runner|]. intros r.
  destruct (rn_nodePorts r); [apply mono_ret|apply mono_getNodePorts].
Qed.

Lemma mono_fan_out (p : nat) (ctx : Ctx) (edges : list TinyNodeEdge) (from data : string)
    (resp : option goval) (handler : Handler) :
  (forall ctx msg, mono (handler ctx msg)) -> mono (fan_out p ctx edges from data resp handler).
Proof.
  intros Hh. induction edges as [|e es IH]; [apply mono_ret|]. cbn [fan_out].
  apply mono_bind; [by apply mono_goroutine, mono_send|]. intros r.
  apply mono_bind; [apply IH|]. intros [res errs]. apply mono_ret.
Qed.

Lemma mono_outputHandler (p : nat) (ctx : Ctx) (port : string) (data : OutData) (handler : option Handler) :
  (forall h, handler = Some h -> forall ctx msg, mono (h ctx msg)) ->
  mono (outputHandler p ctx port data handler).
Proof.
  intros Hh. unfold outputHandler. destruct (marshal_out data); [|apply mono_ret].
  destruct handler as [h|]; [|apply mono_ret]. specialize (Hh h eq_refl).
  destruct (negb _); [by apply mono_send|].
  apply mono_bind; [apply mono_get_runner|]. intros r.
  apply mono_bind; [apply mono_with_cancel|]. intros [ctx' c].
  apply mono_bind; [apply mono_getPorts|]. intros ports.
  apply mono_bind; [apply mono_get|]. intros w.
  apply mono_bind; [by apply mono_fan_out|]. intros [results errors].
  apply mono_bind; [apply mono_modify, le_cancel|]. intros _.
  destruct results; [destruct errors|]; apply mono_ret.
Qed.

End send.

(** ** Frames: what the bookkeeping around an emission leaves alone *)

Definition same_data {CS S} (w w' : World CS S) : Prop :=
  w_runs w' = w_runs w /\ w_store w' = w_store w /\ w_events w' = w_events w.

Lemma cancel_same {CS S} (c : nat) (w : World CS S) : same_data w (cancel c w).
Proof. unfold cancel. by destruct (w_cancelled w !! c). Qed.

Lemma track_same {CS S} (p : nat) (id : string) (c : nat) (w : World CS S) :
  same_data w (track_edge p id c w).
Proof. unfold track_edge. by destruct (id =? ""). Qed.

Lemma untrack_same {CS S} (p : nat) (id : string) (w : World CS S) :
  same_data w (untrack_edge p id w).
Proof. unfold untrack_edge. by destruct (id =? ""). Qed.

(** What the outgoing message carries. *)
Definition stamped (edge : TinyNodeEdge) (fromPort edgeTo data : string) (resp : option goval)
    (from : option (nat * Run)) (msg : Msg goval) (run : option nat) : Prop :=
  m_To msg = edgeTo /\ m_From msg = fromPort /\ m_EdgeID msg = e_ID edge /\
  m_Data msg = data /\ m_Resp msg = resp /\
  match from with
  | None => run = None /\ m_RunID msg = "" /\ m_StepKey msg = ""
  | Some (q, r) =>
      run = Some q /\ m_RunID msg = r_RunID r /\ m_StepKey msg = (NextStepKey r (e_ID edge)).1 /\
      m_ReplySubject msg = r_ReplySubject r /\ m_ReplyTarget msg = r_ReplyTarget r
  end.

Lemma outgoing_stamped {CS S} (ctx : Ctx) (edge : TinyNodeEdge) (from to data : string)
    (resp : option goval) (w : World CS S) :
  exists msg run w', outgoing ctx edge from to data resp w = Val (msg, run) w' /\
    stamped edge from to data resp (run_from ctx w) msg run.
Proof.
  unfold outgoing, stamped. destruct (run_from ctx w) as [[q r]|]; [|by do 3 eexists].
  unfold NextStepKey. by do 3 eexists.
Qed.

(** ** Sample instances

    For the concrete instances of the theorems. *)
Definition sample_text (v : option goval) : string :=
  match v with Some (VString s) => s | _ => "null" end.

Definition sample_lib : Lib := {|
  json_marshal v := Ok (sample_text v);
  json_marshal_func := ErrorString "json: unsupported type";
  json_marshal_tree t := match t with JStr s => Ok s | _ => Ok "{}" end;
  json_marshal_step r := Ok (sr_Node r +:+ ":" +:+ sr_Status r);
  json_unmarshal s := Ok (JStr s);
  json_unmarshal_into _ s := Ok (VString s);
  json_error_field s := Ok s;
  json_decode_number s := Ok (JStr s);
  ajson_unmarshal s := Ok (JStr s);
  ajson_eval t _ := Ok t;
  sprint t := match t with JStr s => s | _ => "" end;
  new_uuid n := Ok (go_itoa (Z.of_nat n));
  uuid_string n := "run-" +:+ go_itoa (Z.of_nat n);
  cmp_equal a b := Ok (sample_text a =? sample_text b);
  panic_error := ErrorString;
  parse_float _ := None;
  out_of_range _ := min_int64;
  create_schema _ := Ok "{}";
|}.

Definition empty_world {CS S : Type} (s : S) : World CS S :=
  mkWorld 0 0 [] ∅ 0 s [] ∅ ∅ ∅ [].

(** ** Properties *)

(** C18. Retrying an edge is safe and always ends: over a handler that always
    answers, [sendToEdgeWithRetry] answers after at least one and at most
    [MaxAttempts] calls (3 by default); every call carries the same message,
    so the same step key, under the same context; a further call is made only
    after a failure the component marked retryable whose code the policy does
    not block, and after the backoff of its number; the answer is the first
    success, which a durable run records exactly once, or the failure that
    ended the calls, or the context's error if it ended during a wait. *)
Theorem send_to_edge_spec {CS S} `{Env CS S} `{Lib} (p : nat) (ctx : Ctx) (edge : TinyNodeEdge)
    (fromPort edgeTo data : string) (resp : option goval) (handler : Handler) (w : World CS S) :
  answers handler ->
  exists out w' msg run ctx' tr pre res post w2,
    sendToEdgeWithRetry p ctx edge fromPort edgeTo data resp handler w = Val out w' /\
    (1 <= length tr <= max_attempts (e_RetryPolicy edge))%nat /\
    chained handler ctx' (e_RetryPolicy edge) msg 1 tr /\ last tr = Some (pre, res, post) /\
    ends ctx' (e_RetryPolicy edge) run msg (length tr) res post out w2 /\
    same_data w2 w' /\ cx_run ctx' = cx_run ctx /\
    stamped edge fromPort edgeTo data resp (run_from ctx w) msg run.
Proof.
  intros Hans. set (policy := e_RetryPolicy edge). set (c := w_nextCancel w).
  set (ctx1 := mkCtx (cx_run ctx) (c :: cx_cancels ctx) (cx_deadline ctx) (cx_source ctx)).
  set (w1 := track_edge p (e_ID edge) c (set_cancelled (w_cancelled w) (Datatypes.S c) w)).
  set (ctx' := attempts_ctx ctx1 policy w1).
  assert (Hctx : cx_run ctx' = cx_run ctx).
  { unfold ctx', attempts_ctx. destruct policy as [pol|]; [destruct (0 <? TimeoutMs pol)%Z|]; done. }
  assert (Hfrom : run_from ctx' w1 = run_from ctx w).
  { unfold run_from, RunFrom. rewrite Hctx. unfold w1.
    by destruct (track_same p (e_ID edge) c (set_cancelled (w_cancelled w) (Datatypes.S c) w)) as [-> _]. }
  destruct (outgoing_stamped ctx' edge fromPort edgeTo data resp w1) as (msg & run & w3 & Hout & Hst).
  pose proof (max_attempts_pos policy) as Hpos.
  destruct (attempts_trace handler ctx' policy run msg (max_attempts policy - 1) 1 w3 Hans)
    as (out & w4 & tr & res & post & pre0 & res0 & post0 & Hrun & Hch & _ & Hlen & [pre Hlast] & Hend);
    [lia|].
  exists out, (cancel c (untrack_edge p (e_ID edge) w4)), msg, run, ctx',
    ((pre0, res0, post0) :: tr), pre, res, post, w4.
  split.
  { unfold sendToEdgeWithRetry, bind at 1, with_cancel. cbv beta iota zeta.
    unfold finally at 1, bind at 1, modify at 1. cbv beta iota. fold c ctx1 w1.
    unfold finally, bind, get. cbv beta iota. fold policy ctx'. by rewrite Hout, Hrun. }
  rewrite <- Hfrom. split; [clearbody policy; clear - Hlen Hpos; unfold attempt_rec in *; cbn [length]; lia|]. repeat (split; [done|]). split; [|done].
  destruct (cancel_same c (untrack_edge p (e_ID edge) w4)) as (E1 & E2 & E3).
  destruct (untrack_same p (e_ID edge) w4) as (F1 & F2 & F3). repeat split; congruence.
Qed.

(** A target that is down for its first three seconds. *)
Definition flaky : @Handler (gmap string string) unit := fun _ _ w =>
  if (w_now w <? 3 * Second)%Z
  then Val (Err (RetryableError (ErrorString "503") true)) w else Val (Ok AnyNil) w.

Lemma send_to_edge_spec_witness :
  let edge := mkEdge "e1" "out" "b:in" "f" None in
  exists out w' (msg : Msg goval),
    @sendToEdgeWithRetry _ _ (quiet _ _) sample_lib 0 background edge "a:out" "b:in" "{}" None flaky
      (empty_world tt) = Val out w' /\
    out = Ok AnyNil /\ w_now w' = (3 * Second)%Z /\ m_To msg = "b:in".
Proof.
  intros edge.
  destruct (@send_to_edge_spec _ _ (quiet _ _) sample_lib 0 background edge "a:out" "b:in" "{}" None
    flaky (empty_world tt))
    as (out & w' & msg & run & ctx' & tr & pre & res & post & w2 & Hrun & _ & _ & _ & _ & _ & _ & Hst).
  { intros ctx m w. unfold flaky. destruct (w_now w <? 3 * Second)%Z; eauto. }
  exists out, w', msg. split; [exact Hrun|]. destruct Hst as [Hto _].
  vm_compute in Hrun. injection Hrun as <- <-. split; [reflexivity|]. split; [reflexivity|exact Hto].
Defined.

Lemma unique_edges_spec (seen : list string) (es : list TinyNodeEdge) (e : TinyNodeEdge) :
  let key x := e_Port x +:+ e_To x in
  (e ∈ unique_edges seen es -> e ∈ es /\ ~ key e ∈ seen) /\
  (e ∈ es -> ~ key e ∈ seen -> exists e', e' ∈ unique_edges seen es /\ key e' = key e).
Proof.
  intros key. revert seen. induction es as [|x es IH]; intros seen; simpl.
  - split; [intros H%not_elem_of_nil|intros H%not_elem_of_nil]; done.
  - assert (Hex : existsb (String.eqb (key x)) seen = true <-> key x ∈ seen).
    { rewrite existsb_exists. setoid_rewrite String.eqb_eq. setoid_rewrite list_elem_of_In. naive_solver. }
    fold (key x). destruct (existsb (String.eqb (key x)) seen).
    + destruct (IH seen) as [IH1 IH2]. split; [set_solver|]. intros [->|He]%elem_of_cons Hs; [|by apply IH2].
      by destruct Hs; apply Hex.
    + destruct (IH (key x :: seen)) as [IH1 IH2].
      assert (Hx : ~ key x ∈ seen) by (intros ?%Hex; done). split.
      * intros [->|He]%elem_of_cons; [split; [left|done]|]. destruct (IH1 He). split; [by right|set_solver].
      * intros He Hs. destruct (decide (key e = key x)) as [Heq|Hne]; [exists x; split; [left|done]|].
        destruct IH2 as (e' & ? & ?); [set_solver..|]. exists e'. split; [by right|done].
Qed.

Lemma unique_edges_nodup (seen : list string) (es : list TinyNodeEdge) :
  NoDup ((fun e => e_Port e +:+ e_To e) <$> unique_edges seen es).
Proof.
  revert seen. induction es as [|x es IH]; intros seen; [constructor|]. simpl.
  destruct (existsb _ seen); [apply IH|]. csimpl. constructor; [|apply IH].
  intros (e & Heq & He)%list_elem_of_fmap. apply unique_edges_spec in He as [_ Hn]. apply Hn.
  rewrite Heq. left.
Qed.

(** Some other edge of the node hides the edge: the same concatenation of port
    and target, on another port. *)
Definition collides (es : list TinyNodeEdge) : Prop :=
  exists e e', e ∈ es /\ e' ∈ es /\ e_Port e +:+ e_To e = e_Port e' +:+ e_To e' /\ e_Port e <> e_Port e'.

(** An emission reaches every destination of its port once: the edges sent
    over leave the port and have pairwise different targets; and unless two
    ports collide they cover every target wired to the port. The key of the
    check is the port followed by the target with nothing between, so two
    edges can collide, and then one port's edge silently receives nothing. *)
Theorem port_edges_each_target_once (node : TinyNode) (port : string) :
  let es := spec_Edges (n_Spec node) in
  (forall e, e ∈ port_edges node port -> e ∈ es /\ e_Port e = port) /\
  NoDup (e_To <$> port_edges node port) /\
  (~ collides es -> forall e, e ∈ es -> e_Port e = port -> e_To e ∈ e_To <$> port_edges node port) /\
  exists es', collides es' /\
    port_edges (with_edges node es') "output" = [] /\
    exists e, e ∈ es' /\ e_Port e = "output" /\ e_To e = "node:in".
Proof.
  intros es. unfold port_edges. fold es.
  assert (Hin : forall e, e ∈ List.filter (fun e => e_Port e =? port) (unique_edges [] es) <->
    e ∈ unique_edges [] es /\ e_Port e = port).
  { intros e. rewrite !list_elem_of_In, filter_In, String.eqb_eq. done. }
  split; [|split; [|split]].
  - intros e [He Hp]%Hin. apply unique_edges_spec in He as [He _]. done.
  - pose proof (unique_edges_nodup [] es) as Hnd. clear Hin. induction (unique_edges [] es) as [|x l IH];
      [constructor|]. csimpl in *. inversion Hnd as [|? ? Hx Hl]; subst.
    destruct (String.eqb_spec (e_Port x) port) as [Hp|]; csimpl; [|by apply IH]. constructor; [|by apply IH].
    intros (e & Heq & [He Hpe]%list_elem_of_In%filter_In)%list_elem_of_fmap. apply Hx.
    apply list_elem_of_fmap. exists e. apply String.eqb_eq in Hpe. split; [congruence|by apply list_elem_of_In].
  - intros Hno e He Hp. destruct (unique_edges_spec [] es e) as [_ H].
    destruct (H He) as (e' & He' & Hk); [apply not_elem_of_nil|].
    assert (Hp' : e_Port e' = e_Port e).
    { destruct (decide (e_Port e' = e_Port e)); [done|]. destruct Hno. exists e', e.
      apply unique_edges_spec in He' as [? _]. done. }
    apply list_elem_of_fmap. exists e'. rewrite Hp' in Hk. apply str_app_inj_l in Hk.
    split; [done|]. apply Hin. split; [done|congruence].
  - exists [mkEdge "e1" "out" "putnode:in" "f" None; mkEdge "e2" "output" "node:in" "f" None].
    split; [|split; [reflexivity|]].
    + exists (mkEdge "e1" "out" "putnode:in" "f" None), (mkEdge "e2" "output" "node:in" "f" None).
      repeat split; [set_solver..|done].
    + exists (mkEdge "e2" "output" "node:in" "f" None). repeat split; set_solver.
Qed.
