(* ===== verification/Runner.v ===== *)
(** * The node runner

    [internal/scheduler/runner/runner.go] but for sending ([Send]): a runner
    owns one component instance and the node it implements. [MsgHandler] takes
    a message in: durable-run identity and ledger, the data of the port, the
    settings check, tracing, the component's code. [DataHandler] takes what the
    component emits. [SetNode], [Stop] and the debounced status patch complete
    the life of a node. *)
From S2P Require Import Prelude GoErrors Names Graph Run Json Redact Shape.
From S2P Require Import Reflect Secret Evaluator ExecState Backoff Debouncer World Send.

Open Scope string_scope.

Section setters.
  Context {CS : Type}.
  Abbreviation R := (Runner CS).

Definition set_spec (node : TinyNode) (declared : gset string) (r : R) : R :=
  mkRunner node (n_Name node) (label node FlowNameLabel) (label node ProjectNameLabel) declared
    (label node ExecutionModeLabel =? ExecutionModeDurable) (rn_component r) (rn_cs r)
    (rn_nodePorts r) (rn_portMsg r) (rn_settingsSecretAt r) (rn_pendingNodeUpdaters r)
    (rn_debouncer r) (rn_activeEdges r) (rn_edgeCancels r) (rn_hasState r) (rn_closeCh r) (rn_runCtx r).
Definition set_cs (cs : CS) (r : R) : R :=
  mkRunner (rn_node r) (rn_name r) (rn_flowName r) (rn_projectName r) (rn_declaredSecrets r)
    (rn_execDurable r) (rn_component r) cs (rn_nodePorts r) (rn_portMsg r)
    (rn_settingsSecretAt r) (rn_pendingNodeUpdaters r) (rn_debouncer r) (rn_activeEdges r)
    (rn_edgeCancels r) (rn_hasState r) (rn_closeCh r) (rn_runCtx r).
Definition set_settings (port : string) (data : option goval) (at_ : option Z) (r : R) : R :=
  mkRunner (rn_node r) (rn_name r) (rn_flowName r) (rn_projectName r) (rn_declaredSecrets r)
    (rn_execDurable r) (rn_component r) (rn_cs r) (rn_nodePorts r) (<[port := data]> (rn_portMsg r))
    (match at_ with Some t => <[port := t]> (rn_settingsSecretAt r) | None => rn_settingsSecretAt r end)
    (rn_pendingNodeUpdaters r) (rn_debouncer r) (rn_activeEdges r)
    (rn_edgeCancels r) (rn_hasState r) (rn_closeCh r) (rn_runCtx r).
Definition set_updaters (us : list NodeUpdater) (r : R) : R :=
  mkRunner (rn_node r) (rn_name r) (rn_flowName r) (rn_projectName r) (rn_declaredSecrets r)
    (rn_execDurable r) (rn_component r) (rn_cs r) (rn_nodePorts r) (rn_portMsg r)
    (rn_settingsSecretAt r) us (rn_debouncer r) (rn_activeEdges r)
    (rn_edgeCancels r) (rn_hasState r) (rn_closeCh r) (rn_runCtx r).
Definition set_debouncer (d : ReconcileDebouncer TinyNode) (r : R) : R :=
  mkRunner (rn_node r) (rn_name r) (rn_flowName r) (rn_projectName r) (rn_declaredSecrets r)
    (rn_execDurable r) (rn_component r) (rn_cs r) (rn_nodePorts r) (rn_portMsg r)
    (rn_settingsSecretAt r) (rn_pendingNodeUpdaters r) d (rn_activeEdges r)
    (rn_edgeCancels r) (rn_hasState r) (rn_closeCh r) (rn_runCtx r).
Definition set_activeEdges (m : gmap string Z) (r : R) : R :=
  mkRunner (rn_node r) (rn_name r) (rn_flowName r) (rn_projectName r) (rn_declaredSecrets r)
    (rn_execDurable r) (rn_component r) (rn_cs r) (rn_nodePorts r) (rn_portMsg r)
    (rn_settingsSecretAt r) (rn_pendingNodeUpdaters r) (rn_debouncer r) m
    (rn_edgeCancels r) (rn_hasState r) (rn_closeCh r) (rn_runCtx r).
Definition set_hasState (b : bool) (r : R) : R :=
  mkRunner (rn_node r) (rn_name r) (rn_flowName r) (rn_projectName r) (rn_declaredSecrets r)
    (rn_execDurable r) (rn_component r) (rn_cs r) (rn_nodePorts r) (rn_portMsg r)
    (rn_settingsSecretAt r) (rn_pendingNodeUpdaters r) (rn_debouncer r) (rn_activeEdges r)
    (rn_edgeCancels r) b (rn_closeCh r) (rn_runCtx r).

End setters.

(** ** Third-party code: the API server, through controller-runtime's client

    Reading a node and patching its status, under a context that may be done. *)
Class Kube := {
  kube_get : gmap string TinyNode -> error -> string -> result goerror TinyNode;
  kube_patch_status : gmap string TinyNode -> error -> TinyNode -> TinyNode ->
    result goerror (gmap string TinyNode);
}.

Definition FromSignal : string := "signal".
Definition secretResolveTTL : Z := 60 * Second.

Section runner.
  Context {CS S : Type} `{Env CS S} `{Lib} `{Kube} `{ExecStore S}.
  Abbreviation W := (World CS S).
  Abbreviation Hdl := (@Handler CS S).

Definition NewRunner (component : Component CS) (closeCh runCtx : nat) : Runner CS :=
  mkRunner (mkNode "" "" ∅ 0 (mkSpec "" "" [] []) empty_status) "" "" "" ∅ false component
    (c_Instance component) None ∅ ∅ [] NewReconcileDebouncer ∅ ∅ false closeCh runCtx.

(** ** Ports and their status *)

(** [return data] where nothing was redacted: the bytes that came in. *)
Definition redactPortConfiguration (data : string) : string :=
  if data =? "" then data
  else match json_decode_number data with
       | Err _ => ""
       | Ok decoded =>
           let redacted := Secrets decoded in
           if bool_decide (decoded = redacted) then data
           else match json_marshal_tree redacted with Ok out => out | Err _ => "" end
       end.

Definition system_port (q : Port) : bool :=
  (p_Name q =? ReconcilePort) || (p_Name q =? ClientPort) || (p_Name q =? IdentityPort).

(** Marshal errors are logged and leave the field empty. *)
Definition port_status (np : Port) : TinyNodePortStatus :=
  let schema :=
    match p_Schema np, p_Configuration np with
    | Some s, _ => s
    | None, Some conf => match create_schema conf with Ok s => s | Err _ => "" end
    | None, None => ""
    end in
  let configuration :=
    match p_Configuration np with
    | Some conf =>
        redactPortConfiguration match json_marshal (Some conf) with Ok b => b | Err _ => "" end
    | None => ""
    end in
  mkPortStatus (p_Name np) (p_Label np) (p_Position np) (p_Source np) schema configuration.

Definition ReadStatus (p : nat) (status : TinyNodeStatus) : M CS S TinyNodeStatus :=
  (let* all := getNodePorts p in
   let ports := sort_stable p_Name (List.filter (fun q => negb (system_port q)) all) in
   let* r := get_runner p in
   let info := rn_component r in
   ret (mkStatus (st_ObservedGeneration status) (c_Description info) (c_Info info) (c_Tags info)
          (map port_status ports) "OK" (st_Metadata status) false))%run.

Definition getPortConfig (node : TinyNode) (from port : string) : option TinyNodePortConfig :=
  List.find (fun pc => (pc_From pc =? from) && (pc_Port pc =? port)) (spec_Ports (n_Spec node)).

(** ** Spans *)

Definition declaredSecretNames (node : TinyNode) : gset string :=
  ⋃ ((fun pc => AuthoredSecretNames (fun s => match json_unmarshal s with Ok v => Some v | Err _ => None end)
                  (pc_Schema pc)) <$> spec_Ports (n_Spec node)).

Definition redactPayload (declared : gset string) (data : string) : string :=
  if data =? "" then data
  else match json_unmarshal data with
       | Err _ => ""
       | Ok decoded =>
           match json_marshal_tree (redact_decoded declared decoded) with Ok out => out | Err _ => "" end
       end.

Definition addSpanPortData (data : string) : W -> W := add_event (EvSpan (TextByShape data).1).

Definition is_canceled (err : goerror) : bool :=
  existsb (fun e => match e with ContextCanceled => true | _ => false end) (chain err).

Definition addSpanError (err : goerror) : W -> W :=
  if is_canceled err then fun w => w else add_event (EvSpanError (error_text err)).

Definition errorPayloadMessage (payload : string) : string :=
  match json_error_field payload with
  | Ok msg => if msg =? "" then "component emitted on its error port" else msg
  | Err _ => "component emitted on its error port"
  end.

Definition addSpanHandledError (payload : string) : W -> W :=
  add_event (EvSpanError (errorPayloadMessage payload)).

(** [uuid.NewUUID()]. *)
Definition newUUID : M CS S (result goerror string) :=
  fun w => Val (new_uuid (w_uuids w)) (set_uuids (Datatypes.S (w_uuids w)) w).
Definition newString : M CS S string :=
  fun w => Val (uuid_string (w_uuids w)) (set_uuids (Datatypes.S (w_uuids w)) w).

(** A panic of [redact.Declared]. *)
Definition declared_or_panic (v : option goval) : M CS S (option goval) :=
  match Declared v with Ok (out, _) => ret out | Err e => panic (error_text e) end.

(** The bytes of a value for a span: nothing where marshalling fails. *)
Definition span_bytes (v : option goval) : string :=
  match json_marshal v with Ok b => b | Err _ => "" end.

(** ** Status patches *)

(** The updaters, in order, on the node that was read. *)
Fixpoint apply_updaters (us : list NodeUpdater) (node : TinyNode) : result goerror TinyNode :=
  match us with
  | [] => Ok node
  | u :: us' => match u node with Ok node' => apply_updaters us' node' | Err e => Err e end
  end.

(** [Manager.PatchNode] (pkg/resource/manager.go). *)
Definition PatchNode (ctx : Ctx) (node : TinyNode)
    (updater : TinyNode -> M CS S (result goerror TinyNode)) : M CS S error :=
  (let* w := get in
   match kube_get (w_nodes w) (ctx_err ctx w) (n_Name node) with
   | Err e => ret (Some e)
   | Ok baseNode =>
       let* updated := updater baseNode in
       match updated with
       | Err e => ret (Some e)
       | Ok findNode =>
           if bool_decide (n_Status findNode = n_Status baseNode) then ret None
           else
             let* w := get in
             match kube_patch_status (w_nodes w) (ctx_err ctx w) baseNode findNode with
             | Err e => do modify (add_event (EvPatch (n_Name node) false)) then ret (Some e)
             | Ok nodes =>
                 do modify (set_nodes nodes) then
                 do modify (add_event (EvPatch (n_Name node) true)) then
                 ret None
             end
       end
   end)%run.

(** The debounced function: it drains the updaters and patches the node. *)
Definition run_patch (p : nat) (currentNode : TinyNode) : M CS S unit :=
  (let* r := get_runner p in
   let updaters := rn_pendingNodeUpdaters r in
   do modify (upd_runner p (set_updaters [])) then
   let ctx := mkCtx None [rn_runCtx r] None "" in
   let* _ := PatchNode ctx currentNode (fun node =>
     match apply_updaters updaters node with
     | Err e => ret (Err e)
     | Ok node' =>
         let* status := ReadStatus p (n_Status node') in ret (Ok (with_status node' status))
     end) in
   ret tt)%run.

Definition debounce_patch (p : nat) : W -> W :=
  upd_runner p (fun r => set_debouncer (Debounce (rn_debouncer r) (rn_node r)).1 r).

(** [Flush] of the debouncer, which runs the pending patch. *)
Definition flush_patch (p : nat) : M CS S unit :=
  (let* r := get_runner p in
   let '(d, update) := Flush (rn_debouncer r) in
   do modify (upd_runner p (set_debouncer d)) then
   match update with Some node => run_patch p node | None => ret tt end)%run.

(** ** DataHandler *)

Definition success {V} : Result V := mkResult AnyNil.
Definition failure {V} (e : goerror) : Result V := result_fail (Some e).

Definition push_updater (p : nat) (data : OutData) : W -> W :=
  match data with
  | UpdateNode f => upd_runner p (fun r => set_updaters (rn_pendingNodeUpdaters r ++ [f]) r)
  | Data _ => fun w => w
  end.

Definition emit_span (p : nat) (port : string) (data : OutData) : M CS S unit :=
  (let* r := get_runner p in
   let* outputDataBytes :=
     match data with
     | Data v => let* safe := declared_or_panic v in ret (span_bytes safe)
     | UpdateNode _ => ret ""
     end in
   do modify (addSpanPortData (redactPayload (rn_declaredSecrets r) outputDataBytes)) then
   modify (if port =? ErrorPort then addSpanHandledError outputDataBytes else fun w => w))%run.

Definition DataHandler (p : nat) (outputHandler' : option Hdl) (ctx : Ctx) (port : string)
    (data : OutData) : M CS S (Result goval) :=
  (if port =? ControlPort then
     do modify (InvalidatePortCache p) then
     do modify (debounce_patch p) then
     ret success
   else if port =? ReconcilePort then
     do modify (push_updater p data) then
     do modify (debounce_patch p) then
     ret success
   else
     let* u := newUUID in
     match u with
     | Err e => ret (failure e)
     | Ok _ =>
         do emit_span p port data then
         let* res := outputHandler p ctx port data outputHandler' in
         match res with
         | Err e => ret (failure e)
         | Ok v => ret (result_ok v)
         end
     end)%run.

(** ** The component's code *)

(** A program of the component at [p]: it emits through [handler]. A panic
    unwinds it. *)
Fixpoint run_prog (p : nat) (handler : option Hdl) (c : Prog CS) : M CS S (Result goval) :=
  (match c with
   | Return r => ret r
   | Panic msg => panic msg
   | GetState k => let* r := get_runner p in run_prog p handler (k (rn_cs r))
   | PutState s k => do modify (upd_runner p (set_cs s)) then run_prog p handler k
   | Emit ctx port data k =>
       let* res := DataHandler p handler ctx port data in run_prog p handler (k res)
   | Begin ctx reply k =>
       let* uuid := newString in
       let* w := get in
       let '(ctx', id, runs) :=
         match reply with
         | Some (subject, target, deadline) =>
             BeginRunWithReply uuid ctx subject target deadline (w_runs w)
         | None => BeginRun uuid ctx (w_runs w)
         end in
       do modify (set_runs runs) then
       run_prog p handler (k ctx' id)
   | Sleep d k => let* _ := select_wait background d in run_prog p handler k
   end)%run.

(** The result and whether the port was a system port. *)
Definition dispatchCapability (p : nat) (emitter : option Hdl) (ctx : Ctx) (port : string)
    (data : option goval) : M CS S (Result goval * bool) :=
  (let* r := get_runner p in
   let call h :=
     match h with
     | Some f =>
         do modify (add_event (EvCapability (rn_name r) port data)) then
         let* res := run_prog p emitter (f ctx data) in
         ret (result_fail (result_err res), true)
     | None => ret (success, true)
     end in
   if port =? SettingsPort then call (c_OnSettings (rn_component r))
   else if port =? ControlPort then call (c_OnControl (rn_component r))
   else if (port =? ReconcilePort) || (port =? ClientPort) || (port =? IdentityPort)
   then ret (success, true)
   else ret (success, false))%run.

Definition call_component (p : nat) (emitter handler : option Hdl) (ctx : Ctx) (port : string)
    (data : option goval) : M CS S (result goerror (any goval)) :=
  (let* (resp, handled) := dispatchCapability p emitter ctx port data in
   let* resp :=
     if handled : bool then ret resp
     else
       let* r := get_runner p in
       do modify (add_event (EvHandle (rn_name r) port data)) then
       run_prog p handler (c_Handle (rn_component r) ctx port data) in
   ret match result_err resp with Some e => Err e | None => Ok (result_value resp) end)%run.

(** ** MsgHandler *)

(** The ledger says the hop ran. *)
Definition recorded (s : S) (runID stepKey : string) : bool :=
  match exec_get s runID (StepLedgerKey stepKey) with Ok (Some _) => true | _ => false end.

(** The run identity of the message; [None] for a hop that already ran. *)
Definition enter_run (r : Runner CS) (ctx : Ctx) (msg : Msg goval) (port : string)
    : M CS S (option Ctx) :=
  (if negb (m_RunID msg =? "") then
     let* w := get in
     if negb (m_StepKey msg =? "") && rn_hasState r && recorded (w_store w) (m_RunID msg) (m_StepKey msg)
     then ret None
     else
       let '(ctx', runs) := WithRun ctx (NewRun (m_RunID msg) (m_StepKey msg)) (w_runs w) in
       do modify (set_runs runs) then ret (Some ctx')
   else if rn_execDurable r && negb (go_has_prefix port "_") then
     let* uuid := newString in
     let* w := get in
     let '(ctx', runs) := WithRun ctx (MintRun uuid) (w_runs w) in
     do modify (set_runs runs) then ret (Some ctx')
   else ret (Some ctx))%run.

(** The goroutine that cancels when [closeCh] closes. *)
Definition closing (closeCh : nat) (ctx : Ctx) : Ctx :=
  mkCtx (cx_run ctx) (closeCh :: cx_cancels ctx) (cx_deadline ctx) (cx_source ctx).

Definition eval_callback (requestData : json) (expression : string) : result goerror json :=
  if expression =? "" then Err (ErrorString "expression is empty")
  else ajson_eval requestData expression.

(** The data of the port, and the expressions that failed: a signal's own
    data, the edge configuration evaluated on the message, or the port's
    configuration. *)
Definition port_input (r : Runner CS) (msg : Msg goval) (port : string) (conf : goval)
    : result goerror (option goval * list (string * goerror)) :=
  (if m_From msg =? FromSignal then
     let! v := json_unmarshal_into conf (m_Data msg) in Ok (Some v, [])
   else
     match getPortConfig (rn_node r) (m_From msg) port with
     | Some pc =>
         if pc_Configuration pc =? "" then Ok (Some conf, [])
         else
           match ajson_unmarshal (m_Data msg) with
           | Err e => Err (WrapError "ajson parse requestData payload error: " e)
           | Ok requestData =>
               match Eval (eval_callback requestData) sprint ajson_unmarshal (pc_Configuration pc) with
               | Err e => Err (WrapError "eval port edge settings config: " e)
               | Ok (configurationMap, exprErrors) =>
                   match (let! b := json_marshal_tree configurationMap in
                          json_unmarshal_into conf b) with
                   | Err e => Err (WrapError "map decode from config map to port input type: " e)
                   | Ok v => Ok (Some v, exprErrors)
                   end
               end
           end
     | None => Ok (Some conf, [])
     end)%go.

Definition secretResolveTTLLapsed (r : Runner CS) (now : Z) (port : string) : bool :=
  match rn_settingsSecretAt r !! port with
  | None => true
  | Some last => (secretResolveTTL <=? now - last)%Z
  end.

(** Whether the delivery is skipped: settings the component has already. *)
Definition settings_skip (p : nat) (port : string) (portData : option goval) : M CS S bool :=
  (if negb (port =? SettingsPort) then ret false
   else
     let* r := get_runner p in
     let* w := get in
     let hasSecret := ContainsPlaceholder portData in
     let* same :=
       match rn_portMsg r !! port with
       | None => ret false
       | Some prev => match cmp_equal portData prev with Ok b => ret b | Err msg => panic msg end
       end in
     if (same : bool) && (negb hasSecret || negb (secretResolveTTLLapsed r (w_now w) port))
     then ret true
     else
       do modify (upd_runner p (set_settings port portData (if hasSecret then Some (w_now w) else None))) then
       ret false)%run.

Definition setGauge (p : nat) (val : Z) (edgeID : string) : W -> W :=
  if edgeID =? "" then fun w => w
  else upd_runner p (fun r => set_activeEdges (<[edgeID := val]> (rn_activeEdges r)) r).

Definition clearGauge (p : nat) (edgeID : string) : W -> W :=
  upd_runner p (fun r => set_activeEdges (delete edgeID (rn_activeEdges r)) r).

Definition step_record (node : string) (run : Run.Run) (handleErr : error) (startedAt completedAt : Z)
    : StepRecord :=
  mkStep node (match handleErr with None => StepStatusDone | Some _ => StepStatusFailed end)
    (match handleErr with None => "" | Some e => error_text e end)
    (Emits run) startedAt completedAt (Z.quot (completedAt - startedAt) Millisecond).

Definition writeStepRecord (p : nat) (ctx : Ctx) (handleErr : error) (startedAt : Z) : M CS S unit :=
  (let* r := get_runner p in
   let* w := get in
   match run_from ctx w with
   | Some (_, run) =>
       if negb (rn_hasState r) then ret tt
       else
         match json_marshal_step (step_record (rn_name r) run handleErr startedAt (w_now w)) with
         | Err _ => ret tt
         | Ok b =>
             match exec_set (w_store w) (r_RunID run) (StepLedgerKey (r_StepKey run)) b with
             | Ok s => modify (set_store s)
             | Err _ => ret tt
             end
         end
   | None => ret tt
   end)%run.

(** From the port's data to the component and the ledger. *)
Definition execute (p : nat) (emitter handler : option Hdl) (ctx : Ctx) (msg : Msg goval)
    (port : string) (portData : option goval) (exprErrors : list (string * goerror))
    : M CS S (result goerror (any goval)) :=
  (let* u := newUUID in
   match u with
   | Err e => ret (Err e)
   | Ok _ =>
       do modify (fun w => fold_left (fun w x => add_event (EvExprError x.1 (error_text x.2)) w) exprErrors w) then
       let* r := get_runner p in
       let* safeInput := declared_or_panic portData in
       do modify (addSpanPortData (redactPayload (rn_declaredSecrets r) (span_bytes safeInput))) then
       let sourceNode := (ParseFullPortName (m_From msg)).1 in
       let ctx := if sourceNode =? "" then ctx else with_source ctx sourceNode in
       let* w := get in
       let handleStart := w_now w in
       let* res := wrap_panic panic_error
         (do modify (setGauge p handleStart (m_EdgeID msg)) then
          finally (call_component p emitter handler ctx port portData)
            (clearGauge p (m_EdgeID msg))) in
       let err := match res with Ok _ => None | Err e => Some e end in
       do writeStepRecord p ctx err handleStart then
       do modify (match err with Some e => addSpanError e | None => fun w => w end) then
       ret res
   end)%run.

Definition deliver (p : nat) (emitter handler : option Hdl) (ctx : Ctx) (msg : Msg goval)
    (port : string) : M CS S (result goerror (any goval)) :=
  (let* ports := getPorts p in
   match find_port port ports with
   | None => ret (Ok AnyNil)
   | Some nodePort =>
       match p_Configuration nodePort with
       | None => ret (Ok AnyNil)
       | Some conf =>
           let* r := get_runner p in
           match port_input r msg port conf with
           | Err e => ret (Err e)
           | Ok (portData, exprErrors) =>
               let* skip := settings_skip p port portData in
               if skip : bool then ret (Ok AnyNil)
               else execute p emitter handler ctx msg port portData exprErrors
           end
       end
   end)%run.

Definition MsgHandler (p : nat) (emitter handler : option Hdl) (ctx : Ctx) (msg : Msg goval)
    : M CS S (result goerror (any goval)) :=
  (let port := (ParseFullPortName (m_To msg)).2 in
   if port =? "" then ret (Err (ErrorString "input port is empty"))
   else
     let* r := get_runner p in
     let* entered := enter_run r ctx msg port in
     match entered with
     | None => ret (Ok AnyNil)
     | Some ctx =>
         let* (ctx, c) := with_cancel ctx in
         finally (deliver p emitter handler (closing (rn_closeCh r) ctx) msg port) (cancel c)
     end)%run.

(** ** The node's life *)

Definition cancelRemovedEdges (cancels : gmap string nat) (oldEdges newEdges : list TinyNodeEdge)
    (w : W) : W :=
  fold_left (fun w e =>
    if existsb (fun e' => e_ID e' =? e_ID e) newEdges then w
    else match cancels !! e_ID e with Some c => cancel c w | None => w end) oldEdges w.

Definition SetNode (p : nat) (node : TinyNode) : M CS S unit :=
  (let* r := get_runner p in
   let oldEdges := spec_Edges (n_Spec (rn_node r)) in
   do modify (upd_runner p (set_spec node (declaredSecretNames node))) then
   do modify (cancelRemovedEdges (rn_edgeCancels r) oldEdges (spec_Edges (n_Spec node))) then
   modify (InvalidatePortCache p))%run.

(** [close(c.closeCh)]. *)
Definition close_channel (c : nat) : M CS S unit :=
  fun w => match w_cancelled w !! c with
           | Some _ => Panicked "close of closed channel" w
           | None => Val tt (cancel c w)
           end.

Definition StopWithoutCleanup (p : nat) : M CS S unit :=
  (let* r := get_runner p in
   do flush_patch p then
   do modify (cancel (rn_runCtx r)) then
   close_channel (rn_closeCh r))%run.

Definition Stop (p : nat) : M CS S unit :=
  (let* r := get_runner p in
   do flush_patch p then
   do modify (cancel (rn_runCtx r)) then
   do (match c_OnDestroy (rn_component r) with
       | Some f =>
           modify (upd_runner p (fun r => set_cs (f (st_Metadata (n_Status (rn_node r))) (rn_cs r)) r))
       | None => ret tt
       end) then
   close_channel (rn_closeCh r))%run.

End runner.
