(* ===== verification/RunnerSpec.v ===== *)
(** * What the runner guarantees

    Properties of the definitions of [Runner]: a durable step runs at most
    once and leaves its record after its emissions, a run loses its reply
    address at the first hop, settings are delivered when they change, status
    patches and what spans and statuses disclose. *)
From S2P Require Import Prelude GoErrors Names Graph Run Json Redact Shape.
From S2P Require Import Reflect Secret Evaluator ExecState Backoff Debouncer World Send Runner.

Open Scope string_scope.

(** ** Every operation of the runner is monotone *)

Section monotone_runner.
  Context {CS S : Type} `{Env CS S} `{Lib} `{Kube} `{ExecStore S}.
  Abbreviation W := (World CS S).
  Abbreviation Hdl := (@Handler CS S).

Definition mono_handler (h : option Hdl) : Prop :=
  forall h', h = Some h' -> forall ctx msg, mono (h' ctx msg).

Lemma mono_newUUID : mono (newUUID : M CS S _).
Proof. intros w. simpl. apply le_set_uuids. lia. Qed.

Lemma mono_newString : mono (newString : M CS S _).
Proof. intros w. simpl. apply le_set_uuids. lia. Qed.

Lemma mono_declared (v : option goval) : mono (declared_or_panic v : M CS S _).
Proof. unfold declared_or_panic. destruct (Declared v) as [[out b]|e]; auto with mono. Qed.

Lemma mono_emit_span (p : nat) (port : string) (data : OutData) :
  mono (emit_span p port data : M CS S _).
Proof.
  apply mono_bind; [auto with mono|]. intros r. apply mono_bind.
  - destruct data; [|auto with mono]. apply mono_bind; [apply mono_declared|auto with mono].
  - intros b. apply mono_bind; [apply mono_modify; intros; apply le_add_event|]. intros _.
    apply mono_modify. intros w. destruct (port =? ErrorPort); [apply le_add_event|reflexivity].
Qed.

Lemma le_debounce (p : nat) (w : W) : world_le w (debounce_patch p w).
Proof. by apply le_upd_runner. Qed.

Lemma le_push (p : nat) (data : OutData) (w : W) : world_le w (push_updater p data w).
Proof. destruct data; [reflexivity|by apply le_upd_runner]. Qed.

Lemma mono_DataHandler (p : nat) (h : option Hdl) (ctx : Ctx) (port : string) (data : OutData) :
  mono_handler h -> mono (DataHandler p h ctx port data).
Proof.
  intros Hh. unfold DataHandler.
  destruct (port =? ControlPort); [|destruct (port =? ReconcilePort)].
  - apply mono_bind; [apply mono_modify; intros; apply le_set_nodePorts|]. intros _.
    apply mono_bind; [apply mono_modify; intros; apply le_debounce|auto with mono].
  - apply mono_bind; [apply mono_modify; intros; apply le_push|]. intros _.
    apply mono_bind; [apply mono_modify; intros; apply le_debounce|auto with mono].
  - apply mono_bind; [apply mono_newUUID|]. intros [u|e]; [|auto with mono].
    apply mono_bind; [apply mono_emit_span|]. intros _.
    apply mono_bind; [by apply mono_outputHandler|]. intros [v|e]; auto with mono.
Qed.

Lemma le_grow_runs (ext : RunStore) (w : W) : world_le w (set_runs (w_runs w ++ ext)%list w).
Proof.
  apply le_set_runs. intros q r Hq. exists r. split; [|done].
  by apply lookup_app_l_Some.
Qed.

Lemma begin_runs (uuid : string) (ctx : Ctx) (reply : option (string * string * Z)) (runs : RunStore) :
  let '(_, _, runs') :=
    match reply with
    | Some (s, t, d) => BeginRunWithReply uuid ctx s t d runs
    | None => BeginRun uuid ctx runs
    end in
  exists ext, runs' = (runs ++ ext)%list.
Proof.
  destruct reply as [[[s t] d]|]; unfold BeginRunWithReply, BeginRun;
    (destruct (RunFrom ctx runs) as [[q r]|]; [exists []; by rewrite app_nil_r|]); simpl; by eexists.
Qed.

Lemma mono_run_prog (p : nat) (h : option Hdl) (c : Prog CS) :
  mono_handler h -> mono (run_prog p h c).
Proof.
  intros Hh. induction c as [r|msg|k IH|s k IH|ctx port data k IH|ctx reply k IH|d k IH]; cbn [run_prog].
  - apply mono_ret.
  - apply mono_panic.
  - apply mono_bind; [auto with mono|]. intros r. apply IH.
  - apply mono_bind; [|intros _; apply IH]. apply mono_modify. intros w. by apply le_upd_runner.
  - apply mono_bind; [by apply mono_DataHandler|]. intros r. apply IH.
  - apply mono_bind; [apply mono_newString|]. intros uuid. intros w.
    unfold bind at 1, get. pose proof (begin_runs uuid ctx reply (w_runs w)) as Hext.
    destruct (match reply with Some _ => _ | None => _ end) as [[ctx' id] runs].
    destruct Hext as [ext ->]. unfold bind, modify.
    pose proof (le_grow_runs ext w) as Hle. specialize (IH ctx' id (set_runs (w_runs w ++ ext)%list w)).
    destruct (run_prog p h (k ctx' id) (set_runs (w_runs w ++ ext)%list w)); try done; by etrans.
  - apply mono_bind; [apply mono_select_wait|]. intros e. apply IH.
Qed.

Lemma mono_dispatch (p : nat) (h : option Hdl) (ctx : Ctx) (port : string) (data : option goval) :
  mono_handler h -> mono (dispatchCapability p h ctx port data).
Proof.
  intros Hh. unfold dispatchCapability. apply mono_bind; [auto with mono|]. intros r.
  assert (Hcall : forall o : option (Ctx -> option goval -> Prog CS), mono
    (match o with
     | Some f => do modify (add_event (EvCapability (rn_name r) port data)) then
                 let* res := run_prog p h (f ctx data) in ret (result_fail (V := goval) (result_err res), true)
     | None => ret (success, true)
     end)%run).
  { intros [f|]; [|apply mono_ret]. apply mono_bind; [auto with mono|]. intros _.
    apply mono_bind; [by apply mono_run_prog|auto with mono]. }
  destruct (port =? SettingsPort); [apply Hcall|]. destruct (port =? ControlPort); [apply Hcall|].
  destruct ((port =? ReconcilePort) || (port =? ClientPort) || (port =? IdentityPort)); apply mono_ret.
Qed.

Lemma mono_call_component (p : nat) (e h : option Hdl) (ctx : Ctx) (port : string) (data : option goval) :
  mono_handler e -> mono_handler h -> mono (call_component p e h ctx port data).
Proof.
  intros He Hh. apply mono_bind; [by apply mono_dispatch|]. intros [resp handled].
  apply mono_bind; [|auto with mono]. destruct handled; [apply mono_ret|].
  apply mono_bind; [auto with mono|]. intros r. apply mono_bind; [auto with mono|]. intros _.
  by apply mono_run_prog.
Qed.

Lemma le_setGauge (p : nat) (v : Z) (id : string) (w : W) : world_le w (setGauge p v id w).
Proof. unfold setGauge. destruct (id =? ""); [reflexivity|]. by apply le_upd_runner. Qed.

Lemma le_clearGauge (p : nat) (id : string) (w : W) : world_le w (clearGauge p id w).
Proof. by apply le_upd_runner. Qed.

End monotone_runner.

(** ** A delivery that reached the component *)

Section delivery.
  Context {CS S : Type} `{Env CS S} `{Lib} `{Kube} `{ExecStore S}.
  Abbreviation W := (World CS S).
  Abbreviation Hdl := (@Handler CS S).

Lemma getPorts_frame (p : nat) (w w' : W) ports :
  getPorts p w = Val ports w' ->
  w_events w' = w_events w /\ w_runs w' = w_runs w /\ w_store w' = w_store w /\ world_le w w'.
Proof.
  intros E. assert (Hle := mono_Val _ _ _ _ (mono_getPorts p) E). unfold getPorts in E.
  bind_inv E r w1 E1. apply get_runner_Val in E1 as [_ ->].
  destruct (rn_nodePorts r); [by injection E as <- <-|]. unfold getNodePorts in E.
  bind_inv E r' w1 E1. apply get_runner_Val in E1 as [_ ->]. bind_inv E u w1 E1.
  injection E1 as <- <-. by injection E as <- <-.
Qed.

Lemma settings_skip_frame (p : nat) (port : string) (data : option goval) (w w' : W) skip :
  settings_skip p port data w = Val skip w' ->
  w_events w' = w_events w /\ w_runs w' = w_runs w /\ w_store w' = w_store w /\ world_le w w'.
Proof.
  unfold settings_skip. destruct (negb (port =? SettingsPort)); [by intros [= <- <-]|]. intros E.
  bind_inv E r w1 E1. apply get_runner_Val in E1 as [_ ->]. bind_inv E w0 w1 E1.
  injection E1 as <- <-. bind_inv E same w1 E1.
  assert (w1 = w) as ->.
  { destruct (rn_portMsg r !! port) as [prev|]; [destruct (cmp_equal data prev)|];
      unfold ret, panic in E1; congruence. }
  destruct (same && _); [by injection E as <- <-|]. bind_inv E u w1 E2. injection E2 as <- <-.
  injection E as <- <-. do 3 (split; [done|]). by apply le_upd_runner.
Qed.

(** A delivery of a durable hop either adds no event, or went through
    [execute] in a context that carries the hop's run. *)
Lemma msg_handler_reached (p : nat) (e h : option Hdl) (ctx : Ctx) (msg : Msg goval) (w w1 : W) res :
  m_RunID msg <> "" ->
  MsgHandler p e h ctx msg w = Val res w1 ->
  w_events w1 = w_events w \/
  exists ctx' q port data errs w0 w2 c,
    execute p e h ctx' msg port data errs w0 = Val res w2 /\ w1 = cancel c w2 /\
    world_le w w0 /\ w_events w0 = w_events w /\
    run_from ctx' w0 = Some (q, NewRun (m_RunID msg) (m_StepKey msg)).
Proof.
  intros Hid E. apply String.eqb_neq in Hid. unfold MsgHandler in E.
  destruct ((ParseFullPortName (m_To msg)).2 =? ""); [left; by injection E as <- <-|].
  bind_inv E r w' E1. apply get_runner_Val in E1 as [Hr ->]. bind_inv E entered w' E1.
  unfold enter_run in E1. rewrite Hid in E1. cbn [negb] in E1. bind_inv E1 w0 w0' E2.
  injection E2 as <- <-. destruct (negb (m_StepKey msg =? "") && _ && _).
  { injection E1 as <- <-. left. by injection E as <- <-. }
  unfold WithRun in E1. bind_inv E1 u w2 E2. injection E2 as <- <-. injection E1 as <- <-.
  bind_inv E cc w2 E1. destruct cc as [ctx' c]. injection E1 as <- <- <-.
  apply finally_Val in E as (w3 & E & ->). set (run := NewRun (m_RunID msg) (m_StepKey msg)) in *.
  set (w0 := set_cancelled _ _ _) in E. set (ctx' := closing _ _) in E.
  assert (Hle : world_le w w0).
  { transitivity (set_runs (w_runs w ++ [run])%list w); [apply le_grow_runs|].
    constructor; try done; try (intros q r' Hq; by exists r'). simpl. lia. }
  assert (Hc : forall w' : W, w_events (cancel (w_nextCancel w) w') = w_events w').
  { intros w'. by destruct (cancel_same (w_nextCancel w) w') as (_ & _ & ->). }
  assert (Hrun : run_from ctx' w0 = Some (length (w_runs w), run)).
  { unfold run_from, RunFrom. simpl. by rewrite list_lookup_middle. }
  unfold deliver in E. bind_inv E ports w4 E1. apply getPorts_frame in E1 as (Ev & Er & _ & Hle4).
  destruct (find_port _ ports) as [q|]; [|left; injection E as <- <-; by rewrite Hc, Ev].
  destruct (p_Configuration q) as [conf|]; [|left; injection E as <- <-; by rewrite Hc, Ev].
  bind_inv E r4 w5 E1. apply get_runner_Val in E1 as [_ ->].
  destruct (port_input r4 msg _ conf) as [[data errs]|err];
    [|left; injection E as <- <-; by rewrite Hc, Ev].
  bind_inv E skip w5 E1. apply settings_skip_frame in E1 as (Ev5 & Er5 & _ & Hle5).
  destruct skip; [left; injection E as <- <-; by rewrite Hc, Ev5, Ev|].
  right. exists ctx', (length (w_runs w)), (ParseFullPortName (m_To msg)).2, data, errs, w5, w3, (w_nextCancel w).
  split; [done|]. split; [done|]. split; [etrans; [exact Hle|by etrans]|].
  split; [by rewrite Ev5, Ev|].
  unfold run_from in *. by rewrite Er5, Er.
Qed.

Lemma fold_events_same (errs : list (string * goerror)) (w : W) :
  let w' := fold_left (fun w x => add_event (EvExprError x.1 (error_text x.2)) w) errs w in
  w_runs w' = w_runs w /\ w_store w' = w_store w /\ world_le w w'.
Proof.
  revert w. induction errs as [|x errs IH]; intros w; [done|]. simpl.
  destruct (IH (add_event (EvExprError x.1 (error_text x.2)) w)) as (-> & -> & Hle).
  do 2 (split; [done|]). etrans; [apply le_add_event|exact Hle].
Qed.

Lemma addSpanError_same (err : error) (w : W) :
  let w' := match err with Some e => addSpanError e | None => fun w => w end w in
  w_runs w' = w_runs w /\ w_store w' = w_store w.
Proof. destruct err as [e|]; [|done]. unfold addSpanError. by destruct (is_canceled e). Qed.

Lemma mono_writeStepRecord (p : nat) (ctx : Ctx) (err : error) (start : Z) :
  mono (writeStepRecord p ctx err start : M CS S _).
Proof.
  apply mono_bind; [auto with mono|]. intros r. apply mono_bind; [auto with mono|]. intros w.
  destruct (run_from ctx w) as [[q run]|]; [|auto with mono]. destruct (negb (rn_hasState r)); [auto with mono|].
  destruct (json_marshal_step _) as [b|]; [|auto with mono].
  destruct (exec_set _ _ _ _) as [s|]; auto with mono.
Qed.

Lemma mono_execute (p : nat) (e h : option Hdl) (ctx : Ctx) (msg : Msg goval) (port : string)
    (data : option goval) (errs : list (string * goerror)) :
  mono_handler e -> mono_handler h -> mono (execute p e h ctx msg port data errs).
Proof.
  intros He Hh. apply mono_bind; [apply mono_newUUID|]. intros [u|err]; [|auto with mono].
  apply mono_bind; [apply mono_modify; intros; apply fold_events_same|]. intros _.
  apply mono_bind; [auto with mono|]. intros r. apply mono_bind; [apply mono_declared|]. intros safe.
  apply mono_bind; [apply mono_modify; intros; apply le_add_event|]. intros _.
  apply mono_bind; [auto with mono|]. intros w. apply mono_bind.
  { apply mono_wrap_panic. apply mono_bind; [apply mono_modify; intros; apply le_setGauge|]. intros _.
    apply mono_finally; [by apply mono_call_component|intros; apply le_clearGauge]. }
  intros res. apply mono_bind; [apply mono_writeStepRecord|]. intros _.
  apply mono_bind; [|auto with mono]. apply mono_modify. intros w'.
  destruct res as [v|err]; [reflexivity|]. unfold addSpanError.
  destruct (is_canceled err); [reflexivity|apply le_add_event].
Qed.

(** What [execute] leaves in the ledger: the record of the run as it is after
    the component returned. *)
Lemma execute_records (p : nat) (e h : option Hdl) (ctx : Ctx) (msg : Msg goval) (port : string)
    (data : option goval) (errs : list (string * goerror)) (w0 w2 : W) res (q : nat) (r0 : Run.Run)
    (rr : Runner CS) :
  mono_handler e -> mono_handler h ->
  execute p e h ctx msg port data errs w0 = Val res w2 ->
  run_from ctx w0 = Some (q, r0) -> w_runners w0 !! p = Some rr -> rn_hasState rr = true ->
  w_events w2 = w_events w0 \/
  exists (w3 : W) (run : Run.Run) (name : string) (start : Z),
    w_runs w3 !! q = Some run /\ run_le r0 run /\ w_runs w2 = w_runs w3 /\
    (forall b s', json_marshal_step (step_record name run
                    (match res with Ok _ => None | Err e => Some e end) start (w_now w3)) = Ok b ->
       exec_set (w_store w3) (r_RunID run) (StepLedgerKey (r_StepKey run)) b = Ok s' ->
       w_store w2 = s').
Proof.
  intros He Hh E Hrun Hrr Hst. unfold execute in E. bind_inv E u w1 E1. injection E1 as <- <-.
  destruct (new_uuid (w_uuids w0)) as [u|err]; [|left; by injection E as <- <-]. right.
  bind_inv E t w1 E1. injection E1 as <- <-.
  set (wu := set_uuids _ w0) in *. destruct (fold_events_same errs wu) as (F1 & F2 & F3).
  set (wf := fold_left _ errs wu) in *. bind_inv E r1 w1 E1. apply get_runner_Val in E1 as [_ ->].
  bind_inv E safe w1 E1. assert (w1 = wf) as ->.
  { unfold declared_or_panic in E1. destruct (Declared data) as [[out b]|err];
      [by injection E1 as <- <-|done]. }
  bind_inv E t w1 E2. injection E2 as <- <-. bind_inv E w' w1 E2. injection E2 as <- <-.
  bind_inv E res' w4 E2.
  set (ws := addSpanPortData _ wf) in *. set (ctx' := if _ =? "" then ctx else _) in *.
  assert (Hle4 : world_le ws w4).
  { refine (mono_Val _ _ _ _ _ E2). apply mono_wrap_panic.
    apply mono_bind; [apply mono_modify; intros; apply le_setGauge|]. intros _.
    apply mono_finally; [by apply mono_call_component|intros; apply le_clearGauge]. }
  assert (Hle0 : world_le w0 ws).
  { etrans; [apply (le_set_uuids (Datatypes.S (w_uuids w0))); lia|]. fold wu.
    etrans; [exact F3|]. apply le_add_event. }
  assert (Hctx : cx_run ctx' = cx_run ctx) by (unfold ctx'; by destruct (_ =? "")).
  assert (Hq : cx_run ctx = Some q /\ w_runs w0 !! q = Some r0).
  { unfold run_from, RunFrom in Hrun. destruct (cx_run ctx) as [q'|]; [|done].
    destruct (w_runs w0 !! q') as [r'|] eqn:Eq; [|done]. by injection Hrun as -> ->. }
  destruct Hq as [Hq Hr0]. assert (Hle : world_le w0 w4) by (by etrans).
  destruct (le_runs _ _ Hle q r0 Hr0) as (run & Hrun4 & Hrle).
  destruct (le_runners _ _ Hle p rr Hrr) as (rr4 & Hrr4 & Hst4 & _ & _).
  bind_inv E t w5 E3. bind_inv E t' w6 E4. injection E4 as <- <-. injection E as -> <-.
  destruct (addSpanError_same (match res with Ok _ => None | Err e => Some e end) w5) as [G1 G2].
  unfold writeStepRecord in E3. bind_inv E3 r5 w7 E4. apply get_runner_Val in E4 as [E4 ->].
  rewrite Hrr4 in E4. injection E4 as <-. bind_inv E3 w8 w7 E4. injection E4 as <- <-.
  assert (Hfrom : run_from ctx' w4 = Some (q, run)).
  { unfold run_from, RunFrom. by rewrite Hctx, Hq, Hrun4. }
  rewrite Hfrom in E3. rewrite Hst4, Hst in E3. cbn [negb] in E3.
  exists w4, run, (rn_name rr4), (w_now ws). split; [done|]. split; [done|].
  destruct (json_marshal_step _) as [b|err].
  - destruct (exec_set (w_store w4) (r_RunID run) (StepLedgerKey (r_StepKey run)) b) as [s|err] eqn:Es;
      injection E3 as <- <-; cbn [w_runs w_store set_store] in *; (split; [by rewrite G1|]);
      intros b' s' [= <-]; congruence.
  - injection E3 as <- <-. split; [by rewrite G1|]. done.
Qed.

End delivery.

(** ** Properties *)

(** The ledger and the encoder of its records work. *)
Definition ledger_works (S : Type) `{ExecStore S} `{Lib} (runID : string) : Prop :=
  (forall r, is_ok (json_marshal_step r) = true) /\
  (forall (s : S) k v, is_ok (exec_set s runID k v) = true).

(** The ledger holds the record of the hop: of an execution that ended in
    [res], with the emissions of its run. *)
Definition step_recorded {CS S} `{Lib} `{ExecStore S} (msg : Msg goval) (res : result goerror (any goval))
    (w : World CS S) : Prop :=
  exists q run rec b,
    w_runs w !! q = Some run /\ r_RunID run = m_RunID msg /\ r_StepKey run = m_StepKey msg /\
    sr_Emits rec = Emits run /\
    sr_Status rec = (if is_ok res then StepStatusDone else StepStatusFailed) /\
    json_marshal_step rec = Ok b /\
    exec_get (w_store w) (m_RunID msg) (StepLedgerKey (m_StepKey msg)) = Ok (Some b).

Section at_most_once.
  Context {CS S : Type} `{Env CS S} `{Lib} `{Kube} `{ExecLaws S}.
  Abbreviation Hdl := (@Handler CS S).

Lemma delivery_needs_port (p : nat) (e h : option Hdl) (ctx : Ctx) (msg : Msg goval) (w w1 : World CS S) res :
  MsgHandler p e h ctx msg w = Val res w1 -> w_events w1 <> w_events w ->
  ((ParseFullPortName (m_To msg)).2 =? "") = false.
Proof.
  intros E Hev. destruct ((ParseFullPortName (m_To msg)).2 =? "") eqn:Ep; [|done].
  unfold MsgHandler in E. rewrite Ep in E. by injection E as <- <-.
Qed.

(** A delivery that got as far as the component leaves the hop's record. *)
Lemma delivery_recorded (p : nat) (e h : option Hdl) (ctx : Ctx) (msg : Msg goval) (w w1 : World CS S)
    (res : result goerror (any goval)) (r : Runner CS) :
  mono_handler e -> mono_handler h -> ledger_works S (m_RunID msg) ->
  plain_run (m_RunID msg) = true -> plain_key (StepLedgerKey (m_StepKey msg)) = true ->
  m_RunID msg <> "" -> w_runners w !! p = Some r -> rn_hasState r = true ->
  MsgHandler p e h ctx msg w = Val res w1 -> w_events w1 <> w_events w ->
  world_le w w1 /\ step_recorded msg res w1.
Proof.
  intros He Hh [Hjson Hset] Hrun Hkey Hid Hr Hst E Hev.
  destruct (msg_handler_reached p e h ctx msg w w1 res Hid E)
    as [?|(ctx' & q & port & data & errs & w0 & w2 & c & Ex & -> & Hle0 & Hev0 & Hfrom)]; [done|].
  destruct (le_runners _ _ Hle0 p r Hr) as (r0 & Hr0 & S0 & _).
  assert (Hle2 : world_le w0 w2) by (refine (mono_Val _ _ _ _ _ Ex); by apply mono_execute).
  split; [etrans; [exact Hle0|]; etrans; [exact Hle2|apply le_cancel]|].
  destruct (cancel_same c w2) as (C1 & C2 & C3).
  destruct (execute_records p e h ctx' msg port data errs w0 w2 res q _ r0 He Hh Ex Hfrom Hr0)
    as [Hsame|(w3 & run & name & start & R1 & R2 & R3 & R4)]; [congruence| |].
  { destruct Hev. by rewrite C3, Hsame. }
  destruct R2 as (I1 & I2 & _). simpl in I1, I2.
  set (rec := step_record name run _ start (w_now w3)) in *.
  specialize (Hjson rec). destruct (json_marshal_step rec) as [b|] eqn:Eb; [|done].
  specialize (Hset (w_store w3) (StepLedgerKey (r_StepKey run)) b). rewrite <- I1 in Hset.
  destruct (exec_set (w_store w3) (r_RunID run) (StepLedgerKey (r_StepKey run)) b) as [s'|] eqn:Es; [|done].
  exists q, run, rec, b. rewrite C1, C2, R3, (R4 b s' eq_refl Es). split; [done|]. do 2 (split; [done|]).
  split; [done|]. split; [unfold rec, step_record; by destruct res|]. split; [done|].
  rewrite I1, I2 in Es. rewrite (exec_set_get _ _ _ _ _ _ _ Es) by done. by rewrite !String.eqb_refl.
Qed.

(** A hop the ledger has a record of is answered nil, and nothing happens. *)
Lemma recorded_skips (p : nat) (e h : option Hdl) (ctx : Ctx) (msg : Msg goval) (w : World CS S)
    (r : Runner CS) (b : string) :
  ((ParseFullPortName (m_To msg)).2 =? "") = false -> m_RunID msg <> "" -> m_StepKey msg <> "" ->
  w_runners w !! p = Some r -> rn_hasState r = true ->
  exec_get (w_store w) (m_RunID msg) (StepLedgerKey (m_StepKey msg)) = Ok (Some b) ->
  MsgHandler p e h ctx msg w = Val (Ok AnyNil) w.
Proof.
  intros Hport Hid Hsk Hr Hst Hget. unfold MsgHandler. rewrite Hport.
  unfold bind at 1, get_runner. rewrite Hr. unfold enter_run.
  apply String.eqb_neq in Hid, Hsk. rewrite Hid, Hsk, Hst. cbn [negb andb].
  unfold bind, get, recorded. by rewrite Hget.
Qed.

End at_most_once.

(** C1. A durable step runs at most once, and its record comes after its
    emissions: when the delivery of a hop of a run got as far as the component
    (it left a trace event), then afterwards the step ledger holds a record of
    the hop that says whether it failed and lists every hop its run has durably
    emitted; and any redelivery of the message, whatever the handler and the
    context, at any later time while the ledger is unchanged, answers nil and
    changes nothing at all. *)
Theorem durable_step_at_most_once {CS S} `{Env CS S} `{Lib} `{Kube} `{ExecLaws S} (p : nat)
    (e h : option (@Handler CS S)) (ctx : Ctx) (msg : Msg goval) (w w1 : World CS S)
    (res : result goerror (any goval)) (r : Runner CS) :
  mono_handler e -> mono_handler h -> ledger_works S (m_RunID msg) ->
  plain_run (m_RunID msg) = true -> plain_key (StepLedgerKey (m_StepKey msg)) = true ->
  m_RunID msg <> "" -> m_StepKey msg <> "" ->
  w_runners w !! p = Some r -> rn_hasState r = true ->
  MsgHandler p e h ctx msg w = Val res w1 ->
  w_events w1 <> w_events w ->
  step_recorded msg res w1 /\
  forall e' h' ctx' w2, world_le w1 w2 -> w_store w2 = w_store w1 ->
    MsgHandler p e' h' ctx' msg w2 = Val (Ok AnyNil) w2.
Proof.
  intros He Hh Hled Hrun Hkey Hid Hsk Hr Hst E Hev.
  destruct (delivery_recorded p e h ctx msg w w1 res r) as [Hle Hrec]; try done.
  split; [exact Hrec|]. destruct Hrec as (q & run & rec & b & _ & _ & _ & _ & _ & _ & Hget).
  intros e' h' ctx' w2 Hle2 Hs2.
  destruct (le_runners _ _ Hle p r Hr) as (r1 & Hr1 & S1 & _).
  destruct (le_runners _ _ Hle2 p r1 Hr1) as (r2 & Hr2 & S2 & _).
  apply (recorded_skips p e' h' ctx' msg w2 r2 b); try done.
  - by apply (delivery_needs_port p e h ctx msg w w1 res).
  - by rewrite S2, S1.
  - by rewrite Hs2.
Qed.

(** ** A sample process

    One runner [a] of a relay (what arrives on "in" leaves on "out"), with an
    edge to [b]; the ledger is the in-memory bucket. *)
Module Sample.
#[local] Existing Instance mem_bucket.
#[local] Existing Instance mem_bucket_laws.

Definition Store : Type := gmap string string.

Definition port (name : string) : Port := mkPort name "" 0 false None (Some (VString "")) None.

Definition relay : Component unit :=
  mkComponent "relay" "" "" [] tt (fun _ => [port "in"; port "out"])
    (fun ctx _ data => Emit ctx "out" (Data data) (fun r => Return r))
    None None None None None None.

Definition node : TinyNode :=
  mkNode "a" "ns" ∅ 1 (mkSpec "m" "relay" [] [mkEdge "e1" "out" "b:in" "f" None]) empty_status.

Definition runner : Runner unit :=
  set_hasState true (set_spec node ∅ (NewRunner relay 100 101)).

Definition env : Env unit Store := quiet unit Store.

Definition kube : Kube := {|
  kube_get nodes done name :=
    match nodes !! name with Some n => Ok n | None => Err (ErrorString "not found") end;
  kube_patch_status nodes done base new := Ok (<[n_Name new := new]> nodes);
|}.

Definition exec_store : ExecStore Store := jetstream_exec_store.
Definition exec_laws : @ExecLaws Store exec_store := jetstream_exec_laws.

Definition world : World unit Store :=
  mkWorld 0 0 [] ∅ 0 ∅ [runner] ∅ ∅ {["a" := node]} [].

(** A hop of run "r" that carries a reply address. *)
Definition hop : Msg goval :=
  mkMsg "e0" "z:out" "a:in" "hello" 0 "" "r" "k" "inbox.1" "z:reply" 99 None.

Definition answer : @Handler unit Store := fun _ _ => ret (Ok AnyNil).

Lemma answer_mono : mono_handler (Some answer).
Proof. intros h' [= <-] ctx msg. apply mono_ret. Qed.

Lemma no_handler_mono : mono_handler (None : option (@Handler unit Store)).
Proof. intros h' [=]. Qed.

Definition deliver_hop : outcome unit Store (result goerror (any goval)) :=
  @MsgHandler _ _ env sample_lib exec_store 0 None (Some answer) background hop world.

Definition after : World unit Store :=
  match deliver_hop with Val _ w => w | _ => world end.

Lemma deliver_hop_val : deliver_hop = Val (Ok AnyNil) after.
Proof. vm_compute. reflexivity. Qed.

Lemma ledger_ok : @ledger_works Store exec_store sample_lib "r".
Proof. split; [done|]. intros s k v. reflexivity. Qed.

End Sample.

Lemma durable_step_at_most_once_witness :
  Sample.deliver_hop = Val (Ok AnyNil) Sample.after /\
  w_events Sample.after <> [] /\
  @MsgHandler _ _ Sample.env sample_lib Sample.exec_store 0 None None background Sample.hop
    Sample.after = Val (Ok AnyNil) Sample.after.
Proof.
  split; [apply Sample.deliver_hop_val|]. split; [by vm_compute|].
  assert (Hev : w_events Sample.after <> w_events Sample.world) by (by vm_compute).
  destruct (@durable_step_at_most_once _ _ Sample.env sample_lib Sample.kube Sample.exec_store
    Sample.exec_laws 0 None (Some Sample.answer) background Sample.hop Sample.world Sample.after
    (Ok AnyNil) Sample.runner Sample.no_handler_mono Sample.answer_mono Sample.ledger_ok
    eq_refl eq_refl) as [_ Hagain];
    [discriminate|discriminate|reflexivity|reflexivity|exact Sample.deliver_hop_val|exact Hev|].
  exact (Hagain None None background Sample.after (reflexivity _) eq_refl).
Defined.

(** A run's reply address does not survive the first hop: whatever message
    of a run a node receives, reply address included, every message emitted
    from the context its component is given, at any later time, belongs to the
    run and carries no reply address, so it is never a reply hop. *)
Theorem reply_address_lost {CS S} `{Env CS S} `{Lib} `{Kube} `{ExecStore S} (p : nat)
    (e h : option (@Handler CS S)) (ctx : Ctx) (msg : Msg goval) (w w1 : World CS S)
    (res : result goerror (any goval)) :
  m_RunID msg <> "" ->
  MsgHandler p e h ctx msg w = Val res w1 -> w_events w1 <> w_events w ->
  exists ctx' port data errs w0 w2,
    execute p e h ctx' msg port data errs w0 = Val res w2 /\ w_events w1 = w_events w2 /\
    forall ctx'' w' edge from to d resp m' run w'',
      world_le w0 w' -> cx_run ctx'' = cx_run ctx' ->
      outgoing ctx'' edge from to d resp w' = Val (m', run) w'' ->
      m_RunID m' = m_RunID msg /\ m_ReplySubject m' = "" /\ m_ReplyTarget m' = "" /\
      Msg_IsReplyHop m' = false.
Proof.
  intros Hid E Hev.
  destruct (msg_handler_reached p e h ctx msg w w1 res Hid E)
    as [?|(ctx' & q & port & data & errs & w0 & w2 & c & Ex & -> & _ & _ & Hfrom)]; [done|].
  exists ctx', port, data, errs, w0, w2. split; [done|].
  split; [by destruct (cancel_same c w2) as (_ & _ & ->)|].
  intros ctx'' w' edge from to d resp m' run w'' Hle Hctx Hout.
  assert (Hq : cx_run ctx' = Some q /\ w_runs w0 !! q = Some (NewRun (m_RunID msg) (m_StepKey msg))).
  { unfold run_from, RunFrom in Hfrom. destruct (cx_run ctx') as [q'|]; [|done].
    destruct (w_runs w0 !! q') as [r'|] eqn:Eq; [|done]. by injection Hfrom as -> ->. }
  destruct Hq as [Hq Hr0]. destruct (le_runs _ _ Hle q _ Hr0) as (r' & Hr' & I1 & I2 & I3 & I4 & I5 & _).
  destruct (outgoing_stamped ctx'' edge from to d resp w') as (m2 & run2 & w3 & Hout2 & Hst).
  rewrite Hout in Hout2. injection Hout2 as <- <- <-.
  unfold stamped, run_from, RunFrom in Hst. rewrite Hctx, Hq, Hr' in Hst.
  destruct Hst as (_ & _ & _ & _ & _ & _ & S1 & S2 & S3 & S4). simpl in I1, I3, I4.
  unfold Msg_IsReplyHop. rewrite S3, S4, S1, I1, I3, I4. done.
Qed.

Lemma reply_address_lost_witness :
  Msg_IsReplyHop Sample.hop = false /\ m_ReplySubject Sample.hop = "inbox.1" /\
  exists ctx' (w0 : World unit Sample.Store), forall edge from to d resp m' run w'',
    outgoing ctx' edge from to d resp w0 = Val (m', run) w'' ->
    m_RunID m' = "r" /\ m_ReplySubject m' = "" /\ @m_ReplyTarget goval m' = "" /\ w_runs w0 <> [].
Proof.
  split; [reflexivity|]. split; [reflexivity|].
  destruct (@reply_address_lost _ _ Sample.env sample_lib Sample.kube Sample.exec_store 0 None
    (Some Sample.answer) background Sample.hop Sample.world Sample.after (Ok AnyNil))
    as (ctx' & port & data & errs & w0 & w2 & _ & _ & Hall);
    [discriminate|apply Sample.deliver_hop_val|by vm_compute|].
  exists ctx', w0. intros edge from to d resp m' run w'' Hout.
  destruct (Hall ctx' w0 edge from to d resp m' run w'' (reflexivity w0) eq_refl Hout) as (A & B & C & _).
  repeat split; [exact A|exact B|exact C|]. intros Hnil.
  unfold outgoing, run_from, RunFrom in Hout. rewrite Hnil in Hout.
  destruct (cx_run ctx') as [q|]; simpl in Hout; injection Hout as <- <- <-; discriminate A.
Defined.
