(* ===== verification/RunnerStatus.v ===== *)
(** * Node status, spans and the node's life

    Properties of the definitions of [Runner] about what leaves a runner other
    than messages: the published status, the text of spans, the debounced
    patch; and about replacing the node. *)
From S2P Require Import Prelude GoErrors Names Graph Run Json Redact Shape.
From S2P Require Import Reflect ExecState Debouncer World Send Runner RunnerSpec.

Open Scope string_scope.

Section status.
  Context {CS S : Type} `{Env CS S} `{Lib} `{Kube} `{ExecStore S}.
  Abbreviation W := (World CS S).

(** [text] is how [v] is written, or how it was read. *)
Definition writes_as (text : string) (v : json) : Prop :=
  json_decode_number text = Ok v \/ json_marshal_tree v = Ok text.

(** No readable string under a conventional credential name. *)
Definition no_secrets (v : json) : Prop :=
  Forall (fun kv => IsSecretKey kv.1 = true -> harmless kv.2 = true) (leaves "" v).

Lemma redact_decoded_none (v : json) : redact_decoded ∅ v = Secrets v.
Proof. unfold redact_decoded, ByName. by rewrite bool_decide_true by done. Qed.

Lemma secrets_clean (v : json) : no_secrets (Secrets v).
Proof.
  unfold no_secrets. rewrite <- redact_decoded_none.
  destruct (redact_decoded_leaves ∅ v) as [-> _]. apply Forall_fmap, Forall_forall.
  intros kv _. cbv beta. intros Hk. apply mask_harmless. by rewrite !mask_key in *.
Qed.

Lemma redact_configuration_clean (data : string) :
  let text := redactPortConfiguration data in
  text = "" \/ exists v, writes_as text v /\ no_secrets v.
Proof.
  unfold redactPortConfiguration. destruct (String.eqb_spec data "") as [->|_]; [by left|].
  destruct (json_decode_number data) as [v|] eqn:E; [|by left].
  destruct (bool_decide_reflect (v = Secrets v)) as [Heq|_].
  - right. exists v. split; [by left|]. rewrite Heq. apply secrets_clean.
  - destruct (json_marshal_tree (Secrets v)) as [out|] eqn:E'; [right|by left].
    exists (Secrets v). split; [by right|apply secrets_clean].
Qed.

Lemma port_status_clean (q : Port) :
  ps_Configuration (port_status q) = "" \/
  exists v, writes_as (ps_Configuration (port_status q)) v /\ no_secrets v.
Proof.
  unfold port_status. simpl. destruct (p_Configuration q); [|by left]. apply redact_configuration_clean.
Qed.

Lemma ReadStatus_val (p : nat) (st : TinyNodeStatus) (w : W) (r : Runner CS) :
  w_runners w !! p = Some r ->
  exists w', ReadStatus p st w =
    Val (mkStatus (st_ObservedGeneration st) (c_Description (rn_component r)) (c_Info (rn_component r))
           (c_Tags (rn_component r))
           (map port_status (sort_stable p_Name (List.filter (fun q => negb (system_port q))
              (c_Ports (rn_component r) (rn_cs r))))) "OK" (st_Metadata st) false) w' /\
    w_nodes w' = w_nodes w /\ w_cancelled w' = w_cancelled w /\ w_now w' = w_now w /\
    exists r', w_runners w' !! p = Some r' /\
      rn_pendingNodeUpdaters r' = rn_pendingNodeUpdaters r.
Proof.
  intros Hr. unfold ReadStatus, getNodePorts, bind, get_runner, modify, ret. rewrite Hr. simpl.
  rewrite list_lookup_alter_eq, Hr. simpl. eexists. split; [done|]. do 3 (split; [done|]). simpl.
  rewrite list_lookup_alter_eq, Hr. by eexists.
Qed.

Lemma ReadStatus_events (p : nat) (st st' : TinyNodeStatus) (w w' : W) :
  ReadStatus p st w = Val st' w' -> w_events w' = w_events w.
Proof.
  unfold ReadStatus, getNodePorts, bind, get_runner, modify, ret.
  destruct (w_runners w !! p) as [r|]; [|done]. simpl.
  destruct (alter _ p (w_runners w) !! p); [|done]. by intros [= _ <-].
Qed.

(** ** Spans *)

Lemma emit_span_val (p : nat) (port : string) (v : option goval) (w : W) (r : Runner CS) safe b :
  w_runners w !! p = Some r -> Declared v = Ok (safe, b) ->
  emit_span p port (Data v) w =
    Val tt ((if port =? ErrorPort then addSpanHandledError (span_bytes safe) else fun w => w)
      (addSpanPortData (redactPayload (rn_declaredSecrets r) (span_bytes safe)) w)).
Proof.
  intros Hr Hd. unfold emit_span, bind, get_runner, modify, declared_or_panic, ret. by rewrite Hr, Hd.
Qed.

(** ** The patch *)

Lemma run_patch_fail (p : nat) (node : TinyNode) (w : W) (r : Runner CS) :
  w_runners w !! p = Some r ->
  match kube_get (w_nodes w) (ctx_err (mkCtx None [rn_runCtx r] None "") w) (n_Name node) with
  | Err _ => True
  | Ok base => is_ok (apply_updaters (rn_pendingNodeUpdaters r) base) = false
  end ->
  run_patch p node w = Val tt (upd_runner p (set_updaters []) w).
Proof.
  intros Hr Hf. unfold run_patch, bind at 1, get_runner. rewrite Hr.
  unfold bind, modify, PatchNode, get, bind, ret.
  change (ctx_err ?c (upd_runner p (set_updaters []) w)) with (ctx_err c w).
  change (w_nodes (upd_runner p (set_updaters []) w)) with (w_nodes w).
  destruct (kube_get _ _ _) as [base|e]; [|done].
  destruct (apply_updaters (rn_pendingNodeUpdaters r) base); done.
Qed.

End status.

(** ** Properties *)

(** The published status of a node lists exactly the ports of its component
    that are not the reconcile, client or identity port, sorted by name; keeps
    the metadata; and discloses no configured credential: each port's
    configuration is empty or writes a value in which every string under a
    conventional credential name is empty, a template or the marker. *)
Theorem read_status_spec {CS S} `{Lib} (p : nat) (st st' : TinyNodeStatus)
    (w w' : World CS S) :
  ReadStatus p st w = Val st' w' ->
  (exists r, w_runners w !! p = Some r /\
     ps_Name <$> st_Ports st' ≡ₚ
       p_Name <$> List.filter (fun q => negb (system_port q)) (c_Ports (rn_component r) (rn_cs r))) /\
  Sorted str_le (ps_Name <$> st_Ports st') /\
  st_Metadata st' = st_Metadata st /\ st_Status st' = "OK" /\ st_Error st' = false /\
  Forall (fun ps => ps_Configuration ps = "" \/
            exists v, writes_as (ps_Configuration ps) v /\ no_secrets v) (st_Ports st').
Proof.
  intros E. destruct (w_runners w !! p) as [r|] eqn:Hr.
  2: { unfold ReadStatus, getNodePorts, bind, get_runner in E. by rewrite Hr in E. }
  destruct (ReadStatus_val p st w r Hr) as (w2 & E2 & _). rewrite E in E2. injection E2 as -> ->.
  cbn [st_Ports st_Metadata st_Status st_Error].
  destruct (sort_stable_spec p_Name (List.filter (fun q => negb (system_port q))
    (c_Ports (rn_component r) (rn_cs r)))) as [Hp Hs].
  set (ports := sort_stable _ _) in *.
  assert (Hn : ps_Name <$> map port_status ports = p_Name <$> ports).
  { rewrite <- list_fmap_compose. by apply list_fmap_ext. }
  rewrite Hn. split; [exists r; split; [done|by rewrite Hp]|]. do 4 (split; [done|]).
  apply Forall_fmap, Forall_forall. intros q _. apply port_status_clean.
Qed.

Lemma read_status_spec_witness :
  exists st' w',
    @ReadStatus _ _ sample_lib 0 empty_status Sample.world = Val st' w' /\
    ps_Name <$> st_Ports st' = ["in"; "out"] /\ Sorted str_le (ps_Name <$> st_Ports st').
Proof.
  destruct (@ReadStatus_val _ _ sample_lib 0 empty_status Sample.world Sample.runner eq_refl)
    as (w' & E & _).
  destruct (@read_status_spec _ _ sample_lib 0 empty_status _ _ _ E) as (_ & Hs & _).
  eexists _, w'. split; [exact E|]. split; [reflexivity|exact Hs].
Defined.

(** The text of a caught error reaches the trace unmasked: when a component
    emits on its error port, the payload is recorded with its credentials
    masked, but the message of the same payload is recorded again, as the error
    event, exactly as it is, credential-shaped or not. *)
Theorem error_port_text_unmasked {CS S} `{Lib} (p : nat) (v safe : option goval) (b : bool)
    (text : string) (w : World CS S) (r : Runner CS) :
  w_runners w !! p = Some r -> Declared v = Ok (safe, b) ->
  json_error_field (span_bytes safe) = Ok text -> text <> "" ->
  exists w', emit_span p ErrorPort (Data v) w = Val tt w' /\
    w_events w' = (w_events w ++
      [EvSpan (TextByShape (redactPayload (rn_declaredSecrets r) (span_bytes safe))).1; EvSpanError text])%list.
Proof.
  intros Hr Hd Ht Hne. rewrite (emit_span_val p ErrorPort v w r safe b Hr Hd).
  eexists. split; [done|]. rewrite String.eqb_refl. unfold addSpanHandledError, errorPayloadMessage.
  rewrite Ht. apply String.eqb_neq in Hne. rewrite Hne. simpl. by rewrite <- (assoc_L (++)%list).
Qed.

Definition leaky_error : string := "401 for key sk-ant-abcdef0123456789".

Lemma error_port_text_unmasked_witness :
  (TextByShape leaky_error).2 = true /\
  exists w', @emit_span _ _ sample_lib 0 ErrorPort (Data (Some (VString leaky_error))) Sample.world = Val tt w' /\
    EvSpanError leaky_error ∈ w_events w'.
Proof.
  split; [by vm_compute|].
  destruct (@error_port_text_unmasked unit Sample.Store sample_lib 0 (Some (VString leaky_error))
    (Some (VString leaky_error)) false leaky_error Sample.world Sample.runner eq_refl eq_refl eq_refl)
    as (w' & E & Hev); [discriminate|].
  exists w'. split; [exact E|]. rewrite Hev. apply elem_of_app. right. right. left.
Defined.

(** A status patch takes every pending update, once and in order, or loses
    them: [run_patch] always returns with no update pending; where the node is
    read and every updater succeeds, the status written is the updated one
    refreshed from the component; but where the read or any single updater
    fails, the updates were already taken, nothing is written and none of them
    is applied later. *)
Theorem patch_takes_updates {CS S} `{Lib} `{Kube} (p : nat) (node : TinyNode)
    (w : World CS S) (r : Runner CS) :
  w_runners w !! p = Some r ->
  exists w', run_patch p node w = Val tt w' /\
    (exists r', w_runners w' !! p = Some r' /\ rn_pendingNodeUpdaters r' = []) /\
    match kube_get (w_nodes w) (ctx_err (mkCtx None [rn_runCtx r] None "") w) (n_Name node) with
    | Err _ => w_nodes w' = w_nodes w
    | Ok base =>
        match apply_updaters (rn_pendingNodeUpdaters r) base with
        | Err _ => w_nodes w' = w_nodes w
        | Ok node' =>
            exists st, st_Metadata st = st_Metadata (n_Status node') /\ st_Status st = "OK" /\
              if bool_decide (st = n_Status base) then w_nodes w' = w_nodes w
              else match kube_patch_status (w_nodes w)
                           (ctx_err (mkCtx None [rn_runCtx r] None "") w) base (with_status node' st) with
                   | Ok nodes => w_nodes w' = nodes
                   | Err _ => w_nodes w' = w_nodes w
                   end
        end
    end.
Proof.
  intros Hr. set (ctx := mkCtx None [rn_runCtx r] None "").
  set (w1 := upd_runner p (set_updaters []) w).
  assert (Hr1 : w_runners w1 !! p = Some (set_updaters [] r)).
  { simpl. by rewrite list_lookup_alter_eq, Hr. }
  destruct (kube_get (w_nodes w) (ctx_err ctx w) (n_Name node)) as [base|e] eqn:Eg.
  2: { exists w1. split; [apply run_patch_fail with r; [done|]; fold ctx; by rewrite Eg|]. by split; [eexists|]. }
  destruct (apply_updaters (rn_pendingNodeUpdaters r) base) as [node'|e] eqn:Ea.
  2: { exists w1. split; [apply run_patch_fail with r; [done|]; fold ctx; by rewrite Eg, Ea|]. by split; [eexists|]. }
  destruct (ReadStatus_val p (n_Status node') w1 _ Hr1) as (w2 & E2 & N2 & C2 & T2 & r2 & Hr2 & U2).
  set (st := mkStatus _ _ _ _ _ _ _ _) in E2.
  assert (Hctx : ctx_err ctx w2 = ctx_err ctx w) by (unfold ctx_err; by rewrite C2, T2).
  assert (Hrun : exists w', run_patch p node w = Val tt w' /\ w_runners w' = w_runners w2 /\
    w_nodes w' = if bool_decide (st = n_Status base) then w_nodes w
                 else match kube_patch_status (w_nodes w) (ctx_err ctx w) base (with_status node' st) with
                      | Ok nodes => nodes | Err _ => w_nodes w end).
  { unfold run_patch, bind at 1, get_runner. rewrite Hr. unfold bind, modify, PatchNode, get, bind, ret.
    fold w1. fold ctx. change (ctx_err ctx w1) with (ctx_err ctx w). change (w_nodes w1) with (w_nodes w).
    rewrite Eg, Ea, E2. cbn [n_Status with_status].
    destruct (bool_decide (st = n_Status base)); [by eexists|]. rewrite Hctx, N2.
    destruct (kube_patch_status _ _ _ _) as [nodes|e]; by eexists. }
  destruct Hrun as (w' & E & Hrs & Hns). exists w'. split; [exact E|].
  split; [exists r2; by rewrite Hrs|]. exists st. do 2 (split; [done|]). rewrite Hns.
  destruct (bool_decide (st = n_Status base)); [done|]. by destruct (kube_patch_status _ _ _ _).
Qed.

(** An update that cannot be applied takes the one before it along. *)
Definition set_metadata (k v : string) : NodeUpdater := fun n =>
  let s := n_Status n in
  Ok (with_status n (mkStatus (st_ObservedGeneration s) (st_Description s) (st_Info s) (st_Tags s)
        (st_Ports s) (st_Status s) (<[k := v]> (st_Metadata s)) (st_Error s))).

Definition two_updates : World unit Sample.Store :=
  upd_runner 0 (set_updaters [set_metadata "_state/k" "v"; fun _ => Err (ErrorString "no")]) Sample.world.

Lemma patch_takes_updates_witness :
  exists w' r', @run_patch _ _ sample_lib Sample.kube 0 Sample.node two_updates = Val tt w' /\
    w_runners w' !! 0%nat = Some r' /\ rn_pendingNodeUpdaters r' = [] /\
    w_nodes w' = w_nodes two_updates.
Proof.
  destruct (@patch_takes_updates unit Sample.Store sample_lib Sample.kube 0 Sample.node two_updates
    (set_updaters [set_metadata "_state/k" "v"; fun _ => Err (ErrorString "no")] Sample.runner) eq_refl)
    as (w' & E & (r' & Hr & Hu) & Hn).
  exists w', r'. split; [exact E|]. split; [exact Hr|]. split; [exact Hu|exact Hn].
Defined.

(** ** Replacing the node *)

Lemma cancel_lookup {CS S} (c c' : nat) (w : World CS S) :
  is_Some (w_cancelled (cancel c w) !! c') <-> is_Some (w_cancelled w !! c') \/ c' = c.
Proof.
  unfold cancel. destruct (w_cancelled w !! c) as [t|] eqn:E; simpl.
  - split; [by left|]. intros [?| ->]; [done|by exists t].
  - destruct (decide (c = c')) as [->|Hne].
    + rewrite lookup_insert_eq. naive_solver.
    + rewrite lookup_insert_ne by done. naive_solver.
Qed.

Lemma cancel_removed_lookup {CS S} (cancels : gmap string nat) (old new : list TinyNodeEdge)
    (w : World CS S) (c : nat) :
  is_Some (w_cancelled (cancelRemovedEdges cancels old new w) !! c) <->
  is_Some (w_cancelled w !! c) \/
  exists e, e ∈ old /\ ~ e_ID e ∈ e_ID <$> new /\ cancels !! e_ID e = Some c.
Proof.
  assert (Hin : forall e, existsb (fun e' => e_ID e' =? e_ID e) new = true <-> e_ID e ∈ e_ID <$> new).
  { intros e. rewrite existsb_exists, list_elem_of_fmap. setoid_rewrite String.eqb_eq.
    setoid_rewrite list_elem_of_In. naive_solver. }
  revert w. induction old as [|e old IH]; intros w; cbn [cancelRemovedEdges fold_left].
  - split; [by left|]. intros [?|(e & He & _)]; [done|by apply not_elem_of_nil in He].
  - unfold cancelRemovedEdges in IH. rewrite IH. clear IH.
    specialize (Hin e). destruct (existsb (fun e' => e_ID e' =? e_ID e) new);
      [|destruct (cancels !! e_ID e) as [c'|] eqn:Ec; [rewrite cancel_lookup|]];
      setoid_rewrite elem_of_cons; naive_solver.
Qed.

Lemma ctx_err_cancelled {CS S} (ctx : Ctx) (c : nat) (w : World CS S) :
  c ∈ cx_cancels ctx -> is_Some (w_cancelled w !! c) -> is_Some (ctx_err ctx w).
Proof.
  intros Hc [t Ht]. unfold ctx_err.
  destruct (omap (fun c => w_cancelled w !! c) (cx_cancels ctx)) as [|t0 ts] eqn:E.
  - assert (t ∈ omap (fun c => w_cancelled w !! c) (cx_cancels ctx)) as Hin
      by (apply list_elem_of_omap; eauto). rewrite E in Hin. by apply not_elem_of_nil in Hin.
  - destruct (cx_deadline ctx) as [d|]; [|by eexists]. destruct (d <=? w_now w)%Z; [|by eexists].
    destruct (fold_right _ _ _ <=? d)%Z; by eexists.
Qed.

Lemma cancel_removed_frame {CS S} (cancels : gmap string nat) (old new : list TinyNodeEdge)
    (w : World CS S) :
  let w' := cancelRemovedEdges cancels old new w in
  same_data w w' /\ w_runners w' = w_runners w /\ w_components w' = w_components w /\
  w_instances w' = w_instances w /\ w_now w' = w_now w /\ w_uuids w' = w_uuids w.
Proof.
  unfold cancelRemovedEdges. revert w. induction old as [|e old IH]; intros w; [done|]. cbn [fold_left].
  set (w1 := if existsb _ _ then _ else _).
  assert (H1 : same_data w w1 /\ w_runners w1 = w_runners w /\ w_components w1 = w_components w /\
    w_instances w1 = w_instances w /\ w_now w1 = w_now w /\ w_uuids w1 = w_uuids w).
  { unfold w1. destruct (existsb _ _); [done|]. destruct (cancels !! e_ID e) as [c|]; [|done].
    unfold cancel. by destruct (w_cancelled w !! c). }
  destruct H1 as ((A1 & A2 & A3) & A4 & A5 & A6 & A7 & A8).
  destruct (IH w1) as ((B1 & B2 & B3) & B4 & B5 & B6 & B7 & B8).
  repeat split; congruence.
Qed.

(** [SetNode], run forward. *)
Lemma SetNode_val {CS S} `{Lib} (p : nat) (node : TinyNode) (w : World CS S) (r : Runner CS) :
  w_runners w !! p = Some r ->
  exists w', SetNode p node w = Val tt w' /\
    w_runners w' !! p = Some (set_nodePorts None (set_spec node (declaredSecretNames node) r)) /\
    same_data w w' /\ w_components w' = w_components w /\ w_instances w' = w_instances w /\
    w_now w' = w_now w /\ w_uuids w' = w_uuids w /\
    w_cancelled w' = w_cancelled (cancelRemovedEdges (rn_edgeCancels r)
      (spec_Edges (n_Spec (rn_node r))) (spec_Edges (n_Spec node))
      (upd_runner p (set_spec node (declaredSecretNames node)) w)).
Proof.
  intros Hr. unfold SetNode. rewrite (bind_runner_eq p _ w r Hr), bind_modify_eq, bind_modify_eq.
  set (w1 := upd_runner p _ w). set (w2 := cancelRemovedEdges _ _ _ w1).
  destruct (cancel_removed_frame (rn_edgeCancels r) (spec_Edges (n_Spec (rn_node r)))
    (spec_Edges (n_Spec node)) w1) as (Hd & Hrs & Hc & Hi & Hn & Hu). fold w2 in Hd, Hrs, Hc, Hi, Hn, Hu.
  eexists. split; [reflexivity|]. split.
  { apply lookup_upd_runner. rewrite Hrs. by apply lookup_upd_runner. }
  done.
Qed.

(** Replacing the node of a runner cancels exactly the sends in flight over
    edges the new node no longer has: the cancel functions called are those
    that were called before and those tracked for the ID of an old edge that no
    new edge has, and every context under one of them is done; the component's
    state, the settings cache and the pending updates stay, and the port cache
    is dropped. *)
Theorem set_node_cancels_removed {CS S} `{Lib} (p : nat) (node : TinyNode) (w : World CS S)
    (r : Runner CS) :
  w_runners w !! p = Some r ->
  exists w' r', SetNode p node w = Val tt w' /\ w_runners w' !! p = Some r' /\
    rn_node r' = node /\ rn_nodePorts r' = None /\ rn_cs r' = rn_cs r /\
    rn_portMsg r' = rn_portMsg r /\ rn_pendingNodeUpdaters r' = rn_pendingNodeUpdaters r /\
    rn_edgeCancels r' = rn_edgeCancels r /\
    rn_execDurable r' = (label node ExecutionModeLabel =? ExecutionModeDurable) /\
    forall c,
      (is_Some (w_cancelled w' !! c) <->
       is_Some (w_cancelled w !! c) \/
       exists e, e ∈ spec_Edges (n_Spec (rn_node r)) /\
         ~ e_ID e ∈ e_ID <$> spec_Edges (n_Spec node) /\ rn_edgeCancels r !! e_ID e = Some c) /\
      (is_Some (w_cancelled w' !! c) -> forall ctx, c ∈ cx_cancels ctx -> is_Some (ctx_err ctx w')).
Proof.
  intros Hr. destruct (SetNode_val p node w r Hr) as (w' & E & Hr' & _ & _ & _ & _ & _ & Hc).
  exists w', (set_nodePorts None (set_spec node (declaredSecretNames node) r)).
  do 2 (split; [done|]). do 7 (split; [done|]). intros c. split.
  - rewrite Hc, cancel_removed_lookup. done.
  - intros Hs ctx Hin. by apply (ctx_err_cancelled ctx c).
Qed.

Lemma set_node_cancels_removed_witness :
  let w := upd_runner 0 (set_edgeCancels (fun m => <["e1" := 7%nat]> m)) Sample.world in
  exists w', @SetNode _ _ sample_lib 0 (with_edges Sample.node []) w = Val tt w' /\
    is_Some (ctx_err (mkCtx None [7%nat] None "") w').
Proof.
  intros w.
  destruct (@set_node_cancels_removed unit Sample.Store sample_lib 0 (with_edges Sample.node []) w
    (set_edgeCancels (fun m => <["e1" := 7%nat]> m) Sample.runner) eq_refl)
    as (w' & r' & E & _ & _ & _ & _ & _ & _ & _ & _ & Hc).
  exists w'. split; [exact E|]. destruct (Hc 7%nat) as [[_ H1] H2]. apply H2; [|left].
  apply H1. right. exists (mkEdge "e1" "out" "b:in" "f" None).
  split; [left|]. split; [apply not_elem_of_nil|reflexivity].
Defined.
