(* ===== verification/Scheduler.v ===== *)
(** * The scheduler

    [internal/scheduler/scheduler.go] and [rpc.go], and the message router of
    [cli/run.go]: the components a module installed and the runners of its
    nodes. [Handle] takes a message to the runner of its node, waiting for it
    to appear; what the runner emits goes back through the router, one hop
    deeper, until [MaxMessageDepth]. [Update] creates a node's runner or gives
    it a new specification, and rolls back where the component refuses it.

    The handlers that hand a component its client, its NATS handle and its
    emitter have no definition of their own: a component's programs ([Prog])
    emit through the long-lived emitter from the capability handlers. *)
From S2P Require Import Prelude GoErrors Names Graph Run Json Reflect ExecState Backoff Debouncer.
From S2P Require Import World Send Runner.

Open Scope string_scope.

Definition MaxMessageDepth : Z := 256.

(** ** Waiting: github.com/cenkalti/backoff

    [Retry] calls the operation until it succeeds or fails permanently, with
    the intervals of its policy between the calls; they end when the policy's
    time is over. [retry] takes the intervals as a list. *)
Section retry.
  Context {CS S : Type} `{Env CS S}.

Inductive attempt_result (A : Type) : Type :=
| Done (a : A)
| Again (e : goerror)
| PermanentFailure (e : goerror).
Arguments Done {A}. Arguments Again {A}. Arguments PermanentFailure {A}.

Fixpoint retry {A} (ctx : Ctx) (waits : list Z) (op : M CS S (attempt_result A)) : M CS S (result goerror A) :=
  (let* r := op in
   match r with
   | Done a => ret (Ok a)
   | PermanentFailure e => ret (Err e)
   | Again e =>
       match waits with
       | [] => ret (Err e)
       | d :: waits' =>
           let* done := select_wait ctx d in
           match done with
           | Some e' => ret (Err e')
           | None => retry ctx waits' op
           end
       end
   end)%run.

End retry.
Arguments Done {A}. Arguments Again {A}. Arguments PermanentFailure {A}.

Section scheduler.
  Context {CS S : Type} `{Env CS S} `{Lib} `{Kube} `{ExecStore S}.
  Context `{MapRange nat}.
  Abbreviation W := (World CS S).
  Abbreviation Hdl := (@Handler CS S).

(** The intervals of the two waits of [Handle], a state factory or not. *)
  Variable instance_waits port_waits : list Z.
  Variable has_factory : bool.

(** ** Components *)

Definition Install (component : Component CS) : M CS S error :=
  if c_Name component =? "" then ret (Some (ErrorString "component name is invalid"))
  else bind (modify (fun w => set_components (<[c_Name component := component]> (w_components w)) w))
         (fun _ => ret None).

Definition InstalledComponent (name : string) (w : W) : option (Component CS) := w_components w !! name.

Definition HasInstance (name : string) (w : W) : bool :=
  match w_instances w !! name with Some _ => true | None => false end.

Definition Destroy (name : string) : M CS S unit :=
  (let* w := get in
   match w_instances w !! name with
   | Some p =>
       do modify (set_instances (delete name (w_instances w))) then
       Stop p
   | None => ret tt
   end)%run.

Fixpoint destroy_matching (name : string) (items : list (string * nat)) : M CS S unit :=
  (match items with
   | [] => ret tt
   | (_, p) :: items' =>
       let* r := get_runner p in
       do (if c_Name (rn_component r) =? name then Destroy (n_Name (rn_node r)) else ret tt) then
       destroy_matching name items'
   end)%run.

Definition Uninstall (name : string) : M CS S bool :=
  (if name =? "" then ret false
   else
     let* w := get in
     match w_components w !! name with
     | None => ret false
     | Some _ =>
         do modify (set_components (delete name (w_components w))) then
         do destroy_matching name (map_range (w_instances w)) then
         ret true
     end)%run.

(** [Start], once its context is done. *)
Fixpoint stop_all (names : list string) : M CS S unit :=
  (match names with
   | [] => ret tt
   | name :: names' =>
       let* w := get in
       do (match w_instances w !! name with
           | Some p =>
               do modify (set_instances (delete name (w_instances w))) then
               StopWithoutCleanup p
           | None => ret tt
           end) then
       stop_all names'
   end)%run.

Definition shutdown : M CS S unit :=
  bind get (fun w => stop_all (map_range (w_instances w)).*1).

(** ** Direct calls of a component as a tool *)

Definition data_any (data : OutData) : any goval :=
  match data with
  | Data (Some v) => AnyVal v
  | Data None => AnyNil
  | UpdateNode _ => AnyVal (VScalar "func")
  end.

(** The component's program over a state of its own, with the handler that
    keeps the first emission on [port]. *)
Fixpoint run_capture (port : string) (captured : option (any goval)) (cs : CS) (c : Prog CS)
    : M CS S (Result goval * option (any goval)) :=
  (match c with
   | Return r => ret (r, captured)
   | Panic msg => panic msg
   | GetState k => run_capture port captured cs (k cs)
   | PutState cs' k => run_capture port captured cs' k
   | Emit _ p data k =>
       let captured' := if p =? port then match captured with
                                          | None => Some (data_any data)
                                          | Some _ => captured
                                          end
                        else captured in
       run_capture port captured' cs (k (result_ok AnyNil))
   | Begin ctx reply k =>
       let* uuid := newString in
       let* w := get in
       let '(ctx', id, runs) :=
         match reply with
         | Some (subject, target, deadline) =>
             BeginRunWithReply uuid ctx subject target deadline (w_runs w)
         | None => BeginRun uuid ctx (w_runs w)
         end in
       do modify (set_runs runs) then
       run_capture port captured cs (k ctx' id)
   | Sleep d k => let* _ := select_wait background d in run_capture port captured cs k
   end)%run.

(** [portConfigurationType]: a value of the port's type. *)
Definition portConfigurationType (ports : list Port) (portName : string) : result goerror goval :=
  match find_port portName ports with
  | None => Err (ErrorString ("port " +:+ go_quote portName +:+ " not found on component"))
  | Some q =>
      match p_Configuration q with
      | None => Err (ErrorString ("port " +:+ go_quote portName +:+ " has no Configuration shape"))
      | Some conf => Ok conf
      end
  end.

Definition or_default (s d : string) : string := if s =? "" then d else s.

(** [zero] stands for the zero value of the input type. *)
Definition handleRPC (zero : goval -> goval) (ctx : Ctx) (msg : Msg goval)
    : M CS S (result goerror (any goval)) :=
  (let componentName := m_To msg in
   if componentName =? "" then ret (Err (ErrorString "rpc: msg.To is empty (need component name)"))
   else
     let* w := get in
     match w_components w !! componentName with
     | None => ret (Err (ErrorString ("rpc: component " +:+ go_quote componentName +:+ " not registered on this module")))
     | Some cmp =>
         match c_AgentTool cmp with
         | None => ret (Err (ErrorString ("rpc: component " +:+ go_quote componentName +:+ " does not opt into AgentTool")))
         | Some (inputPort, outputPort) =>
             let inputPort := or_default inputPort "in" in
             let outputPort := or_default outputPort "out" in
             let instance := c_Instance cmp in
             match portConfigurationType (c_Ports cmp instance) inputPort with
             | Err e => ret (Err (WrapError ("rpc: " +:+ componentName +:+ ": ") e))
             | Ok conf =>
                 match (if m_Data msg =? "" then Ok (zero conf) else json_unmarshal_into conf (m_Data msg)) with
                 | Err e => ret (Err (WrapError ("rpc: unmarshal " +:+ componentName +:+ " input: ") e))
                 | Ok input =>
                     let* (res, captured) :=
                       run_capture outputPort None instance (c_Handle cmp ctx inputPort (Some input)) in
                     ret match result_err res, captured with
                         | Some e, _ => Err e
                         | None, Some payload => Ok payload
                         | None, None => Ok (result_value res)
                         end
                 end
             end
         end
     end)%run.

(** ** Messages *)

  Variable zero : goval -> goval.

(** [emitter] carries what leaves through the long-lived emitter, [msgHandler]
    what a runner emits while it handles a message. *)
  Variable emitter : option Hdl.
  Variable msgHandler : Hdl.

Definition with_depth (msg : Msg goval) (d : Z) : Msg goval :=
  mkMsg (m_EdgeID msg) (m_From msg) (m_To msg) (m_Data msg) d (m_Mode msg) (m_RunID msg) (m_StepKey msg)
    (m_ReplySubject msg) (m_ReplyTarget msg) (m_ReplyDeadlineUnixMs msg) (m_Resp msg).

(** The handler [sendMsg] gives the runner. *)
Definition deeper (depth : Z) : Hdl := fun outCtx outMsg =>
  if (ParseFullPortName (m_To outMsg)).2 =? ""
  then ret (Err (ErrorString "empty port in handle's output"))
  else msgHandler outCtx (with_depth outMsg (depth + 1)).

Definition sendMsg (p : nat) (ctx : Ctx) (msg : Msg goval) : M CS S (result goerror (any goval)) :=
  MsgHandler p emitter (Some (deeper (m_Depth msg))) ctx msg.

Definition find_instance (nodeName : string) : M CS S (attempt_result nat) := fun w =>
  Val match w_instances w !! nodeName with
      | Some p => Done p
      | None => Again (ErrorString ("instance " +:+ nodeName +:+ " not found"))
      end w.

Definition find_ready (nodeName port : string) : M CS S (attempt_result nat) :=
  (let* w := get in
   match w_instances w !! nodeName with
   | None => ret (PermanentFailure (ErrorString ("instance " +:+ nodeName +:+ " no longer exists")))
   | Some p =>
       let* ready := HasPort p port in
       if ready : bool then ret (Done p)
       else ret (Again (ErrorString ("port " +:+ port +:+ " not ready on node " +:+ nodeName)))
   end)%run.

Definition too_deep : goerror :=
  PermanentError (ErrorString ("max message depth " +:+ go_itoa MaxMessageDepth
    +:+ " exceeded (possible cycle in flow graph)")).

Definition Handle (ctx : Ctx) (msg : Msg goval) : M CS S (result goerror (any goval)) :=
  (if (MaxMessageDepth <? m_Depth msg)%Z then ret (Err too_deep)
   else if m_Mode msg =? "rpc" then handleRPC zero ctx msg
   else
     let '(nodeName, port) := ParseFullPortName (m_To msg) in
     if port =? ReconcilePort then ret (Ok AnyNil)
     else
       let* w := get in
       let* instance :=
         match w_instances w !! nodeName with
         | Some p => ret (Ok p)
         | None =>
             let* r := retry ctx instance_waits (find_instance nodeName) in
             ret match r with
                 | Ok p => Ok p
                 | Err _ => Err (ErrorString ("instance " +:+ nodeName +:+ " not found after retry"))
                 end
         end in
       match instance with
       | Err e => ret (Err e)
       | Ok p =>
           let* ready := HasPort p port in
           let* instance :=
             if ready : bool then ret (Ok p) else retry ctx port_waits (find_ready nodeName port) in
           match instance with
           | Err e => ret (Err e)
           | Ok p => sendMsg p ctx msg
           end
       end)%run.

(** ** Node updates *)

(** The instance of the node, made where there is none. *)
Definition upsert (node : TinyNode) (cmp : Component CS) : M CS S (nat * bool) :=
  (let* w := get in
   match w_instances w !! n_Name node with
   | Some p => ret (p, false)
   | None =>
       let p := length (w_runners w) in
       let c := w_nextCancel w in
       do modify (set_cancelled (w_cancelled w) (Datatypes.S (Datatypes.S c))) then
       do modify (set_runners (w_runners w ++ [NewRunner cmp c (Datatypes.S c)])%list) then
       do SetNode p node then
       do modify (fun w => set_instances (<[n_Name node := p]> (w_instances w)) w) then
       ret (p, true)
   end)%run.

Definition failed_status (node : TinyNode) (e : goerror) : TinyNode :=
  let s := n_Status node in
  with_status node (mkStatus (st_ObservedGeneration s) (st_Description s) (st_Info s) (st_Tags s)
    (st_Ports s) (error_text e) (st_Metadata s) true).

Definition settings_msg (node : TinyNode) : Msg goval :=
  mkMsg "" "" (GetPortFullName (n_Name node) SettingsPort) "{}" 0 "" "" "" "" "" 0 None.

Definition reconcile_component (p : nat) (node : TinyNode) : M CS S error :=
  (let* r := get_runner p in
   match c_OnReconcile (rn_component r) with
   | None => ret None
   | Some f =>
       let '(cs, e) := f node (rn_cs r) in
       do modify (upd_runner p (set_cs cs)) then ret e
   end)%run.

(** Returns the node with the status it leaves, and the error. *)
Definition Update (ctx : Ctx) (node : TinyNode) : M CS S (TinyNode * error) :=
  (let* w := get in
   match w_components w !! spec_Component (n_Spec node) with
   | None =>
       ret (node, NewPermanentError (Some (ErrorString
         ("component " +:+ spec_Component (n_Spec node) +:+ " is not registered"))))
   | Some cmp =>
       let* (p, isNew) := upsert node cmp in
       let* r := get_runner p in
       let nodeBackup := rn_node r in
       do SetNode p node then
       let rollback e :=
         do SetNode p nodeBackup then ret (failed_status node e, None) in
       do modify (upd_runner p (fun r =>
            match c_OnIdentity (rn_component r) with
            | Some f => set_cs (f node (rn_cs r)) r
            | None => r
            end)) then
       do modify (if (isNew : bool) && has_factory then upd_runner p (set_hasState true) else fun w => w) then
       let* refused := reconcile_component p node in
       match refused with
       | Some e => rollback e
       | None =>
           let* sent := sendMsg p ctx (settings_msg node) in
           match sent with
           | Err e => rollback e
           | Ok _ =>
               let* status := ReadStatus p (n_Status node) in
               ret (with_status node status, None)
           end
       end
   end)%run.

End scheduler.

(** ** The message router *)

Section router.
  Context {CS S : Type} `{Env CS S} `{Lib} `{Kube} `{ExecStore S}.
  Abbreviation Hdl := (@Handler CS S).

  Variable instance_waits port_waits : list Z.
  Variable zero : goval -> goval.
  Variable emitter : option Hdl.

(** The module's name, and its way out: the NATS transport or the connection
    pool; a byte slice, which may be nil. *)
  Variable moduleName : string.
  Variable nats : bool.
  Variable remote : Ctx -> Msg goval -> M CS S (result goerror (option string)).

Definition bytes_any (b : option string) : any goval :=
  AnyVal (VSlice ((fun s => map (fun c => VScalar (String c "")) (String.list_ascii_of_string s)) <$> b)).

Definition remote_response (msg : Msg goval) (resp : option string) : result goerror (any goval) :=
  match m_Resp msg with
  | None => Ok (bytes_any resp)
  | Some proto =>
      match json_unmarshal_into proto (default "" resp) with
      | Ok v => Ok (AnyVal v)
      | Err e => Err e
      end
  end.

(** [handle] is the scheduler's [Handle]. *)
Definition route (handle : Hdl) : Hdl := fun ctx msg =>
  (match ParseFullName (m_To msg) with
   | Err e => ret (Err (ErrorString ("parse destination error: " +:+ error_text e)))
   | Ok (targetModule, _) =>
       if targetModule =? moduleName then
         if negb (m_RunID msg =? "") && nats then
           let* r := remote ctx msg in
           ret match r with Ok b => Ok (bytes_any b) | Err e => Err e end
         else handle ctx msg
       else
         let* r := remote ctx msg in
         ret match r with Ok b => remote_response msg b | Err e => Err e end
   end)%run.

(** The router and the scheduler, tied together: [fuel] bounds how deep the
    calls nest. *)
Fixpoint process (fuel : nat) : Hdl :=
  match fuel with
  | O => fun _ _ => no_fuel
  | Datatypes.S fuel' =>
      route (Handle instance_waits port_waits zero emitter (process fuel'))
  end.

End router.
