(* ===== verification/SchedulerSpec.v ===== *)
(** * What the scheduler guarantees

    A message is carried through any graph of local nodes in finitely many
    nested calls; an update that a component refuses rolls its node back, and
    settings that failed once are reported as delivered the next time. What the
    operations on components and runners keep is in [Lifecycle]. *)
From S2P Require Import Prelude GoErrors Names Graph Run Json Reflect Secret ExecState Backoff Debouncer.
From S2P Require Import World Send Runner RunnerSpec RunnerStatus Scheduler.

Open Scope string_scope.

(** ** Computations that never run out of fuel *)

Definition total {CS S A} (m : M CS S A) : Prop := forall w, m w <> OutOfFuel.

Section total.
  Context {CS S : Type}.

Lemma total_ret {A} (a : A) : total (ret a : M CS S A).
Proof. done. Qed.
Lemma total_panic {A} (s : string) : total (panic s : M CS S A).
Proof. done. Qed.
Lemma total_get : total (get : M CS S _).
Proof. done. Qed.
Lemma total_modify (f : World CS S -> World CS S) : total (modify f).
Proof. done. Qed.
Lemma total_get_runner (p : nat) : total (get_runner p : M CS S _).
Proof. intros w. unfold get_runner. by destruct (w_runners w !! p). Qed.
Lemma total_with_cancel (ctx : Ctx) : total (with_cancel ctx : M CS S _).
Proof. done. Qed.

Lemma total_bind {A B} (m : M CS S A) (k : A -> M CS S B) :
  total m -> (forall a, total (k a)) -> total (bind m k).
Proof.
  intros Hm Hk w. unfold bind. specialize (Hm w). destruct (m w) as [a w'|msg w'|msg|]; try done.
  apply Hk.
Qed.
Lemma total_finally {A} (m : M CS S A) f : total m -> total (finally m f).
Proof. intros Hm w. unfold finally. specialize (Hm w). by destruct (m w). Qed.
Lemma total_wrap_panic {A} te (m : M CS S (result goerror A)) : total m -> total (wrap_panic te m).
Proof. intros Hm w. unfold wrap_panic. specialize (Hm w). by destruct (m w). Qed.
Lemma total_goroutine {A} (m : M CS S A) : total m -> total (goroutine m).
Proof. intros Hm w. unfold goroutine. specialize (Hm w). by destruct (m w). Qed.

End total.

Create HintDb total.
#[export] Hint Resolve total_ret total_panic total_get total_modify total_get_runner
  total_with_cancel : total.

(** Follow the structure of a computation. *)
Ltac total_step :=
  match goal with
  | |- forall _, _ => intros
  | |- total (bind _ _) => apply total_bind
  | |- total (finally _ _) => apply total_finally
  | |- total (wrap_panic _ _) => apply total_wrap_panic
  | |- total (goroutine _) => apply total_goroutine
  | |- _ => solve [auto with total]
  | |- total (match ?x with _ => _ end) => destruct x
  | |- total (let '(_, _) := ?x in _) => destruct x
  end.
Ltac prove_total := repeat total_step.

Section runner_total.
  Context {CS S : Type} `{Env CS S} `{Lib} `{Kube} `{ExecStore S}.
  Abbreviation W := (World CS S).
  Abbreviation Hdl := (@Handler CS S).

Definition total_handler (h : option Hdl) : Prop :=
  forall h', h = Some h' -> forall ctx msg, total (h' ctx msg).

Lemma total_select_wait (ctx : Ctx) (d : Z) : total (select_wait ctx d).
Proof. intros w. unfold select_wait. destruct (ctx_err _ _); [destruct (_ && _)|]; done. Qed.
Lemma total_record_emit run msg : total (record_emit run msg : M CS S _).
Proof. unfold record_emit. prove_total. Qed.
Lemma total_outgoing ctx e f t d r : total (outgoing ctx e f t d r : M CS S _).
Proof. intros w. unfold outgoing. destruct (run_from ctx w) as [[q r0]|]; [|done]. by destruct (NextStepKey r0 (e_ID e)). Qed.
Lemma total_newUUID : total (newUUID : M CS S _).
Proof. done. Qed.
Lemma total_newString : total (newString : M CS S _).
Proof. done. Qed.
Lemma total_declared v : total (declared_or_panic v : M CS S _).
Proof. unfold declared_or_panic. prove_total. Qed.
Lemma total_getPorts p : total (getPorts p : M CS S _).
Proof. unfold getPorts, getNodePorts. prove_total. Qed.
Lemma total_getNodePorts p : total (getNodePorts p : M CS S _).
Proof. unfold getNodePorts. prove_total. Qed.
Lemma total_HasPort p port : total (HasPort p port : M CS S _).
Proof. unfold HasPort. apply total_bind; [apply total_getPorts|auto with total]. Qed.

#[local] Hint Resolve total_select_wait total_record_emit total_outgoing total_newUUID
  total_newString total_declared total_getPorts total_getNodePorts total_HasPort : total.

Lemma total_attempts left n ctx policy run msg (h : Hdl) :
  (forall ctx msg, total (h ctx msg)) -> total (attempts left n ctx policy run msg h).
Proof. intros Hh. revert n. induction left as [|left IH]; intros n; cbn [attempts]; prove_total. Qed.

Lemma total_send p ctx e f t d r (h : Hdl) :
  (forall ctx msg, total (h ctx msg)) -> total (sendToEdgeWithRetry p ctx e f t d r h).
Proof.
  intros Hh. unfold sendToEdgeWithRetry. prove_total. by apply total_attempts.
Qed.

Lemma total_fan_out p ctx es f d r (h : Hdl) :
  (forall ctx msg, total (h ctx msg)) -> total (fan_out p ctx es f d r h).
Proof.
  intros Hh. induction es as [|e es IH]; cbn [fan_out]; [auto with total|].
  apply total_bind; [by apply total_goroutine, total_send|]. prove_total.
Qed.

Lemma total_outputHandler p ctx port data h : total_handler h -> total (outputHandler p ctx port data h).
Proof.
  intros Hh. unfold outputHandler. destruct (marshal_out data); [|auto with total].
  destruct h as [h|]; [|auto with total]. specialize (Hh h eq_refl).
  destruct (negb _); [by apply total_send|]. prove_total. by apply total_fan_out.
Qed.

Lemma total_DataHandler p h ctx port data : total_handler h -> total (DataHandler p h ctx port data).
Proof.
  intros Hh. unfold DataHandler, emit_span. prove_total. by apply total_outputHandler.
Qed.

Lemma total_run_prog p h (c : Prog CS) : total_handler h -> total (run_prog p h c).
Proof.
  intros Hh. induction c as [r|msg|k IH|s k IH|ctx port data k IH|ctx reply k IH|d k IH];
    cbn [run_prog]; prove_total. by apply total_DataHandler.
Qed.

Lemma total_call_component p e h ctx port data :
  total_handler e -> total_handler h -> total (call_component p e h ctx port data).
Proof.
  intros He Hh. unfold call_component, dispatchCapability. prove_total; by apply total_run_prog.
Qed.

Lemma total_MsgHandler p e h ctx msg :
  total_handler e -> total_handler h -> total (MsgHandler p e h ctx msg).
Proof.
  intros He Hh. unfold MsgHandler, enter_run, deliver, settings_skip, execute, writeStepRecord.
  prove_total; by apply total_call_component.
Qed.

Lemma total_ReadStatus p st : total (ReadStatus p st : M CS S _).
Proof. unfold ReadStatus. prove_total. Qed.

Lemma total_retry {A} ctx waits (op : M CS S (attempt_result A)) : total op -> total (retry ctx waits op).
Proof. intros Ho. induction waits as [|d ws IH]; cbn [retry]; prove_total. Qed.

Lemma total_run_capture port captured cs (c : Prog CS) : total (run_capture port captured cs c).
Proof.
  revert captured cs. induction c as [r|msg|k IH|s k IH|ctx p data k IH|ctx reply k IH|d k IH];
    intros captured cs; cbn [run_capture]; prove_total.
Qed.

End runner_total.

#[export] Hint Resolve total_HasPort total_select_wait total_getPorts : total.

(** ** Properties *)

(** C3. The depth limit stops every cycle: whatever the graph, the components
    and the rest of the process do, as long as the module's way out and the
    long-lived emitter return, a message at depth [d] is carried to an outcome
    within [max 1 (258 - d)] nested calls of the router; and past the limit a
    message is refused with a permanent error, which no retry repeats. *)
Theorem routing_terminates {CS S} `{Env CS S} `{Lib} `{Kube} `{ExecStore S}
    (iw pw : list Z) (zero : goval -> goval) (emitter : option (@Handler CS S)) (moduleName : string)
    (nats : bool) (remote : Ctx -> Msg goval -> M CS S (result goerror (option string)))
    (fuel : nat) (ctx : Ctx) (msg : Msg goval) :
  (forall ctx msg, total (remote ctx msg)) -> total_handler emitter ->
  (Z.max 1 (MaxMessageDepth + 2 - m_Depth msg) <= Z.of_nat fuel)%Z ->
  total (process iw pw zero emitter moduleName nats remote fuel ctx msg) /\
  ((MaxMessageDepth < m_Depth msg)%Z ->
   forall w, exists e, Handle iw pw zero emitter
       (process iw pw zero emitter moduleName nats remote fuel) ctx msg w = Val (Err e) w /\
     IsPermanent (Some e) = true /\ ShouldRetry (Some e) = false).
Proof.
  intros Hr He Hf. split.
  2: { intros Hd w. exists too_deep. unfold Handle. rewrite (proj2 (Z.ltb_lt _ _) Hd).
       split; [done|]. split; reflexivity. }
  revert ctx msg Hf. induction fuel as [|fuel IH]; intros ctx msg Hf; [lia|]. cbn [process].
  unfold route. destruct (ParseFullName (m_To msg)) as [[target c]|e]; [|auto with total].
  destruct (target =? moduleName); [|prove_total; apply Hr].
  destruct (negb (m_RunID msg =? "") && nats); [prove_total; apply Hr|].
  unfold Handle. destruct (Z.ltb_spec MaxMessageDepth (m_Depth msg)) as [|Hd]; [auto with total|].
  destruct (m_Mode msg =? "rpc").
  { unfold handleRPC. prove_total. apply total_run_capture. }
  destruct (ParseFullPortName (m_To msg)) as [nodeName port].
  destruct (port =? ReconcilePort); [auto with total|].
  assert (Hsend : forall p, total (sendMsg emitter (process iw pw zero emitter moduleName nats remote fuel) p ctx msg)).
  { intros p. apply total_MsgHandler; [done|]. intros h' [= <-] ctx' msg'. unfold deeper.
    destruct (_ =? ""); [auto with total|]. apply IH. simpl. lia. }
  prove_total; try (apply total_retry; unfold find_ready; prove_total); try done.
Qed.

(** ** A component that validates its settings

    It checks what it is given and does nothing else; its ports are fixed, the
    settings port among them, and it has no other capability. *)
Section validating.
  Context {CS S : Type} `{Env CS S} `{Lib} `{Kube} `{ExecStore S}.
  Abbreviation W := (World CS S).
  Abbreviation Hdl := (@Handler CS S).

Record validates (c : Component CS) (ports : list Port) (conf : goval)
    (check : option goval -> Result goval) : Prop := {
  v_ports : forall cs, c_Ports c cs = ports;
  v_port : exists q, find_port SettingsPort ports = Some q /\ p_Configuration q = Some conf;
  v_settings : c_OnSettings c = Some (fun _ d => Return (check d));
  v_reconcile : c_OnReconcile c = None;
  v_identity : c_OnIdentity c = None;
}.

(** The settings of the node evaluate to [data]: plain values without secrets,
    equal to themselves. *)
Record settings_of (node : TinyNode) (conf : goval) (data : option goval) : Prop := {
  s_name : str_has ":" (n_Name node) = false;
  s_input : forall r : Runner CS, rn_node r = node ->
    port_input r (settings_msg node) SettingsPort conf = Ok (data, []);
  s_equal : cmp_equal data data = Ok true;
  s_plain : ContainsPlaceholder data = false;
  s_declared : exists safe, Declared data = Ok safe;
}.

(** What a delivery of settings leaves alone. *)
Definition same_registry (w w' : W) : Prop :=
  w_components w' = w_components w /\ w_instances w' = w_instances w.

Lemma getPorts_val (p : nat) (w : W) (r : Runner CS) ports :
  w_runners w !! p = Some r -> rn_nodePorts r = None -> c_Ports (rn_component r) (rn_cs r) = ports ->
  exists w', getPorts p w = Val ports w' /\
    w_runners w' !! p = Some (set_nodePorts (cache_ports ports) r) /\
    same_data w w' /\ same_registry w w' /\ w_uuids w' = w_uuids w /\ w_now w' = w_now w.
Proof.
  intros Hr Hn <-. unfold getPorts. rewrite (bind_runner_eq p _ w r Hr), Hn.
  unfold getNodePorts. rewrite (bind_runner_eq p _ w r Hr), bind_modify_eq.
  eexists. split; [reflexivity|]. split; [by apply lookup_upd_runner|]. done.
Qed.

(** The runner's state when it handles the settings of [node]. *)
Definition ready (p : nat) (w : W) (r : Runner CS) (node : TinyNode) (c : Component CS) : Prop :=
  w_runners w !! p = Some r /\ rn_node r = node /\ rn_nodePorts r = None /\ rn_component r = c.

(** Delivery up to the settings check. *)
Lemma settings_delivery (p : nat) (e h : option Hdl) (ctx : Ctx) (w : W) r node c ports conf check data :
  validates c ports conf check -> settings_of node conf data -> ready p w r node c ->
  exists w1 ctx',
    w_runners w1 !! p = Some (set_nodePorts (cache_ports ports) r) /\
    same_data w w1 /\ same_registry w w1 /\ w_uuids w1 = w_uuids w /\
    MsgHandler p e h ctx (settings_msg node) w =
      finally (fun w => bind (settings_skip p SettingsPort data)
        (fun skip : bool => if skip then ret (Ok AnyNil)
         else execute p e h ctx' (settings_msg node) SettingsPort data []) w)
        (cancel (w_nextCancel w)) w1.
Proof.
  intros [Vp (q & Vq & Vc) Vs Vr Vi] [Sn Si Se Spl Sd] (Hr & Hn & Hc & Hcomp).
  set (w0 := set_cancelled (w_cancelled w) (Datatypes.S (w_nextCancel w)) w).
  destruct (getPorts_val p w0 r ports) as (w1 & E1 & R1 & D1 & G1 & U1 & _); [done|done|by rewrite Hcomp|].
  set (ctx0 := mkCtx (cx_run ctx) (w_nextCancel w :: cx_cancels ctx) (cx_deadline ctx) (cx_source ctx)).
  exists w1, (closing (rn_closeCh r) ctx0). do 4 (split; [done|]).
  assert (Hport : ParseFullPortName (m_To (settings_msg node)) = (n_Name node, SettingsPort)).
  { simpl. rewrite get_port_full_name_cons by apply andb_false_r. by apply parse_two. }
  unfold MsgHandler. rewrite Hport. cbn [snd]. change (SettingsPort =? "") with false. cbv beta iota zeta.
  rewrite (bind_runner_eq p _ w r Hr).
  assert (Hent : enter_run r ctx (settings_msg node) SettingsPort w = Val (Some ctx) w).
  { unfold enter_run. change (m_RunID (settings_msg node)) with "".
    change (negb ("" =? "")) with false. cbv beta iota.
    change (negb (go_has_prefix SettingsPort "_")) with false. by rewrite andb_false_r. }
  rewrite (bind_val_eq _ _ _ _ _ Hent). rewrite (bind_val_eq _ _ w (ctx0, w_nextCancel w) w0) by done.
  unfold finally, deliver. rewrite (bind_val_eq _ _ _ _ _ E1), Vq, Vc.
  rewrite (bind_runner_eq p _ w1 _ R1), Si by done. done.
Qed.

(** Unchanged settings are not delivered. *)
Lemma settings_skipped (p : nat) (e h : option Hdl) (ctx : Ctx) (w : W) r node c ports conf check data :
  validates c ports conf check -> settings_of node conf data -> ready p w r node c ->
  rn_portMsg r !! SettingsPort = Some data ->
  exists w', MsgHandler p e h ctx (settings_msg node) w = Val (Ok AnyNil) w' /\
    w_runners w' !! p = Some (set_nodePorts (cache_ports ports) r) /\
    same_data w w' /\ same_registry w w'.
Proof.
  intros V Sof Hrd Hmsg.
  destruct (settings_delivery p e h ctx w r node c ports conf check data V Sof Hrd)
    as (w1 & ctx' & R1 & D1 & G1 & _ & ->).
  assert (Hskip : settings_skip p SettingsPort data w1 = Val true w1).
  { unfold settings_skip. rewrite String.eqb_refl. cbn [negb].
    rewrite (bind_runner_eq p _ w1 _ R1), bind_get_eq. cbn [rn_portMsg set_nodePorts].
    rewrite Hmsg, (s_equal _ _ _ Sof), bind_ret_eq, (s_plain _ _ _ Sof). done. }
  exists (cancel (w_nextCancel w) w1). unfold finally. rewrite (bind_val_eq _ _ _ _ _ Hskip).
  split; [done|]. unfold cancel. destruct (w_cancelled w1 !! w_nextCancel w); done.
Qed.

Lemma writeStepRecord_val (p : nat) (ctx : Ctx) (err : error) (start : Z) (w : W) (r : Runner CS) :
  w_runners w !! p = Some r ->
  exists w', writeStepRecord p ctx err start w = Val tt w' /\ w_runners w' = w_runners w /\
    same_registry w w'.
Proof.
  intros Hr. unfold writeStepRecord. rewrite (bind_runner_eq p _ w r Hr), bind_get_eq.
  destruct (run_from ctx w) as [[q run]|]; [|by eexists]. destruct (negb (rn_hasState r)); [by eexists|].
  destruct (json_marshal_step _) as [b|]; [|by eexists]. destruct (exec_set _ _ _ _); by eexists.
Qed.

Lemma call_settings (p : nat) (e h : option Hdl) (ctx : Ctx) (w : W) (r : Runner CS) check err data :
  w_runners w !! p = Some r -> c_OnSettings (rn_component r) = Some (fun _ d => Return (check d)) ->
  result_err (check data) = Some err ->
  call_component p e h ctx SettingsPort data w =
    Val (Err err) (add_event (EvCapability (rn_name r) SettingsPort data) w).
Proof.
  intros Hr Hs He. unfold call_component.
  assert (Hd : dispatchCapability p e ctx SettingsPort data w =
    Val (result_fail (Some err), true) (add_event (EvCapability (rn_name r) SettingsPort data) w)).
  { unfold dispatchCapability. rewrite (bind_runner_eq p _ w r Hr). rewrite String.eqb_refl, Hs.
    unfold bind, modify, run_prog, ret. by rewrite He. }
  rewrite (bind_val_eq _ _ _ _ _ Hd). reflexivity.
Qed.

(** Refused settings: the error comes back, but they count as delivered. *)
Lemma settings_refused (p : nat) (e h : option Hdl) (ctx : Ctx) (w : W) r node c ports conf check data err :
  validates c ports conf check -> settings_of node conf data -> ready p w r node c ->
  (forall n, is_ok (new_uuid n) = true) ->
  match rn_portMsg r !! SettingsPort with None => True | Some prev => cmp_equal data prev = Ok false end ->
  result_err (check data) = Some err ->
  exists w' r', MsgHandler p e h ctx (settings_msg node) w = Val (Err err) w' /\
    w_runners w' !! p = Some r' /\ rn_node r' = node /\ rn_component r' = c /\
    rn_portMsg r' !! SettingsPort = Some data /\ same_registry w w'.
Proof.
  intros V Sof Hrd Hu Hmsg Herr.
  destruct (settings_delivery p e h ctx w r node c ports conf check data V Sof Hrd)
    as (w1 & ctx' & R1 & _ & G1 & _ & ->). destruct Hrd as (_ & Hn & _ & Hc).
  set (r1 := set_nodePorts (cache_ports ports) r) in *.
  set (w2 := upd_runner p (set_settings SettingsPort data None) w1).
  assert (Hskip : settings_skip p SettingsPort data w1 = Val false w2).
  { unfold settings_skip. rewrite String.eqb_refl. cbn [negb].
    rewrite (bind_runner_eq p _ w1 _ R1), bind_get_eq. cbn [rn_portMsg set_nodePorts r1].
    rewrite (s_plain _ _ _ Sof). destruct (rn_portMsg r !! SettingsPort); [rewrite Hmsg|]; done. }
  assert (R2 : w_runners w2 !! p = Some (set_settings SettingsPort data None r1)) by by apply lookup_upd_runner.
  unfold finally at 1. rewrite (bind_val_eq _ _ _ _ _ Hskip). cbv beta iota. unfold execute.
  specialize (Hu (w_uuids w2)). destruct (new_uuid (w_uuids w2)) as [u|] eqn:Eu; [|done].
  set (w3 := set_uuids (Datatypes.S (w_uuids w2)) w2).
  rewrite (bind_val_eq _ _ w2 (Ok u) w3) by (unfold newUUID; by rewrite Eu).
  rewrite bind_modify_eq. cbn [fold_left].
  assert (R3 : w_runners w3 !! p = Some (set_settings SettingsPort data None r1)) by exact R2.
  rewrite (bind_runner_eq p _ w3 _ R3). destruct (s_declared _ _ _ Sof) as [[safe b] Hd].
  rewrite (bind_val_eq _ _ w3 safe w3) by (unfold declared_or_panic; by rewrite Hd).
  rewrite bind_modify_eq, bind_get_eq. set (w4 := addSpanPortData _ w3).
  set (ctx2 := if (_ : bool) then ctx' else _).
  assert (R4 : w_runners w4 !! p = Some (set_settings SettingsPort data None r1)) by exact R3.
  set (w5 := clearGauge p "" (add_event (EvCapability (rn_name r) SettingsPort data) w4)).
  rewrite (bind_val_eq _ _ w4 (Err err : result goerror (any goval)) w5).
  2: { unfold wrap_panic. rewrite bind_modify_eq. unfold finally.
       change (setGauge p (w_now w4) (m_EdgeID (settings_msg node)) w4) with w4.
       rewrite (call_settings p e h ctx2 w4 _ check err data R4); [done| |done].
       cbn [rn_component set_settings set_nodePorts r1]. rewrite Hc. apply V. }
  assert (R5 : w_runners w5 !! p =
    Some (set_activeEdges (delete "" (rn_activeEdges r)) (set_settings SettingsPort data None r1))).
  { unfold w5, clearGauge. exact (lookup_upd_runner p _ (add_event _ w4) _ R4). }
  destruct (writeStepRecord_val p ctx2 (Some err) (w_now w4) w5 _ R5) as (w6 & E6 & R6 & C6 & I6).
  rewrite (bind_val_eq _ _ _ _ _ E6), bind_modify_eq. unfold ret.
  eexists _, _. split; [reflexivity|].
  assert (Hf : forall w', w_runners (cancel (w_nextCancel w) (addSpanError err w')) = w_runners w' /\
    same_registry w' (cancel (w_nextCancel w) (addSpanError err w'))).
  { intros w'. unfold addSpanError, cancel. destruct (is_canceled err); simpl;
      destruct (w_cancelled w' !! w_nextCancel w); done. }
  destruct (Hf w6) as (Rf & Cf & If). rewrite Rf, R6, R5. split; [reflexivity|].
  split; [exact Hn|]. split; [exact Hc|]. split; [cbn; by rewrite lookup_insert_eq|].
  destruct G1 as [G1 G2]. split; [rewrite Cf, C6; exact G1|rewrite If, I6; exact G2].
Qed.

  Variable has_factory : bool.
  Variable emitter : option Hdl.
  Variable msgHandler : Hdl.

(** An update of a node with an instance, up to the settings message. *)
Lemma update_reaches_settings (p : nat) (ctx : Ctx) (w : W) r node c c0 ports conf check :
  validates c ports conf check ->
  w_components w !! spec_Component (n_Spec node) = Some c0 ->
  w_instances w !! n_Name node = Some p ->
  w_runners w !! p = Some r -> rn_component r = c ->
  exists w' r', ready p w' r' node c /\ rn_portMsg r' = rn_portMsg r /\
    same_data w w' /\ same_registry w w' /\
    Update has_factory emitter msgHandler ctx node w =
      bind (sendMsg emitter msgHandler p ctx (settings_msg node))
        (fun sent => match sent with
           | Err e => bind (SetNode p (rn_node r)) (fun _ => ret (failed_status node e, None))
           | Ok _ => bind (ReadStatus p (n_Status node)) (fun st => ret (with_status node st, None))
           end) w'.
Proof.
  intros V Hc0 Hi Hr Hc.
  destruct (SetNode_val p node w r Hr) as (w1 & E1 & R1 & D1 & C1 & I1 & _).
  set (r1 := set_nodePorts None (set_spec node (declaredSecretNames node) r)) in *.
  set (idf := fun r : Runner CS => match c_OnIdentity (rn_component r) with
    | Some f => set_cs (f node (rn_cs r)) r | None => r end).
  assert (Hid : idf r1 = r1).
  { unfold idf. change (rn_component r1) with (rn_component r). by rewrite Hc, (v_identity _ _ _ _ V). }
  exists (upd_runner p idf w1), r1.
  assert (R2 : w_runners (upd_runner p idf w1) !! p = Some r1).
  { rewrite (lookup_upd_runner p idf w1 r1 R1). by rewrite Hid. }
  split; [done|]. split; [done|]. split; [exact D1|]. split; [done|].
  unfold Update. rewrite bind_get_eq, Hc0.
  rewrite (bind_val_eq _ _ w (p, false) w) by (unfold upsert; by rewrite bind_get_eq, Hi).
  rewrite (bind_runner_eq p _ w r Hr), (bind_val_eq _ _ _ _ _ E1), bind_modify_eq, bind_modify_eq.
  cbn [andb]. cbv beta iota. fold idf.
  rewrite (bind_val_eq _ _ (upd_runner p idf w1) None (upd_runner p idf w1)); [done|].
  unfold reconcile_component. rewrite (bind_runner_eq p _ _ r1 R2).
  change (rn_component r1) with (rn_component r). by rewrite Hc, (v_reconcile _ _ _ _ V).
Qed.

End validating.

(** Refused settings are reported once: when a component refuses the
    settings of a node, the update rolls the runner back to its previous node
    and leaves the error in the status; but the settings count as delivered, so
    the next update with the very same node does not ask the component again
    and reports the node as healthy. *)
Theorem refused_settings_pass_next_time {CS S} `{Env CS S} `{Lib} `{Kube} `{ExecStore S}
    (has_factory : bool) (emitter : option (@Handler CS S)) (msgHandler : @Handler CS S)
    (p : nat) (ctx ctx' : Ctx) (w : World CS S) (r : Runner CS) (node : TinyNode)
    (c c0 : Component CS) (ports : list Port) (conf : goval)
    (check : option goval -> Result goval) (data : option goval) (err : goerror) :
  validates c ports conf check -> settings_of (CS := CS) node conf data ->
  w_components w !! spec_Component (n_Spec node) = Some c0 ->
  w_instances w !! n_Name node = Some p -> w_runners w !! p = Some r -> rn_component r = c ->
  match rn_portMsg r !! SettingsPort with None => True | Some prev => cmp_equal data prev = Ok false end ->
  (forall n, is_ok (new_uuid n) = true) -> result_err (check data) = Some err ->
  exists w1 r1 node2 w2,
    Update has_factory emitter msgHandler ctx node w = Val (failed_status node err, None) w1 /\
    w_runners w1 !! p = Some r1 /\ rn_node r1 = rn_node r /\
    Update has_factory emitter msgHandler ctx' node w1 = Val (node2, None) w2 /\
    st_Error (n_Status node2) = false /\ st_Status (n_Status node2) = "OK" /\
    w_events w2 = w_events w1.
Proof.
  intros V Sof Hc0 Hi Hr Hc Hmsg Hu Herr.
  destruct (update_reaches_settings has_factory emitter msgHandler p ctx w r node c c0 ports conf check
    V Hc0 Hi Hr Hc) as (wa & ra & Ra & Ma & Da & [Ca Ia] & ->).
  rewrite <- Ma in Hmsg.
  destruct (settings_refused p emitter (Some (deeper msgHandler 0)) ctx wa ra node c ports conf check
    data err V Sof Ra Hu Hmsg Herr) as (wb & rb & Eb & Rb & Nb & Kb & Mb & [Cb Ib]).
  destruct (SetNode_val p (rn_node r) wb rb Rb) as (w1 & E1 & R1 & D1 & C1 & I1 & _).
  rewrite (bind_val_eq _ _ _ _ _ Eb), (bind_val_eq _ _ _ _ _ E1).
  exists w1, (set_nodePorts None (set_spec (rn_node r) (declaredSecretNames (rn_node r)) rb)).
  destruct (update_reaches_settings has_factory emitter msgHandler p ctx' w1 _ node c c0 ports conf check
    V (ltac:(by rewrite C1, Cb, Ca)) (ltac:(by rewrite I1, Ib, Ia)) R1 Kb)
    as (wc & rc & Rc & Mc & Dc & _ & ->).
  destruct (settings_skipped p emitter (Some (deeper msgHandler 0)) ctx' wc rc node c ports conf check
    data V Sof Rc (ltac:(by rewrite Mc))) as (wd & Ed & Rd & Dd & _).
  destruct (ReadStatus_val p (n_Status node) wd _ Rd) as (w2 & E2 & _).
  eexists _, w2. split; [reflexivity|]. split; [exact R1|]. split; [reflexivity|].
  rewrite (bind_val_eq _ _ _ _ _ Ed), (bind_val_eq _ _ _ _ _ E2). split; [reflexivity|].
  do 2 (split; [reflexivity|]). rewrite (ReadStatus_events p _ _ _ _ E2).
  destruct Dc as (_ & _ & Dc), Dd as (_ & _ & Dd). by rewrite Dd, Dc.
Qed.

(** A component that refuses every configuration. *)
Module Strict.

Definition refusal : goerror := ErrorString "token is required".
Definition check : option goval -> Result goval := fun _ => result_fail (Some refusal).
Definition ports : list Port := [mkPort SettingsPort "" 0 false None (Some (VString "")) None].

Definition component : Component unit :=
  mkComponent "strict" "" "" [] tt (fun _ => ports) (fun _ _ _ => Return success)
    (Some (fun _ d => Return (check d))) None None None None None.

Definition node : TinyNode := mkNode "s" "ns" ∅ 1 (mkSpec "m" "strict" [] []) empty_status.

Definition world : World unit Sample.Store :=
  mkWorld 0 0 [] ∅ 0 ∅ [set_spec node ∅ (NewRunner component 100 101)]
    {["s" := 0%nat]} {["strict" := component]} {["s" := node]} [].

Lemma validates_ports : @validates unit component ports (VString "") check.
Proof. constructor; try done. eexists. split; reflexivity. Qed.

Lemma settings : @settings_of unit sample_lib node (VString "") (Some (VString "")).
Proof.
  constructor; try reflexivity; [|by eexists].
  intros r Hr. unfold port_input. rewrite Hr. reflexivity.
Qed.

End Strict.

Lemma refused_settings_pass_next_time_witness :
  exists node1 w1 node2 w2,
    @Update _ _ Sample.env sample_lib Sample.exec_store true None Sample.answer background
      Strict.node Strict.world = Val (node1, None) w1 /\
    st_Status (n_Status node1) = "token is required" /\
    @Update _ _ Sample.env sample_lib Sample.exec_store true None Sample.answer background
      Strict.node w1 = Val (node2, None) w2 /\
    st_Status (n_Status node2) = "OK".
Proof.
  destruct (@refused_settings_pass_next_time _ _ Sample.env sample_lib Sample.kube Sample.exec_store
    true None Sample.answer 0 background background Strict.world
    (set_spec Strict.node ∅ (NewRunner Strict.component 100 101)) Strict.node Strict.component
    Strict.component Strict.ports (VString "") Strict.check (Some (VString "")) Strict.refusal
    Strict.validates_ports Strict.settings eq_refl eq_refl eq_refl eq_refl I (fun _ => eq_refl) eq_refl)
    as (w1 & r1 & node2 & w2 & E1 & _ & _ & E2 & _ & Hs & _).
  exists (failed_status Strict.node Strict.refusal), w1, node2, w2.
  split; [exact E1|]. split; [reflexivity|]. split; [exact E2|exact Hs].
Defined.

Lemma routing_terminates_witness :
  total (ret (Ok None) : M unit Sample.Store (result goerror (option string))) /\
  forall msg : Msg goval, (0 <= m_Depth msg)%Z ->
    total (@process _ _ Sample.env sample_lib Sample.exec_store [] [] (fun v => v) None "m" false
      (fun _ _ => ret (Ok None)) 258 background msg).
Proof.
  split; [intros w; discriminate|]. intros msg Hd.
  destruct (@routing_terminates _ _ Sample.env sample_lib Sample.kube Sample.exec_store [] []
    (fun v => v) None "m" false (fun _ _ => ret (Ok None)) 258 background msg) as [Ht _];
    [intros ctx' msg' w; discriminate|intros h' [=]|unfold MaxMessageDepth; lia|exact Ht].
Defined.
