(* ===== verification/Lifecycle.v ===== *)
(** * The life of a module's nodes

    What [Scheduler]'s operations on components and runners keep: the map of
    instances and the heap of runners stay in order whatever sequence of
    installs, creations, deletions and withdrawals a process goes through, none
    of them panics, and withdrawing a component stops exactly its instances. *)
From S2P Require Import Prelude GoErrors Names Graph Run Json Reflect ExecState Backoff Debouncer.
From S2P Require Import World Send Runner RunnerSpec RunnerStatus Scheduler.

Open Scope string_scope.

(** ** Runs that leave the scheduler's maps alone *)

Definition ident {CS} (r : Runner CS) : TinyNode * Component CS * nat * nat :=
  (rn_node r, rn_component r, rn_closeCh r, rn_runCtx r).

Record kept {CS S} (w w' : World CS S) : Prop := {
  kept_idents : ident <$> w_runners w' = ident <$> w_runners w;
  kept_instances : w_instances w' = w_instances w;
  kept_components : w_components w' = w_components w;
  kept_cancelled : w_cancelled w' = w_cancelled w;
  kept_next : w_nextCancel w' = w_nextCancel w;
}.

#[export] Instance kept_preorder {CS S} : PreOrder (@kept CS S).
Proof.
  split; [by constructor|]. intros w1 w2 w3 [] []. constructor; congruence.
Qed.

Definition steady {CS S A} (m : M CS S A) (w : World CS S) : Prop :=
  exists a w', m w = Val a w' /\ kept w w'.

Definition has_runner {CS S} (w : World CS S) (p : nat) : Prop := is_Some (w_runners w !! p).

Section steady.
  Context {CS S : Type} `{Lib} `{Kube}.
  Abbreviation W := (World CS S).

Lemma kept_runner (w w' : W) (p : nat) : kept w w' -> has_runner w p -> has_runner w' p.
Proof.
  intros [Hk _ _ _ _]. unfold has_runner. rewrite !lookup_lt_is_Some.
  rewrite <- (length_fmap ident (w_runners w)), <- (length_fmap ident (w_runners w')). by rewrite Hk.
Qed.

Lemma kept_ident (w w' : W) (p : nat) (r : Runner CS) :
  kept w w' -> w_runners w !! p = Some r ->
  exists r', w_runners w' !! p = Some r' /\ ident r' = ident r.
Proof.
  intros Hk Hr. assert (E : (ident <$> w_runners w') !! p = Some (ident r))
    by (rewrite (kept_idents _ _ Hk), list_lookup_fmap, Hr; done).
  rewrite list_lookup_fmap in E. destruct (w_runners w' !! p) as [r'|]; [|done].
  exists r'. split; [done|]. by apply (inj Some).
Qed.

Lemma steady_ret {A} (a : A) (w : W) : steady (ret a) w.
Proof. exists a, w. split; [done|reflexivity]. Qed.

Lemma steady_modify (f : W -> W) (w : W) : kept w (f w) -> steady (modify f) w.
Proof. intros. by exists tt, (f w). Qed.

Lemma steady_get (w : W) : steady get w.
Proof. exists w, w. split; [done|reflexivity]. Qed.

Lemma steady_runner (p : nat) (w : W) : has_runner w p -> steady (get_runner p) w.
Proof. intros [r Hr]. exists r, w. unfold get_runner. rewrite Hr. split; [done|reflexivity]. Qed.

Lemma steady_bind {A B} (m : M CS S A) (k : A -> M CS S B) (w : W) :
  steady m w -> (forall a w', kept w w' -> steady (k a) w') -> steady (bind m k) w.
Proof.
  intros (a & w1 & E1 & K1) Hk. destruct (Hk a w1 K1) as (b & w2 & E2 & K2).
  exists b, w2. split; [by rewrite (bind_val_eq _ _ _ _ _ E1)|by etrans].
Qed.

Lemma kept_upd (p : nat) (f : Runner CS -> Runner CS) (w : W) :
  (forall r, ident (f r) = ident r) -> kept w (upd_runner p f w).
Proof.
  intros Hf. constructor; try done. simpl. apply list_eq. intros q. rewrite !list_lookup_fmap.
  destruct (decide (q = p)) as [->|Hne].
  - rewrite list_lookup_alter_eq. destruct (w_runners w !! p); [simpl; by rewrite Hf|done].
  - by rewrite list_lookup_alter_ne.
Qed.

Lemma steady_ReadStatus (p : nat) (st : TinyNodeStatus) (w : W) :
  has_runner w p -> steady (ReadStatus p st) w.
Proof.
  intros Hp. unfold ReadStatus, getNodePorts.
  apply steady_bind; [apply steady_bind; [by apply steady_runner|]|].
  - intros r w1 K1. apply steady_bind; [by apply steady_modify, kept_upd|]. intros _ w2 _. apply steady_ret.
  - intros ports w1 K1. apply steady_bind; [by apply steady_runner; eapply kept_runner|].
    intros r w2 _. apply steady_ret.
Qed.

Lemma steady_PatchNode (ctx : Ctx) (node : TinyNode) (updater : TinyNode -> M CS S (result goerror TinyNode))
    (w : W) :
  (forall base w', kept w w' -> steady (updater base) w') -> steady (PatchNode ctx node updater) w.
Proof.
  intros Hu. apply steady_bind; [apply steady_get|]. intros w0 w1 K1.
  destruct (kube_get _ _ _) as [base|e]; [|apply steady_ret].
  apply steady_bind; [by apply Hu|]. intros [new|e] w2 K2; [|apply steady_ret].
  case_bool_decide; [apply steady_ret|]. apply steady_bind; [apply steady_get|]. intros w3 w4 K4.
  destruct (kube_patch_status _ _ _ _).
  - apply steady_bind; [by apply steady_modify|]. intros _ w5 _.
    apply steady_bind; [by apply steady_modify|]. intros _ w6 _. apply steady_ret.
  - apply steady_bind; [by apply steady_modify|]. intros _ w6 _. apply steady_ret.
Qed.

Lemma steady_run_patch (p : nat) (node : TinyNode) (w : W) : has_runner w p -> steady (run_patch p node) w.
Proof.
  intros Hp. apply steady_bind; [by apply steady_runner|]. intros r w1 K1.
  apply steady_bind; [by apply steady_modify, kept_upd|]. intros _ w2 K2.
  apply steady_bind; [|intros; apply steady_ret]. apply steady_PatchNode. intros base w3 K3.
  destruct (apply_updaters _ base); [|apply steady_ret].
  apply steady_bind; [|intros; apply steady_ret]. apply steady_ReadStatus.
  eapply kept_runner; [exact K3|]. eapply kept_runner; [exact K2|]. by eapply kept_runner.
Qed.

Lemma steady_flush (p : nat) (w : W) : has_runner w p -> steady (flush_patch p) w.
Proof.
  intros Hp. apply steady_bind; [by apply steady_runner|]. intros r w1 K1.
  apply steady_bind; [by apply steady_modify, kept_upd|]. intros _ w2 K2.
  destruct (Flush (rn_debouncer r)).2 as [node|] eqn:E; simpl in E; rewrite E; [|apply steady_ret].
  apply steady_run_patch. eapply kept_runner; [exact K2|]. by eapply kept_runner.
Qed.

End steady.

(** ** The scheduler's maps in order

    Every instance is a runner of the node it is registered under, its close
    channel is open and its own, and the ids given out are below the next one. *)
Record scheduler_ok {CS S} (w : World CS S) : Prop := {
  ok_runner : forall n p, w_instances w !! n = Some p ->
    exists r, w_runners w !! p = Some r /\ n_Name (rn_node r) = n;
  ok_open : forall n p r, w_instances w !! n = Some p -> w_runners w !! p = Some r ->
    w_cancelled w !! rn_closeCh r = None;
  ok_own : forall n n' p p' r r', w_instances w !! n = Some p -> w_runners w !! p = Some r ->
    w_instances w !! n' = Some p' -> w_runners w !! p' = Some r' ->
    rn_closeCh r <> rn_runCtx r' /\ (n <> n' -> rn_closeCh r <> rn_closeCh r');
  ok_fresh : forall c, is_Some (w_cancelled w !! c) \/
      (exists p r, w_runners w !! p = Some r /\ (c = rn_closeCh r \/ c = rn_runCtx r)) ->
    (c < w_nextCancel w)%nat;
}.

(** The component an instance runs. *)
Definition runs_component {CS S} (w : World CS S) (node name : string) : Prop :=
  exists p r, w_instances w !! node = Some p /\ w_runners w !! p = Some r /\
    c_Name (rn_component r) = name.

(** What stopping the runner [r] changes. *)
Record stopped {CS S} (r : Runner CS) (w w' : World CS S) : Prop := {
  st_idents : ident <$> w_runners w' = ident <$> w_runners w;
  st_instances : w_instances w' = w_instances w;
  st_components : w_components w' = w_components w;
  st_next : w_nextCancel w' = w_nextCancel w;
  st_cancelled : forall c, is_Some (w_cancelled w' !! c) <->
    is_Some (w_cancelled w !! c) \/ c = rn_runCtx r \/ c = rn_closeCh r;
}.

Section lifecycle.
  Context {CS S : Type} `{Lib} `{Kube} `{MapRange nat}.
  Abbreviation W := (World CS S).

Lemma same_ident (w w' : W) (p : nat) (r' : Runner CS) :
  ident <$> w_runners w' = ident <$> w_runners w -> w_runners w' !! p = Some r' ->
  exists r, w_runners w !! p = Some r /\ ident r' = ident r.
Proof.
  intros Hk Hr. assert (E : (ident <$> w_runners w) !! p = Some (ident r'))
    by (rewrite <- Hk, list_lookup_fmap, Hr; done).
  rewrite list_lookup_fmap in E. destruct (w_runners w !! p) as [r|]; [|done].
  exists r. split; [done|]. by apply (inj Some) in E.
Qed.

Lemma cancel_is_Some (c c' : nat) (w : W) :
  is_Some (w_cancelled (cancel c w) !! c') <-> is_Some (w_cancelled w !! c') \/ c' = c.
Proof.
  unfold cancel. destruct (w_cancelled w !! c) eqn:E; simpl.
  - split; [by left|]. intros [?| ->]; [done|by eexists].
  - destruct (decide (c' = c)) as [->|Hne].
    + rewrite lookup_insert_eq. split; [by right|by eexists].
    + rewrite lookup_insert_ne by done. split; [by left|]. by intros [?|?].
Qed.

Lemma cancel_kept (c : nat) (w : W) :
  w_runners (cancel c w) = w_runners w /\ w_instances (cancel c w) = w_instances w /\
  w_components (cancel c w) = w_components w /\ w_nextCancel (cancel c w) = w_nextCancel w.
Proof. unfold cancel. by destruct (w_cancelled w !! c). Qed.

(** Both ways to stop end by closing the channel of a runner whose context they
    have cancelled. *)
Lemma close_stopped (r : Runner CS) (w w1 w2 : W) :
  w_cancelled w !! rn_closeCh r = None -> rn_closeCh r <> rn_runCtx r ->
  kept w w1 -> kept (cancel (rn_runCtx r) w1) w2 ->
  exists w', close_channel (rn_closeCh r) w2 = Val tt w' /\ stopped r w w'.
Proof.
  intros Hopen Hne K1 K2. unfold close_channel.
  assert (Hc : w_cancelled w2 !! rn_closeCh r = None).
  { rewrite (kept_cancelled _ _ K2). apply eq_None_not_Some. rewrite cancel_is_Some.
    rewrite (kept_cancelled _ _ K1), Hopen. intros [[? [=]]|?]; done. }
  rewrite Hc. eexists. split; [done|].
  destruct (cancel_kept (rn_closeCh r) w2) as (A1 & A2 & A3 & A4).
  destruct (cancel_kept (rn_runCtx r) w1) as (B1 & B2 & B3 & B4).
  destruct K1 as [C1 C2 C3 C4 C5], K2 as [D1 D2 D3 D4 D5]. constructor.
  - by rewrite A1, D1, B1, C1.
  - by rewrite A2, D2, B2, C2.
  - by rewrite A3, D3, B3, C3.
  - by rewrite A4, D5, B4, C5.
  - intros c. rewrite cancel_is_Some, D4, cancel_is_Some, C4. tauto.
Qed.

Lemma Stop_val (p : nat) (w : W) (r : Runner CS) :
  w_runners w !! p = Some r -> w_cancelled w !! rn_closeCh r = None -> rn_closeCh r <> rn_runCtx r ->
  exists w', Stop p w = Val tt w' /\ stopped r w w'.
Proof.
  intros Hr Hopen Hne. unfold Stop. rewrite (bind_runner_eq p _ w r Hr).
  destruct (steady_flush p w) as ([] & w1 & E1 & K1); [by exists r|].
  rewrite (bind_val_eq _ _ _ _ _ E1), bind_modify_eq.
  set (w2 := cancel (rn_runCtx r) w1).
  destruct (c_OnDestroy (rn_component r)) as [f|].
  - rewrite bind_modify_eq. apply (close_stopped r w w1); try done. by apply kept_upd.
  - rewrite (bind_val_eq _ _ _ tt w2) by done. by apply (close_stopped r w w1).
Qed.

Lemma StopWithoutCleanup_val (p : nat) (w : W) (r : Runner CS) :
  w_runners w !! p = Some r -> w_cancelled w !! rn_closeCh r = None -> rn_closeCh r <> rn_runCtx r ->
  exists w', StopWithoutCleanup p w = Val tt w' /\ stopped r w w'.
Proof.
  intros Hr Hopen Hne. unfold StopWithoutCleanup. rewrite (bind_runner_eq p _ w r Hr).
  destruct (steady_flush p w) as ([] & w1 & E1 & K1); [by exists r|].
  rewrite (bind_val_eq _ _ _ _ _ E1), bind_modify_eq. by apply (close_stopped r w w1).
Qed.

(** Taking an instance out and stopping it. *)
Definition without (name : string) (w : W) : W := set_instances (delete name (w_instances w)) w.

Record removed (name : string) (w w' : W) : Prop := {
  rm_ok : scheduler_ok w';
  rm_idents : ident <$> w_runners w' = ident <$> w_runners w;
  rm_instances : w_instances w' = delete name (w_instances w);
  rm_components : w_components w' = w_components w;
}.

Lemma remove_ok (name : string) (p : nat) (r : Runner CS) (w w' : W) :
  scheduler_ok w -> w_instances w !! name = Some p -> w_runners w !! p = Some r ->
  stopped r (without name w) w' -> removed name w w'.
Proof.
  intros Hok Hp Hr Hst. destruct Hst as [S1 S2 S3 S4 S5].
  change (w_runners (without name w)) with (w_runners w) in S1.
  change (w_instances (without name w)) with (delete name (w_instances w)) in S2.
  change (w_cancelled (without name w)) with (w_cancelled w) in S5.
  assert (Hinst : forall n q, w_instances w' !! n = Some q -> n <> name /\ w_instances w !! n = Some q).
  { intros n q. rewrite S2. intros Hq%lookup_delete_Some. by destruct Hq. }
  assert (Hrun : forall q r', w_runners w' !! q = Some r' ->
    exists r0, w_runners w !! q = Some r0 /\ rn_closeCh r' = rn_closeCh r0 /\
      rn_runCtx r' = rn_runCtx r0 /\ rn_node r' = rn_node r0).
  { intros q r' Hq. destruct (same_ident w w' q r' S1 Hq) as (r0 & Hr0 & E). injection E as E1 E2 E3 E4.
    by exists r0. }
  constructor; try done. constructor.
  - intros n q [_ Hn]%Hinst. destruct (ok_runner _ Hok n q Hn) as (r0 & Hr0 & Hname).
    assert (Hk : is_Some (w_runners w' !! q)).
    { apply lookup_lt_is_Some. rewrite <- (length_fmap ident), S1, length_fmap.
      apply lookup_lt_is_Some. by exists r0. }
    destruct Hk as [r' Hr']. exists r'. split; [done|].
    destruct (Hrun q r' Hr') as (r1 & Hr1 & _ & _ & ->). congruence.
  - intros n q r' [Hne Hn]%Hinst (r0 & Hr0 & -> & _)%Hrun. apply eq_None_not_Some. rewrite S5.
    intros [Hc|[Hc|Hc]].
    + rewrite (ok_open _ Hok n q r0 Hn Hr0) in Hc. by destruct Hc.
    + by destruct (ok_own _ Hok n name q p r0 r Hn Hr0 Hp Hr).
    + by destruct (ok_own _ Hok n name q p r0 r Hn Hr0 Hp Hr) as [_ []].
  - intros n n' q q' r1 r1' [_ Hn]%Hinst (r0 & Hr0 & -> & _)%Hrun [_ Hn']%Hinst (r0' & Hr0' & -> & -> & _)%Hrun.
    exact (ok_own _ Hok n n' q q' r0 r0' Hn Hr0 Hn' Hr0').
  - intros c Hc. rewrite S4. apply (ok_fresh _ Hok). destruct Hc as [Hc|(q & r' & Hq & Hc)].
    + apply S5 in Hc as [Hc|Hc]; [by left|]. right. exists p, r. naive_solver.
    + right. destruct (Hrun q r' Hq) as (r0 & Hr0 & E1 & E2 & _). exists q, r0. by rewrite <- E1, <- E2.
Qed.

Lemma Destroy_val (name : string) (w : W) :
  scheduler_ok w ->
  exists w', Destroy name w = Val tt w' /\
    match w_instances w !! name with None => w' = w | Some _ => removed name w w' end.
Proof.
  intros Hok. unfold Destroy. rewrite bind_get_eq. destruct (w_instances w !! name) as [p|] eqn:Ep.
  2: { by exists w. }
  destruct (ok_runner _ Hok name p Ep) as (r & Hr & _).
  destruct (Stop_val p (without name w) r) as (w' & E & Hst); [done| | |].
  - exact (ok_open _ Hok name p r Ep Hr).
  - by destruct (ok_own _ Hok name name p p r r Ep Hr Ep Hr).
  - exists w'. rewrite bind_modify_eq. split; [exact E|]. by apply (remove_ok name p r).
Qed.

(** The whole loop of [Uninstall], over a snapshot of the instances. *)
Definition kept_instance (w0 : W) (name n : string) (p : nat) : bool :=
  match w_runners w0 !! p with Some r => negb (c_Name (rn_component r) =? name) | None => true end.

Lemma destroy_matching_val (name : string) (items : list (string * nat)) (w : W) :
  scheduler_ok w -> NoDup items.*1 -> (forall n p, (n, p) ∈ items -> w_instances w !! n = Some p) ->
  exists w', destroy_matching name items w = Val tt w' /\ scheduler_ok w' /\
    ident <$> w_runners w' = ident <$> w_runners w /\ w_components w' = w_components w /\
    forall n, w_instances w' !! n =
      match w_instances w !! n with
      | Some p => if bool_decide ((n, p) ∈ items) && negb (kept_instance w name n p) then None else Some p
      | None => None
      end.
Proof.
  revert w. induction items as [|[n p] items IH]; intros w Hok Hnd Hin.
  - exists w. split; [done|]. do 3 (split; [done|]). intros n. destruct (w_instances w !! n) as [p|]; [|done].
    by rewrite bool_decide_eq_false_2 by apply not_elem_of_nil.
  - cbn [destroy_matching]. apply NoDup_cons in Hnd as [Hn Hnd].
    assert (Hp : w_instances w !! n = Some p) by (apply Hin; left).
    destruct (ok_runner _ Hok n p Hp) as (r & Hr & Hname). rewrite (bind_runner_eq p _ w r Hr).
    assert (Hstep : exists w1, (if c_Name (rn_component r) =? name then Destroy (n_Name (rn_node r)) else ret tt) w
      = Val tt w1 /\ scheduler_ok w1 /\ ident <$> w_runners w1 = ident <$> w_runners w /\
      w_components w1 = w_components w /\
      w_instances w1 = if c_Name (rn_component r) =? name then delete n (w_instances w) else w_instances w).
    { destruct (c_Name (rn_component r) =? name); [|by exists w]. rewrite Hname.
      destruct (Destroy_val n w Hok) as (w1 & E & Hrm). rewrite Hp in Hrm. destruct Hrm. by exists w1. }
    destruct Hstep as (w1 & E1 & Hok1 & Hid1 & Hc1 & Hi1). rewrite (bind_val_eq _ _ _ _ _ E1).
    destruct (IH w1 Hok1 Hnd) as (w2 & E2 & Hok2 & Hid2 & Hc2 & Hi2).
    { intros n' p' Hin'. rewrite Hi1. assert (Hne : n' <> n).
      { intros ->. apply Hn. apply list_elem_of_fmap. by exists (n, p'). }
      destruct (_ =? name); [rewrite lookup_delete_ne by done|]; apply Hin; by right. }
    exists w2. split; [done|]. split; [done|]. split; [by rewrite Hid2|]. split; [by rewrite Hc2|].
    intros n'. rewrite Hi2, Hi1.
    assert (Hkeep : forall q, kept_instance w1 name n' q = kept_instance w name n' q).
    { intros q. unfold kept_instance. destruct (w_runners w1 !! q) as [r1|] eqn:E.
      - destruct (same_ident w w1 q r1 Hid1 E) as (r0 & -> & Hi). by injection Hi as _ -> _ _.
      - apply lookup_ge_None in E. rewrite <- (length_fmap ident), Hid1, length_fmap in E.
        by apply lookup_ge_None in E as ->. }
    destruct (decide (n' = n)) as [->|Hne].
    + rewrite Hp. assert (Hself : kept_instance w name n p = negb (c_Name (rn_component r) =? name)).
      { unfold kept_instance. by rewrite Hr. }
      assert (Hfst : bool_decide ((n, p) ∈ items) = false).
      { apply bool_decide_eq_false. intros Hin'. apply Hn, list_elem_of_fmap. by exists (n, p). }
      rewrite (bool_decide_eq_true_2 ((n, p) ∈ (n, p) :: items)) by left. rewrite Hself.
      destruct (c_Name (rn_component r) =? name); simpl; [by rewrite lookup_delete_eq|].
      by rewrite Hp, Hfst.
    + assert (Hl : (if c_Name (rn_component r) =? name then delete n (w_instances w) else w_instances w) !! n'
        = w_instances w !! n') by (destruct (_ =? name); [by rewrite lookup_delete_ne|done]).
      rewrite Hl. destruct (w_instances w !! n') as [p'|]; [|done]. rewrite Hkeep.
      assert (Hb : bool_decide ((n', p') ∈ items) = bool_decide ((n', p') ∈ (n, p) :: items)).
      { apply bool_decide_ext. rewrite elem_of_cons. naive_solver. }
      by rewrite Hb.
Qed.

Lemma map_range_items (w : W) :
  NoDup (map_range (w_instances w)).*1 /\
  forall n p, (n, p) ∈ map_range (w_instances w) <-> w_instances w !! n = Some p.
Proof.
  pose proof (map_range_perm (w_instances w)) as Hp. split.
  - rewrite Hp. apply NoDup_fst_map_to_list.
  - intros n p. rewrite Hp. apply elem_of_map_to_list.
Qed.

Lemma set_components_ok (c : gmap string (Component CS)) (w : W) :
  scheduler_ok w -> scheduler_ok (set_components c w).
Proof. intros [O1 O2 O3 O4]. by constructor. Qed.

Lemma Uninstall_val (name : string) (w : W) :
  scheduler_ok w ->
  let served := negb (name =? "") && bool_decide (is_Some (w_components w !! name)) in
  exists w', Uninstall name w = Val served w' /\ scheduler_ok w' /\
    (served = false -> w' = w) /\
    (served = true ->
     w_components w' = delete name (w_components w) /\ ident <$> w_runners w' = ident <$> w_runners w /\
     forall n, w_instances w' !! n =
       match w_instances w !! n with
       | Some p => if kept_instance w name n p then Some p else None
       | None => None
       end).
Proof.
  intros Hok served. unfold Uninstall, served. destruct (name =? ""); [by exists w|].
  rewrite bind_get_eq. destruct (w_components w !! name) as [c|] eqn:Ec.
  2: { rewrite bool_decide_eq_false_2 by (intros [? [=]]). by exists w. }
  rewrite bool_decide_eq_true_2 by done. cbn [negb andb]. rewrite bind_modify_eq.
  set (w1 := set_components _ w). destruct (map_range_items w) as [Hnd Hin].
  destruct (destroy_matching_val name (map_range (w_instances w)) w1) as (w2 & E & Hok2 & Hid & Hc & Hi).
  { by apply set_components_ok. }
  { done. }
  { intros n p Hp. by apply Hin. }
  rewrite (bind_val_eq _ _ _ _ _ E). exists w2. split; [done|]. split; [done|]. split; [done|].
  intros _. split; [by rewrite Hc|]. split; [by rewrite Hid|]. intros n. rewrite Hi. simpl.
  destruct (w_instances w !! n) as [p|] eqn:En; [|done].
  rewrite bool_decide_eq_true_2 by (by apply Hin). change (kept_instance w1) with (kept_instance w).
  by destruct (kept_instance w name n p).
Qed.

Lemma stop_all_val (names : list string) (w : W) :
  scheduler_ok w ->
  exists w', stop_all names w = Val tt w' /\ scheduler_ok w' /\
    forall n, w_instances w' !! n = if bool_decide (n ∈ names) then None else w_instances w !! n.
Proof.
  revert w. induction names as [|name names IH]; intros w Hok; [by exists w|].
  cbn [stop_all]. rewrite bind_get_eq.
  assert (Hstep : exists w1, (match w_instances w !! name with
      | Some p => bind (modify (set_instances (delete name (w_instances w)))) (fun _ => StopWithoutCleanup p)
      | None => ret tt
      end) w = Val tt w1 /\ scheduler_ok w1 /\ w_instances w1 = delete name (w_instances w)).
  { destruct (w_instances w !! name) as [p|] eqn:Ep.
    - destruct (ok_runner _ Hok name p Ep) as (r & Hr & _).
      destruct (StopWithoutCleanup_val p (without name w) r) as (w1 & E & Hst); [done| | |].
      + exact (ok_open _ Hok name p r Ep Hr).
      + by destruct (ok_own _ Hok name name p p r r Ep Hr Ep Hr).
      + exists w1. rewrite bind_modify_eq. split; [exact E|]. by destruct (remove_ok name p r w w1 Hok Ep Hr Hst).
    - exists w. split; [done|]. split; [done|]. by rewrite delete_id. }
  destruct Hstep as (w1 & E1 & Hok1 & Hi1). rewrite (bind_val_eq _ _ _ _ _ E1).
  destruct (IH w1 Hok1) as (w2 & E2 & Hok2 & Hi2). exists w2. split; [done|]. split; [done|].
  intros n. rewrite Hi2, Hi1. destruct (decide (n = name)) as [->|Hne].
  - rewrite lookup_delete_eq, (bool_decide_eq_true_2 (name ∈ name :: names)) by left. by destruct (bool_decide _).
  - rewrite lookup_delete_ne by done.
    assert (Hb : bool_decide (n ∈ names) = bool_decide (n ∈ name :: names)).
    { apply bool_decide_ext. rewrite elem_of_cons. naive_solver. }
    by rewrite Hb.
Qed.

Lemma shutdown_val (w : W) :
  scheduler_ok w -> exists w', shutdown w = Val tt w' /\ scheduler_ok w' /\ w_instances w' = ∅.
Proof.
  intros Hok. unfold shutdown. rewrite bind_get_eq.
  destruct (stop_all_val (map_range (w_instances w)).*1 w Hok) as (w' & E & Hok' & Hi).
  exists w'. split; [done|]. split; [done|]. apply map_eq. intros n. rewrite Hi, lookup_empty.
  destruct (map_range_items w) as [_ Hin].
  destruct (w_instances w !! n) as [p|] eqn:En; [|by destruct (bool_decide _)].
  rewrite bool_decide_eq_true_2; [done|]. apply list_elem_of_fmap. exists (n, p). split; [done|]. by apply Hin.
Qed.

(** Creation: the new runner is the last one, with the next two ids. *)
Lemma upsert_new (node : TinyNode) (cmp : Component CS) (w : W) :
  w_instances w !! n_Name node = None ->
  exists w' r, upsert node cmp w = Val (length (w_runners w), true) w' /\
    w_runners w' = (w_runners w ++ [r])%list /\
    ident r = (node, cmp, w_nextCancel w, Datatypes.S (w_nextCancel w)) /\
    w_instances w' = <[n_Name node := length (w_runners w)]> (w_instances w) /\
    w_components w' = w_components w /\ w_cancelled w' = w_cancelled w /\
    w_nextCancel w' = Datatypes.S (Datatypes.S (w_nextCancel w)).
Proof.
  intros Hn. unfold upsert. rewrite bind_get_eq, Hn, !bind_modify_eq. unfold SetNode.
  set (c := w_nextCancel w). set (new := NewRunner cmp c (Datatypes.S c)). set (w1 := set_runners _ _).
  assert (Hr : w_runners w1 !! length (w_runners w) = Some new) by apply list_lookup_middle, eq_refl.
  unfold bind at 1. rewrite (bind_runner_eq _ _ w1 new Hr), !bind_modify_eq. cbn [rn_node NewRunner spec_Edges n_Spec].
  eexists _, _. split; [reflexivity|]. cbn [modify w_runners upd_runner InvalidatePortCache set_runners set_instances].
  split.
  { assert (Ha : forall f x, alter f (length (w_runners w)) (w_runners w ++ [x])%list = (w_runners w ++ [f x])%list).
    { intros f x. rewrite alter_app_r_alt by lia. by rewrite Nat.sub_diag. }
    simpl. rewrite !Ha. reflexivity. }
  done.
Qed.

Lemma upsert_val (node : TinyNode) (cmp : Component CS) (w : W) :
  scheduler_ok w ->
  exists p w', upsert node cmp w = Val (p, bool_decide (w_instances w !! n_Name node = None)) w' /\
    scheduler_ok w' /\ w_instances w' !! n_Name node = Some p /\
    (forall n, n <> n_Name node -> w_instances w' !! n = w_instances w !! n).
Proof.
  intros Hok. destruct (w_instances w !! n_Name node) as [p|] eqn:En.
  { exists p, w. unfold upsert. rewrite bind_get_eq, En. by rewrite bool_decide_eq_false_2. }
  destruct (upsert_new node cmp w En) as (w' & r & E & Hrs & Hid & Hi & Hc & Hcan & Hnext).
  exists (length (w_runners w)), w'. rewrite bool_decide_eq_true_2 by done. split; [exact E|].
  rewrite Hi, lookup_insert_eq. split; [|split; [done|]; intros; by rewrite lookup_insert_ne].
  injection Hid as Hnode _ Hclose Hctx.
  assert (Hold : forall n q, w_instances w !! n = Some q -> exists r0, w_runners w !! q = Some r0 /\
    w_runners w' !! q = Some r0 /\ n_Name (rn_node r0) = n /\
    (rn_closeCh r0 < w_nextCancel w)%nat /\ (rn_runCtx r0 < w_nextCancel w)%nat).
  { intros n q Hq. destruct (ok_runner _ Hok n q Hq) as (r0 & Hr0 & Hname). exists r0. split; [done|].
    split; [rewrite Hrs; by apply lookup_app_l_Some|]. split; [done|].
    split; apply (ok_fresh _ Hok); right; exists q, r0; auto. }
  assert (Hnew : w_runners w' !! length (w_runners w) = Some r) by (rewrite Hrs; apply list_lookup_middle, eq_refl).
  assert (Hcase : forall n q r', w_instances w' !! n = Some q -> w_runners w' !! q = Some r' ->
    (n = n_Name node /\ r' = r) \/
    (n <> n_Name node /\ w_instances w !! n = Some q /\ w_runners w !! q = Some r' /\
     (rn_closeCh r' < w_nextCancel w)%nat /\ (rn_runCtx r' < w_nextCancel w)%nat)).
  { intros n q r' Hq Hr'. rewrite Hi in Hq. apply lookup_insert_Some in Hq as [[<- <-]|[Hne Hq]].
    - left. split; [done|]. congruence.
    - right. destruct (Hold n q Hq) as (r0 & Hr0 & Hr0' & _ & ? & ?). assert (r0 = r') as -> by congruence. auto. }
  constructor.
  - intros n q Hq. rewrite Hi in Hq. apply lookup_insert_Some in Hq as [[<- <-]|[_ Hq]].
    + exists r. by rewrite Hnode.
    + destruct (Hold n q Hq) as (r0 & _ & Hr0 & Hname & _). by exists r0.
  - intros n q r' Hq Hr'. rewrite Hcan. apply eq_None_not_Some. intros Hs.
    destruct (Hcase n q r' Hq Hr') as [[_ ->]|(_ & Hq0 & Hr0 & _)].
    + pose proof (ok_fresh _ Hok (rn_closeCh r) (or_introl Hs)). lia.
    + rewrite (ok_open _ Hok n q r' Hq0 Hr0) in Hs. by destruct Hs.
  - intros n n' q q' r1 r2 Q1 Q2 Q3 Q4.
    destruct (Hcase n q r1 Q1 Q2) as [[-> ->]|(Hn1 & A1 & A2 & A3 & A4)];
      destruct (Hcase n' q' r2 Q3 Q4) as [[-> ->]|(Hn2 & B1 & B2 & B3 & B4)]; rewrite ?Hclose, ?Hctx.
    + split; [lia|done].
    + split; intros; lia.
    + split; intros; lia.
    + exact (ok_own _ Hok n n' q q' r1 r2 A1 A2 B1 B2).
  - intros c [Hs|(q & r' & Hq & Hc')]; rewrite Hnext.
    + rewrite Hcan in Hs. pose proof (ok_fresh _ Hok c (or_introl Hs)). lia.
    + rewrite Hrs in Hq. apply lookup_app_Some in Hq as [Hq|[_ Hq]].
      * assert (c < w_nextCancel w)%nat by (apply (ok_fresh _ Hok); right; by exists q, r'). lia.
      * apply list_lookup_singleton_Some in Hq as [_ <-]. rewrite Hclose, Hctx in Hc'. lia.
Qed.

End lifecycle.

(** ** Sequences of operations *)

Inductive life_op (CS : Type) : Type :=
| OpInstall (c : Component CS)
| OpUninstall (name : string)
| OpCreate (node : TinyNode) (c : Component CS)
| OpDestroy (name : string)
| OpShutdown.
Arguments OpInstall {CS}. Arguments OpUninstall {CS}. Arguments OpCreate {CS}.
Arguments OpDestroy {CS}. Arguments OpShutdown {CS}.

Section sequences.
  Context {CS S : Type} `{Lib} `{Kube} `{MapRange nat}.
  Abbreviation W := (World CS S).

Definition life_step (op : life_op CS) : M CS S unit :=
  match op with
  | OpInstall c => bind (Install c) (fun _ => ret tt)
  | OpUninstall name => bind (Uninstall name) (fun _ => ret tt)
  | OpCreate node c => bind (upsert node c) (fun _ => ret tt)
  | OpDestroy name => Destroy name
  | OpShutdown => shutdown
  end.

Inductive lived (w0 : W) : W -> Prop :=
| lived_start : lived w0 w0
| lived_step op w w' : lived w0 w -> life_step op w = Val tt w' -> lived w0 w'.

Lemma life_step_ok (op : life_op CS) (w : W) :
  scheduler_ok w -> exists w', life_step op w = Val tt w' /\ scheduler_ok w'.
Proof.
  intros Hok. destruct op as [c|name|node c|name|]; cbn [life_step].
  - unfold Install. destruct (c_Name c =? ""); [by exists w|].
    eexists. split; [reflexivity|]. by apply set_components_ok.
  - destruct (Uninstall_val name w Hok) as (w' & E & Hok' & _). rewrite (bind_val_eq _ _ _ _ _ E). by exists w'.
  - destruct (upsert_val node c w Hok) as (p & w' & E & Hok' & _). rewrite (bind_val_eq _ _ _ _ _ E). by exists w'.
  - destruct (Destroy_val name w Hok) as (w' & E & Hw). exists w'. split; [done|].
    destruct (w_instances w !! name); [by destruct Hw|by subst].
  - destruct (shutdown_val w Hok) as (w' & E & Hok' & _). by exists w'.
Qed.

Lemma start_ok (w : W) :
  w_instances w = ∅ -> w_runners w = [] ->
  (forall c, is_Some (w_cancelled w !! c) -> (c < w_nextCancel w)%nat) -> scheduler_ok w.
Proof.
  intros Hi Hr Hc. constructor; rewrite ?Hi; try (intros *; rewrite lookup_empty; done).
  intros c [Hs|(p & r & Hp & _)]; [by apply Hc|]. by rewrite Hr in Hp.
Qed.

Lemma lifecycle_ok (w0 w : W) : scheduler_ok w0 -> lived w0 w -> scheduler_ok w.
Proof.
  intros Hok Hl. induction Hl as [|op w w' _ IH E]; [done|].
  destruct (life_step_ok op w IH) as (w2 & E2 & Hok2). rewrite E in E2. by injection E2 as ->.
Qed.

End sequences.

(** ** Properties *)

(** C28. The scheduler's maps stay in order: whatever sequence of installs,
    withdrawals, node creations, node deletions and shutdowns a process goes
    through, none of them panics (no channel is closed twice, no instance is
    without its runner), every instance remains the open runner of the node it
    is registered under, and a shutdown at any point leaves no instance. *)
Theorem lifecycle_in_order {CS S} `{Lib} `{Kube} `{MapRange nat} (w0 w : World CS S) :
  w_instances w0 = ∅ -> w_runners w0 = [] ->
  (forall c, is_Some (w_cancelled w0 !! c) -> (c < w_nextCancel w0)%nat) ->
  lived w0 w ->
  scheduler_ok w /\ (forall op, exists w', life_step op w = Val tt w') /\
  exists w', shutdown w = Val tt w' /\ w_instances w' = ∅.
Proof.
  intros Hi Hr Hc Hl.
  assert (Hok : scheduler_ok w) by (apply (lifecycle_ok w0); [by apply start_ok|done]).
  split; [done|]. split.
  - intros op. destruct (life_step_ok op w Hok) as (w' & E & _). by exists w'.
  - destruct (shutdown_val w Hok) as (w' & E & _ & Hi'). by exists w'.
Qed.

Lemma kept_instance_spec {CS S} (w w' : World CS S) (name n c : string) :
  ident <$> w_runners w' = ident <$> w_runners w ->
  (forall n, w_instances w' !! n = match w_instances w !! n with
     | Some p => if kept_instance w name n p then Some p else None
     | None => None
     end) ->
  runs_component w' n c <-> runs_component w n c /\ c <> name.
Proof.
  intros Hid Hi. unfold runs_component. rewrite Hi. split.
  - intros (p & r' & Hp & Hr' & <-). destruct (w_instances w !! n) as [q|]; [|done].
    destruct (kept_instance w name n q) eqn:Ek; [|done]. injection Hp as ->.
    destruct (same_ident w w' p r' Hid Hr') as (r & Hr & E). injection E as _ -> _ _.
    unfold kept_instance in Ek. rewrite Hr in Ek. split; [by exists p, r|].
    apply String.eqb_neq. by destruct (_ =? name).
  - intros [(p & r & Hp & Hr & <-) Hne]. rewrite Hp. unfold kept_instance. rewrite Hr.
    apply String.eqb_neq in Hne. rewrite Hne.
    assert (E : (ident <$> w_runners w') !! p = Some (ident r)) by (rewrite Hid, list_lookup_fmap, Hr; done).
    rewrite list_lookup_fmap in E. destruct (w_runners w' !! p) as [r'|] eqn:Hr'; [|done].
    apply (inj Some) in E. injection E as _ E _ _. exists p, r'. by rewrite E.
Qed.

(** Withdrawing a component stops exactly its instances: when the scheduler's
    maps are in order, [Uninstall] of a registered component returns true, the
    component is no longer registered and no instance runs it, while every other
    component stays registered and every instance of another component stays. *)
Theorem uninstall_exact {CS S} `{Lib} `{Kube} `{MapRange nat} (name : string) (w : World CS S) :
  scheduler_ok w -> name <> "" -> is_Some (w_components w !! name) ->
  exists w', Uninstall name w = Val true w' /\ scheduler_ok w' /\
    w_components w' = delete name (w_components w) /\
    forall n c, runs_component w' n c <-> runs_component w n c /\ c <> name.
Proof.
  intros Hok Hne Hc. destruct (Uninstall_val name w Hok) as (w' & E & Hok' & _ & Hs).
  apply String.eqb_neq in Hne. rewrite Hne, bool_decide_eq_true_2 in E, Hs by done.
  destruct (Hs eq_refl) as (Hcs & Hid & Hi). exists w'. split; [exact E|]. split; [done|]. split; [done|].
  intros n c. by apply kept_instance_spec.
Qed.

(** ** A sample life: two nodes of one component, one of another. *)
Module Life.
#[local] Existing Instance sample_lib.
#[local] Existing Instance Sample.kube.
Definition order : MapRange nat := map_range_some_order nat.
#[local] Existing Instance order.

Definition other : Component unit :=
  mkComponent "other" "" "" [] tt (fun _ => []) (fun _ _ _ => Return (mkResult AnyNil))
    None None None None None None.

Definition node (name : string) : TinyNode := mkNode name "ns" ∅ 1 (mkSpec "m" "" [] []) empty_status.

Definition run (op : life_op unit) (w : World unit unit) : World unit unit :=
  match life_step op w with Val _ w' => w' | _ => w end.

Lemma run_lived (op : life_op unit) (w0 w : World unit unit) :
  match life_step op w with Val _ _ => True | _ => False end -> lived w0 w -> lived w0 (run op w).
Proof.
  intros Hv Hl. unfold run. destruct (life_step op w) as [[] w'| | |] eqn:E; try done.
  by apply (lived_step w0 op w).
Qed.

Definition world : World unit unit :=
  run (OpCreate (node "c") other) (run (OpCreate (node "b") Sample.relay)
    (run (OpCreate (node "a") Sample.relay) (run (OpInstall other) (run (OpInstall Sample.relay) (empty_world tt))))).

Lemma start_fresh (c : nat) :
  is_Some (w_cancelled (empty_world tt : World unit unit) !! c) -> (c < 0)%nat.
Proof.
  change (w_cancelled (empty_world tt)) with (∅ : gmap nat Z). rewrite lookup_empty. by intros [? [=]].
Qed.

Lemma world_lived : lived (empty_world tt) world.
Proof.
  unfold world. repeat (apply run_lived; [by vm_compute|]). apply lived_start.
Qed.

End Life.

Lemma lifecycle_in_order_witness :
  scheduler_ok Life.world /\ w_instances Life.world !! "b" = Some 1%nat.
Proof.
  split; [|by vm_compute].
  destruct (@lifecycle_in_order _ _ sample_lib Sample.kube Life.order (empty_world tt) Life.world)
    as [Hok _]; [reflexivity|reflexivity|exact Life.start_fresh|exact Life.world_lived|exact Hok].
Defined.

Lemma uninstall_exact_witness :
  exists w', @Uninstall unit unit sample_lib Sample.kube Life.order "relay" Life.world = Val true w' /\
    ~ runs_component w' "a" "relay" /\ runs_component w' "c" "other".
Proof.
  assert (Hok : scheduler_ok Life.world).
  { apply (@lifecycle_ok _ _ sample_lib Sample.kube Life.order (empty_world tt)); [|exact Life.world_lived].
    by apply start_ok; [reflexivity|reflexivity|exact Life.start_fresh]. }
  destruct (@uninstall_exact unit unit sample_lib Sample.kube Life.order "relay" Life.world Hok)
    as (w' & E & _ & _ & Hx); [discriminate|by vm_compute; eexists|].
  exists w'. split; [exact E|]. split.
  - intros Ha. by apply Hx in Ha as [_ []].
  - apply Hx. split; [|discriminate]. eexists 2%nat, _. split; [by vm_compute|]. split; [by vm_compute|done].
Defined.
