(* ===== verification/Controller.v ===== *)
(** * The Kubernetes controllers

    [internal/controller]: the reconcilers that bring the scheduler in line
    with the cluster. A TinyNode of this module becomes a runner and its status
    is published by the leader; a TinyComponent whose runtime the module
    implements becomes an installed component; deletions are held by finalizers
    until the scheduler has let go.

    The API server is the class [Cluster]: what the clients' calls answer and do
    to the rest of the world. The leader flag is read from the world, each time
    the code reads it. The context value that tells components whether this pod
    leads is not modelled. *)
From S2P Require Import Prelude GoErrors Names Graph Run Json Reflect ExecState Backoff Debouncer.
From S2P Require Import World Send Runner Scheduler.

Open Scope string_scope.

(** ** Objects *)

(** [module.Info]: name, version, SDK version; a TinyNode's Status.Module. *)
Record ModuleInfo := mkInfo { mi_Name : string; mi_Version : string; mi_SDKVersion : string }.

(** A TinyNode with the metadata and status fields the controllers use. *)
Record NodeObject := mkNodeObject {
  no_node : TinyNode;
  no_deleting : bool;
  no_finalizers : list string;
  no_module : ModuleInfo;
  no_lastUpdate : option Z;
}.

Record TinyComponent := mkTinyComponent {
  tc_Component : string;
  tc_Description : string;
  tc_Info : string;
  tc_Runtime : string;
  tc_Script : string;
  tc_Input : string;
  tc_Output : string;
  tc_EnableErrorPort : bool;
  tc_Generation : Z;
  tc_deleting : bool;
  tc_finalizers : list string;
  tc_Installed : bool;
  tc_Module : string;
  tc_Reason : string;
  tc_ObservedGeneration : Z;
}.

(** [module.ComponentDefinition]. *)
Record ComponentDefinition := mkDefinition {
  cd_Name : string;
  cd_Description : string;
  cd_Info : string;
  cd_Script : string;
  cd_InputSchema : string;
  cd_OutputSchema : string;
  cd_EnableErrorPort : bool;
}.

Definition nodeFinalizer : string := "io.tinysystems/node-finalizer".
Definition componentFinalizer : string := "io.tinysystems/component-finalizer".
Definition definedTag : string := "Defined".

Definition has_string (x : string) (l : list string) : bool := existsb (String.eqb x) l.

(** [controllerutil]. *)
Definition add_finalizer (f : string) (l : list string) : list string :=
  if has_string f l then l else (l ++ [f])%list.
Definition remove_finalizer (f : string) (l : list string) : list string :=
  List.filter (fun x => negb (x =? f)) l.

(** ** The API server *)
Class Cluster (CS S : Type) := {
  node_get : string -> M CS S (result goerror (option NodeObject));       (* none: not found *)
  node_update : NodeObject -> M CS S (result goerror NodeObject);
  node_patch_status : NodeObject -> NodeObject -> M CS S error;           (* from, to *)
  component_get : string -> M CS S (result goerror (option TinyComponent));
  component_update : TinyComponent -> M CS S (result goerror TinyComponent);
  component_patch_status : TinyComponent -> TinyComponent -> M CS S error;
}.

(** [ctrl.Result]: after how long to come back, 0 for not. *)
Definition Requeue : Type := Z * error.
Definition no_requeue : Requeue := (0%Z, None).
Definition requeue_error (prefix : string) (e : goerror) : Requeue := (0%Z, Some (WrapError prefix e)).

Section controllers.
  Context {CS S : Type} `{Env CS S} `{Lib} `{Kube} `{ExecStore S}.
  Context `{MapRange nat} `{Cluster CS S}.
  Abbreviation W := (World CS S).
  Abbreviation Hdl := (@Handler CS S).

(** The module, its sanitised name, the leader flag, and the scheduler's
    parameters. *)
  Variable info : ModuleInfo.
  Variable moduleName : string.
  Variable leader : W -> bool.
  Variable has_factory : bool.
  Variable emitter : option Hdl.
  Variable msgHandler : Hdl.

(** ** TinyNode *)

Definition set_finalizers (l : list string) (o : NodeObject) : NodeObject :=
  mkNodeObject (no_node o) (no_deleting o) l (no_module o) (no_lastUpdate o).
Definition set_node (n : TinyNode) (o : NodeObject) : NodeObject :=
  mkNodeObject n (no_deleting o) (no_finalizers o) (no_module o) (no_lastUpdate o).

(** The status before the scheduler has a say. *)
Definition optimistic (o : NodeObject) : NodeObject :=
  let s := n_Status (no_node o) in
  let node := with_status (no_node o)
    (mkStatus (st_ObservedGeneration s) (st_Description s) (st_Info s) (st_Tags s) (st_Ports s) "OK"
       (st_Metadata s) false) in
  mkNodeObject node (no_deleting o) (no_finalizers o) info (no_lastUpdate o).

(** The node the scheduler left, with its error and the generation it is of. *)
Definition observed (node : TinyNode) (err : error) : TinyNode :=
  let s := n_Status node in
  let '(status, failed) :=
    match err with Some e => (error_text e, true) | None => (st_Status s, st_Error s) end in
  with_status node
    (mkStatus (n_Generation node) (st_Description s) (st_Info s) (st_Tags s) (st_Ports s) status
       (st_Metadata s) failed).

Definition heartbeat (t : Z) (o : NodeObject) : NodeObject :=
  mkNodeObject (no_node o) (no_deleting o) (no_finalizers o) (no_module o) (Some t).

(** After the scheduler: the leader publishes the status. *)
Definition publish (origin o : NodeObject) (schedulerErr : error) : M CS S Requeue :=
  (let* w := get in
   if negb (leader w) then ret ((60 * Second)%Z, None)
   else
     let* w := get in
     let* refused := node_patch_status origin (heartbeat (w_now w) o) in
     ret match refused with
         | Some e => requeue_error "patch status: " e
         | None =>
             match schedulerErr with
             | Some e => if IsPermanent (Some e) then ((300 * Second)%Z, None)
                         else requeue_error "update scheduler: " e
             | None => ((300 * Second)%Z, None)
             end
         end)%run.

Definition reconcile_live (ctx : Ctx) (o : NodeObject) : M CS S Requeue :=
  (let node := optimistic o in
   let* (node', err) := Update has_factory emitter msgHandler ctx (no_node node) in
   publish o (set_node (observed node' err) node) err)%run.

Definition reconcile_deleted (name : string) (o : NodeObject) : M CS S Requeue :=
  (if has_string nodeFinalizer (no_finalizers o) then
     do Destroy name then
     let* updated := node_update (set_finalizers (remove_finalizer nodeFinalizer (no_finalizers o)) o) in
     ret match updated with Err e => requeue_error "remove finalizer: " e | Ok _ => no_requeue end
   else ret no_requeue)%run.

(** [TinyNodeReconciler.Reconcile]. *)
Definition reconcile_node (ctx : Ctx) (name : string) : M CS S Requeue :=
  (match ParseFullName name with
   | Err _ => ret no_requeue
   | Ok (m, _) =>
       if negb (NameMatches m moduleName) then ret no_requeue
       else
         let* found := node_get name in
         match found with
         | Err e => ret (requeue_error "get tinynode: " e)
         | Ok None => ret no_requeue
         | Ok (Some o) =>
             if no_deleting o then reconcile_deleted name o
             else
               let* held :=
                 if has_string nodeFinalizer (no_finalizers o) then ret (Ok o)
                 else node_update (set_finalizers (add_finalizer nodeFinalizer (no_finalizers o)) o) in
               match held with
               | Err e => ret (requeue_error "add finalizer: " e)
               | Ok o => reconcile_live ctx o
               end
         end
   end)%run.

(** The nodes to reconcile when the pod becomes the leader. *)
Definition requeue_all (nodes : list string) : list string :=
  List.filter (fun name =>
    match ParseFullName name with Ok (m, _) => NameMatches m moduleName | Err _ => false end) nodes.

(** [GenerationOrMetadataChangedPredicate.Update]. *)
Definition predicate_update (old new : option NodeObject) : bool :=
  match old, new with
  | Some o, Some n =>
      negb (n_Generation (no_node o) =? n_Generation (no_node n))%Z ||
      negb (bool_decide (st_Metadata (n_Status (no_node o)) = st_Metadata (n_Status (no_node n))))
  | _, _ => false
  end.

(** [StatusMetadataChangedPredicate.Update]. *)
Definition metadata_update (old new : option NodeObject) : bool :=
  match old, new with
  | Some o, Some n => negb (bool_decide (st_Metadata (n_Status (no_node o)) = st_Metadata (n_Status (no_node n))))
  | _, _ => false
  end.

(** The events of the watch; a deletion it missed is told later, with an object
    that may be stale. *)
Inductive WatchEvent :=
| CreateEvent (o : NodeObject)
| UpdateEvent (old new : option NodeObject)
| DeleteEvent (o : NodeObject) (DeleteStateUnknown : bool)
| GenericEvent (o : NodeObject).

(** [GenerationOrMetadataChangedPredicate]: the events that are reconciled. *)
Definition reconciled (e : WatchEvent) : bool :=
  match e with
  | CreateEvent _ | GenericEvent _ => true
  | UpdateEvent old new => predicate_update old new
  | DeleteEvent _ DeleteStateUnknown => negb DeleteStateUnknown
  end.

(** ** TinyComponent *)

(** [registry.GetRuntime]. *)
  Variable runtimes : gmap string (ComponentDefinition -> result goerror (Component CS)).

Definition runtimeOf (def : TinyComponent) : string :=
  if tc_Runtime def =? "" then "js" else tc_Runtime def.

Definition serves (def : TinyComponent) : bool :=
  bool_decide (is_Some (runtimes !! runtimeOf def)).

Definition definition_of (def : TinyComponent) : ComponentDefinition :=
  mkDefinition (tc_Component def) (tc_Description def) (tc_Info def) (tc_Script def)
    (tc_Input def) (tc_Output def) (tc_EnableErrorPort def).

Definition compile_definition (factory : ComponentDefinition -> result goerror (Component CS))
    (def : TinyComponent) : M CS S (bool * string) :=
  (match factory (definition_of def) with
   | Err e => ret (false, error_text e)
   | Ok cmp =>
       let* refused := Install cmp in
       ret match refused with
           | Some e => (false, "install: " +:+ error_text e)
           | None => (true, "")
           end
   end)%run.

(** Whether the definition is served, and why not. *)
Definition install (def : TinyComponent) : M CS S (bool * string) :=
  (let name := tc_Component def in
   if name =? "" then ret (false, "spec.component is empty")
   else
     match runtimes !! runtimeOf def with
     | None => ret (false, "no module here implements runtime " +:+ go_quote (runtimeOf def))
     | Some factory =>
         let* w := get in
         match InstalledComponent name w with
         | Some existing =>
             if negb (has_string definedTag (c_Tags existing))
             then ret (false, go_quote name +:+ " is already a compiled component in this module")
             else compile_definition factory def
         | None => compile_definition factory def
         end
     end)%run.

Definition tc_set_finalizers (l : list string) (d : TinyComponent) : TinyComponent :=
  mkTinyComponent (tc_Component d) (tc_Description d) (tc_Info d) (tc_Runtime d) (tc_Script d)
    (tc_Input d) (tc_Output d) (tc_EnableErrorPort d) (tc_Generation d) (tc_deleting d) l
    (tc_Installed d) (tc_Module d) (tc_Reason d) (tc_ObservedGeneration d).

Definition tc_set_status (installed : bool) (reason : string) (d : TinyComponent) : TinyComponent :=
  mkTinyComponent (tc_Component d) (tc_Description d) (tc_Info d) (tc_Runtime d) (tc_Script d)
    (tc_Input d) (tc_Output d) (tc_EnableErrorPort d) (tc_Generation d) (tc_deleting d) (tc_finalizers d)
    installed (if installed then mi_Name info else "") reason (tc_Generation d).

Definition reconcile_withdrawn (def : TinyComponent) : M CS S Requeue :=
  (if has_string componentFinalizer (tc_finalizers def) then
     do (if serves def then bind (Uninstall (tc_Component def)) (fun _ => ret tt) else ret tt) then
     let* updated := component_update (tc_set_finalizers (remove_finalizer componentFinalizer (tc_finalizers def)) def) in
     ret match updated with Err e => requeue_error "remove finalizer: " e | Ok _ => no_requeue end
   else ret no_requeue)%run.

Definition reconcile_defined (def : TinyComponent) : M CS S Requeue :=
  (let* (installed, reason) := install def in
   let* w := get in
   if negb (leader w) then ret ((60 * Second)%Z, None)
   else
     let* refused := component_patch_status def (tc_set_status installed reason def) in
     ret match refused with
         | Some e => requeue_error "patch status: " e
         | None => ((300 * Second)%Z, None)
         end)%run.

(** [TinyComponentReconciler.Reconcile]. *)
Definition reconcile_definition (name : string) : M CS S Requeue :=
  (let* found := component_get name in
   match found with
   | Err e => ret (requeue_error "get tinycomponent: " e)
   | Ok None => ret no_requeue
   | Ok (Some def) =>
       if tc_deleting def then reconcile_withdrawn def
       else
         let* held :=
           if serves def && negb (has_string componentFinalizer (tc_finalizers def))
           then component_update (tc_set_finalizers (add_finalizer componentFinalizer (tc_finalizers def)) def)
           else ret (Ok def) in
         match held with
         | Err e => ret (requeue_error "add finalizer: " e)
         | Ok def => reconcile_defined def
         end
   end)%run.

End controllers.
