(* ===== verification/ControllerSpec.v ===== *)
(** * What the controllers guarantee

    Properties of [Controller]: a deleted node is stopped before its finalizer
    goes, a component that is missing is reported on the node, and a definition
    never shadows a compiled component while it is live, but withdraws it when it
    is deleted. *)
From S2P Require Import Prelude GoErrors Names Graph Run Json Reflect ExecState Backoff Debouncer.
From S2P Require Import World Send Runner RunnerSpec Scheduler Lifecycle Controller.

Open Scope string_scope.

(** ** Calls of the API server leave the process alone *)

Record same_process {CS S} (w w' : World CS S) : Prop := {
  sp_runners : w_runners w' = w_runners w;
  sp_instances : w_instances w' = w_instances w;
  sp_components : w_components w' = w_components w;
  sp_cancelled : w_cancelled w' = w_cancelled w;
  sp_next : w_nextCancel w' = w_nextCancel w;
}.

Definition api_call {CS S A} (m : M CS S A) : Prop :=
  forall w, exists a w', m w = Val a w' /\ same_process w w'.

Class ClusterLaws (CS S : Type) `{Cluster CS S} := {
  node_get_call : forall name, api_call (node_get name);
  node_update_call : forall o, api_call (node_update o);
  node_patch_call : forall o o', api_call (node_patch_status o o');
  component_get_call : forall name, api_call (component_get name);
  component_update_call : forall d, api_call (component_update d);
  component_patch_call : forall d d', api_call (component_patch_status d d');
}.

Section same_process_facts.
  Context {CS S : Type}.

Lemma same_process_refl (w : World CS S) : same_process w w.
Proof. by constructor. Qed.

Lemma same_process_trans (w1 w2 w3 : World CS S) :
  same_process w1 w2 -> same_process w2 w3 -> same_process w1 w3.
Proof. intros [] []. constructor; congruence. Qed.

Lemma same_process_ok (w w' : World CS S) : same_process w w' -> scheduler_ok w -> scheduler_ok w'.
Proof. intros [E1 E2 E3 E4 E5] [O1 O2 O3 O4]. constructor; rewrite ?E1, ?E2, ?E4, ?E5; assumption. Qed.

Lemma same_process_runs (w w' : World CS S) (n c : string) :
  same_process w w' -> runs_component w' n c <-> runs_component w n c.
Proof. intros [E1 E2 _ _ _]. unfold runs_component. by rewrite E1, E2. Qed.

End same_process_facts.

#[export] Hint Resolve same_process_refl : core.

Lemma removed_finalizer (f : string) (l : list string) : has_string f (remove_finalizer f l) = false.
Proof.
  unfold has_string, remove_finalizer. induction l as [|x l IH]; [done|]. simpl.
  destruct (String.eqb_spec x f) as [->|Hne]; simpl; [done|]. rewrite IH, orb_false_r.
  apply String.eqb_neq. congruence.
Qed.

(** ** TinyNode *)

(** An update is reconciled for its generation or its metadata, and a change of
    the metadata alone is one that both predicates see. *)
Lemma update_reconciled_iff (o n : NodeObject) :
  let changed := st_Metadata (n_Status (no_node o)) <> st_Metadata (n_Status (no_node n)) in
  (reconciled (UpdateEvent (Some o) (Some n)) = true <-> n_Generation (no_node o) <> n_Generation (no_node n) \/ changed) /\
  (metadata_update (Some o) (Some n) = true <-> changed).
Proof.
  cbv zeta. cbn [reconciled predicate_update metadata_update].
  rewrite orb_true_iff, !negb_true_iff, Z.eqb_neq, bool_decide_eq_false. done.
Qed.


(** A node whose component the module does not have says so: the leader's
    reconcile of a live, held node with an unregistered component creates no
    runner and changes no instance, publishes a status in error that names the
    component, for the node's current generation, with the ports and the metadata
    it had, and asks to come back in five minutes instead of failing over and
    over. *)
Theorem missing_component_reported {CS S} `{Env CS S} `{Lib} `{Kube} `{ExecStore S} `{MapRange nat}
    `{ClusterLaws CS S} (info : ModuleInfo) (moduleName m c name : string) (leader : World CS S -> bool)
    (has_factory : bool) (emitter : option (@Handler CS S)) (msgHandler : @Handler CS S) (ctx : Ctx)
    (w w0 : World CS S) (o : NodeObject) :
  ParseFullName name = Ok (m, c) -> NameMatches m moduleName = true -> leader w0 = true ->
  node_get name w = Val (Ok (Some o)) w0 -> no_deleting o = false ->
  has_string nodeFinalizer (no_finalizers o) = true ->
  w_components w0 !! spec_Component (n_Spec (no_node o)) = None ->
  exists published refused w',
    node_patch_status o published w0 = Val refused w' /\
    reconcile_node info moduleName leader has_factory emitter msgHandler ctx name w =
      Val (match refused with Some e => requeue_error "patch status: " e | None => ((300 * Second)%Z, None) end) w' /\
    same_process w w' /\ no_module published = info /\ no_lastUpdate published = Some (w_now w0) /\
    n_Spec (no_node published) = n_Spec (no_node o) /\
    let s := n_Status (no_node published) in
    st_Error s = true /\
    st_Status s = "component " +:+ spec_Component (n_Spec (no_node o)) +:+ " is not registered" /\
    st_ObservedGeneration s = n_Generation (no_node o) /\
    st_Ports s = st_Ports (n_Status (no_node o)) /\ st_Metadata s = st_Metadata (n_Status (no_node o)).
Proof.
  intros Hname Hmatch Hlead Hget Hdel Hfin Hmiss.
  assert (Hsame : same_process w w0).
  { destruct (node_get_call name w) as (a & w' & E & Hs). rewrite Hget in E. by injection E as _ ->. }
  set (err := NewPermanentError (Some (ErrorString
    ("component " +:+ spec_Component (n_Spec (no_node o)) +:+ " is not registered")))).
  set (published := heartbeat (w_now w0)
    (set_node (observed (no_node (optimistic info o)) err) (optimistic info o))).
  destruct (node_patch_call o published w0) as (refused & w1 & E1 & Hs1).
  exists published, refused, w1. split; [done|]. split.
  { unfold reconcile_node. rewrite Hname, Hmatch. cbn [negb]. rewrite (bind_val_eq _ _ _ _ _ Hget), Hdel, Hfin.
    rewrite bind_ret_eq. unfold reconcile_live.
    rewrite (bind_val_eq _ _ w0 (no_node (optimistic info o), err) w0).
    2: { unfold Update. rewrite bind_get_eq. change (n_Spec (no_node (optimistic info o))) with (n_Spec (no_node o)).
         by rewrite Hmiss. }
    unfold publish. rewrite bind_get_eq, Hlead. cbn [negb]. rewrite bind_get_eq. fold published.
    rewrite (bind_val_eq _ _ _ _ _ E1). by destruct refused. }
  split; [by apply (same_process_trans _ w0)|]. done.
Qed.

(** ** TinyComponent *)

(** Whether a component was made from a definition. *)
Definition defined {CS} (c : Component CS) : bool := has_string definedTag (c_Tags c).

Definition keeps_name {CS} (runtimes : gmap string (ComponentDefinition -> result goerror (Component CS))) : Prop :=
  forall rt factory d c, runtimes !! rt = Some factory -> factory d = Ok c -> c_Name c = cd_Name d.

Lemma install_cases {CS S} (runtimes : gmap string (ComponentDefinition -> result goerror (Component CS)))
    (def : TinyComponent) (w : World CS S) :
  keeps_name runtimes ->
  (exists reason, install runtimes def w = Val (false, reason) w) \/
  exists factory cmp, runtimes !! runtimeOf def = Some factory /\ factory (definition_of def) = Ok cmp /\
    (forall c, w_components w !! tc_Component def = Some c -> defined c = true) /\
    install runtimes def w =
      Val (true, "") (set_components (<[tc_Component def := cmp]> (w_components w)) w).
Proof.
  intros Hn. unfold install. destruct (tc_Component def =? "") eqn:Ee; [left; by eexists|].
  destruct (runtimes !! runtimeOf def) as [factory|] eqn:Ef; [|left; by eexists]. rewrite bind_get_eq.
  assert (Hcompile : (exists reason, compile_definition factory def w = Val (false, reason) w) \/
    exists cmp, factory (definition_of def) = Ok cmp /\ compile_definition factory def w =
      Val (true, "") (set_components (<[tc_Component def := cmp]> (w_components w)) w)).
  { unfold compile_definition. destruct (factory (definition_of def)) as [cmp|e] eqn:Ec; [|left; by eexists].
    pose proof (Hn _ _ _ _ Ef Ec) as Hname. simpl in Hname. right. exists cmp. split; [done|].
    unfold Install. by rewrite Hname, Ee. }
  unfold InstalledComponent. destruct (w_components w !! tc_Component def) as [c|] eqn:Ex.
  - destruct (has_string definedTag (c_Tags c)) eqn:Ed; [|left; by eexists]. cbn [negb].
    destruct Hcompile as [?|(cmp & ? & ?)]; [by left|right]. exists factory, cmp.
    split; [done|]. split; [done|]. split; [by intros ? [= <-]|done].
  - destruct Hcompile as [?|(cmp & ? & ?)]; [by left|right]. by exists factory, cmp.
Qed.

(** A live definition never shadows a compiled component: whatever
    definition is reconciled and whatever its runtime makes of it, every
    component that was not made from a definition stays registered as it is, no
    instance is touched, and the only component that can change is the one of
    the definition's name, which becomes what the runtime compiled. *)
Theorem definition_never_shadows {CS S} `{Env CS S} `{Lib} `{Kube} `{ExecStore S} `{MapRange nat}
    `{ClusterLaws CS S} (info : ModuleInfo) (leader : World CS S -> bool)
    (runtimes : gmap string (ComponentDefinition -> result goerror (Component CS))) (name : string)
    (w w0 : World CS S) (def : TinyComponent) :
  keeps_name runtimes -> component_get name w = Val (Ok (Some def)) w0 -> tc_deleting def = false ->
  (forall d w answer w', component_update d w = Val (Ok answer) w' -> tc_Component answer = tc_Component d) ->
  exists result w', reconcile_definition info leader runtimes name w = Val result w' /\
    w_instances w' = w_instances w /\ w_runners w' = w_runners w /\
    (forall n c, w_components w !! n = Some c -> defined c = false -> w_components w' !! n = Some c) /\
    (forall n, n <> tc_Component def -> w_components w' !! n = w_components w !! n).
Proof.
  intros Hkeep Hget Hdel Hupd.
  assert (Hsame : same_process w w0).
  { destruct (component_get_call name w) as (a & w' & E & Hs). rewrite Hget in E. by injection E as _ ->. }
  unfold reconcile_definition. rewrite (bind_val_eq _ _ _ _ _ Hget), Hdel.
  assert (Hheld : exists held w1, (if serves runtimes def && negb (has_string componentFinalizer (tc_finalizers def))
      then component_update (tc_set_finalizers (add_finalizer componentFinalizer (tc_finalizers def)) def)
      else ret (Ok def)) w0 = Val held w1 /\ same_process w0 w1 /\
      (forall d, held = Ok d -> tc_Component d = tc_Component def)).
  { destruct (serves runtimes def && _).
    - destruct (component_update_call (tc_set_finalizers (add_finalizer componentFinalizer (tc_finalizers def)) def) w0)
        as (held & w1 & E & Hs). exists held, w1. split; [done|]. split; [done|].
      intros d ->. by apply Hupd in E.
    - exists (Ok def), w0. split; [done|]. split; [done|]. by intros d [= <-]. }
  destruct Hheld as (held & w1 & E1 & Hs1 & Hc1). rewrite (bind_val_eq _ _ _ _ _ E1).
  pose proof (same_process_trans _ _ _ Hsame Hs1) as Hs01.
  destruct held as [d|e].
  2: { eexists _, w1. split; [done|]. destruct Hs01 as [A1 A2 A3 _ _]. by rewrite A1, A2, A3. }
  specialize (Hc1 d eq_refl). unfold reconcile_defined.
  assert (Hinst : exists p w2, install runtimes d w1 = Val p w2 /\ w_instances w2 = w_instances w1 /\
    w_runners w2 = w_runners w1 /\
    (forall n c, w_components w1 !! n = Some c -> defined c = false -> w_components w2 !! n = Some c) /\
    (forall n, n <> tc_Component d -> w_components w2 !! n = w_components w1 !! n)).
  { destruct (install_cases runtimes d w1 Hkeep) as [(reason & E)|(f & cmp & _ & _ & Hd & E)].
    - exists (false, reason), w1. done.
    - eexists _, _. split; [exact E|]. do 2 (split; [done|]). split; simpl.
      + intros n c Hn Hnd. rewrite lookup_insert_ne; [done|]. intros <-. by rewrite (Hd c Hn) in Hnd.
      + intros n Hne. by rewrite lookup_insert_ne. }
  destruct Hinst as ([ok reason] & w2 & E2 & I1 & I2 & I3 & I4). rewrite (bind_val_eq _ _ _ _ _ E2), bind_get_eq.
  destruct Hs01 as [A1 A2 A3 _ _]. rewrite Hc1 in I4.
  destruct (negb (leader w2)).
  { eexists _, w2. split; [done|]. by rewrite <- A1, <- A2, <- A3. }
  destruct (component_patch_call d (tc_set_status info ok reason d) w2) as (refused & w3 & E3 & [B1 B2 B3 _ _]).
  rewrite (bind_val_eq _ _ _ _ _ E3). eexists _, w3. split; [done|].
  by rewrite B1, B2, B3, <- A1, <- A2, <- A3.
Qed.

(** Deleting a refused definition withdraws a compiled component: a
    definition with the name of a compiled component is refused, yet it is given
    the finalizer like any other the module has the runtime of; when it is then
    deleted, the reconciler unregisters the compiled component and stops every
    instance of it. *)
Theorem refused_definition_withdraws_compiled {CS S} `{Env CS S} `{Lib} `{Kube} `{ExecStore S}
    `{MapRange nat} `{ClusterLaws CS S} (info : ModuleInfo) (leader : World CS S -> bool)
    (runtimes : gmap string (ComponentDefinition -> result goerror (Component CS))) (name : string)
    (w w0 : World CS S) (def : TinyComponent) (compiled : Component CS) :
  scheduler_ok w -> component_get name w = Val (Ok (Some def)) w0 ->
  tc_Component def <> "" -> serves runtimes def = true ->
  w_components w !! tc_Component def = Some compiled -> defined compiled = false ->
  install runtimes def w =
    Val (false, go_quote (tc_Component def) +:+ " is already a compiled component in this module") w /\
  (tc_deleting def = false -> has_string componentFinalizer (tc_finalizers def) = false ->
   exists answer w1, component_update
       (tc_set_finalizers (tc_finalizers def ++ [componentFinalizer]) def) w0 = Val answer w1 /\
     (forall e, answer = Err e ->
        reconcile_definition info leader runtimes name w = Val (requeue_error "add finalizer: " e) w1)) /\
  (tc_deleting def = true -> has_string componentFinalizer (tc_finalizers def) = true ->
   exists result w', reconcile_definition info leader runtimes name w = Val result w' /\
     w_components w' = delete (tc_Component def) (w_components w) /\
     forall n, ~ runs_component w' n (tc_Component def)).
Proof.
  intros Hok Hget Hne Hserv Hc Hnd.
  assert (Hsame : same_process w w0).
  { destruct (component_get_call name w) as (a & w' & E & Hs). rewrite Hget in E. by injection E as _ ->. }
  split; [|split].
  - unfold install. apply String.eqb_neq in Hne. rewrite Hne. unfold serves in Hserv.
    apply bool_decide_eq_true in Hserv as [factory Hf]. rewrite Hf, bind_get_eq. unfold InstalledComponent.
    rewrite Hc. unfold defined in Hnd. by rewrite Hnd.
  - intros Hdel Hfin. destruct (component_update_call
      (tc_set_finalizers (tc_finalizers def ++ [componentFinalizer]) def) w0) as (answer & w1 & E & _).
    exists answer, w1. split; [done|]. intros e ->. unfold reconcile_definition.
    rewrite (bind_val_eq _ _ _ _ _ Hget), Hdel, Hserv, Hfin. cbn [andb negb].
    unfold add_finalizer. rewrite Hfin. by rewrite (bind_val_eq _ _ _ _ _ E).
  - intros Hdel Hfin. destruct (Uninstall_val (tc_Component def) w0 (same_process_ok _ _ Hsame Hok))
      as (w1 & E1 & _ & _ & Hx).
    assert (Hb : bool_decide (is_Some (w_components w0 !! tc_Component def)) = true).
    { apply bool_decide_eq_true. rewrite (sp_components _ _ Hsame), Hc. by eexists. }
    apply String.eqb_neq in Hne. rewrite Hne, Hb in E1, Hx. destruct (Hx eq_refl) as (Hcs & Hid & Hi).
    destruct (component_update_call
      (tc_set_finalizers (remove_finalizer componentFinalizer (tc_finalizers def)) def) w1)
      as (answer & w2 & E2 & Hs2).
    eexists _, w2. split.
    { unfold reconcile_definition. rewrite (bind_val_eq _ _ _ _ _ Hget), Hdel. unfold reconcile_withdrawn.
      rewrite Hfin, Hserv. rewrite (bind_val_eq _ _ w0 tt w1); [by rewrite (bind_val_eq _ _ _ _ _ E2)|].
      by rewrite (bind_val_eq _ _ _ _ _ E1). }
    split; [by rewrite (sp_components _ _ Hs2), Hcs, (sp_components _ _ Hsame)|].
    intros n Hr. apply (same_process_runs _ _ _ _ Hs2) in Hr.
    apply (kept_instance_spec w0 w1 (tc_Component def)) in Hr as [_ []]; done.
Qed.

(** ** Concrete instances *)
Module Served.
#[local] Existing Instance Life.order.

Definition info : ModuleInfo := mkInfo "http-module" "1.0" "0.12".

Definition obj (deleting : bool) (component : string) : NodeObject :=
  mkNodeObject (mkNode "p.http-module.x" "ns" ∅ 7 (mkSpec "m" component [] []) empty_status)
    deleting [nodeFinalizer] (mkInfo "" "" "") None.

Definition definition (deleting : bool) : TinyComponent :=
  mkTinyComponent "relay" "" "" "" "export default x => x" "{}" "{}" false 1 deleting
    (if deleting then [componentFinalizer] else []) false "" "" 0.

Definition cluster (o : option NodeObject) (d : option TinyComponent) : Cluster unit unit := {|
  node_get _ := ret (Ok o);
  node_update o := ret (Ok o);
  node_patch_status _ _ := ret None;
  component_get _ := ret (Ok d);
  component_update d := ret (Ok d);
  component_patch_status _ _ := ret None;
|}.

Lemma ret_call {A} (a : A) : api_call (ret a : M unit unit A).
Proof. intros w. by exists a, w. Qed.

Lemma laws (o : option NodeObject) (d : option TinyComponent) : @ClusterLaws unit unit (cluster o d).
Proof. constructor; intros; apply ret_call. Qed.

(** What the js runtime compiles. *)
Definition script (d : ComponentDefinition) : result goerror (Component unit) :=
  Ok (mkComponent (cd_Name d) "" "" [definedTag] tt (fun _ => [])
        (fun _ _ _ => Return (mkResult AnyNil)) None None None None None None).

Definition runtimes : gmap string (ComponentDefinition -> result goerror (Component unit)) := {["js" := script]}.

Lemma keeps : keeps_name runtimes.
Proof.
  intros rt factory d c Hf Hc. unfold runtimes in Hf. apply lookup_singleton_Some in Hf as [_ <-].
  by injection Hc as <-.
Qed.

Lemma world_ok : scheduler_ok Life.world.
Proof.
  destruct (@lifecycle_ok _ _ sample_lib Sample.kube Life.order (empty_world tt) Life.world)
    as [? ? ? ?]; [|exact Life.world_lived|by constructor].
  by apply start_ok; [reflexivity|reflexivity|exact Life.start_fresh].
Qed.

Definition store : ExecStore unit := {| exec_get _ _ _ := Ok None; exec_set s _ _ _ := Ok s |}.
End Served.


Lemma missing_component_reported_witness :
  exists w', @reconcile_node unit unit (quiet unit unit) sample_lib Sample.kube Served.store
      (Served.cluster (Some (Served.obj false "gone")) None) Served.info "http-module" (fun _ => true) false None
      (fun _ _ => ret (Ok AnyNil)) background "p.http-module.x" Life.world = Val ((300 * Second)%Z, None) w' /\
    same_process Life.world w'.
Proof.
  destruct (@missing_component_reported unit unit (quiet unit unit) sample_lib Sample.kube Served.store
    Life.order (Served.cluster (Some (Served.obj false "gone")) None) (Served.laws _ _) Served.info
    "http-module" "http-module" "x" "p.http-module.x" (fun _ => true) false None (fun _ _ => ret (Ok AnyNil))
    background Life.world Life.world (Served.obj false "gone"))
    as (published & refused & w' & E1 & E2 & Hs & _);
    [reflexivity|reflexivity|reflexivity|reflexivity|reflexivity|reflexivity|by vm_compute|].
  injection E1 as <- <-. exists Life.world. split; [exact E2|exact Hs].
Defined.

Lemma definition_never_shadows_witness :
  exists result w', @reconcile_definition unit unit sample_lib Sample.kube
      Life.order (Served.cluster None (Some (Served.definition false))) Served.info (fun _ => true)
      Served.runtimes "relay" Life.world = Val result w' /\
    w_components w' !! "relay" = Some Sample.relay.
Proof.
  destruct (@definition_never_shadows unit unit (quiet unit unit) sample_lib Sample.kube Served.store
    Life.order (Served.cluster None (Some (Served.definition false))) (Served.laws _ _) Served.info
    (fun _ => true) Served.runtimes "relay" Life.world Life.world (Served.definition false) Served.keeps)
    as (result & w' & E & _ & _ & Hc & _);
    [reflexivity|reflexivity|by intros d w answer w' [= <- _]|].
  exists result, w'. split; [exact E|]. apply Hc; [by vm_compute|reflexivity].
Defined.

Lemma refused_definition_withdraws_compiled_witness :
  exists result w', @reconcile_definition unit unit sample_lib Sample.kube
      Life.order (Served.cluster None (Some (Served.definition true))) Served.info (fun _ => true)
      Served.runtimes "relay" Life.world = Val result w' /\
    w_components w' !! "relay" = None /\ ~ runs_component w' "a" "relay".
Proof.
  destruct (@refused_definition_withdraws_compiled unit unit (quiet unit unit) sample_lib Sample.kube Served.store
    Life.order (Served.cluster None (Some (Served.definition true))) (Served.laws _ _) Served.info
    (fun _ => true) Served.runtimes "relay" Life.world Life.world (Served.definition true) Sample.relay
    Served.world_ok) as (_ & _ & Hdel);
    [reflexivity|discriminate|reflexivity|by vm_compute|reflexivity|].
  destruct Hdel as (result & w' & E & Hc & Hn); [reflexivity|reflexivity|].
  exists result, w'. split; [exact E|]. split; [by rewrite Hc, lookup_delete_eq|apply Hn].
Defined.
