(* ===== verification/Pool.v ===== *)
(** * The gRPC connection pool

    [internal/client/pool.go]: where no NATS broker is configured, messages for
    other modules go over gRPC connections, one per address, to the addresses
    the TinyModule resources announce
    ([internal/controller/tinymodule_controller.go], the reconciler that keeps
    the table). The receiving side is [internal/server/server.go].

    A connection is a number; the pool's operations are steps over its state, and
    the warm-up that [Register] leaves to a goroutine is a step of its own. *)
From S2P Require Import Prelude GoErrors Names Graph Run Json Reflect.
From S2P Require Import World Send.

Open Scope string_scope.

(** ** The pool *)

Record AddressPool := mkPool {
  addressTable : gmap string string;   (* module -> address *)
  clients : gmap string nat;           (* address -> the connection its client uses *)
  conns : gmap string nat;
  closed : gset nat;
  started : bool;                      (* runCtx is set *)
  watched : list nat;                  (* closed when runCtx is done *)
  made : nat;
}.

Definition NewPool : AddressPool := mkPool ∅ ∅ ∅ ∅ false [] 0.

Section pool.
(** [grpc.NewClient] may refuse an address. *)
  Variable dial : string -> error.

Definition getClient (addr : string) (p : AddressPool) : AddressPool * result goerror nat :=
  match clients p !! addr with
  | Some c => (p, Ok c)
  | None =>
      match dial addr with
      | Some e => (p, Err e)
      | None =>
          let c := made p in
          (mkPool (addressTable p) (<[addr := c]> (clients p)) (<[addr := c]> (conns p)) (closed p)
             (started p) (if started p then c :: watched p else watched p) (S c), Ok c)
      end
  end.

(** The table; whether a warm-up of the address is under way. *)
Definition Register (moduleName addr : string) (p : AddressPool) : AddressPool * bool :=
  (mkPool (<[moduleName := addr]> (addressTable p)) (clients p) (conns p) (closed p) (started p)
     (watched p) (made p), started p).

Definition in_use (addr : string) (table : gmap string string) : bool :=
  existsb (fun ma => ma.2 =? addr) (map_to_list table).

Definition Deregister (moduleName : string) (p : AddressPool) : AddressPool :=
  let table := delete moduleName (addressTable p) in
  match addressTable p !! moduleName with
  | None => mkPool table (clients p) (conns p) (closed p) (started p) (watched p) (made p)
  | Some addr =>
      match (if in_use addr table then None else conns p !! addr) with
      | Some c => mkPool table (delete addr (clients p)) (delete addr (conns p)) ({[c]} ∪ closed p)
                    (started p) (watched p) (made p)
      | None => mkPool table (clients p) (conns p) (closed p) (started p) (watched p) (made p)
      end
  end.

(** [Start], and the end of its context. *)
Definition Start (p : AddressPool) : AddressPool :=
  mkPool (addressTable p) (clients p) (conns p) (closed p) true (watched p) (made p).
Definition Finish (p : AddressPool) : AddressPool :=
  mkPool (addressTable p) (clients p) (conns p) (list_to_set (watched p) ∪ closed p) (started p) (watched p) (made p).

(** [module.MessageRequest], and the depth that rides in the metadata. *)
Record MessageRequest := mkRequest {
  mr_From : string;
  mr_To : string;
  mr_Payload : string;
  mr_EdgeID : string;
  mr_depth : option string;
}.

Definition message_request (msg : Msg goval) : MessageRequest :=
  mkRequest (m_From msg) (m_To msg) (m_Data msg) (m_EdgeID msg)
    (if (0 <? m_Depth msg)%Z then Some (go_itoa (m_Depth msg)) else None).

(** The remote procedure call on a connection. *)
  Variable message : nat -> MessageRequest -> result goerror string.

Definition Pool_Handler (msg : Msg goval) (p : AddressPool) : AddressPool * result goerror string :=
  match ParseFullName (m_To msg) with
  | Err e => (p, Err e)
  | Ok (moduleName, _) =>
      match addressTable p !! moduleName with
      | None => (p, Err (ErrorString (moduleName +:+ " module address is unknown")))
      | Some addr =>
          let '(p, client) := getClient addr p in
          (p, match client with Err e => Err e | Ok c => message c (message_request msg) end)
      end
  end.

(** What the server of the other module makes of the request. *)
Definition serve_request (req : MessageRequest) : Msg goval :=
  mkMsg (mr_EdgeID req) (mr_From req) (mr_To req) (mr_Payload req)
    (match mr_depth req with Some d => go_atoi_value d | None => 0%Z end) "" "" "" "" "" 0 None.

(** ** Sequences of operations *)

Inductive pool_op : Type :=
| OpRegister (moduleName addr : string)
| OpWarm (addr : string)
| OpDeregister (moduleName : string)
| OpSend (msg : Msg goval)
| OpStart.

Definition pool_step (op : pool_op) (p : AddressPool) : AddressPool :=
  match op with
  | OpRegister m a => (Register m a p).1
  | OpWarm a => (getClient a p).1
  | OpDeregister m => Deregister m p
  | OpSend msg => (Pool_Handler msg p).1
  | OpStart => Start p
  end.

End pool.

(** ** The module reconciler *)

Record TinyModuleComponentPort := mkModulePort {
  mp_Name : string;
  mp_Label : string;
  mp_Source : bool;
  mp_Position : Z;
  mp_Schema : string;
}.

Record TinyModuleComponentStatus := mkModuleComponent {
  mc_Name : string;
  mc_Description : string;
  mc_Info : string;
  mc_Tags : list string;
  mc_Ports : list TinyModuleComponentPort;
}.

Section module_reconciler.
  Context {CS : Type} `{Lib}.

Definition module_port (q : Port) : TinyModuleComponentPort :=
  mkModulePort (p_Name q) (p_Label q) (p_Source q) (p_Position q)
    (match p_Configuration q with
     | Some conf => match create_schema conf with Ok s => s | Err _ => "" end
     | None => ""
     end).

Definition buildComponentPorts (cmp : Component CS) : list TinyModuleComponentPort :=
  map module_port (List.filter (fun q =>
    negb ((p_Name q =? ReconcilePort) || (p_Name q =? ClientPort) || (p_Name q =? IdentityPort)))
    (c_Ports cmp (c_Instance cmp))).

Definition buildComponentStatus (registry : list (Component CS)) : list TinyModuleComponentStatus :=
  map (fun cmp => mkModuleComponent (c_Name cmp) (c_Description cmp) (c_Info cmp) (c_Tags cmp)
                    (buildComponentPorts cmp)) registry.

(** What [TinyModuleReconciler.Reconcile] does with what it read: [None] where
    the object is gone, the address its status announces otherwise. *)
Inductive module_outcome : Type :=
| Done (p : AddressPool)
| Later (p : AddressPool)
| PublishStatus (p : AddressPool) (components : list TinyModuleComponentStatus).

Definition reconcile_module (registry : list (Component CS)) (own name : string) (leader : bool)
    (found : option string) (p : AddressPool) : module_outcome :=
  match found with
  | None => Done (Deregister name p)
  | Some addr =>
      if negb (name =? own) then Done (if negb (addr =? "") then (Register name addr p).1 else p)
      else if negb leader then Later p
      else PublishStatus p (buildComponentStatus registry)
  end.

End module_reconciler.

(** ** The pool's invariant *)

Record pool_ok (p : AddressPool) : Prop := {
  po_same : clients p = conns p;
  po_open : forall a c, conns p !! a = Some c -> c ∉ closed p;
  po_own : forall a b c, conns p !! a = Some c -> conns p !! b = Some c -> a = b;
  po_made : forall a c, conns p !! a = Some c -> (c < made p)%nat;
  po_closed : forall c, c ∈ closed p -> (c < made p)%nat;
}.

Lemma new_pool_ok : pool_ok NewPool.
Proof. constructor; try done; intros *; rewrite lookup_empty; done. Qed.

Lemma getClient_ok (dial : string -> error) (addr : string) (p : AddressPool) :
  pool_ok p ->
  let '(p', r) := getClient dial addr p in
  pool_ok p' /\ addressTable p' = addressTable p /\
  (forall c, r = Ok c -> conns p' !! addr = Some c) /\
  (forall a, a <> addr -> conns p' !! a = conns p !! a).
Proof.
  intros Hok. destruct Hok as [Hs Ho Hown Hm Hc]. unfold getClient.
  destruct (clients p !! addr) as [c|] eqn:Ec.
  { split; [by constructor|]. split; [done|]. split; [by intros c' [= <-]; rewrite <- Hs|done]. }
  destruct (dial addr) as [e|]; [split; [by constructor|done]|].
  split.
  - constructor; simpl.
    + by rewrite Hs.
    + intros a c [[<- <-]|[_ Ha]]%lookup_insert_Some; [|by apply (Ho a)].
      intros Hin%Hc. lia.
    + intros a b c [[<- <-]|[_ Ha]]%lookup_insert_Some [[<- E]|[_ Hb]]%lookup_insert_Some; try done.
      * apply Hm in Hb. lia.
      * apply Hm in Ha. lia.
      * by apply (Hown a b c).
    + intros a c [[<- <-]|[_ Ha]]%lookup_insert_Some; [lia|]. apply Hm in Ha. lia.
    + intros c Hin%Hc. lia.
  - split; [done|]. simpl. split; [intros c [= <-]; by rewrite lookup_insert_eq|].
    intros a Ha. by rewrite lookup_insert_ne.
Qed.

Lemma in_use_spec (addr : string) (table : gmap string string) :
  in_use addr table = true <-> exists m, table !! m = Some addr.
Proof.
  unfold in_use. rewrite existsb_exists. split.
  - intros ([m a] & Hin & Ha%String.eqb_eq). simpl in Ha. subst a. exists m.
    by apply elem_of_map_to_list, list_elem_of_In.
  - intros [m Hm]. exists (m, addr). split; [|apply String.eqb_refl].
    by apply list_elem_of_In, elem_of_map_to_list.
Qed.

Lemma Deregister_ok (moduleName : string) (p : AddressPool) : pool_ok p -> pool_ok (Deregister moduleName p).
Proof.
  intros [Hs Ho Hown Hm Hc]. unfold Deregister.
  destruct (addressTable p !! moduleName) as [addr|]; [|by constructor].
  destruct (in_use addr _); [by constructor|]. destruct (conns p !! addr) as [c|] eqn:Ec; [|by constructor].
  constructor; simpl.
  - by rewrite Hs.
  - intros a c' [Hne Ha]%lookup_delete_Some [->%elem_of_singleton|Hin]%elem_of_union; [|by apply (Ho a c')].
    apply Hne. by apply (Hown addr a c).
  - intros a b c' [_ Ha]%lookup_delete_Some [_ Hb]%lookup_delete_Some. by apply (Hown a b c').
  - intros a c' [_ Ha]%lookup_delete_Some. by apply (Hm a).
  - intros c' [->%elem_of_singleton|Hin]%elem_of_union; [by apply (Hm addr)|by apply Hc].
Qed.

Lemma pool_step_ok dial message (op : pool_op) (p : AddressPool) :
  pool_ok p -> pool_ok (pool_step dial message op p).
Proof.
  intros Hok. destruct op as [m a|a|m|msg|]; cbn [pool_step].
  - by destruct Hok; constructor.
  - pose proof (getClient_ok dial a p Hok) as Hg. destruct (getClient dial a p) as [p' r]. by destruct Hg.
  - by apply Deregister_ok.
  - unfold Pool_Handler. destruct (ParseFullName _) as [[m c]|]; [|done].
    destruct (addressTable p !! m) as [a|]; [|done].
    pose proof (getClient_ok dial a p Hok) as Hg. destruct (getClient dial a p) as [p' r]. by destruct Hg.
  - by destruct Hok; constructor.
Qed.

Lemma pool_steps_ok dial message (ops : list pool_op) :
  pool_ok (fold_left (fun p op => pool_step dial message op p) ops NewPool).
Proof.
  assert (H : forall p, pool_ok p -> pool_ok (fold_left (fun p op => pool_step dial message op p) ops p)).
  { induction ops as [|op ops IH]; intros p Hp; [done|]. simpl. by apply IH, pool_step_ok. }
  apply H, new_pool_ok.
Qed.

(** ** Properties *)


Definition sample_dial (addr : string) : error := None.
Definition sample_message (c : nat) (req : MessageRequest) : result goerror string := Ok (mr_Payload req).

Definition sample_msg : Msg goval :=
  mkMsg "e1" "p.a.x:out" "p.http.y:in" "{}" 3 "" "r" "k" "" "" 0 None.


(** A connection lives as long as a module is registered at its address, or
    longer: deregistering a module forgets its address, closes the connection of
    that address if no other module is registered there and keeps it open
    otherwise; but where a module was registered at a new address before, the
    connection to the old one stays open, although no module is there any more. *)
Theorem deregister_closes_last (p : AddressPool) (moduleName addr : string) (c : nat) :
  pool_ok p -> addressTable p !! moduleName = Some addr -> conns p !! addr = Some c ->
  let p' := Deregister moduleName p in
  addressTable p' !! moduleName = None /\
  ((exists m, m <> moduleName /\ addressTable p !! m = Some addr) ->
     conns p' !! addr = Some c /\ c ∉ closed p') /\
  ((forall m, addressTable p !! m = Some addr -> m = moduleName) ->
     conns p' !! addr = None /\ clients p' !! addr = None /\ c ∈ closed p' /\
     forall new, new <> addr ->
       let p2 := Deregister moduleName (Register moduleName new p).1 in
       (forall m, addressTable p2 !! m <> Some addr) /\ conns p2 !! addr = Some c /\ c ∉ closed p2).
Proof.
  intros Hok Hm Hc p'. unfold p', Deregister at 1. rewrite Hm.
  split; [destruct (if in_use _ _ then _ else _); apply lookup_delete_eq|]. split.
  - intros (m & Hne & Hm'). unfold Deregister. rewrite Hm.
    assert (Hu : in_use addr (delete moduleName (addressTable p)) = true).
    { apply in_use_spec. exists m. by rewrite lookup_delete_ne. }
    rewrite Hu. split; [done|]. by apply (po_open _ Hok addr).
  - intros Honly.
    assert (Hu : in_use addr (delete moduleName (addressTable p)) = false).
    { apply not_true_iff_false. rewrite in_use_spec. intros (m & [Hne Hm']%lookup_delete_Some).
      by apply Hne, eq_sym, Honly. }
    split; [unfold Deregister; rewrite Hm, Hu, Hc; apply lookup_delete_eq|].
    split; [unfold Deregister; rewrite Hm, Hu, Hc; apply lookup_delete_eq|].
    split; [unfold Deregister; rewrite Hm, Hu, Hc; simpl; set_solver|].
    intros new Hnew. set (p2 := Deregister moduleName (Register moduleName new p).1).
    assert (Hp2 : addressTable p2 = delete moduleName (addressTable p) /\
      conns p2 !! addr = conns p !! addr /\ (closed p2 = closed p \/ exists c', conns p !! new = Some c' /\
        closed p2 = {[c']} ∪ closed p)).
    { unfold p2, Deregister, Register. cbn [fst addressTable conns closed clients].
      rewrite lookup_insert_eq, delete_insert_eq.
      destruct (in_use new _); [by split_and!; [..|left]|].
      destruct (conns p !! new) as [c'|] eqn:En; simpl; [|by split_and!; [..|left]].
      split; [done|]. split; [by rewrite lookup_delete_ne|]. right. by exists c'. }
    destruct Hp2 as (-> & -> & Hcl). split.
    { intros m [Hne Hm']%lookup_delete_Some. by apply Hne, eq_sym, Honly. }
    split; [done|]. pose proof (po_open _ Hok addr c Hc) as Ho.
    destruct Hcl as [->|(c' & Hc' & ->)]; [done|]. intros [->%elem_of_singleton|]%elem_of_union; [|done].
    apply Hnew. by apply (po_own _ Hok new addr c').
Qed.

Lemma deregister_closes_last_witness :
  let p := fold_left (fun p op => pool_step sample_dial sample_message op p)
    [OpRegister "http" "10.0.0.1:50051"; OpWarm "10.0.0.1:50051"] NewPool in
  conns (Deregister "http" p) !! "10.0.0.1:50051" = None /\
  conns (Deregister "http" (Register "http" "10.0.0.2:50051" p).1) !! "10.0.0.1:50051" = Some 0%nat.
Proof.
  intros p. pose proof (pool_steps_ok sample_dial sample_message
    [OpRegister "http" "10.0.0.1:50051"; OpWarm "10.0.0.1:50051"]) as Hok. fold p in Hok.
  destruct (deregister_closes_last p "http" "10.0.0.1:50051" 0 Hok) as (_ & _ & Hlast);
    [by vm_compute|by vm_compute|].
  destruct Hlast as (Hgone & _ & _ & Hleak).
  { intros m Hm. change (addressTable p) with ({["http" := "10.0.0.1:50051"]} : gmap string string) in Hm. by apply lookup_singleton_Some in Hm as [<- _]. }
  split; [exact Hgone|]. destruct (Hleak "10.0.0.2:50051") as (_ & Hc & _); [discriminate|exact Hc].
Defined.
