(* ===== verification/Reconciler.v ===== *)
(** * The run reconciler

    [internal/scheduler/reconciler.go]: the safety net of durable runs. A pass
    reads the step ledger in the bucket, takes the frontier of every run (the
    hops some recorded step emitted and that have no record themselves), and
    publishes again the frontier of the runs without recent progress, a bounded
    number of times per hop; finished runs are deleted after a while. Reading a
    ledger record back is third-party code. *)
From S2P Require Import Prelude GoErrors Names Graph Run State ExecState World Send.

Open Scope string_scope.

Definition Minute : Z := 60 * 1000000000.
Definition defaultReconcileInterval : Z := Minute.
Definition defaultStaleAfter : Z := 6 * Minute.
Definition defaultGCAfter : Z := 24 * 60 * Minute.
Definition maxRedrives : Z := 3.
Definition redrivePrefix : string := "redrive/".

(** [time.Time{}], in Unix nanoseconds. *)
Definition zero_time : Z := -62135596800 * 1000000000.

Record runLedger := mkLedger {
  l_records : gmap string StepRecord;
  l_keys : list string;
  l_latest : Z;
}.

Definition empty_ledger : runLedger := mkLedger ∅ [] zero_time.

Section reconciler.
  Context {CS S : Type} `{KVBucket S} `{Lib} `{MapRange StepRecord} `{MapRange runLedger}.
  Abbreviation W := (World CS S).

(** [json.Unmarshal] into a record; the durations of [Schedule], zero for the
    defaults; its [msgHandler]. *)
  Variable json_unmarshal_step : string -> result goerror StepRecord.
  Variable staleAfter gcAfter : Z.
  Variable msgHandler : @Handler CS S.

Definition or_duration (d default : Z) : Z := if (d =? 0)%Z then default else d.

(** One key of the bucket. *)
Definition read_key (b : S) (runs : gmap string runLedger) (k : string) : gmap string runLedger :=
  match go_splitn "/" 4 k with
  | [exec; runID; kind; stepKey] =>
      if negb (exec =? "exec") then runs
      else
        let ledger := default empty_ledger (runs !! runID) in
        if kind =? "redrive"
        then <[runID := mkLedger (l_records ledger) (l_keys ledger ++ [k]) (l_latest ledger)]> runs
        else if negb (kind =? "step") then runs
        else
          match kv_get b k with
          | Err _ => runs
          | Ok v =>
              match json_unmarshal_step v with
              | Err _ => runs
              | Ok rec =>
                  <[runID := mkLedger (<[stepKey := rec]> (l_records ledger)) (l_keys ledger ++ [k])
                               (if (l_latest ledger <? sr_CompletedAt rec)%Z then sr_CompletedAt rec
                                else l_latest ledger)]> runs
              end
          end
  | _ => runs
  end.

Definition readLedger (b : S) : result goerror (gmap string runLedger) :=
  match kv_keys b with
  | Err ErrNoKeysFound => Ok ∅
  | Err e => Err (kv_goerror e)
  | Ok keys => Ok (fold_left (read_key b) keys ∅)
  end.

Definition frontierOf (l : runLedger) : list EmitRecord :=
  flat_map (fun kr =>
    List.filter (fun e => match l_records l !! er_StepKey e with Some _ => false | None => true end)
      (sr_Emits kr.2)) (map_range (l_records l)).

Definition redriveKey (runID stepKey : string) : string :=
  "exec/" +:+ runID +:+ "/" +:+ redrivePrefix +:+ stepKey.

Definition stepKeyOf (runID stepKey : string) : string := "exec/" +:+ runID +:+ "/step/" +:+ stepKey.

Definition redriveAttempts (b : S) (runID stepKey : string) : Z :=
  match kv_get b (redriveKey runID stepKey) with
  | Ok v => default 0%Z (go_atoi v)
  | Err _ => 0%Z
  end.

(** A write whose failure is only logged. *)
Definition put_best_effort (k v : string) : M CS S unit :=
  modify (fun w => match kv_put (w_store w) k v with Ok b => set_store b w | Err _ => w end).

Definition recordRedrive (runID stepKey : string) (attempts : Z) : M CS S unit :=
  put_best_effort (redriveKey runID stepKey) (go_itoa attempts).

Definition limit_record (hop : EmitRecord) (attempts now : Z) : StepRecord :=
  mkStep (er_To hop) StepStatusFailed
    ("re-drive limit reached after " +:+ go_itoa attempts +:+
     " attempts — hop never completed (is the target module on an SDK >= v0.11 with durable support?)")
    [] zero_time now 0.

Definition failStep (runID : string) (hop : EmitRecord) (attempts : Z) : M CS S unit :=
  bind get (fun w =>
    match json_marshal_step (limit_record hop attempts (w_now w)) with
    | Ok b => put_best_effort (stepKeyOf runID (er_StepKey hop)) b
    | Err _ => ret tt
    end).

Definition redrive_msg (runID : string) (hop : EmitRecord) : Msg Reflect.goval :=
  mkMsg (er_EdgeID hop) (er_From hop) (er_To hop) (er_Data hop) 0 "" runID (er_StepKey hop)
    (er_ReplySubject hop) (er_ReplyTarget hop) (er_ReplyDeadlineUnixMs hop) None.

(** One hop of a stale run's frontier: whether it was published again. *)
Definition redrive_hop (ctx : Ctx) (runID : string) (hop : EmitRecord) : M CS S bool :=
  (let* w := get in
   let attempts := redriveAttempts (w_store w) runID (er_StepKey hop) in
   if (maxRedrives <=? attempts)%Z then
     do failStep runID hop attempts then ret false
   else
     let* r := msgHandler ctx (redrive_msg runID hop) in
     match r with
     | Err _ => ret false
     | Ok _ =>
         do recordRedrive runID (er_StepKey hop) (attempts + 1) then ret true
     end)%run.

Fixpoint redrive_hops (ctx : Ctx) (runID : string) (hops : list EmitRecord) : M CS S (list EmitRecord) :=
  (match hops with
   | [] => ret []
   | hop :: hops' =>
       let* redriven := redrive_hop ctx runID hop in
       let* rest := redrive_hops ctx runID hops' in
       ret (if redriven : bool then hop :: rest else rest)
   end)%run.

Definition delete_keys (keys : list string) (b : S) : S :=
  fold_left (fun b k => match kv_delete b k with Ok b' => b' | Err _ => b end) keys b.

Definition reconcile_run (ctx : Ctx) (runID : string) (ledger : runLedger) : M CS S (list EmitRecord) :=
  (let frontier := frontierOf ledger in
   let* w := get in
   let idle := (w_now w - l_latest ledger)%Z in
   match frontier with
   | [] =>
       do modify (fun w => if (or_duration gcAfter defaultGCAfter <? idle)%Z
                           then set_store (delete_keys (l_keys ledger) (w_store w)) w else w) then
       ret []
   | _ =>
       if (idle <? or_duration staleAfter defaultStaleAfter)%Z then ret []
       else redrive_hops ctx runID frontier
   end)%run.

Fixpoint reconcile_all (ctx : Ctx) (runs : list (string * runLedger)) : M CS S (list EmitRecord) :=
  (match runs with
   | [] => ret []
   | (runID, ledger) :: runs' =>
       let* redriven := reconcile_run ctx runID ledger in
       let* rest := reconcile_all ctx runs' in
       ret (redriven ++ rest)%list
   end)%run.

Definition reconcileRuns (ctx : Ctx) : M CS S (result goerror (list EmitRecord)) :=
  (let* w := get in
   match readLedger (w_store w) with
   | Err e => ret (Err e)
   | Ok runs =>
       let* redriven := reconcile_all ctx (map_range runs) in
       ret (Ok redriven)
   end)%run.

(** One tick of [StartRunReconciler]: only the leader's passes run. *)
Definition tick (leaderCheck : option bool) (ctx : Ctx) : M CS S unit :=
  match leaderCheck with
  | Some false => ret tt
  | _ => bind (reconcileRuns ctx) (fun _ => ret tt)
  end.

End reconciler.
