(* ===== verification/ReconcilerSpec.v ===== *)
(** * What the run reconciler guarantees

    The frontier it computes is exactly the outstanding work the bucket
    records, however the bucket lists its keys; it publishes a hop again at
    most three times and then fails it, but only publications that succeed
    count. *)
From S2P Require Import Prelude GoErrors Names Graph Run State ExecState World Send Reconciler.

Open Scope string_scope.

Section ledger.
  Context {S : Type} `{KVBucket S} `{MapRange StepRecord}.
  Variable json_unmarshal_step : string -> result goerror StepRecord.

(** The record the bucket holds for a step of a run. *)
Definition record_in (b : S) (runID stepKey : string) : option StepRecord :=
  match kv_get b (stepKeyOf runID stepKey) with
  | Ok v => match json_unmarshal_step v with Ok rec => Some rec | Err _ => None end
  | Err _ => None
  end.

Definition rec_of (runs : gmap string runLedger) (runID stepKey : string) : option StepRecord :=
  runs !! runID ≫= fun l => l_records l !! stepKey.

Lemma splitn_step (k r s : string) :
  go_splitn "/" 4 k = ["exec"; r; "step"; s] <-> str_has "/" r = false /\ k = stepKeyOf r s.
Proof.
  unfold stepKeyOf. cbn [go_splitn]. split.
  - destruct (go_cut "/" k) as [[a k1]|] eqn:E1; [|done].
    destruct (go_cut "/" k1) as [[b k2]|] eqn:E2; [|done].
    destruct (go_cut "/" k2) as [[c k3]|] eqn:E3; [|done].
    intros [= -> -> -> ->]. apply go_cut_some in E1 as [-> _], E2 as [-> E2], E3 as [-> _]. done.
  - intros [Hr ->].
    change ("exec/" +:+ r +:+ "/step/" +:+ s) with ("exec" +:+ String "/" (r +:+ String "/" ("step" +:+ String "/" s))).
    by rewrite !go_cut_app.
Qed.

Lemma read_key_rec (b : S) (runs : gmap string runLedger) (k r s : string) :
  rec_of (read_key json_unmarshal_step b runs k) r s =
    if bool_decide (str_has "/" r = false /\ k = stepKeyOf r s)
    then match record_in b r s with Some rec => Some rec | None => rec_of runs r s end
    else rec_of runs r s.
Proof.
  unfold read_key. pose proof (splitn_step k r s) as Hs.
  case_bool_decide as Hd.
  - rewrite (proj2 Hs Hd). destruct Hd as [_ ->]. cbn. unfold record_in.
    destruct (kv_get b (stepKeyOf r s)) as [v|]; [|done]. destruct (json_unmarshal_step v) as [rec|]; [|done].
    unfold rec_of. rewrite lookup_insert_eq. simpl. by rewrite lookup_insert_eq.
  - destruct (go_splitn "/" 4 k) as [|exec [|r' [|kind [|s' [|? ?]]]]]; try done.
    destruct (String.eqb_spec exec "exec") as [->|]; [|done]. cbn [negb].
    assert (Hother : forall l', (r' = r -> l_records l' !! s = l_records (default empty_ledger (runs !! r')) !! s) ->
      rec_of (<[r' := l']> runs) r s = rec_of runs r s).
    { intros l' Hl. unfold rec_of. destruct (decide (r' = r)) as [->|Hne].
      - rewrite lookup_insert_eq. simpl. rewrite Hl by done. by destruct (runs !! r).
      - by rewrite lookup_insert_ne. }
    destruct (kind =? "redrive"); [by apply Hother|].
    destruct (String.eqb_spec kind "step") as [->|]; [|done]. cbn [negb].
    destruct (kv_get b k) as [v|]; [|done]. destruct (json_unmarshal_step v) as [rec|]; [|done].
    apply Hother. intros ->. simpl. rewrite lookup_insert_ne; [done|]. intros ->.
    apply Hd, Hs. done.
Qed.

Lemma fold_read_rec (b : S) (ks : list string) (runs : gmap string runLedger) (r s : string) :
  str_has "/" r = false ->
  rec_of (fold_left (read_key json_unmarshal_step b) ks runs) r s =
    if bool_decide (stepKeyOf r s ∈ ks)
    then match record_in b r s with Some rec => Some rec | None => rec_of runs r s end
    else rec_of runs r s.
Proof.
  intros Hr. revert runs. induction ks as [|k ks IH]; intros runs; [done|]. cbn [fold_left].
  rewrite IH, read_key_rec.
  destruct (decide (k = stepKeyOf r s)) as [->|Hne].
  - rewrite (bool_decide_true (str_has "/" r = false /\ _)) by done.
    rewrite (bool_decide_true (_ ∈ stepKeyOf r s :: ks)) by left.
    by destruct (bool_decide _), (record_in b r s).
  - rewrite (bool_decide_false (str_has "/" r = false /\ _)) by naive_solver.
    rewrite (bool_decide_ext (stepKeyOf r s ∈ k :: ks) (stepKeyOf r s ∈ ks)); [done|].
    rewrite elem_of_cons. naive_solver.
Qed.

Lemma frontier_spec (l : runLedger) (e : EmitRecord) :
  e ∈ frontierOf l <->
  l_records l !! er_StepKey e = None /\ exists k rec, l_records l !! k = Some rec /\ e ∈ sr_Emits rec.
Proof.
  unfold frontierOf. rewrite list_elem_of_In, in_flat_map. split.
  - intros ([k rec] & Hin & [He Hn]%filter_In). apply list_elem_of_In in Hin, He.
    rewrite map_range_perm in Hin. apply elem_of_map_to_list in Hin. simpl in He.
    split; [by destruct (l_records l !! er_StepKey e)|]. by exists k, rec.
  - intros [Hn (k & rec & Hk & He)]. exists (k, rec). split.
    + apply list_elem_of_In. rewrite map_range_perm. by apply elem_of_map_to_list.
    + apply filter_In. split; [by apply list_elem_of_In|]. by rewrite Hn.
Qed.

End ledger.

(** ** Properties *)

(** C4. The frontier is exactly the outstanding work in the bucket: for a run,
    a hop is in the frontier the reconciler computes exactly when some readable
    record of that run lists it as emitted and the bucket holds no readable
    record of the hop itself; records of other runs, counters, unreadable
    records and foreign keys play no part, whatever the order of the keys and
    of the maps, and an empty bucket has no runs. *)
Theorem frontier_is_outstanding_work {B} `{KVLaws B} `{MapRange StepRecord}
    (json_unmarshal_step : string -> result goerror StepRecord) (b : B)
    (runs : gmap string runLedger) (runID : string) (hop : EmitRecord) :
  readLedger json_unmarshal_step b = Ok runs -> str_has "/" runID = false ->
  hop ∈ match runs !! runID with Some l => frontierOf l | None => [] end <->
  record_in json_unmarshal_step b runID (er_StepKey hop) = None /\
  exists stepKey rec, record_in json_unmarshal_step b runID stepKey = Some rec /\ hop ∈ sr_Emits rec.
Proof.
  intros Hl Hr.
  assert (Hrec : forall s, rec_of runs runID s = record_in json_unmarshal_step b runID s).
  { intros s. unfold readLedger in Hl. destruct (kv_keys b) as [keys|e] eqn:Ek.
    - injection Hl as <-. rewrite (fold_read_rec json_unmarshal_step b keys ∅ runID s Hr).
      change (rec_of ∅ runID s) with (@None StepRecord).
      destruct (kv_keys_exact b keys Ek) as [_ Hin].
      case_bool_decide as Hd; [by destruct (record_in _ b runID s)|]. unfold record_in.
      destruct (kv_get b (stepKeyOf runID s)) as [v|] eqn:Ev; [|done].
      destruct Hd. apply Hin. by exists v.
    - destruct e; try done. injection Hl as <-. unfold record_in. by rewrite kv_keys_none. }
  setoid_rewrite <- Hrec. unfold rec_of. destruct (runs !! runID) as [l|]; simpl.
  - rewrite frontier_spec. done.
  - split; [intros Hn%not_elem_of_nil; done|]. intros (_ & k & rec & Hk & _). done.
Qed.

(** ** Re-driving one hop, pass after pass *)

Section redrive.
  Context {CS S : Type} `{KVLaws S} `{Lib}.
  Abbreviation W := (World CS S).
  Variable msgHandler : @Handler CS S.
  Variable ctx : Ctx.
  Variable runID : string.
  Variable hop : EmitRecord.

Abbreviation counter := (redriveKey runID (er_StepKey hop)).
Abbreviation step := (stepKeyOf runID (er_StepKey hop)).

Fixpoint redrives (n : nat) : M CS S (list bool) :=
  match n with
  | O => ret []
  | Datatypes.S n' =>
      bind (redrive_hop msgHandler ctx runID hop) (fun b =>
      bind (redrives n') (fun bs => ret (b :: bs)))
  end.

(** The bucket takes every write, and records can be written. *)
Definition bucket_works : Prop :=
  (forall (b : S) k v, is_ok (kv_put b k v) = true) /\ forall r, is_ok (json_marshal_step r) = true.

(** A way out that takes every message and leaves the counter alone. *)
Definition accepts_all : Prop :=
  forall msg w, exists v w', msgHandler ctx msg w = Val (Ok v) w' /\
    kv_get (w_store w') counter = kv_get (w_store w) counter.

(** The step is marked failed. *)
Definition marked_failed (b : S) : Prop :=
  exists rec v, sr_Status rec = StepStatusFailed /\ json_marshal_step rec = Ok v /\
    kv_get b step = Ok v.

Lemma counter_not_step : counter <> step.
Proof.
  unfold redriveKey, stepKeyOf, redrivePrefix. intros Heq%(str_app_inj_l "exec/")%str_app_inj_l.
  discriminate Heq.
Qed.

Lemma put_val (k v : string) (w : W) : bucket_works ->
  exists b, put_best_effort k v w = Val tt (set_store b w) /\ kv_put (w_store w) k v = Ok b.
Proof.
  intros [Hp _]. specialize (Hp (w_store w) k v). unfold put_best_effort, modify.
  destruct (kv_put (w_store w) k v) as [b|]; [|done]. by exists b.
Qed.

Lemma redrive_again (c : Z) (w : W) :
  bucket_works -> accepts_all -> (0 <= c < maxRedrives)%Z ->
  redriveAttempts (w_store w) runID (er_StepKey hop) = c ->
  exists w', redrive_hop msgHandler ctx runID hop w = Val true w' /\
    redriveAttempts (w_store w') runID (er_StepKey hop) = (c + 1)%Z.
Proof.
  intros Hb Ha Hc Hw. unfold redrive_hop. rewrite bind_get_eq, Hw.
  destruct (Z.leb_spec maxRedrives c); [lia|].
  destruct (Ha (redrive_msg runID hop) w) as (v & w1 & E1 & _). rewrite (bind_val_eq _ _ _ _ _ E1).
  destruct (put_val counter (go_itoa (c + 1)) w1 Hb) as (b & E2 & Hput).
  unfold recordRedrive. rewrite (bind_val_eq _ _ _ _ _ E2). eexists. split; [done|].
  unfold redriveAttempts. simpl. rewrite (kv_put_get _ _ _ _ _ Hput), String.eqb_refl.
  rewrite atoi_itoa; [done|]. unfold min_int64, max_int64, maxRedrives in *. lia.
Qed.

Lemma redrive_gives_up (w : W) :
  bucket_works -> (maxRedrives <= redriveAttempts (w_store w) runID (er_StepKey hop))%Z ->
  exists w', redrive_hop msgHandler ctx runID hop w = Val false w' /\
    kv_get (w_store w') counter = kv_get (w_store w) counter /\ marked_failed (w_store w').
Proof.
  intros Hb Hc. unfold redrive_hop. rewrite bind_get_eq. rewrite (proj2 (Z.leb_le _ _) Hc).
  unfold failStep. unfold bind at 1. rewrite bind_get_eq.
  set (rec := limit_record hop _ (w_now w)). destruct Hb as [Hp Hj]. specialize (Hj rec) as Hj'.
  destruct (json_marshal_step rec) as [v|] eqn:Ev; [|done].
  destruct (put_val step v w (conj Hp Hj)) as (b & E & Hput). rewrite E.
  eexists. split; [done|]. simpl. split.
  { rewrite (kv_put_get _ _ _ _ _ Hput). by rewrite (proj2 (String.eqb_neq _ _) counter_not_step). }
  exists rec, v. repeat split; [exact Ev|]. by rewrite (kv_put_get _ _ _ _ _ Hput), String.eqb_refl.
Qed.

Lemma redrives_spec (n : nat) (c : nat) (w : W) :
  bucket_works -> accepts_all -> (c <= 3)%nat ->
  redriveAttempts (w_store w) runID (er_StepKey hop) = Z.of_nat c ->
  exists w', redrives n w =
      Val (replicate (n `min` (3 - c)) true ++ replicate (n - (3 - c)) false)%list w' /\
    (3 - c < n -> marked_failed (w_store w'))%nat.
Proof.
  intros Hb Ha. revert c w. induction n as [|n IH]; intros c w Hc Hw.
  { exists w. split; [done|lia]. }
  cbn [redrives]. destruct (decide (c = 3)%nat) as [->|Hne].
  - destruct (redrive_gives_up w Hb) as (w1 & E1 & Hk & Hf); [unfold maxRedrives; lia|].
    rewrite (bind_val_eq _ _ _ _ _ E1).
    destruct (IH 3%nat w1) as (w2 & E2 & Hf2); [lia|unfold redriveAttempts in *; by rewrite Hk|].
    rewrite (bind_val_eq _ _ _ _ _ E2). exists w2. split.
    + unfold ret. repeat f_equal. change (3 - 3)%nat with 0%nat. rewrite !Nat.min_0_r, !Nat.sub_0_r. done.
    + intros _. destruct n as [|n]; [|apply Hf2; lia]. cbn in E2. by injection E2 as <-.
  - destruct (redrive_again (Z.of_nat c) w Hb Ha) as (w1 & E1 & Hk); [unfold maxRedrives; lia|done|].
    rewrite (bind_val_eq _ _ _ _ _ E1).
    destruct (IH (Datatypes.S c) w1) as (w2 & E2 & Hf2); [lia|lia|].
    rewrite (bind_val_eq _ _ _ _ _ E2). exists w2. split; [|intros; apply Hf2; lia].
    unfold ret. replace (3 - c)%nat with (Datatypes.S (3 - Datatypes.S c))%nat by lia. done.
Qed.

End redrive.

(** C5. A stalled hop is published again at most three times: over a bucket and
    a way out that work, starting with no counter, the first three passes that
    reach the hop publish it and every later pass does not; from the fourth on
    the ledger holds a failed record of the hop, so it leaves the frontier. *)
Theorem redrives_are_bounded {CS S} `{KVLaws S} `{Lib} (msgHandler : @Handler CS S) (ctx : Ctx)
    (runID : string) (hop : EmitRecord) (n : nat) (w : World CS S) :
  bucket_works (S := S) -> accepts_all msgHandler ctx runID hop ->
  kv_get (w_store w) (redriveKey runID (er_StepKey hop)) = Err ErrKeyNotFound ->
  exists w', redrives msgHandler ctx runID hop n w =
      Val (replicate (n `min` 3) true ++ replicate (n - 3) false)%list w' /\
    (3 < n -> marked_failed runID hop (w_store w'))%nat.
Proof.
  intros Hb Ha Hk. apply (redrives_spec msgHandler ctx runID hop n 0 w Hb Ha); [lia|].
  unfold redriveAttempts. by rewrite Hk.
Qed.

(** A publication that fails never counts: while the way out refuses the
    hop, every pass tries it again, the counter and the ledger stay as they
    are, and the run is never marked failed, however many passes there are. *)
Theorem failed_redrives_never_count {CS S} `{KVBucket S} `{Lib} (msgHandler : @Handler CS S) (ctx : Ctx)
    (runID : string) (hop : EmitRecord) (n : nat) (w : World CS S) :
  (forall msg w, exists e w', msgHandler ctx msg w = Val (Err e) w' /\ w_store w' = w_store w) ->
  (redriveAttempts (w_store w) runID (er_StepKey hop) < maxRedrives)%Z ->
  exists w', redrives msgHandler ctx runID hop n w = Val (replicate n false) w' /\
    w_store w' = w_store w.
Proof.
  intros Ha. revert w. induction n as [|n IH]; intros w Hw; [by exists w|]. cbn [redrives].
  destruct (Ha (redrive_msg runID hop) w) as (e & w1 & E1 & S1).
  rewrite (bind_val_eq _ _ w false w1).
  2: { unfold redrive_hop. rewrite bind_get_eq. destruct (Z.leb_spec maxRedrives
         (redriveAttempts (w_store w) runID (er_StepKey hop))); [lia|].
       by rewrite (bind_val_eq _ _ _ _ _ E1). }
  destruct (IH w1) as (w2 & E2 & S2); [by rewrite S1|]. rewrite (bind_val_eq _ _ _ _ _ E2).
  exists w2. split; [done|]. by rewrite S2.
Qed.

(** ** Concrete instances *)
Module Stalled.
#[local] Existing Instance mem_bucket.

Definition hop : EmitRecord := mkEmit "p.m.b:in" "p.m.a:out" "e1" "k2" "{}" "" "" 0.

(** Records are read back by a fixed table. *)
Definition read (v : string) : result goerror StepRecord :=
  if v =? "first" then Ok (mkStep "a" StepStatusDone "" [hop] 0 0 0) else Err (ErrorString "bad record").

Definition bucket : gmap string string := {["exec/r/step/k1" := "first"; "exec/r/redrive/x" := "1"]}.

Definition order : MapRange StepRecord := map_range_some_order StepRecord.

Definition ledger : gmap string runLedger :=
  match @readLedger _ mem_bucket read bucket with Ok runs => runs | Err _ => ∅ end.

Definition world : World unit (gmap string string) := empty_world bucket.

Definition taken : @Handler unit (gmap string string) := fun _ _ => ret (Ok AnyNil).
Definition refused : @Handler unit (gmap string string) := fun _ _ => ret (Err (ErrorString "no responders")).

Lemma works : @bucket_works _ mem_bucket sample_lib.
Proof. by split. Qed.

Lemma takes : @accepts_all unit _ mem_bucket taken background "r" hop.
Proof. intros msg w. by exists AnyNil, w. Qed.

End Stalled.

Lemma frontier_is_outstanding_work_witness :
  @readLedger _ mem_bucket Stalled.read Stalled.bucket = Ok Stalled.ledger /\
  Stalled.hop ∈ match Stalled.ledger !! "r" with
                | Some l => @frontierOf Stalled.order l
                | None => []
                end.
Proof.
  assert (E : @readLedger _ mem_bucket Stalled.read Stalled.bucket = Ok Stalled.ledger) by reflexivity.
  split; [exact E|].
  apply (@frontier_is_outstanding_work _ mem_bucket mem_bucket_laws Stalled.order Stalled.read
    Stalled.bucket Stalled.ledger "r" Stalled.hop E eq_refl).
  split; [reflexivity|]. exists "k1", (mkStep "a" StepStatusDone "" [Stalled.hop] 0 0 0).
  split; [reflexivity|left].
Defined.

Lemma redrives_are_bounded_witness :
  exists w', @redrives unit _ mem_bucket sample_lib Stalled.taken background "r" Stalled.hop 5 Stalled.world =
      Val [true; true; true; false; false] w' /\
    @marked_failed _ mem_bucket sample_lib "r" Stalled.hop (w_store w').
Proof.
  destruct (@redrives_are_bounded unit _ mem_bucket mem_bucket_laws sample_lib Stalled.taken background
    "r" Stalled.hop 5 Stalled.world Stalled.works Stalled.takes eq_refl) as (w' & E & Hf).
  exists w'. split; [exact E|apply Hf; lia].
Defined.

Lemma failed_redrives_never_count_witness :
  exists w', @redrives unit _ mem_bucket sample_lib Stalled.refused background "r" Stalled.hop 5 Stalled.world =
      Val (replicate 5 false) w' /\ w_store w' = Stalled.bucket.
Proof.
  apply (@failed_redrives_never_count unit _ mem_bucket sample_lib Stalled.refused background "r"
    Stalled.hop 5 Stalled.world); [|reflexivity].
  intros msg w. exists (ErrorString "no responders"), w. split; reflexivity.
Defined.
