(* ===== verification/Transport.v ===== *)
(** * The wire between modules

    [internal/transport/nats.go] and [jetstream.go]: how a message of the
    scheduler becomes a NATS message and is read back on the other side, how
    the receiver's answer travels to a sender that waits, and what the receiver
    tells the broker about the message (done, again, never again).

    The NATS client is a parameter: the operations the sender blocks on are the
    class [NatsClient], what the receiver does to the broker is the list of
    [Action]s it returns, in order (their failures are only logged). The trace
    context that travels in a header of its own is not modelled; the ticks that
    keep a long handler's message in flight are in [Supervise]. *)
From S2P Require Import Prelude GoErrors Names Run Reflect Backoff.
From S2P Require Import World Send Runner.

Open Scope string_scope.

(** ** Messages *)

Definition headerFrom : string := "x-from".
Definition headerTo : string := "x-to".
Definition headerEdgeID : string := "x-edge-id".
Definition headerMessageDepth : string := "x-message-depth".
Definition headerError : string := "x-error".
Definition headerErrorCode : string := "x-error-code".
Definition headerEmpty : string := "x-empty".
Definition headerReplyInbox : string := "x-reply-inbox".
Definition headerMode : string := "x-mode".
Definition headerRunID : string := "x-run-id".
Definition headerStepKey : string := "x-step-key".
Definition headerReplySubject : string := "x-reply-subject".
Definition headerReplyTarget : string := "x-reply-target".
Definition headerReplyDeadline : string := "x-reply-deadline".
Definition natsMsgIDHeader : string := "Nats-Msg-Id".

(** [nats.Msg], with one value per header. *)
Record NatsMsg := mkNats {
  nm_Subject : string;
  nm_Data : string;
  nm_Header : gmap string string;
}.

(** [Header.Get]: empty where the header is missing. *)
Definition header (m : NatsMsg) (k : string) : string := default "" (nm_Header m !! k).

Definition when (b : bool) (f : gmap string string -> gmap string string) (h : gmap string string) :=
  if b then f h else h.

Definition routing_headers (msg : Msg goval) : gmap string string :=
  <[headerEdgeID := m_EdgeID msg]> (<[headerTo := m_To msg]> {[headerFrom := m_From msg]}).

Definition depth_header (msg : Msg goval) : gmap string string -> gmap string string :=
  when (0 <? m_Depth msg)%Z (<[headerMessageDepth := go_itoa (m_Depth msg)]>).

(** What [NATS.Handler] requests. *)
Definition core_msg (moduleName : string) (msg : Msg goval) : NatsMsg :=
  mkNats (SubjectFor moduleName) (m_Data msg)
    (depth_header msg (<[natsMsgIDHeader := m_EdgeID msg]> (routing_headers msg))).

(** What [JetStream.Handler] publishes for a call that waits for its reply. *)
Definition call_msg (inbox moduleName : string) (msg : Msg goval) : NatsMsg :=
  mkNats (SubjectFor moduleName) (m_Data msg)
    (depth_header msg (<[headerReplyInbox := inbox]> (routing_headers msg))).

(** What [publishDurable] stores for a hop of a run. *)
Definition durable_msg (moduleName : string) (msg : Msg goval) : NatsMsg :=
  let h := <[headerRunID := m_RunID msg]> (routing_headers msg) in
  let h := when (negb (m_StepKey msg =? ""))
             (fun h => <[natsMsgIDHeader := m_StepKey msg]> (<[headerStepKey := m_StepKey msg]> h)) h in
  let h := when (negb (m_ReplySubject msg =? ""))
             (fun h =>
                when (0 <? m_ReplyDeadlineUnixMs msg)%Z
                  (<[headerReplyDeadline := go_itoa (m_ReplyDeadlineUnixMs msg)]>)
                  (<[headerReplyTarget := m_ReplyTarget msg]>
                     (<[headerReplySubject := m_ReplySubject msg]> h))) h in
  mkNats (SubjectFor moduleName) (m_Data msg) (depth_header msg h).

(** What the receivers make of a message. *)
Definition number_header (m : NatsMsg) (k : string) : Z :=
  if header m k =? "" then 0%Z else go_atoi_value (header m k).

Definition decode_core (m : NatsMsg) : Msg goval :=
  mkMsg (header m headerEdgeID) (header m headerFrom) (header m headerTo) (nm_Data m)
    (number_header m headerMessageDepth) (header m headerMode) "" "" "" "" 0 None.

Definition decode (m : NatsMsg) : Msg goval :=
  mkMsg (header m headerEdgeID) (header m headerFrom) (header m headerTo) (nm_Data m)
    (number_header m headerMessageDepth) (header m headerMode) (header m headerRunID)
    (header m headerStepKey) (header m headerReplySubject) (header m headerReplyTarget)
    (number_header m headerReplyDeadline) None.

(** ** The client library

    [header_value] is what the client makes of a header's value on its way: a
    value without line breaks and without blanks at its ends arrives as it is.
    [as_bytes] tells the byte slices. *)
Definition blank (c : ascii) : bool := Ascii.eqb c " " || Ascii.eqb c (ascii_of_nat 9).
Definition line_break (c : ascii) : bool := Ascii.eqb c (ascii_of_nat 10) || Ascii.eqb c (ascii_of_nat 13).

Definition clean_header (v : string) : bool :=
  let cs := String.list_ascii_of_string v in
  forallb (fun c => negb (line_break c)) cs &&
  match cs, rev cs with
  | first :: _, last :: _ => negb (blank first) && negb (blank last)
  | _, _ => true
  end.

Class NatsWire := {
  header_value : string -> string;
  header_value_clean : forall v, clean_header v = true -> header_value v = v;
  as_bytes : goval -> option string;
  json_marshal_error : goerror -> result goerror string;
}.

Definition transit `{NatsWire} (m : NatsMsg) : NatsMsg :=
  mkNats (nm_Subject m) (nm_Data m) (header_value <$> nm_Header m).

Class NatsClient (CS S : Type) := {
  new_inbox : M CS S string;
  subscribe : string -> M CS S error;
  publish_stream : Ctx -> NatsMsg -> M CS S (result goerror bool);   (* stored; a duplicate? *)
  publish_core : string -> string -> M CS S error;
  request : Ctx -> NatsMsg -> M CS S (result goerror NatsMsg);
  await_reply : Ctx -> string -> M CS S (result goerror NatsMsg);
}.

(** ** Replies *)

Section replies.
  Context `{Lib} `{NatsWire}.

(** The receiver's reply: the error's text and code, or that there is no
    payload, or the payload. One that cannot be encoded is sent empty. *)
Definition error_reply (subject : string) (err : goerror) : NatsMsg :=
  let code := ErrorCode (Some err) in
  mkNats subject ""
    (when (negb (code =? "")) (<[headerErrorCode := code]>) {[headerError := error_text err]}).

Definition empty_reply (subject : string) : NatsMsg := mkNats subject "" {[headerEmpty := "1"]}.

Definition marshal_any (res : any goval) : result goerror string :=
  match res with
  | AnyNil => json_marshal None
  | AnyVal v => json_marshal (Some v)
  | AnyErr e => json_marshal_error e
  end.

Definition payload (res : any goval) : string :=
  match (match res with AnyVal v => as_bytes v | _ => None end) with
  | Some b => b
  | None => match marshal_any res with Ok b => b | Err _ => "" end
  end.

Definition encode_reply (subject : string) (res : result goerror (any goval)) : NatsMsg :=
  match res with
  | Err err => error_reply subject err
  | Ok v => if any_nil v then empty_reply subject else mkNats subject (payload v) ∅
  end.

(** What the waiting sender makes of it: a byte slice, which may be nil. *)
Definition read_reply (reply : NatsMsg) : result goerror (option string) :=
  let e := header reply headerError in
  if negb (e =? "") then
    let code := header reply headerErrorCode in
    if negb (code =? "") then Err (CodedError code (Some (ErrorString e))) else Err (ErrorString e)
  else if (header reply headerEmpty =? "1") || (nm_Data reply =? "") then Ok None
  else Ok (Some (nm_Data reply)).

End replies.

(** ** Senders *)

Section senders.
  Context {CS S : Type} `{NatsClient CS S}.

(** Five minutes, where the caller's context has no deadline. *)
Definition requestTimeout : Z := 300 * Second.

Definition request_ctx (ctx : Ctx) (w : World CS S) : Ctx :=
  match cx_deadline ctx with Some _ => ctx | None => with_timeout ctx requestTimeout w end.

Definition publishDurable (ctx : Ctx) (moduleName : string) (msg : Msg goval)
    : M CS S (result goerror (option string)) :=
  (if Msg_IsReplyHop msg then
     let* _ := publish_core (m_ReplySubject msg) (m_Data msg) in
     ret (Ok None)
   else
     let* ack := publish_stream ctx (durable_msg moduleName msg) in
     ret match ack with
         | Err e => Err (WrapError ("jetstream durable publish to " +:+ moduleName +:+ ": ") e)
         | Ok _ => Ok None
         end)%run.

Definition JetStream_Handler (ctx : Ctx) (msg : Msg goval) : M CS S (result goerror (option string)) :=
  (match ParseFullName (m_To msg) with
   | Err e => ret (Err e)
   | Ok (moduleName, _) =>
       if negb (m_RunID msg =? "") then publishDurable ctx moduleName msg
       else
         let* inbox := new_inbox in
         let* refused := subscribe inbox in
         match refused with
         | Some e => ret (Err (WrapError "jetstream subscribe inbox: " e))
         | None =>
             let* ack := publish_stream ctx (call_msg inbox moduleName msg) in
             match ack with
             | Err e => ret (Err (WrapError ("jetstream publish to " +:+ moduleName +:+ ": ") e))
             | Ok _ =>
                 let* w := get in
                 let* reply := await_reply (request_ctx ctx w) inbox in
                 ret match reply with Ok m => read_reply m | Err e => Err e end
             end
         end
   end)%run.

Definition NATS_Handler (ctx : Ctx) (msg : Msg goval) : M CS S (result goerror (option string)) :=
  (match ParseFullName (m_To msg) with
   | Err e => ret (Err e)
   | Ok (moduleName, _) =>
       let* w := get in
       let* reply := request (request_ctx ctx w) (core_msg moduleName msg) in
       ret match reply with
           | Ok m => read_reply m
           | Err e => Err (WrapError ("nats request to " +:+ moduleName +:+ ": ") e)
           end
   end)%run.

End senders.

(** ** Receivers *)

Inductive Action : Type :=
| Publish (m : NatsMsg)
| Ack
| Nak
| Term.

Section receivers.
  Context {CS S : Type} `{Lib} `{NatsWire}.
  Abbreviation Hdl := (@Handler CS S).

Definition NATS_handleIncoming (ctx : Ctx) (handler : Hdl) (reply_to : string) (m : NatsMsg)
    : M CS S (list Action) :=
  (let* res := handler ctx (decode_core m) in
   ret [Publish (encode_reply reply_to res)])%run.

(** The reply, where the sender left an inbox, and the message's fate. *)
Definition settle (inbox : string) (res : result goerror (any goval)) : list Action :=
  ((if negb (inbox =? "") then [Publish (encode_reply inbox res)] else []) ++
   match res with
   | Ok _ => [Ack]
   | Err err => if (inbox =? "") && ShouldRetry (Some err) then [Nak] else [Term]
   end)%list.

Definition handleIncoming (ctx : Ctx) (handler : Hdl) (m : NatsMsg) : M CS S (list Action) :=
  (let* res := handler ctx (decode m) in
   ret (settle (header m headerReplyInbox) res))%run.

End receivers.
