(* ===== verification/TransportSpec.v ===== *)
(** * What the wire keeps and loses

    Properties of [Transport]: a durable hop is read back as it was sent, a
    remote failure keeps its text and code but not its marking, and a durable
    hop that is sent back to the broker never runs again. *)
From Stdlib Require Import DecimalString.
From S2P Require Import Prelude GoErrors Names Graph Run Json Reflect ExecState Backoff.
From S2P Require Import World Send Runner RunnerSpec Transport.

Open Scope string_scope.

(** ** Headers *)

Definition hdr (h : gmap string string) (k : string) : string := default "" (h !! k).

Lemma hdr_insert (h : gmap string string) (k v k' : string) :
  hdr (<[k := v]> h) k' = if k =? k' then v else hdr h k'.
Proof.
  unfold hdr. destruct (String.eqb_spec k k') as [->|Hne].
  - by rewrite lookup_insert_eq.
  - by rewrite lookup_insert_ne.
Qed.

Lemma hdr_singleton (k v k' : string) : hdr {[k := v]} k' = if k =? k' then v else "".
Proof. unfold hdr. rewrite lookup_singleton. destruct (String.eqb_spec k k'); by case_decide. Qed.

Lemma hdr_when (b : bool) (f : gmap string string -> gmap string string) h k :
  hdr (when b f h) k = if b then hdr (f h) k else hdr h k.
Proof. by destruct b. Qed.

Definition clean_headers (h : gmap string string) : Prop := map_Forall (fun _ v => clean_header v = true) h.

Lemma clean_insert (k v : string) (h : gmap string string) :
  clean_header v = true -> clean_headers h -> clean_headers (<[k := v]> h).
Proof. intros. by apply map_Forall_insert_2. Qed.

Lemma clean_singleton (k v : string) : clean_header v = true -> clean_headers {[k := v]}.
Proof. intros. by apply map_Forall_singleton. Qed.

Lemma clean_when (b : bool) (f : gmap string string -> gmap string string) h :
  (b = true -> clean_headers (f h)) -> clean_headers h -> clean_headers (when b f h).
Proof. destruct b; auto. Qed.

Lemma transit_clean `{NatsWire} (m : NatsMsg) : clean_headers (nm_Header m) -> transit m = m.
Proof.
  intros Hc. unfold transit. destruct m as [s d h]. simpl. f_equal. apply map_eq. intros k.
  rewrite lookup_fmap. destruct (h !! k) as [v|] eqn:E; [|done]. simpl.
  by rewrite header_value_clean by exact (Hc k v E).
Qed.

(** Numbers have no blanks. *)
Definition numeral (c : ascii) : bool := negb (line_break c) && negb (blank c).

Lemma numeral_clean (v : string) :
  forallb numeral (String.list_ascii_of_string v) = true -> clean_header v = true.
Proof.
  intros Hv. unfold clean_header. set (cs := String.list_ascii_of_string v) in *.
  assert (Hall : forall c, In c cs -> numeral c = true) by (by apply forallb_forall).
  apply andb_true_intro. split.
  - apply forallb_forall. intros c Hc%Hall. by apply andb_prop in Hc as [? _].
  - destruct cs as [|c cs']; [done|]. destruct (rev (c :: cs')) as [|l ls] eqn:Er; [done|].
    assert (Hc : numeral c = true) by (apply Hall; by left).
    assert (Hl : numeral l = true).
    { apply Hall. apply in_rev. rewrite Er. by left. }
    apply andb_prop in Hc as [_ ->]. by apply andb_prop in Hl as [_ ->].
Qed.

Lemma uint_numeral (d : Decimal.uint) :
  forallb numeral (String.list_ascii_of_string (NilEmpty.string_of_uint d)) = true.
Proof. induction d; simpl; auto. Qed.

Lemma itoa_clean (z : Z) : clean_header (go_itoa z) = true.
Proof.
  apply numeral_clean. unfold go_itoa.
  destruct (Z.to_int z) as [d|d]; destruct d; try done; simpl; by rewrite ?uint_numeral.
Qed.

#[export] Hint Resolve clean_insert clean_singleton clean_when itoa_clean : core.

(** ** Durable hops *)

(** The fields of a message that travel in headers. *)
Definition clean_msg (msg : Msg goval) : Prop :=
  clean_header (m_EdgeID msg) = true /\ clean_header (m_From msg) = true /\
  clean_header (m_To msg) = true /\ clean_header (m_RunID msg) = true /\
  clean_header (m_StepKey msg) = true /\ clean_header (m_ReplySubject msg) = true /\
  clean_header (m_ReplyTarget msg) = true.

Lemma durable_clean (moduleName : string) (msg : Msg goval) :
  clean_msg msg -> clean_headers (nm_Header (durable_msg moduleName msg)).
Proof.
  intros (? & ? & ? & ? & ? & ? & ?). simpl. unfold depth_header, routing_headers.
  repeat (apply clean_when; intros); auto 20.
Qed.

Ltac hdrs :=
  unfold depth_header, routing_headers, headerFrom, headerTo, headerEdgeID, headerMessageDepth,
    headerError, headerErrorCode, headerEmpty, headerReplyInbox, headerMode, headerRunID,
    headerStepKey, headerReplySubject, headerReplyTarget, headerReplyDeadline, natsMsgIDHeader;
  repeat (rewrite hdr_insert || rewrite hdr_singleton || rewrite hdr_when).

(** Decides the comparisons of a key with the headers' names. *)
Ltac by_name :=
  repeat (match goal with
          | |- context [String.eqb ?a ?x] =>
              lazymatch a with
              | String _ _ => destruct (String.eqb_spec a x) as [?|?]; [subst; try discriminate|]
              end
          end; cbn [orb]); try congruence.

(** Every header of a stored hop. *)
Lemma durable_header (moduleName : string) (msg : Msg goval) (k : string) :
  let addressed := negb (m_ReplySubject msg =? "") in
  header (durable_msg moduleName msg) k =
    if "x-message-depth" =? k then (if (0 <? m_Depth msg)%Z then go_itoa (m_Depth msg) else "")
    else if "x-reply-deadline" =? k then
      (if addressed && (0 <? m_ReplyDeadlineUnixMs msg)%Z then go_itoa (m_ReplyDeadlineUnixMs msg) else "")
    else if "x-reply-target" =? k then (if addressed then m_ReplyTarget msg else "")
    else if "x-reply-subject" =? k then m_ReplySubject msg
    else if ("Nats-Msg-Id" =? k) || ("x-step-key" =? k) then m_StepKey msg
    else if "x-run-id" =? k then m_RunID msg
    else if "x-edge-id" =? k then m_EdgeID msg
    else if "x-to" =? k then m_To msg
    else if "x-from" =? k then m_From msg else "".
Proof.
  intros addressed. change (header ?m k) with (hdr (nm_Header m) k). simpl nm_Header. hdrs. unfold addressed.
  destruct (String.eqb_spec (m_StepKey msg) "") as [Es|], (String.eqb_spec (m_ReplySubject msg) "") as [Er|],
    (0 <? m_Depth msg)%Z, (0 <? m_ReplyDeadlineUnixMs msg)%Z; cbn [negb andb]; try rewrite Es; try rewrite Er.
  all: by by_name.
Qed.

Lemma number_shown (z : Z) (k : string) (m : NatsMsg) :
  header m k = (if (0 <? z)%Z then go_itoa z else "") -> (z <= max_int64)%Z ->
  number_header m k = Z.max 0 z.
Proof.
  intros E Hz. unfold number_header. rewrite E. destruct (Z.ltb_spec 0 z).
  - destruct (String.eqb_spec (go_itoa z) "") as [E0|].
    + pose proof (atoi_itoa z) as Hi. rewrite E0 in Hi. unfold min_int64 in Hi.
      specialize (Hi ltac:(lia)). discriminate Hi.
    + rewrite atoi_value_itoa; unfold min_int64; lia.
  - simpl. lia.
Qed.

(** ** A sample wire *)

Definition sample_wire : NatsWire := {|
  header_value v := v;
  header_value_clean v _ := eq_refl;
  as_bytes _ := None;
  json_marshal_error e := Ok (error_text e);
|}.

Definition sample_client : NatsClient unit Sample.Store := {|
  new_inbox := ret "inbox";
  subscribe _ := ret None;
  publish_stream _ _ := ret (Ok false);
  publish_core _ _ := ret None;
  request _ m := ret (Ok m);
  await_reply _ _ := ret (Err DeadlineExceeded);
|}.

(** C12. A durable hop travels without loss: sending a message of a run (not its
    terminal reply) stores one message on the target module's subject, keyed for
    the broker's deduplication by the step key and without an inbox, and the
    receiver reads back every field of the hop: its addresses, its run, its step
    key, its depth and, where there is a reply subject, the reply address. *)
Theorem durable_hop_roundtrip {CS S} `{NatsClient CS S} `{NatsWire} (ctx : Ctx) (msg : Msg goval)
    (moduleName component : string) :
  ParseFullName (m_To msg) = Ok (moduleName, component) -> m_RunID msg <> "" ->
  Msg_IsReplyHop msg = false -> clean_msg msg ->
  (m_Depth msg <= max_int64)%Z -> (m_ReplyDeadlineUnixMs msg <= max_int64)%Z ->
  exists m,
    (forall (w w' : World CS S) duplicate, publish_stream ctx m w = Val (Ok duplicate) w' ->
       JetStream_Handler ctx msg w = Val (Ok None) w') /\
    nm_Subject m = SubjectFor moduleName /\
    header m natsMsgIDHeader = m_StepKey msg /\ header m headerReplyInbox = "" /\
    let addressed := negb (m_ReplySubject msg =? "") in
    decode (transit m) =
      mkMsg (m_EdgeID msg) (m_From msg) (m_To msg) (m_Data msg) (Z.max 0 (m_Depth msg)) ""
        (m_RunID msg) (m_StepKey msg) (m_ReplySubject msg)
        (if addressed then m_ReplyTarget msg else "")
        (if addressed then Z.max 0 (m_ReplyDeadlineUnixMs msg) else 0) None.
Proof.
  intros Hto Hid Hhop Hclean Hdepth Hdead. exists (durable_msg moduleName msg).
  split.
  { intros w w' dup Hpub. unfold JetStream_Handler. rewrite Hto.
    apply String.eqb_neq in Hid. rewrite Hid. cbn [negb]. unfold publishDurable. rewrite Hhop.
    unfold bind. by rewrite Hpub. }
  rewrite (transit_clean _ (durable_clean moduleName msg Hclean)).
  split; [done|]. unfold decode.
  rewrite (number_shown (m_Depth msg));
    [|by rewrite durable_header|done].
  assert (Hr : number_header (durable_msg moduleName msg) headerReplyDeadline =
    Z.max 0 (if negb (m_ReplySubject msg =? "") then m_ReplyDeadlineUnixMs msg else 0)).
  { apply number_shown; [rewrite durable_header; simpl|by destruct (negb _)].
    by destruct (negb _), (0 <? m_ReplyDeadlineUnixMs msg)%Z. }
  rewrite Hr, !durable_header. do 2 (split; [done|]). simpl. by destruct (negb (m_ReplySubject msg =? "")).
Qed.

Lemma durable_hop_roundtrip_witness :
  let msg := mkMsg "e0" "p.m.z:out" "p.m.a:in" "hello" 3 "" "r" "k" "inbox.1" "p.m.z:reply" 99 None in
  exists m, decode (@transit sample_wire m) = msg /\ nm_Subject m = "tinymodule.m.msg" /\
    header m natsMsgIDHeader = "k".
Proof.
  destruct (@durable_hop_roundtrip _ _ sample_client sample_wire background
    (mkMsg "e0" "p.m.z:out" "p.m.a:in" "hello" 3 "" "r" "k" "inbox.1" "p.m.z:reply" 99 None) "m" "a:in")
    as (m & _ & Hs & Hk & _ & Hd);
    [reflexivity|discriminate|reflexivity|repeat split|by vm_compute|by vm_compute|].
  exists m. split; [exact Hd|]. split; [exact Hs|exact Hk].
Defined.

(** ** Failures over the wire *)

Definition remote_error (err : goerror) : goerror :=
  let code := ErrorCode (Some err) in
  if code =? "" then ErrorString (error_text err) else CodedError code (Some (ErrorString (error_text err))).

Lemma error_reply_clean (subject : string) (err : goerror) :
  clean_header (error_text err) = true -> clean_header (ErrorCode (Some err)) = true ->
  clean_headers (nm_Header (error_reply subject err)).
Proof. intros. simpl. auto. Qed.

Lemma read_error_reply `{Lib} `{NatsWire} (subject : string) (err : goerror) :
  clean_header (error_text err) = true -> clean_header (ErrorCode (Some err)) = true ->
  read_reply (transit (encode_reply subject (Err err))) =
    if error_text err =? "" then Ok None else Err (remote_error err).
Proof.
  intros Ht Hc. unfold encode_reply. rewrite transit_clean by (by apply error_reply_clean).
  unfold read_reply, remote_error, error_reply. change (header ?m ?k) with (hdr (nm_Header m) k).
  cbn [nm_Header nm_Data]. hdrs.
  destruct (ErrorCode (Some err) =? "") eqn:Ec; cbn [String.eqb Ascii.eqb Bool.eqb negb];
    destruct (error_text err =? "") eqn:Et; cbn [negb]; rewrite ?Ec; try reflexivity.
Qed.

Lemma remote_error_code (err : goerror) : ErrorCode (Some (remote_error err)) = ErrorCode (Some err).
Proof.
  unfold remote_error. destruct (String.eqb_spec (ErrorCode (Some err)) "") as [E|_]; [|done].
  rewrite E. reflexivity.
Qed.

Lemma remote_error_final (err : goerror) : ShouldRetry (Some (remote_error err)) = false.
Proof. unfold remote_error. by destruct (_ =? ""). Qed.



(** ** Redelivery *)

Lemma settle_nak (inbox : string) (res : result goerror (any goval)) `{Lib} `{NatsWire} :
  Nak ∈ settle inbox res -> inbox = "" /\ settle inbox res = [Nak] /\ is_ok res = false.
Proof.
  assert (Hno : forall a b : Action, Nak ∈ [a; b] -> a <> Nak -> b <> Nak -> False).
  { intros a b Hin Ha Hb. by apply elem_of_cons in Hin as [<-|<-%list_elem_of_singleton]. }
  unfold settle. destruct (String.eqb_spec inbox "") as [->|Hne], res as [v|err]; cbn [negb andb app is_ok].
  - by intros [=]%list_elem_of_singleton.
  - destruct (ShouldRetry (Some err)); [done|by intros [=]%list_elem_of_singleton].
  - intros []%Hno; done.
  - intros []%Hno; done.
Qed.

(** C2. A transient failure of a durable hop is never tried again: when the
    receiver hands the message back to the broker for redelivery, the failure is
    already in the step ledger as the hop's final record, so every later
    delivery of the message, to any handler, as long as the ledger is unchanged,
    reaches no component, changes nothing and is acknowledged as a success. *)
Theorem transient_failure_not_reexecuted {CS S} `{Env CS S} `{Lib} `{Kube} `{ExecLaws S} `{NatsWire}
    (p : nat) (e h : option (@Handler CS S)) (ctx : Ctx) (m : NatsMsg) (w w1 : World CS S)
    (acts : list Action) (r : Runner CS) :
  let msg := decode m in
  mono_handler e -> mono_handler h -> ledger_works S (m_RunID msg) ->
  plain_run (m_RunID msg) = true -> plain_key (StepLedgerKey (m_StepKey msg)) = true ->
  m_RunID msg <> "" -> m_StepKey msg <> "" ->
  w_runners w !! p = Some r -> rn_hasState r = true ->
  handleIncoming ctx (MsgHandler p e h) m w = Val acts w1 ->
  w_events w1 <> w_events w -> Nak ∈ acts ->
  (exists rec b, json_marshal_step rec = Ok b /\ sr_Status rec = StepStatusFailed /\
     exec_get (w_store w1) (m_RunID msg) (StepLedgerKey (m_StepKey msg)) = Ok (Some b)) /\
  forall e' h' ctx' w2, world_le w1 w2 -> w_store w2 = w_store w1 ->
    handleIncoming ctx' (MsgHandler p e' h') m w2 = Val [Ack] w2.
Proof.
  intros msg He Hh Hled Hrun Hkey Hid Hsk Hr Hst E Hev Hnak. unfold handleIncoming in E.
  bind_inv E res w' E1. injection E as <- <-. apply settle_nak in Hnak as (Hin & _ & Hres).
  destruct (delivery_recorded p e h ctx msg w w' res r) as [Hle Hrec]; try done.
  destruct Hrec as (q & run & rec & b & _ & _ & _ & _ & Hs & Hb & Hget). split.
  { exists rec, b. by rewrite Hres in Hs. }
  intros e' h' ctx' w2 Hle2 Hs2.
  destruct (le_runners _ _ Hle p r Hr) as (r1 & Hr1 & S1 & _).
  destruct (le_runners _ _ Hle2 p r1 Hr1) as (r2 & Hr2 & S2 & _).
  unfold handleIncoming. fold msg. unfold bind.
  rewrite (recorded_skips p e' h' ctx' msg w2 r2 b); try done.
  - unfold ret, settle. by rewrite Hin.
  - by apply (delivery_needs_port p e h ctx msg w w' res).
  - by rewrite S2, S1.
  - by rewrite Hs2.
Qed.

(** A component that is busy: its hop of run "r" is stored, delivered, sent
    back and delivered again. *)
Module Busy.

Definition busy : Component unit :=
  mkComponent "busy" "" "" [] tt (fun _ => [Sample.port "in"])
    (fun _ _ _ => Return (result_fail (Some (RetryableError (ErrorString "busy") true))))
    None None None None None None.

Definition runner : Runner unit :=
  set_hasState true (set_spec Sample.node ∅ (NewRunner busy 100 101)).

Definition world : World unit Sample.Store :=
  mkWorld 0 0 [] ∅ 0 ∅ [runner] ∅ ∅ {["a" := Sample.node]} [].

Definition stored : NatsMsg := durable_msg "m" Sample.hop.

Definition receive (w : World unit Sample.Store) : outcome unit Sample.Store (list Action) :=
  @handleIncoming _ _ sample_lib sample_wire background
    (@MsgHandler _ _ Sample.env sample_lib Sample.exec_store 0 None None) stored w.

Definition after : World unit Sample.Store := match receive world with Val _ w => w | _ => world end.

Lemma receive_val : receive world = Val [Nak] after.
Proof. vm_compute. reflexivity. Qed.

End Busy.

Lemma transient_failure_not_reexecuted_witness :
  Busy.receive Busy.world = Val [Nak] Busy.after /\ Busy.receive Busy.after = Val [Ack] Busy.after.
Proof.
  split; [exact Busy.receive_val|].
  assert (Hev : w_events Busy.after <> w_events Busy.world) by (by vm_compute).
  destruct (@transient_failure_not_reexecuted _ _ Sample.env sample_lib Sample.kube Sample.exec_store
    Sample.exec_laws sample_wire 0 None None background Busy.stored Busy.world Busy.after [Nak] Busy.runner
    Sample.no_handler_mono Sample.no_handler_mono Sample.ledger_ok
    eq_refl eq_refl) as [_ Hagain];
    [discriminate|discriminate|reflexivity|reflexivity|exact Busy.receive_val|exact Hev|by left|].
  exact (Hagain None None background Busy.after (reflexivity _) eq_refl).
Defined.
