(* ===== verification/Schema.v ===== *)
(** * JSON schemas of ports

    [pkg/schema]: a port's schema is a document whose [$defs] hold the
    definitions its fields refer to. Definitions marked configurable carry the
    shape an author gave a field, and are laid over the schemas of other ports
    ([schema.go]); schemas are compared for exports ([compare.go]); the JSON
    path of each definition and the shapes inferred from observed values are
    part of schema creation ([json.go]), whose reflection over Go types is
    third-party code.

    A node of [tiny-systems/ajson] is the JSON value under it. A clone, a
    replacement and a deletion below a node act on that value. *)
From S2P Require Import Prelude GoErrors Json.
From Stdlib Require Import SpecFloat.

Open Scope string_scope.
Open Scope list_scope.

(** ** Members of a node *)

Definition GetKey (v : json) (k : string) : option json :=
  match v with JObj m => obj_get k m | _ => None end.

(** (value, present) as an option; a member of another type reads as zero. *)
Definition GetStr (param : string) (v : json) : option string :=
  (fun c => match c with JStr s => s | _ => "" end) <$> GetKey v param.
Definition GetBool (param : string) (v : json) : option bool :=
  (fun c => match c with JBool b => b | _ => false end) <$> GetKey v param.
Definition GetInt (param : string) (v : json) : option Z :=
  (fun c => match c with JNum s => num_trunc s | _ => 0%Z end) <$> GetKey v param.

(** Setting a member fails on what is not an object. *)
Definition set_member (param : string) (x v : json) : option json :=
  match v with JObj m => Some (JObj (obj_set param x m)) | _ => None end.
Definition SetStr (param val : string) (v : json) : option json := set_member param (JStr val) v.
Definition SetBool (param : string) (val : bool) (v : json) : option json := set_member param (JBool val) v.
Definition SetInt (param : string) (val : Z) (v : json) : option json :=
  set_member param (JNum (go_itoa val)) v.

Definition HasProperties (n : json) : bool :=
  match GetKey n "properties" with Some (JObj (_ :: _)) => true | _ => false end.

Definition FilterConfigurable (node : json) : bool := default false (GetBool "configurable" node).
Definition FilterShared (node : json) : bool := default false (GetBool "shared" node).

(** [Keys] of what is not an object: an array's children have no key that
    [GetKey] accepts, anything else has no children. *)
Definition members (v : json) : option (list (string * json)) :=
  match v with JObj m => Some m | JArr (_ :: _) => None | _ => Some [] end.

Section schema.
  (** The parser and the printer of [ajson]. *)
  Variable unmarshal : string -> result goerror json.
  Variable marshal : json -> result goerror string.

Definition CollectDefinitions (s : string) (confDefs : gmap string json)
    (filter : option (json -> bool)) : gmap string json * error :=
  match unmarshal s with
  | Err e => (confDefs, Some (WrapError "error reading original schema: " e))
  | Ok node =>
      match GetKey node "$defs" with
      | None => (confDefs, Some (ErrorString "key not found"))
      | Some defs =>
          (fold_left (fun acc kd =>
             match filter with
             | Some f => if f kd.2 then <[kd.1 := kd.2]> acc else acc
             | None => <[kd.1 := kd.2]> acc
             end) (default [] (members defs)) confDefs, None)
      end
  end.

(** ** Laying definitions over a schema *)

Definition path_entry (m : gmap string json) (conf : json) : gmap string json :=
  match GetStr "path" conf with
  | Some p =>
      if p =? "" then m
      else match m !! p with
           | Some existing => if negb (HasProperties existing) then <[p := conf]> m else m
           | None => <[p := conf]> m
           end
  | None => m
  end.

(** By the definition's path, when it has one. *)
Definition by_path (pathToConf : gmap string json) (real : json) : option json :=
  match GetStr "path" real with
  | Some p => if p =? "" then None else pathToConf !! p
  | None => None
  end.

(** What replaces a definition, if anything does. *)
Definition chosen (confs pathToConf : gmap string json) (defKey : string) (real : json) : option json :=
  let conf := match confs !! defKey with
              | Some conf =>
                  if negb (HasProperties conf) then
                    match by_path pathToConf real with
                    | Some pathConf => if HasProperties pathConf then Some pathConf else Some conf
                    | None => Some conf
                    end
                  else Some conf
              | None => by_path pathToConf real
              end in
  match conf with
  | Some c => if negb (HasProperties c) && HasProperties real then None else Some c
  | None => None
  end.

(** The copy that takes the place of [real]: its path and its flags are kept,
    [required] is dropped. *)
Definition overlay (conf real : json) : result goerror json :=
  let c := match GetStr "path" real with
           | Some path => default conf (SetStr "path" path conf)
           | None => conf
           end in
  match SetBool "configurable" (default false (GetBool "configurable" real)) c with
  | None => Err (ErrorString "set bool error")
  | Some c =>
      let c := match GetBool "shared" real with
               | Some shared => default c (SetBool "shared" shared c)
               | None => c
               end in
      let c := if default false (GetBool "readonly" real) then default c (SetBool "readonly" true c) else c in
      Ok (match c with JObj m => JObj (obj_delete "required" m) | _ => c end)
  end.

Fixpoint update_defs (confs pathToConf : gmap string json) (defs : list (string * json))
    : result goerror (list (string * json)) :=
  match defs with
  | [] => Ok []
  | (defKey, real) :: defs' =>
      let! real' := match chosen confs pathToConf defKey real with
                    | Some conf => overlay conf real
                    | None => Ok real
                    end in
      let! rest := update_defs confs pathToConf defs' in
      Ok ((defKey, real') :: rest)
  end%go.

Definition UpdateWithDefinitions `{MapRange json} (realSchema : string) (confs : gmap string json)
    : result goerror string :=
  if realSchema =? "" then Ok realSchema
  else match unmarshal realSchema with
       | Err e => Err (WrapError "error reading original schema: " e)
       | Ok node =>
           match GetKey node "$defs" with
           | None => Ok realSchema
           | Some defs =>
               let pathToConf := fold_left path_entry (map snd (map_range confs)) ∅ in
               match members defs with
               | None => Err (ErrorString "unable to get original key")
               | Some ds =>
                   match update_defs confs pathToConf ds with
                   | Err e => Err e
                   | Ok ds' =>
                       marshal (match node, defs with
                                | JObj m, JObj _ => JObj (obj_set "$defs" (JObj ds') m)
                                | _, _ => node
                                end)
                   end
               end
           end
       end.

(** ** Removing attributes *)

Fixpoint removeAttributes (attributesToRemove : list string) (node : json) : json :=
  match node with
  | JObj m =>
      JObj ((fix go m := match m with
             | [] => []
             | (k, x) :: m' => if existsb (String.eqb k) attributesToRemove then go m'
                               else (k, removeAttributes attributesToRemove x) :: go m'
             end) m)
  | JArr l => JArr (map (removeAttributes attributesToRemove) l)
  | _ => node
  end.

Definition FilterSchemaAttributes (schemaBytes : string) (attributesToRemove : list string)
    : result goerror string :=
  match unmarshal schemaBytes with
  | Err e => Err (WrapError "failed to parse JSON: " e)
  | Ok root =>
      match marshal (removeAttributes attributesToRemove root) with
      | Err e => Err (WrapError "failed to marshal JSON: " e)
      | Ok s => Ok s
      end
  end.

(** ** Comparison *)

Definition HasCustomDefinitions (schemaBytes : string) : bool :=
  if schemaBytes =? "" then false
  else match unmarshal schemaBytes with
       | Err _ => false
       | Ok node =>
           match GetKey node "$defs" with
           | Some (JObj defs) => existsb (fun kd => default false (GetBool "configurable" kd.2)) defs
           | _ => false
           end
       end.

End schema.

(** [reflect.DeepEqual] of decoded values: maps by key, numbers as float64. *)
Section compare.
  Variable unmarshal : string -> option json.
  Variable num_eq : string -> string -> bool.

Fixpoint deep_equal (v w : json) {struct v} : bool :=
  match v, w with
  | JNull, JNull => true
  | JBool a, JBool b => Bool.eqb a b
  | JNum a, JNum b => num_eq a b
  | JStr a, JStr b => a =? b
  | JArr l, JArr k =>
      (fix go l k := match l, k with
       | [], [] => true
       | x :: l', y :: k' => deep_equal x y && go l' k'
       | _, _ => false
       end) l k
  | JObj m, JObj n =>
      (length m =? length n)%nat &&
      (fix go m := match m with
       | [] => true
       | (k, x) :: m' => match obj_get k n with Some y => deep_equal x y | None => false end && go m'
       end) m
  | _, _ => false
  end.

Definition SchemasEqual (schema1 schema2 : string) : bool :=
  if (schema1 =? "") && (schema2 =? "") then true
  else if (schema1 =? "") || (schema2 =? "") then false
  else match unmarshal schema1, unmarshal schema2 with
       | Some v, Some w => deep_equal v w
       | _, _ => false
       end.

(** Into a map: an object, or null, which leaves the map nil. *)
Definition SchemasEqualIgnoringDefinitions (schema1 schema2 : string) : bool :=
  if (schema1 =? "") && (schema2 =? "") then true
  else if (schema1 =? "") || (schema2 =? "") then false
  else match unmarshal schema1, unmarshal schema2 with
       | Some (JObj m), Some (JObj n) => deep_equal (JObj (obj_delete "$defs" m)) (JObj (obj_delete "$defs" n))
       | Some JNull, Some JNull => true
       | _, _ => false
       end.

End compare.

(** ** Paths of definitions

    Of a reflected definition: the references of its properties, and of its
    items when it is an array. *)
Record PropSchema := mkProp {
  p_ref : option string;           (* the name after "#/$defs/" *)
  p_array : bool;
  p_items : option (option string); (* its items, and what they refer to *)
}.

Record DefSchema := mkDef {
  d_props : gmap string PropSchema;
  d_array : bool;
  d_items : option (option string);
}.

Record tagDefinition := mkTag { td_Path : string; td_Definition : string }.

Definition prop_path (defs : gmap string DefSchema) (defName k : string) (v : PropSchema)
    : option (string * tagDefinition) :=
  let refDefP := match p_ref v with Some r => defs !! r | None => None end in
  let array := p_array v || match refDefP with Some d => d_array d | None => false end in
  let path := if array then k +:+ "[0]" else k in
  let ref := if array then
               match refDefP with
               | Some d => match d_items d with
                           | Some i => i
                           | None => match p_items v with Some i => i | None => p_ref v end
                           end
               | None => match p_items v with Some i => i | None => p_ref v end
               end
             else p_ref v in
  match ref with
  | None => None
  | Some from => if defName =? from then None else Some (from, mkTag path defName)
  end.

Definition definition_paths `{MapRange DefSchema} `{MapRange PropSchema} (defs : gmap string DefSchema)
    : gmap string tagDefinition :=
  fold_left (fun acc nd =>
    fold_left (fun acc kv =>
      match prop_path defs nd.1 kv.1 kv.2 with
      | Some (from, t) => <[from := t]> acc
      | None => acc
      end) (map_range (d_props nd.2)) acc)
    (map_range defs) ∅.

(** Following the parents; [None] is out of fuel. *)
Fixpoint getPath (fuel : nat) (defName : string) (all : gmap string tagDefinition) (path : list string)
    : option (list string) :=
  match fuel with
  | O => None
  | S fuel' =>
      match all !! defName with
      | Some p => getPath fuel' (td_Definition p) all (path ++ [td_Path p])
      | None => Some path
      end
  end.

Definition definition_path (all : gmap string tagDefinition) (defName : string) : option string :=
  (fun ps => go_join "." (reverse (ps ++ ["$"]))) <$> getPath (S (size all)) defName all [].

(** ** Shapes of observed values *)

Definition with_order (i : nat) (p : json) : json :=
  default p (set_member "propertyOrder" (JNum (go_itoa (Z.of_nat (S i)))) p).

Fixpoint inferValueSchema (v : json) : json :=
  match v with
  | JStr _ => JObj [("type", JStr "string"); ("default", v)]
  | JNum _ => JObj [("type", JStr "number"); ("default", v)]
  | JBool _ => JObj [("type", JStr "boolean"); ("default", v)]
  | JArr l =>
      JObj (("type", JStr "array") :: ("default", v) ::
            match l with x :: _ => [("items", inferValueSchema x)] | [] => [] end)
  | JObj m =>
      let schemas := (fix go m := match m with
                      | [] => []
                      | (k, x) :: m' => (k, inferValueSchema x) :: go m'
                      end) m in
      let sorted := sort_stable fst schemas in
      JObj [("type", JStr "object");
            ("properties", JObj (imap (fun i kp => (kp.1, with_order i kp.2)) sorted))]
  | JNull => JObj []
  end.
