(* ===== verification/SchemaSpec.v ===== *)
(** * Theorems on schemas

    What laying definitions over a schema keeps, the removal of attributes, the
    comparison of schemas, and the paths of definitions; then the schema of a Go
    value and the shape it is filled with. *)
From S2P Require Import Prelude GoErrors Json Schema.
From stdpp Require Import finite.

Open Scope string_scope.
Open Scope list_scope.

(** ** Laying definitions over a schema *)

Lemma get_set_member (v v' x : json) (k k' : string) :
  set_member k x v = Some v' -> GetKey v' k' = if k =? k' then Some x else GetKey v k'.
Proof.
  destruct v as [| | | | |m]; simpl; try done. intros [= <-]. cbn [GetKey]. apply obj_get_set.
Qed.

Lemma get_default_set (v x : json) (k k' : string) :
  (k =? k') = false -> GetKey (default v (set_member k x v)) k' = GetKey v k'.
Proof.
  intros Hk. destruct (set_member k x v) as [v'|] eqn:E; [|done]. simpl.
  rewrite (get_set_member _ _ _ _ k' E). by rewrite Hk.
Qed.

(** What a replaced definition keeps of the one it replaces. *)
Definition keeps (real real' : json) : Prop :=
  (forall p, GetStr "path" real = Some p -> GetStr "path" real' = Some p) /\
  GetBool "configurable" real' = Some (default false (GetBool "configurable" real)) /\
  (forall b, GetBool "shared" real = Some b -> GetBool "shared" real' = Some b) /\
  (GetBool "readonly" real = Some true -> GetBool "readonly" real' = Some true) /\
  GetKey real' "required" = None.

(** On an object every step is a plain update. *)
Lemma set_member_obj (k : string) (x : json) (m : list (string * json)) :
  set_member k x (JObj m) = Some (JObj (obj_set k x m)).
Proof. done. Qed.

Lemma overlay_obj (conf real real' : json) :
  overlay conf real = Ok real' -> exists m, conf = JObj m.
Proof.
  unfold overlay, SetBool, SetStr. destruct conf as [| | | | |m]; [..|by exists m];
    by destruct (GetStr "path" real).
Qed.

Lemma get_str_obj (k : string) (m : list (string * json)) :
  GetStr k (JObj m) = (fun c => match c with JStr s => s | _ => "" end) <$> obj_get k m.
Proof. done. Qed.

Lemma get_bool_obj (k : string) (m : list (string * json)) :
  GetBool k (JObj m) = (fun c => match c with JBool b => b | _ => false end) <$> obj_get k m.
Proof. done. Qed.

Lemma get_key_obj (k : string) (m : list (string * json)) : GetKey (JObj m) k = obj_get k m.
Proof. done. Qed.

Ltac get_sets :=
  rewrite ?get_str_obj, ?get_bool_obj, ?get_key_obj;
  repeat (rewrite obj_get_delete || rewrite obj_get_set); simpl.

Lemma overlay_keeps (conf real real' : json) :
  overlay conf real = Ok real' -> keeps real real' /\ HasProperties real' = HasProperties conf.
Proof.
  intros Ho. destruct (overlay_obj _ _ _ Ho) as [m ->]. unfold overlay, SetStr, SetBool in Ho.
  unfold keeps, HasProperties.
  destruct (GetStr "path" real) as [p|], (GetBool "shared" real) as [s|],
    (GetBool "readonly" real) as [[]|]; cbn in Ho; injection Ho as <-; get_sets;
    split_and!; done || congruence.
Qed.

Lemma chosen_properties (confs paths : gmap string json) (k : string) (real c : json) :
  chosen confs paths k real = Some c -> HasProperties real = true -> HasProperties c = true.
Proof.
  unfold chosen. destruct (match confs !! k with Some _ => _ | None => _ end) as [d|]; [|done].
  destruct (HasProperties d) eqn:E, (HasProperties real); simpl; congruence.
Qed.

Lemma update_defs_spec (confs paths : gmap string json) (ds ds' : list (string * json)) :
  update_defs confs paths ds = Ok ds' ->
  Forall2 (fun d d' => d'.1 = d.1 /\ (HasProperties d.2 = true -> HasProperties d'.2 = true) /\
    match chosen confs paths d.1 d.2 with None => d'.2 = d.2 | Some _ => keeps d.2 d'.2 end) ds ds'.
Proof.
  revert ds'. induction ds as [|[k real] ds IH]; intros ds'; simpl; [by intros [= <-]|].
  destruct (chosen confs paths k real) as [c|] eqn:Ec; simpl.
  - destruct (overlay c real) as [real'|] eqn:Eo; simpl; [|done].
    destruct (update_defs confs paths ds) as [rest|]; simpl; [|done]. intros [= <-].
    apply overlay_keeps in Eo as [Hk Hp]. constructor; [|by apply IH]. simpl. rewrite Ec.
    split_and!; [done| |done]. rewrite Hp. by apply (chosen_properties _ _ _ _ _ Ec).
  - destruct (update_defs confs paths ds) as [rest|]; simpl; [|done]. intros [= <-].
    constructor; [|by apply IH]. simpl. by rewrite Ec.
Qed.

(** Laying collected definitions over a port's schema changes nothing but its
    [$defs], and of each definition there: the name stays; one that nothing
    matches stays as it is; a replaced one keeps its path, its configurable,
    shared and readonly flags, and has no [required]; and a definition with
    explicit properties is never replaced by one without. *)
Theorem update_with_definitions_exact `{MapRange json} (unmarshal : string -> result goerror json)
    (marshal : json -> result goerror string) (real out : string) (confs : gmap string json)
    (m ds : list (string * json)) :
  UpdateWithDefinitions unmarshal marshal real confs = Ok out ->
  real <> "" -> unmarshal real = Ok (JObj m) -> obj_get "$defs" m = Some (JObj ds) ->
  exists ds', marshal (JObj (obj_set "$defs" (JObj ds') m)) = Ok out /\
    Forall2 (fun d d' => d'.1 = d.1 /\ (HasProperties d.2 = true -> HasProperties d'.2 = true) /\
      (d'.2 = d.2 \/ keeps d.2 d'.2) /\
      (confs !! d.1 = None -> GetStr "path" d.2 = None -> d'.2 = d.2)) ds ds'.
Proof.
  unfold UpdateWithDefinitions. intros Hu Hne Hun Hd. apply String.eqb_neq in Hne.
  rewrite Hne, Hun in Hu. cbn [GetKey] in Hu. rewrite Hd in Hu. cbn [members] in Hu.
  destruct (update_defs _ _ ds) as [ds'|] eqn:E; [|done]. exists ds'. split; [done|].
  eapply Forall2_impl; [by apply update_defs_spec|]. intros [k d] [k' d'] (Hk & Hp & Hc).
  split_and!; [done|done| |].
  - destruct (chosen _ _ _ _); [by right|by left].
  - intros Hn Hpath. unfold chosen, by_path in Hc. simpl in Hc. simpl in Hn, Hpath.
    rewrite Hn, Hpath in Hc. done.
Qed.

Lemma update_with_definitions_exact_witness :
  let doc bare := JObj [("$ref", JStr "#/$defs/A");
    ("$defs", JObj [("A", JObj [("type", JStr "object"); ("path", JStr "$")]); ("B", bare)])] in
  let conf := JObj [("path", JStr "$.b"); ("properties", JObj [("x", JObj [])]); ("required", JArr [])] in
  let bare := JObj [("path", JStr "$.b"); ("configurable", JBool true)] in
  let print v := if decide (v = doc (JObj [("path", JStr "$.b"); ("properties", JObj [("x", JObj [])]);
                                           ("configurable", JBool true)]))
                 then Ok "replaced" else Err (ErrorString "x") in
  exists ds', print (JObj (obj_set "$defs" (JObj ds') match doc bare with JObj m => m | _ => [] end)) = Ok "replaced".
Proof.
  set (range := map_range_some_order json).
  intros doc conf bare print.
  destruct (@update_with_definitions_exact range (fun _ => Ok (doc bare)) print "s" "replaced" {[ "Other" := conf ]}
    match doc bare with JObj m => m | _ => [] end
    [("A", JObj [("type", JStr "object"); ("path", JStr "$")]); ("B", bare)]) as (ds' & E & _).
  - vm_compute. reflexivity.
  - discriminate.
  - reflexivity.
  - reflexivity.
  - exists ds'. exact E.
Defined.

(** ** Removing attributes *)

(** The keys of every object in a value. *)
Fixpoint all_keys (v : json) : list string :=
  match v with
  | JObj m => (fix go m := match m with [] => [] | (k, x) :: m' => k :: all_keys x ++ go m' end) m
  | JArr l => (fix go l := match l with [] => [] | x :: l' => all_keys x ++ go l' end) l
  | _ => []
  end.

Lemma remove_obj (attrs : list string) (m : list (string * json)) :
  removeAttributes attrs (JObj m) =
    JObj (map (fun kv => (kv.1, removeAttributes attrs kv.2))
      (List.filter (fun kv => negb (existsb (String.eqb kv.1) attrs)) m)).
Proof.
  simpl. f_equal. induction m as [|[k x] m IH]; [done|]. simpl.
  destruct (existsb _ _); simpl; [done|]. by f_equal.
Qed.

Lemma existsb_eqb_in (k : string) (l : list string) : existsb (String.eqb k) l = true <-> k ∈ l.
Proof.
  rewrite existsb_exists. split.
  - intros (x & Hx & ->%String.eqb_eq). by apply list_elem_of_In.
  - intros Hk. exists k. split; [by apply list_elem_of_In|apply String.eqb_refl].
Qed.

(** Filtering a schema removes an attribute at every depth and nothing else: no
    object of the result has a removed key, a member under another key is that
    member filtered, and a document without the attributes stays as it is (so
    filtering twice is filtering once). *)
Theorem remove_attributes_exact (attrs : list string) (v : json) :
  (forall k, k ∈ all_keys (removeAttributes attrs v) -> k ∉ attrs) /\
  (forall k, k ∉ attrs -> GetKey (removeAttributes attrs v) k = removeAttributes attrs <$> GetKey v k) /\
  ((forall k, k ∈ all_keys v -> k ∉ attrs) -> removeAttributes attrs v = v) /\
  removeAttributes attrs (removeAttributes attrs v) = removeAttributes attrs v.
Proof.
  assert (Hkeys : forall w k, k ∈ all_keys (removeAttributes attrs w) -> k ∉ attrs).
  { intros w. induction w as [| | | |l IH|m IH] using json_nested_ind; intros k Hk;
      try by apply not_elem_of_nil in Hk.
    - simpl in Hk. induction IH as [|x l Hx _ IHl]; [by apply not_elem_of_nil in Hk|].
      simpl in Hk. apply elem_of_app in Hk as [Hk|Hk]; [by apply Hx|by apply IHl].
    - rewrite remove_obj in Hk. simpl in Hk. induction IH as [|[k' x] m Hx _ IHm];
        [by apply not_elem_of_nil in Hk|]. simpl in Hk, Hx. destruct (existsb (String.eqb k') attrs) eqn:E; simpl in Hk; [by apply IHm|].
      apply elem_of_cons in Hk as [->|Hk]; [by rewrite <- existsb_eqb_in, E|].
      apply elem_of_app in Hk as [Hk|Hk]; [by apply Hx|by apply IHm]. }
  assert (Hid : forall w, (forall k, k ∈ all_keys w -> k ∉ attrs) -> removeAttributes attrs w = w).
  { intros w. induction w as [| | | |l IH|m IH] using json_nested_ind; intros Hk; try done.
    - simpl. f_equal. induction IH as [|x l Hx _ IHl]; [done|]. simpl in *.
      rewrite Hx, IHl; [done|..]; intros k Hin; apply Hk, elem_of_app; auto.
    - rewrite remove_obj. f_equal. induction IH as [|[k' x] m Hx _ IHm]; [done|]. simpl in *.
      destruct (existsb (String.eqb k') attrs) eqn:E.
      { apply existsb_eqb_in in E. by apply Hk in E; [|left]. }
      simpl. rewrite Hx, IHm; [done|..]; intros k Hin; apply Hk; right; apply elem_of_app; auto. }
  split_and!; [apply Hkeys| |apply Hid|by apply Hid, Hkeys].
  intros k Hk. destruct v as [| | | | |m]; try done. rewrite remove_obj. cbn [GetKey].
  unfold obj_get. induction m as [|[k' x] m IH]; [done|]. simpl.
  destruct (String.eqb_spec k' k) as [->|Hne].
  - destruct (existsb (String.eqb k) attrs) eqn:E; [by apply existsb_eqb_in in E|]. simpl. by rewrite String.eqb_refl.
  - destruct (existsb _ _); simpl; [done|]. apply String.eqb_neq in Hne. by rewrite Hne.
Qed.

(** ** Paths of definitions *)

(** The definition [n] parents up. *)
Fixpoint ancestor (all : gmap string tagDefinition) (n : nat) (d : string) : option string :=
  match n with
  | O => Some d
  | S n' => match all !! d with Some p => ancestor all n' (td_Definition p) | None => None end
  end.

Lemma get_path_steps (fuel : nat) (all : gmap string tagDefinition) (d : string) (path : list string) :
  getPath fuel d all path = None <-> is_Some (ancestor all fuel d).
Proof.
  revert d path. induction fuel as [|fuel IH]; intros d path; simpl; [by split; [exists d|]|].
  destruct (all !! d) as [p|]; [apply IH|]. split; [done|]. by intros [? ?].
Qed.

Lemma ancestor_add (all : gmap string tagDefinition) (n k : nat) (d : string) :
  ancestor all (n + k) d = match ancestor all n d with Some e => ancestor all k e | None => None end.
Proof.
  revert d. induction n as [|n IH]; intros d; [done|]. simpl. by destruct (all !! d).
Qed.

Lemma ancestor_dom (all : gmap string tagDefinition) (n : nat) (d e : string) :
  ancestor all n d = Some e -> is_Some (ancestor all (S n) d) -> e ∈ dom all.
Proof.
  intros He [x Hx]. replace (S n) with (n + 1)%nat in Hx by lia.
  rewrite ancestor_add, He in Hx. simpl in Hx. apply elem_of_dom. by destruct (all !! e).
Qed.

(** As many steps as there are definitions with a parent repeat one, and then
    the chain goes on for ever. *)
Lemma ancestor_forever (all : gmap string tagDefinition) (d : string) :
  is_Some (ancestor all (S (size all)) d) -> forall n, is_Some (ancestor all n d).
Proof.
  intros Hs.
  assert (Hall : forall i, (i <= S (size all))%nat -> is_Some (ancestor all i d)).
  { intros i Hi. replace (S (size all)) with (i + (S (size all) - i))%nat in Hs by lia.
    rewrite ancestor_add in Hs. destruct (ancestor all i d); [by eexists|by destruct Hs]. }
  set (f i := default d (ancestor all i d)).
  assert (Hf : forall i, (i <= S (size all))%nat -> ancestor all i d = Some (f i)).
  { intros i Hi. unfold f. destruct (Hall i Hi) as [x ->]. done. }
  set (l := map f (seq 0 (S (size all)))).
  assert (Hl : forall i x, l !! i = Some x -> (i < S (size all))%nat /\ x = f i).
  { intros i x Hi. unfold l in Hi. rewrite list_lookup_fmap in Hi.
    apply fmap_Some in Hi as (y & Hy & ->). apply lookup_seq in Hy as [-> Hy]. by split. }
  assert (Hrep : exists i j, (i < j < S (size all))%nat /\ f i = f j).
  { destruct (list_pigeonhole l (elements (dom all))) as (i & j & x & Hij & Hi & Hj).
    - intros x (i & Hi)%list_elem_of_lookup. apply Hl in Hi as [Hi ->].
      apply elem_of_elements, (ancestor_dom all i d); [apply Hf; lia|apply Hall; lia].
    - unfold l. rewrite length_map, length_seq.
      change (length (elements (dom all))) with (size (dom all)). rewrite size_dom. lia.
    - exists i, j. apply Hl in Hi as [Hi Ei], Hj as [Hj Ej]. split; [lia|congruence]. }
  destruct Hrep as (i & j & Hij & E).
  assert (Hloop : forall k, ancestor all (j + k) d = ancestor all (i + k) d).
  { intros k. rewrite !ancestor_add, (Hf i), (Hf j) by lia. by rewrite E. }
  intros n. induction n as [n IH] using lt_wf_ind.
  destruct (decide (n <= S (size all))%nat) as [Hle|Hgt]; [by apply Hall|].
  replace n with (j + (n - j))%nat by lia. rewrite Hloop. apply IH. lia.
Qed.

(** The path of a definition is computed when its parents end: if any number of
    steps is enough, as many as there are definitions and one are; otherwise
    [getPath] never returns. The guard against a definition that is its own
    parent does not rule that out: of two definitions that refer to each other
    each is the other's parent. *)
Theorem get_path_terminates (all : gmap string tagDefinition) (d : string) (path : list string) :
  ((exists fuel, is_Some (getPath fuel d all path)) <-> is_Some (definition_path all d)) /\
  (definition_path all d = None <-> forall fuel, getPath fuel d all path = None).
Proof.
  assert (Hdp : definition_path all d = None <-> getPath (S (size all)) d all [] = None).
  { unfold definition_path. by destruct (getPath _ _ _ _). }
  assert (Hnone : definition_path all d = None <-> forall fuel, getPath fuel d all path = None).
  { rewrite Hdp, get_path_steps. split.
    - intros Hs fuel. apply get_path_steps. by apply ancestor_forever.
    - intros Hn. by apply (get_path_steps _ _ _ path). }
  split; [|done]. split.
  - intros (fuel & x & Hx). destruct (definition_path all d) eqn:E; [by eexists|].
    rewrite (proj1 Hnone eq_refl) in Hx. done.
  - intros Hs. exists (S (size all)). destruct (getPath (S (size all)) d all path) eqn:E; [by eexists|].
    apply get_path_steps in E. assert (E' : getPath (S (size all)) d all [] = None) by by apply get_path_steps.
    apply Hdp in E'. rewrite E' in Hs. by destruct Hs.
Qed.

(** Definitions of two types that refer to each other: no path of either ends. *)
Example mutual_definitions :
  let defs : gmap string DefSchema :=
    {[ "A" := mkDef {[ "b" := mkProp (Some "B") false None ]} false None;
       "B" := mkDef {[ "a" := mkProp (Some "A") false None ]} false None ]} in
  let all := @definition_paths (map_range_some_order _) (map_range_some_order _) defs in
  definition_path all "A" = None /\ forall fuel, getPath fuel "A" all [] = None.
Proof.
  cbv zeta. split; [vm_compute; reflexivity|]. apply get_path_terminates. vm_compute. reflexivity.
Qed.

(** * The shape of an observed value, in a schema

    [pkg/schema/json.go], [enrichDefsFromValue]: reflection over a field of any
    type says no more than "object"; the live value says which keys it has. The
    definitions of a reflected schema are walked along the value, and the bare
    objects among them get the properties of [Schema.inferValueSchema].

    A schema is decoded JSON, as it is encoded. The walk goes into a definition
    once, whoever refers to it first; its fuel is the depth of the walk. *)

Abbreviation obj := (list (string * json)).
Abbreviation Defs := (gmap string json).
(** The definitions, and those walked already. *)
Abbreviation Walk := (Defs * gset string)%type.

Definition ref_name (m : obj) : option string := (fun r => go_trim_prefix r "#/$defs/") <$> (obj_get "$ref" m ≫= as_str).

Definition explicit_props (m : obj) : obj := default [] (obj_get "properties" m ≫= as_obj).

(** [s.HasType]: one type or several. *)
Definition HasType (m : obj) (t : string) : bool :=
  match obj_get "type" m with
  | Some (JStr s) => s =? t
  | Some (JArr l) => existsb (fun v => bool_decide (v = JStr t)) l
  | _ => false
  end.

Definition untyped (m : obj) : bool := match obj_get "type" m with None => true | Some _ => false end.

(** The properties of the keys that were observed, in the order of their names. *)
Definition observed_props (vm : obj) : obj :=
  imap (fun i kv => (kv.1, with_order i (inferValueSchema kv.2))) (sort_stable fst vm).

(** The observed keys that are declared, one after the other. *)
Definition walk_props (walk : json -> json -> Walk -> option (json * Walk)) (vm props : obj) (st : Walk) : option (obj * Walk) :=
  fold_left (fun acc kv =>
    '(props, st) ← acc;
    match obj_get kv.1 props with
    | None => Some (props, st)
    | Some p => '(p', st') ← walk p kv.2 st; Some (obj_set kv.1 p' props, st')
    end) vm (Some (props, st)).

Definition walk_def (walk : json -> json -> Walk -> option (json * Walk)) (name : string) (v : json) (st : Walk) : option Walk :=
  if decide (name ∈ st.2) then Some st
  else
    let seen := {[name]} ∪ st.2 in
    match st.1 !! name with
    | None => Some (st.1, seen)
    | Some def => '(def', st') ← walk def v (st.1, seen); Some (<[name := def']> st'.1, st'.2)
    end.

(** Where a value was seen for an object schema. *)
Definition walk_value (walk : json -> json -> Walk -> option (json * Walk)) (m : obj) (v : json) (st : Walk) : option (json * Walk) :=
  match ref_name m with
  | Some name => st' ← walk_def walk name v st; Some (JObj m, st')
  | None =>
      match v with
      | JArr (x :: _) =>
          match obj_get "items" m with
          | Some (JObj i) => '(i', st') ← walk (JObj i) x st; Some (JObj (obj_set "items" i' m), st')
          | _ => Some (JObj m, st)
          end
      | JObj ((_ :: _) as vm) =>
          match explicit_props m with
          | [] => if untyped m || HasType m "object"
                  then Some (JObj (obj_set "properties" (JObj (observed_props vm)) m), st) else Some (JObj m, st)
          | props => '(props', st') ← walk_props walk vm props st; Some (JObj (obj_set "properties" (JObj props') m), st')
          end
      | _ => Some (JObj m, st)
      end
  end.

Fixpoint walkSchema (fuel : nat) (s v : json) (st : Walk) : option (json * Walk) :=
  match fuel with
  | O => None
  | S fuel' =>
      match s, v with
      | JObj _, JNull => Some (s, st)
      | JObj m, _ => walk_value (walkSchema fuel') m v st
      | _, _ => Some (s, st)
      end
  end.

Fixpoint json_size (v : json) : nat :=
  match v with
  | JArr l => S (list_sum (map json_size l))
  | JObj m => S (list_sum (map (fun kv => json_size kv.2) m))
  | _ => 1
  end.

(** [encoded] is the value as it is encoded and decoded again, if it can be. *)
Definition enrichDefsFromValue (defs : Defs) (rootDefName : string) (encoded : option json) : option Defs :=
  match encoded with
  | None => Some defs
  | Some value => fst <$> walk_def (walkSchema (S (json_size value + size defs))) rootDefName value (defs, ∅)
  end.

(** ** What the walk does to a schema *)

(** A schema is filled: a bare object below it gets the properties observed. *)
Inductive filled : json -> json -> Prop :=
  | FilledNot s : filled s s
  | FilledBare m vm : explicit_props m = [] -> untyped m || HasType m "object" = true ->
      filled (JObj m) (JObj (obj_set "properties" (JObj (observed_props vm)) m))
  | FilledItems m i i' : obj_get "items" m = Some i -> filled i i' -> filled (JObj m) (JObj (obj_set "items" i' m))
  | FilledProp m k p p' : obj_get k (explicit_props m) = Some p -> filled p p' ->
      filled (JObj m) (JObj (obj_set "properties" (JObj (obj_set k p' (explicit_props m))) m))
  | FilledTwice s1 s2 s3 : filled s1 s2 -> filled s2 s3 -> filled s1 s3.

#[export] Instance filled_preorder : PreOrder filled.
Proof. split; [exact FilledNot|exact FilledTwice]. Qed.

Lemma obj_set_same (k : string) (v : json) (m : obj) : obj_get k m = Some v -> obj_set k v m = m.
Proof.
  induction m as [|[k' v'] m IH]; [done|]. rewrite obj_get_cons. cbn [obj_set].
  destruct (String.eqb_spec k' k) as [->|]; [by intros [= ->]|]. intros H. by rewrite IH.
Qed.

Lemma obj_set_set (k : string) (v w : json) (m : obj) : obj_set k w (obj_set k v m) = obj_set k w m.
Proof.
  induction m as [|[k' v'] m IH]; cbn [obj_set]; [by rewrite String.eqb_refl|].
  destruct (String.eqb_spec k' k) as [->|Hk]; cbn [obj_set]; [by rewrite String.eqb_refl|].
  destruct (String.eqb_spec k' k); [done|]. by rewrite IH.
Qed.

(** Properties that are filled one by one fill the schema they belong to. *)
Lemma filled_props_step (m props : obj) (k : string) (p p' : json) :
  props <> [] -> obj_get k props = Some p -> filled p p' ->
  filled (JObj (obj_set "properties" (JObj props) m)) (JObj (obj_set "properties" (JObj (obj_set k p' props)) m)).
Proof.
  intros _ Hk Hp. pose proof (FilledProp (obj_set "properties" (JObj props) m) k p p') as H.
  assert (He : explicit_props (obj_set "properties" (JObj props) m) = props) by (unfold explicit_props; by rewrite obj_get_set).
  rewrite He, obj_set_set in H. by apply H.
Qed.

(** ** The walk ends *)

(** The definitions not walked yet. *)
Definition left_over (st : Walk) : nat := size (dom st.1 ∖ st.2).

(** The walk goes on: with the same definitions, filled, never fewer seen. *)
Record later (st st' : Walk) : Prop := Later {
  later_seen : st.2 ⊆ st'.2;
  later_filled : map_relation (fun _ => filled) (fun _ _ => False) (fun _ _ => False) st.1 st'.1 }.

Lemma later_dom (st st' : Walk) : later st st' -> dom st.1 = dom st'.1.
Proof.
  intros [_ H]. apply set_eq. intros x. rewrite !elem_of_dom. specialize (H x).
  destruct (st.1 !! x), (st'.1 !! x); cbn in H; try done; split; intros [y Hy]; by eexists.
Qed.

Lemma later_left (st st' : Walk) : later st st' -> (left_over st' <= left_over st)%nat.
Proof. intros H. unfold left_over. apply subseteq_size. rewrite (later_dom _ _ H). pose proof (later_seen _ _ H). set_solver. Qed.

Lemma same_defs_later (defs : Defs) (seen seen' : gset string) : seen ⊆ seen' -> later (defs, seen) (defs, seen').
Proof. intros Hs. split; [done|]. intros x. cbn. destruct (defs !! x); cbn; [apply FilledNot|done]. Qed.

#[export] Instance later_preorder : PreOrder later.
Proof.
  split; [intros [defs seen]; by apply same_defs_later|]. intros a b c [H1 H2] [H3 H4]. split; [set_solver|].
  intros x. specialize (H2 x). specialize (H4 x). destruct (a.1 !! x), (b.1 !! x), (c.1 !! x); cbn in *; try done. by etrans.
Qed.

Definition ends_by (walk : json -> json -> Walk -> option (json * Walk)) (n : nat) : Prop :=
  forall s v st, (json_size v + left_over st < n)%nat -> exists s' st', walk s v st = Some (s', st') /\ filled s s' /\ later st st'.

Lemma walk_def_ends (walk : json -> json -> Walk -> option (json * Walk)) (n : nat) (name : string) (v : json) (st : Walk) :
  ends_by walk n -> (json_size v + left_over st < S n)%nat -> exists st', walk_def walk name v st = Some st' /\ later st st'.
Proof.
  intros Hw Hn. unfold walk_def. destruct st as [defs seen]. cbn [fst snd].
  destruct (decide (name ∈ seen)) as [|Hnew]; [by eexists|].
  assert (Hl : later (defs, seen) (defs, {[name]} ∪ seen)) by (apply same_defs_later; set_solver).
  destruct (defs !! name) as [def|] eqn:Ed; [|by eexists].
  assert (Hlt : (left_over (defs, {[name]} ∪ seen) < left_over (defs, seen))%nat).
  { unfold left_over. cbn. apply subset_size. apply elem_of_dom_2 in Ed. set_solver. }
  destruct (Hw def v (defs, {[name]} ∪ seen)) as (def' & st' & -> & Hf & Hlater); [lia|]. cbn. eexists. split; [done|].
  etrans; [exact Hl|]. destruct Hlater as [H1 H2]. split; cbn; [exact H1|]. intros x. specialize (H2 x). cbn in H2.
  destruct (decide (x = name)) as [->|Hx]; [rewrite lookup_insert_eq; by rewrite Ed|by rewrite lookup_insert_ne].
Qed.

Lemma walk_props_ends (walk : json -> json -> Walk -> option (json * Walk)) (n : nat) (m vm props : obj) (st : Walk) :
  ends_by walk n -> props <> [] -> (forall kv, kv ∈ vm -> json_size kv.2 + left_over st < n)%nat ->
  exists props' st', walk_props walk vm props st = Some (props', st') /\
    filled (JObj (obj_set "properties" (JObj props) m)) (JObj (obj_set "properties" (JObj props') m)) /\ later st st'.
Proof.
  intros Hw. unfold walk_props. revert props st. induction vm as [|kv vm IH]; intros props st Hne Hn; [by exists props, st|].
  cbn [fold_left]. cbn [mbind option_bind].
  destruct (obj_get kv.1 props) as [p|] eqn:Ep.
  - destruct (Hw p kv.2 st) as (p' & st' & -> & Hf & Hl); [apply Hn; set_solver|]. cbn [mbind option_bind].
    destruct (IH (obj_set kv.1 p' props) st') as (props' & st'' & -> & Hf' & Hl').
    { destruct props as [|[k q] props]; [done|]. cbn [obj_set]. by case_match. }
    { intros kv' Hin. pose proof (later_left st st' Hl). specialize (Hn kv' ltac:(set_solver)). lia. }
    exists props', st''. split_and!; [done| |by etrans]. etrans; [|exact Hf']. by eapply filled_props_step.
  - apply IH; [done|]. intros kv' Hin. apply Hn. set_solver.
Qed.

Lemma member_size (m : obj) (kv : string * json) : kv ∈ m -> (json_size kv.2 < json_size (JObj m))%nat.
Proof. induction 1 as [kv m|kv kv' m _ IH]; simpl in *; lia. Qed.

Lemma element_size (l : list json) (v : json) : v ∈ l -> (json_size v < json_size (JArr l))%nat.
Proof. induction 1 as [v l|v v' l _ IH]; simpl in *; lia. Qed.

Lemma walk_value_ends (walk : json -> json -> Walk -> option (json * Walk)) (n : nat) (m : obj) (v : json) (st : Walk) :
  ends_by walk n -> (json_size v + left_over st < S n)%nat ->
  exists s' st', walk_value walk m v st = Some (s', st') /\ filled (JObj m) s' /\ later st st'.
Proof.
  intros IH Hn. unfold walk_value.
  assert (Hstay : exists s' st', Some (JObj m, st) = Some (s', st') /\ filled (JObj m) s' /\ later st st') by (by exists (JObj m), st).
  destruct (ref_name m) as [name|].
  { destruct (walk_def_ends walk n name v st IH Hn) as (st' & -> & Hl). by exists (JObj m), st'. }
  destruct v as [| | | |[|x l]|[|kv vm]]; try exact Hstay.
  - destruct (obj_get "items" m) as [[| | | | |i]|] eqn:Ei; try exact Hstay.
    destruct (IH (JObj i) x st) as (i' & st' & -> & Hf & Hl); [pose proof (element_size (x :: l) x ltac:(set_solver)); lia|].
    eexists _, st'. split_and!; [done|by apply (FilledItems m (JObj i))|done].
  - destruct (explicit_props m) as [|p props] eqn:Ep.
    + destruct (_ || _) eqn:Et; [|exact Hstay]. eexists _, st. split_and!; [done|by apply FilledBare|done].
    + destruct (walk_props_ends walk n m (kv :: vm) (p :: props) st IH) as (props' & st' & -> & Hf & Hl); [done| |].
      { intros kv' Hin. pose proof (member_size _ _ Hin). lia. }
      rewrite obj_set_same in Hf; [by eexists _, st'|].
      unfold explicit_props in Ep. destruct (obj_get "properties" m) as [[| | | | |ps]|]; cbn in Ep; try done. by rewrite Ep.
Qed.

Lemma walkSchema_ends (fuel : nat) : ends_by (walkSchema fuel) fuel.
Proof.
  induction fuel as [|fuel IH]; intros s v st Hn; [lia|]. cbn [walkSchema].
  destruct s as [| | | | |m]; try (by eexists _, st). pose proof (walk_value_ends _ fuel m v st IH Hn).
  destruct v; try done. by eexists _, st.
Qed.

Lemma enriched (defs : Defs) (rootDefName : string) (encoded : option json) :
  exists st : Walk, enrichDefsFromValue defs rootDefName encoded = Some st.1 /\ later (defs, ∅) st.
Proof.
  destruct encoded as [v|]; [|by exists (defs, ∅)]. cbn [enrichDefsFromValue].
  destruct (walk_def_ends (walkSchema (S (json_size v + size defs))) (S (json_size v + size defs)) rootDefName v (defs, ∅)) as (st & -> & Hl).
  - apply walkSchema_ends.
  - unfold left_over. cbn [fst snd]. pose proof (size_dom defs). assert (dom defs ∖ ∅ = dom defs) as -> by set_solver. lia.
  - by exists st.
Qed.


(** A settings struct with two fields of one bare type: the shape the second
    field was seen with is dropped, and which field is second is the order in
    which the keys of a map are visited. *)
Example shared_definition_takes_the_first_shape :
  let ref := JObj [("$ref", JStr "#/$defs/Any")] in
  let defs : Defs := list_to_map [("Settings", JObj [("type", JStr "object"); ("properties", JObj [("left", ref); ("right", ref)])]); ("Any", JObj [])] in
  let seen order := (fun d : Defs => option_bind _ _ (obj_get "properties") (option_bind _ _ as_obj (d !! "Any"))) <$> enrichDefsFromValue defs "Settings" (Some (JObj order)) in
  let left := ("left", JObj [("x", JBool true)]) in
  let right := ("right", JObj [("y", JStr "s")]) in
  seen [left; right] = Some (Some (JObj [("x", JObj [("type", JStr "boolean"); ("default", JBool true); ("propertyOrder", JNum "1")])])) /\
  seen [right; left] = Some (Some (JObj [("y", JObj [("type", JStr "string"); ("default", JStr "s"); ("propertyOrder", JNum "1")])])).
Proof. vm_compute. split; reflexivity. Qed.

(** *** The schema of a Go value

    [CreateSchema]: the reflector visits the properties of a type and hands each
    to a hook that makes definitions of objects, lists, and whatever is shared or
    configurable; then the paths of the definitions, and what the value shows.
    The reflector is the class [Reflector]; the order in which it comes to the
    properties is its own. *)

(** A reflected schema, as it is edited before it is encoded: its reference (the
    name after "#/$defs/"), types, items, properties, what is set on it by name,
    and the rest. *)
Inductive RSchema := mkRSchema {
  s_Ref : option string; s_Type : option (list string); s_Items : option RSchema;
  s_Properties : list (string * RSchema); s_Extra : list (string * json); s_rest : list (string * json) }.

Inductive Kind := KPtr | KSlice | KArray | KInterface | KOther.

(** A type as names are made of it, with the name of what it points to or holds. *)
Record RType := mkRType { rt_Name : string; rt_Kind : Kind; rt_Elem : string }.

(** What the reflector says of a property it comes to. *)
Record PropParams := mkPropParams {
  pp_Path : list string; pp_Type : RType; pp_Tag : list (string * string); pp_Processed : bool }.

(** The definitions so far, and how many properties a path had. *)
Record Gen := mkGen { g_defs : gmap string RSchema; g_idx : gmap string nat }.

Definition scalarCustomProps : list string :=
  ["requiredWhen"; "propertyOrder"; "optionalWhen"; "colSpan"; "tab"; "align"; "configurable"; "shared"; "$ref"; "type"; "readonly"; "format"; "language"].
Definition arrayCustomProps : list string := ["enumTitles"].

Definition with_ref (r : option string) (s : RSchema) : RSchema :=
  mkRSchema r (s_Type s) (s_Items s) (s_Properties s) (s_Extra s) (s_rest s).
Definition with_items (i : option RSchema) (s : RSchema) : RSchema :=
  mkRSchema (s_Ref s) (s_Type s) i (s_Properties s) (s_Extra s) (s_rest s).
Definition WithExtraPropertiesItem (k : string) (v : json) (s : RSchema) : RSchema :=
  mkRSchema (s_Ref s) (s_Type s) (s_Items s) (s_Properties s) (obj_set k v (s_Extra s)) (s_rest s).
Definition ref_only (name : string) : RSchema := mkRSchema (Some name) None None [] [] [].

Definition has_type (t : string) (s : RSchema) : bool :=
  match s_Type s with Some ts => existsb (String.eqb t) ts | None => false end.
Definition interfaceBool (v : option json) : bool := match v with Some (JBool b) => b | _ => false end.

Section create.
  (** The title case of a name, and how a number in a tag is written. *)
  Variable Title : string -> string.
  Variable parse_float : string -> option string.

Definition getDefinitionName (t : RType) : string :=
  Title (match rt_Kind t with KPtr => rt_Elem t | _ => rt_Name t end).
Definition getDefinitionNameArray (t : RType) : string :=
  Title (match rt_Kind t with KSlice | KArray => rt_Elem t | _ => rt_Name t end).

(** A schema becomes a definition, where its type has a name. *)
Definition replaceRoot (defName : string) (s : RSchema) (g : Gen) : RSchema * Gen :=
  if defName =? "" then (s, g)
  else (ref_only defName, mkGen (<[defName := with_ref None s]> (g_defs g)) (g_idx g)).

Definition tag_value (prop : string) : json :=
  if (prop =? "true") || (prop =? "false") then JBool (prop =? "true")
  else match parse_float prop with
       | Some n => JNum n
       | None => match go_atoi prop with Some i => JNum (go_itoa i) | None => JStr prop end
       end.

Definition custom_props (tag : list (string * string)) (s : RSchema) : RSchema :=
  let lookup cp := snd <$> list_find (fun kv => kv.1 = cp) tag in
  let scalars := fold_left (fun s cp => match lookup cp with Some kv => WithExtraPropertiesItem cp (tag_value kv.2) s | None => s end) scalarCustomProps s in
  fold_left (fun s cp => match lookup cp with Some kv => WithExtraPropertiesItem cp (JArr (map JStr (go_split "," kv.2))) s | None => s end) arrayCustomProps scalars.

Definition item_name (t : RType) : string :=
  match rt_Kind t with KInterface => getDefinitionName t +:+ "Item" | _ => getDefinitionNameArray t end.

(** The items of a list are a definition of their own. *)
Definition replace_items (t : RType) (shared configurable : bool) (s : RSchema) (g : Gen) : RSchema * Gen :=
  match s_Items s with
  | None => (s, g)
  | Some i =>
      let i := if shared then WithExtraPropertiesItem "shared" (JBool true) i else i in
      let i := if configurable then WithExtraPropertiesItem "configurable" (JBool true) i else i in
      let '(r, g) := replaceRoot (item_name t) i g in
      (with_items (Some r) s, g)
  end.

(** The hook that sees every property, before and after it is reflected. *)
Definition intercept (p : PropParams) (s : RSchema) (g : Gen) : RSchema * Gen :=
  if negb (pp_Processed p) then (s, g)
  else
    let propPath := String.concat "" (pp_Path p) in
    let order := S (default 0%nat (g_idx g !! propPath)) in
    let g := mkGen (g_defs g) (<[propPath := order]> (g_idx g)) in
    let s := custom_props (pp_Tag p) s in
    let configurable := interfaceBool (obj_get "configurable" (s_Extra s)) in
    let shared := interfaceBool (obj_get "shared" (s_Extra s)) in
    let '(s, g) := replace_items (pp_Type p) shared configurable s g in
    let '(s, g) :=
      if configurable || shared || has_type "object" s || has_type "array" s || (if s_Type s then false else true)
      then replaceRoot (getDefinitionName (pp_Type p)) s g else (s, g) in
    (WithExtraPropertiesItem "propertyOrder" (JNum (go_itoa (Z.of_nat order))) s, g).

(** What the paths are made of. *)
Definition prop_of (s : RSchema) : PropSchema := mkProp (s_Ref s) (has_type "array" s) (s_Ref <$> s_Items s).
Definition def_of (s : RSchema) : DefSchema :=
  mkDef (list_to_map (map (fun kv => (kv.1, prop_of kv.2)) (s_Properties s))) (has_type "array" s) (s_Ref <$> s_Items s).

Definition with_paths (all : gmap string tagDefinition) (defs : gmap string RSchema) : option (gmap string RSchema) :=
  if decide (map_Forall (fun name _ => definition_path all name <> None) defs)
  then Some (map_imap (fun name s => (fun p => WithExtraPropertiesItem "path" (JStr p) s) <$> definition_path all name) defs)
  else None.

(** The references of a schema, and definitions that refer to each other only. *)
Fixpoint refs (s : RSchema) : list string :=
  match s with mkRSchema r _ i ps _ _ =>
    option_list r ++ match i with Some i => refs i | None => [] end ++ flat_map (fun kv => refs kv.2) ps
  end.

Definition closed (defs : gmap string RSchema) : Prop :=
  forall n s, defs !! n = Some s -> forall r, r ∈ refs s -> r ∈ dom defs.

Definition grows (g g' : Gen) : Prop := dom (g_defs g) ⊆ dom (g_defs g') /\ (closed (g_defs g) -> closed (g_defs g')).
Definition resolved (g : Gen) (s : RSchema) : Prop := forall r, r ∈ refs s -> r ∈ dom (g_defs g).

(** The reflector with its references inlined: it builds a schema of parts, and
    hands each property to the hook. It puts no reference of its own, so what
    holds of schemas without one and is kept by the hook holds of its result. *)
Class Reflector := {
  Value : Type;
  type_of : Value -> RType;
  reflect : (PropParams -> RSchema -> Gen -> RSchema * Gen) -> Value -> Gen -> result goerror RSchema * Gen;
  reflect_keeps : forall hook (R : relation Gen) (ok : Gen -> RSchema -> Prop),
    PreOrder R ->
    (forall g g' s, R g g' -> ok g s -> ok g' s) ->
    (forall g t i ps ex rest, from_option (ok g) True i -> Forall (fun kv => ok g kv.2) ps -> ok g (mkRSchema None t i ps ex rest)) ->
    (forall p s g, ok g s -> R g (hook p s g).2 /\ ok (hook p s g).2 (hook p s g).1) ->
    forall v g, R g (reflect hook v g).2 /\ (forall s, (reflect hook v g).1 = Ok s -> ok (reflect hook v g).2 s) }.

Context `{refl : Reflector} `{range_defs : MapRange DefSchema} `{range_props : MapRange PropSchema}.
(** The encoding of a schema; a value encoded and decoded; its own changes. *)
Variable encode : RSchema -> json.
Variable encode_value : Value -> option json.
Variable Process : Value -> option (RSchema -> gmap string json -> RSchema * gmap string json).

(** [None] where the paths of the definitions go in a circle, and the stack of
    the process overflows. *)
Definition CreateSchema (val : option Value) : option (result goerror (RSchema * gmap string json)) :=
  match val with
  | None => Some (Ok (mkRSchema None None None [] [] [], ∅))
  | Some v =>
      match reflect intercept v (mkGen ∅ ∅) with
      | (Err e, _) => Some (Err e)
      | (Ok sh, g) =>
          let '(sh, g) := replaceRoot (getDefinitionName (type_of v)) sh g in
          defs ← with_paths (definition_paths (def_of <$> g_defs g)) (g_defs g);
          defs ← enrichDefsFromValue (encode <$> defs) (getDefinitionName (type_of v)) (encode_value v);
          Some (Ok (match Process v with Some f => f sh defs | None => (sh, defs) end))
      end
  end.

(** ** No reference dangles *)

#[local] Instance grows_preorder : PreOrder grows.
Proof. split; [done|]. intros a b c [H1 H2] [H3 H4]. split; [set_solver|]. intros Ha. apply H4, H2, Ha. Qed.

Lemma resolved_grows (g g' : Gen) (s : RSchema) : grows g g' -> resolved g s -> resolved g' s.
Proof. intros [Hd _] Hr r Hin. apply Hd, Hr, Hin. Qed.

Lemma replace_root_resolved (name : string) (s : RSchema) (g : Gen) : resolved g s ->
  grows g (replaceRoot name s g).2 /\ resolved (replaceRoot name s g).2 (replaceRoot name s g).1.
Proof.
  intros Hr. unfold replaceRoot. destruct (name =? ""); [done|]. unfold grows, resolved. cbn. rewrite dom_insert. split_and!; [set_solver| |set_solver].
  intros Hc n s' Hn r Hin. rewrite dom_insert. apply union_subseteq_r. apply lookup_insert_Some in Hn as [[<- <-]|[_ Hn]]; [|by apply (Hc n s')].
  apply Hr. destruct s. cbn in *. set_solver.
Qed.

Lemma extra_refs (k : string) (v : json) (s : RSchema) : refs (WithExtraPropertiesItem k v s) = refs s.
Proof. by destruct s. Qed.

Lemma extra_resolved (k : string) (v : json) (s : RSchema) (g : Gen) : resolved g (WithExtraPropertiesItem k v s) <-> resolved g s.
Proof. unfold resolved. by rewrite extra_refs. Qed.

Lemma custom_refs (tag : list (string * string)) (s : RSchema) : refs (custom_props tag s) = refs s.
Proof.
  unfold custom_props.
  assert (Hfold : forall (f : RSchema -> string -> RSchema) l s, (forall s k, refs (f s k) = refs s) -> refs (fold_left f l s) = refs s).
  { intros f l. induction l as [|k l IH]; intros s' Hf; [done|]. cbn [fold_left]. by rewrite IH. }
  rewrite !Hfold; [done|..]; intros s' k; case_match; by rewrite ?extra_refs.
Qed.

Lemma items_refs (i : RSchema) (s : RSchema) (r : string) : s_Items s = Some i -> r ∈ refs i -> r ∈ refs s.
Proof. destruct s. cbn. intros -> Hr. set_solver. Qed.

Lemma with_items_refs (i : RSchema) (s : RSchema) (r : string) : r ∈ refs (with_items (Some i) s) -> r ∈ refs i \/ r ∈ refs s.
Proof. destruct s. cbn. set_solver. Qed.

Lemma replace_items_resolved (t : RType) (sh co : bool) (s : RSchema) (g : Gen) : resolved g s ->
  grows g (replace_items t sh co s g).2 /\ resolved (replace_items t sh co s g).2 (replace_items t sh co s g).1.
Proof.
  intros Hs. unfold replace_items. destruct (s_Items s) as [i|] eqn:Ei; [|done]. cbv zeta.
  set (i' := if co then _ else _).
  assert (Hi : resolved g i').
  { intros r Hin. apply Hs, (items_refs i); [done|]. subst i'. destruct co, sh; rewrite ?extra_refs in Hin; done. }
  destruct (replace_root_resolved (item_name t) i' g Hi) as [Hg Hr]. destruct (replaceRoot _ _ _) as [r g']. cbn [fst snd] in *.
  split; [done|]. intros x [Hx|Hx]%with_items_refs; [by apply Hr|]. by apply (resolved_grows g g' s).
Qed.

(** Before and after a property is seen to. *)
Lemma intercept_resolved (p : PropParams) (s : RSchema) (g : Gen) : resolved g s ->
  grows g (intercept p s g).2 /\ resolved (intercept p s g).2 (intercept p s g).1.
Proof.
  intros Hs. unfold intercept. destruct (negb _); [done|]. cbv zeta.
  set (g1 := mkGen _ _). set (s1 := custom_props _ _).
  assert (H1 : resolved g1 s1) by (subst s1; unfold resolved; by rewrite custom_refs).
  destruct (replace_items_resolved (pp_Type p) (interfaceBool (obj_get "shared" (s_Extra s1))) (interfaceBool (obj_get "configurable" (s_Extra s1))) s1 g1 H1) as [Hg2 H2].
  assert (Hg : grows g g1) by done. destruct (replace_items _ _ _ _ _) as [s2 g2]. cbn [fst snd] in *.
  destruct (_ || _).
  - destruct (replace_root_resolved (getDefinitionName (pp_Type p)) s2 g2 H2) as [Hg3 H3]. destruct (replaceRoot _ _ _) as [s3 g3].
    cbn [fst snd] in *. split; [exact (transitivity (transitivity Hg Hg2) Hg3)|by apply extra_resolved].
  - cbn [fst snd]. split; [by etrans|by apply extra_resolved].
Qed.

Lemma with_paths_closed (all : gmap string tagDefinition) (defs defs' : gmap string RSchema) :
  with_paths all defs = Some defs' -> closed defs -> dom defs' = dom defs /\ closed defs'.
Proof.
  unfold with_paths. destruct (decide _) as [Hall|]; [|done]. intros [= <-] Hc.
  assert (Hd : dom (map_imap (fun name s => (fun p => WithExtraPropertiesItem "path" (JStr p) s) <$> definition_path all name) defs) = dom defs).
  { apply set_eq. intros n. rewrite !elem_of_dom, map_lookup_imap. destruct (defs !! n) as [s|] eqn:Es; [|done].
    assert (Hn : definition_path all n <> None) by exact (Hall n s Es). cbn [mbind option_bind].
    destruct (definition_path all n); [|done]. by split; eexists. }
  split; [done|]. intros n s Hn r Hr. rewrite Hd. rewrite map_lookup_imap in Hn. destruct (defs !! n) as [s0|] eqn:Es; [|done]. cbn [mbind option_bind] in Hn.
  destruct (definition_path all n); [|done]. injection Hn as <-. rewrite extra_refs in Hr. by apply (Hc n s0).
Qed.
(** The schema of a value refers to definitions it has, whatever the types of
    the value are called, and so does every definition; and each definition is
    the reflected one with its path, filled with what the value has. *)
Lemma created_schema_resolves (v : Value) (root : RSchema) (encoded : gmap string json) :
  Process v = None -> CreateSchema (Some v) = Some (Ok (root, encoded)) ->
  exists defs, closed defs /\ (forall r, r ∈ refs root -> r ∈ dom defs) /\ dom encoded = dom defs /\
    map_relation (fun _ => filled) (fun _ _ => False) (fun _ _ => False) (encode <$> defs) encoded.
Proof.
  intros Hp. unfold CreateSchema. rewrite Hp.
  destruct (reflect_keeps intercept grows resolved _ resolved_grows) with (v := v) (g := mkGen ∅ ∅) as [Hg Hok].
  { intros g t i ps ex rest Hi Hps r Hr. cbn in Hr. apply elem_of_app in Hr as [Hr|Hr]; [destruct i; [by apply Hi|set_solver]|].
    apply list_elem_of_In, in_flat_map in Hr as (kv & Hkv & Hr). rewrite Forall_forall in Hps.
    apply (Hps kv); by apply list_elem_of_In. }
  { intros p s g. apply intercept_resolved. }
  destruct (reflect intercept v (mkGen ∅ ∅)) as [[sh|e] g]; [|done]. cbn [fst snd] in *.
  destruct (replace_root_resolved (getDefinitionName (type_of v)) sh g (Hok sh eq_refl)) as [[_ Hc] Hr].
  destruct (replaceRoot _ sh g) as [sh' g']. cbn [fst snd] in *.
  destruct (with_paths _ _) as [defs|] eqn:Ew; [|done]. apply with_paths_closed in Ew as [Hd Hcd].
  2: { apply Hc, Hg. by intros n s. }
  cbn [mbind option_bind].
  destruct (enriched (encode <$> defs) (getDefinitionName (type_of v)) (encode_value v)) as (st & -> & Hl). cbn.
  intros [= <- <-]. exists defs. split_and!; [done|by rewrite Hd| |apply (later_filled _ _ Hl)].
  rewrite <- (later_dom _ _ Hl). cbn. apply dom_fmap_L.
Qed.

(** Nothing else stops it: a schema is missing only where the stack overflows. *)
Lemma create_schema_ends (v : Value) (sh : RSchema) (g : Gen) :
  reflect intercept v (mkGen ∅ ∅) = (Ok sh, g) ->
  let g' := (replaceRoot (getDefinitionName (type_of v)) sh g).2 in
  CreateSchema (Some v) = None <->
    exists n s, g_defs g' !! n = Some s /\ definition_path (definition_paths (def_of <$> g_defs g')) n = None.
Proof.
  intros Hr g'. unfold CreateSchema. rewrite Hr. subst g'. destruct (replaceRoot _ sh g) as [sh' g']. cbn [snd].
  unfold with_paths. destruct (decide _) as [Hall|Hnot]; cbn [mbind option_bind].
  - match goal with |- context [enrichDefsFromValue ?d ?r ?e] => destruct (enriched d r e) as (st & -> & _) end. cbn.
    split; [done|]. intros (n & s & Hs & Hn). by destruct (Hall n s Hs).
  - split; [|done]. intros _. apply map_not_Forall in Hnot as (n & s & Hs & Hn); [|apply _].
    exists n, s. split; [done|]. by destruct (definition_path _ n); [destruct Hn|].
Qed.
End create.

(** The order of a property is counted; a tag for it has no effect. *)
Lemma declared_order_without_effect (Title : string -> string) (pf : string -> option string) (p : PropParams) (s : RSchema) (g : Gen) :
  pp_Processed p = true ->
  obj_get "propertyOrder" (s_Extra (intercept Title pf p s g).1) =
    Some (JNum (go_itoa (Z.of_nat (S (default 0%nat (g_idx g !! String.concat "" (pp_Path p))))))).
Proof.
  intros Hp. unfold intercept. rewrite Hp. cbv zeta. cbn [negb]. destruct (replace_items _ _ _ _ _ _) as [s2 g2].
  match goal with |- context [let '(_, _) := ?x in _] => destruct x as [s3 g3] end.
  cbn [fst WithExtraPropertiesItem s_Extra]. by rewrite obj_get_set, String.eqb_refl.
Qed.

(** A reflector of structs one level deep: the fields with their types, and the
    types of the items of a list. *)
Definition Field : Type := string * RType * list (string * string) * list string * option (list string).
Definition leaf (ts : list string) (i : option (list string)) : RSchema :=
  mkRSchema None (Some ts) ((fun it => mkRSchema None (Some it) None [] [] []) <$> i) [] [] [].
Definition flat_step (hook : PropParams -> RSchema -> Gen -> RSchema * Gen) (acc : list (string * RSchema) * Gen) (f : Field)
    : list (string * RSchema) * Gen :=
  let '(n, t, tag, ts, i) := f in
  let '(s, g) := hook (mkPropParams [] t tag true) (leaf ts i) acc.2 in (acc.1 ++ [(n, s)], g).
Definition flat_fields (hook : PropParams -> RSchema -> Gen -> RSchema * Gen) (fs : list Field) (g : Gen) : list (string * RSchema) * Gen :=
  fold_left (flat_step hook) fs ([], g).

#[export] Instance flat_reflector : Reflector.
Proof.
  refine {| Value := RType * list Field; type_of := fst;
            reflect hook v g := let '(ps, g) := flat_fields hook v.2 g in (Ok (mkRSchema None (Some ["object"]) None ps [] []), g) |}.
  intros hook R ok HR Hmono Hbuild Hhook [t fs] g. cbn.
  assert (Hgo : forall fs acc, Forall (fun kv => ok acc.2 kv.2) acc.1 ->
    R acc.2 (fold_left (flat_step hook) fs acc).2 /\ Forall (fun kv => ok (fold_left (flat_step hook) fs acc).2 kv.2) (fold_left (flat_step hook) fs acc).1).
  { clear fs g. induction fs as [|[[[[n ft] tag] ts] i] fs IH]; intros [ps g] Hps; [done|]. cbn [fold_left flat_step fst snd] in *.
    assert (Hleaf : ok g (leaf ts i)) by (apply Hbuild; [destruct i; [by apply Hbuild|done]|constructor]).
    destruct (Hhook (mkPropParams [] ft tag true) (leaf ts i) g Hleaf) as [H1 H2].
    destruct (hook _ _ g) as [s g']. cbn [fst snd] in *. destruct (IH (ps ++ [(n, s)], g')) as [H3 H4].
    { apply Forall_app. split; [|by constructor]. eapply Forall_impl; [exact Hps|]. intros kv. by apply Hmono. }
    split; [by etrans|done]. }
  specialize (Hgo fs ([], g) ltac:(constructor)). unfold flat_fields. destruct (fold_left _ fs ([], g)) as [ps g']. cbn in *.
  destruct Hgo as [H1 H2]. split; [done|]. intros s [= <-]. by apply Hbuild.
Defined.

(** Two fields of any type that hold lists share the definition "Item", and two
    types of one name, from two packages, share theirs: the last one is both. *)
Example definitions_share_a_name :
  let any := mkRType "" KInterface "" in
  let id (s : string) := s in
  let no (_ : string) : option string := None in
  let made fs := (fun g => (fun s => s_Type s) <$> g_defs g) (flat_fields (intercept id no) fs (mkGen ∅ ∅)).2 in
  made [("left", any, [], ["array"], Some ["string"]); ("right", any, [], ["array"], Some ["integer"])] !! "Item" = Some (Some ["integer"]) /\
  made [("from", mkRType "Config" KOther "", [], ["object"], None); ("to", mkRType "Config" KOther "", [], ["array"], None)] !! "Config" = Some (Some ["array"]).
Proof. vm_compute. split; reflexivity. Qed.

(** A struct with a list of named items, created. *)
Example a_schema_is_created :
  let id (s : string) := s in
  let field : Field := ("items", mkRType "" KSlice "Item", [("configurable", "true")], ["array"], Some ["string"]) in
  match CreateSchema id (fun _ => None) (refl := flat_reflector) (range_defs := map_range_some_order _) (range_props := map_range_some_order _)
          (fun s => JObj (s_Extra s)) (fun _ => None) (fun _ => None) (Some (mkRType "Settings" KOther "", [field])) with
  | Some (Ok (root, defs)) => s_Ref root = Some "Settings" /\ map_to_list defs = map_to_list (list_to_map (M := gmap string json)
      [("Settings", JObj [("path", JStr "$")]); ("Item", JObj [("configurable", JBool true); ("path", JStr "$.items[0]")])])
  | _ => False
  end.
Proof. vm_compute. split; reflexivity. Qed.
