(* ===== verification/Elements.v ===== *)
(** * Flow elements

    The editor's view of a flow: a list of elements, each a decoded JSON object
    that is a node or an edge ([pkg/utils/elements.go]), and the update of a
    node's edges and port configurations from an edited flow. The object a
    request lists for an edge is the one its source node's [_ports] refers to,
    so a request is a heap of elements, and [_ports] a list of references. *)
From S2P Require Import Prelude GoErrors Names Graph Json.
From Stdlib Require Import SpecFloat.

Open Scope string_scope.
Open Scope list_scope.

Definition TinyNodeType : string := "tinyNode".
Definition TinyEdgeType : string := "tinyEdge".

(** ** Values of an element *)

Definition GetStr (v : json) : string := match v with JStr s => s | _ => "" end.

Definition GetInt (v : json) : Z := match v with JNum s => num_trunc s | _ => 0 end.
Definition GetBool (v : json) : bool := match v with JBool b => b | _ => false end.
Definition GetFloat (parse_float : string -> spec_float) (v : json) : spec_float :=
  match v with JNum s => parse_float s | _ => S754_zero false end.

Fixpoint ContainsStr (str : string) (sl : list string) : bool :=
  match sl with
  | [] => false
  | s :: sl' => if str =? s then true else ContainsStr str sl'
  end.

(** The data of a node element. *)
Definition IsNode (n : list (string * json)) : option (list (string * json)) :=
  if is_nil (fld n "data") || negb (bool_decide (fld n "type" = JStr TinyNodeType)) then None
  else as_obj (fld n "data").

Definition IsEdge (n : list (string * json)) : bool :=
  bool_decide (fld n "type" = JStr TinyEdgeType) && negb (is_nil (fld n "source")) &&
  negb (is_nil (fld n "target")) && negb (is_nil (fld n "targetHandle")) &&
  negb (is_nil (fld n "sourceHandle")).

Definition ResolveSharedFlows (sharedWith : string) (flowNameMap : gmap string string) : string :=
  go_join "," (map (fun f0 =>
    let f := go_trim_space f0 in
    match flowNameMap !! f with
    | Some mapped => if mapped =? "" then f else mapped
    | None => f
    end) (go_split "," sharedWith)).

(** ** Element names

    [crypto/md5] in hexadecimal: 32 digits. *)
Class Md5 := {
  md5_hex : string -> string;
  md5_hex_length : forall s, String.length (md5_hex s) = 32;
}.

(** A witness digest, for concrete evaluations. *)
Definition md5_some : Md5 :=
  {| md5_hex := fun _ => "0123456789abcdef0123456789abcdef"; md5_hex_length := fun _ => eq_refl |}.

(** [getFirstNChars(getMD5Hash(projectName+flowName), 8)], of ASCII digits. *)
Definition GetFlowHashPrefix `{Md5} (projectName flowName : string) : string :=
  string_take 8 (md5_hex (projectName +:+ flowName)).

(** The byte 8 is a dot, and something follows it. *)
Definition has_hash_prefix (element : string) : bool :=
  (9 <? String.length element)%nat &&
  match String.get 8 element with Some c => Ascii.eqb c "." | None => false end.

(** What of an element's name does not depend on its flow. *)
Definition element_suffix (element : string) : string :=
  if has_hash_prefix element then string_drop 9 element else element.

Definition GetFlowElementName `{Md5} (projectName flowName element : string) : string :=
  if element =? "" then ""
  else if has_hash_prefix element
       then GetFlowHashPrefix projectName flowName +:+ "." +:+ string_drop 9 element
       else GetFlowHashPrefix projectName flowName +:+ "." +:+ element.

(** ** Requests *)

Record Element := mkElement {
  el_map : list (string * json);
  el_ports : option (list nat);    (* _ports, where it is a slice of elements *)
}.

Abbreviation Heap := (gmap nat Element).

(** [RequestElementsMap]: references by element id. *)
Abbreviation Request := (gmap string nat).

Definition el_at (h : Heap) (r : nat) : Element := default (mkElement [] None) (h !! r).
Definition el_get (h : Heap) (r : nat) (k : string) : json := fld (el_map (el_at h r)) k.

(** [vv[k] = v]. *)
Definition el_set (h : Heap) (r : nat) (k : string) (v : json) : Heap :=
  <[r := mkElement (obj_set k v (el_map (el_at h r))) (el_ports (el_at h r))]> h.

(** [vv["_ports"] = l], or its deletion. *)
Definition el_set_ports (h : Heap) (r : nat) (l : option (list nat)) : Heap :=
  <[r := mkElement (obj_delete "_ports" (el_map (el_at h r))) l]> h.

Section elements.
  Context `{Md5} (projectName flowName : string).

(** First pass of [BuildRequestElementsMapFromSlice], for one element: the
    nodes, renamed unless they are shared with the flow. *)
Definition prepare_node (st : Heap * Request * gset string) (r : nat)
    : Heap * Request * gset string :=
  let '(h, result, shared) := st in
  if is_nil (el_get h r "id") then st
  else match IsNode (el_map (el_at h r)) with
       | None => st
       | Some nodeData =>
           let h := el_set_ports h r (Some []) in
           let sharedWith := GetStr (fld nodeData "shared_with_flows") in
           let name := GetStr (el_get h r "id") in
           let '(h, shared) :=
             if negb (ContainsStr flowName (go_split "," sharedWith))
             then (el_set h r "id" (JStr (GetFlowElementName projectName flowName name)), shared)
             else (h, {[ name ]} ∪ shared) in
           (h, <[GetStr (el_get h r "id") := r]> result, shared)
       end.

Definition rename_end (shared : gset string) (h : Heap) (r : nat) (k : string) : Heap :=
  let name := GetStr (el_get h r k) in
  if bool_decide (name ∈ shared) then h
  else el_set h r k (JStr (GetFlowElementName projectName flowName name)).

(** Second pass: the edges. *)
Definition prepare_edge (shared : gset string) (st : Heap * Request) (r : nat) : Heap * Request :=
  let '(h, result) := st in
  if is_nil (el_get h r "id") then st
  else if negb (IsEdge (el_map (el_at h r))) then st
  else
    let h := rename_end shared h r "target" in
    let h := rename_end shared h r "source" in
    let id := GenerateEdgeID (GetStr (el_get h r "source")) (GetStr (el_get h r "sourceHandle"))
                (GetStr (el_get h r "target")) (GetStr (el_get h r "targetHandle")) in
    (el_set h r "id" (JStr id), <[id := r]> result).

(** Third pass: each edge is listed at its source node. *)
Definition prepare_port (shared : gset string) (result : Request) (h : Heap) (r : nat) : Heap :=
  if negb (IsEdge (el_map (el_at h r))) then h
  else
    let name := GetStr (el_get h r "source") in
    let sourceName := if bool_decide (name ∈ shared) then name
                      else GetFlowElementName projectName flowName name in
    match result !! sourceName with
    | Some source =>
        match el_ports (el_at h source) with
        | Some sourcePorts => el_set_ports h source (Some (sourcePorts ++ [r]))
        | None => h
        end
    | None => h
    end.

(** The elements are given by reference; [None] is the nil slice. *)
Definition BuildRequestElementsMapFromSlice (h : Heap) (elements : option (list nat))
    : result goerror (Heap * Request) :=
  match elements with
  | None => Err (ErrorString "data is invalid: nil elements")
  | Some elements =>
      let '(h, result, shared) := fold_left prepare_node elements (h, ∅, ∅) in
      let '(h, result) := fold_left (prepare_edge shared) elements (h, result) in
      Ok (fold_left (prepare_port shared result) elements h, result)
  end.

(** The decoded flow: an object whose members are arrays (or null, which
    decodes to a nil slice); entries that are not objects are dropped. *)
Definition decode_flow (v : json) : option (list (string * json)) :=
  match v with
  | JObj m => if forallb (fun kv => match kv.2 with JArr _ | JNull => true | _ => false end) m
              then Some m else None
  | JNull => Some []
  | _ => None
  end.

Definition heap_of (elements : list (list (string * json))) : Heap :=
  list_to_map (imap (fun i m => (i, mkElement m None)) elements).

Definition BuildRequestElementsMap (unmarshal : string -> result goerror json)
    (shape_error : goerror) (data : string) : result goerror (Heap * Request) :=
  match unmarshal data with
  | Err e => Err e
  | Ok v =>
      match decode_flow v with
      | None => Err shape_error
      | Some flow =>
          match fld flow "elements" with
          | JArr l =>
              let maps := omap as_obj l in
              BuildRequestElementsMapFromSlice (heap_of maps) (Some (seq 0 (length maps)))
          | _ => Err (ErrorString "data is invalid: no elements")
          end
      end
  end.

End elements.

(** ** Edges of a node *)

(** [v, ok := raw[k].(float64)]: [int(v)], 0 otherwise. *)
Definition num_field (raw : list (string * json)) (k : string) : Z := GetInt (fld raw k).

Definition parseEdgeRetryPolicyFromRequest (edge : list (string * json)) : option EdgeRetryPolicy :=
  match as_obj (fld edge "data") with
  | None => None
  | Some data =>
      match as_obj (fld data "retryPolicy") with
      | None | Some [] => None
      | Some raw =>
          let out := mkPolicy (num_field raw "maxAttempts") (num_field raw "initialDelayMs")
            (GetStr (fld raw "backoffCoefficient")) (num_field raw "maxDelayMs")
            (match fld raw "nonRetryableErrorCodes" with
             | JArr codes => List.filter (fun s => negb (s =? "")) (omap as_str codes)
             | _ => []
             end)
            (num_field raw "timeoutMs") in
          if ((MaxAttempts out =? 0)%Z || (MaxAttempts out =? 1)%Z) &&
             (InitialDelayMs out =? 0)%Z && (BackoffCoefficient out =? "") &&
             (MaxDelayMs out =? 0)%Z && (TimeoutMs out =? 0)%Z &&
             match NonRetryableErrorCodes out with [] => true | _ => false end
          then None else Some out
      end
  end.

(** The two loops: [duplicates] and [newEdges] as they grow. *)
Definition keep_edge (flowID : string) (requestEdgeIDs : gset string)
    (st : gset string * list TinyNodeEdge) (edge : TinyNodeEdge)
    : gset string * list TinyNodeEdge :=
  let '(duplicates, newEdges) := st in
  if e_FlowID edge =? flowID then st
  else if (e_FlowID edge =? "") && bool_decide (e_ID edge ∈ requestEdgeIDs) then st
  else if bool_decide (e_ID edge ∈ duplicates) then st
  else ({[ e_ID edge ]} ∪ duplicates, newEdges ++ [edge]).

Definition request_edge (h : Heap) (flowID : string) (v : nat) : TinyNodeEdge :=
  mkEdge (GetStr (el_get h v "id")) (GetStr (el_get h v "sourceHandle"))
    (GetStr (el_get h v "target") +:+ ":" +:+ GetStr (el_get h v "targetHandle"))
    flowID (parseEdgeRetryPolicyFromRequest (el_map (el_at h v))).

Definition add_edge (h : Heap) (flowID : string)
    (st : gset string * list TinyNodeEdge) (v : nat) : gset string * list TinyNodeEdge :=
  let '(duplicates, newEdges) := st in
  let edgeID := GetStr (el_get h v "id") in
  if edgeID =? "" then st
  else if bool_decide (edgeID ∈ duplicates) then st
  else ({[ edgeID ]} ∪ duplicates, newEdges ++ [request_edge h flowID v]).

Definition request_ids (h : Heap) (ports : list nat) : gset string :=
  list_to_set (List.filter (fun s => negb (s =? "")) (map (fun v => GetStr (el_get h v "id")) ports)).

(** The ids of the result are distinct, so [sort.Slice] has one outcome. *)
Definition UpdateEdgesFromRequest (edges : list TinyNodeEdge) (flowID nodeID : string)
    (h : Heap) (requestMap : Request) : result goerror (Heap * list TinyNodeEdge) :=
  match requestMap !! nodeID with
  | None => Err (ErrorString ("element " +:+ nodeID +:+ " not found in request"))
  | Some sourceNode =>
      match el_ports (el_at h sourceNode) with
      | None => Err (ErrorString ("source element " +:+ nodeID +:+ " contains no _ports"))
      | Some sourceNodePorts =>
          let requestEdgeIDs := request_ids h sourceNodePorts in
          let st := fold_left (keep_edge flowID requestEdgeIDs) edges (∅, []) in
          let st := fold_left (add_edge h flowID) sourceNodePorts st in
          Ok (el_set_ports h sourceNode None, sort_stable e_ID st.2)
      end
  end.

(** ** Port configurations of a node *)

Record PortConfig := mkHandlePort {
  hp_From : string;
  hp_Name : string;
  hp_Source : bool;
  hp_Schema : string;
  hp_Configuration : string;
}.

(** Key of a configuration: what it is sent from and the port it is for. *)
Definition config_key (from port : string) : string := from +:+ "->" +:+ port.

Definition existing_config (flowID : string) (m : gmap string TinyNodePortConfig)
    (port : TinyNodePortConfig) : gmap string TinyNodePortConfig :=
  if pc_From port =? "" then m
  else
    let key := config_key (pc_From port) (pc_Port port) in
    match m !! key with
    | Some existing =>
        if pc_FlowID existing =? flowID then m
        else if pc_FlowID port =? flowID then <[key := port]> m
        else if pc_FlowID existing =? "" then m
        else <[key := port]> m
    | None => <[key := port]> m
    end.

Definition cleanLegacyPortConfigs (configs : list TinyNodePortConfig) : list TinyNodePortConfig :=
  List.filter (fun pc => negb (pc_FlowID pc =? "")) configs.

(** [sort.Slice] by a hash of the values ([mitchellh/hashstructure]): some
    permutation in the order of the hashes, for every hash. *)
Class HashSort := {
  config_hash : TinyNodePortConfig -> N;
  sort_configs : list TinyNodePortConfig -> list TinyNodePortConfig;
  sort_configs_perm : forall l, sort_configs l ≡ₚ l;
  sort_configs_sorted : forall l, Sorted (fun a b => (config_hash a <= config_hash b)%N) (sort_configs l);
}.

Section port_configs.
  Context `{HashSort} `{MapRange nat}.
  (** [encoding/json]: no bytes where it fails. *)
  Variable marshal : json -> string.

(** The settings handles of the node's data. [schema_of] is how the bytes of
    the schema come from the handle's [schema]. *)
Definition settings_handle (schema_of : json -> string) (handle : json) : option PortConfig :=
  match as_obj handle with
  | None => None
  | Some handleMap =>
      let portName := GetStr (fld handleMap "id") in
      if negb (portName =? SettingsPort) then None
      else if is_nil (fld handleMap "configuration") then None
      else Some (mkHandlePort "" portName (GetStr (fld handleMap "type") =? "source")
                   (schema_of (fld handleMap "schema"))
                   (marshal (fld handleMap "configuration")))
  end.

Definition handle_ports (schema_of : json -> string) (data : list (string * json)) : list PortConfig :=
  match fld data "handles" with
  | JArr handles => omap (settings_handle schema_of) handles
  | _ => []
  end.

(** The edges of the request that target the node. [schema_of] takes the
    target handle and the edge's [schema]. *)
Definition edge_port (schema_of : string -> json -> string) (h : Heap) (nodeID : string)
    (r : nat) : option PortConfig :=
  let edge := el_map (el_at h r) in
  if negb (IsEdge edge) then None
  else if GetStr (fld edge "source") =? nodeID then None
  else if negb (GetStr (fld edge "target") =? nodeID) then None
  else
    let toHandle := GetStr (fld edge "targetHandle") in
    let '(schema, configuration) :=
      match as_obj (fld edge "data") with
      | Some edgeData =>
          (schema_of toHandle (fld edgeData "schema"),
           if is_nil (fld edgeData "configuration") then "" else marshal (fld edgeData "configuration"))
      | None => ("", "")
      end in
    Some (mkHandlePort (GetPortFullName (GetStr (fld edge "source")) (GetStr (fld edge "sourceHandle")))
            toHandle false schema configuration).

Definition convert_port (existingConfigs : gmap string TinyNodePortConfig) (flowID : string)
    (hp : PortConfig) : option TinyNodePortConfig :=
  if (hp_From hp =? "") && hp_Source hp then None
  else
    let '(schema, configuration) :=
      if (hp_Configuration hp =? "") && (hp_Schema hp =? "") then
        match existingConfigs !! config_key (hp_From hp) (hp_Name hp) with
        | Some existing => (pc_Schema existing, pc_Configuration existing)
        | None => (hp_Schema hp, hp_Configuration hp)
        end
      else (hp_Schema hp, hp_Configuration hp) in
    if (configuration =? "") && (schema =? "") then None
    else Some (mkPortConfig (hp_From hp) (hp_Name hp) schema configuration flowID).

(** What the two functions share; they differ in how they read a schema. *)
Definition update_configs (settings_schema : json -> string) (edge_schema : string -> json -> string)
    (ports : list TinyNodePortConfig) (flowID nodeID : string) (h : Heap) (requestMap : Request)
    : list TinyNodePortConfig :=
  match requestMap !! nodeID with
  | None => ports
  | Some el =>
      match as_obj (el_get h el "data") with
      | None => ports
      | Some data =>
          let existingConfigs := fold_left (existing_config flowID) ports ∅ in
          let portConfigs := List.filter (fun pc => negb (pc_FlowID pc =? flowID)) ports in
          let handlePorts := handle_ports settings_schema data ++
            omap (fun kr => edge_port edge_schema h nodeID kr.2) (map_range requestMap) in
          let portConfigs := portConfigs ++ omap (convert_port existingConfigs flowID) handlePorts in
          sort_configs (cleanLegacyPortConfigs portConfigs)
      end
  end.

Definition UpdatePortConfigsFromRequest (ports : list TinyNodePortConfig) (flowID nodeID : string)
    (h : Heap) (requestMap : Request) : list TinyNodePortConfig :=
  update_configs marshal (fun _ sc => if is_nil sc then "" else marshal sc)
    ports flowID nodeID h requestMap.

(** A nil map of defaults is [None]. *)
Definition default_schema (defaultSchemas : option (gmap string string)) (nodeID portName : string)
    (s : json) : string :=
  if negb (is_nil s) then marshal s
  else match defaultSchemas with
       | Some m => default "" (m !! GetPortFullName nodeID portName)
       | None => ""
       end.

Definition UpdatePortConfigsFromRequestWithDefaults (ports : list TinyNodePortConfig)
    (flowID nodeID : string) (h : Heap) (requestMap : Request)
    (defaultSchemas : option (gmap string string)) : list TinyNodePortConfig :=
  update_configs (default_schema defaultSchemas nodeID SettingsPort)
    (default_schema defaultSchemas nodeID) ports flowID nodeID h requestMap.

End port_configs.

Definition default_schemas_of (result : gmap string string) (nodeName : string)
    (ports : list TinyNodePortStatus) : gmap string string :=
  fold_left (fun r port =>
    if ps_Schema port =? "" then r
    else <[GetPortFullName nodeName (ps_Name port) := ps_Schema port]> r) ports result.

Definition BuildDefaultSchemasMap `{MapRange TinyNode} (nodesMap : gmap string TinyNode)
    : gmap string string :=
  fold_left (fun r kv => default_schemas_of r kv.1 (st_Ports (n_Status kv.2)))
    (map_range nodesMap) ∅.
