(* ===== verification/ElementsSpec.v ===== *)
(** * Theorems on flow elements

    Names of elements, the edges an edited flow gives a node, and its port
    configurations. *)
From S2P Require Import Prelude GoErrors Names Graph Json Elements.

Open Scope string_scope.
Open Scope list_scope.

(** ** Names *)

Section names.
  Context `{Md5}.

Lemma string_take_length (n : nat) (s : string) :
  (n <= String.length s)%nat -> String.length (string_take n s) = n.
Proof.
  revert s. induction n as [|n IH]; intros [|c s] Hs; simpl in *; try done; [lia|].
  rewrite IH by lia. done.
Qed.

Lemma hash_prefix_length (p f : string) : String.length (GetFlowHashPrefix p f) = 8.
Proof. unfold GetFlowHashPrefix. apply string_take_length. rewrite md5_hex_length. lia. Qed.

Lemma string_get_app (a b : string) (c : ascii) :
  String.get (String.length a) (a +:+ String c b) = Some c.
Proof. induction a as [|x a IH]; [done|]. apply IH. Qed.

Lemma string_drop_past (a b : string) (c : ascii) :
  string_drop (S (String.length a)) (a +:+ String c b) = b.
Proof. induction a as [|x a IH]; [done|]. exact IH. Qed.

Lemma prefixed_suffix (h s : string) :
  String.length h = 8 -> s <> "" -> has_hash_prefix (h +:+ "." +:+ s) = true /\
    element_suffix (h +:+ "." +:+ s) = s.
Proof.
  intros Hh Hs. unfold element_suffix.
  assert (Hp : has_hash_prefix (h +:+ "." +:+ s) = true).
  { unfold has_hash_prefix. rewrite <- Hh at 2. rewrite !str_length_app.
    change ("." +:+ s) with (String "." s). rewrite string_get_app. simpl.
    destruct s as [|c s]; [done|]. simpl. rewrite Hh. reflexivity. }
  split; [done|]. rewrite Hp. rewrite <- Hh at 1. apply (string_drop_past h s ".").
Qed.

Lemma string_drop_length (n : nat) (s : string) :
  String.length (string_drop n s) = (String.length s - n)%nat.
Proof. revert s. induction n as [|n IH]; intros [|c s]; try done. apply IH. Qed.

Lemma suffix_nonempty (s : string) : s <> "" -> element_suffix s <> "".
Proof.
  intros Hs. unfold element_suffix, has_hash_prefix.
  destruct (9 <? String.length s)%nat eqn:E; cbn [andb]; [|done].
  destruct (match String.get 8 s with Some c => _ | None => _ end); [|done].
  apply Nat.ltb_lt in E. intros H0. apply (f_equal String.length) in H0.
  rewrite string_drop_length in H0. change (String.length "") with 0%nat in H0. lia.
Qed.

Lemma element_name_eq (p f e : string) :
  GetFlowElementName p f e =
    if e =? "" then "" else GetFlowHashPrefix p f +:+ "." +:+ element_suffix e.
Proof. unfold GetFlowElementName, element_suffix. by destruct (has_hash_prefix e). Qed.

Lemma element_name_again (p f e : string) :
  GetFlowElementName p f (GetFlowElementName p f e) = GetFlowElementName p f e.
Proof.
  rewrite (element_name_eq _ _ e). destruct (String.eqb_spec e "") as [->|Hne]; [done|].
  rewrite element_name_eq.
  destruct (prefixed_suffix (GetFlowHashPrefix p f) (element_suffix e)) as [_ ->];
    [apply hash_prefix_length|by apply suffix_nonempty|].
  destruct (String.eqb_spec (GetFlowHashPrefix p f +:+ "." +:+ element_suffix e) "") as [E|]; [|done].
  apply (f_equal String.length) in E. rewrite str_length_app, hash_prefix_length in E. done.
Qed.

(** Naming an element for a flow is idempotent, moves an element that another
    flow named (the suffix stays, the prefix becomes the new flow's), and
    confuses exactly the elements with the same suffix: two nonempty names of
    one flow are equal when what follows their first eight bytes and a dot, if
    they have that form, is equal. *)
Theorem element_name_identity (p f p' f' a b : string) :
  a <> "" -> b <> "" ->
  GetFlowElementName p f (GetFlowElementName p' f' a) = GetFlowElementName p f a /\
  element_suffix (GetFlowElementName p f a) = element_suffix a /\
  (GetFlowElementName p f a = GetFlowElementName p f b <-> element_suffix a = element_suffix b).
Proof.
  intros Ha Hb. rewrite !(element_name_eq _ _ a), (element_name_eq _ _ b).
  destruct (String.eqb_spec a "") as [|_]; [done|]. destruct (String.eqb_spec b "") as [|_]; [done|].
  pose proof (prefixed_suffix (GetFlowHashPrefix p' f') (element_suffix a)
    (hash_prefix_length p' f') (suffix_nonempty a Ha)) as [_ E'].
  pose proof (prefixed_suffix (GetFlowHashPrefix p f) (element_suffix a)
    (hash_prefix_length p f) (suffix_nonempty a Ha)) as [_ E].
  split_and!; [|done|].
  - rewrite element_name_eq, E'.
    destruct (String.eqb_spec (GetFlowHashPrefix p' f' +:+ "." +:+ element_suffix a) "") as [E0|]; [|done].
    apply (f_equal String.length) in E0. by rewrite str_length_app, hash_prefix_length in E0.
  - split; [|by intros ->]. intros Heq. apply str_app_inj_l in Heq. by injection Heq.
Qed.

End names.

(** Two nodes a user named apart, one name. *)
Lemma element_name_identity_witness :
  @GetFlowElementName md5_some "p" "f" "router-1.a" = @GetFlowElementName md5_some "p" "f" "switch-2.a" /\
  @GetFlowElementName md5_some "p" "f" "router-1" <> @GetFlowElementName md5_some "p" "f" "switch-2".
Proof.
  split.
  - apply (@element_name_identity md5_some "p" "f" "p" "f" "router-1.a" "switch-2.a"); done.
  - intros E. apply (@element_name_identity md5_some "p" "f" "p" "f" "router-1" "switch-2") in E; done.
Defined.

(** ** Edges of a node *)

Ltac set_eq_solver := apply set_eq; intros ?; set_solver.

(** The reference definition: of each id the first edge. *)
Fixpoint first_of_each (seen : gset string) (l : list TinyNodeEdge) : list TinyNodeEdge :=
  match l with
  | [] => []
  | e :: l' => if bool_decide (e_ID e ∈ seen) then first_of_each seen l'
               else e :: first_of_each ({[ e_ID e ]} ∪ seen) l'
  end.

Definition ids_of (l : list TinyNodeEdge) : gset string := list_to_set (e_ID <$> l).

(** An edge that a request on the flow leaves alone. *)
Definition kept (flowID : string) (requested : gset string) (e : TinyNodeEdge) : bool :=
  negb (e_FlowID e =? flowID) && negb ((e_FlowID e =? "") && bool_decide (e_ID e ∈ requested)).

(** The edges a request has for a node. *)
Definition requested_edges (h : Heap) (flowID : string) (ports : list nat) : list TinyNodeEdge :=
  List.filter (fun e => negb (e_ID e =? "")) (map (request_edge h flowID) ports).

Lemma first_app (seen : gset string) (a b : list TinyNodeEdge) :
  first_of_each seen (a ++ b) = first_of_each seen a ++ first_of_each (ids_of a ∪ seen) b.
Proof.
  revert seen. unfold ids_of. induction a as [|e a IH]; intros seen; simpl.
  - f_equal. set_eq_solver.
  - destruct (bool_decide_reflect (e_ID e ∈ seen)) as [Hin|Hin]; csimpl; rewrite IH.
    + apply (f_equal (fun s => _ ++ first_of_each s b)). set_eq_solver.
    + apply (f_equal (fun s => e :: _ ++ first_of_each s b)). set_eq_solver.
Qed.

Lemma first_distinct (seen : gset string) (l : list TinyNodeEdge) :
  NoDup (e_ID <$> l) -> (forall e, e ∈ l -> e_ID e ∉ seen) -> first_of_each seen l = l.
Proof.
  revert seen. induction l as [|e l IH]; intros seen Hnd Hs; [done|]. simpl.
  apply NoDup_cons in Hnd as [Hne Hnd].
  rewrite bool_decide_eq_false_2 by (apply Hs; left). f_equal. apply IH; [done|].
  intros x Hx. specialize (Hs x (list_elem_of_further _ _ _ Hx)).
  assert (e_ID x <> e_ID e); [|set_solver].
  intros E. apply Hne. rewrite <- E. by apply (list_elem_of_fmap_2 e_ID).
Qed.

Lemma first_in (seen : gset string) (l : list TinyNodeEdge) (e : TinyNodeEdge) :
  e ∈ first_of_each seen l <->
  e_ID e ∉ seen /\ exists i, l !! i = Some e /\
    forall j e', (j < i)%nat -> l !! j = Some e' -> e_ID e' <> e_ID e.
Proof.
  revert seen. induction l as [|x l IH]; intros seen; simpl.
  { rewrite elem_of_nil. split; [done|]. intros (_ & i & Hi & _). done. }
  assert (Hstep : forall P : Prop, (P <-> exists i, l !! i = Some e /\
            forall j e', (j < i)%nat -> l !! j = Some e' -> e_ID e' <> e_ID e) ->
          ((exists i, (x :: l) !! i = Some e /\
            forall j e', (j < i)%nat -> (x :: l) !! j = Some e' -> e_ID e' <> e_ID e) <->
           x = e \/ (e_ID x <> e_ID e /\ P))).
  { intros P HP. split.
    - intros ([|i] & Hi & Hf); [left; by injection Hi|]. right. split.
      + apply (Hf 0%nat x); [lia|done].
      + apply HP. exists i. split; [done|]. intros j e' Hj He. apply (Hf (S j) e'); [lia|done].
    - intros [->|[Hne Hp]]; [exists 0%nat; split; [done|lia]|]. apply HP in Hp as (i & Hi & Hf).
      exists (S i). split; [done|]. intros [|j] e' Hj He; [by injection He as <-|].
      apply (Hf j e'); [lia|done]. }
  rewrite (Hstep _ (iff_refl _)). clear Hstep.
  destruct (bool_decide_reflect (e_ID x ∈ seen)) as [Hx|Hx].
  - rewrite IH. split.
    + intros [Hs Hi]. split; [done|]. right. split; [|done]. intros E. apply Hs. by rewrite <- E.
    + intros [Hs [->|[_ Hi]]]; done.
  - rewrite elem_of_cons, IH. split.
    + intros [->|[Hs Hi]]; [split; [done|by left]|]. split; [set_solver|]. right. split; [set_solver|done].
    + intros [Hs [->|[Hne Hi]]]; [by left|]. right. split; [set_solver|done].
Qed.

Lemma first_nodup (seen : gset string) (l : list TinyNodeEdge) :
  NoDup (e_ID <$> first_of_each seen l).
Proof.
  revert seen. induction l as [|e l IH]; intros seen; simpl; [apply NoDup_nil_2|].
  destruct (bool_decide _); [apply IH|]. simpl. apply NoDup_cons. split; [|apply IH].
  rewrite list_elem_of_fmap. intros (x & E & Hx). apply first_in in Hx as [Hx _]. set_solver.
Qed.

Lemma ids_first (l : list TinyNodeEdge) : ids_of (first_of_each ∅ l) = ids_of l.
Proof.
  unfold ids_of. enough (H : forall seen, list_to_set (e_ID <$> first_of_each seen l) ∪ seen =
    list_to_set (e_ID <$> l) ∪ seen :> gset string).
  { specialize (H ∅). by rewrite !union_empty_r_L in H. }
  induction l as [|e l IH]; intros seen; [done|]. csimpl.
  destruct (bool_decide_reflect (e_ID e ∈ seen)) as [Hin|Hin]; [rewrite IH; set_eq_solver|].
  csimpl. specialize (IH ({[e_ID e]} ∪ seen)). apply set_eq. intros x. apply set_eq with (x := x) in IH. set_solver.
Qed.

Lemma keep_edge_eq (flowID : string) (req seen : gset string) (acc : list TinyNodeEdge) (e : TinyNodeEdge) :
  keep_edge flowID req (seen, acc) e =
    if kept flowID req e && negb (bool_decide (e_ID e ∈ seen))
    then ({[ e_ID e ]} ∪ seen, acc ++ [e]) else (seen, acc).
Proof.
  unfold keep_edge, kept. destruct (e_FlowID e =? flowID); [done|].
  destruct ((e_FlowID e =? "") && bool_decide (e_ID e ∈ req)); [done|].
  by destruct (bool_decide (e_ID e ∈ seen)).
Qed.

Lemma add_edge_eq (h : Heap) (flowID : string) (seen : gset string) (acc : list TinyNodeEdge) (v : nat) :
  let e := request_edge h flowID v in
  add_edge h flowID (seen, acc) v =
    if negb (e_ID e =? "") && negb (bool_decide (e_ID e ∈ seen))
    then ({[ e_ID e ]} ∪ seen, acc ++ [e]) else (seen, acc).
Proof.
  unfold add_edge, request_edge. simpl. destruct (_ =? ""); [done|]. by destruct (bool_decide _).
Qed.

(** Both loops append the first edge of each new id. *)
Lemma dedup_fold {A} (f : gset string * list TinyNodeEdge -> A -> gset string * list TinyNodeEdge)
    (want : TinyNodeEdge -> bool) (mk : A -> TinyNodeEdge) (l : list A)
    (seen : gset string) (acc : list TinyNodeEdge) :
  (forall seen acc x, f (seen, acc) x =
    if want (mk x) && negb (bool_decide (e_ID (mk x) ∈ seen))
    then ({[ e_ID (mk x) ]} ∪ seen, acc ++ [mk x]) else (seen, acc)) ->
  let new := first_of_each seen (List.filter want (map mk l)) in
  fold_left f l (seen, acc) = (ids_of new ∪ seen, acc ++ new).
Proof.
  intros Hf. cbv zeta. unfold ids_of. revert seen acc.
  induction l as [|x l IH]; intros seen acc; csimpl.
  { f_equal; [set_eq_solver|by rewrite app_nil_r]. }
  rewrite Hf. destruct (want (mk x)); csimpl; [|apply IH].
  destruct (bool_decide (e_ID (mk x) ∈ seen)); csimpl; [apply IH|].
  rewrite IH. f_equal; [set_eq_solver|by rewrite <- app_assoc].
Qed.

Lemma update_edges_reference (edges : list TinyNodeEdge) (flowID nodeID : string) (h : Heap)
    (req : Request) (r : nat) (ports : list nat) :
  req !! nodeID = Some r -> el_ports (el_at h r) = Some ports ->
  UpdateEdgesFromRequest edges flowID nodeID h req =
    Ok (el_set_ports h r None,
        sort_stable e_ID (first_of_each ∅
          (List.filter (kept flowID (request_ids h ports)) edges ++ requested_edges h flowID ports))).
Proof.
  intros Hr Hp. unfold UpdateEdgesFromRequest. rewrite Hr, Hp. do 2 f_equal.
  rewrite (dedup_fold _ (kept flowID (request_ids h ports)) (fun e => e))
    by (intros; apply keep_edge_eq).
  rewrite (dedup_fold _ (fun e => negb (e_ID e =? "")) (request_edge h flowID))
    by (intros; apply add_edge_eq).
  rewrite map_id, first_app. cbn [snd app]. by rewrite !union_empty_r_L, ids_first.
Qed.

(** ** The order of the result *)

(** Sorting by distinct keys has one outcome. *)
Lemma sorted_unique {A} (key : A -> string) (l k : list A) :
  l ≡ₚ k -> NoDup (key <$> l) -> Sorted str_le (key <$> l) -> Sorted str_le (key <$> k) -> l = k.
Proof.
  intros Hp Hnd Hl Hk.
  set (R a b := str_le (key a) (key b)).
  assert (HR : forall m, Sorted str_le (key <$> m) -> StronglySorted R m).
  { intros m Hm. apply Sorted_StronglySorted in Hm; [|intros x y z; apply str_le_trans].
    induction m as [|x m IH]; [constructor|]. csimpl in Hm. inversion Hm; subst.
    constructor; [by apply IH|]. by rewrite Forall_fmap in H2. }
  apply (StronglySorted_unique_strong R); [|by apply HR..|done].
  intros x y Hx Hy Hxy Hyx. rewrite <- Hp in Hy.
  apply list_elem_of_lookup in Hx as [i Hi], Hy as [j Hj].
  assert (i = j); [|congruence].
  apply (NoDup_lookup _ _ _ (key x) Hnd); rewrite list_lookup_fmap.
  - by rewrite Hi.
  - rewrite Hj. simpl. f_equal. by apply str_le_antisym.
Qed.

Lemma kept_not_requested (h : Heap) (flowID : string) (req : gset string) (ports : list nat) :
  List.filter (kept flowID req) (requested_edges h flowID ports) = [].
Proof.
  apply filter_none, forallb_forall. intros e He. apply filter_In in He as [He _].
  apply in_map_iff in He as (v & <- & _). unfold kept. simpl. by rewrite String.eqb_refl.
Qed.

Lemma filter_perm {A} (p : A -> bool) (l k : list A) :
  l ≡ₚ k -> List.filter p l ≡ₚ List.filter p k.
Proof.
  induction 1 as [|x l k _ IH|x y l|l k m _ IH1 _ IH2]; simpl.
  - done.
  - destruct (p x); [by constructor|done].
  - destruct (p x), (p y); try done. constructor.
  - by etrans.
Qed.

Lemma filter_first (want : TinyNodeEdge -> bool) (seen : gset string) (l k : list TinyNodeEdge) :
  forallb want l = true -> List.filter want k = [] ->
  List.filter want (first_of_each seen (l ++ k)) = first_of_each seen l.
Proof.
  intros Hl Hk. rewrite first_app, List.filter_app.
  assert (Hsub : forall seen m e, In e (first_of_each seen m) -> In e m).
  { intros sn m e He. apply list_elem_of_In in He. apply first_in in He as (_ & i & Hi & _).
    apply list_elem_of_In. by apply list_elem_of_lookup_2 in Hi. }
  rewrite (filter_all want (first_of_each seen l)), (filter_none want (first_of_each _ k)).
  - by rewrite app_nil_r.
  - apply forallb_forall. intros e He. apply Hsub in He.
    destruct (want e) eqn:E; [|done]. assert (H : In e (List.filter want k)) by by apply filter_In.
    by rewrite Hk in H.
  - apply forallb_forall. intros e He. apply Hsub in He. revert e He. by apply forallb_forall.
Qed.

(** Saving an edited flow gives a node exactly these edges, ordered by id, each
    id once: the edges of other flows as they were (legacy ones, without a
    flow, unless the request has their id), then the request's edges that leave
    the node; of two with one id the first stands, so an edge of another flow
    is never overwritten, and hides the request's. Nothing else changes in the
    request, and saving again changes nothing. *)
Theorem update_edges_exact (edges : list TinyNodeEdge) (flowID nodeID : string) (h : Heap)
    (req : Request) (r : nat) (ports : list nat) :
  req !! nodeID = Some r -> el_ports (el_at h r) = Some ports ->
  let wanted := List.filter (kept flowID (request_ids h ports)) edges ++ requested_edges h flowID ports in
  exists res, UpdateEdgesFromRequest edges flowID nodeID h req = Ok (el_set_ports h r None, res) /\
    NoDup (e_ID <$> res) /\ Sorted str_le (e_ID <$> res) /\
    (forall e, e ∈ res <-> exists i, wanted !! i = Some e /\
       forall j e', (j < i)%nat -> wanted !! j = Some e' -> e_ID e' <> e_ID e) /\
    UpdateEdgesFromRequest res flowID nodeID h req = Ok (el_set_ports h r None, res).
Proof.
  intros Hr Hp wanted. eexists. split; [by apply update_edges_reference|].
  destruct (sort_stable_spec e_ID (first_of_each ∅ wanted)) as [Hperm Hsort].
  assert (Hnd : NoDup (e_ID <$> sort_stable e_ID (first_of_each ∅ wanted))).
  { rewrite Hperm. apply first_nodup. }
  split_and!; [done|done| |].
  - intros e. fold wanted. rewrite Hperm, first_in. split; [by intros [_ Hi]|intros Hi; split; [set_solver|done]].
  - rewrite (update_edges_reference _ _ _ _ _ r ports Hr Hp). fold wanted. do 2 f_equal. symmetry.
    set (K := List.filter (kept flowID (request_ids h ports)) edges) in *.
    set (R := requested_edges h flowID ports) in *.
    set (res := sort_stable e_ID (first_of_each ∅ wanted)) in *.
    assert (HK : List.filter (kept flowID (request_ids h ports)) res ≡ₚ first_of_each ∅ K).
    { rewrite (filter_perm _ _ _ Hperm). unfold wanted. rewrite filter_first; [done| |].
      - apply forallb_forall. intros e He. unfold K in He. by apply filter_In in He as [_ He].
      - apply kept_not_requested. }
    set (K' := List.filter (kept flowID (request_ids h ports)) res) in *.
    assert (HndK : NoDup (e_ID <$> K')) by (rewrite HK; apply first_nodup).
    destruct (sort_stable_spec e_ID (first_of_each ∅ (K' ++ R))) as [Hperm' Hsort'].
    apply (sorted_unique e_ID); [|done|done|done].
    rewrite Hperm, Hperm'. unfold wanted. rewrite !first_app, (first_distinct ∅ K') by (done || set_solver).
    assert (Hids : ids_of K' = ids_of K).
    { rewrite <- (ids_first K). unfold ids_of. apply set_eq. intros x. rewrite !elem_of_list_to_set. by rewrite HK. }
    by rewrite Hids, HK.
Qed.

Section edge_witness.
Let h : Heap := {[ 0 := mkElement [("type", JStr "tinyNode")] (Some [1]);
                   1 := mkElement [("id", JStr "f.a_out-f.b_in"); ("source", JStr "f.a"); ("sourceHandle", JStr "out");
                                   ("target", JStr "f.b"); ("targetHandle", JStr "in")] None ]}.
Let other : TinyNodeEdge := mkEdge "x" "out" "g.c:in" "g" None.
Let legacy : TinyNodeEdge := mkEdge "f.a_out-f.b_in" "out" "f.b:in" "" None.
Let old : TinyNodeEdge := mkEdge "y" "out" "f.z:in" "f" None.

(** The flow's old edge goes, the legacy one is replaced, the other flow's stays. *)
Lemma update_edges_exact_witness :
  UpdateEdgesFromRequest [old; other; legacy] "f" "f.a" h {[ "f.a" := 0 ]} =
    Ok (el_set_ports h 0 None, [mkEdge "f.a_out-f.b_in" "out" "f.b:in" "f" None; other]) /\
  exists res, UpdateEdgesFromRequest [old; other; legacy] "f" "f.a" h {[ "f.a" := 0 ]} =
    Ok (el_set_ports h 0 None, res) /\ NoDup (e_ID <$> res).
Proof.
  split; [vm_compute; reflexivity|].
  destruct (update_edges_exact [old; other; legacy] "f" "f.a" h {[ "f.a" := 0 ]} 0 [1])
    as (res & E & Hnd & _); [vm_compute; reflexivity..|].
  exists res. split; [exact E|exact Hnd].
Defined.
End edge_witness.

(** ** Requests *)

(** The edges of the elements that leave the node [name]. *)
Definition leaves (h : Heap) (name : string) (r : nat) : bool :=
  IsEdge (el_map (el_at h r)) && negb (is_nil (el_get h r "id")) &&
  (GetStr (el_get h r "source") =? name).

Lemma el_get_set (h : Heap) (r r' : nat) (k k' : string) (v : json) :
  el_get (el_set h r k v) r' k' = if bool_decide (r = r') && (k =? k') then v else el_get h r' k'.
Proof.
  unfold el_get, el_set, el_at. case_bool_decide as E.
  - subst. rewrite lookup_insert_eq. simpl. rewrite fld_set. by destruct (k =? k').
  - by rewrite lookup_insert_ne.
Qed.

Lemma el_get_set_ports (h : Heap) (r r' : nat) (k' : string) (l : option (list nat)) :
  k' <> "_ports" -> el_get (el_set_ports h r l) r' k' = el_get h r' k'.
Proof.
  intros Hk. unfold el_get, el_set_ports, el_at. destruct (decide (r = r')) as [->|E].
  - rewrite lookup_insert_eq. simpl. unfold fld. rewrite obj_get_delete.
    destruct (String.eqb_spec "_ports" k'); [congruence|done].
  - by rewrite lookup_insert_ne.
Qed.

Lemma el_ports_set (h : Heap) (r r' : nat) (k : string) (v : json) :
  el_ports (el_at (el_set h r k v) r') = el_ports (el_at h r').
Proof.
  unfold el_set, el_at. destruct (decide (r = r')) as [->|E];
    [by rewrite lookup_insert_eq|by rewrite lookup_insert_ne].
Qed.

Lemma el_ports_set_ports (h : Heap) (r r' : nat) (l : option (list nat)) :
  el_ports (el_at (el_set_ports h r l) r') = if bool_decide (r = r') then l else el_ports (el_at h r').
Proof.
  unfold el_set_ports, el_at. case_bool_decide as E;
    [subst; by rewrite lookup_insert_eq|by rewrite lookup_insert_ne].
Qed.

Lemma is_edge_fields (h h' : Heap) (r : nat) :
  (forall k, k <> "_ports" -> el_get h' r k = el_get h r k) ->
  IsEdge (el_map (el_at h' r)) = IsEdge (el_map (el_at h r)).
Proof.
  intros Hf. unfold IsEdge. fold (el_get h' r "type") (el_get h' r "source") (el_get h' r "target")
    (el_get h' r "targetHandle") (el_get h' r "sourceHandle"). by rewrite !Hf.
Qed.

Lemma is_node_type (m : list (string * json)) (d : list (string * json)) :
  IsNode m = Some d -> fld m "type" = JStr TinyNodeType.
Proof. unfold IsNode. case_bool_decide as E; [done|]. by rewrite orb_true_r. Qed.

Lemma is_edge_type (m : list (string * json)) : IsEdge m = true -> fld m "type" = JStr TinyEdgeType.
Proof. unfold IsEdge. by case_bool_decide as E. Qed.

Section build.
  Context `{Md5} (projectName flowName : string).

(** Every node of the map is under its id, its list of edges empty. *)
Definition nodes_ready (h : Heap) (result : Request) : Prop :=
  forall n s, result !! n = Some s -> el_get h s "type" = JStr TinyNodeType ->
    el_ports (el_at h s) = Some [] /\ GetStr (el_get h s "id") = n.

Lemma prepare_node_ready (els done_ : list nat) (h : Heap) (result : Request) (shared : gset string) :
  NoDup (done_ ++ els) -> nodes_ready h result -> (forall n s, result !! n = Some s -> s ∈ done_) ->
  let '(h', result', _) := fold_left (prepare_node projectName flowName) els (h, result, shared) in
  nodes_ready h' result'.
Proof.
  revert done_ h result shared. induction els as [|r els IH]; intros done_ h result shared Hnd Hr Hd; [done|].
  cbn [fold_left]. destruct (prepare_node projectName flowName (h, result, shared) r)
    as [[h1 result1] shared1] eqn:E.
  apply (IH (done_ ++ [r])); [by rewrite <- app_assoc| |].
  - unfold prepare_node in E. destruct (is_nil _); [by injection E as <- <- <-|].
    destruct (IsNode _) as [d|] eqn:En; [|by injection E as <- <- <-].
    apply is_node_type in En.
    assert (Hr' : r ∉ done_) by (intros Hin; apply NoDup_app in Hnd as (_ & Hx & _); apply (Hx r Hin); left).
    assert (Hk : forall k, k <> "_ports" -> el_get (el_set_ports h r (Some [])) r k = el_get h r k)
      by (intros; by apply el_get_set_ports).
    destruct (negb _) in E; injection E as <- <- <-; intros n s Hn Ht;
      (apply lookup_insert_Some in Hn as [[<- <-]|[Hne Hn]];
       [split; [|done]; rewrite ?el_ports_set, el_ports_set_ports; by rewrite bool_decide_eq_true_2|]);
      pose proof (Hd _ _ Hn) as Hs; assert (r <> s) by congruence.
    + rewrite !el_get_set, el_ports_set, el_ports_set_ports, !bool_decide_eq_false_2 in * by done. simpl in *.
      rewrite !el_get_set_ports in * by done. by apply Hr.
    + rewrite el_ports_set_ports, bool_decide_eq_false_2, !el_get_set_ports in * by done. by apply Hr.
  - intros n s Hn. unfold prepare_node in E. apply elem_of_app.
    destruct (is_nil _); [injection E as <- <- <-; left; by eapply Hd|].
    destruct (IsNode _); [|injection E as <- <- <-; left; by eapply Hd].
    destruct (negb _) in E; injection E as <- <- <-;
      (apply lookup_insert_Some in Hn as [[_ <-]|[_ Hn]]; [right; by left|left; by eapply Hd]).
Qed.

(** The name of the node an edge is listed at. *)
Definition port_name (shared : gset string) (h : Heap) (r : nat) : string :=
  let name := GetStr (el_get h r "source") in
  if bool_decide (name ∈ shared) then name else GetFlowElementName projectName flowName name.

(** A prepared edge keeps its source's name. *)
Definition settled (shared : gset string) (h : Heap) (r : nat) : Prop :=
  IsEdge (el_map (el_at h r)) = true -> is_nil (el_get h r "id") = false ->
  port_name shared h r = GetStr (el_get h r "source").

Lemma rename_end_get (shared : gset string) (h : Heap) (r r' : nat) (k k' : string) :
  k <> k' \/ r <> r' -> el_get (rename_end projectName flowName shared h r k) r' k' = el_get h r' k'.
Proof.
  intros Hne. unfold rename_end. destruct (bool_decide _); [done|]. rewrite el_get_set.
  case_bool_decide; [|done]. destruct (String.eqb_spec k k'); [|done]. by destruct Hne.
Qed.

Lemma rename_end_ports (shared : gset string) (h : Heap) (r r' : nat) (k : string) :
  el_ports (el_at (rename_end projectName flowName shared h r k) r') = el_ports (el_at h r').
Proof. unfold rename_end. destruct (bool_decide _); [done|]. apply el_ports_set. Qed.

Lemma rename_end_settled (shared : gset string) (h : Heap) (r : nat) :
  port_name shared (rename_end projectName flowName shared h r "source") r =
    GetStr (el_get (rename_end projectName flowName shared h r "source") r "source").
Proof.
  unfold rename_end, port_name.
  destruct (bool_decide (GetStr (el_get h r "source") ∈ shared)) eqn:E; [by rewrite E|].
  rewrite el_get_set, (bool_decide_eq_true_2 (r = r)) by done. simpl.
  destruct (bool_decide (GetFlowElementName _ _ _ ∈ shared)); [done|]. apply element_name_again.
Qed.

Lemma port_name_fields (shared : gset string) (h h' : Heap) (r : nat) :
  el_get h' r "source" = el_get h r "source" -> port_name shared h' r = port_name shared h r.
Proof. unfold port_name. by intros ->. Qed.

Lemma prepare_edge_fields (shared : gset string) (h : Heap) (result : Request) (r r' : nat) (k : string) :
  (k <> "target" /\ k <> "source" /\ k <> "id") \/ r <> r' ->
  el_get (prepare_edge projectName flowName shared (h, result) r).1 r' k = el_get h r' k.
Proof.
  intros Hne. unfold prepare_edge. destruct (is_nil _); [done|]. destruct (negb _); [done|]. cbn [fst].
  rewrite el_get_set. case_bool_decide as E; cbn [andb].
  - destruct (String.eqb_spec "id" k); [naive_solver|].
    by rewrite !rename_end_get by (destruct Hne as [(? & ? & ?)|?]; [left; congruence|by right]).
  - by rewrite !rename_end_get by auto.
Qed.

Lemma prepare_edge_ports (shared : gset string) (h : Heap) (result : Request) (r r' : nat) :
  el_ports (el_at (prepare_edge projectName flowName shared (h, result) r).1 r') = el_ports (el_at h r').
Proof.
  unfold prepare_edge. destruct (is_nil _); [done|]. destruct (negb _); [done|]. cbn [fst].
  by rewrite el_ports_set, !rename_end_ports.
Qed.

Lemma prepare_edge_result (shared : gset string) (h : Heap) (result : Request) (r : nat) (n : string) (s : nat) :
  (prepare_edge projectName flowName shared (h, result) r).2 !! n = Some s ->
  result !! n = Some s \/ (s = r /\ el_get h r "type" = JStr TinyEdgeType).
Proof.
  unfold prepare_edge. destruct (is_nil _); [by left|]. destruct (IsEdge _) eqn:E; [|by left]. simpl.
  intros [[_ <-]|[_ Hn]]%lookup_insert_Some; [right|by left]. split; [done|]. by apply is_edge_type.
Qed.

Lemma prepare_edge_settled (shared : gset string) (h : Heap) (result : Request) (r : nat) :
  settled shared (prepare_edge projectName flowName shared (h, result) r).1 r.
Proof.
  unfold settled, prepare_edge. destruct (is_nil (el_get h r "id")) eqn:Ei; [cbn [fst]; congruence|].
  destruct (IsEdge (el_map (el_at h r))) eqn:Ee; cbn [negb fst]; [|congruence]. intros _ _.
  set (ht := rename_end _ _ shared h r "target").
  rewrite (port_name_fields shared (rename_end projectName flowName shared ht r "source")) by
    (rewrite el_get_set; by rewrite andb_false_r).
  rewrite el_get_set, andb_false_r. apply rename_end_settled.
Qed.

Lemma prepare_edges (els done_ : list nat) (shared : gset string) (h : Heap) (result : Request) :
  NoDup (done_ ++ els) -> nodes_ready h result -> (forall r, r ∈ done_ -> settled shared h r) ->
  let '(h', result') := fold_left (prepare_edge projectName flowName shared) els (h, result) in
  nodes_ready h' result' /\ (forall r, r ∈ done_ ++ els -> settled shared h' r).
Proof.
  revert done_ h result. induction els as [|r els IH]; intros done_ h result Hnd Hr Hs.
  { simpl. by rewrite app_nil_r. }
  cbn [fold_left]. destruct (prepare_edge projectName flowName shared (h, result) r) as [h1 result1] eqn:E.
  assert (E1 : h1 = (prepare_edge projectName flowName shared (h, result) r).1) by by rewrite E.
  assert (E2 : result1 = (prepare_edge projectName flowName shared (h, result) r).2) by by rewrite E.
  rewrite (app_assoc done_ [r] els : done_ ++ r :: els = _).
  apply (IH (done_ ++ [r])); [by rewrite <- app_assoc| |].
  - subst. intros n s Hn Ht. rewrite prepare_edge_fields in Ht by (left; done).
    apply prepare_edge_result in Hn as [Hn|[-> Ht']]; [|by rewrite Ht' in Ht].
    rewrite prepare_edge_ports. destruct (Hr _ _ Hn Ht) as [Hp Hid]. split; [done|].
    destruct (decide (r = s)) as [->|Hne]; [|by rewrite prepare_edge_fields by auto].
    unfold prepare_edge. destruct (is_nil _); [done|]. destruct (IsEdge _) eqn:Ee; [|done].
    apply is_edge_type in Ee. unfold el_get in Ht. by rewrite Ee in Ht.
  - subst. intros r' [Hr'|Hr']%elem_of_app; [|apply list_elem_of_singleton in Hr' as ->; apply prepare_edge_settled].
    assert (r <> r').
    { intros ->. apply NoDup_app in Hnd as (_ & Hx & _). apply (Hx r' Hr'). left. }
    intros He Hi. rewrite (is_edge_fields h) in He by (intros; apply prepare_edge_fields; auto).
    rewrite prepare_edge_fields in Hi by auto.
    rewrite (port_name_fields _ h), prepare_edge_fields by (try apply prepare_edge_fields; auto).
    by apply Hs.
Qed.

Lemma prepare_port_fields (shared : gset string) (result : Request) (h : Heap) (r r' : nat) (k : string) :
  k <> "_ports" -> el_get (prepare_port projectName flowName shared result h r) r' k = el_get h r' k.
Proof.
  intros Hk. unfold prepare_port. destruct (negb _); [done|]. destruct (result !! _); [|done].
  destruct (el_ports _); [|done]. by apply el_get_set_ports.
Qed.

Definition listed_at (shared : gset string) (result : Request) (h : Heap) (s r : nat) : bool :=
  IsEdge (el_map (el_at h r)) && bool_decide (result !! port_name shared h r = Some s).

Lemma prepare_ports (els : list nat) (shared : gset string) (result : Request) (h : Heap) :
  let h' := fold_left (prepare_port projectName flowName shared result) els h in
  (forall r k, k <> "_ports" -> el_get h' r k = el_get h r k) /\
  (forall s, el_ports (el_at h' s) =
     (fun p => p ++ List.filter (listed_at shared result h s) els) <$> el_ports (el_at h s)).
Proof.
  revert h. induction els as [|r els IH]; intros h.
  { split; [done|]. intros s. simpl. destruct (el_ports _); [|done]. simpl. by rewrite app_nil_r. }
  cbn [fold_left]. destruct (IH (prepare_port projectName flowName shared result h r)) as [Hf Hp].
  assert (Hf1 : forall r' k, k <> "_ports" ->
    el_get (prepare_port projectName flowName shared result h r) r' k = el_get h r' k)
    by (intros; by apply prepare_port_fields).
  split; [intros; rewrite Hf by done; by apply Hf1|]. intros s. rewrite Hp.
  assert (Hl : forall x, listed_at shared result (prepare_port projectName flowName shared result h r) s x =
    listed_at shared result h s x).
  { intros x. unfold listed_at. rewrite (is_edge_fields h) by (intros; by apply Hf1).
    by rewrite (port_name_fields shared h) by (by apply Hf1). }
  rewrite (List.filter_ext _ _ Hl). unfold prepare_port at 1. cbn [List.filter].
  change (listed_at shared result h s r)
    with (IsEdge (el_map (el_at h r)) && bool_decide (result !! port_name shared h r = Some s)).
  fold (port_name shared h r). destruct (IsEdge _); cbn [negb andb]; [|done].
  destruct (result !! port_name shared h r) as [s'|] eqn:Es; [|done].
  destruct (el_ports (el_at h s')) as [ps|] eqn:Ep; case_bool_decide as Eb; simplify_eq.
  - rewrite el_ports_set_ports, bool_decide_eq_true_2, Ep by done. simpl. by rewrite <- app_assoc.
  - rewrite el_ports_set_ports, bool_decide_eq_false_2 by congruence. done.
  - by rewrite Ep.
  - done.
Qed.

(** The request map of an edited flow hands each node exactly its edges: a node
    is under its (renamed) id, and the identified edges of its [_ports] are
    those edge elements, in the request's order, whose (renamed) source is the
    node. *)
Theorem build_request_ports (h : Heap) (els : list nat) :
  NoDup els ->
  exists h' req, BuildRequestElementsMapFromSlice projectName flowName h (Some els) = Ok (h', req) /\
  forall n s, req !! n = Some s -> el_get h' s "type" = JStr TinyNodeType ->
    GetStr (el_get h' s "id") = n /\
    exists ports, el_ports (el_at h' s) = Some ports /\
      List.filter (fun r => negb (is_nil (el_get h' r "id"))) ports = List.filter (leaves h' n) els.
Proof.
  intros Hnd. unfold BuildRequestElementsMapFromSlice.
  pose proof (prepare_node_ready els [] h ∅ ∅ Hnd) as H1.
  destruct (fold_left (prepare_node _ _) els _) as [[h1 req1] shared].
  pose proof (prepare_edges els [] shared h1 req1 Hnd) as H2.
  destruct (fold_left (prepare_edge _ _ _) els _) as [h2 req].
  destruct H2 as [Hready Hset];
    [apply H1; [intros n s Hn; by rewrite lookup_empty in Hn..]|intros r Hr; by apply not_elem_of_nil in Hr|].
  destruct (prepare_ports els shared req h2) as [Hf Hp].
  set (h3 := fold_left _ els h2) in *. exists h3, req. split; [done|]. intros n s Hn Ht.
  rewrite Hf in Ht by done. destruct (Hready _ _ Hn Ht) as [Hs Hid]. rewrite Hf by done. split; [done|].
  exists (List.filter (listed_at shared req h2 s) els). split; [by rewrite Hp, Hs|].
  assert (Hin : forall r, r ∈ els -> settled shared h2 r) by done. clearbody h3. clear Hset Hp Hnd H1.
  induction els as [|r els IH]; [done|]. cbn [List.filter].
  assert (E : listed_at shared req h2 s r && negb (is_nil (el_get h3 r "id")) = leaves h3 n r).
  { unfold listed_at, leaves. rewrite (is_edge_fields h2 h3), !Hf by (done || (intros; by apply Hf)).
    pose proof (Hin r (list_elem_of_here _ _)) as Hr. unfold settled in Hr.
    destruct (IsEdge _); [|done]. destruct (is_nil _); [by rewrite andb_false_r|].
    rewrite Hr by done. rewrite andb_true_r. simpl. case_bool_decide as Eb.
    - symmetry. apply String.eqb_eq. destruct (Hready _ _ Eb Ht) as [_ <-]. done.
    - symmetry. apply String.eqb_neq. intros Heq. by rewrite Heq in Eb. }
  rewrite <- E. destruct (listed_at _ _ _ _ _); simpl; [destruct (negb _)|];
    rewrite IH by (intros; apply Hin; by right); done.
Qed.

End build.

Section build_witness.
Let node (id : string) : list (string * json) :=
  [("id", JStr id); ("type", JStr "tinyNode"); ("data", JObj [])].
Let edge : list (string * json) :=
  [("id", JStr "e"); ("type", JStr "tinyEdge"); ("source", JStr "a"); ("sourceHandle", JStr "out");
   ("target", JStr "b"); ("targetHandle", JStr "in")].
Let h : Heap := heap_of [edge; node "a"; node "b"].

(** The node under its new name lists the edge. *)
Lemma build_request_ports_witness :
  exists h' req, @BuildRequestElementsMapFromSlice md5_some "p" "f" h (Some [0; 1; 2]) = Ok (h', req) /\
    req !! "01234567.a" = Some 1 /\ el_ports (el_at h' 1) = Some [0] /\
    exists ports, el_ports (el_at h' 1) = Some ports /\
      List.filter (fun r => negb (is_nil (el_get h' r "id"))) ports =
      List.filter (leaves h' "01234567.a") [0; 1; 2].
Proof.
  destruct (@build_request_ports md5_some "p" "f" h [0; 1; 2]) as (h' & req & E & Hspec).
  { repeat constructor; set_solver. }
  set (r := BuildRequestElementsMapFromSlice _ _ _ _) in E.
  assert (Hn : match r with Ok (_, req) => req !! "01234567.a" | Err _ => None end = Some 1)
    by (vm_compute; reflexivity).
  assert (Hp : match r with Ok (h', _) => el_ports (el_at h' 1) | Err _ => None end = Some [0])
    by (vm_compute; reflexivity).
  assert (Ht : match r with Ok (h', _) => el_get h' 1 "type" | Err _ => JNull end = JStr "tinyNode")
    by (vm_compute; reflexivity).
  rewrite E in Hn, Hp, Ht.
  exists h', req. split_and!; [exact E|exact Hn|exact Hp|]. apply (Hspec _ _ Hn). by rewrite Ht.
Defined.
End build_witness.

(** ** Port configurations *)

Section configs.
  Context `{HashSort} `{MapRange nat} (marshal : json -> string).

(** The handles of a node whose configuration a request saves. *)
Definition saved_handles (h : Heap) (el : nat) : list (list (string * json)) :=
  match as_obj (el_get h el "data") with
  | None => []
  | Some data =>
      match fld data "handles" with
      | JArr handles =>
          List.filter (fun m => (GetStr (fld m "id") =? SettingsPort) && negb (is_nil (fld m "configuration")))
            (omap as_obj handles)
      | _ => []
      end
  end.

Lemma filter_and {A} (p q : A -> bool) (l : list A) :
  List.filter q (List.filter p l) = List.filter (fun x => p x && q x) l.
Proof.
  induction l as [|x l IH]; [done|]. simpl. destruct (p x); simpl; [|done].
  by destruct (q x); rewrite IH.
Qed.

Lemma omap_ext_in {A B} (f g : A -> option B) (l : list A) :
  (forall x, x ∈ l -> f x = g x) -> omap f l = omap g l.
Proof.
  induction l as [|x l IH]; intros Hfg; [done|]. csimpl. rewrite (Hfg x) by left.
  rewrite IH by (intros; apply Hfg; by right). done.
Qed.


(** Saving port configurations keeps, of what was there, exactly the
    configurations of other flows: the flow's own are replaced by the request's
    and those without a flow are gone, whatever the request holds; with an
    empty flow id nothing of the request is kept either. *)
Theorem update_port_configs_exact (ports : list TinyNodePortConfig) (flowID nodeID : string)
    (h : Heap) (req : Request) (el : nat) (data : list (string * json)) :
  req !! nodeID = Some el -> as_obj (el_get h el "data") = Some data ->
  exists new, UpdatePortConfigsFromRequest marshal ports flowID nodeID h req ≡ₚ
      List.filter (fun pc => negb (pc_FlowID pc =? flowID) && negb (pc_FlowID pc =? "")) ports ++ new /\
    (flowID = "" -> new = []) /\
    forall pc, pc ∈ new <-> flowID <> "" /\ exists hp,
      (hp ∈ handle_ports marshal marshal data \/
       exists r, r ∈ (map_range req).*2 /\
         edge_port marshal (fun _ sc => if is_nil sc then "" else marshal sc) h nodeID r = Some hp) /\
      convert_port (fold_left (existing_config flowID) ports ∅) flowID hp = Some pc.
Proof.
  intros Hr Hd. unfold UpdatePortConfigsFromRequest, update_configs. rewrite Hr, Hd.
  set (hps := handle_ports marshal marshal data ++ _).
  set (ex := fold_left _ ports ∅).
  exists (cleanLegacyPortConfigs (omap (convert_port ex flowID) hps)).
  assert (Hflow : forall hp pc, convert_port ex flowID hp = Some pc -> pc_FlowID pc = flowID).
  { intros hp pc. unfold convert_port. destruct (_ && _); [done|].
    destruct (if (_ && _) : bool then _ else _) as [sc conf].
    destruct (_ && _); [done|]. by intros [= <-]. }
  assert (Hin : forall pc, pc ∈ cleanLegacyPortConfigs (omap (convert_port ex flowID) hps) <->
    flowID <> "" /\ exists hp, hp ∈ hps /\ convert_port ex flowID hp = Some pc).
  { intros pc. unfold cleanLegacyPortConfigs. rewrite list_elem_of_In, filter_In, <- list_elem_of_In, list_elem_of_omap.
    split.
    - intros [(hp & Hin & Hc) Hf]. pose proof (Hflow _ _ Hc) as E. rewrite E in Hf.
      split; [by destruct (String.eqb_spec flowID "")|by exists hp].
    - intros [Hne (hp & Hin & Hc)]. split; [by exists hp|]. rewrite (Hflow _ _ Hc).
      by destruct (String.eqb_spec flowID ""). }
  split_and!.
  - rewrite sort_configs_perm. unfold cleanLegacyPortConfigs. rewrite List.filter_app.
    by rewrite filter_and.
  - intros ->. destruct (cleanLegacyPortConfigs _) as [|pc l] eqn:E; [done|].
    assert (Hpc : pc ∈ pc :: l) by left. apply Hin in Hpc as [? _]. done.
  - intros pc. rewrite Hin. unfold hps. setoid_rewrite elem_of_app. setoid_rewrite list_elem_of_omap.
    split; intros [Hne (hp & Hhp & Hc)]; (split; [done|]); exists hp; (split; [|done]).
    + destruct Hhp as [?|(kr & Hkr & He)]; [by left|right]. exists kr.2. split; [|done].
      by apply list_elem_of_fmap_2.
    + destruct Hhp as [?|(r & (kr & -> & Hkr)%list_elem_of_fmap & He)]; [by left|right]. by exists kr.
Qed.

End configs.

Section configs_witness.
Let sorter : HashSort.
Proof.
  refine {| config_hash := fun _ => 0%N; sort_configs := fun l => l |}; [done|].
  induction l as [|x l IH]; constructor; [done|]. destruct l; constructor. done.
Defined.
Let h : Heap := {[ 0 := mkElement [("id", JStr "n"); ("type", JStr "tinyNode");
  ("data", JObj [("handles", JArr [JObj [("id", JStr "_settings"); ("configuration", JBool true); ("schema", JBool false)]])])] None ]}.
Let m : json -> string := fun v => match v with JBool true => "true" | JBool false => "false" | _ => "null" end.
Let ports : list TinyNodePortConfig :=
  [mkPortConfig "" "_settings" "s" "c" "f"; mkPortConfig "a:out" "in" "s" "c" "g"; mkPortConfig "b:out" "in" "s" "c" ""].


(** The other flow's stays, the flow's is replaced, the one without a flow is gone. *)
Lemma update_port_configs_exact_witness :
  @UpdatePortConfigsFromRequest sorter (map_range_some_order nat) m ports "f" "n" h {[ "n" := 0 ]} =
    [mkPortConfig "a:out" "in" "s" "c" "g"; mkPortConfig "" "_settings" "false" "true" "f"] /\
  exists new, @UpdatePortConfigsFromRequest sorter (map_range_some_order nat) m ports "f" "n" h {[ "n" := 0 ]} ≡ₚ
    [mkPortConfig "a:out" "in" "s" "c" "g"] ++ new.
Proof.
  split; [vm_compute; reflexivity|].
  destruct (@update_port_configs_exact sorter (map_range_some_order nat) m ports "f" "n" h {[ "n" := 0 ]} 0
    [("handles", JArr [JObj [("id", JStr "_settings"); ("configuration", JBool true); ("schema", JBool false)]])])
    as (new & E & _); [vm_compute; reflexivity..|].
  exists new. exact E.
Defined.
End configs_witness.
