(* ===== verification/Cleaning.v ===== *)
(** * Elements of the running editor

    [pkg/utils/flow.go]: the animation flag of elements from their statistics,
    and the removal of runtime fields for an export. An element is a Go map
    whose [data] and [handles] are maps again, and a copy of the outer map
    shares them, so maps live in a store and a value refers to them. *)
From S2P Require Import Prelude GoErrors Graph.
From Stdlib Require Import SpecFloat.

Open Scope string_scope.
Open Scope list_scope.

(** A value in an element: numbers as float64, maps by reference. *)
Inductive gov : Type :=
| GNil
| GBool (b : bool)
| GFloat (f : spec_float)
| GInt (z : Z)
| GText (s : string)
| GSlice (l : list gov)
| GMap (r : nat).

Abbreviation GoMap := (gmap string gov).
Abbreviation Store := (gmap nat GoMap).

Definition map_at (h : Store) (r : nat) : GoMap := default ∅ (h !! r).
Definition as_map (v : option gov) : option nat := match v with Some (GMap r) => Some r | _ => None end.

(** [delete(m, k)] for each of [ks]. *)
Definition without (ks : list string) (m : GoMap) : GoMap := foldr delete m ks.
Definition delete_keys (h : Store) (r : nat) (ks : list string) : Store :=
  <[r := without ks (map_at h r)]> h.

Definition EdgeBusyStatKey : string := "tiny_edge_busy".

(** [EdgeAnimationTimeout.Seconds()]. *)
Definition EdgeAnimationTimeout : spec_float := binary_normalize 53 1024 7 0 false.

Definition float_of_Z (z : Z) : spec_float := binary_normalize 53 1024 z 0 false.

Definition IsEdgeAnimated (stats : option GoMap) (now : spec_float) : bool :=
  match stats with
  | None => false
  | Some stats =>
      let ts := match stats !! EdgeBusyStatKey with
                | Some (GFloat f) => Some f
                | Some (GInt z) => Some (float_of_Z z)
                | _ => None
                end in
      match ts with
      | None => false
      | Some ts => SFltb (SFsub 53 1024 now ts) EdgeAnimationTimeout
      end
  end.

Definition process_stats (now : spec_float) (h : Store) (element : nat) : Store :=
  match as_map (map_at h element !! "data") with
  | None => h
  | Some data =>
      match as_map (map_at h data !! "stats") with
      | None => h
      | Some stats =>
          <[element := <["animated" := GBool (IsEdgeAnimated (Some (map_at h stats)) now)]> (map_at h element)]> h
      end
  end.

Definition ProcessStatsForElements (elements : list nat) (now : spec_float) (h : Store) : Store :=
  fold_left (process_stats now) elements h.

Definition common_keys : list string :=
  ["events"; "sourceNode"; "targetNode"; "isParent"; "dragging"; "initialized"; "selected"; "resizing";
   "computedPosition"; "labelBgStyle"; "handleBounds"].
Definition edge_keys : list string := ["animated"; "sourceX"; "sourceY"; "targetX"; "targetY"].
Definition edge_data_keys : list string := ["error"; "stats"].
Definition node_data_keys : list string :=
  ["stats"; "emit"; "blocked"; "status"; "error"; "emitting"; "disabled"; "last_status_update"].
Definition handle_keys : list string := ["style"; "class"].

Definition clean_handle (h : Store) (v : gov) : Store :=
  match v with GMap r => delete_keys h r handle_keys | _ => h end.

(** The copy is a new map: the first reference the store does not have. *)
Definition CleanElementForExport (h : Store) (element : nat) (isEdge : bool) : Store * nat :=
  let cleaned := fresh (dom h) in
  let h := <[cleaned := without common_keys (map_at h element)]> h in
  if isEdge then
    let h := delete_keys h cleaned edge_keys in
    match as_map (map_at h cleaned !! "data") with
    | Some data => (delete_keys h data edge_data_keys, cleaned)
    | None => (h, cleaned)
    end
  else
    match as_map (map_at h cleaned !! "data") with
    | Some data =>
        let h := delete_keys h data node_data_keys in
        match map_at h data !! "handles" with
        | Some (GSlice handles) => (fold_left clean_handle handles h, cleaned)
        | _ => (h, cleaned)
        end
    | None => (h, cleaned)
    end.

(** ** Theorems *)

Lemma without_lookup (ks : list string) (m : GoMap) (k : string) :
  without ks m !! k = if bool_decide (k ∈ ks) then None else m !! k.
Proof.
  unfold without. induction ks as [|x ks IH]; [done|]. simpl.
  destruct (decide (x = k)) as [->|Hne].
  - rewrite lookup_delete_eq, bool_decide_eq_true_2; [done|left].
  - rewrite lookup_delete_ne, IH by done.
    rewrite (bool_decide_ext (k ∈ x :: ks) (k ∈ ks)); [done|]. rewrite elem_of_cons. naive_solver.
Qed.

Lemma without_kept (ks : list string) (m : GoMap) (k : string) :
  existsb (String.eqb k) ks = false -> without ks m !! k = m !! k.
Proof.
  intros E. rewrite without_lookup, bool_decide_eq_false_2; [done|]. intros Hin%list_elem_of_In.
  by rewrite <- not_true_iff_false, existsb_exists in E; apply E; exists k; rewrite String.eqb_refl.
Qed.

Lemma without_dropped (ks : list string) (m : GoMap) (k : string) :
  existsb (String.eqb k) ks = true -> without ks m !! k = None.
Proof.
  intros (x & Hin & ->%String.eqb_eq)%existsb_exists.
  rewrite without_lookup, bool_decide_eq_true_2; [done|]. by apply list_elem_of_In.
Qed.

Lemma map_at_delete_keys (h : Store) (r r' : nat) (ks : list string) :
  map_at (delete_keys h r ks) r' = if bool_decide (r = r') then without ks (map_at h r') else map_at h r'.
Proof.
  unfold delete_keys, map_at at 1. case_bool_decide as E.
  - subst. by rewrite lookup_insert_eq.
  - by rewrite lookup_insert_ne.
Qed.

Lemma clean_handles_other (l : list gov) (h : Store) (r : nat) :
  GMap r ∉ l -> map_at (fold_left clean_handle l h) r = map_at h r.
Proof.
  revert h. induction l as [|v l IH]; intros h Hr; [done|]. simpl.
  apply not_elem_of_cons in Hr as [Hv Hr]. rewrite IH by done.
  destruct v as [| | | | | |r']; try done. simpl. rewrite map_at_delete_keys.
  rewrite bool_decide_eq_false_2; [done|]. congruence.
Qed.

(** What an export drops: the cleaned element is a new map with the element's
    entries less the runtime fields, and the element's own map stays as it is.
    Its [data] is not copied: the cleaned element refers to the same map, whose
    statistics, status and error are deleted there, so the element that is still
    on the canvas loses them. *)
Theorem clean_shares_data (h : Store) (element data : nat) (isEdge : bool) :
  element ∈ dom h -> data ∈ dom h -> data <> element ->
  map_at h element !! "data" = Some (GMap data) ->
  (forall l, map_at h data !! "handles" = Some (GSlice l) -> GMap element ∉ l /\ GMap data ∉ l /\
     forall r, GMap r ∈ l -> r ∈ dom h) ->
  let '(h', cleaned) := CleanElementForExport h element isEdge in
  cleaned <> element /\
  map_at h' element = map_at h element /\
  map_at h' cleaned = without (if isEdge then edge_keys ++ common_keys else common_keys) (map_at h element) /\
  map_at h' cleaned !! "data" = Some (GMap data) /\
  map_at h' data = without (if isEdge then edge_data_keys else node_data_keys) (map_at h data) /\
  map_at h' data !! "stats" = None.
Proof.
  intros He Hd Hne Hdata Hh. unfold CleanElementForExport.
  set (c := fresh (dom h)). assert (Hc : c ∉ dom h) by apply is_fresh.
  assert (Hce : c <> element) by congruence. assert (Hcd : c <> data) by congruence.
  set (h1 := <[c := without common_keys (map_at h element)]> h).
  assert (H1c : map_at h1 c = without common_keys (map_at h element))
    by (unfold map_at at 1, h1; by rewrite lookup_insert_eq).
  assert (H1 : forall r, r <> c -> map_at h1 r = map_at h r)
    by (intros r Hr; unfold map_at, h1; by rewrite lookup_insert_ne).
  destruct isEdge.
  - set (h2 := delete_keys h1 c edge_keys).
    assert (H2c : map_at h2 c = without (edge_keys ++ common_keys) (map_at h element)).
    { unfold h2. rewrite map_at_delete_keys, bool_decide_eq_true_2, H1c by done.
      unfold without. by rewrite foldr_app. }
    assert (Hcdata : map_at h2 c !! "data" = Some (GMap data)).
    { rewrite H2c. by rewrite without_kept. }
    rewrite Hcdata. cbn [as_map]. rewrite !map_at_delete_keys, !(bool_decide_eq_false_2 (data = _)) by congruence.
    unfold h2 at 1. rewrite map_at_delete_keys, bool_decide_eq_false_2, H1 by congruence.
    rewrite (bool_decide_eq_true_2 (data = data)) by done.
    unfold h2 at 3 4. rewrite map_at_delete_keys, bool_decide_eq_false_2, (H1 data) by congruence.
    split_and!; try done. by apply without_dropped.
  - assert (Hcdata : map_at h1 c !! "data" = Some (GMap data)).
    { rewrite H1c. by rewrite without_kept. }
    rewrite Hcdata. cbn [as_map]. set (h2 := delete_keys h1 data node_data_keys).
    assert (H2 : forall r, r <> data -> map_at h2 r = map_at h1 r).
    { intros r Hr. unfold h2. rewrite map_at_delete_keys. by rewrite bool_decide_eq_false_2. }
    assert (H2d : map_at h2 data = without node_data_keys (map_at h data)).
    { unfold h2. rewrite map_at_delete_keys, bool_decide_eq_true_2, H1 by done. done. }
    assert (Hhs : map_at h2 data !! "handles" = map_at h data !! "handles").
    { rewrite H2d. by rewrite without_kept. }
    assert (Hgoal : forall l, (GMap element ∉ l /\ GMap data ∉ l /\ forall r, GMap r ∈ l -> r ∈ dom h) ->
      let h' := fold_left clean_handle l h2 in
      c <> element /\ map_at h' element = map_at h element /\
      map_at h' c = without common_keys (map_at h element) /\
      map_at h' c !! "data" = Some (GMap data) /\
      map_at h' data = without node_data_keys (map_at h data) /\ map_at h' data !! "stats" = None).
    { intros l (Hl1 & Hl2 & Hl3). cbv zeta. rewrite !clean_handles_other by (done || (intros Hx; by apply Hc, Hl3)).
      rewrite !H2, H1 by congruence. rewrite H2d, Hcdata. split_and!; try done. by apply without_dropped. }
    assert (Hnil := Hgoal [] (conj (not_elem_of_nil _) (conj (not_elem_of_nil _)
      (fun _ Hx => False_ind _ (not_elem_of_nil _ Hx))))). cbn [fold_left] in Hnil.
    rewrite Hhs. clear Hhs.
    destruct (map_at h data !! "handles") as [[| | | | |l|]|]; try exact Hnil.
    by apply Hgoal, Hh.
Qed.

(** An edge on the canvas loses its statistics by being exported. *)
Lemma clean_shares_data_witness :
  let h : Store := {[ 0 := {[ "type" := GText "tinyEdge"; "data" := GMap 1 ]};
                      1 := {[ "stats" := GMap 2; "configuration" := GText "c" ]} ]} in
  map_at h 1 !! "stats" <> None /\
  map_at (CleanElementForExport h 0 true).1 (default 9 (as_map (map_at h 0 !! "data"))) !! "stats" = None.
Proof.
  split; [vm_compute; congruence|].
  pose proof (clean_shares_data {[ 0 := {[ "type" := GText "tinyEdge"; "data" := GMap 1 ]};
    1 := {[ "stats" := GMap 2; "configuration" := GText "c" ]} ]} 0 1 true) as T.
  destruct (CleanElementForExport _ 0 true) as [h' c] eqn:E.
  apply T.
  - set_solver.
  - set_solver.
  - discriminate.
  - vm_compute. reflexivity.
  - intros l Hl. vm_compute in Hl. discriminate.
Defined.
