(* ===== verification/GraphExport.v ===== *)
(** * Export of a flow graph

    [pkg/utils/nodes.go]: the nodes of a project as the elements of the editor's
    graph, with every setting ([NodesToGraphWithOptions]) or in the minimal form
    ([ExportNodes]), and the maps of ports, configurations and destinations the
    tools work on.

    An exported map holds values of several types: JSON values, byte slices that
    are JSON already ([json.RawMessage]) and nested maps and slices. [encode] is
    what a reader decodes from the encoded map. The sanitizer of HTML
    ([bluemonday]) is a parameter. *)
From S2P Require Import Prelude GoErrors Names Graph Json Backoff Schema Elements.

Open Scope string_scope.
Open Scope list_scope.

(** ** Nodes with the metadata the editor uses *)

Record GraphNode := mkGraphNode {
  gn_node : TinyNode;
  gn_annotations : gmap string string;
  gn_module : string;             (* Status.Module.Name *)
  gn_lastUpdate : option Z;       (* Status.LastUpdateTime, in Unix seconds *)
}.

Definition DashboardLabel : string := "tinysystems.io/dashboard".
Definition DashboardPageAnnotation : string := "tinysystems.io/dashboard-page".
Definition NodeHandlesAnnotation : string := "tinysystems.io/node-handles".
Definition SharedWithFlowsAnnotation : string := "tinysystems.io/shared-with-flows".
Definition ComponentPosXAnnotation : string := "tinysystems.io/component-pos-x".
Definition ComponentPosYAnnotation : string := "tinysystems.io/component-pos-y".
Definition ComponentPosSpinAnnotation : string := "tinysystems.io/component-pos-spin".
Definition NodeLabelAnnotation : string := "tinysystems.io/node-label".
Definition NodeCommentAnnotation : string := "tinysystems.io/node-comment".

Definition gn_name (n : GraphNode) : string := n_Name (gn_node n).
Definition gn_ports (n : GraphNode) : list TinyNodePortConfig := spec_Ports (n_Spec (gn_node n)).
Definition gn_edges (n : GraphNode) : list TinyNodeEdge := spec_Edges (n_Spec (gn_node n)).
Definition gn_status (n : GraphNode) : TinyNodeStatus := n_Status (gn_node n).
Definition annotation (n : GraphNode) (k : string) : string := default "" (gn_annotations n !! k).

(** ** Exported values *)

Inductive gval : Type :=
| GV (v : json)
| GRaw (s : string)                      (* json.RawMessage; no bytes is null *)
| GSlice (l : list gval)
| GDict (m : list (string * gval)).

Definition GStr (s : string) : gval := GV (JStr s).
Definition GNum (z : Z) : gval := GV (JNum (go_itoa z)).
Definition GBool (b : bool) : gval := GV (JBool b).

(** [m[k] = v]. *)
Fixpoint dict_set (k : string) (v : gval) (m : list (string * gval)) : list (string * gval) :=
  match m with
  | [] => [(k, v)]
  | (k', v') :: m' => if k' =? k then (k, v) :: m' else (k', v') :: dict_set k v m'
  end.

Section encode.
  Variable unmarshal : string -> option json.

(** What is decoded from the encoded value; [None] where a raw message is not
    JSON, and nothing can be encoded. *)
Fixpoint encode (v : gval) : option json :=
  match v with
  | GV v => Some v
  | GRaw s => if s =? "" then Some JNull else unmarshal s
  | GSlice l =>
      JArr <$> (fix go l := match l with
                | [] => Some []
                | x :: l' => match encode x, go l' with Some y, Some k => Some (y :: k) | _, _ => None end
                end) l
  | GDict m =>
      JObj <$> (fix go m := match m with
                | [] => Some []
                | (k, x) :: m' => match encode x, go m' with Some y, Some n => Some ((k, y) :: n) | _, _ => None end
                end) m
  end.

End encode.

(** ** Definitions collected from a node *)

Section export.
  Context `{MapRange GraphNode} `{MapRange json}.
  Variable unmarshal : string -> result goerror json.        (* ajson *)
  Variable marshal : json -> result goerror string.          (* ajson *)
  Variable json_unmarshal : string -> option json.           (* goccy/go-json *)
  Variable sanitize : string -> string.                      (* bluemonday *)

Definition GetConfigurableDefinitions (node : GraphNode) (from : option string) : gmap string json :=
  let defs := fold_left (fun defs v =>
    (CollectDefinitions unmarshal (ps_Schema v) defs (Some FilterShared)).1) (st_Ports (gn_status node)) ∅ in
  fold_left (fun defs port =>
    let skip := match from with
                | Some f => negb (pc_From port =? "") && negb (pc_From port =? f)
                | None => false
                end in
    if skip then defs
    else (CollectDefinitions unmarshal (pc_Schema port) defs (Some FilterConfigurable)).1)
    (gn_ports node) defs.

(** Definitions of the target take precedence. *)
Definition MergeConfigurableDefinitions (targetDefs sourceDefs : gmap string json) : gmap string json :=
  targetDefs ∪ sourceDefs.

Definition GetPortExampleMap (nodesMap : gmap string GraphNode) : gmap string string :=
  fold_left (fun examples kn =>
    fold_left (fun examples np =>
      if negb (ps_Source np) || (ps_Configuration np =? "") then examples
      else <[GetPortFullName (gn_name kn.2) (ps_Name np) := ps_Configuration np]> examples)
      (st_Ports (gn_status kn.2)) examples) (map_range nodesMap) ∅.

Fixpoint checkSliceStr (str : string) (sl : list string) : bool :=
  match sl with
  | [] => false
  | s :: sl' => if str =? s then true else checkSliceStr str sl'
  end.

(** ** A node as an element *)

(** [strconv.Atoi] of an annotation that is set; the number it returns next to an
    error otherwise. *)
Definition annotation_int (n : GraphNode) (k : string) (missing : Z) : Z :=
  if annotation n k =? "" then missing else go_atoi_value (annotation n k).

Definition node_spin (n : GraphNode) : Z := annotation_int n ComponentPosSpinAnnotation 0.

Definition node_position (n : GraphNode) : gval :=
  GDict [("x", GNum (annotation_int n ComponentPosXAnnotation 600));
         ("y", GNum (annotation_int n ComponentPosYAnnotation 200))].

Definition node_label (n : GraphNode) : string :=
  if annotation n NodeLabelAnnotation =? "" then st_Description (gn_status n)
  else annotation n NodeLabelAnnotation.

(** The handles an annotation stores. *)
Definition stored_handles (n : GraphNode) : gmap string gval :=
  match json_unmarshal (annotation n NodeHandlesAnnotation) with
  | Some (JObj m) => if annotation n NodeHandlesAnnotation =? "" then ∅ else GV <$> list_to_map m
  | _ => ∅
  end.

Definition base_handle (spin : Z) (v : TinyNodePortStatus) : list (string * gval) :=
  [("id", GStr (ps_Name v)); ("type", GStr (if ps_Source v then "source" else "target"));
   ("position", GNum (ps_Position v));
   ("rotated_position", GNum (Z.rem (wrap64 (ps_Position v + spin)) 4));
   ("label", GStr (ps_Label v))].

(** The configuration the node's spec has for a port of its own. *)
Definition own_configuration (n : GraphNode) (port dflt : string) : string :=
  fold_left (fun acc pc => if negb (pc_From pc =? "") || negb (pc_Port pc =? port) then acc
                           else pc_Configuration pc) (gn_ports n) dflt.

Definition full_handle (n : GraphNode) (defs : gmap string json) (v : TinyNodePortStatus)
    : list (string * gval) :=
  let s := match UpdateWithDefinitions unmarshal marshal (ps_Schema v) defs with
           | Ok s => s
           | Err _ => ps_Schema v
           end in
  base_handle (node_spin n) v ++
  [("schema", GRaw s);
   ("configuration", GRaw (if ps_Source v then ps_Configuration v
                           else own_configuration n (ps_Name v) (ps_Configuration v)))].

(** Sorted by key; a node without handles has the nil slice. *)
Definition handles_slice (handles : gmap string gval) : gval :=
  match go_sort_strings (map_to_list handles).*1 with
  | [] => GV JNull
  | ks => GSlice (map (fun k => default (GV JNull) (handles !! k)) ks)
  end.

Definition set_nonempty (k v : string) (m : list (string * gval)) : list (string * gval) :=
  if v =? "" then m else dict_set k (GStr v) m.

Definition ApiNodeToMap (n : GraphNode) (data : list (string * gval)) (minimal : bool)
    : list (string * gval) :=
  let node := gn_node n in
  let data := set_nonempty "dashboard_page" (annotation n DashboardPageAnnotation) data in
  let defs := GetConfigurableDefinitions n None in
  let handlesMap := fold_left (fun hm v =>
    <[ps_Name v := GDict (if minimal then base_handle (node_spin n) v else full_handle n defs v)]> hm)
    (st_Ports (gn_status n)) (stored_handles n) in
  let data := dict_set "component" (GStr (sanitize (spec_Component (n_Spec node)))) data in
  let data := set_nonempty "component_description" (sanitize (st_Description (gn_status n))) data in
  let data := dict_set "component_info" (GStr (sanitize (st_Info (gn_status n)))) data in
  let data := if minimal then data
              else
                let data := dict_set "error" (GBool (st_Error (gn_status n))) data in
                let data := dict_set "status" (GStr (sanitize (st_Status (gn_status n)))) data in
                match gn_lastUpdate n with
                | Some t => dict_set "last_status_update" (GNum t) data
                | None => data
                end in
  let data := dict_set "module" (GStr (sanitize (spec_Module (n_Spec node)))) data in
  let data := dict_set "handles" (handles_slice handlesMap) data in
  let data := dict_set "spin" (GNum (node_spin n)) data in
  let data := set_nonempty "shared_with_flows" (sanitize (annotation n SharedWithFlowsAnnotation)) data in
  let data := set_nonempty "dashboard" (sanitize (label node DashboardLabel)) data in
  let data := dict_set "flow_id" (GStr (sanitize (label node FlowNameLabel))) data in
  let data := dict_set "label" (GStr (sanitize (node_label n))) data in
  [("type", GStr "tinyNode"); ("position", node_position n); ("data", GDict data);
   ("id", GStr (gn_name n))].

Definition ApiEdgeToProtoMap (n : GraphNode) (edge : TinyNodeEdge) (data : list (string * gval))
    : result goerror (list (string * gval)) :=
  match go_split ":" (e_To edge) with
  | [toNode; toPort] =>
      Ok [("id", GStr (e_ID edge)); ("source", GStr (sanitize (gn_name n)));
          ("sourceHandle", GStr (e_Port edge)); ("target", GStr toNode); ("targetHandle", GStr toPort);
          ("type", GStr "tinyEdge"); ("label", GStr "x"); ("data", GDict data)]
  | _ => Err (ErrorString ("edge's to property: `" +:+ e_To edge +:+ "` is invalid"))
  end.

(** ** The graph *)

(** The configurations nodes have for their ports, by full port name. *)
Definition port_configs_by (keep : TinyNodePortConfig -> bool) (nodes : list GraphNode)
    : gmap string (list TinyNodePortConfig) :=
  fold_left (fun m node =>
    fold_left (fun m pc =>
      if keep pc
      then let k := GetPortFullName (gn_name node) (pc_Port pc) in
           <[k := default [] (m !! k) ++ [pc]]> m
      else m) (gn_ports node) m) nodes ∅.

Definition edge_config (configs : list TinyNodePortConfig) (from port : string)
    : option TinyNodePortConfig :=
  List.find (fun pc => (pc_From pc =? from) && (pc_Port pc =? port)) configs.

Definition raw_nonempty (k v : string) (m : list (string * gval)) : list (string * gval) :=
  if v =? "" then m else dict_set k (GRaw v) m.

Definition edge_elements (portConfigMap : gmap string (list TinyNodePortConfig)) (nodeName : string)
    (node : GraphNode) : list (list (string * gval)) :=
  omap (fun edge =>
    let pc := edge_config (default [] (portConfigMap !! e_To edge))
                (GetPortFullName nodeName (e_Port edge)) (ParseFullPortName (e_To edge)).2 in
    let data := [("valid", GBool true)] in
    let data := match pc with
                | Some pc => raw_nonempty "schema" (pc_Schema pc)
                               (raw_nonempty "configuration" (pc_Configuration pc) data)
                | None => data
                end in
    match ApiEdgeToProtoMap node edge data with Ok m => Some m | Err _ => None end) (gn_edges node).

(** Whether a flow shows a node, and whether it shows it blocked. *)
Definition shown_in (flowName : option string) (node : GraphNode) : option bool :=
  match flowName with
  | None => Some false
  | Some f =>
      let shared := checkSliceStr f (go_split "," (annotation node SharedWithFlowsAnnotation)) in
      if negb (label (gn_node node) FlowNameLabel =? f)
      then if shared then Some true else None
      else Some false
  end.

Definition NodesToGraphWithOptions (elements : gmap string GraphNode) (flowName : option string)
    (minimal : bool) : list (list (string * gval)) * list (list (string * gval)) :=
  let portConfigMap := port_configs_by (fun pc => negb (pc_From pc =? "")) (map snd (map_range elements)) in
  fold_left (fun acc kn =>
    let '(nodes, edges) := acc in
    let '(nodeName, node) := kn in
    match shown_in flowName node with
    | None => acc
    | Some blocked =>
        let m := [("comment", GStr (sanitize (annotation node NodeCommentAnnotation)))] in
        let m := if blocked : bool then dict_set "blocked" (GBool true) m else m in
        (nodes ++ [ApiNodeToMap node m minimal], edges ++ edge_elements portConfigMap nodeName node)
    end) (map_range elements) ([], []).

Definition NodesToGraph (elements : gmap string GraphNode) (flowName : option string) :=
  NodesToGraphWithOptions elements flowName true.

(** ** The minimal form *)

(** The settings handle gets the node's own configuration and schema. *)
Definition settings_of (defs : gmap string json) (hm : gmap string (list (string * gval)))
    (pc : TinyNodePortConfig) : gmap string (list (string * gval)) :=
  if negb (pc_From pc =? "") then hm
  else if negb (pc_Port pc =? SettingsPort) then hm
  else match hm !! pc_Port pc with
       | None => hm
       | Some ma =>
           let ma := raw_nonempty "configuration" (pc_Configuration pc) ma in
           let ma := if pc_Schema pc =? "" then ma
                     else match UpdateWithDefinitions unmarshal marshal (pc_Schema pc) defs with
                          | Ok s => dict_set "schema" (GRaw s) ma
                          | Err _ => dict_set "schema" (GRaw (pc_Schema pc)) ma
                          end in
           <[pc_Port pc := ma]> hm
       end.

Definition ApiNodeToMapMinimal (n : GraphNode) (data : list (string * gval)) : list (string * gval) :=
  let node := gn_node n in
  let data := set_nonempty "dashboard_page" (annotation n DashboardPageAnnotation) data in
  let defs := GetConfigurableDefinitions n None in
  let handlesMap := fold_left (fun hm v => <[ps_Name v := base_handle (node_spin n) v]> hm)
                      (st_Ports (gn_status n)) ∅ in
  let handlesMap := fold_left (settings_of defs) (gn_ports n) handlesMap in
  let data := dict_set "component" (GStr (sanitize (spec_Component (n_Spec node)))) data in
  let data := dict_set "module" (GStr (sanitize (spec_Module (n_Spec node)))) data in
  let data := dict_set "component_description" (GStr (sanitize (st_Description (gn_status n)))) data in
  let data := dict_set "component_info" (GStr (sanitize (st_Info (gn_status n)))) data in
  let data := dict_set "handles" (handles_slice (GDict <$> handlesMap)) data in
  let data := dict_set "spin" (GNum (node_spin n)) data in
  let data := set_nonempty "shared_with_flows" (sanitize (annotation n SharedWithFlowsAnnotation)) data in
  let data := set_nonempty "dashboard" (sanitize (label node DashboardLabel)) data in
  let data := dict_set "flow_id" (GStr (sanitize (label node FlowNameLabel))) data in
  let data := dict_set "label" (GStr (sanitize (node_label n))) data in
  [("type", GStr "tinyNode"); ("position", node_position n); ("data", GDict data);
   ("id", GStr (gn_name n))].

(** What [ExportNodes] takes of [GetFlowMaps]: the nodes in the order of their
    names; the configurations of every port, and the schemas of the ports'
    statuses. *)
Definition sorted_nodes (nodesMap : gmap string GraphNode) : list GraphNode :=
  omap (fun name => nodesMap !! name) (go_sort_strings (map_to_list nodesMap).*1).

Definition port_status_schemas (nodes : list GraphNode) : gmap string string :=
  fold_left (fun m node =>
    fold_left (fun m np => <[GetPortFullName (gn_name node) (ps_Name np) := ps_Schema np]> m)
      (st_Ports (gn_status node)) m) nodes ∅.

(** The target ports of the flow. *)
Definition target_ports (nodes : list GraphNode) : gset string :=
  fold_left (fun s node =>
    fold_left (fun s np => if ps_Source np then s
                           else {[ GetPortFullName (gn_name node) (ps_Name np) ]} ∪ s)
      (st_Ports (gn_status node)) s) nodes ∅.

Record Destination := mkDestination {
  dest_Name : string;
  dest_Configuration : string;
  dest_Schema : string;
}.

(** The senders of each port, in the order of the nodes' names. *)
Definition destinations (portConfigMap : gmap string (list TinyNodePortConfig)) (nodes : list GraphNode)
    : gmap string (list Destination) :=
  fold_left (fun m node =>
    fold_left (fun m edge =>
      let targetID := GetPortFullName (gn_name node) (e_Port edge) in
      let pc := edge_config (default [] (portConfigMap !! e_To edge)) targetID
                  (ParseFullPortName (e_To edge)).2 in
      let d := match pc with
               | Some pc => mkDestination targetID (pc_Configuration pc) (pc_Schema pc)
               | None => mkDestination targetID "" ""
               end in
      <[e_To edge := default [] (m !! e_To edge) ++ [d]]> m) (gn_edges node) m) nodes ∅.

(** The schema an export keeps of an edge: not the target port's own. *)
Definition kept_schema (num_eq : string -> string -> bool) (pc_schema defaultSchema : string) : bool :=
  negb (pc_schema =? "") &&
  (HasCustomDefinitions unmarshal pc_schema || negb (SchemasEqual json_unmarshal num_eq pc_schema defaultSchema)).

Definition minimal_edge_data (num_eq : string -> string -> bool) (nodesMap : gmap string GraphNode)
    (statusSchemas : gmap string string) (portConfigMap : gmap string (list TinyNodePortConfig))
    (target : GraphNode) (nodeName : string) (edge : TinyNodeEdge) : list (string * gval) :=
  let from := GetPortFullName nodeName (e_Port edge) in
  let defs := GetConfigurableDefinitions target (Some from) in
  match edge_config (default [] (portConfigMap !! e_To edge)) from (ParseFullPortName (e_To edge)).2 with
  | None => []
  | Some pc =>
      let schema :=
        if kept_schema num_eq (pc_Schema pc) (default "" (statusSchemas !! e_To edge))
        then match UpdateWithDefinitions unmarshal marshal (pc_Schema pc) defs with
             | Ok s => s
             | Err _ => ""
             end
        else "" in
      raw_nonempty "schema" schema (raw_nonempty "configuration" (pc_Configuration pc) [])
  end.

(** Edges first, then nodes. [GetFlowMaps] fails on no decoded schema. *)
Definition ExportNodes (num_eq : string -> string -> bool) (nodesMap : gmap string GraphNode)
    : list (list (string * gval)) :=
  let nodes := sorted_nodes nodesMap in
  let portConfigMap := port_configs_by (fun _ => true) nodes in
  let statusSchemas := port_status_schemas nodes in
  let '(edges, nodes) := fold_left (fun acc kn =>
    let '(edges, nodes) := acc in
    let '(nodeName, node) := kn in
    let m := set_nonempty "comment" (sanitize (annotation node NodeCommentAnnotation)) [] in
    (edges ++ omap (fun edge =>
       match nodesMap !! (ParseFullPortName (e_To edge)).1 with
       | None => None
       | Some target =>
           let data := minimal_edge_data num_eq nodesMap statusSchemas portConfigMap target nodeName edge in
           match ApiEdgeToProtoMap node edge data with Ok m => Some m | Err _ => None end
       end) (gn_edges node),
     nodes ++ [ApiNodeToMapMinimal node m])) (map_range nodesMap) ([], []) in
  edges ++ nodes.

End export.
