(* ===== verification/GraphImport.v ===== *)
(** * Import of a flow graph

    [pkg/utils/graph_import.go]: the nodes rebuilt from the elements of an export
    ([NodesFromGraphElements]), which the platform's import and the clone of a
    solution share. An element is a decoded JSON object; the encoder of the
    stored bytes is a parameter. *)
From S2P Require Import Prelude GoErrors Names Graph Json Elements GraphExport.

Open Scope string_scope.
Open Scope list_scope.

(** The map of nodes, their ids in first-seen order, the errors. *)
Abbreviation Imported := (gmap string GraphNode * list string * list string)%type.

Section import.
  Variable marshal : json -> result goerror string.

(** A value's bytes, none for nil, and what went wrong. *)
Definition marshal_field (v : json) (what : string) : string * list string :=
  if is_nil v then ("", [])
  else match marshal v with
       | Ok b => (b, [])
       | Err e => ("", [what +:+ error_text e])
       end.

Record HandleImport := mkHandleImport {
  hi_status : TinyNodePortStatus;
  hi_config : option TinyNodePortConfig;
  hi_errs : list string;
}.

(** One handle of a node: its port in the catalogue, the node's own
    configuration for a target port that carries one. *)
Definition import_handle (id : string) (h : json) : option HandleImport :=
  match as_obj h with
  | None => None
  | Some handle =>
      let portID := GetStr (fld handle "id") in
      if portID =? "" then None
      else
        let isSource := GetStr (fld handle "type") in
        let what := "node " +:+ go_quote id +:+ " port " +:+ go_quote portID +:+ ": marshal " in
        let '(configBytes, e1) := marshal_field (fld handle "configuration") (what +:+ "config: ") in
        let '(schemaBytes, e2) := marshal_field (fld handle "schema") (what +:+ "schema: ") in
        let status := mkPortStatus portID (GetStr (fld handle "label")) (GetInt (fld handle "position"))
                        (isSource =? "source") schemaBytes configBytes in
        let config := if (isSource =? "source") || ((configBytes =? "") && (schemaBytes =? "")) then None
                      else Some (mkPortConfig "" portID schemaBytes configBytes "") in
        Some (mkHandleImport status config (e1 ++ e2))
  end.

Definition import_handles (id : string) (data : list (string * json)) : list HandleImport :=
  match fld data "handles" with JArr hs => omap (import_handle id) hs | _ => [] end.

Definition annotate (k v : string) (m : gmap string string) : gmap string string :=
  if v =? "" then m else <[k := v]> m.

(** A missing position is the origin. *)
Definition import_annotations (elem data : list (string * json)) : gmap string string :=
  let position := default [] (as_obj (fld elem "position")) in
  let m : gmap string string :=
    {[ ComponentPosXAnnotation := go_itoa (GetInt (fld position "x"));
       ComponentPosYAnnotation := go_itoa (GetInt (fld position "y"));
       ComponentPosSpinAnnotation := go_itoa (GetInt (fld data "spin")) ]} in
  annotate SharedWithFlowsAnnotation (GetStr (fld data "shared_with_flows"))
    (annotate DashboardPageAnnotation (GetStr (fld data "dashboard_page"))
      (annotate NodeCommentAnnotation (GetStr (fld elem "comment"))
        (annotate NodeLabelAnnotation (GetStr (fld data "label")) m))).

Definition import_labels (flowName : string) (data : list (string * json)) : gmap string string :=
  annotate DashboardLabel (GetStr (fld data "dashboard")) {[ FlowNameLabel := flowName ]}.

Definition import_node (id flowName : string) (elem data : list (string * json)) : GraphNode :=
  let handles := import_handles id data in
  let status := mkStatus 0 (GetStr (fld data "component_description")) (GetStr (fld data "component_info")) []
                  (map hi_status handles) "" ∅ false in
  mkGraphNode
    (mkNode id "" (import_labels flowName data) 0
       (mkSpec (GetStr (fld data "module")) (GetStr (fld data "component")) (omap hi_config handles) [])
       status)
    (import_annotations elem data) (GetStr (fld data "module")) None.

(** First pass, one element. *)
Definition node_pass (acc : Imported) (elem : list (string * json)) : Imported :=
  let '(nodes, order, errs) := acc in
  match IsNode elem with
  | None => acc
  | Some data =>
      let id := GetStr (fld elem "id") in
      if id =? "" then (nodes, order, errs ++ ["node element has no id"])
      else match nodes !! id with
           | Some _ => (nodes, order, errs ++ ["duplicate node id " +:+ go_quote id])
           | None =>
               if (GetStr (fld data "component") =? "") || (GetStr (fld data "module") =? "")
               then (nodes, order, errs ++ ["node " +:+ go_quote id +:+ " has no component/module"])
               else
                 let flowName := GetStr (fld elem "flow") in
                 if flowName =? "" then (nodes, order, errs ++ ["node " +:+ go_quote id +:+ " has no flow"])
                 else (<[id := import_node id flowName elem data]> nodes, order ++ [id],
                       errs ++ concat (map hi_errs (import_handles id data)))
           end
  end.

Definition add_spec (edges : list TinyNodeEdge) (ports : list TinyNodePortConfig) (n : GraphNode) : GraphNode :=
  mkGraphNode (with_edges (with_ports (gn_node n) (gn_ports n ++ ports)) (gn_edges n ++ edges))
    (gn_annotations n) (gn_module n) (gn_lastUpdate n).

Definition import_edge (elem : list (string * json)) : TinyNodeEdge :=
  let source := GetStr (fld elem "source") in
  let sourceHandle := GetStr (fld elem "sourceHandle") in
  let target := GetStr (fld elem "target") in
  let targetHandle := GetStr (fld elem "targetHandle") in
  let edgeID := GetStr (fld elem "id") in
  mkEdge (if edgeID =? "" then source +:+ "_" +:+ sourceHandle +:+ "-" +:+ target +:+ "_" +:+ targetHandle
          else edgeID)
    sourceHandle (target +:+ ":" +:+ targetHandle) (GetStr (fld elem "flow")) None.

(** The configuration an edge carries for its target port. *)
Definition import_edge_config (elem : list (string * json)) : option TinyNodePortConfig * list string :=
  match as_obj (fld elem "data") with
  | None => (None, [])
  | Some edgeData =>
      let what := "edge " +:+ e_ID (import_edge elem) +:+ ": marshal " in
      let '(configBytes, e1) := marshal_field (fld edgeData "configuration") (what +:+ "config: ") in
      let '(schemaBytes, e2) := marshal_field (fld edgeData "schema") (what +:+ "schema: ") in
      (if (configBytes =? "") && (schemaBytes =? "") then None
       else Some (mkPortConfig (GetStr (fld elem "source") +:+ ":" +:+ GetStr (fld elem "sourceHandle"))
                    (GetStr (fld elem "targetHandle")) schemaBytes configBytes (GetStr (fld elem "flow"))),
       e1 ++ e2)
  end.

(** Second pass: the edge on its source node, its configuration on its target. *)
Definition edge_pass (acc : gmap string GraphNode * list string) (elem : list (string * json))
    : gmap string GraphNode * list string :=
  let '(nodes, errs) := acc in
  if negb (IsEdge elem) then acc
  else
    let source := GetStr (fld elem "source") in
    let target := GetStr (fld elem "target") in
    match nodes !! source, nodes !! target with
    | Some _, Some _ =>
        let '(pc, e) := import_edge_config elem in
        let nodes := alter (add_spec [import_edge elem] []) source nodes in
        let nodes := match pc with
                     | Some pc => alter (add_spec [] [pc]) target nodes
                     | None => nodes
                     end in
        (nodes, errs ++ e)
    | _, _ =>
        (nodes, errs ++ ["edge " +:+ source +:+ ":" +:+ GetStr (fld elem "sourceHandle") +:+ " -> " +:+
                         target +:+ ":" +:+ GetStr (fld elem "targetHandle") +:+
                         " references a node that is not in the payload"])
    end.

Definition NodesFromGraphElements (elements : list (list (string * json))) : Imported :=
  let '(nodes, order, errs) := fold_left node_pass elements (∅, [], []) in
  let '(nodes, errs) := fold_left edge_pass elements (nodes, errs) in
  (nodes, order, errs).

End import.
