(* ===== verification/ImportValidation.v ===== *)
(** * Validation of an import

    [pkg/utils/import_validation.go]: what blocks the import of a project
    (errors) and what is only reported (warnings). Ranges over Go maps follow
    the listed order of a decoded object's members; the messages of one call
    may come in another order. The title casing of names
    ([golang.org/x/text/cases]) is a parameter. *)
From S2P Require Import Prelude GoErrors Names Graph Json Elements.

Open Scope string_scope.
Open Scope list_scope.

(** ** The export format ([project_export.go]) *)

Record ExportFlow := mkExportFlow { ef_ResourceName : string; ef_Name : string }.
Record ExportWidget := mkExportWidget { ew_Port : string; ew_Name : string; ew_SchemaPatch : string }.
Record ExportPage := mkExportPage { ep_Name : string; ep_Title : string; ep_Widgets : list ExportWidget }.
Record ProjectExport := mkProjectExport {
  pe_TinyFlows : list ExportFlow;
  pe_Elements : list (list (string * json));
  pe_Pages : list ExportPage;
}.

Definition GetNodeIDFromElement (elem : list (string * json)) : string := GetStr (fld elem "id").
Definition GetFlowFromElement (elem : list (string * json)) : string := GetStr (fld elem "flow").

(** [strings.SplitN(port, ":", 2)] in two parts. *)
Definition TranslateWidgetPort (port : string) (nodeIDMap : gmap string string) : option string :=
  match go_splitn ":" 2 port with
  | [oldNodeID; portName] =>
      match nodeIDMap !! oldNodeID with
      | Some newNodeName => if newNodeName =? "" then None else Some (newNodeName +:+ ":" +:+ portName)
      | None => None
      end
  | _ => None
  end.

(** ** Messages: errors and warnings *)

Definition Report : Type := list string * list string.
Definition ok_report : Report := ([], []).
Definition an_error (s : string) : Report := ([s], []).
Definition a_warning (s : string) : Report := ([], [s]).
Definition join (a b : Report) : Report := (a.1 ++ b.1, a.2 ++ b.2).
Definition joins (l : list Report) : Report := foldr join ok_report l.
Definition error_if (b : bool) (s : string) : Report := if b then an_error s else ok_report.

(** ** Expressions *)

(** [strings.Index]. *)
Fixpoint go_index (s sub : string) : option nat :=
  if String.prefix sub s then Some 0%nat
  else match s with EmptyString => None | String _ s' => S <$> go_index s' sub end.

(** The loop of [checkExpressionSyntax]: [rest] is the value from [start] on.
    [None] is out of fuel. *)
Fixpoint scan_expressions (fuel : nat) (prefix : string) (start : nat) (rest : string) : option Report :=
  match fuel with
  | O => None
  | S fuel' =>
      match go_index rest "{{" with
      | None => Some ok_report
      | Some idx =>
          match go_index (string_drop idx rest) "}}" with
          | None => Some (an_error (prefix +:+ ": unclosed expression starting at position " +:+
                                    go_itoa (Z.of_nat (start + idx))))
          | Some len =>
              let expr := string_take (len - 2) (string_drop (idx + 2) rest) in
              let here := join (error_if (go_trim_space expr =? "") (prefix +:+ ": empty expression {{}}"))
                (if go_contains expr "'"
                 then a_warning (prefix +:+ ": expression {{" +:+ go_trim_space expr +:+
                        "}} uses single quotes — ajson requires double quotes (use \" +:+
                        String "034" " in JSON)")
                 else ok_report) in
              join here <$> scan_expressions fuel' prefix (start + idx + len + 2)
                              (string_drop (idx + len + 2) rest)
          end
      end
  end.

(** Each round drops four bytes at least. *)
Definition checkExpressionSyntax (prefix value : string) : Report :=
  default ok_report (scan_expressions (S (String.length value)) prefix 0 value).

Definition dollar_passthrough (prefix : string) (key : string) (val : json) : Report :=
  if (key =? "context") && bool_decide (val = JStr "{{$}}")
  then a_warning (prefix +:+ ": config.context is " +:+ go_quote "{{$}}" +:+
         " — consider re-assembling context with only needed fields")
  else ok_report.

Fixpoint validateConfigExpressions (prefix : string) (config : json) : Report :=
  match config with
  | JObj m =>
      (fix go m := match m with
       | [] => ok_report
       | (key, val) :: m' =>
           join (dollar_passthrough prefix key val)
             (join (validateConfigExpressions prefix val) (go m'))
       end) m
  | JStr v => checkExpressionSyntax prefix v
  | JArr l =>
      (fix go l := match l with
       | [] => ok_report
       | item :: l' => join (validateConfigExpressions prefix item) (go l')
       end) l
  | _ => ok_report
  end.

(** ** Schemas *)

(** Arrays without items, properties without the type object. *)
Fixpoint findSchemaInconsistencies (prefix : string) (obj : json) : list string :=
  match obj with
  | JObj o =>
      let typ := GetStr (fld o "type") in
      let warn := if bool_decide (is_Some (obj_get "properties" o)) && negb (typ =? "object") then
          if typ =? "" then
            [prefix +:+ ": has " +:+ go_quote "properties" +:+ " but missing " +:+ go_quote "type" +:+ ": " +:+
             go_quote "object" +:+ " — will render as JSON instead of form fields"]
          else [prefix +:+ ": has " +:+ go_quote "properties" +:+ " but type is " +:+ go_quote typ +:+ ", not " +:+
                go_quote "object" +:+ " — properties will be ignored"]
        else [] in
      warn ++
      (fix members o := match o with
       | [] => []
       | (k, v) :: o' =>
           if k =? "properties" then
             match v with
             | JObj props =>
                 (fix go props := match props with
                  | [] => []
                  | (propName, propRaw) :: props' =>
                      match propRaw with
                      | JObj propMap =>
                          let propType := GetStr (fld propMap "type") in
                          (if (propType =? "array") && negb (bool_decide (is_Some (obj_get "items" propMap)))
                           then [prefix +:+ " property " +:+ go_quote propName +:+ ": type is " +:+
                                 go_quote "array" +:+ " but missing " +:+ go_quote "items" +:+
                                 " — generator will produce empty array"]
                           else []) ++
                          (if (propType =? "object") || negb (is_nil (fld propMap "properties"))
                           then findSchemaInconsistencies (prefix +:+ "." +:+ propName) propRaw
                           else [])
                      | _ => []
                      end ++ go props'
                  end) props
             | _ => []
             end
           else members o'
       end) o
  | _ => []
  end.

Section validate.
  Variable title : string -> string.

Definition validateSchemaCompleteness (prefix : string) (schemaRaw : json) : Report :=
  match as_obj schemaRaw with
  | None => an_error (prefix +:+ ": schema is not an object")
  | Some schemaMap =>
      join (error_if (negb (bool_decide (is_Some (obj_get "$ref" schemaMap)))) (prefix +:+ ": schema missing $ref"))
      match obj_get "$defs" schemaMap with
      | None => an_error (prefix +:+ ": schema missing $defs")
      | Some (JObj []) => an_error (prefix +:+ ": schema $defs is empty")
      | Some (JObj defsMap) =>
          join
            (joins (map (fun kd => error_if (negb (kd.1 =? title kd.1))
               (prefix +:+ ": $defs key " +:+ go_quote kd.1 +:+ " should be " +:+ go_quote (title kd.1) +:+
                " (SDK title-cases type names)")) defsMap))
            ([], concat (map (fun kd => findSchemaInconsistencies
                    (prefix +:+ " $defs[" +:+ kd.1 +:+ "]") kd.2) defsMap))
      | Some _ => an_error (prefix +:+ ": schema $defs is not an object")
      end
  end.

(** The definition a reference names: after its last slash. *)
Definition after_last_slash (ref : string) : string :=
  match go_cut_last "/" ref with Some (_, name) => name | None => ref end.

Definition validateConfigKeysMatchSchema (prefix : string) (config schemaRaw : json) : list string :=
  match as_obj config, as_obj schemaRaw with
  | Some configMap, Some schemaMap =>
      match as_str (fld schemaMap "$ref") with
      | None => []
      | Some ref =>
          if (length (go_split "/" ref) <? 2)%nat then []
          else match as_obj (fld schemaMap "$defs") with
               | None => []
               | Some defs =>
                   match as_obj (fld defs (default "" (last (go_split "/" ref)))) with
                   | None => []
                   | Some rootDef =>
                       match as_obj (fld rootDef "properties") with
                       | None => []
                       | Some props =>
                           omap (fun kv =>
                             if bool_decide (is_Some (obj_get kv.1 props)) then None
                             else Some (prefix +:+ ": config key " +:+ go_quote kv.1 +:+
                                    " not in schema properties (available: " +:+
                                    go_join ", " (go_sort_strings (obj_keys props)) +:+
                                    ") — check json struct tags")) configMap
                       end
                   end
               end
      end
  | _, _ => []
  end.

(** By node and handle, the schemas of target handles. *)
Abbreviation HandleSchemas := (gmap string (gmap string (list (string * json)))).

Definition bare_configurable (defs rootProps : list (string * json)) (prefix : string)
    (kv : string * json) : option string :=
  match as_obj kv.2 with
  | None | Some [] => None
  | Some objVal =>
      match as_obj (fld rootProps kv.1) with
      | None => None
      | Some propDef =>
          match as_str (fld propDef "$ref") with
          | None => None
          | Some ref =>
              let defName := after_last_slash ref in
              match as_obj (fld defs defName) with
              | None => None
              | Some def =>
                  if negb (GetBool (fld def "configurable")) then None
                  else match as_obj (fld def "properties") with
                       | Some (_ :: _) => None
                       | _ =>
                           let fields := go_sort_strings (obj_keys objVal) in
                           Some (prefix +:+ ": edge maps " +:+ go_itoa (Z.of_nat (length fields)) +:+
                             " fields into " +:+ go_quote kv.1 +:+ " ($def " +:+ go_quote defName +:+
                             ", configurable) but definition has no properties — add property schema so faker generates correct types (fields: " +:+
                             go_join ", " fields +:+ ")")
                       end
              end
          end
      end
  end.

Definition validateConfigurableFieldSchemas (prefix : string) (config : json)
    (targetNodeID targetHandleID : string) (nodeHandleSchemas : HandleSchemas) : list string :=
  match as_obj config, (nodeHandleSchemas !! targetNodeID) ≫= (fun hs => hs !! targetHandleID) with
  | Some configMap, Some schemaMap =>
      match as_obj (fld schemaMap "$defs"), as_str (fld schemaMap "$ref") with
      | Some defs, Some rootRef =>
          match as_obj (fld defs (after_last_slash rootRef)) with
          | None => []
          | Some rootDef =>
              match as_obj (fld rootDef "properties") with
              | None => []
              | Some rootProps => omap (bare_configurable defs rootProps prefix) configMap
              end
          end
      | _, _ => []
      end
  | _, _ => []
  end.

Definition shortID (nodeID label : string) : string :=
  if negb (label =? "") then label
  else let parts := go_split "." nodeID in
       if (1 <? length parts)%nat then default "" (last parts) else nodeID.

(** ** Elements and pages *)

Definition flow_reference (prefix flowName : string) (flowSet : gset string) : Report :=
  if flowName =? "" then an_error (prefix +:+ ": missing flow")
  else error_if (negb (bool_decide (flowName ∈ flowSet)))
         (prefix +:+ ": flow " +:+ go_quote flowName +:+ " not in tinyFlows").

Definition validate_handle (prefix : string) (j : nat) (h : json) : Report :=
  match as_obj h with
  | None => ok_report
  | Some handleMap =>
      let hPrefix := prefix +:+ " handle " +:+ go_quote (GetStr (fld handleMap "id")) in
      if GetStr (fld handleMap "type") =? "source"
      then a_warning (hPrefix +:+ ": source port handle included — will be skipped (handle index " +:+
                      go_itoa (Z.of_nat j) +:+ ")")
      else if is_nil (fld handleMap "schema") then ok_report
      else validateSchemaCompleteness hPrefix (fld handleMap "schema")
  end.

Definition indexed (what : string) (index : nat) : string :=
  what +:+ "[" +:+ go_itoa (Z.of_nat index) +:+ "]".

Definition validateImportNode (index : nat) (id : string) (elem : list (string * json))
    (flowSet : gset string) : Report :=
  let prefix := if id =? "" then indexed "node" index else "node " +:+ go_quote id in
  join (error_if (id =? "") (prefix +:+ ": missing id"))
  (join (flow_reference prefix (GetStr (fld elem "flow")) flowSet)
  match as_obj (fld elem "data") with
  | None => an_error (prefix +:+ ": missing data object")
  | Some dataMap =>
      join (error_if (GetStr (fld dataMap "component") =? "") (prefix +:+ ": missing data.component"))
      (join (error_if (GetStr (fld dataMap "module") =? "") (prefix +:+ ": missing data.module"))
      (joins (imap (validate_handle prefix) (default [] (as_arr (fld dataMap "handles"))))))
  end).

Definition validateImportEdge (index : nat) (elem : list (string * json)) (flowSet nodeIDs : gset string)
    (nodeLabels : gmap string string) (nodeHandleSchemas : HandleSchemas) : Report :=
  let source := GetStr (fld elem "source") in
  let target := GetStr (fld elem "target") in
  let sourceHandle := GetStr (fld elem "sourceHandle") in
  let targetHandle := GetStr (fld elem "targetHandle") in
  let srcLabel := default "" (nodeLabels !! source) in
  let tgtLabel := default "" (nodeLabels !! target) in
  let prefix := "edge " +:+ shortID source srcLabel +:+ ":" +:+ sourceHandle +:+ " → " +:+
                shortID target tgtLabel +:+ ":" +:+ targetHandle in
  joins
    [error_if (source =? "") (indexed "edge" index +:+ ": missing source");
     error_if (target =? "") (indexed "edge" index +:+ ": missing target");
     error_if (sourceHandle =? "") (prefix +:+ ": missing sourceHandle");
     error_if (targetHandle =? "") (prefix +:+ ": missing targetHandle");
     error_if (negb (source =? "") && negb (bool_decide (source ∈ nodeIDs)))
       (prefix +:+ ": source node " +:+ go_quote source +:+ " not found in elements");
     error_if (negb (target =? "") && negb (bool_decide (target ∈ nodeIDs)))
       (prefix +:+ ": target node " +:+ go_quote target +:+ " not found in elements");
     flow_reference prefix (GetStr (fld elem "flow")) flowSet;
     match as_obj (fld elem "data") with
     | None => an_error (prefix +:+ ": missing data object")
     | Some edgeData =>
         let config := fld edgeData "configuration" in
         let schemaRaw := fld edgeData "schema" in
         joins
           [if is_nil config
            then a_warning (prefix +:+ ": no data.configuration — the target port receives its default value unless the source passes through (expected for forwarding/error edges)")
            else validateConfigExpressions prefix config;
            if is_nil schemaRaw
            then a_warning (prefix +:+ ": no data.schema — will be derived from target port at runtime")
            else join (validateSchemaCompleteness (prefix +:+ " schema") schemaRaw)
                   (if is_nil config then ok_report
                    else (validateConfigKeysMatchSchema prefix config schemaRaw, []));
            if negb (is_nil config) && negb (target =? "") && negb (targetHandle =? "")
            then ([], validateConfigurableFieldSchemas prefix config target targetHandle nodeHandleSchemas)
            else ok_report]
     end].

Definition validate_widget (prefix : string) (nodeIDs : gset string) (i : nat) (widget : ExportWidget) : Report :=
  let wPrefix := if ew_Name widget =? "" then prefix +:+ " " +:+ indexed "widget" i
                 else prefix +:+ " widget " +:+ go_quote (ew_Name widget) in
  if ew_Port widget =? "" then an_error (wPrefix +:+ ": missing port")
  else
    let invalid := an_error (wPrefix +:+ ": port " +:+ go_quote (ew_Port widget) +:+
                             " invalid format — expected 'nodeId:portName'") in
    match go_splitn ":" 2 (ew_Port widget) with
    | [nodeID; port] =>
        if (nodeID =? "") || (port =? "") then invalid
        else
          join (error_if (negb (bool_decide (nodeID ∈ nodeIDs)))
                  (wPrefix +:+ ": port references node " +:+ go_quote nodeID +:+ " which is not in elements"))
               (if (ew_SchemaPatch widget =? "") || (ew_SchemaPatch widget =? "[]") || (ew_SchemaPatch widget =? "null")
                then ok_report
                else a_warning (wPrefix +:+ ": has schemaPatch — only include when default _control rendering is incorrect, remove if unnecessary"))
    | _ => invalid
    end.

Definition validateImportPage (nodeIDs : gset string) (index : nat) (page : ExportPage) : Report :=
  let prefix := if ep_Title page =? "" then indexed "page" index else "page " +:+ go_quote (ep_Title page) in
  joins (imap (validate_widget prefix nodeIDs) (ep_Widgets page)).

(** ** The project *)

(** First pass: ids, labels and the schemas of target handles. *)
Definition target_schema (hs : gmap string (list (string * json))) (h : json)
    : gmap string (list (string * json)) :=
  match as_obj h with
  | None => hs
  | Some hMap =>
      let hID := GetStr (fld hMap "id") in
      if (hID =? "") || negb (GetStr (fld hMap "type") =? "target") then hs
      else match as_obj (fld hMap "schema") with Some s => <[hID := s]> hs | None => hs end
  end.

Definition element_id (elem : list (string * json)) : string := GetStr (fld elem "id").
Definition element_type (elem : list (string * json)) : string := GetStr (fld elem "type").

Definition is_node_element (elem : list (string * json)) : bool :=
  (element_type elem =? TinyNodeType) && negb (element_id elem =? "").

Definition collect_ids (elements : list (list (string * json))) : gset string :=
  list_to_set (map element_id (List.filter is_node_element elements)).

Definition collect_labels (elements : list (list (string * json))) : gmap string string :=
  fold_left (fun m elem =>
    match as_obj (fld elem "data") with
    | Some d => let l := GetStr (fld d "label") in
                <[element_id elem := if l =? "" then GetStr (fld d "component") else l]> m
    | None => m
    end) (List.filter is_node_element elements) ∅.

(** The handles of elements of one id are collected together. *)
Definition collect_schemas (elements : list (list (string * json))) : HandleSchemas :=
  fold_left (fun m elem =>
    match as_obj (fld elem "data") with
    | Some d =>
        match fld d "handles" with
        | JArr hs => <[element_id elem := fold_left target_schema hs (default ∅ (m !! element_id elem))]> m
        | _ => m
        end
    | None => m
    end) (List.filter is_node_element elements) ∅.

Definition validate_element (flowSet nodeIDs : gset string) (labels : gmap string string)
    (schemas : HandleSchemas) (i : nat) (elem : list (string * json)) : Report :=
  let t := element_type elem in
  if t =? TinyNodeType then validateImportNode i (element_id elem) elem flowSet
  else if (t =? TinyEdgeType) || (t =? "edge") then validateImportEdge i elem flowSet nodeIDs labels schemas
  else error_if (negb (t =? ""))
         (indexed "element" i +:+ " " +:+ go_quote (element_id elem) +:+ ": unknown type " +:+ go_quote t +:+
          " (expected " +:+ go_quote TinyNodeType +:+ " or " +:+ go_quote TinyEdgeType +:+ ")").

Definition flow_set (flows : list ExportFlow) : gset string :=
  list_to_set (List.filter (fun f => negb (f =? "")) (map ef_ResourceName flows)).

Definition ValidateProjectImport (data : ProjectExport) : Report :=
  let flowSet := flow_set (pe_TinyFlows data) in
  let nodeIDs := collect_ids (pe_Elements data) in
  joins
    [joins (map (fun f => error_if (ef_ResourceName f =? "") "flow has empty resourceName") (pe_TinyFlows data));
     error_if (match pe_TinyFlows data with [] => true | _ => false end) "no flows defined in tinyFlows";
     joins (imap (validate_element flowSet nodeIDs (collect_labels (pe_Elements data))
              (collect_schemas (pe_Elements data))) (pe_Elements data));
     joins (imap (validateImportPage nodeIDs) (pe_Pages data))].

End validate.
