(* ===== verification/ImportSpec.v ===== *)
(** * Theorems on importing a graph

    What the import makes of the elements, and that a validated project imports
    without errors. *)
From S2P Require Import Prelude GoErrors Names Graph Json Elements ElementsSpec GraphExport GraphImport ImportValidation.

Open Scope string_scope.
Open Scope list_scope.

Section import.
  Variable marshal : json -> result goerror string.

(** ** Nodes *)

Lemma fold_snoc_ind {A B} (f : A -> B -> A) (P : list B -> A -> Prop) (l : list B) (a : A) :
  P [] a -> (forall done_ x acc, P done_ acc -> P (done_ ++ [x]) (f acc x)) -> P l (fold_left f l a).
Proof.
  intros H0 Hs. enough (H : forall done_ acc, P done_ acc -> P (done_ ++ l) (fold_left f l acc)) by by apply (H []).
  induction l as [|x l IH]; intros done_ acc Hp; simpl; [by rewrite app_nil_r|].
  replace (done_ ++ x :: l) with ((done_ ++ [x]) ++ l) by by rewrite <- app_assoc. by apply IH, Hs.
Qed.

(** An element the first pass makes a node of, when its id is new. *)
Definition acceptable (elem : list (string * json)) : option (list (string * json)) :=
  match IsNode elem with
  | None => None
  | Some data =>
      if (GetStr (fld elem "id") =? "") || (GetStr (fld data "component") =? "") ||
         (GetStr (fld data "module") =? "") || (GetStr (fld elem "flow") =? "") then None
      else Some data
  end.

Definition node_of (elem data : list (string * json)) : GraphNode :=
  import_node marshal (GetStr (fld elem "id")) (GetStr (fld elem "flow")) elem data.

(** The first acceptable element with an id gives its node. *)
Definition first_node (els : list (list (string * json))) (id : string) : option GraphNode :=
  match List.find (fun e => bool_decide (is_Some (acceptable e)) && (GetStr (fld e "id") =? id)) els with
  | Some e => node_of e <$> acceptable e
  | None => None
  end.

Lemma find_app {A} (p : A -> bool) (l k : list A) :
  List.find p (l ++ k) = match List.find p l with Some x => Some x | None => List.find p k end.
Proof. induction l as [|x l IH]; [done|]. simpl. by destruct (p x). Qed.

Lemma first_node_snoc (els : list (list (string * json))) (e : list (string * json)) (id : string) :
  first_node (els ++ [e]) id =
    match first_node els id with
    | Some n => Some n
    | None => if GetStr (fld e "id") =? id then node_of e <$> acceptable e else None
    end.
Proof.
  unfold first_node. rewrite find_app.
  destruct (List.find _ els) as [e'|] eqn:E.
  - apply find_some in E as [_ E]. apply andb_prop in E as [E _]. apply bool_decide_eq_true in E as [d Hd].
    by rewrite Hd.
  - cbn [List.find]. destruct (acceptable e) as [d|] eqn:Ea.
    + rewrite bool_decide_eq_true_2 by by eexists. simpl. by destruct (_ =? id); rewrite ?Ea.
    + rewrite bool_decide_eq_false_2 by (by intros [? ?]). simpl. by destruct (_ =? id).
Qed.

Lemma node_pass_spec (els : list (list (string * json))) :
  let '(nodes, order, errs) := fold_left (node_pass marshal) els (∅, [], []) in
  (forall id, nodes !! id = first_node els id) /\ NoDup order /\
  (forall id, id ∈ order <-> is_Some (nodes !! id)).
Proof.
  apply (fold_snoc_ind (node_pass marshal) (fun els acc => let '(nodes, order, errs) := acc in
    (forall id, nodes !! id = first_node els id) /\ NoDup order /\
    (forall id, id ∈ order <-> is_Some (nodes !! id)))).
  { split_and!; [intros id; by rewrite lookup_empty|constructor|].
    intros id. rewrite lookup_empty, elem_of_nil. split; [done|]. by intros [? ?]. }
  intros done_ e [[nodes order] errs] (Hn & Hnd & Hord).
  assert (Hskip : acceptable e = None -> forall id, nodes !! id = first_node (done_ ++ [e]) id).
  { intros Ha id. rewrite first_node_snoc, Ha, <- Hn. destruct (nodes !! id); [done|]. by destruct (_ =? id). }
  unfold acceptable in Hskip. unfold node_pass.
  destruct (IsNode e) as [data|] eqn:En; [|by split_and!; [apply Hskip|..]].
  set (id0 := GetStr (fld e "id")) in *.
  destruct (id0 =? "") eqn:Eid; [by split_and!; [apply Hskip|..]|].
  destruct (nodes !! id0) as [n0|] eqn:E0.
  { split_and!; [|done..]. intros id. rewrite first_node_snoc, <- Hn. destruct (nodes !! id) eqn:E; [done|].
    fold id0. destruct (String.eqb_spec id0 id) as [<-|]; [congruence|done]. }
  destruct (GetStr (fld data "component") =? "") eqn:Ec; [by split_and!; [apply Hskip|..]|].
  destruct (GetStr (fld data "module") =? "") eqn:Em; [by split_and!; [apply Hskip|..]|].
  cbn [orb] in *. destruct (GetStr (fld e "flow") =? "") eqn:Ef; [by split_and!; [apply Hskip|..]|].
  assert (Hnew : id0 ∉ order) by (rewrite Hord, E0; by intros [? ?]).
  split_and!.
  - intros id. rewrite first_node_snoc, <- Hn. fold id0. destruct (String.eqb_spec id0 id) as [<-|Hne].
    + rewrite lookup_insert_eq, E0. unfold acceptable. rewrite En. fold id0. rewrite Eid, Ec, Em, Ef. done.
    + rewrite lookup_insert_ne by done. by destruct (nodes !! id).
  - apply NoDup_app. split_and!; [done| |apply NoDup_singleton].
    intros x Hx ->%list_elem_of_singleton. done.
  - intros id. rewrite elem_of_app, list_elem_of_singleton, Hord.
    destruct (decide (id0 = id)) as [<-|Hne].
    + rewrite lookup_insert_eq. split; [intros _; by eexists|by right].
    + rewrite lookup_insert_ne by done. split; [by intros [?| ->]|by left].
Qed.

(** ** Edges *)

Definition ends (e : list (string * json)) : string * string :=
  (GetStr (fld e "source"), GetStr (fld e "target")).

(** An edge element both of whose ends are nodes of the payload. *)
Definition lands (D : gset string) (e : list (string * json)) : bool :=
  IsEdge e && bool_decide ((ends e).1 ∈ D) && bool_decide ((ends e).2 ∈ D).

Definition edges_from (D : gset string) (id : string) (els : list (list (string * json))) : list TinyNodeEdge :=
  map import_edge (List.filter (fun e => lands D e && ((ends e).1 =? id)) els).

Definition configs_to (D : gset string) (id : string) (els : list (list (string * json)))
    : list TinyNodePortConfig :=
  omap (fun e => if lands D e && ((ends e).2 =? id) then (import_edge_config marshal e).1 else None) els.

Definition edge_errors (D : gset string) (e : list (string * json)) : list string :=
  if negb (IsEdge e) then []
  else if lands D e then (import_edge_config marshal e).2
  else ["edge " +:+ (ends e).1 +:+ ":" +:+ GetStr (fld e "sourceHandle") +:+ " -> " +:+ (ends e).2 +:+ ":" +:+
        GetStr (fld e "targetHandle") +:+ " references a node that is not in the payload"].

Lemma add_spec_nil (n : GraphNode) : add_spec [] [] n = n.
Proof.
  unfold add_spec, gn_ports, gn_edges. rewrite !app_nil_r, with_ports_id, with_edges_id. by destruct n.
Qed.

Lemma add_spec_add (E1 E2 : list TinyNodeEdge) (P1 P2 : list TinyNodePortConfig) (n : GraphNode) :
  add_spec E2 P2 (add_spec E1 P1 n) = add_spec (E1 ++ E2) (P1 ++ P2) n.
Proof.
  unfold add_spec, gn_ports, gn_edges. simpl. by rewrite !app_assoc.
Qed.

Lemma lookup_add_spec (E : list TinyNodeEdge) (P : list TinyNodePortConfig) (k id : string)
    (nodes : gmap string GraphNode) :
  alter (add_spec E P) k nodes !! id =
    add_spec (if k =? id then E else []) (if k =? id then P else []) <$> nodes !! id.
Proof.
  destruct (String.eqb_spec k id) as [->|Hne]; [by rewrite lookup_alter_eq|].
  rewrite lookup_alter_ne by done. destruct (nodes !! id); simpl; [|done]. by rewrite add_spec_nil.
Qed.

Lemma edge_pass_spec (els : list (list (string * json))) (nodes : gmap string GraphNode) (errs : list string) :
  let '(nodes', errs') := fold_left (edge_pass marshal) els (nodes, errs) in
  (forall id, nodes' !! id = add_spec (edges_from (dom nodes) id els) (configs_to (dom nodes) id els) <$> nodes !! id) /\
  errs' = errs ++ concat (map (edge_errors (dom nodes)) els).
Proof.
  revert nodes errs. induction els as [|e els IH]; intros nodes errs.
  { split; [|by rewrite app_nil_r]. intros id. unfold edges_from, configs_to. simpl.
    destruct (nodes !! id); simpl; [|done]. by rewrite add_spec_nil. }
  cbn [fold_left]. destruct (edge_pass marshal (nodes, errs) e) as [nodes1 errs1] eqn:E1.
  assert (Hstep : (forall id, nodes1 !! id =
      add_spec (if lands (dom nodes) e && ((ends e).1 =? id) then [import_edge e] else [])
        (match (if lands (dom nodes) e && ((ends e).2 =? id) then (import_edge_config marshal e).1 else None) with
         | Some pc => [pc] | None => [] end) <$> nodes !! id) /\
      errs1 = errs ++ edge_errors (dom nodes) e).
  { unfold edge_pass in E1. unfold edge_errors, lands.
    destruct (IsEdge e); cbn [negb andb] in *.
    2: { injection E1 as <- <-. split; [|by rewrite app_nil_r]. intros id.
         destruct (nodes !! id); simpl; [|done]. by rewrite add_spec_nil. }
    change (GetStr (fld e "source")) with (ends e).1 in E1. change (GetStr (fld e "target")) with (ends e).2 in E1.
    destruct (nodes !! (ends e).1) as [s|] eqn:Es, (nodes !! (ends e).2) as [t|] eqn:Et.
    2-4: assert (Hno : bool_decide ((ends e).1 ∈ dom nodes) && bool_decide ((ends e).2 ∈ dom nodes) = false)
           by (rewrite <- bool_decide_and; apply bool_decide_eq_false_2; rewrite !elem_of_dom, Es, Et;
               intros [[? ?] [? ?]]; done);
         rewrite Hno; cbn [andb]; injection E1 as <- <-; (split; [|done]); intros id;
         destruct (nodes !! id); simpl; [by rewrite add_spec_nil|done].
    rewrite !bool_decide_eq_true_2 by (apply elem_of_dom; rewrite ?Es, ?Et; by eexists). cbn [andb].
    destruct (import_edge_config marshal e) as [[pc|] es]; injection E1 as <- <-; (split; [|done]); intros id;
      rewrite ?lookup_add_spec; destruct (nodes !! id); simpl; try done.
    - rewrite add_spec_add. by destruct (GetStr (fld e "source") =? id), (GetStr (fld e "target") =? id).
    - by destruct (GetStr (fld e "source") =? id), (GetStr (fld e "target") =? id). }
  destruct Hstep as [Hn He].
  assert (Hdom : dom nodes1 = dom nodes).
  { apply set_eq. intros id. rewrite !elem_of_dom, Hn. by rewrite fmap_is_Some. }
  specialize (IH nodes1 errs1). destruct (fold_left _ els _) as [nodes' errs'].
  destruct IH as [IHn IHe]. rewrite Hdom in IHn, IHe. split.
  - intros id. rewrite IHn, Hn. destruct (nodes !! id) as [n|]; cbn [fmap option_fmap option_map]; [|done].
    f_equal. rewrite add_spec_add.
    unfold edges_from, configs_to. cbn [List.filter omap list_omap]. f_equal.
    + by destruct (lands (dom nodes) e && ((ends e).1 =? id)).
    + by destruct (if lands (dom nodes) e && ((ends e).2 =? id) then _ else _).
  - rewrite IHe, He. simpl. by rewrite app_assoc.
Qed.

Lemma import_spec (els : list (list (string * json))) :
  let '(nodes, order, errs) := NodesFromGraphElements marshal els in
  NoDup order /\ (forall id, id ∈ order <-> is_Some (nodes !! id)) /\
  (forall id, nodes !! id =
     (fun n => add_spec (edges_from (dom nodes) id els) (configs_to (dom nodes) id els) n) <$> first_node els id) /\
  (forall e, e ∈ els -> IsEdge e = true -> lands (dom nodes) e = false ->
     "edge " +:+ (ends e).1 +:+ ":" +:+ GetStr (fld e "sourceHandle") +:+ " -> " +:+ (ends e).2 +:+ ":" +:+
     GetStr (fld e "targetHandle") +:+ " references a node that is not in the payload" ∈ errs).
Proof.
  unfold NodesFromGraphElements. pose proof (node_pass_spec els) as Hp.
  destruct (fold_left (node_pass marshal) els _) as [[nodes order] errs]. destruct Hp as (Hn & Hnd & Hord).
  pose proof (edge_pass_spec els nodes errs) as He.
  destruct (fold_left (edge_pass marshal) els _) as [nodes' errs']. destruct He as [Hn' Herr].
  assert (Hdom : dom nodes' = dom nodes).
  { apply set_eq. intros id. rewrite !elem_of_dom, Hn'. by rewrite fmap_is_Some. }
  split_and!; [done| | |].
  - intros id. rewrite Hord, Hn'. by rewrite fmap_is_Some.
  - intros id. rewrite Hn', Hdom, Hn. done.
  - intros e Hin Hedge Hl. rewrite Herr. apply elem_of_app. right. rewrite Hdom in Hl.
    apply list_elem_of_In, in_concat. exists (edge_errors (dom nodes) e). split.
    + apply in_map. by apply list_elem_of_In.
    + unfold edge_errors. rewrite Hedge, Hl. by left.
Qed.


(** ** A validated import *)

Lemma joins_clean (l : list Report) : (joins l).1 = [] <-> Forall (fun r => r.1 = []) l.
Proof.
  unfold joins. induction l as [|r l IH]; simpl; [by split|]. rewrite Forall_cons, <- IH.
  split; [intros [? ?]%app_eq_nil; by split|]. intros [-> ->]. done.
Qed.

Lemma join_clean (a b : Report) : (join a b).1 = [] <-> a.1 = [] /\ b.1 = [].
Proof. unfold join. simpl. split; [apply app_eq_nil|]. by intros [-> ->]. Qed.

Lemma error_if_clean (b : bool) (s : string) : (error_if b s).1 = [] <-> b = false.
Proof. by destruct b. Qed.

Lemma imap_clean {A} (f : nat -> A -> Report) (l : list A) :
  (joins (imap f l)).1 = [] -> forall x, x ∈ l -> exists i, (f i x).1 = [].
Proof.
  rewrite joins_clean, Forall_forall. intros H x Hx. apply list_elem_of_lookup in Hx as [i Hi].
  exists i. apply H. apply list_elem_of_lookup. exists i. by rewrite list_lookup_imap, Hi.
Qed.

Lemma flow_reference_clean (prefix f : string) (fs : gset string) :
  (flow_reference prefix f fs).1 = [] -> f <> "" /\ f ∈ fs.
Proof.
  unfold flow_reference. destruct (String.eqb_spec f ""); [done|]. rewrite error_if_clean.
  intros Hb. split; [done|]. by apply negb_false_iff, bool_decide_eq_true in Hb.
Qed.

Lemma neq_str (a : string) : (a =? "") = false <-> a <> "".
Proof. apply String.eqb_neq. Qed.

(** A node element without errors is acceptable. *)
Lemma clean_node (title : string -> string) (i : nat) (e : list (string * json)) (fs : gset string) :
  (validateImportNode title i (element_id e) e fs).1 = [] -> element_type e = TinyNodeType ->
  is_Some (acceptable e).
Proof.
  unfold validateImportNode. rewrite !join_clean, error_if_clean. intros (Hid & Hf & Hd) Ht.
  apply flow_reference_clean in Hf as [Hf _]. unfold acceptable, IsNode.
  destruct (as_obj (fld e "data")) as [d|] eqn:Ed; [|done].
  rewrite !join_clean, !error_if_clean in Hd. destruct Hd as (Hc & Hm & _).
  destruct (fld e "data") eqn:Edata; try done. cbn [is_nil].
  rewrite bool_decide_eq_true_2.
  - simpl. injection Ed as <-. fold (element_id e). rewrite Hid, Hc, Hm.
    apply neq_str in Hf. rewrite Hf. by eexists.
  - unfold element_type in Ht. destruct (fld e "type"); try done. simpl in Ht. by subst.
Qed.

Lemma clean_edge (title : string -> string) (i : nat) (e : list (string * json)) (fs ids : gset string)
    (labels : gmap string string) (schemas : gmap string (gmap string (list (string * json)))) :
  (validateImportEdge title i e fs ids labels schemas).1 = [] ->
  (ends e).1 ∈ ids /\ (ends e).2 ∈ ids /\ GetStr (fld e "sourceHandle") <> "" /\
  GetStr (fld e "targetHandle") <> "".
Proof.
  unfold validateImportEdge. rewrite joins_clean, !Forall_cons, !error_if_clean.
  intros (Hs & Ht & Hsh & Hth & Hsn & Htn & _). rewrite Hs in Hsn. rewrite Ht in Htn. cbn [negb andb] in Hsn, Htn.
  apply negb_false_iff, bool_decide_eq_true in Hsn, Htn. apply neq_str in Hsh, Hth. done.
Qed.

Definition encodes (v : json) : Prop := is_ok (marshal v) = true.

Lemma marshal_field_clean (v : json) (what : string) : (forall v, encodes v) -> (marshal_field marshal v what).2 = [].
Proof.
  intros He. unfold marshal_field. destruct (is_nil v); [done|]. specialize (He v). unfold encodes in He.
  by destruct (marshal v).
Qed.

Lemma handles_clean (id : string) (data : list (string * json)) :
  (forall v, encodes v) -> concat (map hi_errs (import_handles marshal id data)) = [].
Proof.
  intros He. unfold import_handles. destruct (fld data "handles") as [| | | |hs|]; try done.
  induction hs as [|h hs IH]; [done|]. cbn [omap list_omap].
  destruct (import_handle marshal id h) as [hi|] eqn:E; [|exact IH]. simpl. rewrite IH, app_nil_r.
  unfold import_handle in E. destruct (as_obj h) as [m|]; [|done]. destruct (_ =? ""); [done|].
  pose proof (fun w => marshal_field_clean (fld m "configuration") w He) as H1.
  pose proof (fun w => marshal_field_clean (fld m "schema") w He) as H2.
  destruct (marshal_field marshal (fld m "configuration") _) as [c e1] eqn:E1.
  destruct (marshal_field marshal (fld m "schema") _) as [s e2] eqn:E2.
  injection E as <-. simpl. specialize (H1 ("node " +:+ go_quote id +:+ " port " +:+
    go_quote (GetStr (fld m "id")) +:+ ": marshal " +:+ "config: ")).
  specialize (H2 ("node " +:+ go_quote id +:+ " port " +:+ go_quote (GetStr (fld m "id")) +:+ ": marshal " +:+ "schema: ")).
  autorewrite with gostr in *. rewrite E1 in H1. rewrite E2 in H2. simpl in *. by subst.
Qed.

Lemma acceptable_node (e : list (string * json)) : is_Some (acceptable e) -> is_node_element e = true /\ is_Some (IsNode e).
Proof.
  intros [d Hd]. unfold acceptable in Hd. destruct (IsNode e) as [d'|] eqn:En; [|done]. split; [|by eexists].
  unfold is_node_element, element_type, element_id. apply is_node_type in En. rewrite En.
  destruct (GetStr (fld e "id") =? ""); [done|]. done.
Qed.

Lemma node_pass_ok (els : list (list (string * json))) :
  (forall v, encodes v) -> (forall e, e ∈ els -> is_Some (IsNode e) -> is_Some (acceptable e)) ->
  (forall e, e ∈ els -> is_node_element e = true -> is_Some (acceptable e)) ->
  NoDup (map element_id (List.filter is_node_element els)) ->
  let '(nodes, order, errs) := fold_left (node_pass marshal) els (∅, [], []) in
  errs = [] /\ order = map element_id (List.filter is_node_element els) /\
  forall id, id ∈ order <-> is_Some (nodes !! id).
Proof.
  intros Hm Ha Hb Hc.
  pose (P := fun (els : list (list (string * json))) (acc : Imported) => let '(nodes, order, errs) := acc in
    (forall e, e ∈ els -> is_Some (IsNode e) -> is_Some (acceptable e)) ->
    (forall e, e ∈ els -> is_node_element e = true -> is_Some (acceptable e)) ->
    NoDup (map element_id (List.filter is_node_element els)) ->
    errs = [] /\ order = map element_id (List.filter is_node_element els) /\
    forall id, id ∈ order <-> is_Some (nodes !! id)).
  enough (HP : P els (fold_left (node_pass marshal) els (∅, [], []))).
  { unfold P in HP. destruct (fold_left _ els _) as [[nodes order] errs]. by apply HP. }
  clear Ha Hb Hc. apply (fold_snoc_ind (node_pass marshal) P); unfold P.
  { intros _ _ _. split_and!; try done. intros id. rewrite lookup_empty, elem_of_nil. split; [done|by intros [? ?]]. }
  intros done_ e [[nodes order] errs] IH. 
  destruct (node_pass marshal (nodes, order, errs) e) as [[nodes' order'] errs'] eqn:Ep. intros Hacc Hacc' Hnd.
  rewrite List.filter_app, map_app in *. apply NoDup_app in Hnd as (Hnd & Hnew & _).
  destruct IH as (He & Ho & Hdom); [intros; apply Hacc; [apply elem_of_app; by left|done]
    |intros; apply Hacc'; [apply elem_of_app; by left|done]|done|].
  assert (Hin : e ∈ done_ ++ [e]) by (apply elem_of_app; right; by left).
  unfold node_pass in Ep. cbn [List.filter map] in *. destruct (IsNode e) as [d|] eqn:En.
  - destruct (Hacc e Hin (mk_is_Some _ _ En)) as [d' Hd]. destruct (acceptable_node e) as [Hi _]; [by eexists|].
    unfold acceptable in Hd. rewrite En in Hd. rewrite Hi in *. cbn [map] in *.
    change (GetStr (fld e "id")) with (element_id e) in *.
    destruct (element_id e =? "") eqn:Eid; [done|]. destruct (GetStr (fld d "component") =? "") eqn:Ec; [done|].
    destruct (GetStr (fld d "module") =? "") eqn:Emod; [done|].
    destruct (GetStr (fld e "flow") =? "") eqn:Ef; [done|].
    destruct (nodes !! element_id e) as [n|] eqn:E0.
    { exfalso. apply (Hnew (element_id e)); [|by left]. rewrite <- Ho. apply Hdom. by eexists. }
    cbn [orb] in Ep. injection Ep as <- <- <-.
    rewrite He, handles_clean by done. split_and!; [done|by rewrite Ho|]. intros id.
    rewrite elem_of_app, list_elem_of_singleton, Hdom. destruct (decide (element_id e = id)) as [<-|Hne].
    + rewrite lookup_insert_eq. split; [intros _; by eexists|by right].
    + rewrite lookup_insert_ne by done. split; [intros [?|E]; [done|congruence]|by left].
  - injection Ep as <- <- <-. destruct (is_node_element e) eqn:Ei.
    + destruct (Hacc' e Hin Ei) as [d Hd]. unfold acceptable in Hd. by rewrite En in Hd.
    + cbn [map]. rewrite app_nil_r. done.
Qed.

Lemma edge_typed (e : list (string * json)) :
  element_type e = TinyEdgeType -> (ends e).1 <> "" -> (ends e).2 <> "" ->
  GetStr (fld e "sourceHandle") <> "" -> GetStr (fld e "targetHandle") <> "" -> IsEdge e = true.
Proof.
  unfold element_type, ends, IsEdge. simpl. intros Ht Hs Htg Hsh Hth.
  destruct (fld e "type"); try done. simpl in Ht. subst. rewrite bool_decide_eq_true_2 by done.
  by destruct (fld e "source"), (fld e "target"), (fld e "targetHandle"), (fld e "sourceHandle").
Qed.

(** A payload whose node elements are acceptable, with distinct ids, and whose
    edges have both ends in it. *)
Lemma import_clean (els : list (list (string * json))) :
  (forall v, encodes v) -> (forall e, e ∈ els -> is_Some (IsNode e) -> is_Some (acceptable e)) ->
  (forall e, e ∈ els -> is_node_element e = true -> is_Some (acceptable e)) ->
  NoDup (map element_id (List.filter is_node_element els)) ->
  (forall e, e ∈ els -> IsEdge e = true -> (ends e).1 ∈ collect_ids els /\ (ends e).2 ∈ collect_ids els) ->
  let '(nodes, order, errs) := NodesFromGraphElements marshal els in
  errs = [] /\ order = map element_id (List.filter is_node_element els) /\
  (forall id, id ∈ order <-> is_Some (nodes !! id)) /\
  (forall e, e ∈ els -> IsEdge e = true -> lands (dom nodes) e = true).
Proof.
  intros Hm Ha Ha' Hnd Hends. pose proof (node_pass_ok els Hm Ha Ha' Hnd) as Hp. unfold NodesFromGraphElements.
  destruct (fold_left (node_pass marshal) els _) as [[nodes order] errs]. destruct Hp as (He & Ho & Hdom).
  pose proof (edge_pass_spec els nodes errs) as Hes.
  destruct (fold_left (edge_pass marshal) els _) as [nodes' errs']. destruct Hes as [Hn' Herr].
  assert (Hids : forall x, x ∈ collect_ids els -> x ∈ dom nodes).
  { intros x Hx. apply elem_of_dom, Hdom. rewrite Ho. unfold collect_ids in Hx. by apply elem_of_list_to_set in Hx. }
  assert (Hl : forall e, e ∈ els -> IsEdge e = true -> lands (dom nodes) e = true).
  { intros e Hin Hi. destruct (Hends e Hin Hi) as [Hs Ht]. unfold lands.
    by rewrite Hi, !bool_decide_eq_true_2 by (by apply Hids). }
  assert (Hdom' : dom nodes' = dom nodes).
  { apply set_eq. intros id. rewrite !elem_of_dom, Hn'. by rewrite fmap_is_Some. }
  split_and!; [|done| |by rewrite Hdom'].
  - rewrite Herr, He. simpl. apply concat_nil_Forall, Forall_forall. intros x Hx.
    apply list_elem_of_In, in_map_iff in Hx as (e & <- & Hin). apply list_elem_of_In in Hin. unfold edge_errors.
    destruct (IsEdge e) eqn:Ei; [|done]. cbn [negb]. rewrite Hl by done. unfold import_edge_config.
    destruct (as_obj (fld e "data")) as [d|]; [|done].
    pose proof (marshal_field_clean (fld d "configuration") ("edge " +:+ e_ID (import_edge e) +:+ ": marshal " +:+ "config: ") Hm) as H1.
    pose proof (marshal_field_clean (fld d "schema") ("edge " +:+ e_ID (import_edge e) +:+ ": marshal " +:+ "schema: ") Hm) as H2.
    autorewrite with gostr in *.
    destruct (marshal_field marshal (fld d "configuration") _) as [c e1].
    destruct (marshal_field marshal (fld d "schema") _) as [s e2]. simpl in *. by subst.
  - intros id. rewrite Hdom, Hn'. by rewrite fmap_is_Some.
Qed.

Lemma collected_nonempty (els : list (list (string * json))) (x : string) : x ∈ collect_ids els -> x <> "".
Proof.
  intros Hx. unfold collect_ids in Hx. apply elem_of_list_to_set, list_elem_of_In, in_map_iff in Hx as (y & <- & Hy).
  apply filter_In in Hy as [_ Hy]. unfold is_node_element in Hy. apply andb_prop in Hy as [_ Hy].
  apply negb_true_iff in Hy. by apply neq_str.
Qed.

(** C37. Validation is enough for the import: when [ValidateProjectImport] reports no
    error and no two node elements share an id, the import reports none, makes a
    node of every node element, and every element typed [tinyEdge] becomes an
    edge of its source node. (The validator itself does not look for shared ids,
    and passes elements typed [edge], which the import ignores.) *)
Theorem validated_import_succeeds (title : string -> string) (data : ProjectExport) :
  (ValidateProjectImport title data).1 = [] -> (forall v, encodes v) ->
  NoDup (map element_id (List.filter is_node_element (pe_Elements data))) ->
  let '(nodes, order, errs) := NodesFromGraphElements marshal (pe_Elements data) in
  errs = [] /\ order = map element_id (List.filter is_node_element (pe_Elements data)) /\
  (forall e, e ∈ pe_Elements data -> element_type e = TinyEdgeType ->
     exists n, nodes !! (ends e).1 = Some n /\ import_edge e ∈ gn_edges n /\ is_Some (nodes !! (ends e).2)).
Proof.
  unfold ValidateProjectImport. set (els := pe_Elements data). rewrite joins_clean, !Forall_cons.
  intros (_ & _ & Hels & _) Hm Hnd.
  assert (Hnode : forall e, e ∈ els -> element_type e = TinyNodeType -> is_Some (acceptable e)).
  { intros e Hin Ht. destruct (imap_clean _ _ Hels e Hin) as [i Hi]. unfold validate_element in Hi.
    rewrite Ht, String.eqb_refl in Hi. by eapply clean_node. }
  assert (Hedge : forall e, e ∈ els -> element_type e = TinyEdgeType ->
    (ends e).1 ∈ collect_ids els /\ (ends e).2 ∈ collect_ids els /\ IsEdge e = true).
  { intros e Hin Ht. destruct (imap_clean _ _ Hels e Hin) as [i Hi]. unfold validate_element in Hi.
    rewrite Ht in Hi. cbn in Hi. apply clean_edge in Hi as (Hs & Htg & Hsh & Hth). split_and!; [done..|].
    apply edge_typed; [done|by apply (collected_nonempty els)..|done|done]. }
  pose proof (import_clean els Hm) as Hc. pose proof (import_spec els) as Hx.
  destruct (NodesFromGraphElements marshal els) as [[nodes order] errs].
  destruct Hc as (He & Ho & Hdom & Hl); [| |done| |].
  { intros e Hin [d Hd]. apply Hnode; [done|]. apply is_node_type in Hd. unfold element_type. by rewrite Hd. }
  { intros e Hin Hi. apply Hnode; [done|]. unfold is_node_element in Hi. apply andb_prop in Hi as [Hi _].
    by apply String.eqb_eq in Hi. }
  { intros e Hin Hi. apply is_edge_type in Hi.
    destruct (Hedge e Hin) as (? & ? & _); [|done]. unfold element_type. by rewrite Hi. }
  destruct Hx as (_ & _ & Hn & _). split_and!; [done..|].
  intros e Hin Ht. destruct (Hedge e Hin Ht) as (_ & _ & Hi). pose proof (Hl e Hin Hi) as Hle.
  assert (Hends := Hle). unfold lands in Hends. apply andb_prop in Hends as [Hends Htg]. apply andb_prop in Hends as [_ Hs].
  apply bool_decide_eq_true in Hs, Htg. apply elem_of_dom in Hs as [n Hs], Htg as [m Htg].
  exists n. split_and!; [done| |by eexists]. rewrite Hn in Hs. apply fmap_Some in Hs as (n0 & _ & ->).
  unfold add_spec, gn_edges. simpl. apply elem_of_app. right. unfold edges_from.
  apply list_elem_of_In, in_map, filter_In. split; [by apply list_elem_of_In|].
  by rewrite Hle, String.eqb_refl.
Qed.

End import.

Section witness.
Let node (id : string) : list (string * json) :=
  [("id", JStr id); ("type", JStr "tinyNode"); ("flow", JStr "f");
   ("data", JObj [("component", JStr "c"); ("module", JStr "m")])].
Let edge (t : string) : list (string * json) :=
  [("id", JStr "e"); ("type", JStr t); ("source", JStr "a"); ("sourceHandle", JStr "out");
   ("target", JStr "b"); ("targetHandle", JStr "in"); ("flow", JStr "f"); ("data", JObj [])].
Let project (els : list (list (string * json))) : ProjectExport := mkProjectExport [mkExportFlow "f" "Flow"] els [].
Let marshal (v : json) : result goerror string := Ok "{}".

Lemma validated_import_succeeds_witness :
  let '(nodes, order, errs) := NodesFromGraphElements marshal [node "a"; edge "tinyEdge"; node "b"] in
  errs = [] /\ order = ["a"; "b"] /\
  exists n, nodes !! "a" = Some n /\ import_edge (edge "tinyEdge") ∈ gn_edges n.
Proof.
  pose proof (validated_import_succeeds marshal (fun s => s) (project [node "a"; edge "tinyEdge"; node "b"])) as T.
  cbn [project pe_Elements] in T.
  destruct (NodesFromGraphElements marshal [node "a"; edge "tinyEdge"; node "b"]) as [[nodes order] errs].
  destruct T as (He & Ho & Hed); [vm_compute; reflexivity|intros v; reflexivity| |].
  { vm_compute. repeat constructor; set_solver. }
  split; [exact He|]. split; [exact Ho|].
  destruct (Hed (edge "tinyEdge")) as (n & Hn & Hin & _); [right; left|reflexivity|].
  exists n. split; [exact Hn|exact Hin].
Defined.

(** What passes validation: two nodes of one id, of which the import rejects the
    second, and an edge element the import ignores. *)
Example validation_gaps :
  (ValidateProjectImport (fun s => s) (project [node "a"; node "a"])).1 = [] /\
  (NodesFromGraphElements marshal [node "a"; node "a"]).2 = ["duplicate node id " +:+ go_quote "a"] /\
  (ValidateProjectImport (fun s => s) (project [node "a"; node "b"; edge "edge"])).1 = [] /\
  gn_edges <$> (NodesFromGraphElements marshal [node "a"; node "b"; edge "edge"]).1.1 !! "a" = Some [].
Proof. vm_compute. done. Qed.
End witness.
