(* ===== verification/GraphRoundtrip.v ===== *)
(** * Export and import of a graph

    What of a flow survives its export and import, and what does not; and the
    handles of a node as the frontend is shown them. *)
From S2P Require Import Prelude GoErrors Names Graph Json Elements ElementsSpec Schema GraphExport GraphImport ImportValidation ImportSpec.

Open Scope string_scope.
Open Scope list_scope.

(** ** Members of exported maps *)

Definition dget (k : string) (m : list (string * gval)) : option gval :=
  snd <$> List.find (fun kv => kv.1 =? k) m.

Lemma dget_set (k k' : string) (v : gval) (m : list (string * gval)) :
  dget k' (dict_set k v m) = if k =? k' then Some v else dget k' m.
Proof.
  unfold dget. induction m as [|[a x] m IH]; simpl; [by destruct (k =? k')|].
  destruct (String.eqb_spec a k) as [->|Hne]; simpl; [by destruct (k =? k')|].
  destruct (String.eqb_spec a k') as [->|]; simpl; [|exact IH].
  by destruct (String.eqb_spec k k').
Qed.

Lemma dget_nonempty (k k' v : string) (m : list (string * gval)) :
  (k =? k') = false -> dget k' (set_nonempty k v m) = dget k' m.
Proof. intros Hk. unfold set_nonempty. destruct (v =? ""); [done|]. by rewrite dget_set, Hk. Qed.

(** Member by member. *)
Fixpoint encode_members (un : string -> option json) (m : list (string * gval)) : option (list (string * json)) :=
  match m with
  | [] => Some []
  | (k, x) :: m' =>
      match encode un x, encode_members un m' with
      | Some y, Some n => Some ((k, y) :: n)
      | _, _ => None
      end
  end.

Lemma encode_dict_eq (un : string -> option json) (m : list (string * gval)) :
  encode un (GDict m) = JObj <$> encode_members un m.
Proof. cbn [encode]. f_equal. induction m as [|[k x] m IH]; [done|]. simpl. by rewrite IH. Qed.

Lemma encode_member (un : string -> option json) (m : list (string * gval)) (m' : list (string * json)) (k : string) :
  encode un (GDict m) = Some (JObj m') ->
  obj_get k m' = match dget k m with Some v => encode un v | None => None end /\
  (forall v, dget k m = Some v -> is_Some (encode un v)).
Proof.
  rewrite encode_dict_eq. intros (n & He & [= <-])%fmap_Some.
  revert m' He. induction m as [|[a x] m IH]; intros n He; simpl in He; [by injection He as <-|].
  destruct (encode un x) as [y|] eqn:Ex; [|done].
  destruct (encode_members un m) as [n'|] eqn:En; [|done]. injection He as <-.
  unfold obj_get, dget. simpl. destruct (a =? k); simpl; [|by apply IH].
  rewrite Ex. split; [done|]. intros v [= <-]. rewrite Ex. by eexists.
Qed.

Lemma encode_dict (un : string -> option json) (m : list (string * gval)) (v : json) :
  encode un (GDict m) = Some v -> exists m', v = JObj m'.
Proof. rewrite encode_dict_eq. intros (n & _ & ->)%fmap_Some. by exists n. Qed.

Lemma encode_str (un : string -> option json) (m : list (string * gval)) (m' : list (string * json)) (k s : string) :
  encode un (GDict m) = Some (JObj m') -> dget k m = Some (GStr s) -> fld m' k = JStr s.
Proof. intros He Hd. unfold fld. destruct (encode_member _ _ _ k He) as [-> _]. by rewrite Hd. Qed.

Lemma encode_none (un : string -> option json) (m : list (string * gval)) (m' : list (string * json)) (k : string) :
  encode un (GDict m) = Some (JObj m') -> dget k m = None -> fld m' k = JNull.
Proof. intros He Hd. unfold fld. destruct (encode_member _ _ _ k He) as [-> _]. by rewrite Hd. Qed.

Lemma encode_nested (un : string -> option json) (m d : list (string * gval)) (m' : list (string * json)) (k : string) :
  encode un (GDict m) = Some (JObj m') -> dget k m = Some (GDict d) ->
  exists d', fld m' k = JObj d' /\ encode un (GDict d) = Some (JObj d').
Proof.
  intros He Hd. destruct (encode_member _ _ _ k He) as [Hk Hs]. destruct (Hs _ Hd) as [v Hv].
  destruct (encode_dict _ _ _ Hv) as [d' ->]. exists d'. split; [|done]. unfold fld. by rewrite Hk, Hd, Hv.
Qed.

(** Comparisons of keys that are known. *)
Ltac known_keys :=
  repeat match goal with
  | |- context [ (?a =? ?b)%string ] =>
      let r := eval vm_compute in (a =? b)%string in
      match r with
      | true => change (a =? b)%string with true
      | false => change (a =? b)%string with false
      end
  end; cbv iota.

Ltac find_member := repeat (rewrite dget_set || (rewrite dget_nonempty by reflexivity)); known_keys.

Section roundtrip.
  Context `{MapRange GraphNode} `{MapRange json}.
  Variable unmarshal : string -> result goerror json.
  Variable amarshal : json -> result goerror string.
  Variable json_unmarshal : string -> option json.
  Variable sanitize : string -> string.

Lemma node_members (n : GraphNode) (m0 : list (string * gval)) (minimal : bool) :
  let e := ApiNodeToMap unmarshal amarshal json_unmarshal sanitize n m0 minimal in
  dget "type" e = Some (GStr "tinyNode") /\ dget "id" e = Some (GStr (gn_name n)) /\
  dget "comment" e = None /\
  exists data, dget "data" e = Some (GDict data) /\
    dget "component" data = Some (GStr (sanitize (spec_Component (n_Spec (gn_node n))))) /\
    dget "module" data = Some (GStr (sanitize (spec_Module (n_Spec (gn_node n))))) /\
    dget "label" data = Some (GStr (sanitize (node_label n))).
Proof.
  cbv zeta. unfold ApiNodeToMap. split_and!; [done..|]. eexists. split; [done|].
  split_and!; find_member; try done.
  destruct minimal; find_member; [done|]. by destruct (gn_lastUpdate n); find_member.
Qed.

(** ** The elements of an export *)

Definition decoded (m : list (string * gval)) (v : list (string * json)) : Prop :=
  encode json_unmarshal (GDict m) = Some (JObj v).

(** The caller names the flow of every element. *)
Definition stamp (f : string) (v : list (string * json)) : list (string * json) := obj_set "flow" (JStr f) v.

Lemma fld_stamp (f k : string) (v : list (string * json)) :
  fld (stamp f v) k = if "flow" =? k then JStr f else fld v k.
Proof. apply fld_set. Qed.

(** A node whose texts the sanitizer leaves alone, of the flow, with edges to
    nodes of the export. *)
Definition exportable (f : string) (els : gmap string GraphNode) (k : string) (n : GraphNode) : Prop :=
  let spec := n_Spec (gn_node n) in
  k <> "" /\ gn_name n = k /\ sanitize k = k /\ label (gn_node n) FlowNameLabel = f /\
  (sanitize (spec_Component spec) = spec_Component spec /\ spec_Component spec <> "") /\
  (sanitize (spec_Module spec) = spec_Module spec /\ spec_Module spec <> "") /\
  forall e, e ∈ gn_edges n -> e_ID e <> "" /\
    exists t p, e_To e = t +:+ ":" +:+ p /\ str_has ":" t = false /\ str_has ":" p = false /\ is_Some (els !! t).

Lemma split_address (t p : string) :
  str_has ":" t = false -> str_has ":" p = false -> go_split ":" (t +:+ ":" +:+ p) = [t; p].
Proof. intros Ht Hp. change (":" +:+ p) with (String ":" p). rewrite go_split_app, go_split_nosep by done. done. Qed.

Lemma stamped_node (f : string) (els : gmap string GraphNode) (k : string) (n : GraphNode)
    (m0 : list (string * gval)) (minimal : bool) (v : list (string * json)) :
  f <> "" -> exportable f els k n ->
  decoded (ApiNodeToMap unmarshal amarshal json_unmarshal sanitize n m0 minimal) v ->
  let e := stamp f v in
  exists data, acceptable e = Some data /\ is_node_element e = true /\ IsEdge e = false /\
    element_id e = k /\ fld e "flow" = JStr f /\ fld e "comment" = JNull /\
    fld data "component" = JStr (spec_Component (n_Spec (gn_node n))) /\
    fld data "module" = JStr (spec_Module (n_Spec (gn_node n))).
Proof.
  intros Hf (Hk & Hname & _ & _ & [Hc Hc0] & [Hm Hm0] & _) Hd e.
  destruct (node_members n m0 minimal) as (Ht & Hi & Hcm & data & Hdata & Hcomp & Hmod & _).
  destruct (encode_nested _ _ _ _ _ Hd Hdata) as (d & Hfd & Hdd).
  pose proof (encode_str _ _ _ _ _ Hd Ht) as Ht'. pose proof (encode_str _ _ _ _ _ Hd Hi) as Hi'.
  pose proof (encode_none _ _ _ _ Hd Hcm) as Hcm'.
  pose proof (encode_str _ _ _ _ _ Hdd Hcomp) as Hcomp'. pose proof (encode_str _ _ _ _ _ Hdd Hmod) as Hmod'.
  rewrite Hc in Hcomp'. rewrite Hm in Hmod'. rewrite Hname in Hi'.
  assert (Hfl : forall x, x <> "flow" -> fld e x = fld v x).
  { intros x Hx. unfold e. rewrite fld_stamp. destruct (String.eqb_spec "flow" x); congruence. }
  assert (Hflow : fld e "flow" = JStr f) by (unfold e; by rewrite fld_stamp).
  rewrite <- Hfl in Ht', Hi', Hcm', Hfd by done.
  exists d. unfold acceptable, IsNode, IsEdge, is_node_element, element_type, element_id.
  rewrite Ht', Hi', Hfd, Hflow. simpl. rewrite Hcomp', Hmod'. simpl.
  apply neq_str in Hk, Hc0, Hm0, Hf. by rewrite Hk, Hc0, Hm0, Hf.
Qed.

Lemma stamped_edge (f : string) (els : gmap string GraphNode) (k : string) (n : GraphNode) (edge : TinyNodeEdge)
    (data m : list (string * gval)) (v : list (string * json)) :
  exportable f els k n -> edge ∈ gn_edges n ->
  ApiEdgeToProtoMap sanitize n edge data = Ok m -> decoded m v ->
  let e := stamp f v in
  IsNode e = None /\ is_node_element e = false /\ IsEdge e = true /\ (ends e).1 = k /\ is_Some (els !! (ends e).2) /\
  import_edge e = mkEdge (e_ID edge) (e_Port edge) (e_To edge) f None.
Proof.
  intros (Hk & Hname & Hsk & _ & _ & _ & Hedges) Hin Hm Hd e.
  destruct (Hedges edge Hin) as (Hid & t & p & Hto & Hct & Hcp & Ht).
  unfold ApiEdgeToProtoMap in Hm. rewrite Hto, split_address, Hname, Hsk in Hm by done. injection Hm as <-.
  assert (Hfl : forall x, x <> "flow" -> fld e x = fld v x).
  { intros x Hx. unfold e. rewrite fld_stamp. destruct (String.eqb_spec "flow" x); congruence. }
  pose proof (fun x s Hx Hg => eq_trans (Hfl x Hx) (encode_str _ _ _ x s Hd Hg)) as Hs.
  assert (Hflow : fld e "flow" = JStr f) by (unfold e; by rewrite fld_stamp).
  unfold IsNode, IsEdge, is_node_element, element_type, element_id, ends, import_edge.
  rewrite Hflow, (Hs "type" "tinyEdge"), (Hs "source" k), (Hs "target" t), (Hs "sourceHandle" (e_Port edge)),
    (Hs "targetHandle" p), (Hs "id" (e_ID edge)) by done.
  simpl. apply neq_str in Hid. rewrite Hid, Hto, orb_true_r. done.
Qed.

(** The nodes of an export, each with its edges. *)
Definition export_edges (kns : list (string * GraphNode)) : list (string * TinyNodeEdge) :=
  concat (map (fun kn => map (pair kn.1) (gn_edges kn.2)) kns).

Lemma own_edges (kns : list (string * GraphNode)) (k : string) (n : GraphNode) :
  NoDup kns.*1 -> (k, n) ∈ kns ->
  List.filter (fun ke => ke.1 =? k) (export_edges kns) = map (pair k) (gn_edges n).
Proof.
  assert (Hother : forall j (es : list TinyNodeEdge), j <> k -> List.filter (fun ke => ke.1 =? k) (map (pair j) es) = []).
  { intros j es Hj. induction es as [|e es IH]; [done|]. simpl. apply String.eqb_neq in Hj. by rewrite Hj. }
  assert (Hown : forall es : list TinyNodeEdge, List.filter (fun ke => ke.1 =? k) (map (pair k) es) = map (pair k) es).
  { intros es. induction es as [|e es IH]; [done|]. simpl. by rewrite String.eqb_refl, IH. }
  unfold export_edges. induction kns as [|[j m] kns IH]; intros Hnd Hin; [by apply not_elem_of_nil in Hin|].
  cbn [map concat fst snd]. rewrite List.filter_app. apply NoDup_cons in Hnd as [Hj Hnd].
  apply elem_of_cons in Hin as [[= <- <-]|Hin].
  - rewrite Hown. replace (List.filter _ (concat _)) with (@nil (string * TinyNodeEdge)); [apply app_nil_r|].
    symmetry. clear IH Hnd. induction kns as [|[j' m'] kns IH]; [done|]. cbn [map concat fst snd].
    apply not_elem_of_cons in Hj as [Hne Hj]. by rewrite List.filter_app, IH, Hother by (done || congruence).
  - rewrite Hother, IH by (done || intros ->; apply Hj; by apply (list_elem_of_fmap_2 fst) in Hin). done.
Qed.

Definition comment_data (n : GraphNode) : list (string * gval) :=
  [("comment", GStr (sanitize (annotation n NodeCommentAnnotation)))].

(** When every node is of the flow, the export lists each node and each edge. *)
Lemma export_lists (els : gmap string GraphNode) (f : string) (minimal : bool)
    (pcm : gmap string (list TinyNodePortConfig)) (kns : list (string * GraphNode))
    (acc : list (list (string * gval)) * list (list (string * gval))) :
  Forall (fun kn => exportable f els kn.1 kn.2) kns ->
  exists edge_data : string * TinyNodeEdge -> list (string * gval),
  let edge_map kne := ApiEdgeToProtoMap sanitize kne.1.2 kne.2 (edge_data (kne.1.1, kne.2)) in
  fold_left (fun acc kn => let '(nodes, edges) := acc in let '(nodeName, node) := kn in
    match shown_in (Some f) node with
    | None => acc
    | Some blocked =>
        let m := comment_data node in
        let m := if blocked : bool then dict_set "blocked" (GBool true) m else m in
        (nodes ++ [ApiNodeToMap unmarshal amarshal json_unmarshal sanitize node m minimal],
         edges ++ edge_elements sanitize pcm nodeName node)
    end) kns acc =
  (acc.1 ++ map (fun kn => ApiNodeToMap unmarshal amarshal json_unmarshal sanitize kn.2 (comment_data kn.2) minimal) kns,
   acc.2 ++ concat (map (fun kn => omap (fun e => match edge_map (kn, e) with Ok m => Some m | Err _ => None end)
              (gn_edges kn.2)) kns)).
Proof.
  intros Hall.
  exists (fun ke =>
    let pc := edge_config (default [] (pcm !! e_To ke.2)) (GetPortFullName ke.1 (e_Port ke.2)) (ParseFullPortName (e_To ke.2)).2 in
    match pc with
    | Some pc => raw_nonempty "schema" (pc_Schema pc) (raw_nonempty "configuration" (pc_Configuration pc) [("valid", GBool true)])
    | None => [("valid", GBool true)]
    end).
  cbv zeta. revert acc. induction kns as [|[k n] kns IH]; intros [ns es]; [by rewrite !app_nil_r|].
  apply Forall_cons in Hall as [Hn Hall]. cbn [fold_left].
  assert (Hs : shown_in (Some f) n = Some false).
  { destruct Hn as (_ & _ & _ & Hl & _). unfold shown_in. simpl in Hl. rewrite Hl, String.eqb_refl. done. }
  rewrite Hs, IH by done. cbn [map concat fst snd]. by rewrite <- !app_assoc.
Qed.

Lemma export_edge_list (els : gmap string GraphNode) (f : string) (kns : list (string * GraphNode))
    (edge_data : string * TinyNodeEdge -> list (string * gval)) (vs : list (list (string * json))) :
  Forall (fun kn => exportable f els kn.1 kn.2) kns ->
  Forall2 decoded (concat (map (fun kn => omap (fun e =>
    match ApiEdgeToProtoMap sanitize kn.2 e (edge_data (kn.1, e)) with Ok m => Some m | Err _ => None end)
      (gn_edges kn.2)) kns)) vs ->
  Forall2 (fun ke v => exists n data m, (ke.1, n) ∈ kns /\ ke.2 ∈ gn_edges n /\
    ApiEdgeToProtoMap sanitize n ke.2 data = Ok m /\ decoded m v) (export_edges kns) vs.
Proof.
  intros Hall. revert vs. unfold export_edges. induction kns as [|[k n] kns IH]; intros vs Hv; cbn [map concat fst snd] in *;
    [inversion Hv; constructor|].
  apply Forall_cons in Hall as [Hn Hall]. apply Forall2_app_inv_l in Hv as (v1 & v2 & Hv1 & Hv2 & ->).
  apply Forall2_app.
  - assert (Hsub : forall e, e ∈ gn_edges n -> e ∈ gn_edges n) by done. revert Hsub v1 Hv1.
    generalize (gn_edges n) at 1 3 4 as es. induction es as [|e es IHe]; intros Hsub v1 Hv1; [inversion Hv1; constructor|].
    pose proof Hn as (_ & _ & _ & _ & _ & _ & Hed).
    destruct (Hed e (Hsub e (list_elem_of_here _ _))) as (_ & t & p & Hto & Ht & Hp & _).
    cbn [omap list_omap map] in *. unfold ApiEdgeToProtoMap in Hv1 at 1.
    rewrite Hto, split_address in Hv1 by done. inversion Hv1 as [|? ? ? ? Hd Hrest]; subst. constructor.
    + eexists n, _, _. split; [by left|]. split; [by apply Hsub; left|].
      unfold ApiEdgeToProtoMap. simpl. rewrite Hto, split_address by done. split; [done|exact Hd].
    + apply IHe; [intros; apply Hsub; by right|done].
  - eapply Forall2_impl; [by apply IH|]. intros [k' e'] v (n' & data & m & Hin & Hrest).
    exists n', data, m. split; [by right|done].
Qed.

Lemma forall2_in_r {A B} (R : A -> B -> Prop) (l : list A) (k : list B) (y : B) :
  Forall2 R l k -> y ∈ k -> exists x, x ∈ l /\ R x y.
Proof.
  induction 1 as [|x y' l k Hr Hl IH]; intros Hy; [by apply not_elem_of_nil in Hy|].
  apply elem_of_cons in Hy as [->|Hy]; [exists x; split; [left|done]|].
  destruct (IH Hy) as (x' & Hx & Hr'). exists x'. split; [by right|done].
Qed.

Lemma forall2_in_l {A B} (R : A -> B -> Prop) (l : list A) (k : list B) (x : A) :
  Forall2 R l k -> x ∈ l -> exists y, y ∈ k /\ R x y.
Proof.
  intros Hr Hx. apply Forall2_flip in Hr. destruct (forall2_in_r _ _ _ _ Hr Hx) as (y & Hy & Hxy). by exists y.
Qed.

Lemma filter_nil_in {A} (p : A -> bool) (l : list A) : (forall x, x ∈ l -> p x = false) -> List.filter p l = [].
Proof.
  intros Hp. apply filter_none, forallb_forall. intros x Hx. rewrite Hp; [done|]. by apply list_elem_of_In.
Qed.

Lemma filter_all_in {A} (p : A -> bool) (l : list A) : (forall x, x ∈ l -> p x = true) -> List.filter p l = l.
Proof. intros Hp. apply filter_all, forallb_forall. intros x Hx. apply Hp. by apply list_elem_of_In. Qed.

(** A stamped element of a node, and of an edge. *)
Definition node_element (f : string) (kn : string * GraphNode) (e : list (string * json)) : Prop :=
  exists data, acceptable e = Some data /\ is_node_element e = true /\ IsEdge e = false /\
    element_id e = kn.1 /\ fld e "flow" = JStr f /\ fld e "comment" = JNull /\
    fld data "component" = JStr (spec_Component (n_Spec (gn_node kn.2))) /\
    fld data "module" = JStr (spec_Module (n_Spec (gn_node kn.2))).

Definition edge_element (f : string) (els : gmap string GraphNode) (ke : string * TinyNodeEdge)
    (e : list (string * json)) : Prop :=
  IsNode e = None /\ is_node_element e = false /\ IsEdge e = true /\ (ends e).1 = ke.1 /\
  is_Some (els !! (ends e).2) /\ is_Some (els !! ke.1) /\
  import_edge e = mkEdge (e_ID ke.2) (e_Port ke.2) (e_To ke.2) f None.

Lemma own_imports (f : string) (els : gmap string GraphNode) (D : gset string) (k : string)
    (kes : list (string * TinyNodeEdge)) (es : list (list (string * json))) :
  Forall2 (edge_element f els) kes es -> D = dom els ->
  edges_from D k es =
    map (fun ke => mkEdge (e_ID ke.2) (e_Port ke.2) (e_To ke.2) f None) (List.filter (fun ke => ke.1 =? k) kes).
Proof.
  intros He ->. unfold edges_from. induction He as [|ke e kes es (_ & _ & Hi & Hs & Ht & Hk & Himp) _ IH]; [done|].
  cbn [List.filter]. unfold lands at 1. rewrite Hi, Hs, !bool_decide_eq_true_2 by by apply elem_of_dom.
  cbn [andb]. destruct (ke.1 =? k); [|done]. cbn [map]. by rewrite Himp, IH.
Qed.

Lemma imported_back (marshal : json -> result goerror string) (els : gmap string GraphNode) (f : string)
    (kns : list (string * GraphNode)) (nes ees : list (list (string * json))) :
  (forall v, encodes marshal v) -> (forall k n, (k, n) ∈ kns <-> els !! k = Some n) -> NoDup kns.*1 ->
  Forall2 (node_element f) kns nes -> Forall2 (edge_element f els) (export_edges kns) ees ->
  let '(nodes, order, errs) := NodesFromGraphElements marshal (nes ++ ees) in
  errs = [] /\ dom nodes = dom els /\
  forall k n, els !! k = Some n -> exists n', nodes !! k = Some n' /\
    gn_name n' = k /\ label (gn_node n') FlowNameLabel = f /\
    spec_Component (n_Spec (gn_node n')) = spec_Component (n_Spec (gn_node n)) /\
    spec_Module (n_Spec (gn_node n')) = spec_Module (n_Spec (gn_node n)) /\
    gn_edges n' = map (fun e => mkEdge (e_ID e) (e_Port e) (e_To e) f None) (gn_edges n) /\
    annotation n' NodeCommentAnnotation = "".
Proof.
  intros Henc Hin Hnd Hn He.
  assert (Hns : forall e, e ∈ nes -> exists kn, kn ∈ kns /\ node_element f kn e) by (intros; by apply (forall2_in_r _ _ _ _ Hn)).
  assert (Hes : forall e, e ∈ ees -> exists ke, ke ∈ export_edges kns /\ edge_element f els ke e)
    by (intros; by apply (forall2_in_r _ _ _ _ He)).
  assert (Hfil : List.filter is_node_element (nes ++ ees) = nes).
  { rewrite List.filter_app, filter_all_in, filter_nil_in, app_nil_r; [done| |].
    - intros e Hin'. by destruct (Hes e Hin') as (ke & _ & _ & Hi & _).
    - intros e Hin'. by destruct (Hns e Hin') as (kn & _ & data & _ & Hi & _). }
  assert (Hids : map element_id nes = kns.*1).
  { clear -Hn. induction Hn as [|kn e kns nes (data & _ & _ & _ & Hid & _) _ IH]; [done|]. csimpl. by rewrite Hid, IH. }
  assert (Hdomk : forall k, k ∈ kns.*1 <-> is_Some (els !! k)).
  { intros k. rewrite list_elem_of_fmap. split.
    - intros ([k' n] & -> & Hkn). apply Hin in Hkn. by eexists.
    - intros [n Hkn]. exists (k, n). split; [done|]. by apply Hin. }
  pose proof (import_clean marshal (nes ++ ees) Henc) as Hc. pose proof (import_spec marshal (nes ++ ees)) as Hx.
  destruct (NodesFromGraphElements marshal (nes ++ ees)) as [[nodes order] errs].
  destruct Hc as (Herr & Ho & Hdom & Hl).
  { intros e [Hi|Hi]%elem_of_app [d Hd].
    - destruct (Hns e Hi) as (kn & _ & data & Ha & _). by eexists.
    - destruct (Hes e Hi) as (ke & _ & Hno & _). by rewrite Hno in Hd. }
  { intros e [Hi|Hi]%elem_of_app Hd.
    - destruct (Hns e Hi) as (kn & _ & data & Ha & _). by eexists.
    - destruct (Hes e Hi) as (ke & _ & _ & Hno & _). by rewrite Hno in Hd. }
  { by rewrite Hfil, Hids. }
  { intros e [Hi|Hi]%elem_of_app Hd.
    - destruct (Hns e Hi) as (kn & _ & data & _ & _ & Hno & _). by rewrite Hno in Hd.
    - destruct (Hes e Hi) as (ke & _ & _ & _ & _ & Hs & Ht & Hk & _).
      unfold collect_ids. rewrite Hfil, Hids, !elem_of_list_to_set, !Hdomk, Hs. done. }
  destruct Hx as (_ & _ & Hnodes & _).
  assert (Hdoms : dom nodes = dom els).
  { apply set_eq. intros k. rewrite !elem_of_dom, <- Hdom, Ho, Hfil, Hids. apply Hdomk. }
  split_and!; [done|done|]. intros k n Hk.
  assert (Hfirst : exists e data, first_node marshal (nes ++ ees) k = Some (node_of marshal e data) /\ node_element f (k, n) e /\
    acceptable e = Some data).
  { assert (Hk' : is_Some (nodes !! k)) by (apply elem_of_dom; rewrite Hdoms; apply elem_of_dom; by eexists).
    destruct Hk' as [m Hm]. rewrite Hnodes in Hm. apply fmap_Some in Hm as (m' & Hm & _).
    unfold first_node in *. destruct (List.find _ (nes ++ ees)) as [e|] eqn:Ef; [|done].
    apply find_some in Ef as [Hi Hp]. apply list_elem_of_In in Hi. apply andb_prop in Hp as [Ha Hid].
    apply bool_decide_eq_true in Ha as [d Hd]. apply String.eqb_eq in Hid.
    apply elem_of_app in Hi as [Hi|Hi].
    - destruct (Hns e Hi) as ([k' n'] & Hkn & Hne). assert (Hne' := Hne).
      destruct Hne as (data & Hdata & _ & _ & Hid' & _). unfold element_id in Hid'. simpl in Hid'.
      assert (k' = k) as -> by congruence. apply Hin in Hkn. assert (n' = n) as -> by congruence.
      exists e, d. rewrite Hd. done.
    - destruct (Hes e Hi) as (ke & _ & Hno & _). unfold acceptable in Hd. by rewrite Hno in Hd. }
  destruct Hfirst as (e & data & Hfirst & (data' & Hacc & _ & _ & Hid & Hflow & Hcom & Hcomp & Hmod) & Hacc').
  assert (data' = data) as -> by congruence.
  eexists. split; [by rewrite Hnodes, Hfirst|].
  unfold add_spec, node_of, import_node, gn_name, gn_edges, annotation. simpl.
  unfold element_id in Hid. rewrite Hflow, Hcomp, Hmod. split_and!; [done| |done|done| |].
  - unfold label, import_labels. simpl. unfold annotate. destruct (_ =? ""); [by rewrite lookup_singleton_eq|].
    rewrite lookup_insert_ne by done. by rewrite lookup_singleton_eq.
  - unfold edges_from. rewrite List.filter_app, filter_nil_in.
    + cbn [app]. fold (edges_from (dom nodes) k ees). rewrite (own_imports f els _ k _ _ He Hdoms).
      rewrite (own_edges kns k n Hnd) by by apply Hin. rewrite map_map. done.
    + intros x Hi. destruct (Hns x Hi) as (kn & _ & d & _ & _ & Hno & _). unfold lands. by rewrite Hno.
  - unfold import_annotations. rewrite Hcom. simpl.
    assert (Hann : forall a v (m : gmap string string), a <> NodeCommentAnnotation ->
      annotate a v m !! NodeCommentAnnotation = m !! NodeCommentAnnotation).
    { intros a v m Ha. unfold annotate. destruct (v =? ""); [done|]. by rewrite lookup_insert_ne. }
    rewrite !Hann by done. unfold annotate at 1. simpl. rewrite Hann by done.
    by rewrite !lookup_insert_ne, lookup_singleton_ne by done.
Qed.

End roundtrip.

Section roundtrip_witness.
Let range (V : Type) : MapRange V := map_range_some_order V.
Let no_parse (s : string) : result goerror json := Err (ErrorString "no schema").
Let parse (s : string) : option json := Some JNull.
Let print (v : json) : result goerror string := Ok "{}".
Let node (name : string) (edges : list TinyNodeEdge) : GraphNode :=
  mkGraphNode (mkNode name "ns" {[ FlowNameLabel := "f" ]} 0 (mkSpec "m" "c" [] edges) empty_status)
    {[ NodeCommentAnnotation := "hello" ]} "m" None.
Let edge : TinyNodeEdge := mkEdge "e" "out" "b:in" "f" None.
Let els : gmap string GraphNode := {[ "a" := node "a" [edge]; "b" := node "b" [] ]}.
Let exported := @NodesToGraphWithOptions (range _) (range _) no_parse print parse (fun s => s) els (Some "f") false.
Let vs : list (list (string * json)) :=
  omap (fun m => match encode parse (GDict m) with Some (JObj v) => Some v | _ => None end) (exported.1 ++ exported.2).

End roundtrip_witness.

(** ** The handles of one node

    [pkg/utils/portinspect.go]: what the frontend is shown of a node's ports. *)
Section handles.
Context `{MapRange GraphNode} `{MapRange json}.
Variable unmarshal : string -> result goerror json.
Variable amarshal : json -> result goerror string.
Variable json_unmarshal : string -> option json.
Variable sanitize : string -> string.

(** The id of a handle that is a map: "" where it has none. *)
Definition handle_id (h : gval) : option string :=
  match h with
  | GDict m => Some match dget "id" m with Some (GV (JStr s)) => s | _ => "" end
  | GV (JObj m) => Some match obj_get "id" m with Some (JStr s) => s | _ => "" end
  | _ => None
  end.

Definition shown (includeSystemPorts : bool) (h : gval) : bool :=
  match handle_id h with
  | Some id => includeSystemPorts || negb ((id =? SettingsPort) || (id =? ControlPort))
  | None => false
  end.

Definition GetPortHandles (n : GraphNode) (includeSystemPorts : bool) : list gval :=
  match dget "data" (ApiNodeToMap unmarshal amarshal json_unmarshal sanitize n [] false) with
  | Some (GDict data) =>
      match dget "handles" data with
      | Some (GSlice hs) => List.filter (shown includeSystemPorts) hs
      | _ => []
      end
  | _ => []
  end.

Definition GetAllPortHandles (n : GraphNode) : list gval := GetPortHandles n true.

Lemma fold_handles (f : TinyNodePortStatus -> gval) (ps : list TinyNodePortStatus) (hm : gmap string gval) :
  NoDup (map ps_Name ps) -> (forall v, v ∈ ps -> hm !! ps_Name v = None) ->
  forall k h, fold_left (fun hm v => <[ps_Name v := f v]> hm) ps hm !! k = Some h <->
    hm !! k = Some h \/ exists v, v ∈ ps /\ ps_Name v = k /\ h = f v.
Proof.
  revert hm. induction ps as [|v ps IH]; intros hm Hnd Hfree k h; cbn [fold_left].
  { split; [by left|]. by intros [|(v & Hv%not_elem_of_nil & _)]. }
  inversion Hnd as [|? ? Hv Hnd']; subst. rewrite IH; [|done|].
  - destruct (decide (ps_Name v = k)) as [<-|Hk].
    + rewrite lookup_insert_eq, Hfree by set_solver. split.
      * intros [[= <-]|(w & Hw & E & ->)]; right; [by exists v; split; [set_solver|]|by exists w; split; [set_solver|]].
      * intros [|(w & [->|Hw]%elem_of_cons & E & ->)]; [done|by left|]. right. by exists w.
    + rewrite lookup_insert_ne by done. split.
      * intros [|(w & Hw & E & ->)]; [by left|right; by exists w; split; [set_solver|]].
      * intros [|(w & [->|Hw]%elem_of_cons & E & ->)]; [by left|done|right; by exists w].
  - intros w Hw. rewrite lookup_insert_ne; [apply Hfree; set_solver|]. intros E. apply Hv. rewrite E.
    apply list_elem_of_In, in_map. by apply list_elem_of_In.
Qed.

Lemma handles_slice_elem (hm : gmap string gval) (h : gval) :
  match handles_slice hm with GSlice hs => h ∈ hs | _ => False end <-> exists k, hm !! k = Some h.
Proof.
  unfold handles_slice.
  assert (Hk : forall k, k ∈ go_sort_strings (map_to_list hm).*1 <-> is_Some (hm !! k)).
  { intros k. rewrite go_sort_strings_perm, list_elem_of_fmap. split.
    - intros ([k' v] & -> & Hin%elem_of_map_to_list). by eexists.
    - intros [v Hv]. exists (k, v). split; [done|]. by apply elem_of_map_to_list. }
  destruct (go_sort_strings _) as [|k0 ks].
  - split; [done|]. intros (k & Hh). assert (k ∈ []) as []%not_elem_of_nil by (apply Hk; by eexists).
  - rewrite list_elem_of_In, in_map_iff. split.
    + intros (k & <- & Hin%list_elem_of_In%Hk). destruct Hin as [v Hv]. exists k. by rewrite Hv.
    + intros (k & Hh). exists k. rewrite Hh. split; [done|]. apply list_elem_of_In, Hk. by eexists.
Qed.

(** A node that stores no handles shows one for every port of its component,
    and the ports of the system only where they are asked for. *)
Lemma port_handles_exact (n : GraphNode) (includeSystemPorts : bool) (h : gval) :
  annotation n NodeHandlesAnnotation = "" -> NoDup (map ps_Name (st_Ports (gn_status n))) ->
  h ∈ GetPortHandles n includeSystemPorts <->
  exists v, v ∈ st_Ports (gn_status n) /\ h = GDict (full_handle unmarshal amarshal n (GetConfigurableDefinitions unmarshal n None) v) /\
    (includeSystemPorts = true \/ ~ (ps_Name v = SettingsPort \/ ps_Name v = ControlPort)).
Proof.
  intros Hs Hnd.
  assert (Hst : stored_handles json_unmarshal n = ∅).
  { unfold stored_handles. rewrite Hs. by destruct (json_unmarshal "") as [[]|]. }
  set (hm := fold_left (fun hm v => <[ps_Name v := GDict (full_handle unmarshal amarshal n (GetConfigurableDefinitions unmarshal n None) v)]> hm)
    (st_Ports (gn_status n)) (∅ : gmap string gval)).
  assert (Hget : GetPortHandles n includeSystemPorts = match handles_slice hm with GSlice hs => List.filter (shown includeSystemPorts) hs | _ => [] end).
  { unfold GetPortHandles.
    assert (Hd : exists data, dget "data" (ApiNodeToMap unmarshal amarshal json_unmarshal sanitize n [] false) = Some (GDict data) /\
      dget "handles" data = Some (handles_slice hm)).
    { unfold ApiNodeToMap. rewrite Hst. eexists. split; [done|]. by find_member. }
    destruct Hd as (data & -> & ->). done. }
  assert (Hin : forall k h, hm !! k = Some h <-> exists v, v ∈ st_Ports (gn_status n) /\ ps_Name v = k /\
    h = GDict (full_handle unmarshal amarshal n (GetConfigurableDefinitions unmarshal n None) v)).
  { intros k h'. subst hm. rewrite fold_handles; [|done|intros v _; apply lookup_empty]. rewrite lookup_empty. by split; [intros [|]|right]. }
  pose proof (handles_slice_elem hm h) as Hel. rewrite Hget. split.
  - destruct (handles_slice hm) as [| |hs|]; try (by intros []%not_elem_of_nil). intros [Hh Hsh]%list_elem_of_In%filter_In.
    apply list_elem_of_In in Hh. destruct (proj1 Hel Hh) as (k & (v & Hv & <- & ->)%Hin). exists v. split_and!; [done|done|].
    unfold shown in Hsh. cbn in Hsh. destruct includeSystemPorts; [by left|right]. intros [E|E]; rewrite E in Hsh; done.
  - intros (v & Hv & -> & Hsh). destruct (handles_slice hm) as [| |hs|]; try (destruct (proj2 Hel); exists (ps_Name v); apply Hin; by exists v).
    apply list_elem_of_In, filter_In. split.
    + apply list_elem_of_In, Hel. exists (ps_Name v). apply Hin. by exists v.
    + unfold shown. cbn. destruct includeSystemPorts; [done|]. destruct Hsh as [|Hsh]; [done|].
      destruct (String.eqb_spec (ps_Name v) SettingsPort); [by destruct Hsh; left|].
      destruct (String.eqb_spec (ps_Name v) ControlPort); [by destruct Hsh; right|]. done.
Qed.
End handles.
