(* ===== verification/Generator.v ===== *)
(** * Mock data from a schema

    [pkg/jsonschemagenerator/generator.go]: a value of the shape a JSON schema
    declares, with a callback that may supply the value of a node. The random
    choices are draws from [gofakeit]; the generator counts them. The recursion
    follows the schema's references, so it is defined by fuel, and whether it
    ends is a question about the schema (see the theorems). *)
From S2P Require Import Prelude GoErrors Json Schema.
From Stdlib Require Import SpecFloat.

Open Scope string_scope.
Open Scope list_scope.

(** [gofakeit]: the n-th draw. [number] is the float64 of a literal. *)
Class Faker := {
  int_range : nat -> Z -> Z -> Z;
  int_range_in : forall n lo hi, (lo <= hi)%Z -> (lo <= int_range n lo hi <= hi)%Z;
  float_range : nat -> spec_float -> spec_float -> string;
  fake_bool : nat -> bool;
  noun_abstract : nat -> string;
  number : string -> spec_float;
}.

(** Witness draws, for concrete evaluations. *)
Program Definition faker_low : Faker :=
  {| int_range := fun _ lo _ => lo; float_range := fun _ _ _ => "0.5"; fake_bool := fun _ => false;
     noun_abstract := fun _ => "idea"; number := fun s => binary_normalize 53 1024 (num_trunc s) 0 false |}.
Next Obligation. simpl. lia. Qed.

(** [strings.Replace(s, old, "", 1)]. *)
Fixpoint remove_first (old s : string) : string :=
  if String.prefix old s then string_drop (String.length old) s
  else match s with EmptyString => EmptyString | String c s' => String c (remove_first old s') end.

(** ** The monad: the count of draws, the callback's state, an error, or no fuel *)

Section monad.
  Context {S : Type}.

Definition Gen (A : Type) : Type := nat * S -> option (result goerror A * (nat * S)).

Definition gret {A} (r : result goerror A) : Gen A := fun s => Some (r, s).
Definition gbind {A B} (m : Gen A) (k : result goerror A -> Gen B) : Gen B :=
  fun s => match m s with Some (r, s') => k r s' | None => None end.
(** An error ends the function. *)
Definition gtry {A B} (m : Gen A) (k : A -> Gen B) : Gen B :=
  gbind m (fun r => match r with Ok a => k a | Err e => gret (Err e) end).
Definition draw {A} (f : nat -> A) : Gen A := fun s => Some (Ok (f s.1), (Datatypes.S s.1, s.2)).
Definition out_of_fuel {A} : Gen A := fun _ => None.

(** What the callback answers: the value, whether it replaces, the error. *)
Definition Callback : Type := json -> nat * S -> option (json * bool * error * (nat * S)).

End monad.
Arguments Gen : clear implicits.
Arguments Callback : clear implicits.

Declare Scope gen_scope.
Delimit Scope gen_scope with gen.
Notation "'let?' x ':=' m 'in' k" := (gtry m (fun x => k))
  (at level 10, x pattern, m at level 100, k at level 200) : gen_scope.
Notation "'let%' x ':=' m 'in' k" := (gbind m (fun x => k))
  (at level 10, x pattern, m at level 100, k at level 200) : gen_scope.

(** [GetStrKey], whose callers drop its error. *)
Definition GetStrKey (key : string) (node : json) : string := default "" (GetStr key node).

(** [GetNumericKey]: the number's literal. *)
Definition GetNumericKey (key : string) (node : json) : string :=
  match GetKey node key with Some (JNum s) => s | _ => "0" end.

Section generator.
  Context `{Faker}.
  Variable key_error : json -> string -> goerror.  (* ajson: the key is missing *)
  Variable show : json -> string.                  (* the source text of a node *)
  Context {S : Type}.

Definition is_zero (literal : string) : bool := SFeqb (number literal) (S754_zero false).

(** The formats with an example of their own. *)
Definition format_example (format : string) : option string :=
  if format =? "date-time" then Some "1984-09-06T10:00:00+00:00"
  else if format =? "time" then Some "10:00:00+00:00"
  else if format =? "date" then Some "1984-09-06"
  else if format =? "duration" then Some "2h"
  else if format =? "email" then Some "contact@tinysystems.io"
  else if format =? "hostname" then Some "example.com"
  else if format =? "ipv4" then Some "8.8.8.8"
  else if format =? "uuid" then Some "3e4666bf-d5e5-4aa7-b8ce-cefe41c7568a"
  else if format =? "uri"
  then Some "https://john.doe@example.com:123/forum/questions/?tag=networking&order=newest#top"
  else None.

Definition typed_default (typ : string) (n : json) : Gen S json :=
  let minimum := GetNumericKey "minimum" n in
  let maximum := GetNumericKey "maximum" n in
  let bounded := negb (is_zero maximum) || negb (is_zero minimum) in
  if typ =? "object" then gret (Ok (JObj []))
  else if typ =? "number" then
    draw (fun i => JNum (if bounded then float_range i (number minimum) (number maximum)
                         else float_range i (number "0") (number "9999")))
  else if typ =? "integer" then
    draw (fun i => JNum (go_itoa (if bounded then int_range i (num_trunc minimum) (num_trunc maximum)
                                  else int_range i 0 9999)))
  else if typ =? "boolean" then draw (fun i => JBool (fake_bool i))
  else if typ =? "string" then
    match format_example (GetStrKey "format" n) with
    | Some s => gret (Ok (JStr s))
    | None =>
        let description := GetStrKey "description" n in
        if negb (description =? "") then gret (Ok (JStr description))
        else draw (fun i => JStr ("fakedata:" +:+ noun_abstract i))
    end
  else gret (Err (ErrorString "unknown type")).

Definition pick {A} (l : list A) (d : A) (i : nat) : A :=
  nth (Z.to_nat (int_range i 0 (Z.of_nat (length l) - 1))) l d.

Definition getDefaultValue (typ : string) (n : json) : Gen S json :=
  match GetKey n "default" with
  | Some d => gret (Ok d)
  | None =>
      match GetKey n "enum" with
      | Some (JArr ((_ :: _) as enumArray)) => draw (pick enumArray JNull)
      | _ => typed_default typ n
      end
  end.

Definition getDefinition (root : json) (ref : string) : result goerror json :=
  match GetKey root "$defs" with
  | None => Err (ErrorString ("root search $defs error: " +:+ error_text (key_error root "$defs")))
  | Some defsNode =>
      let nodeID := remove_first "#/$defs/" ref in
      match GetKey defsNode nodeID with
      | Some defNode => Ok defNode
      | None => Err (ErrorString ("definition node error: " +:+ error_text (key_error defsNode nodeID) +:+
                            " node: " +:+ nodeID +:+ " schema: " +:+ show root))
      end
  end.

(** The node a schema stands for. *)
Definition dereference (root node : json) : result goerror json :=
  let ref := GetStrKey "$ref" node in
  if negb (ref =? "") then
    match getDefinition root ref with
    | Ok n => Ok n
    | Err e => Err (ErrorString ("get definition error: " +:+ error_text e))
    end
  else Ok node.

(** The choices of [oneOf] or [anyOf]. *)
Definition alternatives (node : json) : option (list json) :=
  match GetKey node "oneOf" with
  | Some (JArr l) => Some l
  | _ => match GetKey node "anyOf" with Some (JArr l) => Some l | _ => None end
  end.

Definition properties (node : json) : list (string * json) :=
  match GetKey node "properties" with Some (JObj m) => m | _ => [] end.

Section step.
  (** The recursive call, with the generator's callback or with none. *)
  Variable rec : json -> Gen S json.
  Variable rec_mock : json -> Gen S json.

(** What a replacement lacks of the declared properties is mocked. *)
Fixpoint fill_properties (props : list (string * json)) (m : list (string * json)) : Gen S (list (string * json)) :=
  match props with
  | [] => gret (Ok m)
  | (propName, propValue) :: props' =>
      if negb (is_nil (fld m propName)) then fill_properties props' m
      else gbind (rec_mock propValue) (fun val =>
             fill_properties props' (match val with Ok v => obj_set propName v m | Err _ => m end))
  end.

Definition fill_replaced (node res : json) : Gen S json :=
  if GetStrKey "type" node =? "object" then
    match res with
    | JObj m => gtry (fill_properties (properties node) m) (fun m' => gret (Ok (JObj m')))
    | _ => gret (Ok res)
    end
  else gret (Ok res).

Fixpoint generate_properties (props : list (string * json)) (m : list (string * json)) : Gen S json :=
  match props with
  | [] => gret (Ok (JObj m))
  | (propName, propValue) :: props' =>
      gtry (rec propValue) (fun val => generate_properties props' (obj_set propName val m))
  end.

Definition generate_array (node : json) : Gen S json :=
  gbind (getDefaultValue "array" node) (fun def =>
    match def with
    | Ok v => gret (Ok v)
    | Err _ =>
        match GetKey node "items" with
        | None => gret (Ok (JArr []))
        | Some itemsNode =>
            gbind (rec itemsNode) (fun generateItem =>
              match generateItem with
              | Err e => gret (Err (ErrorString ("can not generate example value for items of the array: "
                                                 +:+ error_text e)))
              | Ok JNull => gret (Ok (JArr []))
              | Ok v => gret (Ok (JArr [v]))
              end)
        end
    end).

Definition generate_typed (node : json) : Gen S json :=
  let typ := GetStrKey "type" node in
  if bool_decide (node = JBool true) || (typ =? "") then gret (Ok JNull)
  else if (typ =? "string") || (typ =? "number") || (typ =? "integer") || (typ =? "boolean")
  then getDefaultValue typ node
  else if typ =? "array" then generate_array node
  else if typ =? "object" then
    match properties node with
    | [] => getDefaultValue typ node
    | props => generate_properties props []
    end
  else gret (Ok JNull).

Definition generate_node (root : json) (clb : option (Callback S)) (node0 : json) : Gen S json :=
  match dereference root node0 with
  | Err e => gret (Err e)
  | Ok node =>
      match alternatives node with
      | Some [] => gret (Err (ErrorString "set is empty"))
      | Some ((_ :: _) as l) => gtry (draw (pick l JNull)) rec
      | None =>
          match clb with
          | None => generate_typed node
          | Some c => fun s =>
              match c node s with
              | None => None
              | Some (res, replace, err, s') =>
                  if replace then
                    match err with
                    | Some e => Some (Err e, s')
                    | None => fill_replaced node res s'
                    end
                  else generate_typed node s'
              end
          end
      end
  end.

End step.

Fixpoint generate (fuel : nat) (root : json) (clb : option (Callback S)) (node : json) : Gen S json :=
  match fuel with
  | O => out_of_fuel
  | Datatypes.S f => generate_node (generate f root clb) (generate f root None) root clb node
  end.

(** [NewSchemaBasedDataGenerator().Generate(node, clb)]. *)
Definition Generate (fuel : nat) (node : json) (clb : option (Callback S)) : Gen S json :=
  generate fuel node clb node.

End generator.

(** ** Draws *)

Lemma pick_elem `{Faker} {A} (l : list A) (d : A) (i : nat) : l <> [] -> pick l d i ∈ l.
Proof.
  intros Hl. unfold pick. apply list_elem_of_In, nth_In. destruct l as [|x l]; [done|].
  pose proof (int_range_in i 0 (Z.of_nat (length (x :: l)) - 1)) as Hi. cbn [length] in *. lia.
Qed.

Lemma pick_one `{Faker} {A} (x d : A) (i : nat) : pick [x] d i = x.
Proof. pose proof (pick_elem [x] d i) as Hx. by apply list_elem_of_singleton, Hx. Qed.

(** ** Termination *)

Section termination.
  Context `{Faker}.
  Variable key_error : json -> string -> goerror.
  Variable show : json -> string.
  Context {S : Type}.

(** What a node may be expanded into. *)
Definition parts (node : json) : list json :=
  match alternatives node with
  | Some l => l
  | None => match GetKey node "items" with Some i => [i] | None => [] end ++ (properties node).*2
  end.

Definition part_of (root sub node : json) : Prop :=
  exists d, dereference key_error show root node = Ok d /\ sub ∈ parts d.

(** From every state of an invariant, whatever the draws, the computation gives
    a result and keeps the invariant. *)
Definition total (Inv : S -> Prop) {A} (m : Gen S A) : Prop :=
  forall s, Inv s.2 -> exists r s', m s = Some (r, s') /\ Inv s'.2.

Definition total_callback (Inv : S -> Prop) (clb : option (Callback S)) : Prop :=
  match clb with
  | Some c => forall n s, Inv s.2 -> exists r s', c n s = Some (r, s') /\ Inv s'.2
  | None => True
  end.

Section inv.
  Variable Inv : S -> Prop.

Lemma gen_total_ret {A} (r : result goerror A) : total Inv (gret r).
Proof. intros s Hs. by exists r, s. Qed.

Lemma total_draw {A} (f : nat -> A) : total Inv (draw f).
Proof. intros s Hs. by eexists _, _. Qed.

Lemma gen_total_bind {A B} (m : Gen S A) (k : result goerror A -> Gen S B) :
  total Inv m -> (forall r, total Inv (k r)) -> total Inv (gbind m k).
Proof. intros Hm Hk s Hs. unfold gbind. destruct (Hm s Hs) as (r & s' & -> & Hs'). by apply Hk. Qed.

Lemma total_try {A B} (m : Gen S A) (k : A -> Gen S B) :
  total Inv m -> (forall a, total Inv (k a)) -> total Inv (gtry m k).
Proof. intros Hm Hk. apply gen_total_bind; [done|]. intros [a|e]; [apply Hk|apply gen_total_ret]. Qed.

Lemma total_default (typ : string) (n : json) : total Inv (getDefaultValue (S := S) typ n).
Proof.
  unfold getDefaultValue, typed_default.
  repeat (first [apply gen_total_ret | apply total_draw | case_match]).
Qed.

Lemma total_fill (rec_mock : json -> Gen S json) (props m : list (string * json)) :
  (forall x, x ∈ props.*2 -> total Inv (rec_mock x)) -> total Inv (fill_properties rec_mock props m).
Proof.
  revert m. induction props as [|[k p] props IH]; intros m Hr; [apply gen_total_ret|]. cbn [fill_properties].
  assert (Hr' : forall x, x ∈ props.*2 -> total Inv (rec_mock x)) by (intros x Hx; apply Hr; by right).
  destruct (negb _); [by apply IH|]. apply gen_total_bind; [apply Hr; by left|]. intros r. by apply IH.
Qed.

Lemma total_properties (rec : json -> Gen S json) (props m : list (string * json)) :
  (forall x, x ∈ props.*2 -> total Inv (rec x)) -> total Inv (generate_properties rec props m).
Proof.
  revert m. induction props as [|[k p] props IH]; intros m Hr; [apply gen_total_ret|]. cbn [generate_properties].
  apply total_try; [apply Hr; by left|]. intros v. apply IH. intros x Hx. apply Hr. by right.
Qed.

Lemma total_typed (rec : json -> Gen S json) (d : json) :
  alternatives d = None -> (forall x, x ∈ parts d -> total Inv (rec x)) -> total Inv (generate_typed rec d).
Proof.
  intros Ha. unfold parts. rewrite Ha. intros Hr. unfold generate_typed, generate_array.
  destruct (_ || _); [apply gen_total_ret|]. destruct (_ || _ || _ || _); [apply total_default|].
  destruct (_ =? "array").
  { apply gen_total_bind; [apply total_default|]. intros [v|e]; [apply gen_total_ret|].
    destruct (GetKey d "items") as [i|]; [|apply gen_total_ret].
    apply gen_total_bind; [apply Hr; by left|]. intros [[]|e']; apply gen_total_ret. }
  destruct (_ =? "object"); [|apply gen_total_ret].
  destruct (properties d) as [|pv ps]; [apply total_default|].
  apply total_properties. intros x Hx. apply Hr, elem_of_app. by right.
Qed.

Lemma total_node (rec rec_mock : json -> Gen S json) (root : json) (clb : option (Callback S)) (node : json) :
  total_callback Inv clb ->
  (forall x, part_of root x node -> total Inv (rec x) /\ total Inv (rec_mock x)) ->
  total Inv (generate_node key_error show rec rec_mock root clb node).
Proof.
  intros Hc Hr. unfold generate_node. destruct (dereference _ _ root node) as [d|e] eqn:Ed; [|apply gen_total_ret].
  assert (Hp : forall x, x ∈ parts d -> total Inv (rec x) /\ total Inv (rec_mock x))
    by (intros x Hx; apply Hr; by exists d).
  destruct (alternatives d) as [[|a l]|] eqn:Ea; [apply gen_total_ret| |].
  { intros s Hs.
    assert (Hx : pick (a :: l) JNull s.1 ∈ parts d) by (unfold parts; rewrite Ea; by apply (pick_elem (a :: l))).
    exact (proj1 (Hp _ Hx) (Datatypes.S s.1, s.2) Hs). }
  assert (Ht : total Inv (generate_typed rec d)) by (apply total_typed; [done|]; intros x Hx; by apply Hp).
  destruct clb as [c|]; [|done]. intros s Hs.
  destruct (Hc d s Hs) as ([[res replace] err] & s' & -> & Hs').
  destruct replace; [|by apply Ht]. destruct err; [by eexists _, _|]. unfold fill_replaced.
  destruct (_ =? "object"); [|by apply gen_total_ret]. destruct res; try by apply gen_total_ret.
  refine (total_try _ _ _ _ s' Hs'); [|intros; apply gen_total_ret]. apply total_fill. intros x Hx. apply Hp.
  unfold parts. rewrite Ea. apply elem_of_app. by right.
Qed.
End inv.

(** A list of nodes has one fuel that is enough for each. *)
Lemma enough_for_all (P : nat -> json -> Prop) (l : list json) :
  (forall x, x ∈ l -> exists f, forall f', f <= f' -> P f' x) ->
  exists f, forall f' x, f <= f' -> x ∈ l -> P f' x.
Proof.
  induction l as [|x l IH]; intros Hl; [exists 0; intros f' x _ Hx; by apply not_elem_of_nil in Hx|].
  destruct (Hl x) as [f1 H1]; [by left|]. destruct IH as [f2 H2]; [intros y Hy; apply Hl; by right|].
  exists (max f1 f2). intros f' y Hf [->|Hy]%elem_of_cons; [apply H1; lia|apply H2; [lia|done]].
Qed.

(** One fuel for a node is enough for every callback. *)
Lemma generate_total (root : json) (node : json) :
  Acc (part_of root) node ->
  exists fuel, forall f Inv clb, fuel <= f -> total_callback Inv clb ->
    total Inv (generate key_error show f root clb node) /\ total Inv (generate key_error show f root None node).
Proof.
  intros Hacc. induction Hacc as [node _ IH].
  set (subs := match dereference key_error show root node with Ok d => parts d | Err _ => [] end).
  destruct (enough_for_all (fun f x => forall Inv clb, total_callback Inv clb ->
    total Inv (generate key_error show f root clb x) /\ total Inv (generate key_error show f root None x)) subs)
    as [f Hf].
  { intros x Hx. destruct (IH x) as [f Hf].
    - unfold subs in Hx. destruct (dereference _ _ root node) as [d|] eqn:Ed;
        [by exists d|by apply not_elem_of_nil in Hx].
    - exists f. intros f' Hle Inv clb. by apply Hf. }
  assert (Hp : forall x, part_of root x node -> x ∈ subs).
  { intros x (d & Hd & Hx). unfold subs. by rewrite Hd. }
  exists (Datatypes.S f). intros [|f'] Inv clb Hle Hc; [lia|]. cbn [generate].
  split; apply total_node; try done; intros x Hx; destruct (Hf f' x ltac:(lia) (Hp x Hx) Inv clb Hc); by split.
Qed.

(** A step the generator takes whatever the draws: to the only alternative, to
    the items of an array without example, to an object's first property. *)
Definition forced (root node sub : json) : Prop :=
  exists d, dereference key_error show root node = Ok d /\ d <> JBool true /\
    (alternatives d = Some [sub] \/
     (alternatives d = None /\
      (GetStrKey "type" d = "array" /\ GetKey d "default" = None /\ GetKey d "enum" = None /\
         GetKey d "items" = Some sub \/
       GetStrKey "type" d = "object" /\ exists k ps, properties d = (k, sub) :: ps))).

Lemma forced_stuck (rec rec_mock : json -> Gen S json) (root node sub : json) :
  forced root node sub -> (forall s, rec sub s = None) ->
  forall s, generate_node key_error show rec rec_mock root None node s = None.
Proof.
  intros (d & Hd & Hne & Hf) Hs s. unfold generate_node. rewrite Hd.
  destruct Hf as [->|[-> Hf]]; [unfold gtry, gbind, draw; by rewrite pick_one|].
  unfold generate_typed. rewrite bool_decide_eq_false_2 by done.
  destruct Hf as [(Ht & Hde & Hen & Hi)|(Ht & k & ps & Hp)]; rewrite Ht; simpl.
  - unfold generate_array, getDefaultValue. rewrite Hde, Hen, Hi. unfold gbind, gret. simpl. by rewrite Hs.
  - rewrite Hp. simpl. unfold gtry, gbind. by rewrite Hs.
Qed.

Lemma forced_loop (P : json -> Prop) (root : json) :
  (forall n, P n -> exists sub, forced root n sub /\ P sub) ->
  forall fuel n s, P n -> generate (S := S) key_error show fuel root None n s = None.
Proof.
  intros Hloop. induction fuel as [|f IH]; intros n s Hn; [done|]. cbn [generate].
  destruct (Hloop n Hn) as (sub & Hf & Hsub). eapply forced_stuck; [exact Hf|]. intros s'. by apply IH.
Qed.
End termination.

(** ** What a mock is *)

Section shape.
  Context `{Faker}.
  Variable key_error : json -> string -> goerror.
  Variable show : json -> string.
  Variable root : json.

(** The declared bounds of an integer, where they are in order. *)
Definition within (n : json) (z : Z) : Prop :=
  let lo := num_trunc (GetNumericKey "minimum" n) in
  let hi := num_trunc (GetNumericKey "maximum" n) in
  (is_zero (GetNumericKey "minimum" n) = false \/ is_zero (GetNumericKey "maximum" n) = false) ->
  (lo <= hi)%Z -> (lo <= z <= hi)%Z.

(** A value is an instance of a schema node: of one of its alternatives, its
    example, or of its declared type, hereditarily. *)
Inductive instance : json -> json -> Prop :=
| inst_alternative node d l a v :
    dereference key_error show root node = Ok d -> alternatives d = Some l -> a ∈ l ->
    instance a v -> instance node v
| inst_own node d v :
    dereference key_error show root node = Ok d -> alternatives d = None -> instance_of d v -> instance node v
with instance_of : json -> json -> Prop :=
| is_default d v : GetKey d "default" = Some v -> instance_of d v
| is_enum d l v : GetKey d "enum" = Some (JArr l) -> v ∈ l -> instance_of d v
| is_untyped d : d = JBool true \/ GetStrKey "type" d ∉ ["string"; "number"; "integer"; "boolean"; "array"; "object"] ->
    instance_of d JNull
| is_string d s : GetStrKey "type" d = "string" -> instance_of d (JStr s)
| is_number d s : GetStrKey "type" d = "number" -> instance_of d (JNum s)
| is_integer d z : GetStrKey "type" d = "integer" -> within d z -> instance_of d (JNum (go_itoa z))
| is_boolean d b : GetStrKey "type" d = "boolean" -> instance_of d (JBool b)
| is_array d l : GetStrKey "type" d = "array" ->
    (forall x, x ∈ l -> exists i, GetKey d "items" = Some i /\ instance i x) -> instance_of d (JArr l)
| is_object d m : GetStrKey "type" d = "object" ->
    m.*1 = (properties d).*1 ->
    (forall k x, (k, x) ∈ m -> exists p, (k, p) ∈ properties d /\ instance p x) -> instance_of d (JObj m).

Lemma default_instance {S} (typ : string) (d v : json) (s s' : nat * S) :
  GetStrKey "type" d = typ -> (typ = "object" -> properties d = []) ->
  getDefaultValue typ d s = Some (Ok v, s') -> instance_of d v.
Proof.
  intros Ht Hobj. unfold getDefaultValue. destruct (GetKey d "default") as [x|] eqn:Ed.
  { intros [= <- _]. by apply is_default. }
  assert (Htyped : typed_default typ d s = Some (Ok v, s') -> instance_of d v).
  { unfold typed_default.
    destruct (String.eqb_spec typ "object") as [->|]; [intros [= <- _]; apply is_object; [done|by rewrite Hobj|]; intros k x Hx; by apply not_elem_of_nil in Hx|].
    destruct (String.eqb_spec typ "number") as [->|]; [intros [= <- _]; by apply is_number|].
    destruct (String.eqb_spec typ "integer") as [->|].
    { intros [= <- _]. apply is_integer; [done|]. unfold within. intros Hb Hle.
      replace (negb _ || negb _) with true by (by destruct Hb as [-> | ->]; destruct (is_zero _)).
      by apply int_range_in. }
    destruct (String.eqb_spec typ "boolean") as [->|]; [intros [= <- _]; by apply is_boolean|].
    destruct (String.eqb_spec typ "string") as [->|]; [|done].
    destruct (format_example _); [intros [= <- _]; by apply is_string|].
    destruct (negb _); intros [= <- _]; by apply is_string. }
  destruct (GetKey d "enum") as [[| | | |[|x l]|]|] eqn:Ee; try exact Htyped.
  intros [= <- _]. eapply is_enum; [exact Ee|]. by apply pick_elem.
Qed.

Lemma properties_instance {S} (rec : json -> Gen S json) (ps : list (string * json)) :
  forall (m : list (string * json)) (w : json) (s s' : nat * S),
  (forall x v s s', x ∈ ps.*2 -> rec x s = Some (Ok v, s') -> instance x v) ->
  NoDup (m.*1 ++ ps.*1) ->
  generate_properties rec ps m s = Some (Ok w, s') ->
  exists new, w = JObj (m ++ new) /\ new.*1 = ps.*1 /\ forall k x, (k, x) ∈ new -> exists p, (k, p) ∈ ps /\ instance p x.
Proof.
  induction ps as [|[k p] ps IH]; intros m w s s' Hr Hnd.
  { intros [= <- _]. exists []. rewrite app_nil_r. split_and!; [done..|]. intros k x Hx. by apply not_elem_of_nil in Hx. }
  cbn [generate_properties]. unfold gtry, gbind. destruct (rec p s) as [[[v|e] s1]|] eqn:Ep; try done.
  intros Hg. assert (Hk : k ∉ m.*1).
  { intros Hin. apply NoDup_app in Hnd as (_ & Hd & _). apply (Hd k Hin). by left. }
  assert (Hset : obj_set k v m = m ++ [(k, v)]).
  { clear -Hk. induction m as [|[k1 v1] m IH]; [done|]. cbn in *. apply not_elem_of_cons in Hk as [Hne Hk].
    destruct (String.eqb_spec k1 k) as [->|]; [done|]. by rewrite IH. }
  rewrite Hset in Hg. apply IH in Hg as (new & -> & Hn & Hin).
  - exists ((k, v) :: new). rewrite <- app_assoc. split_and!; [done|by rewrite !fmap_cons, Hn|].
    intros k' x [[= -> ->]|Hx]%elem_of_cons.
    + exists p. split; [by left|]. eapply Hr; [by left|exact Ep].
    + destruct (Hin _ _ Hx) as (q & Hq & Hi). exists q. split; [by right|done].
  - intros x y s2 s3 Hx. apply Hr. by right.
  - rewrite fmap_app, <- app_assoc. exact Hnd.
Qed.

Lemma wf_key (v x : json) (k : string) : json_wf v -> GetKey v k = Some x -> json_wf x.
Proof.
  destruct v as [| | | | |m]; try done. apply wf_member.
Qed.

Lemma wf_dereference (n d : json) :
  json_wf root -> json_wf n -> dereference key_error show root n = Ok d -> json_wf d.
Proof.
  intros Hr Hn. unfold dereference, getDefinition. destruct (negb _); [|by intros [= <-]].
  destruct (GetKey root "$defs") as [ds|] eqn:E1; [|done]. destruct (GetKey ds _) as [x|] eqn:E2; [|done].
  intros [= <-]. exact (wf_key _ _ _ (wf_key _ _ _ Hr E1) E2).
Qed.

Lemma wf_alternative (d a : json) (l : list json) : json_wf d -> alternatives d = Some l -> a ∈ l -> json_wf a.
Proof.
  assert (Hl : forall k, json_wf d -> GetKey d k = Some (JArr l) -> a ∈ l -> json_wf a).
  { intros k Hd Hk Ha. eapply wf_key in Hk; [|done]. apply json_wf_arr in Hk. rewrite Forall_forall in Hk. by apply Hk. }
  unfold alternatives. intros Hd.
  destruct (GetKey d "oneOf") as [[]|] eqn:E; try (intros [= ->]; by apply (Hl "oneOf"));
    destruct (GetKey d "anyOf") as [[]|] eqn:E'; try done; intros [= ->]; by apply (Hl "anyOf").
Qed.

Lemma wf_properties (d : json) :
  json_wf d -> NoDup (properties d).*1 /\ forall x, x ∈ (properties d).*2 -> json_wf x.
Proof.
  intros Hd. unfold properties. destruct (GetKey d "properties") as [[| | | | |m]|] eqn:E;
    try (split; [constructor|intros x Hx; by apply not_elem_of_nil in Hx]).
  eapply wf_key in E; [|done]. apply json_wf_obj in E as [Hnd Hm]. split; [done|].
  intros x (kv & -> & Hin)%list_elem_of_fmap. rewrite Forall_forall in Hm. by apply Hm.
Qed.

Lemma typed_instance {S} (rec : json -> Gen S json) (d v : json) (s s' : nat * S) :
  json_wf d -> (forall x v s s', json_wf x -> rec x s = Some (Ok v, s') -> instance x v) ->
  generate_typed rec d s = Some (Ok v, s') -> instance_of d v.
Proof.
  intros Hwf Hr. unfold generate_typed, generate_array.
  destruct (bool_decide _ || (GetStrKey "type" d =? "")) eqn:Eu.
  { intros [= <- _]. apply is_untyped. apply orb_prop in Eu as [Eu|Eu%String.eqb_eq].
    - left. by apply bool_decide_eq_true in Eu.
    - right. rewrite Eu. set_solver. }
  clear Eu. destruct (_ || _ || _ || _) eqn:Es.
  { apply default_instance; [done|]. intros E. by rewrite E in Es. }
  destruct (String.eqb_spec (GetStrKey "type" d) "array") as [Ha|Ha].
  { unfold gbind. destruct (getDefaultValue "array" d s) as [[[x|e] s1]|] eqn:Ed; [|..|done].
    - intros [= <- _]. eapply default_instance; [exact Ha|done|exact Ed].
    - assert (Hnil : instance_of d (JArr []))
        by (apply is_array; [done|]; intros x Hx; by apply not_elem_of_nil in Hx).
      destruct (GetKey d "items") as [i|] eqn:Ei; [|by intros [= <- _]].
      destruct (rec i s1) as [[[x|e'] s2]|] eqn:Er; [|done..].
      assert (Hx : instance i x) by (eapply Hr; [by eapply wf_key|exact Er]).
      destruct x; intros [= <- _]; try done;
        (apply is_array; [done|]; intros y ->%list_elem_of_singleton; by exists i). }
  destruct (String.eqb_spec (GetStrKey "type" d) "object") as [Ho|Ho].
  { destruct (wf_properties d Hwf) as [Hnd Hps].
    destruct (properties d) as [|pv ps] eqn:Ep; [by apply default_instance|].
    intros Hg. eapply properties_instance in Hg as (new & -> & Hk & Hin); [|..|exact Hnd].
    - apply is_object; [done|by rewrite Ep|by rewrite Ep].
    - intros x w s1 s2 Hx. apply Hr. by apply Hps. }
  intros [= <- _]. apply is_untyped. right. rewrite !orb_false_iff, !String.eqb_neq in Es. set_solver.
Qed.

Lemma generate_instance {S} (fuel : nat) (node v : json) (s s' : nat * S) :
  json_wf root -> json_wf node ->
  generate key_error show fuel root None node s = Some (Ok v, s') -> instance node v.
Proof.
  intros Hroot. revert node v s s'. induction fuel as [|f IH]; intros node v s s' Hn; [done|].
  cbn [generate]. unfold generate_node. destruct (dereference _ _ root node) as [d|e] eqn:Ed; [|done].
  assert (Hd : json_wf d) by by eapply wf_dereference.
  destruct (alternatives d) as [[|a l]|] eqn:Ea; [done|..].
  - unfold gtry, gbind, draw. intros Hg. eapply inst_alternative; [exact Ed|exact Ea|by apply pick_elem|].
    eapply IH; [|exact Hg]. eapply wf_alternative; [exact Hd|exact Ea|by apply pick_elem].
  - intros Hg. eapply inst_own; [exact Ed|exact Ea|]. eapply typed_instance; [exact Hd| |exact Hg].
    intros x w s1 s2 Hx. by apply IH.
Qed.
End shape.


(** When the generator ends: with a schema whose references do not lead back
    to themselves, enough fuel gives a result, whatever the draws and the
    callback; with one whose forced steps go in a circle (a definition with a
    first property, or items, of its own kind) no fuel is enough: the calls nest
    without end. The generator's set of visited nodes is never consulted. *)
Theorem generate_terminates `{Faker} (key_error : json -> string -> goerror) (show : json -> string) {S : Type}
    (root : json) (clb : option (Callback S)) :
  (total_callback (fun _ => True) clb -> Acc (part_of key_error show root) root ->
   exists fuel, forall f s, fuel <= f -> Generate key_error show f root clb s <> None) /\
  (forall P : json -> Prop, P root ->
   (forall n, P n -> exists sub, forced key_error show root n sub /\ P sub) ->
   forall f s, Generate (S := S) key_error show f root None s = None).
Proof.
  split.
  - intros Hc Hacc. destruct (generate_total (S := S) key_error show root root Hacc) as [fuel Hf].
    exists fuel. intros f s Hle. destruct (proj1 (Hf f _ clb Hle Hc) s I) as (r & s' & Hg & _).
    unfold Generate. by rewrite Hg.
  - intros P Hroot Hloop f s. by apply (forced_loop key_error show P root).
Qed.

Section witnesses.
Let no_key (v : json) (k : string) : goerror := ErrorString "key not found".
Let text (v : json) : string := "".
Let schema : json := JObj [("type", JStr "object"); ("properties", JObj [
  ("name", JObj [("type", JStr "string"); ("description", JStr "Ada")]);
  ("age", JObj [("type", JStr "integer"); ("minimum", JNum "1"); ("maximum", JNum "3")])])].


(** A list of items that hold the rest of the list. *)
Let item : json := JObj [("type", JStr "object"); ("properties", JObj [("next", JObj [("$ref", JStr "#/$defs/Item")])])].
Let recursive : json := JObj [("$ref", JStr "#/$defs/Item"); ("$defs", JObj [("Item", item)])].

Lemma generate_terminates_witness :
  (exists fuel, forall f s, fuel <= f ->
     @Generate faker_low no_key text unit f schema None s <> None) /\
  (forall f s, @Generate faker_low no_key text unit f recursive None s = None).
Proof.
  split.
  - apply (proj1 (@generate_terminates faker_low no_key text unit schema None)); [exact I|].
    constructor. intros x (d & Hd & Hx). vm_compute in Hd. injection Hd as <-. vm_compute in Hx.
    apply elem_of_cons in Hx as [->|Hx]; [|apply elem_of_cons in Hx as [->|Hx]; [|by apply not_elem_of_nil in Hx]];
      (constructor; intros y (d' & Hd' & Hy); vm_compute in Hd'; injection Hd' as <-; vm_compute in Hy;
       by apply not_elem_of_nil in Hy).
  - apply (proj2 (@generate_terminates faker_low no_key text unit recursive None)
      (fun n => n = recursive \/ n = JObj [("$ref", JStr "#/$defs/Item")])); [by left|].
    intros n [->| ->]; exists (JObj [("$ref", JStr "#/$defs/Item")]); (split; [|by right]);
      exists item; (split; [vm_compute; reflexivity|split; [discriminate|]]); right;
      (split; [vm_compute; reflexivity|]); right; (split; [vm_compute; reflexivity|]);
      exists "next", []; vm_compute; reflexivity.
Defined.
End witnesses.
