(* ===== verification/Simulation.v ===== *)
(** * Simulated port data

    [pkg/utils/portinspect.go]: the value a port would receive or emit, made of
    the mock of its schema, of what the edges into its configurable fields
    evaluate to (recursively, against the simulated data of their sources), of
    the example its component publishes and of recorded data. Every port is
    simulated once: a second request for it while the first is under way is an
    error, which the generator drops in favour of the mock.

    The values are fresh in each call, so their in-place updates are functional
    here. [gfuel] is the fuel of the generator, [fuel] that of nested ports. *)
From S2P Require Import Prelude GoErrors Names Json Schema Evaluator Generator GraphExport.

Open Scope string_scope.
Open Scope list_scope.

(** ** Layers of data *)

(** [t[k] = val] for the keys [t] does not have. *)
Definition add_missing (t : list (string * json)) (kv : string * json) : list (string * json) :=
  match obj_get kv.1 t with Some _ => t | None => obj_set kv.1 kv.2 t end.

Fixpoint spreadContext (v : json) : json :=
  match v with
  | JObj m =>
      let t := map (fun kv => (kv.1, spreadContext kv.2)) m in
      match obj_get "context" t with
      | Some (JObj ctx) => JObj (fold_left add_missing ctx t)
      | _ => JObj t
      end
  | JArr l => JArr (map spreadContext l)
  | _ => v
  end.

(** The loops over an example's and an overlay's keys. *)
Fixpoint fillGaps (base example : json) {struct example} : json :=
  match example with
  | JNull => base
  | JObj exMap =>
      match base with
      | JNull => example
      | JObj baseMap =>
          JObj ((fix go ex m := match ex with
                 | [] => m
                 | (k, ev) :: ex' =>
                     go ex' (obj_set k (match obj_get k m with
                                        | None | Some JNull => ev
                                        | Some bv => fillGaps bv ev
                                        end) m)
                 end) exMap baseMap)
      | _ => base
      end
  | _ => match base with JNull => example | _ => base end
  end.

Fixpoint mergeOverlay (base overlay : json) {struct overlay} : json :=
  match overlay with
  | JObj overlayMap =>
      match base with
      | JObj baseMap =>
          JObj ((fix go ov out := match ov with
                 | [] => out
                 | (k, v) :: ov' =>
                     go ov' (obj_set k (match obj_get k out with
                                        | Some bv => mergeOverlay bv v
                                        | None => v
                                        end) out)
                 end) overlayMap baseMap)
      | _ => overlay
      end
  | _ => overlay
  end.

(** ** The simulation *)

(** [visited] and [cache], and the number of ports asked for so far. *)
Record Sim := mkSim {
  visited : gset string;
  cache : gmap string json;
  asked : nat;
}.

Section simulation.
  Context `{Faker}.
  Variable key_error : json -> string -> goerror.
  Variable show : json -> string.
  Variable sprint : json -> string.                                (* fmt %v *)
  Variable marshal : json -> result goerror string.                (* goccy/go-json *)
  Variable json_unmarshal : string -> result goerror json.         (* goccy/go-json *)
  Variable unmarshal : string -> result goerror json.              (* ajson *)
  Variable ajson_eval : json -> string -> result goerror json.     (* ajson.Eval, and Unpack *)
  Variable ctx_err : nat -> error.   (* the context's error when the n-th port is asked for *)
  Variable gfuel : nat.

(** *** Defaults declared by an edge's schema *)

(** A mock, or nothing where there is none. *)
Definition mock_or (schema : json) (k : json -> Gen Sim json) (otherwise : Gen Sim json) : Gen Sim json :=
  gbind (Generate key_error show gfuel schema None)
    (fun r => match r with Ok mock => k mock | Err _ => otherwise end).

Fixpoint mergeMocksIntoObject (value : json) (schemaNode : json) {struct schemaNode} : Gen Sim json :=
  match value with
  | JNull => mock_or schemaNode (fun mock => gret (Ok mock)) (gret (Ok JNull))
  | JObj asMap =>
      match schemaNode with
      | JObj sm =>
          (fix find sm := match sm with
           | [] => gret (Ok value)
           | (k, props) :: sm' =>
               if k =? "properties" then
                 match props with
                 | JObj pm =>
                     (fix go pm m := match pm with
                      | [] => gret (Ok (JObj m))
                      | (k, propSchema) :: pm' =>
                          match fld m k with
                          | JNull => mock_or propSchema (fun mock => go pm' (obj_set k mock m)) (go pm' m)
                          | current =>
                              gtry (mergeMocksIntoObject current propSchema) (fun v => go pm' (obj_set k v m))
                          end
                      end) pm asMap
                 | _ => gret (Ok value)
                 end
               else find sm'
           end) sm
      | _ => gret (Ok value)
      end
  | _ => gret (Ok value)
  end.

Fixpoint fill_fields (fields m : list (string * json)) : Gen Sim json :=
  match fields with
  | [] => gret (Ok (JObj m))
  | (k, fieldSchema) :: fields' =>
      match fld m k with
      | JNull => mock_or fieldSchema (fun mock => fill_fields fields' (obj_set k mock m)) (fill_fields fields' m)
      | current => gtry (mergeMocksIntoObject current fieldSchema) (fun v => fill_fields fields' (obj_set k v m))
      end
  end.

(** The members of what is not an object cannot be read by key. *)
Definition fillTypedDefaults (data : json) (schemaBytes : string) : Gen Sim json :=
  if schemaBytes =? "" then gret (Ok data)
  else match unmarshal schemaBytes with
       | Err _ => gret (Ok data)
       | Ok root =>
           match data with
           | JObj asMap => fill_fields (match root with JObj m => m | _ => [] end) asMap
           | JNull => mock_or root (fun mock => gret (Ok mock)) (gret (Ok JNull))
           | _ => gret (Ok data)
           end
       end.

(** *** One port *)

Section port.
  Variable edgeConfigMap : gmap string (list Destination).
  Variable inspect : string -> Gen Sim json.
  Variable inspectPort : string.

(** The evaluator's callback over the source's data. *)
Definition eval_over (node : json) (expression : string) : result goerror json :=
  if expression =? "" then Err (ErrorString "expression is empty")
  else if expression =? "$" then Ok node
  else ajson_eval node expression.

(** The outcome of one destination: an error with or without replacement, or
    the evaluated data. *)
Definition through_edge (dest : Destination) : Gen Sim (json + bool * goerror) :=
  gbind (inspect (dest_Name dest)) (fun r =>
    match r with
    | Err err => gret (Ok (inr (false, err)))
    | Ok edgeData =>
        match marshal edgeData with
        | Err err => gret (Ok (inr (false, err)))
        | Ok edgeDataB =>
            match unmarshal edgeDataB with
            | Err err => gret (Ok (inr (false, err)))
            | Ok edgeDataNode =>
                match Eval (eval_over edgeDataNode) sprint unmarshal (dest_Configuration dest) with
                | Err err => gret (Ok (inr (true, err)))
                | Ok (data, _) => gtry (fillTypedDefaults data (dest_Schema dest)) (fun d => gret (Ok (inl d)))
                end
            end
        end
    end).

Fixpoint collect (dests : list Destination) (results : list json) : Gen Sim (list json + bool * goerror) :=
  match dests with
  | [] => gret (Ok (inl results))
  | dest :: dests' =>
      if (dest_Name dest =? inspectPort) || (dest_Configuration dest =? "") then collect dests' results
      else gtry (through_edge dest) (fun r =>
             match r with
             | inl data => collect dests' (results ++ [data])
             | inr e => gret (Ok (inr e))
             end)
  end.

(** A single item stands for the list its definition's path leads to. *)
Definition representative (n result : json) : json :=
  match result with
  | JArr (x :: _) => if GetStrKey "type" n =? "array" then result else x
  | _ => result
  end.

(** The value at the definition's path: the outcome of the callback. *)
Definition at_path (n result : json) : json * bool * error :=
  let pathStr := GetStrKey "path" n in
  if (pathStr =? "$") || (pathStr =? "") then (result, true, None)
  else match marshal result with
       | Err err => (JNull, false, Some err)
       | Ok finalJson =>
           match unmarshal finalJson with
           | Err err => (JNull, true, Some err)
           | Ok finalNode =>
               match ajson_eval finalNode pathStr with
               | Err err => (JNull, true, Some err)
               | Ok result => (representative n result, true, None)
               end
           end
       end.

Definition port_callback (n : json) : nat * Sim -> option (json * bool * error * (nat * Sim)) := fun s =>
  let portStr := GetStrKey "port" n in
  if portStr =? "" then Some (JNull, false, None, s)
  else if go_has_prefix (ParseFullPortName portStr).2 "_" then Some (JNull, false, None, s)
  else
    match collect (default [] (edgeConfigMap !! portStr)) [] s with
    | None => None
    | Some (Err e, s') => Some (JNull, false, Some e, s')
    | Some (Ok (inr (replace, e)), s') => Some (JNull, replace, Some e, s')
    | Some (Ok (inl []), s') => Some (JNull, false, None, s')
    | Some (Ok (inl (result :: _)), s') => Some (at_path n result, s')
    end.

End port.

Section inspect.
  Variable portSchemaMap : gmap string json.
  Variable edgeConfigMap : gmap string (list Destination).
  Variable runtimeData : option (gmap string string).
  Variable portExampleMap : option (gmap string string).

(** A port's published example fills what the mock lacks. *)
Definition with_example (portName : string) (result : json) : json :=
  match portExampleMap with
  | None => result
  | Some examples =>
      match examples !! portName with
      | Some ex =>
          if ex =? "" then result
          else match json_unmarshal ex with Ok exVal => fillGaps result exVal | Err _ => result end
      | None => result
      end
  end.

(** Recorded data is laid over the rest; an empty record means no data. *)
Definition with_runtime (portName : string) (result : json) : json :=
  match runtimeData with
  | None => result
  | Some data =>
      match data !! portName with
      | Some entry =>
          if entry =? "" then JNull
          else match json_unmarshal entry with
               | Ok JNull | Err _ => result
               | Ok r => mergeOverlay result r
               end
      | None => result
      end
  end.

Definition layered (portName : string) (mock : json) : json :=
  spreadContext (with_runtime portName (with_example portName mock)).

(** The deferred write of the cache; nil after an error. *)
Definition cached (portName : string) (r : result goerror json) (s : nat * Sim) : nat * Sim :=
  let v := match r with Ok v => v | Err _ => JNull end in
  (s.1, mkSim (visited s.2) (<[portName := v]> (cache s.2)) (asked s.2)).

Fixpoint inspect (fuel : nat) (portName : string) : Gen Sim json := fun s0 =>
  match fuel with
  | O => None
  | S f =>
      let s := (s0.1, mkSim (visited s0.2) (cache s0.2) (S (asked s0.2))) in
      match ctx_err (asked s0.2) with
      | Some e => Some (Err e, s)
      | None =>
          if bool_decide (portName ∈ visited s.2) then
            match cache s.2 !! portName with
            | Some JNull => Some (Err (ErrorString ("cached value for " +:+ portName +:+ " is nil")), s)
            | Some v => Some (Ok v, s)
            | None => Some (Err (ErrorString ("no cache value for visited port " +:+ portName)), s)
            end
          else
            let s := (s.1, mkSim ({[ portName ]} ∪ visited s.2) (cache s.2) (asked s.2)) in
            let schema := default JNull (portSchemaMap !! portName) in
            match Generate key_error show gfuel schema
                    (Some (port_callback edgeConfigMap (inspect f) portName)) s with
            | None => None
            | Some (r, s) =>
                let r := match r with Ok mock => Ok (layered portName mock) | Err e => Err e end in
                Some (r, cached portName r s)
            end
      end
  end.

(** With nothing visited yet. *)
Definition SimulatePortDataFromMaps (fuel : nat) (inspectPortFullName : string) : option (result goerror json) :=
  fst <$> inspect fuel inspectPortFullName (0, mkSim ∅ ∅ 0).

End inspect.

End simulation.
