(* ===== verification/SimulationSpec.v ===== *)
(** * Theorems on simulated port data

    Where a value of the simulation comes from: recorded data before the mock,
    the mock before the published example, and every field of a context at its
    parent too; and that the simulation ends on every graph of ports. *)
From S2P Require Import Prelude GoErrors Names Json Schema Evaluator Generator GraphExport Simulation.

Open Scope string_scope.
Open Scope list_scope.

(** ** Values at a path *)

Fixpoint get_path (p : list string) (v : json) : option json :=
  match p with
  | [] => Some v
  | k :: p' => match v with JObj m => obj_get k m ≫= get_path p' | _ => None end
  end.

(** The walk along a path ends at a key that an object does not have. *)
Fixpoint silent (p : list string) (v : json) : bool :=
  match p with
  | [] => false
  | k :: p' => match v with
               | JObj m => match obj_get k m with None => true | Some x => silent p' x end
               | _ => false
               end
  end.

(** There, or at a null. *)
Fixpoint lacking (p : list string) (v : json) : bool :=
  match v with
  | JNull => true
  | JObj m => match p with
              | [] => false
              | k :: p' => match obj_get k m with None => true | Some x => lacking p' x end
              end
  | _ => false
  end.

(** ** Loops that update an object by the entries of another *)

Definition update_by (f : option json -> json -> json) (l m : list (string * json)) : list (string * json) :=
  fold_left (fun out kv => obj_set kv.1 (f (obj_get kv.1 out) kv.2) out) l m.

Lemma update_by_lookup (f : option json -> json -> json) (l m : list (string * json)) (k : string) :
  NoDup l.*1 ->
  obj_get k (update_by f l m) = match obj_get k l with Some v => Some (f (obj_get k m) v) | None => obj_get k m end.
Proof.
  unfold update_by. revert m. induction l as [|[k1 v1] l IH]; intros m Hnd; [done|]. rewrite fmap_cons in Hnd. cbn [fold_left fst snd].
  apply NoDup_cons in Hnd as [Hk1 Hnd]. rewrite IH, obj_get_cons, !obj_get_set by done.
  destruct (String.eqb_spec k1 k) as [->|Hne]; [|done]. by rewrite obj_get_fresh.
Qed.

Definition gap (bv : option json) (ev : json) : json :=
  match bv with None | Some JNull => ev | Some bv => fillGaps bv ev end.

Definition over (bv : option json) (ov : json) : json :=
  match bv with Some bv => mergeOverlay bv ov | None => ov end.

Lemma fillGaps_obj (b e : list (string * json)) : fillGaps (JObj b) (JObj e) = JObj (update_by gap e b).
Proof.
  cbn [fillGaps]. f_equal. unfold update_by. revert b. induction e as [|[k v] e IH]; intros b; [done|].
  cbn [fold_left fst snd]. rewrite <- IH. reflexivity.
Qed.

Lemma mergeOverlay_obj (b o : list (string * json)) : mergeOverlay (JObj b) (JObj o) = JObj (update_by over o b).
Proof.
  cbn [mergeOverlay]. f_equal. unfold update_by. revert b. induction o as [|[k v] o IH]; intros b; [done|].
  cbn [fold_left fst snd]. rewrite <- IH. reflexivity.
Qed.

(** ** Overlay and gaps along a path *)

Lemma overlay_wins (p : list string) (base o x : json) :
  json_wf o -> get_path p o = Some x -> scalar x = true -> get_path p (mergeOverlay base o) = Some x.
Proof.
  revert base o. induction p as [|k p IH]; intros base o Hwf Hp Hx.
  { injection Hp as ->. by destruct x. }
  destruct o as [| | | | |om]; try done. destruct base as [| | | | |bm]; try exact Hp.
  rewrite mergeOverlay_obj. cbn [get_path] in *. pose proof (proj1 (proj1 (json_wf_obj om) Hwf)) as Hnd.
  rewrite update_by_lookup by done. destruct (obj_get k om) as [ov|] eqn:Ek; [|done]. cbn in *.
  unfold over. destruct (obj_get k bm); [|done]. apply IH; [by eapply wf_member|done..].
Qed.

Lemma overlay_silent (p : list string) (base o x : json) :
  json_wf o -> get_path p base = Some x -> silent p o = true -> get_path p (mergeOverlay base o) = Some x.
Proof.
  revert base o. induction p as [|k p IH]; intros base o Hwf Hp Hs; [done|].
  destruct o as [| | | | |om]; try done. destruct base as [| | | | |bm]; try done.
  rewrite mergeOverlay_obj. cbn [get_path silent] in *. pose proof (proj1 (proj1 (json_wf_obj om) Hwf)) as Hnd.
  rewrite update_by_lookup by done. destruct (obj_get k om) as [ov|] eqn:Ek; [|done].
  destruct (obj_get k bm) as [bv|]; [|done]. cbn in *. apply IH; [by eapply wf_member|done..].
Qed.

Lemma gaps_keep (p : list string) (base e x : json) :
  json_wf e -> get_path p base = Some x -> scalar x = true -> x <> JNull -> get_path p (fillGaps base e) = Some x.
Proof.
  revert base e. induction p as [|k p IH]; intros base e Hwf Hp Hx Hn.
  { injection Hp as ->. by destruct x, e. }
  destruct base as [| | | | |bm]; try done. destruct e as [| | | | |em]; try exact Hp.
  rewrite fillGaps_obj. cbn [get_path] in *. pose proof (proj1 (proj1 (json_wf_obj em) Hwf)) as Hnd.
  rewrite update_by_lookup by done. destruct (obj_get k em) as [ev|] eqn:Ek; [|done].
  destruct (obj_get k bm) as [bv|]; [|done].
  change (get_path p bv = Some x) in Hp. change (get_path p (gap (Some bv) ev) = Some x).
  assert (Hb : bv <> JNull) by (intros ->; destruct p; [by injection Hp|done]).
  assert (Hg : gap (Some bv) ev = fillGaps bv ev) by by destruct bv.
  rewrite Hg. apply IH; [by eapply wf_member|done..].
Qed.

Lemma gaps_filled (p : list string) (base e x : json) :
  json_wf e -> lacking p base = true -> get_path p e = Some x -> scalar x = true ->
  get_path p (fillGaps base e) = Some x.
Proof.
  revert base e. induction p as [|k p IH]; intros base e Hwf Hl Hp Hx.
  { injection Hp as ->. destruct base; try done; by destruct x. }
  destruct e as [| | | | |em]; try done. destruct base as [| | | | |bm]; try done.
  rewrite fillGaps_obj. cbn [get_path lacking] in *. pose proof (proj1 (proj1 (json_wf_obj em) Hwf)) as Hnd.
  rewrite update_by_lookup by done. destruct (obj_get k em) as [ev|] eqn:Ek; [|done]. cbn in *.
  unfold gap. destruct (obj_get k bm) as [bv|]; [|done].
  assert (Hr : get_path p (fillGaps bv ev) = Some x) by (apply IH; [by eapply wf_member|done..]).
  by destruct bv.
Qed.

(** ** Contexts *)

Lemma add_missing_lookup (ctx t : list (string * json)) (k : string) :
  obj_get k (fold_left add_missing ctx t) = match obj_get k t with Some v => Some v | None => obj_get k ctx end.
Proof.
  revert t. induction ctx as [|[k1 v1] ctx IH]; intros t; cbn [fold_left]; [by destruct (obj_get k t)|].
  rewrite IH, obj_get_cons. unfold add_missing. cbn [fst snd].
  destruct (obj_get k1 t) as [w|] eqn:E.
  - destruct (String.eqb_spec k1 k) as [->|]; [by rewrite E|done].
  - rewrite obj_get_set. destruct (String.eqb_spec k1 k) as [->|]; [by rewrite E|done].
Qed.

(** What a key of an object holds after its contexts are spread. *)
Lemma spread_lookup (m : list (string * json)) :
  exists m', spreadContext (JObj m) = JObj m' /\
    forall k, obj_get k m' = match obj_get k m with
                             | Some v => Some (spreadContext v)
                             | None => match spreadContext <$> obj_get "context" m with
                                       | Some (JObj ctx) => obj_get k ctx
                                       | _ => None
                                       end
                             end.
Proof.
  cbn [spreadContext]. set (t := map _ m).
  assert (Ht : forall k, obj_get k t = spreadContext <$> obj_get k m) by (intros k; apply obj_get_map).
  rewrite <- Ht. destruct (obj_get "context" t) as [[| | | | |ctx]|]; eexists; (split; [reflexivity|]); intros k;
    try (rewrite Ht; by destruct (obj_get k m)).
  rewrite add_missing_lookup, Ht. by destruct (obj_get k m).
Qed.

Lemma spread_keeps (p : list string) (v x : json) :
  get_path p v = Some x -> scalar x = true -> get_path p (spreadContext v) = Some x.
Proof.
  revert v. induction p as [|k p IH]; intros v Hp Hx.
  { injection Hp as ->. by destruct x. }
  destruct v as [| | | | |m]; try done. destruct (spread_lookup m) as (m' & -> & Hm'). cbn [get_path] in *.
  rewrite Hm'. destruct (obj_get k m) as [w|]; [|done]. cbn in *. by apply IH.
Qed.

Lemma spread_both_ways (v : json) :
  forall p m ctx k x, get_path p (spreadContext v) = Some (JObj m) ->
    obj_get "context" m = Some (JObj ctx) -> obj_get k ctx = Some x -> is_Some (obj_get k m).
Proof.
  induction v as [|b|n|s|l IH|m0 IH] using json_nested_ind; intros p m ctx k x Hp Hc Hk;
    try (destruct p; simpl in Hp; congruence).
  rewrite Forall_forall in IH. destruct (spread_lookup m0) as (m' & E & Hm'). rewrite E in Hp.
  assert (IHk : forall k0 w, obj_get k0 m0 = Some w -> forall p m ctx k x,
    get_path p (spreadContext w) = Some (JObj m) -> obj_get "context" m = Some (JObj ctx) ->
    obj_get k ctx = Some x -> is_Some (obj_get k m)) by (intros k0 w Hw; exact (IH (k0, w) (obj_get_in _ _ _ Hw))).
  destruct p as [|k1 p]; cbn [get_path] in Hp.
  - injection Hp as <-. rewrite Hm' in Hc |- *. destruct (obj_get k m0) as [w|]; [by eexists|].
    destruct (obj_get "context" m0) as [c|]; [|done]. injection Hc as Hc. cbn. rewrite Hc. by eexists.
  - rewrite Hm' in Hp. destruct (obj_get k1 m0) as [w|] eqn:E1; [by eapply (IHk k1 w E1)|].
    destruct (obj_get "context" m0) as [c|] eqn:Ec; [|done]. cbn in Hp.
    destruct (spreadContext c) as [| | | | |cm] eqn:Es; try done.
    eapply (IHk "context" c Ec (k1 :: p)); [rewrite Es; exact Hp|done..].
Qed.

(** ** Termination *)

Fixpoint subterms (v : json) : list json :=
  v :: match v with JObj m => flat_map (fun kv => subterms kv.2) m | _ => [] end.

Lemma subterms_self (v : json) : v ∈ subterms v.
Proof. destruct v; left. Qed.

Lemma subterms_member (m : list (string * json)) (k : string) (x y : json) :
  (k, x) ∈ m -> y ∈ subterms x -> y ∈ subterms (JObj m).
Proof.
  intros Hk Hy. cbn [subterms]. right. apply list_elem_of_In, in_flat_map.
  exists (k, x). split; by apply list_elem_of_In.
Qed.

Section termination.
  Context `{Faker}.
  Variable key_error : json -> string -> goerror.
  Variable show : json -> string.
  Variable sprint : json -> string.
  Variable marshal : json -> result goerror string.
  Variable json_unmarshal : string -> result goerror json.
  Variable unmarshal : string -> result goerror json.
  Variable ajson_eval : json -> string -> result goerror json.
  Variable ctx_err : nat -> error.
  Variable gfuel : nat.

(** The generator's fuel is enough for a schema. *)
Definition ready (g : nat) (x : json) : Prop :=
  forall Inv clb, total_callback Inv clb -> total Inv (Generate (S := Sim) key_error show g x clb).

Section fill.
  Variable Inv : Sim -> Prop.

Lemma total_mock_or (schema : json) (k : json -> Gen Sim json) (o : Gen Sim json) :
  ready gfuel schema -> (forall v, total Inv (k v)) -> total Inv o ->
  total Inv (mock_or key_error show gfuel schema k o).
Proof. intros Hr Hk Ho. apply gen_total_bind; [by apply Hr|]. by intros [v|e]. Qed.

(** The loop over the declared properties. *)
Fixpoint merge_props (pm m : list (string * json)) : Gen Sim json :=
  match pm with
  | [] => gret (Ok (JObj m))
  | (k, propSchema) :: pm' =>
      match fld m k with
      | JNull => mock_or key_error show gfuel propSchema (fun mock => merge_props pm' (obj_set k mock m)) (merge_props pm' m)
      | current =>
          gtry (mergeMocksIntoObject key_error show gfuel current propSchema)
            (fun v => merge_props pm' (obj_set k v m))
      end
  end.

Lemma merge_obj (m sm : list (string * json)) :
  mergeMocksIntoObject key_error show gfuel (JObj m) (JObj sm) =
    match obj_get "properties" sm with Some (JObj pm) => merge_props pm m | _ => gret (Ok (JObj m)) end.
Proof.
  cbn [mergeMocksIntoObject]. induction sm as [|[k v] sm IH]; [done|]. rewrite obj_get_cons.
  destruct (k =? "properties"); [|exact IH]. destruct v as [| | | | |pm]; done.
Qed.

Lemma total_merge_props (pm m : list (string * json)) :
  (forall k x, (k, x) ∈ pm -> ready gfuel x /\
     forall v, total Inv (mergeMocksIntoObject key_error show gfuel v x)) ->
  total Inv (merge_props pm m).
Proof.
  revert m. induction pm as [|[k x] pm IH]; intros m Hp; [apply gen_total_ret|]. cbn [merge_props].
  assert (Hp' : forall m, total Inv (merge_props pm m)) by (intros m'; apply IH; intros; eapply Hp; by right).
  destruct (Hp k x) as [Hr Hm]; [by left|].
  assert (Ht : forall v, total Inv (gtry (mergeMocksIntoObject key_error show gfuel v x)
    (fun v => merge_props pm (obj_set k v m)))) by (intros v; apply total_try; [apply Hm|intros w; apply Hp']).
  destruct (fld m k); try apply Ht. apply total_mock_or; [done|intros v; apply Hp'|apply Hp'].
Qed.

Lemma total_merge (schema : json) :
  (forall x, x ∈ subterms schema -> ready gfuel x) ->
  forall x, x ∈ subterms schema ->
  forall value, total Inv (mergeMocksIntoObject key_error show gfuel value x).
Proof.
  induction schema as [|b|n|s|l IH|sm IH] using json_nested_ind; intros Hr x Hx value;
    try (apply list_elem_of_singleton in Hx as ->; destruct value; try apply gen_total_ret;
         apply total_mock_or; [apply Hr; left|intros; apply gen_total_ret|apply gen_total_ret]).
  rewrite Forall_forall in IH. cbn [subterms] in Hx. apply elem_of_cons in Hx as [->|Hx].
  - destruct value as [| | | | |m]; try apply gen_total_ret.
    { apply total_mock_or; [apply Hr; left|intros; apply gen_total_ret|apply gen_total_ret]. }
    rewrite merge_obj. destruct (obj_get "properties" sm) as [p|] eqn:Ep; [|apply gen_total_ret].
    destruct p as [| | | | |pm]; try apply gen_total_ret. apply obj_get_in in Ep.
    apply total_merge_props. intros k y Hy.
    assert (Hin : y ∈ subterms (JObj pm)) by (eapply subterms_member; [exact Hy|apply subterms_self]).
    split; [apply Hr; by eapply subterms_member|].
    apply (IH _ Ep); [|done]. intros z Hz. apply Hr. by eapply subterms_member.
  - apply list_elem_of_In, in_flat_map in Hx as ([k y] & Hk%list_elem_of_In & Hy%list_elem_of_In).
    apply (IH _ Hk); [|done]. intros z Hz. apply Hr. by eapply subterms_member.
Qed.

Lemma total_fill_fields (fields m : list (string * json)) :
  (forall k x, (k, x) ∈ fields -> ready gfuel x /\
     forall v, total Inv (mergeMocksIntoObject key_error show gfuel v x)) ->
  total Inv (fill_fields key_error show gfuel fields m).
Proof.
  revert m. induction fields as [|[k x] fields IH]; intros m Hp; [apply gen_total_ret|]. cbn [fill_fields].
  assert (Hp' : forall m, total Inv (fill_fields key_error show gfuel fields m))
    by (intros m'; apply IH; intros; eapply Hp; by right).
  destruct (Hp k x) as [Hr Hm]; [by left|].
  assert (Ht : forall v, total Inv (gtry (mergeMocksIntoObject key_error show gfuel v x)
    (fun v => fill_fields key_error show gfuel fields (obj_set k v m))))
    by (intros v; apply total_try; [apply Hm|intros w; apply Hp']).
  destruct (fld m k); try apply Ht. apply total_mock_or; [done|intros v; apply Hp'|apply Hp'].
Qed.

Lemma total_typed_defaults (data : json) (schemaBytes : string) :
  (forall r x, unmarshal schemaBytes = Ok r -> x ∈ subterms r -> ready gfuel x) ->
  total Inv (fillTypedDefaults key_error show unmarshal gfuel data schemaBytes).
Proof.
  intros Hr. unfold fillTypedDefaults. destruct (_ =? ""); [apply gen_total_ret|].
  destruct (unmarshal schemaBytes) as [root|e] eqn:E; [|apply gen_total_ret]. specialize (Hr root).
  destruct data as [| | | | |m]; try apply gen_total_ret.
  - apply total_mock_or; [apply Hr; [done|apply subterms_self]|intros; apply gen_total_ret|apply gen_total_ret].
  - destruct root as [| | | | |rm]; try (apply total_fill_fields; intros k x Hx; by apply not_elem_of_nil in Hx).
    apply total_fill_fields. intros k x Hx.
    assert (Hin : x ∈ subterms (JObj rm)) by (eapply subterms_member; [exact Hx|apply subterms_self]).
    split; [by apply Hr|]. apply (total_merge (JObj rm)); [|done]. intros y Hy. by apply Hr.
Qed.
End fill.

Section ports.
  Variable portSchemaMap : gmap string json.
  Variable edgeConfigMap : gmap string (list Destination).
  Variable runtimeData portExampleMap : option (gmap string string).

Definition destinations_of (port : string) : list Destination := default [] (edgeConfigMap !! port).

(** The ports edges come from. *)
Definition sources : gset string :=
  list_to_set (flat_map (fun kv => map dest_Name kv.2) (map_to_list edgeConfigMap)).

Lemma sources_spec (port : string) (d : Destination) : d ∈ destinations_of port -> dest_Name d ∈ sources.
Proof.
  unfold destinations_of, sources. destruct (edgeConfigMap !! port) as [l|] eqn:E;
    [|intros Hd; by apply not_elem_of_nil in Hd].
  intros Hd. apply elem_of_list_to_set, list_elem_of_In, in_flat_map. exists (port, l). split.
  - by apply list_elem_of_In, elem_of_map_to_list.
  - by apply in_map, list_elem_of_In.
Qed.

Hypothesis ports_ready : forall port, ready gfuel (default JNull (portSchemaMap !! port)).
Hypothesis edges_ready : forall port d r x, d ∈ destinations_of port ->
  unmarshal (dest_Schema d) = Ok r -> x ∈ subterms r -> ready gfuel x.

Lemma total_collect (Inv : Sim -> Prop) (rec : string -> Gen Sim json) (inspectPort : string)
    (dests : list Destination) (results : list json) :
  (forall d, d ∈ dests -> total Inv (rec (dest_Name d)) /\
     forall r x, unmarshal (dest_Schema d) = Ok r -> x ∈ subterms r -> ready gfuel x) ->
  total Inv (collect key_error show sprint marshal unmarshal ajson_eval gfuel rec inspectPort dests results).
Proof.
  revert results. induction dests as [|d dests IH]; intros results Hd; [apply gen_total_ret|]. cbn [collect].
  assert (IH' : forall results, total Inv (collect key_error show sprint marshal unmarshal ajson_eval gfuel
    rec inspectPort dests results)) by (intros r'; apply IH; intros d' Hin; apply Hd; by right).
  destruct (_ || _); [apply IH'|]. apply total_try; [|intros [v|e]; [apply IH'|apply gen_total_ret]].
  destruct (Hd d) as [Hrec Hs]; [by left|]. unfold through_edge. apply gen_total_bind; [exact Hrec|].
  intros [v|e]; [|apply gen_total_ret]. destruct (marshal v) as [b|e]; [|apply gen_total_ret].
  destruct (unmarshal b) as [node|e]; [|apply gen_total_ret]. destruct (Eval _ _ _ _) as [[v' errs]|e]; [|apply gen_total_ret].
  apply total_try; [|intros; apply gen_total_ret]. by apply total_typed_defaults.
Qed.

Abbreviation Inspect := (inspect key_error show sprint marshal json_unmarshal unmarshal ajson_eval ctx_err gfuel
  portSchemaMap edgeConfigMap runtimeData portExampleMap).

(** Each nested port is one more visited. *)
Lemma total_inspect (names : gset string) (f : nat) :
  sources ⊆ names -> forall (W : gset string) (port : string),
  port ∈ names -> size (names ∖ W) < f -> total (fun s => W ⊆ visited s) (Inspect f port).
Proof.
  intros Hsrc. induction f as [|f IH]; intros W port Hport Hf; [lia|].
  intros s0 HW. cbn [inspect]. destruct (ctx_err _); [by eexists _, _|]. cbn [visited cache asked snd fst].
  case_bool_decide as Hv; [destruct (cache _ !! port) as [[]|]; by eexists _, _|].
  assert (Hnew : port ∉ W) by set_solver.
  assert (Hsz : size (names ∖ ({[ port ]} ∪ W)) < f).
  { assert (size (names ∖ ({[ port ]} ∪ W)) < size (names ∖ W)); [|lia].
    apply subset_size. split; [set_solver|]. intros Hsub. specialize (Hsub port). set_solver. }
  assert (Hcb : total_callback (fun s => {[ port ]} ∪ W ⊆ visited s)
    (Some (port_callback key_error show sprint marshal unmarshal ajson_eval gfuel edgeConfigMap (Inspect f) port))).
  { intros n s Hs. unfold port_callback. destruct (_ =? ""); [by eexists _, _|].
    destruct (go_has_prefix _ _); [by eexists _, _|].
    destruct (total_collect (fun s => {[ port ]} ∪ W ⊆ visited s) (Inspect f) port
      (destinations_of (GetStrKey "port" n)) []) with (s := s) as (r & s' & E & Hs').
    - intros d Hd. split; [|intros x y; by apply (edges_ready _ d x y Hd)]. apply IH; [|done]. by eapply Hsrc, sources_spec.
    - done.
    - unfold destinations_of in E. rewrite E. destruct r as [[[|x xs]|[b e]]|e]; by eexists _, _. }
  destruct (ports_ready port _ _ Hcb (s0.1, mkSim ({[ port ]} ∪ visited s0.2) (cache s0.2) (S (asked s0.2))))
    as (r & s' & E & Hs').
  - simpl. set_solver.
  - rewrite E. eexists _, _. split; [done|]. simpl. set_solver.
Qed.
End ports.
End termination.

(** C10. Simulating a port ends, on every graph of ports, also where edges form
    cycles: no port is simulated twice, so nested simulations are at most one
    more than the ports that edges come from. What must not go in circles are
    the references inside a schema: those of the ports, and the documents the
    edges declare. *)
Theorem simulation_terminates `{Faker} (key_error : json -> string -> goerror) (show sprint : json -> string)
    (marshal : json -> result goerror string) (json_unmarshal unmarshal : string -> result goerror json)
    (ajson_eval : json -> string -> result goerror json) (ctx_err : nat -> error)
    (portSchemaMap : gmap string json) (edgeConfigMap : gmap string (list Destination))
    (runtimeData portExampleMap : option (gmap string string)) :
  (forall port x, portSchemaMap !! port = Some x -> Acc (part_of key_error show x) x) ->
  (forall port d r x, d ∈ destinations_of edgeConfigMap port -> unmarshal (dest_Schema d) = Ok r ->
     x ∈ subterms r -> Acc (part_of key_error show x) x) ->
  exists g, forall gfuel fuel port, g <= gfuel -> S (size (sources edgeConfigMap)) < fuel ->
    exists r, SimulatePortDataFromMaps key_error show sprint marshal json_unmarshal unmarshal ajson_eval ctx_err gfuel
      portSchemaMap edgeConfigMap runtimeData portExampleMap fuel port = Some r.
Proof.
  intros Hports Hedges.
  set (schemas := JNull :: (map_to_list portSchemaMap).*2 ++
    flat_map (fun kv => flat_map (fun d => match unmarshal (dest_Schema d) with
                                           | Ok r => subterms r | Err _ => [] end) kv.2) (map_to_list edgeConfigMap)).
  assert (Hready : forall x, x ∈ schemas -> Acc (part_of key_error show x) x).
  { intros x [->|Hx]%elem_of_cons.
    { constructor. intros y (d & Hd & Hy). injection Hd as <-. by apply not_elem_of_nil in Hy. }
    apply elem_of_app in Hx as [((port, y) & -> & Hp%elem_of_map_to_list)%list_elem_of_fmap|Hx]; [by eapply Hports|].
    apply list_elem_of_In, in_flat_map in Hx as ((port, l) & Hp%list_elem_of_In%elem_of_map_to_list & Hx).
    apply in_flat_map in Hx as (d & Hd%list_elem_of_In & Hx%list_elem_of_In).
    destruct (unmarshal (dest_Schema d)) as [r|] eqn:Er; [|by apply not_elem_of_nil in Hx].
    eapply (Hedges port d); [unfold destinations_of; by rewrite Hp|exact Er|done]. }
  destruct (enough_for_all (fun f x => ready key_error show f x) schemas) as [g Hg].
  { intros x Hx. destruct (generate_total (S := Sim) key_error show x x (Hready x Hx)) as [fuel Hf].
    exists fuel. intros f Hle Inv clb Hc. by apply Hf. }
  exists g. intros gfuel fuel port Hgf Hf. unfold SimulatePortDataFromMaps.
  destruct (total_inspect key_error show sprint marshal json_unmarshal unmarshal ajson_eval ctx_err gfuel
    portSchemaMap edgeConfigMap runtimeData portExampleMap) with
    (names := {[ port ]} ∪ sources edgeConfigMap) (f := fuel) (W := ∅ : gset string) (port := port)
    (s := (0, mkSim ∅ ∅ 0)) as (r & s' & E & _).
  - intros p. apply Hg; [lia|]. unfold schemas. destruct (portSchemaMap !! p) as [x|] eqn:Ex; [|by left].
    right. apply elem_of_app. left. apply list_elem_of_fmap. exists (p, x). split; [done|]. by apply elem_of_map_to_list.
  - intros p d r x Hd Hr Hx. apply Hg; [lia|]. right. apply elem_of_app. right.
    unfold destinations_of in Hd. destruct (edgeConfigMap !! p) as [l|] eqn:El; [|by apply not_elem_of_nil in Hd].
    apply list_elem_of_In, in_flat_map. exists (p, l). split; [by apply list_elem_of_In, elem_of_map_to_list|].
    apply in_flat_map. exists d. split; [by apply list_elem_of_In|]. rewrite Hr. by apply list_elem_of_In.
  - set_solver.
  - set_solver.
  - rewrite difference_empty_L, size_union_alt, size_singleton.
    assert (Hle : size (sources edgeConfigMap ∖ {[port]}) <= size (sources edgeConfigMap))
      by (apply subseteq_size; set_solver). lia.
  - simpl. set_solver.
  - rewrite E. by eexists.
Qed.

Section cycle.
Let no_key (v : json) (k : string) : goerror := ErrorString "key not found".
Let text (v : json) : string := "text".
Let parse (s : string) : result goerror json := if s =? "" then Err (ErrorString "EOF") else Ok (JObj []).
Let print (v : json) : result goerror string := Ok "{}".
Let path (v : json) (p : string) : result goerror json := Err (ErrorString "key not found").
Let fed_by (port : string) : json := JObj [("type", JStr "object"); ("port", JStr port)].
Let schemas : gmap string json := {[ "a:out" := fed_by "a:in"; "b:out" := fed_by "b:in" ]}.
Let edges : gmap string (list Destination) :=
  {[ "a:in" := [mkDestination "b:out" "{}" ""]; "b:in" := [mkDestination "a:out" "{}" ""] ]}.

(** Two nodes that feed each other. *)
Lemma simulation_terminates_witness :
  size (sources edges) = 2 /\
  exists g, forall gfuel fuel port, g <= gfuel -> 3 < fuel ->
    exists r, @SimulatePortDataFromMaps faker_low no_key text text print parse parse path (fun _ => None) gfuel
      schemas edges None None fuel port = Some r.
Proof.
  split; [vm_compute; reflexivity|].
  apply (@simulation_terminates faker_low no_key text text print parse parse path (fun _ => None) schemas edges None None).
  - intros port x Hx.
    assert (Hp : exists p, x = fed_by p).
    { unfold schemas in Hx. apply lookup_insert_Some in Hx as [[_ <-]|[_ Hx]]; [by eexists|].
      apply lookup_singleton_Some in Hx as [_ <-]. by eexists. }
    destruct Hp as [p ->]. constructor. intros y (d & Hd & Hy). vm_compute in Hd. injection Hd as <-.
    vm_compute in Hy. by apply not_elem_of_nil in Hy.
  - intros port d r x Hd Hr. exfalso. revert Hr. unfold destinations_of, edges in Hd.
    destruct (_ !! port) as [l|] eqn:E; [|by apply not_elem_of_nil in Hd].
    apply lookup_insert_Some in E as [[_ <-]|[_ E]]; [|apply lookup_singleton_Some in E as [_ <-]];
      apply list_elem_of_singleton in Hd as ->; discriminate.
Defined.
End cycle.

(** ** Precedence *)

Section layers.
  Variable json_unmarshal : string -> result goerror json.

(** The data a map holds for a port, where it decodes to something. *)
Definition decoded (data : option (gmap string string)) (port : string) : option json :=
  match data with
  | None => None
  | Some m => match m !! port with
              | Some e => if e =? "" then None
                          else match json_unmarshal e with Ok JNull | Err _ => None | Ok v => Some v end
              | None => None
              end
  end.

Lemma example_decoded (examples : option (gmap string string)) (port : string) (v : json) :
  with_example json_unmarshal examples port v =
    match decoded examples port with Some e => fillGaps v e | None => v end.
Proof.
  unfold with_example, decoded. destruct examples as [m|]; [|done]. destruct (m !! port) as [e|]; [|done].
  destruct (e =? ""); [done|]. by destruct (json_unmarshal e) as [[]|].
Qed.

Lemma runtime_decoded (data : option (gmap string string)) (port : string) (v : json) :
  data ≫= (fun m => m !! port) <> Some "" ->
  with_runtime json_unmarshal data port v =
    match decoded data port with Some o => mergeOverlay v o | None => v end.
Proof.
  unfold with_runtime, decoded. destruct data as [m|]; [|done]. simpl. destruct (m !! port) as [e|]; [|done].
  intros Hne. destruct (String.eqb_spec e "") as [->|]; [done|]. by destruct (json_unmarshal e) as [[]|].
Qed.

(** Where a field of a simulated port comes from: recorded data wins; where it
    says nothing, a concrete mock or evaluated value stays, and only what that
    lacks is taken from the component's published example. In the outcome every
    field of a [context] is a field of the object that has the context as well,
    as at run time, and nothing is overwritten for it. *)
Theorem layers_precedence (runtimeData portExampleMap : option (gmap string string)) (port : string) (mock : json)
    (p : list string) (x : json) :
  (forall s v, json_unmarshal s = Ok v -> json_wf v) -> runtimeData ≫= (fun m => m !! port) <> Some "" ->
  scalar x = true ->
  let out := layered json_unmarshal runtimeData portExampleMap port mock in
  (forall o, decoded runtimeData port = Some o -> get_path p o = Some x -> get_path p out = Some x) /\
  ((forall o, decoded runtimeData port = Some o -> silent p o = true) ->
     (get_path p mock = Some x -> x <> JNull -> get_path p out = Some x) /\
     (forall e, decoded portExampleMap port = Some e -> lacking p mock = true -> get_path p e = Some x ->
        get_path p out = Some x)) /\
  (forall q m ctx k y, get_path q out = Some (JObj m) -> obj_get "context" m = Some (JObj ctx) ->
     obj_get k ctx = Some y -> is_Some (obj_get k m)).
Proof.
  intros Hwf Hne Hx out. unfold out, layered. rewrite runtime_decoded, example_decoded by done.
  assert (Hd : forall m v, decoded m port = Some v -> json_wf v).
  { intros m v. unfold decoded. destruct m as [m|]; [|done]. destruct (m !! port) as [e|]; [|done].
    destruct (e =? ""); [done|]. destruct (json_unmarshal e) as [w|] eqn:E; [|done].
    intros Hv. assert (w = v) as <- by (destruct w; congruence). by apply (Hwf e). }
  set (base := match decoded portExampleMap port with Some e => fillGaps mock e | None => mock end).
  assert (Hover : (forall o, decoded runtimeData port = Some o -> silent p o = true) ->
    get_path p base = Some x ->
    get_path p (match decoded runtimeData port with Some o => mergeOverlay base o | None => base end) = Some x).
  { intros Hs Hb. destruct (decoded runtimeData port) as [o|] eqn:Eo; [|done].
    apply overlay_silent; [by apply (Hd runtimeData)|done|by apply Hs]. }
  split_and!.
  - intros o Ho Hp. rewrite Ho. apply spread_keeps; [|done]. apply overlay_wins; [by apply (Hd runtimeData)|done..].
  - intros Hs. split.
    + intros Hp Hnn. apply spread_keeps; [|done]. apply (Hover Hs). unfold base.
      destruct (decoded portExampleMap port) as [e|] eqn:Ee; [|done].
      apply gaps_keep; [by apply (Hd portExampleMap)|done..].
    + intros e Ee Hl Hp. apply spread_keeps; [|done]. apply (Hover Hs). unfold base. rewrite Ee.
      apply gaps_filled; [by apply (Hd portExampleMap)|done..].
  - apply spread_both_ways.
Qed.
End layers.

(** A recorded field replaces the mock's, the example fills a null, and the
    context's fields are at the root too. *)
Lemma layers_precedence_witness :
  let parse s := if s =? "recorded" then Ok (JObj [("id", JNum "7")])
                 else Ok (JObj [("context", JObj [("user", JStr "example")]); ("id", JNum "0")]) in
  let mock := JObj [("context", JObj [("user", JNull); ("host", JStr "mock")]); ("id", JNum "1")] in
  let out := layered parse (Some {[ "n:out" := "recorded" ]}) (Some {[ "n:out" := "example" ]}) "n:out" mock in
  out = JObj [("context", JObj [("user", JStr "example"); ("host", JStr "mock")]); ("id", JNum "7");
              ("user", JStr "example"); ("host", JStr "mock")] /\
  get_path ["id"] out = Some (JNum "7") /\ get_path ["context"; "host"] out = Some (JStr "mock").
Proof.
  intros parse mock out. split; [vm_compute; reflexivity|].
  assert (Hwf : forall s v, parse s = Ok v -> json_wf v).
  { intros s v. unfold parse. destruct (s =? "recorded"); intros [= <-];
      repeat (first [rewrite json_wf_obj | split | constructor | exact I
                    | apply (bool_decide_unpack _); vm_compute; exact I]). }
  assert (Hne : Some ({[ "n:out" := "recorded" ]} : gmap string string) ≫= (fun m => m !! "n:out") <> Some "")
    by (vm_compute; congruence).
  split.
  - apply (proj1 (layers_precedence parse (Some {[ "n:out" := "recorded" ]}) (Some {[ "n:out" := "example" ]}) "n:out"
      mock ["id"] (JNum "7") Hwf Hne eq_refl) (JObj [("id", JNum "7")])); vm_compute; reflexivity.
  - assert (Hs : forall o, decoded parse (Some {[ "n:out" := "recorded" ]}) "n:out" = Some o ->
      silent ["context"; "host"] o = true).
    { assert (E : decoded parse (Some {[ "n:out" := "recorded" ]}) "n:out" = Some (JObj [("id", JNum "7")]))
        by (vm_compute; reflexivity).
      intros o. rewrite E. intros [= <-]. reflexivity. }
    apply (proj1 (proj1 (proj2 (layers_precedence parse (Some {[ "n:out" := "recorded" ]}) (Some {[ "n:out" := "example" ]})
      "n:out" mock ["context"; "host"] (JStr "mock") Hwf Hne eq_refl)) Hs)); [vm_compute; reflexivity|discriminate].
Defined.

(** An edge's stored schema that is a schema document, not a map from fields to
    schemas, leaves its keywords in the data as fields. *)
Example keywords_become_fields :
  @fillTypedDefaults faker_low (fun _ _ => ErrorString "") (fun _ => "")
    (fun _ => Ok (JObj [("$ref", JStr "#/$defs/In"); ("$defs", JObj [("In", JObj [("type", JStr "object")])])])) 5
    (JObj [("name", JStr "Ada")]) "{...}" (0, mkSim ∅ ∅ 0) =
  Some (Ok (JObj [("name", JStr "Ada"); ("$ref", JNull); ("$defs", JNull)]), (0, mkSim ∅ ∅ 0)).
Proof. reflexivity. Qed.
