(* ===== verification/EdgeValidation.v ===== *)
(** * Validation of edges and settings

    [pkg/utils/edge_validation.go]: an edge's configuration is evaluated against
    data of its source port and the outcome checked against the target's schema;
    what cannot be decided without a real run is told apart from a defect.
    [secret_placeholder.go]: what stands for credentials meanwhile.
    [settings_validation.go]: required settings without a value.
    [expression.go]: the two functions behind the editor's previews.

    The schema validator ([santhosh-tekuri/jsonschema]) and [ajson] are
    parameters. [strings.ToLower] is on the ASCII range. *)
From S2P Require Import Prelude GoErrors Names Json Redact Schema Evaluator Generator GraphExport Simulation.

Open Scope string_scope.
Open Scope list_scope.

(** ** Absent credentials *)

Definition secret_field (key : string) : bool := existsb (fun w => go_contains (fold_ci key) w) secret_key_words.

Definition simulatedSecretPlaceholder : string := "(supplied at runtime)".

Fixpoint placeholderForAbsentSecrets (data : json) : json :=
  match data with
  | JObj v =>
      JObj (map (fun kv => (kv.1, if is_nil kv.2 && secret_field kv.1 then JStr simulatedSecretPlaceholder
                                  else placeholderForAbsentSecrets kv.2)) v)
  | JArr v => JArr (map placeholderForAbsentSecrets v)
  | _ => data
  end.

(** ** Errors of the schema validator *)

(** [jsonschema.ValidationError]. *)
Inductive ValidationError : Type :=
| mkVErr (KeywordLocation InstanceLocation Message : string) (Causes : list ValidationError).

Definition KeywordLocation (e : ValidationError) : string := match e with mkVErr k _ _ _ => k end.
Definition InstanceLocation (e : ValidationError) : string := match e with mkVErr _ i _ _ => i end.
Definition Message (e : ValidationError) : string := match e with mkVErr _ _ m _ => m end.

(** The first cause of the first cause ... *)
Fixpoint leaf (e : ValidationError) : ValidationError :=
  match e with
  | mkVErr _ _ _ [] => e
  | mkVErr _ _ _ (c :: _) => leaf c
  end.

(** [strings.LastIndex]: what follows the last occurrence. *)
Fixpoint after_last (sub s : string) : option string :=
  match s with
  | EmptyString => if sub =? "" then Some "" else None
  | String _ s' => match after_last sub s' with
                   | Some r => Some r
                   | None => if String.prefix sub s then Some (string_drop (String.length sub) s) else None
                   end
  end.

Definition extractDefName (keywordLocation : string) : string :=
  match after_last "$defs/" keywordLocation with
  | None => ""
  | Some rest => match go_cut "/" rest with Some (a, _) => a | None => rest end
  end.

Definition formatValidationError (err : ValidationError) : goerror :=
  let leaf := leaf err in
  let path := if InstanceLocation leaf =? "" then "/" else InstanceLocation leaf in
  let defName := extractDefName (KeywordLocation leaf) in
  if negb (defName =? "")
  then ErrorString (path +:+ ": does not match linked " +:+ defName +:+ " schema: " +:+ Message leaf)
  else ErrorString (path +:+ ": " +:+ Message leaf).

Definition isUnverifiableSchemaError (err : ValidationError) : bool :=
  let msg := go_to_lower (Message (leaf err)) in
  go_contains msg "got null" || (go_contains msg "expected" && go_contains msg "null").

Definition isUnverifiableEvalError (msg : string) : bool :=
  let lower := go_to_lower msg in
  go_contains lower "not parsed yet" ||
  (go_contains lower "is null" || go_contains lower "null value") ||
  (go_contains lower "key not found" || go_contains lower "no such key").

Definition ErrEdgeUnverifiable : goerror := ErrorString "edge cannot be verified without a scenario".

(** [fmt.Errorf("%w: %s", ErrEdgeUnverifiable, msg)]. *)
Definition unverifiable (msg : string) : goerror := SuffixError ErrEdgeUnverifiable (": " +:+ msg).

Definition IsUnverifiable (err : error) : bool :=
  match err with
  | None => false
  | Some e => existsb (fun x => match x with ErrorString m => m =? error_text ErrEdgeUnverifiable | _ => false end)
                (chain e)
  end.

(** ** The hint at a misplaced path *)

(** The states of [jsonPathRefRe] after its first character: at a segment's
    end, after a dot, in a name, after a bracket, in an index. *)
Inductive RefState := AtEnd | AfterDot | InName | AfterBracket | InIndex.

Definition name_start (c : ascii) : bool := is_upper c || is_lower c || Ascii.eqb c "_".
Definition name_char (c : ascii) : bool := name_start c || is_digit c.

(** The length of the longest match of the segments; [n] characters are read,
    [best] is the last length at which a match could end. *)
Fixpoint scan_segments (st : RefState) (n best : nat) (s : string) : nat :=
  match s with
  | EmptyString => best
  | String c s' =>
      let next := if Ascii.eqb c "." then Some AfterDot else if Ascii.eqb c "[" then Some AfterBracket else None in
      match st with
      | AtEnd => match next with Some st' => scan_segments st' (S n) best s' | None => best end
      | AfterDot => if name_start c then scan_segments InName (S n) (S n) s' else best
      | InName => if name_char c then scan_segments InName (S n) (S n) s'
                  else match next with Some st' => scan_segments st' (S n) best s' | None => best end
      | AfterBracket => if is_digit c then scan_segments InIndex (S n) best s' else best
      | InIndex => if is_digit c then scan_segments InIndex (S n) best s'
                   else if Ascii.eqb c "]" then scan_segments AtEnd (S n) (S n) s' else best
      end
  end.

(** [jsonPathRefRe.FindAllString(s, -1)]; [skip] counts the rest of a match. *)
Fixpoint path_refs (skip : nat) (s : string) : list string :=
  match s with
  | EmptyString => []
  | String c s' =>
      match skip with
      | S k => path_refs k s'
      | O => if Ascii.eqb c "$" then
               match scan_segments AtEnd 0 0 s' with
               | O => path_refs 0 s'
               | S k => String c (string_take (S k) s') :: path_refs (S k) s'
               end
             else path_refs 0 s'
      end
  end.

Definition leafFieldName (path : string) : string :=
  let seg := match go_cut_last "." path with Some (_, b) => b | None => path end in
  if str_has "[" seg || str_has "]" seg || str_has "$" seg then "" else seg.

(** [walk], with [hits] as it grows. *)
Fixpoint find_hits (name : string) (n : json) (path : string) (hits : list string) : list string :=
  if (1 <? length hits)%nat then hits
  else match n with
       | JObj m =>
           (fix go m hits := match m with
            | [] => hits
            | (k, child) :: m' =>
                let cp := path +:+ "." +:+ k in
                go m' (find_hits name child cp (if k =? name then hits ++ ["$" +:+ cp] else hits))
            end) m hits
       | JArr (x :: _) => find_hits name x (path +:+ "[0]") hits
       | _ => hits
       end.

Definition findFieldPath (root : json) (name : string) : string :=
  match find_hits name root "" [] with [p] => p | _ => "" end.

Fixpoint first_hint (root : json) (refs : list string) : string :=
  match refs with
  | [] => ""
  | p :: refs' =>
      let name := leafFieldName p in
      let correct := findFieldPath root name in
      if negb (name =? "") && negb (correct =? "") && negb (correct =? p)
      then "field `" +:+ name +:+ "` is at `" +:+ correct +:+ "`, not `" +:+ p +:+ "`"
      else first_hint root refs'
  end.

Definition pathHint (root : json) (errStr : string) : string := first_hint root (path_refs 0 errStr).

(** ** One edge *)

(** What validating gives: a [ValidationError] or another error. *)
Definition Validator : Type := json -> option (ValidationError + goerror).

Section validate.
  Context `{Faker}.
  Variable key_error : json -> string -> goerror.
  Variable show : json -> string.
  Variable sprint : json -> string.
  Variable marshal : json -> result goerror string.                (* goccy/go-json *)
  Variable json_unmarshal : string -> result goerror json.         (* goccy/go-json *)
  Variable unmarshal : string -> result goerror json.              (* ajson *)
  Variable ajson_marshal : json -> result goerror string.          (* ajson *)
  Variable ajson_eval : json -> string -> result goerror json.     (* ajson.Eval, and Unpack *)
  Variable add_resource : string -> error.                         (* jsonschema: the schema is no JSON *)
  Variable compile : string -> result goerror Validator.           (* jsonschema *)

Definition eval_error_text (e : string * goerror) : string :=
  "{{" +:+ e.1 +:+ "}}: " +:+ error_text e.2.

(** The verdict on a configuration with failed expressions. *)
Definition expression_verdict (portDataNode : json) (sourceHasRealData : bool) (first : string) : goerror :=
  let msg := "expression error: " +:+ first in
  let hint := if sourceHasRealData then pathHint portDataNode first else "" in
  if negb (hint =? "") then ErrorString (msg +:+ " — " +:+ hint)
  else if isUnverifiableEvalError first then unverifiable msg
  else ErrorString msg.

Definition schema_verdict (r : option (ValidationError + goerror)) : error :=
  match r with
  | None => None
  | Some (inr e) => Some e
  | Some (inl v) => Some (if isUnverifiableSchemaError v then unverifiable (error_text (formatValidationError v))
                          else formatValidationError v)
  end.

Definition ValidateEdgeSchema (portSchema : option json) (incomingPortData : json) (edgeConfiguration : string)
    (sourceHasRealData : bool) : error :=
  match portSchema with
  | None => None
  | Some portSchema =>
      match ajson_marshal portSchema with
      | Err e => Some e
      | Ok schemaBytes =>
          let schemaBytes := if schemaBytes =? "" then "{}" else schemaBytes in
          match add_resource schemaBytes with
          | Some e => Some (ErrorString ("port schema is invalid: " +:+ error_text e))
          | None =>
              match compile schemaBytes with
              | Err e => Some (ErrorString ("schema compile error: " +:+ error_text e))
              | Ok validate =>
                  match marshal incomingPortData with
                  | Err e => Some (ErrorString ("unable to marshal simulated port data: " +:+ error_text e))
                  | Ok incomingPortBytes =>
                      match unmarshal incomingPortBytes with
                      | Err e => Some (ErrorString ("unable to create ajson node: " +:+ error_text e))
                      | Ok portDataNode =>
                          let conf := if edgeConfiguration =? "" then "{}" else edgeConfiguration in
                          match Eval (eval_over ajson_eval portDataNode) sprint unmarshal conf with
                          | Err e => Some (ErrorString ("eval error: " +:+ error_text e))
                          | Ok (portDataConfig, first :: _) =>
                              Some (expression_verdict portDataNode sourceHasRealData (eval_error_text first))
                          | Ok (portDataConfig, []) =>
                              schema_verdict (validate (placeholderForAbsentSecrets portDataConfig))
                          end
                      end
                  end
              end
          end
      end
  end.

Section maps.
  Variable ctx_err : nat -> error.
  Variables gfuel fuel : nat.
  Variable portSchemaMap : gmap string json.
  Variable edgeConfigMap : gmap string (list Destination).
  Variable runtimeData portExampleMap : option (gmap string string).

(** The data of a source port, where the simulation ends. *)
Definition port_data (port : string) : option (result goerror json) :=
  SimulatePortDataFromMaps key_error show sprint marshal json_unmarshal unmarshal ajson_eval ctx_err gfuel
    portSchemaMap edgeConfigMap runtimeData portExampleMap fuel port.

Definition has_real_data (port : string) : bool :=
  match runtimeData with Some m => bool_decide (is_Some (m !! port)) | None => false end.

(** Against a schema of the source port's simulated data. *)
Definition validate_simulated (schema : option json) (sourcePortFullName edgeConfiguration : string) : option error :=
  match port_data sourcePortFullName with
  | None => None
  | Some (Err e) => Some (Some (ErrorString ("cannot get port data: " +:+ error_text e)))
  | Some (Ok portData) =>
      Some (ValidateEdgeSchema schema portData edgeConfiguration (has_real_data sourcePortFullName))
  end.

Definition ValidateEdgeWithPrecomputedMaps (sourcePortFullName edgeConfiguration edgeSchemaBytes : string)
    : option error :=
  if edgeSchemaBytes =? "" then Some None
  else match unmarshal edgeSchemaBytes with
       | Err e => Some (Some (ErrorString ("invalid edge schema: " +:+ error_text e)))
       | Ok edgeSchema => validate_simulated (Some edgeSchema) sourcePortFullName edgeConfiguration
       end.

End maps.

(** ** Property names *)

Record PropertyMismatch := mkMismatch { DefName : string; EdgeKey : string; ExpectedKey : string }.

Definition member_obj (k : string) (v : json) : option (list (string * json)) :=
  GetKey v k ≫= as_obj.

(** The properties of a definition. *)
Definition def_props (defs : list (string * json)) (defName : string) : option (list (string * json)) :=
  obj_get defName defs ≫= member_obj "properties".

(** [targetKeys]: ranged over in some order for the closest name. *)
Definition close_match `{MapRange unit} (targetKeys : gmap string unit) (edgeKey : string) : string :=
  match List.find (fun kv => go_to_lower kv.1 =? go_to_lower edgeKey) (map_range targetKeys) with
  | Some (k, _) => k
  | None => ""
  end.

Definition def_mismatches `{MapRange unit} (targetDefs : list (string * json)) (d : string * json)
    : list PropertyMismatch :=
  match member_obj "properties" d.2, def_props targetDefs d.1 with
  | Some edgeProps, Some targetProps =>
      let targetKeys : gmap string unit := list_to_map (map (fun kv => (kv.1, tt)) targetProps) in
      omap (fun kv => match targetKeys !! kv.1 with
                      | Some _ => None
                      | None => Some (mkMismatch d.1 kv.1 (close_match targetKeys kv.1))
                      end) edgeProps
  | _, _ => []
  end.

Definition CrossValidateEdgeSchemaKeys `{MapRange unit} (edgeSchema targetPortSchema : json) : list PropertyMismatch :=
  match member_obj "$defs" edgeSchema, member_obj "$defs" targetPortSchema with
  | Some edgeDefs, Some targetDefs => flat_map (def_mismatches targetDefs) edgeDefs
  | _, _ => []
  end.

Definition ValidateEdgeSchemaKeys `{MapRange unit} (edgeSchemaBytes targetPortSchemaBytes : string) : string :=
  if (edgeSchemaBytes =? "") || (targetPortSchemaBytes =? "") then ""
  else match unmarshal edgeSchemaBytes, unmarshal targetPortSchemaBytes with
       | Ok edgeSchema, Ok targetSchema =>
           match CrossValidateEdgeSchemaKeys edgeSchema targetSchema with
           | [] => ""
           | m :: _ =>
               if negb (ExpectedKey m =? "")
               then "property " +:+ go_quote (EdgeKey m) +:+ " in " +:+ DefName m +:+
                    " does not match target port (expected " +:+ go_quote (ExpectedKey m) +:+
                    ") — value will be lost at runtime"
               else "property " +:+ go_quote (EdgeKey m) +:+ " in " +:+ DefName m +:+
                    " does not exist in target port schema — value will be lost at runtime"
           end
       | _, _ => ""
       end.

(** ** Settings *)

Definition stringField (m : list (string * json)) (key : string) : string :=
  match fld m key with JStr s => s | _ => "" end.

(** A nil map where the reference is not to a definition that is an object. *)
Definition resolveLocalRef (root : list (string * json)) (ref : string) : option (list (string * json)) :=
  if negb (go_has_prefix ref "#/$defs/") then None
  else match fld root "$defs" with
       | JObj defs => as_obj (fld defs (go_trim_prefix ref "#/$defs/"))
       | _ => None
       end.

Definition settingsShape (schema : list (string * json)) : list (string * json) * list string :=
  let ref := stringField schema "$ref" in
  let obj := if negb (ref =? "") then default schema (resolveLocalRef schema ref) else schema in
  (default [] (as_obj (fld obj "properties")),
   match fld obj "required" with JArr l => omap as_str l | _ => [] end).

Definition isConfigurable (prop : list (string * json)) : bool :=
  match fld prop "configurable" with JBool b => b | _ => false end.

Definition isBlankValue (v : json) : bool :=
  match v with
  | JNull | JObj [] | JArr [] => true
  | JStr s => go_trim_space s =? ""
  | _ => false
  end.

Fixpoint firstNonEmpty (vals : list string) : string :=
  match vals with
  | [] => ""
  | v :: vals' => if negb (v =? "") then v else firstNonEmpty vals'
  end.

(** One required name. *)
Definition setting_issue (schema props config : list (string * json)) (name : string) : option string :=
  if equal_fold name "context" then None
  else match as_obj (fld props name) with
       | None => None
       | Some prop =>
           let def := default prop (resolveLocalRef schema (stringField prop "$ref")) in
           if negb (isConfigurable def) then None
           else if negb (isBlankValue (fld config name)) then None
           else
             let title := firstNonEmpty [stringField def "title"; stringField prop "title"; name] in
             let d := firstNonEmpty [stringField def "description"; stringField prop "description"] in
             let msg := "REQUIRED SETTING NOT SET: `" +:+ title +:+ "` on this node has no schema/example." in
             Some (if negb (d =? "") then msg +:+ " " +:+ d else msg)
       end.

(** [encoding/json] into a map: objects, and null as the nil map. *)
Definition SettingsIssues (unmarshal_map : string -> option (list (string * json)))
    (settingsSchema settingsConfig : string) : list string :=
  if settingsSchema =? "" then []
  else match unmarshal_map settingsSchema with
       | None => []
       | Some schema =>
           let '(props, required) := settingsShape schema in
           match props, required with
           | [], _ | _, [] => []
           | _, _ =>
               let config := if settingsConfig =? "" then [] else default [] (unmarshal_map settingsConfig) in
               omap (setting_issue schema props config) required
           end
       end.

(** ** Previews *)

Record RunExpressionResponse := mkExprResponse {
  re_Result : string;
  re_ValidSchema : bool;
  re_ValidationError : string;
}.

(** [unpack] is [ajson]'s: the value of a result. *)
Definition RunExpression (unpack : json -> result goerror json) (Expression Data Schema : string) : result goerror RunExpressionResponse :=
  if Expression =? "" then Err (ErrorString "expression is required")
  else if Data =? "" then Err (ErrorString "data is required")
  else match unmarshal Data with
       | Err e => Err (WrapError "failed to parse data: " e)
       | Ok node =>
           let! jsonPathResult := (match ajson_eval node Expression with
                                   | Ok r => Ok r
                                   | Err e => Err (WrapError "failed to evaluate expression: " e)
                                   end) in
           match unpack jsonPathResult with
           | Err e => Err (WrapError "failed to unpack result: " e)
           | Ok v =>
               match ajson_marshal jsonPathResult with
               | Err e => Err (WrapError "failed to marshal result: " e)
               | Ok res =>
                   if (Schema =? "") || (Schema =? "{}") then Ok (mkExprResponse res true "")
                   else match add_resource Schema with
                        | Some e => Err (WrapError "failed to add schema resource: " e)
                        | None =>
                            match compile Schema with
                            | Err e => Err (WrapError "failed to compile schema: " e)
                            | Ok validate =>
                                match validate v with
                                | None => Ok (mkExprResponse res true "")
                                | Some (inl ve) =>
                                    Ok (mkExprResponse res false
                                          (KeywordLocation (leaf ve) +:+ " " +:+ Message (leaf ve)))
                                | Some (inr e) => Ok (mkExprResponse res false (error_text e))
                                end
                            end
                        end
               end
           end
       end%go.

(** The result and the errors of its expressions. *)
Definition PreviewEdgeMapping (Configuration SourceData : string) : result goerror (string * list string) :=
  if Configuration =? "" then Ok ("{}", [])
  else
    let source := if SourceData =? "" then Ok None
                  else match unmarshal SourceData with Ok n => Ok (Some n) | Err e => Err e end in
    match source with
    | Err e => Err (WrapError "failed to parse source data: " e)
    | Ok sourceNode =>
        let eval expression := match sourceNode with
                               | None => Err (ErrorString "no source data available")
                               | Some n => ajson_eval n expression
                               end in
        match Eval eval sprint unmarshal Configuration with
        | Err e => Err (WrapError "failed to evaluate configuration: " e)
        | Ok (res, errs) =>
            match marshal res with
            | Err e => Err (WrapError "failed to marshal result: " e)
            | Ok resultJSON => Ok (resultJSON, map (fun e => e.1 +:+ ": " +:+ error_text e.2) errs)
            end
        end
    end.

End validate.
