(* ===== verification/EdgeValidationSpec.v ===== *)
(** * Theorems on the validation of edges

    What an accepted edge guarantees, what a verdict may hide, where a hint
    points to, what stands for absent credentials, and which properties of an
    edge's schema are reported as lost. *)
From S2P Require Import Prelude GoErrors Names Json Redact Schema Evaluator Generator GraphExport Simulation EdgeValidation.

Open Scope string_scope.
Open Scope list_scope.

(** ** The place of a field *)

(** Every path at which an object has the field, in the order of a walk. *)
Fixpoint occurrences (name : string) (n : json) (path : string) : list string :=
  match n with
  | JObj m => flat_map (fun kv => (if kv.1 =? name then ["$" +:+ path +:+ "." +:+ kv.1] else []) ++
                                   occurrences name kv.2 (path +:+ "." +:+ kv.1)) m
  | JArr (x :: _) => occurrences name x (path +:+ "[0]")
  | _ => []
  end.

(** What the walk gives for the hits it starts with and the field's places: all
    of them, or at least two. *)
Definition stops_at_two (hits occ r : list string) : Prop :=
  if (1 <? length (hits ++ occ))%nat then 1 < length r else r = hits ++ occ.

Lemma stops_compose (hits occ1 occ2 r1 r2 : list string) :
  stops_at_two hits occ1 r1 -> stops_at_two r1 occ2 r2 -> stops_at_two hits (occ1 ++ occ2) r2.
Proof.
  unfold stops_at_two. rewrite !length_app.
  destruct (Nat.ltb_spec 1 (length hits + length occ1)) as [Hh|Hh].
  - intros Hr1. destruct (Nat.ltb_spec 1 (length r1 + length occ2)); [|lia].
    destruct (Nat.ltb_spec 1 (length hits + (length occ1 + length occ2))); lia.
  - intros ->. rewrite length_app.
    destruct (Nat.ltb_spec 1 (length hits + length occ1 + length occ2));
      destruct (Nat.ltb_spec 1 (length hits + (length occ1 + length occ2))); try lia.
    by rewrite app_assoc.
Qed.

Lemma stops_nil (hits : list string) : stops_at_two hits [] hits.
Proof. unfold stops_at_two. rewrite app_nil_r. by destruct (Nat.ltb_spec 1 (length hits)). Qed.

Lemma stops_full (hits occ : list string) : 1 < length hits -> stops_at_two hits occ hits.
Proof. unfold stops_at_two. rewrite length_app. destruct (Nat.ltb_spec 1 (length hits + length occ)); [done|lia]. Qed.

Lemma stops_all (hits occ : list string) : stops_at_two hits occ (hits ++ occ).
Proof. unfold stops_at_two. by destruct (Nat.ltb_spec 1 (length (hits ++ occ))). Qed.

Lemma find_hits_stops (name : string) (n : json) :
  forall path hits, stops_at_two hits (occurrences name n path) (find_hits name n path hits).
Proof.
  induction n as [|b|s|s|l IH|m IH] using json_nested_ind; intros path hits; cbn [find_hits occurrences];
    (destruct (Nat.ltb_spec 1 (length hits)) as [Hl|Hl]; [by apply stops_full|]);
    try apply stops_nil.
  - destruct l as [|x l]; [apply stops_nil|]. apply Forall_cons in IH as [IH _]. apply IH.
  - clear Hl. revert hits. induction IH as [|[k x] m Hx _ IHm]; intros hits; [apply stops_nil|]. cbn [flat_map fst snd].
    cbn [snd] in Hx. eapply stops_compose; [|apply IHm].
    eapply stops_compose; [|apply Hx]. destruct (k =? name); [|apply stops_nil]. apply stops_all.
Qed.

Lemma occurrence_dollar (name : string) (n : json) :
  forall path p, p ∈ occurrences name n path -> exists r, p = "$" +:+ r.
Proof.
  induction n as [|b|s|s|l IH|m IH] using json_nested_ind; intros path p Hp; try by apply not_elem_of_nil in Hp.
  - destruct l as [|x l]; [by apply not_elem_of_nil in Hp|]. apply Forall_cons in IH as [IH _]. by eapply IH.
  - cbn [occurrences] in Hp. apply list_elem_of_In, in_flat_map in Hp as ([k x] & Hk%list_elem_of_In & Hp%list_elem_of_In).
    rewrite Forall_forall in IH. apply elem_of_app in Hp as [Hp|Hp]; [|by eapply (IH _ Hk)].
    cbn [fst] in Hp. destruct (k =? name); [|by apply not_elem_of_nil in Hp].
    apply list_elem_of_singleton in Hp as ->. by eexists.
Qed.

Lemma find_field_path_unique (root : json) (name p : string) :
  findFieldPath root name = p /\ p <> "" <-> occurrences name root "" = [p].
Proof.
  unfold findFieldPath. pose proof (find_hits_stops name root "" []) as Hs. unfold stops_at_two in Hs.
  rewrite app_nil_l in Hs. destruct (Nat.ltb_spec 1 (length (occurrences name root ""))) as [Hl|Hl].
  - split; [|intros E; rewrite E in Hl; simpl in Hl; lia].
    destruct (find_hits name root "" []) as [|q [|]]; simpl in Hs; try lia. by intros [<- ?].
  - rewrite Hs. destruct (occurrences name root "") as [|q [|]] eqn:E; simpl in Hl; try lia.
    + split; [by intros [<- ?]|done].
    + split; [by intros [-> _]|]. intros [= ->]. split; [done|].
      destruct (occurrence_dollar name root "" p) as [r ->]; [rewrite E; by left|done].
Qed.

(** ** Absent credentials *)

Inductive step := Key (k : string) | Index (i : nat).

(** The value at a path through objects and arrays. *)
Fixpoint value_at (p : list step) (v : json) : option json :=
  match p with
  | [] => Some v
  | Key k :: p' => match v with JObj m => obj_get k m ≫= value_at p' | _ => None end
  | Index i :: p' => match v with JArr l => l !! i ≫= value_at p' | _ => None end
  end.

Lemma value_at_app (p q : list step) (v : json) : value_at (p ++ q) v = value_at p v ≫= value_at q.
Proof.
  revert v. induction p as [|s p IH]; intros v; [done|]. destruct s; simpl; destruct v; try done.
  - destruct (obj_get k m); [apply IH|done].
  - destruct (l !! i); [apply IH|done].
Qed.

Definition absent_secret (k : string) (v : json) : bool := is_nil v && secret_field k.

Lemma obj_get_placeholder (k : string) (m : list (string * json)) :
  obj_get k (map (fun kv => (kv.1, if is_nil kv.2 && secret_field kv.1 then JStr simulatedSecretPlaceholder
                                   else placeholderForAbsentSecrets kv.2)) m) =
  (fun v => if absent_secret k v then JStr simulatedSecretPlaceholder else placeholderForAbsentSecrets v) <$> obj_get k m.
Proof.
  induction m as [|[k' v] m IH]; [done|]. cbn [map fst snd]. rewrite !obj_get_cons.
  by destruct (String.eqb_spec k' k) as [->|].
Qed.

(** A null under a credential's name is what changes, nothing else. *)
Lemma placeholder_at (p : list step) (v : json) :
  value_at p (placeholderForAbsentSecrets v) =
    match p with
    | [] => Some (placeholderForAbsentSecrets v)
    | _ => match value_at p v with
           | Some x => Some (match last p with
                             | Some (Key k) => if absent_secret k x then JStr simulatedSecretPlaceholder
                                               else placeholderForAbsentSecrets x
                             | _ => placeholderForAbsentSecrets x
                             end)
           | None => None
           end
    end.
Proof.
  revert v. induction p as [|s p IH]; intros v; [done|]. destruct s as [k|i].
  - destruct v as [| | | | |m]; try done. cbn [placeholderForAbsentSecrets value_at]. rewrite obj_get_placeholder.
    destruct (obj_get k m) as [x|]; [|done]. cbn [fmap option_fmap option_map mbind option_bind].
    destruct p as [|s p]; [done|]. change (last (Key k :: s :: p)) with (last (s :: p)).
    destruct (absent_secret k x) eqn:Ea; [|by rewrite IH].
    unfold absent_secret in Ea. destruct x; try done. by destruct s.
  - destruct v as [| | | |l|]; try done. cbn [placeholderForAbsentSecrets value_at].
    rewrite list_lookup_fmap. destruct (l !! i) as [x|]; [|done]. cbn [fmap option_fmap option_map mbind option_bind].
    destruct p as [|s p]; [done|]. change (last (Index i :: s :: p)) with (last (s :: p)). by rewrite IH.
Qed.

Lemma placeholder_idem (v : json) :
  placeholderForAbsentSecrets (placeholderForAbsentSecrets v) = placeholderForAbsentSecrets v.
Proof.
  induction v as [|b|s|s|l IH|m IH] using json_nested_ind; try done; cbn [placeholderForAbsentSecrets]; f_equal;
    rewrite map_map; apply map_ext_in.
  - intros x Hx. rewrite Forall_forall in IH. by apply IH, list_elem_of_In.
  - intros [k x] Hx. rewrite Forall_forall in IH. apply list_elem_of_In, IH in Hx. cbn [fst snd] in *. f_equal.
    destruct (is_nil x && secret_field k) eqn:E; [done|]. rewrite Hx.
    destruct (is_nil (placeholderForAbsentSecrets x)) eqn:En; [|done]. destruct x; try done. simpl in *. by rewrite E.
Qed.

(** What stands for absent credentials: at every path of the evaluated
    configuration, a null under a credential's name becomes the placeholder and
    any other scalar stays what it is; no field is added or lost; doing it twice
    is doing it once. *)
Theorem placeholder_exact (v : json) :
  (forall p k x, value_at (p ++ [Key k]) v = Some x -> scalar x = true ->
     value_at (p ++ [Key k]) (placeholderForAbsentSecrets v) =
       Some (if absent_secret k x then JStr simulatedSecretPlaceholder else x)) /\
  (forall p i x, value_at (p ++ [Index i]) v = Some x -> scalar x = true ->
     value_at (p ++ [Index i]) (placeholderForAbsentSecrets v) = Some x) /\
  (forall p, is_Some (value_at p (placeholderForAbsentSecrets v)) <-> is_Some (value_at p v)) /\
  placeholderForAbsentSecrets (placeholderForAbsentSecrets v) = placeholderForAbsentSecrets v.
Proof.
  assert (Hs : forall x, scalar x = true -> placeholderForAbsentSecrets x = x) by by intros [].
  split_and!.
  - intros p k x Hx Hsc. rewrite placeholder_at, Hx, last_snoc, (Hs x) by done. by destruct p.
  - intros p i x Hx Hsc. rewrite placeholder_at, Hx, last_snoc, (Hs x) by done. by destruct p.
  - intros p. rewrite placeholder_at. destruct p as [|s p]; [by split; eexists|].
    destruct (value_at (s :: p) v); split; intros [? ?]; first [done|by eexists].
  - apply placeholder_idem.
Qed.

(** ** Hints *)

Lemma first_hint_spec (root : json) (refs : list string) :
  first_hint root refs <> "" ->
  exists p correct, p ∈ refs /\ leafFieldName p <> "" /\ correct <> p /\
    occurrences (leafFieldName p) root "" = [correct] /\
    first_hint root refs = "field `" +:+ leafFieldName p +:+ "` is at `" +:+ correct +:+ "`, not `" +:+ p +:+ "`".
Proof.
  induction refs as [|p refs IH]; [done|]. cbn [first_hint].
  destruct (negb _ && negb _ && negb _) eqn:E.
  - intros _. rewrite !andb_true_iff, !negb_true_iff, !String.eqb_neq in E. destruct E as [[E1 E2] E3].
    exists p, (findFieldPath root (leafFieldName p)). split_and!; [by left|done|done| |done].
    by apply find_field_path_unique.
  - intros Hne. destruct (IH Hne) as (q & c & Hq & Hrest). exists q, c. split; [by right|done].
Qed.

(** Where a hint points: a hint at another place for a failed expression is
    given only against real data, and only when the last field of one of the
    paths in the message has exactly one place in that data, a different one:
    the place it names. (The walk that stops at the second hit decides what a
    full search would.) *)
Theorem hint_names_only_place (portDataNode : json) (real : bool) (first : string) (rest : string) :
  expression_verdict portDataNode real first = ErrorString ("expression error: " +:+ first +:+ " — " +:+ rest) ->
  rest <> "" ->
  real = true /\ exists p correct, p ∈ path_refs 0 first /\ correct <> p /\
    occurrences (leafFieldName p) portDataNode "" = [correct] /\
    rest = "field `" +:+ leafFieldName p +:+ "` is at `" +:+ correct +:+ "`, not `" +:+ p +:+ "`".
Proof.
  unfold expression_verdict. intros Hv Hne.
  assert (Hlen : forall a, a <> a +:+ " — " +:+ rest).
  { intros a E. apply (f_equal String.length) in E. rewrite !str_length_app in E.
    change (String.length " — ") with 5 in E. lia. }
  destruct (negb _) eqn:Eh.
  - injection Hv as Hv. rewrite !str_app_nil_l in Hv.
    apply str_app_inj_l in Hv. apply str_app_inj_l in Hv. destruct real; [|done]. split; [done|].
    destruct (first_hint_spec portDataNode (path_refs 0 first)) as (p & c & Hp & _ & Hc & Ho & E).
    + apply negb_true_iff, String.eqb_neq in Eh. exact Eh.
    + exists p, c. split_and!; [done..|]. unfold pathHint in Hv. by rewrite <- Hv, E.
  - destruct (isUnverifiableEvalError first); [done|]. injection Hv as Hv. exfalso. by apply (Hlen first).
Qed.

Lemma hint_names_only_place_witness :
  let data := JObj [("context", JObj [("realIP", JStr "10.0.0.1")]); ("status", JNum "200")] in
  let first := "{{$.realIP}}: key not found" in
  let rest := "field `realIP` is at `$.context.realIP`, not `$.realIP`" in
  expression_verdict data true first = ErrorString ("expression error: " +:+ first +:+ " — " +:+ rest) /\
  occurrences "realIP" data "" = ["$.context.realIP"].
Proof.
  intros data first rest.
  assert (E : expression_verdict data true first = ErrorString ("expression error: " +:+ first +:+ " — " +:+ rest))
    by (vm_compute; reflexivity).
  split; [exact E|]. destruct (hint_names_only_place data true first rest E ltac:(discriminate)) as (_ & p & c & Hp & _ & Ho & Hr).
  assert (Hp' : p = "$.realIP") by (vm_compute in Hp; by apply list_elem_of_singleton in Hp).
  subst p. vm_compute. reflexivity.
Defined.

(** ** Verdicts *)

Section verdicts.
  Context `{Faker}.
  Variable sprint : json -> string.
  Variable marshal unmarshal_text : json -> result goerror string.
  Variable unmarshal : string -> result goerror json.
  Variable ajson_eval : json -> string -> result goerror json.
  Variable add_resource : string -> error.
  Variable compile : string -> result goerror Validator.

Abbreviation Validate := (ValidateEdgeSchema sprint marshal unmarshal unmarshal_text ajson_eval add_resource compile).
Abbreviation or_empty s := (if s =? "" then "{}" else s).

(** C11. What an accepted edge guarantees: an edge with a schema is accepted exactly
    when the schema compiles, the source's data is JSON, every expression of its
    configuration evaluates over that data, and the schema accepts the outcome
    with absent credentials stood for. An edge whose configuration has no
    expression gets the verdict of the schema on the configuration itself,
    whatever the source's data is. *)
Theorem accepted_edge_meaning (schema data : json) (conf : string) (real : bool) :
  (Validate (Some schema) data conf real = None <->
   exists text validate bytes node out,
     unmarshal_text schema = Ok text /\ add_resource (or_empty text) = None /\ compile (or_empty text) = Ok validate /\
     marshal data = Ok bytes /\ unmarshal bytes = Ok node /\
     Eval (eval_over ajson_eval node) sprint unmarshal (or_empty conf) = Ok (out, []) /\
     validate (placeholderForAbsentSecrets out) = None) /\
  (forall text validate bytes node m,
     unmarshal_text schema = Ok text -> add_resource (or_empty text) = None -> compile (or_empty text) = Ok validate ->
     marshal data = Ok bytes -> unmarshal bytes = Ok node ->
     unmarshal (or_empty conf) = Ok (JObj m) -> no_exprs (JObj m) = true ->
     Validate (Some schema) data conf real = schema_verdict (validate (placeholderForAbsentSecrets (JObj m)))).
Proof.
  split; [split|].
  - unfold ValidateEdgeSchema. destruct (unmarshal_text schema) as [text|e]; [|done]. cbv zeta.
    destruct (add_resource _) eqn:Ea; [done|]. destruct (compile _) as [validate|e] eqn:Ec; [|done].
    destruct (marshal data) as [bytes|e]; [|done]. destruct (unmarshal bytes) as [node|e] eqn:Eu; [|done].
    destruct (Eval _ _ _ _) as [[out [|e errs]]|e] eqn:Ee; [|done..].
    intros Hv. exists text, validate, bytes, node, out. split_and!; try done.
    by destruct (validate _) as [[]|].
  - intros (text & validate & bytes & node & out & E1 & E2 & E3 & E4 & E5 & E6 & E7).
    unfold ValidateEdgeSchema. rewrite E1. cbv zeta. by rewrite E2, E3, E4, E5, E6, E7.
  - intros text validate bytes node m E1 E2 E3 E4 E5 E6 E7.
    unfold ValidateEdgeSchema. rewrite E1. cbv zeta. rewrite E2, E3, E4, E5.
    unfold Eval. rewrite E6. by rewrite (calculate_no_exprs _ _ (JObj m) E7).
Qed.
End verdicts.

(** An edge that maps a constant and a missing token. *)
Lemma accepted_edge_meaning_witness :
  let parse s := if s =? "conf" then Ok (JObj [("token", JNull); ("n", JNum "1")]) else Ok JNull in
  let accepts v := match v with
                   | JObj [("token", JStr _); ("n", JNum _)] => None
                   | _ => Some (inl (mkVErr "" "/token" "expected string, but got null" []))
                   end in
  ValidateEdgeSchema (fun _ => "") (fun _ => Ok "data") parse (fun _ => Ok "schema")
    (fun _ _ => Err (ErrorString "no")) (fun _ => None) (fun _ => Ok accepts) (Some JNull) JNull "conf" false = None.
Proof.
  intros parse accepts.
  refine (eq_trans (proj2 (accepted_edge_meaning (fun _ => "") (fun _ => Ok "data") (fun _ => Ok "schema") parse
    (fun _ _ => Err (ErrorString "no")) (fun _ => None) (fun _ => Ok accepts) JNull JNull "conf" false)
    "schema" accepts "data" JNull [("token", JNull); ("n", JNum "1")] _ _ _ _ _ _ _) _); reflexivity.
Defined.

(** What a verdict may hide: an edge is called unverifiable exactly when the
    first leaf of the validator's report mentions a null, so a null that comes
    first turns every other defect of the edge, whatever it is, into a warning;
    and a value where the schema expects null is called a gap of the simulation
    too. *)
Theorem verdict_hides_defects (k i m k1 i1 m1 : string) (rest : list ValidationError) :
  IsUnverifiable (schema_verdict (Some (inl (mkVErr k i m (mkVErr k1 i1 m1 [] :: rest))))) =
    (go_contains (go_to_lower m1) "got null" ||
     (go_contains (go_to_lower m1) "expected" && go_contains (go_to_lower m1) "null")) /\
  IsUnverifiable (schema_verdict (Some (inl (mkVErr k i "expected null, but got string" [])))) = true.
Proof.
  split; [|reflexivity]. cbn [schema_verdict]. unfold isUnverifiableSchemaError. cbn [leaf Message]. cbv zeta.
  destruct (_ || _) eqn:E; [reflexivity|].
  unfold formatValidationError. cbn [leaf]. cbv zeta.
  assert (Ht : forall a b c, (a +:+ ": " +:+ b) +:+ c = error_text ErrEdgeUnverifiable -> False).
  { intros a b c Hc. apply (f_equal (str_has ":")) in Hc. rewrite !str_has_app in Hc.
    change (str_has ":" ": ") with true in Hc. change (str_has ":" (error_text ErrEdgeUnverifiable)) with false in Hc.
    destruct (str_has ":" a); discriminate. }
  assert (Hn : forall a b, (a +:+ ": " +:+ b =? error_text ErrEdgeUnverifiable) = false).
  { intros a b. apply String.eqb_neq. intros Hc. apply (Ht a b ""). by rewrite str_app_nil_r. }
  destruct (negb _); cbn [IsUnverifiable chain existsb]; rewrite orb_false_r.
  - apply (Hn _ ("does not match linked " +:+ _)).
  - apply Hn.
Qed.

(** ** Property names *)

Section keys.
  Context `{MapRange unit}.

Lemma target_keys (props : list (string * json)) (k : string) :
  is_Some ((list_to_map (map (fun kv => (kv.1, tt)) props) : gmap string unit) !! k) <-> k ∈ props.*1.
Proof.
  rewrite <- not_eq_None_Some, <- not_elem_of_list_to_map.
  assert (E : (map (fun kv : string * json => (kv.1, tt)) props).*1 = props.*1)
    by (induction props as [|kv l IH]; [done|]; cbn; f_equal; exact IH).
  rewrite E. split; [by intros Hn%dec_stable|by intros Hk Hn].
Qed.

Lemma close_match_spec (props : list (string * json)) (key c : string) :
  close_match (list_to_map (map (fun kv => (kv.1, tt)) props)) key = c -> c <> "" ->
  c ∈ props.*1 /\ go_to_lower c = go_to_lower key.
Proof.
  unfold close_match. destruct (List.find _ _) as [[k u]|] eqn:E; [|by intros <-]. intros -> _.
  apply find_some in E as [Hin Hl%String.eqb_eq]. split; [|done].
  apply target_keys. exists u. apply elem_of_map_to_list. rewrite <- map_range_perm. by apply list_elem_of_In.
Qed.

Lemma close_match_found (props : list (string * json)) (key c : string) :
  c ∈ props.*1 -> go_to_lower c = go_to_lower key ->
  go_to_lower (close_match (list_to_map (map (fun kv => (kv.1, tt)) props)) key) = go_to_lower key.
Proof.
  intros Hc Hl. unfold close_match. destruct (List.find _ _) as [[k u]|] eqn:E.
  - apply find_some in E as [_ E%String.eqb_eq]. exact E.
  - apply target_keys in Hc as [u Hu]. apply elem_of_map_to_list in Hu. rewrite <- map_range_perm in Hu.
    apply list_elem_of_In in Hu. apply (find_none _ _ E) in Hu. cbn [fst] in Hu. by rewrite Hl, String.eqb_refl in Hu.
Qed.

(** Which properties are reported as lost: exactly those of a definition that
    both schemas have (with properties in both) that the target's does not name;
    a name suggested for one is a property of the target that differs at most in
    letter case, and one is suggested whenever such a property is there. *)
Theorem cross_validate_exact (edgeSchema targetPortSchema : json) (d k : string) :
  ((exists e, mkMismatch d k e ∈ CrossValidateEdgeSchemaKeys edgeSchema targetPortSchema) <->
   (exists edgeDefs targetDefs def edgeProps targetProps x,
      member_obj "$defs" edgeSchema = Some edgeDefs /\ member_obj "$defs" targetPortSchema = Some targetDefs /\
      (d, def) ∈ edgeDefs /\ member_obj "properties" def = Some edgeProps /\
      def_props targetDefs d = Some targetProps /\
      (k, x) ∈ edgeProps /\ k ∉ targetProps.*1)) /\
  (forall e, mkMismatch d k e ∈ CrossValidateEdgeSchemaKeys edgeSchema targetPortSchema ->
   exists targetDefs targetProps, member_obj "$defs" targetPortSchema = Some targetDefs /\ def_props targetDefs d = Some targetProps /\
     (e <> "" -> e ∈ targetProps.*1 /\ go_to_lower e = go_to_lower k) /\
     (forall c, c ∈ targetProps.*1 -> go_to_lower c = go_to_lower k -> go_to_lower e = go_to_lower k)).
Proof.
  unfold CrossValidateEdgeSchemaKeys.
  assert (Hin : forall e ed td, mkMismatch d k e ∈ flat_map (def_mismatches td) ed ->
    exists def ep tp x, (d, def) ∈ ed /\ member_obj "properties" def = Some ep /\
      def_props td d = Some tp /\ (k, x) ∈ ep /\ k ∉ tp.*1 /\
      e = close_match (list_to_map (map (fun kv => (kv.1, tt)) tp)) k).
  { intros e ed td ([d' def] & Hd%list_elem_of_In & He%list_elem_of_In)%list_elem_of_In%in_flat_map.
    unfold def_mismatches in He. cbn [fst snd] in He.
    destruct (member_obj "properties" def) as [ep|] eqn:Ep; [|by apply not_elem_of_nil in He].
    destruct (def_props td d') as [tp|] eqn:Et; [|by apply not_elem_of_nil in He].
    apply list_elem_of_omap in He as ([k' x] & Hk & Hm). cbn [fst] in Hm.
    destruct (_ !! k') eqn:El; [done|]. injection Hm as -> -> <-.
    exists def, ep, tp, x. split_and!; try done. intros Hin. apply target_keys in Hin as [u Hu]. congruence. }
  split; [split|].
  - intros [e He]. destruct (member_obj "$defs" edgeSchema) as [ed|]; [|by apply not_elem_of_nil in He].
    destruct (member_obj "$defs" targetPortSchema) as [td|]; [|by apply not_elem_of_nil in He].
    destruct (Hin _ _ _ He) as (def & ep & tp & x & Hs). exists ed, td, def, ep, tp, x. naive_solver.
  - intros (ed & td & def & ep & tp & x & -> & -> & Hd & Ep & Et & Hk & Hn).
    eexists. apply list_elem_of_In, in_flat_map. exists (d, def). split; [by apply list_elem_of_In|].
    apply list_elem_of_In. unfold def_mismatches. cbn [fst snd]. rewrite Ep, Et.
    apply list_elem_of_omap. exists (k, x). split; [done|]. cbn [fst].
    destruct (_ !! k) as [u|] eqn:El; [|reflexivity]. exfalso. apply Hn, target_keys. by eexists.
  - intros e He. destruct (member_obj "$defs" edgeSchema) as [ed|]; [|by apply not_elem_of_nil in He].
    destruct (member_obj "$defs" targetPortSchema) as [td|]; [|by apply not_elem_of_nil in He].
    destruct (Hin _ _ _ He) as (def & ep & tp & x & _ & _ & Et & _ & _ & ->). exists td, tp.
    split_and!; [done|exact Et|intros Hne; by apply (close_match_spec _ _ _ eq_refl)|].
    intros c Hc Hl. by apply (close_match_found tp k c).
Qed.
End keys.

Lemma cross_validate_exact_witness :
  let def props := JObj [("$defs", JObj [("Condition", JObj [("properties", JObj props)])])] in
  let edge := def [("RouteName", JNull); ("Route", JNull); ("value", JNull)] in
  let target := def [("route", JNull); ("value", JNull)] in
  @CrossValidateEdgeSchemaKeys (map_range_some_order unit) edge target =
    [mkMismatch "Condition" "RouteName" ""; mkMismatch "Condition" "Route" "route"] /\
  exists e, mkMismatch "Condition" "Route" e ∈ @CrossValidateEdgeSchemaKeys (map_range_some_order unit) edge target.
Proof.
  intros def edge target. split; [vm_compute; reflexivity|].
  apply (@cross_validate_exact (map_range_some_order unit) edge target "Condition" "Route").
  exists [("Condition", JObj [("properties", JObj [("RouteName", JNull); ("Route", JNull); ("value", JNull)])])],
    [("Condition", JObj [("properties", JObj [("route", JNull); ("value", JNull)])])],
    (JObj [("properties", JObj [("RouteName", JNull); ("Route", JNull); ("value", JNull)])]),
    [("RouteName", JNull); ("Route", JNull); ("value", JNull)], [("route", JNull); ("value", JNull)], JNull.
  split_and!; try reflexivity; [left|right; left|].
  apply (bool_decide_unpack _). vm_compute. exact I.
Defined.

(** ** Settings *)

(** A required, configurable setting without content is reported, and nothing
    else is: plain scalars, a context, and deliberate zeros are not. *)
Lemma settings_issues_exact (unmarshal_map : string -> option (list (string * json)))
    (settingsSchema settingsConfig issue : string) (schema : list (string * json)) :
  settingsSchema <> "" -> unmarshal_map settingsSchema = Some schema ->
  let '(props, required) := settingsShape schema in
  let config := if settingsConfig =? "" then [] else default [] (unmarshal_map settingsConfig) in
  issue ∈ SettingsIssues unmarshal_map settingsSchema settingsConfig <->
  exists name prop, name ∈ required /\ equal_fold name "context" = false /\
    fld props name = JObj prop /\
    isConfigurable (default prop (resolveLocalRef schema (stringField prop "$ref"))) = true /\
    isBlankValue (fld config name) = true /\
    setting_issue schema props config name = Some issue.
Proof.
  intros Hne Hu. unfold SettingsIssues. apply String.eqb_neq in Hne. rewrite Hne, Hu.
  destruct (settingsShape schema) as [props required].
  set (config := if settingsConfig =? "" then [] else _).
  assert (Hi : issue ∈ omap (setting_issue schema props config) required <->
    exists name prop, name ∈ required /\ equal_fold name "context" = false /\ fld props name = JObj prop /\
      isConfigurable (default prop (resolveLocalRef schema (stringField prop "$ref"))) = true /\
      isBlankValue (fld config name) = true /\ setting_issue schema props config name = Some issue).
  { rewrite list_elem_of_omap. split; [|intros (name & prop & Hin & _ & _ & _ & _ & E); by exists name].
    intros (name & Hin & E). assert (E0 := E). unfold setting_issue in E.
    destruct (equal_fold name "context") eqn:Ec; [done|].
    destruct (fld props name) as [| | | | |prop] eqn:Ep; try done. cbn [as_obj] in E.
    destruct (isConfigurable _) eqn:Ei; [|done]. destruct (isBlankValue _) eqn:Eb; [|done].
    by exists name, prop. }
  destruct props as [|p ps]; [|destruct required; [|exact Hi]].
  - split; [intros Hx; by apply not_elem_of_nil in Hx|]. intros (name & prop & _ & _ & Hp & _). done.
  - split; [intros Hx; by apply not_elem_of_nil in Hx|]. intros (name & prop & Hx & _). by apply not_elem_of_nil in Hx.
Qed.
