(* ===== verification/FlowMaps.v ===== *)
(** * The maps of a flow

    [GetFlowMaps] of [pkg/utils/nodes.go]: the schema of every port of a flow,
    with the definitions of a node's ports made one: enriched by what the
    settings and the edges of the node declare, and copied from its input ports
    to its output ports. The functions of [edge_validation.go] and
    [portinspect.go] that start from a map of nodes are composed from it.

    A parsed schema is a tree of shared nodes in [ajson]: the definitions of a
    port's schema are also reached through the maps of definitions, and are
    updated in place. They live in a heap here; a port's schema refers to them.
    Loops over the definitions of one schema touch each definition by itself,
    so their order does not matter and is the listed one. *)
From S2P Require Import Prelude GoErrors Names Graph Json Schema Elements Generator GraphExport Simulation EdgeValidation.

Open Scope string_scope.
Open Scope list_scope.

(** ** Schemas with shared definitions *)

Abbreviation Defs := (gmap nat json).

(** A parsed schema: one with an object of definitions refers to them. *)
Inductive Doc : Type :=
| Plain (v : json)
| WithDefs (root : list (string * json)) (defs : list (string * nat)).

Definition node_at (h : Defs) (r : nat) : json := default JNull (h !! r).

Definition alloc (h : Defs) (v : json) : Defs * nat := let r := fresh (dom h) in (<[r := v]> h, r).

Fixpoint alloc_defs (h : Defs) (ds : list (string * json)) : Defs * list (string * nat) :=
  match ds with
  | [] => (h, [])
  | (k, v) :: ds' =>
      let '(h, r) := alloc h v in
      let '(h, rs) := alloc_defs h ds' in
      (h, (k, r) :: rs)
  end.

Definition load (h : Defs) (v : json) : Defs * Doc :=
  match v with
  | JObj m => match obj_get "$defs" m with
              | Some (JObj ds) => let '(h, rs) := alloc_defs h ds in (h, WithDefs m rs)
              | _ => (h, Plain v)
              end
  | _ => (h, Plain v)
  end.

(** The schema a port has in the end. *)
Definition read (h : Defs) (d : Doc) : json :=
  match d with
  | Plain v => v
  | WithDefs m rs => JObj (obj_set "$defs" (JObj (map (fun kr => (kr.1, node_at h kr.2)) rs)) m)
  end.

Definition doc_defs (d : Doc) : list (string * nat) := match d with Plain _ => [] | WithDefs _ rs => rs end.

(** [AppendObject] of the annotation; without effect on what is not an object. *)
Definition set_port (port : string) (v : json) : json := default v (SetStr "port" port v).

Definition tagged (v : json) : bool := FilterConfigurable v || FilterShared v.

(** The annotation of the definition that is replaced is carried over. *)
Definition carry_port (existing v : json) : json :=
  match GetKey existing "port" with
  | Some (JStr port) => if port =? "" then v else set_port port v
  | _ => v
  end.

(** The properties the existing definition lacks. *)
Definition merge_properties (existing ev : json) : json :=
  match existing, member_obj "properties" existing, member_obj "properties" ev with
  | JObj m, Some exProps, Some evProps =>
      JObj (obj_set "properties" (JObj (fold_left add_missing evProps exProps)) m)
  | _, _, _ => existing
  end.

(** A definition declared in the schema of a port's settings. *)
Definition enrich_def (st : Defs * gmap string nat) (d : string * json) : Defs * gmap string nat :=
  let '(h, targets) := st in
  match targets !! d.1 with
  | None => st
  | Some existing =>
      if negb (HasProperties d.2) || HasProperties (node_at h existing) then st
      else
        let sv := carry_port (node_at h existing) d.2 in
        let h := <[existing := sv]> h in
        let '(h, r) := alloc h sv in
        (h, <[d.1 := r]> targets)
  end.

(** A definition declared in the schema of an edge. *)
Definition edge_def (portID : string) (st : Defs * gmap string nat) (d : string * json) : Defs * gmap string nat :=
  let '(h, targets) := st in
  match targets !! d.1 with
  | None =>
      let '(h, r) := alloc h (if tagged d.2 then set_port portID d.2 else d.2) in
      (h, <[d.1 := r]> targets)
  | Some existing =>
      let ex := node_at h existing in
      if HasProperties d.2 then
        if HasProperties ex then (<[existing := merge_properties ex d.2]> h, targets)
        else let '(h, r) := alloc h (carry_port ex d.2) in (h, <[d.1 := r]> targets)
      else st
  end.

(** A definition of an input port's own schema. *)
Definition own_def (port : TinyNodePortStatus) (portID : string) (st : Defs * gmap string nat * gmap string nat)
    (kr : string * nat) : Defs * gmap string nat * gmap string nat :=
  let '(h, targets, settings) := st in
  let v := node_at h kr.2 in
  (if tagged v then <[kr.2 := set_port portID v]> h else h,
   <[kr.1 := kr.2]> targets,
   if ps_Name port =? SettingsPort then <[kr.1 := kr.2]> settings else settings).

Section flow_maps.
  Variable unmarshal : string -> result goerror json.              (* ajson *)

Definition has_ref (v : json) : bool := match GetKey v "$ref" with Some _ => true | None => false end.

(** *** One node *)

Record MapsState := mkMaps {
  ms_heap : Defs;
  ms_schemas : gmap string Doc;
}.

Definition set_schema (st : MapsState) (portID : string) (s : json) : MapsState * Doc :=
  let '(h, d) := load (ms_heap st) s in (mkMaps h (<[portID := d]> (ms_schemas st)), d).

(** The schemas of the statuses, and complete ones of the settings. *)
Definition status_schema (node : GraphNode) (st : MapsState) (np : TinyNodePortStatus) : MapsState :=
  match unmarshal (ps_Schema np) with
  | Err _ => st
  | Ok s => (set_schema st (GetPortFullName (gn_name node) (ps_Name np)) s).1
  end.

Definition settings_schema (node : GraphNode) (st : MapsState) (pc : TinyNodePortConfig) : MapsState :=
  if negb (pc_From pc =? "") || (pc_Schema pc =? "") then st
  else match unmarshal (pc_Schema pc) with
       | Ok s => if has_ref s then (set_schema st (GetPortFullName (gn_name node) (pc_Port pc)) s).1 else st
       | Err _ => st
       end.

(** The configuration of a port by itself, or of the edges into it. *)
Definition own_config (port : string) (pc : TinyNodePortConfig) : bool :=
  (pc_From pc =? "") && (pc_Port pc =? port) && negb (pc_Schema pc =? "").
Definition incoming_config (port : string) (pc : TinyNodePortConfig) : bool :=
  negb (pc_From pc =? "") && (pc_Port pc =? port) && negb (pc_Schema pc =? "").

Definition schema_bytes (node : GraphNode) (port : TinyNodePortStatus) : string :=
  match List.find (own_config (ps_Name port)) (gn_ports node) with
  | Some pc => match unmarshal (pc_Schema pc) with
               | Ok s => if has_ref s then pc_Schema pc else ps_Schema port
               | Err _ => ps_Schema port
               end
  | None => ps_Schema port
  end.

Definition schema_defs (s : json) : list (string * json) := default [] (member_obj "$defs" s).

Definition enrich_from_settings (node : GraphNode) (port : TinyNodePortStatus) (st : Defs * gmap string nat)
    : Defs * gmap string nat :=
  match List.find (own_config (ps_Name port)) (gn_ports node) with
  | Some pc => match unmarshal (pc_Schema pc) with
               | Ok s => if has_ref s then st else fold_left enrich_def (schema_defs s) st
               | Err _ => st
               end
  | None => st
  end.

Definition enrich_from_edges (node : GraphNode) (port : TinyNodePortStatus) (portID : string)
    (st : Defs * gmap string nat) : Defs * gmap string nat :=
  fold_left (fun st pc =>
    match unmarshal (pc_Schema pc) with
    | Ok s => fold_left (edge_def portID) (schema_defs s) st
    | Err _ => st
    end) (List.filter (incoming_config (ps_Name port)) (gn_ports node)) st.

Definition collect_port (node : GraphNode) (acc : MapsState * gmap string nat * gmap string nat)
    (port : TinyNodePortStatus) : MapsState * gmap string nat * gmap string nat :=
  let '(st, targets, settings) := acc in
  let bytes := schema_bytes node port in
  if bytes =? "" then acc
  else match unmarshal bytes with
       | Err _ => acc
       | Ok s =>
           let portID := GetPortFullName (gn_name node) (ps_Name port) in
           let '(st, d) := set_schema st portID s in
           if ps_Source port then (st, targets, settings)
           else match d with
                | Plain _ => (st, targets, settings)
                | WithDefs _ rs =>
                    let '(h, targets, settings) := fold_left (own_def port portID) rs (ms_heap st, targets, settings) in
                    let '(h, targets) := enrich_from_settings node port (h, targets) in
                    let '(h, targets) := enrich_from_edges node port portID (h, targets) in
                    (mkMaps h (ms_schemas st), targets, settings)
                end
       end.

(** [v.SetNode(replace)] for the definitions of a port that the map has. *)
Definition replace_def (replaceMap : gmap string nat) (h : Defs) (kr : string * nat) : Defs :=
  match replaceMap !! kr.1 with
  | Some replace => <[kr.2 := node_at h replace]> h
  | None => h
  end.

Definition replacePortDefs (node : GraphNode) (schemas : gmap string Doc) (replaceMap : gmap string nat)
    (ports : list TinyNodePortStatus) (h : Defs) : Defs :=
  fold_left (fun h port =>
    match schemas !! GetPortFullName (gn_name node) (ps_Name port) with
    | Some d => fold_left (replace_def replaceMap) (doc_defs d) h
    | None => h
    end) ports h.

Definition node_maps (targetPortsMap : gset string) (st : MapsState) (node : GraphNode) : MapsState :=
  let ports := st_Ports (gn_status node) in
  let st := fold_left (status_schema node) ports st in
  let st := fold_left (settings_schema node) (gn_ports node) st in
  let '(st, targets, settings) := fold_left (collect_port node) ports (st, ∅, ∅) in
  let is_target port := bool_decide (GetPortFullName (gn_name node) (ps_Name port) ∈ targetPortsMap) in
  let targetPorts := List.filter is_target ports in
  let sourcePorts := List.filter (fun port => negb (is_target port)) ports in
  let h := replacePortDefs node (ms_schemas st) settings targetPorts (ms_heap st) in
  let h := replacePortDefs node (ms_schemas st) targets targetPorts h in
  let h := replacePortDefs node (ms_schemas st) targets sourcePorts h in
  mkMaps h (ms_schemas st).

Definition maps_of (nodes : list GraphNode) : MapsState :=
  fold_left (node_maps (target_ports nodes)) nodes (mkMaps ∅ ∅).

Record FlowMaps := mkFlowMaps {
  portStatusSchemaMap : gmap string string;
  portConfigMap : gmap string (list TinyNodePortConfig);
  destinationsMap : gmap string (list Destination);
  portSchemaMap : gmap string json;
  targetPortsMap : gset string;
}.

Definition GetFlowMaps (nodesMap : gmap string GraphNode) : FlowMaps :=
  let nodes := sorted_nodes nodesMap in
  let configs := port_configs_by (fun _ => true) nodes in
  let st := maps_of nodes in
  mkFlowMaps (port_status_schemas nodes) configs (destinations configs nodes)
    (read (ms_heap st) <$> ms_schemas st) (target_ports nodes).

End flow_maps.

(** ** Simulation and validation over a map of nodes *)

Section over_nodes.
  Context `{Faker} `{MapRange GraphNode}.
  Variable key_error : json -> string -> goerror.
  Variable show : json -> string.
  Variable sprint : json -> string.
  Variable marshal : json -> result goerror string.                (* goccy/go-json *)
  Variable json_unmarshal : string -> result goerror json.         (* goccy/go-json *)
  Variable unmarshal : string -> result goerror json.              (* ajson *)
  Variable ajson_marshal : json -> result goerror string.          (* ajson *)
  Variable ajson_eval : json -> string -> result goerror json.     (* ajson.Eval, and Unpack *)
  Variable add_resource : string -> error.                         (* jsonschema *)
  Variable compile : string -> result goerror Validator.           (* jsonschema *)
  Variable ctx_err : nat -> error.
  Variables gfuel fuel : nat.
  Variable nodesMap : gmap string GraphNode.
  Variable runtimeData : option (gmap string string).

Definition examples : option (gmap string string) := Some (GetPortExampleMap nodesMap).

Definition SimulatePortData (inspectPortFullName : string) : option (result goerror json) :=
  let maps := GetFlowMaps unmarshal nodesMap in
  port_data key_error show sprint marshal json_unmarshal unmarshal ajson_eval ctx_err gfuel fuel
    (portSchemaMap maps) (destinationsMap maps) runtimeData examples inspectPortFullName.

Definition validate_from (schema : option json) (sourcePortFullName edgeConfiguration : string) : option error :=
  let maps := GetFlowMaps unmarshal nodesMap in
  validate_simulated key_error show sprint marshal json_unmarshal unmarshal ajson_marshal ajson_eval add_resource
    compile ctx_err gfuel fuel (portSchemaMap maps) (destinationsMap maps) runtimeData examples
    schema sourcePortFullName edgeConfiguration.

Definition ValidateEdgeWithSchemaAndRuntimeData (sourcePortFullName edgeConfiguration edgeSchemaBytes : string)
    : option error :=
  if edgeSchemaBytes =? "" then Some None
  else match unmarshal edgeSchemaBytes with
       | Err e => Some (Some (ErrorString ("invalid edge schema: " +:+ error_text e)))
       | Ok edgeSchema => validate_from (Some edgeSchema) sourcePortFullName edgeConfiguration
       end.

Definition ValidateEdgeWithRuntimeData (sourcePortFullName targetPortFullName edgeConfiguration : string)
    : option error :=
  match portSchemaMap (GetFlowMaps unmarshal nodesMap) !! targetPortFullName with
  | None => Some None
  | Some targetPortSchema => validate_from (Some targetPortSchema) sourcePortFullName edgeConfiguration
  end.

End over_nodes.
