(* ===== verification/FlowMapsSpec.v ===== *)
(** * Theorems on the maps of a flow

    The definitions of a node's ports are made one: whatever an input port of a
    node defines, every port of the node that has a definition of that name has
    the same one in the end. *)
From S2P Require Import Prelude GoErrors Names Graph Json Schema Elements Generator GraphExport Simulation EdgeValidation FlowMaps.

Open Scope string_scope.
Open Scope list_scope.

(** ** The heap's references and their definitions *)

(** Every reference belongs to one node and is a definition of one name. *)
Abbreviation Labels := (gmap nat (string * string)).

Definition labels_heap (lab : Labels) (h : Defs) : Prop := dom lab = dom h.

(** The references of a schema: those of the node its port belongs to. *)
Definition doc_labelled (lab : Labels) (owner : string) (d : Doc) : Prop :=
  forall k r, (k, r) ∈ doc_defs d -> lab !! r = Some (owner, k).

Definition map_labelled (lab : Labels) (owner : string) (m : gmap string nat) : Prop :=
  forall k r, m !! k = Some r -> lab !! r = Some (owner, k).

Lemma alloc_fresh (h : Defs) (v : json) (h' : Defs) (r : nat) :
  alloc h v = (h', r) -> h' = <[r := v]> h /\ r ∉ dom h.
Proof. intros [= <- <-]. split; [done|apply is_fresh]. Qed.

Lemma alloc_labelled (lab : Labels) (h h' : Defs) (v : json) (r : nat) (o k : string) :
  labels_heap lab h -> alloc h v = (h', r) ->
  labels_heap (<[r := (o, k)]> lab) h' /\ lab ⊆ <[r := (o, k)]> lab.
Proof.
  intros Hl Ha. apply alloc_fresh in Ha as [-> Hr]. split.
  - unfold labels_heap. rewrite !dom_insert_L. by rewrite Hl.
  - apply insert_subseteq. apply not_elem_of_dom. by rewrite Hl.
Qed.

Lemma alloc_defs_labelled (o : string) (ds : list (string * json)) :
  forall lab h h' rs, labels_heap lab h -> alloc_defs h ds = (h', rs) ->
  exists lab', labels_heap lab' h' /\ lab ⊆ lab' /\ (forall k r, (k, r) ∈ rs -> lab' !! r = Some (o, k)) /\
    (forall r, r ∈ dom h -> h' !! r = h !! r).
Proof.
  induction ds as [|[k v] ds IH]; intros lab h h' rs Hl; cbn [alloc_defs].
  { intros [= <- <-]. exists lab. split_and!; [done|done| |done]. intros k r Hr. by apply not_elem_of_nil in Hr. }
  destruct (alloc h v) as [h1 r1] eqn:Ea. destruct (alloc_defs h1 ds) as [h2 rs2] eqn:Eb. intros [= <- <-].
  destruct (alloc_labelled lab h h1 v r1 o k Hl Ea) as [Hl1 Hsub1].
  destruct (IH _ _ _ _ Hl1 Eb) as (lab' & Hl' & Hsub & Hrs & Hold).
  apply alloc_fresh in Ea as [-> Hr1]. exists lab'. split_and!; [done|by etrans| |].
  - intros k' r' [[= -> ->]|Hin]%elem_of_cons; [|by apply Hrs].
    eapply lookup_weaken; [apply lookup_insert_eq|done].
  - intros r Hr. rewrite Hold by set_solver. apply lookup_insert_ne. by intros <-.
Qed.

(** What the processing of a node does to the heap: it adds references of its
    own, and leaves those of other nodes as they are. *)
Record Step (o : string) (lab lab' : Labels) (h h' : Defs) : Prop := mkStep {
  step_heap : labels_heap lab' h';
  step_sub : lab ⊆ lab';
  step_frame : forall r o' k, lab !! r = Some (o', k) -> o' <> o -> h' !! r = h !! r;
}.

Lemma step_refl (o : string) (lab : Labels) (h : Defs) : labels_heap lab h -> Step o lab lab h h.
Proof. by split. Qed.

Lemma step_trans (o : string) (l1 l2 l3 : Labels) (h1 h2 h3 : Defs) :
  Step o l1 l2 h1 h2 -> Step o l2 l3 h2 h3 -> Step o l1 l3 h1 h3.
Proof.
  intros [A1 A2 A3] [B1 B2 B3]. split; [done|by etrans|]. intros r o' k Hr Ho.
  rewrite (B3 r o' k) by (done || by eapply lookup_weaken). by eapply A3.
Qed.

Lemma step_alloc (o k : string) (lab : Labels) (h h' : Defs) (v : json) (r : nat) :
  labels_heap lab h -> alloc h v = (h', r) -> Step o lab (<[r := (o, k)]> lab) h h'.
Proof.
  intros Hl Ha. destruct (alloc_labelled lab h h' v r o k Hl Ha) as [Hl' Hs]. split; [done..|].
  apply alloc_fresh in Ha as [-> Hr]. intros r' o' k' Hr' _. apply lookup_insert_ne. intros <-.
  apply Hr. rewrite <- Hl. by apply elem_of_dom.
Qed.

Lemma step_update (o k : string) (lab : Labels) (h : Defs) (v : json) (r : nat) :
  labels_heap lab h -> lab !! r = Some (o, k) -> Step o lab lab h (<[r := v]> h).
Proof.
  intros Hl Hr. split; [|done|].
  - unfold labels_heap. rewrite dom_insert_L, Hl.
    assert (r ∈ dom h) by (rewrite <- Hl; by apply elem_of_dom). set_solver.
  - intros r' o' k' Hr' Ho. apply lookup_insert_ne. intros <-. rewrite Hr in Hr'. congruence.
Qed.

Lemma map_labelled_insert (lab : Labels) (o k : string) (m : gmap string nat) (r : nat) :
  map_labelled lab o m -> lab !! r = Some (o, k) -> map_labelled lab o (<[k := r]> m).
Proof. intros Hm Hr k' r' [[<- <-]|[_ H']]%lookup_insert_Some; [done|by apply Hm]. Qed.

Lemma map_labelled_mono (lab lab' : Labels) (o : string) (m : gmap string nat) :
  lab ⊆ lab' -> map_labelled lab o m -> map_labelled lab' o m.
Proof. intros Hs Hm k r Hr. eapply lookup_weaken; [by apply Hm|done]. Qed.

Lemma doc_labelled_mono (lab lab' : Labels) (o : string) (d : Doc) :
  lab ⊆ lab' -> doc_labelled lab o d -> doc_labelled lab' o d.
Proof. intros Hs Hd k r Hr. eapply lookup_weaken; [by apply Hd|done]. Qed.

(** ** The maps of definitions as they grow *)

(** A step that keeps the map of definitions on the node's references and loses
    no name. *)
Definition Grows (o : string) (lab : Labels) (st st' : Defs * gmap string nat) : Prop :=
  exists lab', Step o lab lab' st.1 st'.1 /\ map_labelled lab' o st'.2 /\ dom st.2 ⊆ dom st'.2.

Lemma grows_refl (o : string) (lab : Labels) (st : Defs * gmap string nat) :
  labels_heap lab st.1 -> map_labelled lab o st.2 -> Grows o lab st st.
Proof. intros Hl Hm. exists lab. split_and!; [by apply step_refl|done|done]. Qed.

Lemma grows_fold {A} (o : string) (f : Defs * gmap string nat -> A -> Defs * gmap string nat) (l : list A) :
  (forall lab st x, labels_heap lab st.1 -> map_labelled lab o st.2 -> Grows o lab st (f st x)) ->
  forall lab st, labels_heap lab st.1 -> map_labelled lab o st.2 -> Grows o lab st (fold_left f l st).
Proof.
  intros Hf. induction l as [|x l IH]; intros lab st Hl Hm; [by apply grows_refl|]. cbn [fold_left].
  destruct (Hf lab st x Hl Hm) as (lab1 & Hs1 & Hm1 & Hd1).
  destruct (IH lab1 (f st x)) as (lab2 & Hs2 & Hm2 & Hd2); [by apply Hs1|done|].
  exists lab2. split_and!; [by eapply step_trans|done|by etrans].
Qed.

Lemma grows_alloc (o k : string) (lab : Labels) (h : Defs) (m : gmap string nat) (v : json) :
  labels_heap lab h -> map_labelled lab o m ->
  Grows o lab (h, m) (let '(h', r) := alloc h v in (h', <[k := r]> m)).
Proof.
  intros Hl Hm. destruct (alloc h v) as [h' r] eqn:Ea. pose proof (step_alloc o k lab h h' v r Hl Ea) as Hs.
  exists (<[r := (o, k)]> lab). split_and!; [done| |simpl; set_solver].
  apply map_labelled_insert; [|apply lookup_insert_eq]. eapply map_labelled_mono; [apply Hs|done].
Qed.

Lemma enrich_def_grows (o : string) (lab : Labels) (st : Defs * gmap string nat) (d : string * json) :
  labels_heap lab st.1 -> map_labelled lab o st.2 -> Grows o lab st (enrich_def st d).
Proof.
  destruct st as [h m]. intros Hl Hm. cbn [fst snd] in *. unfold enrich_def.
  destruct (m !! d.1) as [r|] eqn:Er; [|by apply grows_refl].
  destruct (_ || _); [by apply grows_refl|].
  pose proof (step_update o d.1 lab h (carry_port (node_at h r) d.2) r Hl (Hm _ _ Er)) as Hs.
  destruct (grows_alloc o d.1 lab (<[r := carry_port (node_at h r) d.2]> h) m (carry_port (node_at h r) d.2))
    as (lab' & Hs' & Hm' & Hd'); [apply Hs|done|].
  exists lab'. cbn [fst snd] in *. split_and!; [by eapply step_trans|done|done].
Qed.

Lemma edge_def_grows (portID o : string) (lab : Labels) (st : Defs * gmap string nat) (d : string * json) :
  labels_heap lab st.1 -> map_labelled lab o st.2 -> Grows o lab st (edge_def portID st d).
Proof.
  destruct st as [h m]. intros Hl Hm. cbn [fst snd] in *. unfold edge_def.
  destruct (m !! d.1) as [r|] eqn:Er; [|by apply grows_alloc].
  destruct (HasProperties d.2); [|by apply grows_refl].
  destruct (HasProperties (node_at h r)); [|by apply grows_alloc].
  exists lab. split_and!; [|done|done]. eapply step_update; [done|by apply Hm].
Qed.

Lemma own_def_grows (port : TinyNodePortStatus) (portID o : string) (rs : list (string * nat)) :
  forall lab h m s, labels_heap lab h -> map_labelled lab o m -> map_labelled lab o s ->
  (forall k r, (k, r) ∈ rs -> lab !! r = Some (o, k)) ->
  let st := fold_left (own_def port portID) rs (h, m, s) in
  Step o lab lab h st.1.1 /\ map_labelled lab o st.1.2 /\ map_labelled lab o st.2 /\
  dom m ⊆ dom st.1.2 /\ (forall k, k ∈ rs.*1 -> k ∈ dom st.1.2).
Proof.
  induction rs as [|[k r] rs IH]; intros lab h m s Hl Hm Hs Hr.
  { cbn. split_and!; [by apply step_refl|done..|]. intros k Hk. by apply not_elem_of_nil in Hk. }
  cbn [fold_left own_def fst snd].
  assert (Hkr : lab !! r = Some (o, k)) by (apply Hr; by left).
  set (h1 := if tagged (node_at h r) then _ else h).
  assert (Hs1 : Step o lab lab h h1).
  { unfold h1. destruct (tagged _); [by eapply step_update|by apply step_refl]. }
  destruct (IH lab h1 (<[k := r]> m) (if ps_Name port =? SettingsPort then <[k := r]> s else s))
    as (A1 & A2 & A3 & A4 & A5).
  - apply Hs1.
  - by apply map_labelled_insert.
  - destruct (_ =? _); [by apply map_labelled_insert|done].
  - intros k' r' Hin. apply Hr. by right.
  - split_and!; [by eapply step_trans|done|done|set_solver|].
    intros k' [->|Hk]%elem_of_cons; [|by apply A5]. apply A4. set_solver.
Qed.

(** ** Replacing definitions *)

Lemma replace_agrees (o : string) (lab : Labels) (T : gmap string nat) (h : Defs) (k r k' r' t' : _) :
  map_labelled lab o T -> lab !! r = Some (o, k) -> lab !! r' = Some (o, k') -> T !! k' = Some t' ->
  node_at h r' = node_at h t' ->
  node_at (replace_def T h (k, r)) r' = node_at (replace_def T h (k, r)) t'.
Proof.
  intros HT Hr Hr' Ht' E. unfold replace_def. cbn [fst snd]. destruct (T !! k) as [t|] eqn:Et; [|done].
  assert (Hat : forall x, node_at (<[r := node_at h t]> h) x = if decide (x = r) then node_at h t else node_at h x).
  { intros x. unfold node_at. destruct (decide (x = r)) as [->|]; [by rewrite lookup_insert_eq|by rewrite lookup_insert_ne]. }
  rewrite !Hat. assert (Hlt : lab !! t' = Some (o, k')) by by apply HT.
  destruct (decide (r' = r)) as [->|], (decide (t' = r)) as [->|]; try done; simplify_eq; congruence.
Qed.

Lemma replace_fold (o : string) (lab : Labels) (T : gmap string nat) (l : list (string * nat)) :
  map_labelled lab o T -> (forall k r, (k, r) ∈ l -> lab !! r = Some (o, k)) ->
  forall h (done : list (string * nat)), labels_heap lab h ->
  (forall k r, (k, r) ∈ done -> lab !! r = Some (o, k)) ->
  (forall k r t, (k, r) ∈ done -> T !! k = Some t -> node_at h r = node_at h t) ->
  Step o lab lab h (fold_left (replace_def T) l h) /\
  (forall k r t, (k, r) ∈ done ++ l -> T !! k = Some t ->
     node_at (fold_left (replace_def T) l h) r = node_at (fold_left (replace_def T) l h) t).
Proof.
  intros HT. induction l as [|[k r] l IH]; intros Hlab h dn Hl Hd Hagree; cbn [fold_left].
  { rewrite app_nil_r. split; [by apply step_refl|done]. }
  assert (Hkr : lab !! r = Some (o, k)) by (apply Hlab; by left).
  assert (Hs : Step o lab lab h (replace_def T h (k, r))).
  { unfold replace_def. destruct (T !! _); [by eapply step_update|by apply step_refl]. }
  destruct (IH ltac:(intros k' r' Hin; apply Hlab; by right) (replace_def T h (k, r)) (dn ++ [(k, r)])) as [Hs' Ha'].
  - apply Hs.
  - intros k' r' [Hin|[= -> ->]%list_elem_of_singleton]%elem_of_app; [by apply Hd|done].
  - intros k' r' t' [Hin|[= -> ->]%list_elem_of_singleton]%elem_of_app Ht'.
    + eapply replace_agrees; [done|done|by apply Hd|done|by eapply Hagree].
    + unfold replace_def. cbn [fst snd]. rewrite Ht'. unfold node_at at 1. rewrite lookup_insert_eq. cbn [default].
      unfold node_at at 2. destruct (decide (t' = r)) as [->|]; [by rewrite lookup_insert_eq|by rewrite lookup_insert_ne].
  - split; [by eapply step_trans|]. intros k' r' t' Hin. apply Ha'. by rewrite <- app_assoc.
Qed.

(** ** Schemas of ports *)

Definition plain_name (n : string) : Prop := n <> "" /\ str_has ":" n = false.

Lemma full_name_inj (n n' p p' : string) :
  plain_name n -> plain_name n' -> GetPortFullName n p = GetPortFullName n' p' -> n = n' /\ p = p'.
Proof.
  intros [Hn1 Hn2] [Hn1' Hn2'] E. unfold GetPortFullName in E.
  apply String.eqb_neq in Hn1, Hn1'. rewrite Hn1, Hn1' in E. cbn [andb] in E.
  apply (f_equal (go_cut ":")) in E.
  change (n +:+ ":" +:+ p) with (n +:+ String ":" p) in E. change (n' +:+ ":" +:+ p') with (n' +:+ String ":" p') in E.
  rewrite !go_cut_app in E by done. by injection E as -> ->.
Qed.

Definition doc_ok (lab : Labels) (o : string) (d : Doc) : Prop :=
  doc_labelled lab o d /\ match d with Plain v => member_obj "$defs" v = None | WithDefs _ _ => True end.

Definition docs_ok (lab : Labels) (schemas : gmap string Doc) : Prop :=
  forall n p d, plain_name n -> schemas !! GetPortFullName n p = Some d -> doc_ok lab n d.

Definition inv (lab : Labels) (st : MapsState) : Prop :=
  labels_heap lab (ms_heap st) /\ docs_ok lab (ms_schemas st).

(** The processing of a node leaves the schemas of other nodes alone. *)
Record Prog (n : string) (lab lab' : Labels) (st st' : MapsState) : Prop := mkProg {
  prog_step : Step n lab lab' (ms_heap st) (ms_heap st');
  prog_docs : docs_ok lab' (ms_schemas st');
  prog_other : forall n' p, plain_name n' -> n' <> n ->
    ms_schemas st' !! GetPortFullName n' p = ms_schemas st !! GetPortFullName n' p;
}.

Lemma prog_refl (n : string) (lab : Labels) (st : MapsState) : inv lab st -> Prog n lab lab st st.
Proof. intros [Hl Hd]. split; [by apply step_refl|done|done]. Qed.

Lemma prog_inv (n : string) (lab lab' : Labels) (st st' : MapsState) : Prog n lab lab' st st' -> inv lab' st'.
Proof. intros H. split; [apply H|apply H]. Qed.

Lemma prog_trans (n : string) (l1 l2 l3 : Labels) (s1 s2 s3 : MapsState) :
  Prog n l1 l2 s1 s2 -> Prog n l2 l3 s2 s3 -> Prog n l1 l3 s1 s3.
Proof.
  intros [A1 A2 A3] [B1 B2 B3]. split; [by eapply step_trans|done|].
  intros n' p Hn Hne. by rewrite B3, A3.
Qed.

Lemma docs_ok_mono (lab lab' : Labels) (schemas : gmap string Doc) :
  lab ⊆ lab' -> docs_ok lab schemas -> docs_ok lab' schemas.
Proof.
  intros Hs Hd n p d Hn Hp. destruct (Hd n p d Hn Hp) as [H1 H2]. split; [by eapply doc_labelled_mono|done].
Qed.

(** A heap that only grew under the same schemas. *)
Lemma prog_heap (n : string) (lab lab' : Labels) (st : MapsState) (h : Defs) :
  inv lab st -> Step n lab lab' (ms_heap st) h -> Prog n lab lab' st (mkMaps h (ms_schemas st)).
Proof. intros [Hl Hd] Hs. split; [done| |done]. eapply docs_ok_mono; [apply Hs|done]. Qed.

Lemma set_schema_prog (n p : string) (lab : Labels) (st st' : MapsState) (s : json) (d : Doc) :
  inv lab st -> plain_name n -> set_schema st (GetPortFullName n p) s = (st', d) ->
  exists lab', Prog n lab lab' st st' /\ doc_ok lab' n d /\ ms_schemas st' = <[GetPortFullName n p := d]> (ms_schemas st).
Proof.
  intros [Hl Hd] Hn. unfold set_schema.
  assert (Hload : forall h d, load (ms_heap st) s = (h, d) ->
    exists lab', Step n lab lab' (ms_heap st) h /\ doc_ok lab' n d).
  { intros h d0. unfold load. assert (Hplain : member_obj "$defs" s = None ->
      exists lab', Step n lab lab' (ms_heap st) (ms_heap st) /\ doc_ok lab' n (Plain s)).
    { intros Hm. exists lab. split; [by apply step_refl|]. split; [|done]. intros k r Hr. by apply not_elem_of_nil in Hr. }
    destruct s as [| | | | |m]; try (intros [= <- <-]; by apply Hplain).
    destruct (obj_get "$defs" m) as [[| | | | |ds]|] eqn:E;
      try (intros [= <- <-]; apply Hplain; unfold member_obj, GetKey; by rewrite E).
    destruct (alloc_defs (ms_heap st) ds) as [h1 rs] eqn:Ea. intros [= <- <-].
    destruct (alloc_defs_labelled n ds lab _ _ _ Hl Ea) as (lab' & H1 & H2 & H3 & H4).
    exists lab'. split; [|split; [exact H3|done]]. split; [done..|].
    intros r o' k Hr _. apply H4. rewrite <- Hl. apply elem_of_dom. by eexists. }
  destruct (load (ms_heap st) s) as [h d0]. destruct (Hload h d0 eq_refl) as (lab' & Hs & Hok).
  intros [= <- <-]. exists lab'. split_and!; [|done|done]. split; [done| |].
  - intros n' p' d' Hn' Hp. cbn [ms_schemas] in Hp. apply lookup_insert_Some in Hp as [[E <-]|[_ Hp]].
    + destruct (full_name_inj _ _ _ _ Hn Hn' E) as [-> _]. done.
    + eapply docs_ok_mono; [apply Hs|exact Hd|exact Hn'|exact Hp].
  - intros n' p' Hn' Hne. apply lookup_insert_ne. intros E. by destruct (full_name_inj _ _ _ _ Hn Hn' E).
Qed.

Lemma prog_fold {A} (n : string) (f : MapsState -> A -> MapsState) (l : list A) :
  (forall lab st x, inv lab st -> exists lab', Prog n lab lab' st (f st x)) ->
  forall lab st, inv lab st -> exists lab', Prog n lab lab' st (fold_left f l st).
Proof.
  intros Hf. induction l as [|x l IH]; intros lab st Hi; [exists lab; by apply prog_refl|]. cbn [fold_left].
  destruct (Hf lab st x Hi) as [l1 H1]. destruct (IH l1 (f st x)) as [l2 H2]; [by eapply prog_inv|].
  exists l2. by eapply prog_trans.
Qed.

Section node.
  Variable unmarshal : string -> result goerror json.

Lemma status_schema_prog (node : GraphNode) (lab : Labels) (st : MapsState) (np : TinyNodePortStatus) :
  plain_name (gn_name node) -> inv lab st -> exists lab', Prog (gn_name node) lab lab' st (status_schema unmarshal node st np).
Proof.
  intros Hn Hi. unfold status_schema. destruct (unmarshal _) as [s|e]; [|exists lab; by apply prog_refl].
  destruct (set_schema _ _ _) as [st' d] eqn:E. destruct (set_schema_prog _ _ _ _ _ _ _ Hi Hn E) as (lab' & Hp & _).
  by exists lab'.
Qed.

Lemma settings_schema_prog (node : GraphNode) (lab : Labels) (st : MapsState) (pc : TinyNodePortConfig) :
  plain_name (gn_name node) -> inv lab st -> exists lab', Prog (gn_name node) lab lab' st (settings_schema unmarshal node st pc).
Proof.
  intros Hn Hi. unfold settings_schema. assert (Hr : exists lab', Prog (gn_name node) lab lab' st st)
    by (exists lab; by apply prog_refl).
  destruct (_ || _); [done|]. destruct (unmarshal _) as [s|e]; [|done]. destruct (has_ref s); [|done].
  destruct (set_schema _ _ _) as [st' d] eqn:E. destruct (set_schema_prog _ _ _ _ _ _ _ Hi Hn E) as (lab' & Hp & _).
  by exists lab'.
Qed.

Lemma schema_bytes_valid (node : GraphNode) (port : TinyNodePortStatus) :
  ps_Schema port <> "" -> is_ok (unmarshal (ps_Schema port)) = true ->
  schema_bytes unmarshal node port <> "" /\ is_ok (unmarshal (schema_bytes unmarshal node port)) = true.
Proof.
  intros H1 H2. unfold schema_bytes. destruct (List.find _ _) as [pc|] eqn:E; [|done].
  apply find_some in E as [_ E]. unfold own_config in E. rewrite !andb_true_iff, negb_true_iff, String.eqb_neq in E.
  destruct (unmarshal (pc_Schema pc)) as [s|e] eqn:Eu; [|done]. destruct (has_ref s); [|done].
  split; [apply E|]. by rewrite Eu.
Qed.

Definition collected (node : GraphNode) (st : MapsState) (T : gmap string nat) (port : TinyNodePortStatus) : Prop :=
  exists d, ms_schemas st !! GetPortFullName (gn_name node) (ps_Name port) = Some d /\
    (ps_Source port = false -> forall k r, (k, r) ∈ doc_defs d -> k ∈ dom T).

Lemma collect_port_prog (node : GraphNode) (port : TinyNodePortStatus) (lab : Labels) (st st' : MapsState)
    (T S T' S' : gmap string nat) :
  plain_name (gn_name node) -> inv lab st -> map_labelled lab (gn_name node) T -> map_labelled lab (gn_name node) S ->
  ps_Schema port <> "" -> is_ok (unmarshal (ps_Schema port)) = true ->
  collect_port unmarshal node (st, T, S) port = (st', T', S') ->
  exists lab', Prog (gn_name node) lab lab' st st' /\ map_labelled lab' (gn_name node) T' /\
    map_labelled lab' (gn_name node) S' /\ dom T ⊆ dom T' /\ collected node st' T' port /\
    (forall p, p <> ps_Name port -> ms_schemas st' !! GetPortFullName (gn_name node) p =
                                    ms_schemas st !! GetPortFullName (gn_name node) p).
Proof.
  intros Hn Hi HT HS Hne Hok. destruct (schema_bytes_valid node port Hne Hok) as [Hb1 Hb2]. unfold collect_port.
  apply String.eqb_neq in Hb1. rewrite Hb1. destruct (unmarshal (schema_bytes unmarshal node port)) as [s|e]; [|done].
  set (portID := GetPortFullName _ _). destruct (set_schema st portID s) as [st1 d] eqn:Es.
  destruct (set_schema_prog _ _ _ _ _ _ _ Hi Hn Es) as (lab1 & Hp1 & [Hd1 Hd2] & Esch).
  assert (Hother : forall p, p <> ps_Name port -> ms_schemas st1 !! GetPortFullName (gn_name node) p =
    ms_schemas st !! GetPortFullName (gn_name node) p).
  { intros p Hpn. rewrite Esch. apply lookup_insert_ne. intros E. unfold portID in E.
    by destruct (full_name_inj _ _ _ _ Hn Hn E). }
  assert (Hat : ms_schemas st1 !! portID = Some d) by (rewrite Esch; apply lookup_insert_eq).
  assert (HT1 : map_labelled lab1 (gn_name node) T) by (eapply map_labelled_mono; [apply Hp1|done]).
  assert (HS1 : map_labelled lab1 (gn_name node) S) by (eapply map_labelled_mono; [apply Hp1|done]).
  destruct (ps_Source port) eqn:Esrc.
  { intros [= <- <- <-]. exists lab1. split_and!; try done. exists d. by rewrite Esrc. }
  destruct d as [v|m rs].
  { intros [= <- <- <-]. exists lab1. split_and!; try done. exists (Plain v). split; [done|]. intros _ k r Hr.
    by apply not_elem_of_nil in Hr. }
  destruct (own_def_grows port portID (gn_name node) rs lab1 (ms_heap st1) T S) as (A1 & A2 & A3 & A4 & A5);
    [apply Hp1|done..|].
  destruct (fold_left (own_def port portID) rs _) as [[h2 T2] S2]. cbn [fst snd] in *.
  assert (G1 : Grows (gn_name node) lab1 (h2, T2) (enrich_from_settings unmarshal node port (h2, T2))).
  { unfold enrich_from_settings. assert (Hr : Grows (gn_name node) lab1 (h2, T2) (h2, T2)) by (apply grows_refl; [apply A1|done]).
    destruct (List.find _ _) as [pc|]; [|done]. destruct (unmarshal (pc_Schema pc)) as [s'|e]; [|done]. destruct (has_ref s'); [done|].
    apply grows_fold; [apply enrich_def_grows|apply A1|done]. }
  destruct (enrich_from_settings unmarshal node port (h2, T2)) as [h3 T3]. destruct G1 as (lab3 & B1 & B2 & B3).
  assert (G2 : Grows (gn_name node) lab3 (h3, T3) (enrich_from_edges unmarshal node port portID (h3, T3))).
  { unfold enrich_from_edges. apply grows_fold; [|apply B1|done]. intros lab0 st0 pc Hl0 Hm0.
    destruct (unmarshal (pc_Schema pc)) as [s'|e]; [|by apply grows_refl]. apply grows_fold; [|done|done].
    intros lab4 st4 x. apply edge_def_grows. }
  destruct (enrich_from_edges unmarshal node port portID (h3, T3)) as [h4 T4]. destruct G2 as (lab4 & C1 & C2 & C3).
  cbn [fst snd] in *. intros [= <- <- <-].
  assert (Hs : Step (gn_name node) lab1 lab4 (ms_heap st1) h4) by (eapply step_trans; [exact A1|by eapply step_trans]).
  exists lab4. split_and!.
  - eapply prog_trans; [exact Hp1|]. apply prog_heap; [by eapply prog_inv|done].
  - done.
  - eapply map_labelled_mono; [|exact A3]. etrans; [apply B1|apply C1].
  - set_solver.
  - exists (WithDefs m rs). split; [done|]. intros _ k r Hr. apply C3, B3, A5. apply (list_elem_of_fmap_2 fst _ _ Hr).
  - exact Hother.
Qed.
End node.

Section agreement.
  Variable unmarshal : string -> result goerror json.

(** A node as the cluster holds it: ports with names of their own and schemas
    that are JSON. *)
Definition valid_node (node : GraphNode) : Prop :=
  plain_name (gn_name node) /\ NoDup (map ps_Name (st_Ports (gn_status node))) /\
  forall port, port ∈ st_Ports (gn_status node) -> ps_Schema port <> "" /\ is_ok (unmarshal (ps_Schema port)) = true.

Lemma collect_ports (node : GraphNode) (ports : list TinyNodePortStatus) :
  plain_name (gn_name node) -> NoDup (map ps_Name ports) ->
  (forall port, port ∈ ports -> ps_Schema port <> "" /\ is_ok (unmarshal (ps_Schema port)) = true) ->
  forall lab st T S st' T' S', inv lab st -> map_labelled lab (gn_name node) T -> map_labelled lab (gn_name node) S ->
  fold_left (collect_port unmarshal node) ports (st, T, S) = (st', T', S') ->
  exists lab', Prog (gn_name node) lab lab' st st' /\ map_labelled lab' (gn_name node) T' /\
    map_labelled lab' (gn_name node) S' /\ dom T ⊆ dom T' /\
    (forall port, port ∈ ports -> collected node st' T' port) /\
    (forall p, p ∉ map ps_Name ports -> ms_schemas st' !! GetPortFullName (gn_name node) p =
                                        ms_schemas st !! GetPortFullName (gn_name node) p).
Proof.
  intros Hn. induction ports as [|port ports IH]; intros Hnd Hv lab st T S st' T' S' Hi HT HS; cbn [fold_left].
  { intros [= <- <- <-]. exists lab. split_and!; try done; [by apply prog_refl|]. intros q Hq. by apply not_elem_of_nil in Hq. }
  cbn [map] in Hnd. apply NoDup_cons in Hnd as [Hp Hnd].
  destruct (collect_port unmarshal node (st, T, S) port) as [[st1 T1] S1] eqn:Ec. intros Ef.
  destruct (Hv port ltac:(by left)) as [Hv1 Hv2].
  destruct (collect_port_prog unmarshal node port lab st st1 T S T1 S1 Hn Hi HT HS Hv1 Hv2 Ec)
    as (lab1 & A1 & A2 & A3 & A4 & A5 & A6).
  destruct (IH Hnd ltac:(intros q Hq; apply Hv; by right) lab1 st1 T1 S1 st' T' S' ltac:(by eapply prog_inv) A2 A3 Ef)
    as (lab2 & B1 & B2 & B3 & B4 & B5 & B6).
  exists lab2. split_and!; [by eapply prog_trans|done|done|set_solver| |].
  - intros q [->|Hq]%elem_of_cons; [|by apply B5]. destruct A5 as (d & Hd & Hk). exists d.
    split; [by rewrite B6|]. intros Hs k r Hr. by apply B4, (Hk Hs k r).
  - intros p Hp'. apply not_elem_of_cons in Hp' as [Hne Hp']. rewrite B6, A6; done.
Qed.

Lemma replace_flat (node : GraphNode) (schemas : gmap string Doc) (T : gmap string nat)
    (ports : list TinyNodePortStatus) (h : Defs) :
  replacePortDefs node schemas T ports h =
  fold_left (replace_def T) (flat_map (fun port =>
    from_option doc_defs [] (schemas !! GetPortFullName (gn_name node) (ps_Name port))) ports) h.
Proof.
  unfold replacePortDefs. revert h. induction ports as [|port ports IH]; intros h; [done|].
  cbn [fold_left flat_map]. rewrite fold_left_app, <- IH. by destruct (schemas !! _).
Qed.

(** The definitions of a node's ports are those of one map. *)
Definition agreed (lab : Labels) (st : MapsState) (node : GraphNode) : Prop :=
  exists T, map_labelled lab (gn_name node) T /\ forall port, port ∈ st_Ports (gn_status node) ->
    exists d, ms_schemas st !! GetPortFullName (gn_name node) (ps_Name port) = Some d /\
      (ps_Source port = false -> forall k r, (k, r) ∈ doc_defs d -> k ∈ dom T) /\
      (forall k r t, (k, r) ∈ doc_defs d -> T !! k = Some t ->
         node_at (ms_heap st) r = node_at (ms_heap st) t).

Lemma node_maps_agreed (targets : gset string) (node : GraphNode) (lab : Labels) (st : MapsState) :
  valid_node node -> inv lab st ->
  exists lab', Prog (gn_name node) lab lab' st (node_maps unmarshal targets st node) /\
    agreed lab' (node_maps unmarshal targets st node) node.
Proof.
  intros (Hn & Hnd & Hv) Hi. unfold node_maps. set (ports := st_Ports (gn_status node)) in *.
  destruct (prog_fold (gn_name node) (status_schema unmarshal node) ports
    (fun l s x => status_schema_prog unmarshal node l s x Hn) lab st Hi) as [l1 P1].
  destruct (prog_fold (gn_name node) (settings_schema unmarshal node) (gn_ports node)
    (fun l s x => settings_schema_prog unmarshal node l s x Hn) l1 _ (prog_inv _ _ _ _ _ P1)) as [l2 P2].
  set (st2 := fold_left (settings_schema unmarshal node) _ _) in *.
  destruct (fold_left (collect_port unmarshal node) ports (st2, ∅, ∅)) as [[st3 T] S] eqn:Ec.
  assert (He : map_labelled l2 (gn_name node) ∅) by (intros k r Hr; by rewrite lookup_empty in Hr).
  destruct (collect_ports node ports Hn Hnd Hv l2 st2 ∅ ∅ st3 T S (prog_inv _ _ _ _ _ P2) He He Ec)
    as (l3 & P3 & HT & HS & _ & Hcol & _).
  cbv zeta. rewrite !replace_flat.
  set (is_target := fun port => bool_decide (GetPortFullName (gn_name node) (ps_Name port) ∈ targets)).
  set (refs := fun port => from_option doc_defs [] (ms_schemas st3 !! GetPortFullName (gn_name node) (ps_Name port))).
  assert (Hrefs : forall l k r, (k, r) ∈ flat_map refs l -> l3 !! r = Some (gn_name node, k)).
  { intros l k r Hin. apply list_elem_of_In, in_flat_map in Hin as (port & _ & Hr%list_elem_of_In).
    unfold refs in Hr. destruct (ms_schemas st3 !! _) as [d|] eqn:Ed; [|by apply not_elem_of_nil in Hr].
    exact (proj1 (prog_docs _ _ _ _ _ P3 _ _ _ Hn Ed) k r Hr). }
  set (L1 := flat_map refs (List.filter is_target ports)).
  set (L2 := flat_map refs (List.filter (fun port => negb (is_target port)) ports)).
  destruct (replace_fold (gn_name node) l3 S L1 HS (Hrefs _) (ms_heap st3) [] (step_heap _ _ _ _ _ (prog_step _ _ _ _ _ P3)))
    as [Q1 _]; [intros k r Hr; by apply not_elem_of_nil in Hr|intros k r t Hr; by apply not_elem_of_nil in Hr|].
  destruct (replace_fold (gn_name node) l3 T (L1 ++ L2) HT) with (h := fold_left (replace_def S) L1 (ms_heap st3))
    (done := [] : list (string * nat)) as [Q2 Hagree].
  { intros k r [Hr|Hr]%elem_of_app; by eapply Hrefs. }
  { apply Q1. }
  { intros k r Hr. by apply not_elem_of_nil in Hr. }
  { intros k r t Hr. by apply not_elem_of_nil in Hr. }
  rewrite fold_left_app in Q2, Hagree. exists l3. split.
  - eapply prog_trans; [exact P1|]. eapply prog_trans; [exact P2|]. eapply prog_trans; [exact P3|].
    apply prog_heap; [by eapply prog_inv|]. by eapply step_trans.
  - exists T. split; [done|]. intros port Hport. destruct (Hcol port Hport) as (d & Hd & Hk).
    exists d. split_and!; [done|done|]. intros k r t Hr Ht. cbn [ms_heap]. eapply Hagree; [|exact Ht].
    assert (Hin : (k, r) ∈ refs port) by (unfold refs; by rewrite Hd).
    rewrite app_nil_l. apply elem_of_app. destruct (is_target port) eqn:Et; [left|right];
      (apply list_elem_of_In, in_flat_map; exists port; split; [apply filter_In; split; [by apply list_elem_of_In|]|by apply list_elem_of_In]);
      [done|by rewrite Et].
Qed.

Lemma agreed_kept (n : string) (lab lab' : Labels) (st st' : MapsState) (node : GraphNode) :
  plain_name (gn_name node) -> gn_name node <> n -> inv lab st -> Prog n lab lab' st st' ->
  agreed lab st node -> agreed lab' st' node.
Proof.
  intros Hp Hne [_ Hdocs] [Hs _ Ho] (T & HT & Hports). exists T.
  split; [eapply map_labelled_mono; [apply Hs|done]|]. intros port Hport.
  destruct (Hports port Hport) as (d & Hd & Hk & Hag). exists d. split_and!; [by rewrite Ho|done|].
  intros k r t Hr Ht. assert (Hfr : forall x, lab !! x = Some (gn_name node, k) -> node_at (ms_heap st') x = node_at (ms_heap st) x).
  { intros x Hx. unfold node_at. by rewrite (step_frame _ _ _ _ _ Hs x _ _ Hx Hne). }
  rewrite (Hfr r), (Hfr t); [by eapply Hag|by apply HT|].
  exact (proj1 (Hdocs _ _ _ Hp Hd) k r Hr).
Qed.

Lemma maps_agreed (targets : gset string) (nodes : list GraphNode) :
  NoDup (map gn_name nodes) -> Forall valid_node nodes ->
  forall lab st, inv lab st ->
  exists lab', inv lab' (fold_left (node_maps unmarshal targets) nodes st) /\
    (forall node, node ∈ nodes -> agreed lab' (fold_left (node_maps unmarshal targets) nodes st) node) /\
    (forall node, valid_node node -> gn_name node ∉ map gn_name nodes -> agreed lab st node ->
       agreed lab' (fold_left (node_maps unmarshal targets) nodes st) node).
Proof.
  induction nodes as [|node nodes IH]; intros Hnd Hv lab st Hi; cbn [fold_left].
  { exists lab. split_and!; [done| |done]. intros node Hin. by apply not_elem_of_nil in Hin. }
  cbn [map] in Hnd. apply NoDup_cons in Hnd as [Hnew Hnd]. apply Forall_cons in Hv as [Hvn Hv].
  destruct (node_maps_agreed targets node lab st Hvn Hi) as (l1 & P1 & Hag).
  destruct (IH Hnd Hv l1 (node_maps unmarshal targets st node) (prog_inv _ _ _ _ _ P1)) as (l2 & I2 & Hin2 & Hkeep).
  exists l2. split_and!; [done| |].
  - intros x [->|Hx]%elem_of_cons; [by apply Hkeep|by apply Hin2].
  - intros x Hvx Hx Hagx. apply not_elem_of_cons in Hx as [Hne Hx]. apply Hkeep; [done|done|].
    eapply agreed_kept; [apply Hvx|exact Hne|exact Hi|exact P1|done].
Qed.
End agreement.

(** ** The schemas a flow ends with *)

(** The definition of a name in a schema. *)
Definition definition (schema : json) (k : string) : option json :=
  match member_obj "$defs" schema with Some ds => obj_get k ds | None => None end.

Lemma definition_read (lab : Labels) (o : string) (h : Defs) (d : Doc) (k : string) (v : json) :
  doc_ok lab o d -> definition (read h d) k = Some v -> exists r, (k, r) ∈ doc_defs d /\ v = node_at h r.
Proof.
  intros [_ Hp]. unfold definition. destruct d as [x|m rs]; cbn [read doc_defs].
  - by rewrite Hp.
  - unfold member_obj at 1, GetKey. rewrite obj_get_set, String.eqb_refl. cbn.
    intros (kr & Hkr & E)%obj_get_in%list_elem_of_In%in_map_iff. injection Hkr as <- <-.
    exists kr.2. split; [|done]. apply list_elem_of_In. by destruct kr.
Qed.

Lemma sorted_nodes_spec (nodesMap : gmap string GraphNode) :
  (forall key n, nodesMap !! key = Some n -> gn_name n = key) ->
  NoDup (map gn_name (sorted_nodes nodesMap)) /\
  forall n, n ∈ sorted_nodes nodesMap <-> exists key, nodesMap !! key = Some n.
Proof.
  intros Hk. unfold sorted_nodes. set (names := go_sort_strings _).
  assert (Hperm : names ≡ₚ (map_to_list nodesMap).*1) by apply go_sort_strings_perm.
  assert (Hnd : NoDup names) by (rewrite Hperm; apply NoDup_fst_map_to_list).
  assert (Hin : forall x, x ∈ names <-> is_Some (nodesMap !! x)).
  { intros x. rewrite Hperm, list_elem_of_fmap. split.
    - intros ([k v] & -> & Hkv%elem_of_map_to_list). by eexists.
    - intros [v Hv]. exists (x, v). split; [done|]. by apply elem_of_map_to_list. }
  split.
  - assert (E : map gn_name (omap (fun name => nodesMap !! name) names) = names); [|by rewrite E].
    assert (Hall : forall x, x ∈ names -> is_Some (nodesMap !! x)) by (intros x; by apply Hin).
    clear Hperm Hnd Hin. induction names as [|x l IH]; [done|]. csimpl.
    destruct (Hall x ltac:(by left)) as [n Hx]. rewrite Hx. cbn [map]. rewrite (Hk x n Hx). f_equal.
    apply IH. intros y Hy. apply Hall. by right.
  - intros n. rewrite list_elem_of_omap. split; [intros (x & _ & Hx); by exists x|].
    intros (x & Hx). exists x. split; [|done]. apply Hin. by eexists.
Qed.

(** One definition per node and name: in the schemas of a flow, a definition
    that an input port of a node has, and another port of the node has under the
    same name, is the same in both: what the node's settings and the schemas of
    its edges declare of it is in every port, whatever the order in which ports,
    settings and edges are listed. *)
Theorem node_definitions_agree (unmarshal : string -> result goerror json) (nodesMap : gmap string GraphNode)
    (key : string) (n : GraphNode) (p q : TinyNodePortStatus) (sp sq v w : json) (k : string) :
  (forall key n, nodesMap !! key = Some n -> gn_name n = key /\ valid_node unmarshal n) ->
  nodesMap !! key = Some n -> p ∈ st_Ports (gn_status n) -> q ∈ st_Ports (gn_status n) -> ps_Source q = false ->
  portSchemaMap (GetFlowMaps unmarshal nodesMap) !! GetPortFullName key (ps_Name p) = Some sp ->
  portSchemaMap (GetFlowMaps unmarshal nodesMap) !! GetPortFullName key (ps_Name q) = Some sq ->
  definition sp k = Some v -> definition sq k = Some w -> v = w.
Proof.
  intros Hall Hn Hp Hq Hsrc Hsp Hsq Hv Hw.
  destruct (sorted_nodes_spec nodesMap (fun key n H => proj1 (Hall key n H))) as [Hnd Hin].
  unfold GetFlowMaps, maps_of in Hsp, Hsq. cbn [portSchemaMap] in Hsp, Hsq.
  set (targets := target_ports (sorted_nodes nodesMap)) in *.
  destruct (maps_agreed unmarshal targets (sorted_nodes nodesMap) Hnd) with (lab := ∅ : Labels) (st := mkMaps ∅ ∅)
    as (lab & [_ Hdocs] & Hag & _).
  { apply Forall_forall. intros x Hx. apply Hin in Hx as (y & Hy). by apply (Hall y). }
  { split; [done|]. intros x y d _ Hd. cbn [ms_schemas] in Hd; rewrite lookup_empty in Hd; discriminate. }
  destruct (Hall key n Hn) as [<- [Hpl _]].
  destruct (Hag n) as (T & HT & Hports); [apply Hin; by exists (gn_name n)|].
  destruct (Hports p Hp) as (dp & Edp & _ & Hap). destruct (Hports q Hq) as (dq & Edq & Hkq & Haq).
  rewrite lookup_fmap, Edp in Hsp. rewrite lookup_fmap, Edq in Hsq. injection Hsp as <-. injection Hsq as <-.
  destruct (definition_read lab (gn_name n) _ dp k v (Hdocs _ _ _ Hpl Edp) Hv) as (r & Hr & ->).
  destruct (definition_read lab (gn_name n) _ dq k w (Hdocs _ _ _ Hpl Edq) Hw) as (r' & Hr' & ->).
  destruct (proj1 (elem_of_dom T k) (Hkq Hsrc k r' Hr')) as [t Ht].
  by rewrite (Hap k r t Hr Ht), (Haq k r' t Hr' Ht).
Qed.

Section witness.
Let bare : json := JObj [("$defs", JObj [("Context", JObj [("configurable", JBool true)])])].
Let rich : json := JObj [("$defs", JObj [("Context", JObj [("properties", JObj [("user", JObj [("type", JStr "string")])])])])].
Let parse (s : string) : result goerror json :=
  if s =? "bare" then Ok bare else if s =? "rich" then Ok rich else Err (ErrorString "EOF").
Let port (name : string) (source : bool) : TinyNodePortStatus := mkPortStatus name name 0 source "bare" "".
Let node : GraphNode :=
  mkGraphNode (mkNode "n" "ns" ∅ 0 (mkSpec "m" "c" [mkPortConfig "a:out" "in" "rich" "{}" "f"] [])
    (mkStatus 0 "" "" [] [port "out" true; port "in" false] "" ∅ false)) ∅ "" None.
Let agreed_def : json :=
  JObj [("properties", JObj [("user", JObj [("type", JStr "string")])]); ("port", JStr "n:in")].

(** An edge declares the fields of a context: both ports of the node have them. *)
Lemma node_definitions_agree_witness :
  (definition <$> portSchemaMap (GetFlowMaps parse {[ "n" := node ]}) !! "n:out") ≫= (fun f => f "Context") = Some agreed_def /\
  forall sp sq v w, portSchemaMap (GetFlowMaps parse {[ "n" := node ]}) !! "n:out" = Some sp ->
    portSchemaMap (GetFlowMaps parse {[ "n" := node ]}) !! "n:in" = Some sq ->
    definition sp "Context" = Some v -> definition sq "Context" = Some w -> v = w.
Proof.
  split; [vm_compute; reflexivity|]. intros sp sq v w.
  apply (node_definitions_agree parse {[ "n" := node ]} "n" node (port "out" true) (port "in" false) sp sq v w "Context").
  - intros key x Hx. apply lookup_singleton_Some in Hx as [<- <-]. split; [reflexivity|]. split; [|split].
    + split; [discriminate|reflexivity].
    + apply (bool_decide_unpack _). vm_compute. exact I.
    + intros p Hp. apply elem_of_cons in Hp as [->|Hp]; [split; [discriminate|reflexivity]|].
      apply list_elem_of_singleton in Hp as ->. split; [discriminate|reflexivity].
  - apply lookup_singleton_eq.
  - left.
  - right. left.
  - reflexivity.
Defined.
End witness.
