(* ===== verification/Evals.v ===== *)
(** * Evaluation specs

    [pkg/evals]: what an author claims of a flow and the judgement of a run.
    [spec.go]: the file's checks and defaults; [env.go]: credentials from the
    environment; [assert.go]: the verdict. Parsing (YAML, JSON, JSONPath,
    regular expressions, durations) and [fmt]'s "%v" are parameters. *)
From S2P Require Import Prelude GoErrors Json.
From Stdlib Require Import SpecFloat.

Open Scope string_scope.
Open Scope list_scope.

(** ** Specs *)

Record Trigger := mkTrigger {
  tr_Node : string;
  tr_Port : string;
  tr_Data : list (string * json);
}.

Record Arrival := mkArrival {
  a_At : string;
  a_Path : string;
  a_Equals : json;               (* nil where absent *)
  a_Contains : string;
  a_Matches : string;
  a_Exists : option bool;
  a_Min : option spec_float;
  a_Max : option spec_float;
}.

Record Bound := mkBound { b_Min : option spec_float; b_Max : option spec_float }.

Record Expect := mkExpect {
  ex_Errors : option Z;
  ex_Silent : list string;
  ex_Arrives : list Arrival;
  ex_Usage : gmap string Bound;
}.

Record Spec := mkEval {
  s_Name : string;
  s_Flow : string;
  s_Trigger : Trigger;
  s_Timeout : Z;
  s_Expect : Expect;
  s_Path : string;
}.

(** *** Durations, in nanoseconds *)

Section duration.
  Variable ParseDuration : string -> result goerror Z.   (* time *)
  Variable duration_string : Z -> string.                (* time.Duration.String *)

Definition Duration_UnmarshalJSON (d : Z) (b : string) : result goerror Z :=
  let s := go_trim "034" b in
  if (s =? "") || (s =? "null") then Ok d
  else match ParseDuration s with
       | Err e => Err (WrapError ("bad duration " +:+ go_quote s +:+ ": ") e)
       | Ok parsed => Ok parsed
       end.

Definition Duration_MarshalJSON (d : Z) : string :=
  let quoted s := String "034" (s +:+ String "034" "") in
  if (d =? 0)%Z then quoted "" else quoted (duration_string d).

Definition Duration_Or (d fallback : Z) : Z := if (d =? 0)%Z then fallback else d.
End duration.

(** *** Parsing *)

(** A failing [arrives] entry, by its index. *)
Fixpoint bad_arrival (i : nat) (arrives : list Arrival) : option (nat * string) :=
  match arrives with
  | [] => None
  | a :: l => if str_has ":" (a_At a) then bad_arrival (S i) l else Some (i, a_At a)
  end.

Definition with_default_port (s : Spec) : Spec :=
  let t := s_Trigger s in
  if tr_Port t =? ""
  then mkEval (s_Name s) (s_Flow s) (mkTrigger (tr_Node t) "_control" (tr_Data t)) (s_Timeout s) (s_Expect s) (s_Path s)
  else s.

(** The checked spec, with the default port filled in. *)
Definition validate (s : Spec) : result goerror Spec :=
  if go_trim_space (s_Name s) =? "" then Err (ErrorString "eval has no name — the name is what a failure reports")
  else if go_trim_space (tr_Node (s_Trigger s)) =? ""
  then Err (ErrorString (s_Name s +:+ ": trigger.node is required — an eval that fires nothing checks nothing"))
  else
    let s := with_default_port s in
    match bad_arrival 0 (ex_Arrives (s_Expect s)) with
    | Some (i, at_) =>
        Err (ErrorString (s_Name s +:+ ": expect.arrives[" +:+ go_itoa (Z.of_nat i) +:+
               "].at must be " +:+ go_quote "<node>:<port>" +:+ ", got " +:+ go_quote at_))
    | None => Ok s
    end.

Definition with_path (path : string) (s : Spec) : Spec :=
  mkEval (s_Name s) (s_Flow s) (s_Trigger s) (s_Timeout s) (s_Expect s) path.

(** The first spec that fails ends the loop. *)
Fixpoint validate_all (path : string) (specs : list Spec) : result goerror (list Spec) :=
  match specs with
  | [] => Ok []
  | s :: specs' =>
      match validate (with_path path s) with
      | Err e => Err (WrapError (path +:+ ": ") e)
      | Ok s' => let! rest := validate_all path specs' in Ok (s' :: rest)
      end
  end%go.

Definition Parse (yaml_list : string -> result goerror (list Spec)) (yaml_one : string -> result goerror Spec)
    (path data : string) : result goerror (list Spec) :=
  let trimmed := go_trim_space data in
  if trimmed =? "" then Ok []
  else
    let parsed := if go_has_prefix trimmed "-" then yaml_list data
                  else match yaml_one data with Ok one => Ok [one] | Err e => Err e end in
    match parsed with
    | Err e => Err (WrapError (path +:+ ": ") e)
    | Ok specs => validate_all path specs
    end.

(** ** Credentials from the environment *)

(** The pieces of a string: characters, and references "${NAME}". *)
Inductive piece := Char (c : ascii) | Ref (name : string).

Definition ref_start (c : ascii) : bool := is_upper c || is_lower c || Ascii.eqb c "_".
Definition ref_char (c : ascii) : bool := ref_start c || is_digit c.

(** The rest of a name up to its closing brace. *)
Fixpoint take_name (s : string) : option string :=
  match s with
  | EmptyString => None
  | String c s' => if Ascii.eqb c "}" then Some ""
                   else if ref_char c then String c <$> take_name s' else None
  end.

(** [envRef] at the start of a string: the name. *)
Definition match_ref (s : string) : option string :=
  match s with
  | String "$" (String "{" (String c s')) => if ref_start c then String c <$> take_name s' else None
  | _ => None
  end.

(** [skip] counts the remaining characters of a reference. *)
Fixpoint pieces (skip : nat) (s : string) : list piece :=
  match s with
  | EmptyString => []
  | String c s' =>
      match skip with
      | S n => pieces n s'
      | O => match match_ref s with
             | Some name => Ref name :: pieces (String.length name + 2) s'
             | None => Char c :: pieces 0 s'
             end
      end
  end.

Definition ref_text (name : string) : string := "${" +:+ name +:+ "}".

Section env.
  Variable LookupEnv : string -> option string.

Definition expand_piece (p : piece) : string :=
  match p with
  | Char c => String c ""
  | Ref name => match LookupEnv name with Some val => val | None => ref_text name end
  end.

Definition missing_of (p : piece) : list string :=
  match p with
  | Char _ => []
  | Ref name => match LookupEnv name with Some _ => [] | None => [name] end
  end.

(** The expanded value, and the names that are not set. *)
Fixpoint expandValue (v : json) : json * gset string :=
  match v with
  | JStr n =>
      if negb (go_contains n "${") then (v, ∅)
      else (JStr (foldr String.append "" (map expand_piece (pieces 0 n))),
            list_to_set (flat_map missing_of (pieces 0 n)))
  | JObj m => let r := map (fun kv => (kv.1, expandValue kv.2)) m in
              (JObj (map (fun x => (x.1, x.2.1)) r), ⋃ (map (fun x => x.2.2) r))
  | JArr l => let r := map expandValue l in (JArr (map fst r), ⋃ (map snd r))
  | _ => (v, ∅)
  end.

Definition ExpandEnv (s : Spec) : result goerror Spec :=
  let t := s_Trigger s in
  match tr_Data t with
  | [] => Ok s
  | data =>
      let '(expanded, missing) := expandValue (JObj data) in
      match elements missing with
      | [] => Ok (mkEval (s_Name s) (s_Flow s)
                    (mkTrigger (tr_Node t) (tr_Port t) (default [] (as_obj expanded)))
                    (s_Timeout s) (s_Expect s) (s_Path s))
      | names => Err (ErrorString (s_Name s +:+ ": unset environment variable(s): " +:+
                                   go_join ", " (go_sort_strings names)))
      end
  end.
End env.

(** ** The verdict *)

Record Failure := mkFailure { What : string; Got : string }.

Definition Failure_String (f : Failure) : string :=
  if Got f =? "" then What f else What f +:+ " — got " +:+ Got f.

Record Observed := mkObserved {
  o_Payloads : gmap string (list string);
  o_Errors : Z;
  o_Handled : Z;
  o_Usage : gmap string spec_float;
}.

Section check.
  Context `{MapRange (list string)} `{MapRange Bound}.
  Variable number : string -> spec_float.                       (* the float64 of a literal *)
  Variable float_text : spec_float -> string.                   (* fmt %v *)
  Variable value_text : json -> string.                         (* fmt %v *)
  Variable marshal : json -> result goerror string.             (* encoding/json *)
  Variable unmarshal : string -> result goerror json.           (* encoding/json *)
  Variable ajson_unmarshal : string -> result goerror json.     (* ajson *)
  Variable ajson_eval : json -> string -> result goerror json.  (* ajson.Eval *)
  Variable unpack : json -> result goerror json.                (* ajson: Unpack *)
  Variable compile : string -> result goerror (string -> bool). (* regexp *)

(** By exact key, or by suffix. *)
Definition matchPayloads (payloads : gmap string (list string)) (ref : string) : list string :=
  match payloads !! ref with
  | Some exact => exact
  | None => flat_map (fun kv => if go_has_suffix kv.1 ref || go_has_suffix kv.1 ("." +:+ ref) then kv.2 else [])
              (map_range payloads)
  end.

Definition describePorts (payloads : gmap string (list string)) : string :=
  match map_range payloads with
  | [] => "nothing arrived anywhere — did the trigger fire?"
  | kvs =>
      let keys := map fst kvs in
      let keys := if (6 <? length keys)%nat
                  then firstn 6 keys ++ ["… and " +:+ go_itoa (Z.of_nat (length kvs) - 6) +:+ " more"]
                  else keys in
      "messages arrived at " +:+ go_join ", " keys
  end.

Definition truncate (s : string) (n : nat) : string :=
  if (String.length s <=? n)%nat then s else string_take n s +:+ "…".

Definition valueAt (payload path : string) : result goerror json :=
  if go_trim_space path =? ""
  then match unmarshal payload with Err _ => Ok (JStr payload) | Ok whole => Ok whole end
  else match ajson_unmarshal payload with
       | Err _ => Err (ErrorString ("payload is not JSON: " +:+ truncate payload 120))
       | Ok node =>
           match ajson_eval node path with
           | Err _ => Err (ErrorString ("path did not resolve in " +:+ truncate payload 120))
           | Ok res => unpack res
           end
       end.

Definition numeric (v : json) : option spec_float := match v with JNum s => Some (number s) | _ => None end.

(** [int64(value)] of a float64 that it represents, toward zero. *)
Definition float_int (f : spec_float) : Z :=
  match f with
  | S754_finite s m e =>
      let z := if (0 <=? e)%Z then Z.shiftl (Zpos m) e else Z.shiftr (Zpos m) (- e) in
      if s then (- z)%Z else z
  | _ => 0%Z
  end.

Definition integral (f : spec_float) : bool :=
  in_int64 (float_int f) && SFeqb f (binary_normalize 53 1024 (float_int f) 0 false).

Definition render (v : json) : string :=
  match v with
  | JNull => "null"
  | JStr s => s
  | JNum s => let f := number s in if integral f then go_itoa (float_int f) else float_text f
  | _ => match marshal v with Ok b => b | Err _ => value_text v end
  end.

Definition equalish (got want : json) : bool :=
  match numeric got, numeric want with
  | Some gn, Some wn => SFeqb gn wn
  | _, _ => match got, want with
            | JBool gb, JBool wb => Bool.eqb gb wb
            | _, _ => render got =? render want
            end
  end.

Definition below (f : spec_float) (bound : option spec_float) : bool :=
  match bound with Some m => SFltb f m | None => false end.
Definition above (f : spec_float) (bound : option spec_float) : bool :=
  match bound with Some m => SFltb m f | None => false end.

(** The first condition that is given decides. *)
Definition satisfies (a : Arrival) (value : json) : bool * string :=
  let seen := render value in
  match a_Exists a with
  | Some want => (Bool.eqb (negb (is_nil value)) want, seen)
  | None =>
      if negb (is_nil (a_Equals a)) then (equalish value (a_Equals a), seen)
      else if negb (a_Contains a =? "") then (go_contains seen (a_Contains a), seen)
      else if negb (a_Matches a =? "") then
        match compile (a_Matches a) with
        | Err e => (false, "invalid regexp " +:+ go_quote (a_Matches a) +:+ ": " +:+ error_text e)
        | Ok re => (re seen, seen)
        end
      else match a_Min a, a_Max a with
           | None, None => (true, seen)
           | _, _ => match numeric value with
                     | None => (false, seen +:+ " (not a number)")
                     | Some n => (negb (below n (a_Min a)) && negb (above n (a_Max a)), seen)
                     end
           end
  end.

Definition describeExpectation (a : Arrival) : string :=
  match a_Exists a with
  | Some true => "expected a value"
  | Some false => "expected no value"
  | None =>
      if negb (is_nil (a_Equals a)) then "expected " +:+ value_text (a_Equals a)
      else if negb (a_Contains a =? "") then "expected to contain " +:+ go_quote (a_Contains a)
      else if negb (a_Matches a =? "") then "expected to match " +:+ go_quote (a_Matches a)
      else match a_Min a, a_Max a with
           | Some lo, Some hi => "expected between " +:+ float_text lo +:+ " and " +:+ float_text hi
           | Some lo, None => "expected >= " +:+ float_text lo
           | None, Some hi => "expected <= " +:+ float_text hi
           | None, None => "expected a message"
           end
  end.

Definition pathSuffix (path : string) : string := if path =? "" then "" else " " +:+ path.

(** Whether some payload satisfies the assertion; otherwise what was seen last. *)
Fixpoint any_satisfies (a : Arrival) (payloads : list string) (lastSeen : string) : option string :=
  match payloads with
  | [] => Some lastSeen
  | payload :: payloads' =>
      match valueAt payload (a_Path a) with
      | Err e => any_satisfies a payloads' (error_text e)
      | Ok value =>
          let '(ok, seen) := satisfies a value in
          if ok then None else any_satisfies a payloads' seen
      end
  end.

Definition checkArrival (a : Arrival) (got : Observed) : list Failure :=
  match matchPayloads (o_Payloads got) (a_At a) with
  | [] => [mkFailure ("expected a message at " +:+ a_At a) (describePorts (o_Payloads got))]
  | payloads =>
      match any_satisfies a payloads "" with
      | None => []
      | Some lastSeen =>
          [mkFailure ("at " +:+ a_At a +:+ pathSuffix (a_Path a) +:+ ": " +:+ describeExpectation a) lastSeen]
      end
  end.

Definition check_errors (spec : Spec) (got : Observed) : list Failure :=
  let wantErrors := default 0%Z (ex_Errors (s_Expect spec)) in
  if (o_Errors got =? wantErrors)%Z then []
  else [mkFailure ("expected " +:+ go_itoa wantErrors +:+ " unhandled errors")
          (go_itoa (o_Errors got) +:+
           if (0 <? o_Handled got)%Z then " (plus " +:+ go_itoa (o_Handled got) +:+ " caught by an error port)" else "")].

Definition check_silent (got : Observed) (port : string) : list Failure :=
  match matchPayloads (o_Payloads got) port with
  | [] => []
  | payloads => [mkFailure ("expected nothing at " +:+ port)
                   (go_itoa (Z.of_nat (length payloads)) +:+ " message(s) arrived")]
  end.

Definition check_usage (got : Observed) (ub : string * Bound) : list Failure :=
  let '(unit, bound) := ub in
  match o_Usage got !! unit with
  | None => [mkFailure ("expected the run to meter " +:+ go_quote unit) "nothing metered under that unit"]
  | Some amount =>
      (match b_Min bound with
       | Some lo => if SFltb amount lo
                    then [mkFailure ("expected " +:+ unit +:+ " >= " +:+ float_text lo) (float_text amount)] else []
       | None => []
       end) ++
      (match b_Max bound with
       | Some hi => if SFltb hi amount
                    then [mkFailure ("expected " +:+ unit +:+ " <= " +:+ float_text hi) (float_text amount)] else []
       | None => []
       end)
  end.

Definition Check_ (spec : Spec) (got : Observed) : list Failure :=
  let e := s_Expect spec in
  check_errors spec got ++ flat_map (fun a => checkArrival a got) (ex_Arrives e) ++
  flat_map (check_silent got) (ex_Silent e) ++ flat_map (check_usage got) (map_range (ex_Usage e)).

End check.
