(* ===== verification/EvalsSpec.v ===== *)
(** * What a verdict and an expanded trigger say

    An eval passes exactly when every one of its claims holds of what was
    observed, whatever order the maps are walked in; and the environment is
    read for exactly the references the trigger's strings contain, the ones
    that are not set being named all together, and nothing else. *)
From S2P Require Import Prelude GoErrors Json Evals.
From Stdlib Require Import SpecFloat.

Open Scope string_scope.
Open Scope list_scope.

(** ** References *)

Fixpoint all_chars (p : ascii -> bool) (s : string) : bool :=
  match s with EmptyString => true | String c s' => p c && all_chars p s' end.

(** The name of an environment variable. *)
Definition is_name (n : string) : bool :=
  match n with EmptyString => false | String c n' => ref_start c && all_chars ref_char n' end.

(** [s] contains the reference "${n}". *)
Definition mentions (n s : string) : Prop :=
  is_name n = true /\ exists pre post, s = pre +:+ (ref_text n +:+ post).

(** [t] is [s] with every reference replaced by the variable's value, from the
    left, a value's own text not being read again. *)
Inductive expands (env : string -> option string) : string -> string -> Prop :=
| expands_nil : expands env "" ""
| expands_ref n val s t :
    is_name n = true -> env n = Some val -> expands env s t -> expands env (ref_text n +:+ s) (val +:+ t)
| expands_char c s t :
    (forall n rest, is_name n = true -> String c s <> ref_text n +:+ rest) ->
    expands env s t -> expands env (String c s) (String c t).

(** The same through a document: strings expand, names and the rest stay. *)
Inductive expands_json (env : string -> option string) : json -> json -> Prop :=
| expands_str s t : expands env s t -> expands_json env (JStr s) (JStr t)
| expands_arr l l' : Forall2 (expands_json env) l l' -> expands_json env (JArr l) (JArr l')
| expands_obj m m' :
    Forall2 (fun kv kv' => kv.1 = kv'.1 /\ expands_json env kv.2 kv'.2) m m' -> expands_json env (JObj m) (JObj m')
| expands_scalar v : scalar v = true -> as_str v = None -> expands_json env v v.

(** A string of the document contains the reference. *)
Inductive mentioned (n : string) : json -> Prop :=
| mentioned_str s : mentions n s -> mentioned n (JStr s)
| mentioned_arr l v : v ∈ l -> mentioned n v -> mentioned n (JArr l)
| mentioned_obj m k v : (k, v) ∈ m -> mentioned n v -> mentioned n (JObj m).

Lemma take_name_spec (s n : string) :
  take_name s = Some n <-> all_chars ref_char n = true /\ exists rest, s = n +:+ String "}" rest.
Proof.
  revert n. induction s as [|c s IH]; intros n; cbn.
  - split; [done|]. intros (_ & rest & E). by destruct n.
  - destruct (Ascii.eqb_spec c "}") as [->|Hc].
    + split.
      * intros [= <-]. split; [done|]. by exists s.
      * intros (Hn & rest & E). destruct n as [|d n]; [done|]. exfalso. injection E as <- _. done.
    + destruct (ref_char c) eqn:Ec.
      * split.
        -- destruct (take_name s) as [m|] eqn:Em; [|done]. intros [= <-].
           destruct (proj1 (IH m) eq_refl) as (Hm & rest & ->). cbn. rewrite Ec. split; [done|]. by exists rest.
        -- intros (Hn & rest & E). destruct n as [|d n]; injection E as E1 E2; [done|]. subst d.
           cbn in Hn. apply andb_true_iff in Hn as [_ Hn].
           assert (take_name s = Some n) as -> by (apply IH; split; [done|]; by exists rest). done.
      * split; [done|]. intros (Hn & rest & E). destruct n as [|d n]; injection E as E1 E2; [done|]. subst d.
        cbn in Hn. by rewrite Ec in Hn.
Qed.

Lemma match_ref_spec (s n : string) :
  match_ref s = Some n <-> is_name n = true /\ exists rest, s = ref_text n +:+ rest.
Proof.
  split.
  - intros E. destruct s as [|c1 [|c2 [|c s]]]; [done|cbn in E; by repeat case_match..|].
    destruct (decide (c1 = "$"%char)) as [->|]; [|cbn in E; by repeat case_match].
    destruct (decide (c2 = "{"%char)) as [->|]; [|cbn in E; by repeat case_match].
    cbn in E.
    destruct (ref_start c) eqn:Ec; [|done].
    destruct (take_name s) as [m|] eqn:Em; [|done]. injection E as <-.
    apply take_name_spec in Em as (Hm & rest & ->). cbn. rewrite Ec. split; [done|].
    exists rest. unfold ref_text. by autorewrite with gostr.
  - intros (Hn & rest & ->). destruct n as [|c n]; [done|]. cbn in Hn. apply andb_true_iff in Hn as [Hc Hn].
    unfold ref_text. autorewrite with gostr. cbn. rewrite Hc.
    assert (take_name (n +:+ String "}" rest) = Some n) as -> by (apply take_name_spec; split; [done|by exists rest]).
    done.
Qed.

Lemma pieces_skip (a s : string) : pieces (String.length a) (a +:+ s) = pieces 0 s.
Proof. induction a as [|c a IH]; cbn; [by autorewrite with gostr|]. exact IH. Qed.

Lemma pieces_ref (n s : string) :
  is_name n = true -> pieces 0 (ref_text n +:+ s) = Ref n :: pieces 0 s.
Proof.
  intros Hn. assert (Hm : match_ref (ref_text n +:+ s) = Some n) by (apply match_ref_spec; eauto).
  unfold ref_text in *. autorewrite with gostr in *. cbn [pieces]. rewrite Hm. f_equal.
  transitivity (pieces (String.length ("{" +:+ (n +:+ "}"))) (("{" +:+ (n +:+ "}")) +:+ s)); [|apply pieces_skip].
  replace (String.length n + 2)%nat with (String.length ("{" +:+ (n +:+ "}")))
    by (rewrite !str_length_app; cbn; lia).
  by autorewrite with gostr.
Qed.

Lemma pieces_char (c : ascii) (s : string) :
  match_ref (String c s) = None -> pieces 0 (String c s) = Char c :: pieces 0 s.
Proof. intros E. cbn [pieces]. by rewrite E. Qed.

Lemma ref_text_head (n s : string) : ref_text n +:+ s = String "$" (("{" +:+ (n +:+ "}")) +:+ s).
Proof. unfold ref_text. by autorewrite with gostr. Qed.

(** A string, from the left: a reference or a character that starts none. *)
Lemma string_pieces_ind (P : string -> Prop) :
  P "" ->
  (forall n s, is_name n = true -> P s -> P (ref_text n +:+ s)) ->
  (forall c s, match_ref (String c s) = None -> P s -> P (String c s)) ->
  forall s, P s.
Proof.
  intros Hnil Href Hchar s. remember (String.length s) as k eqn:Hk.
  revert s Hk. induction k as [k IH] using lt_wf_ind. intros s ->.
  destruct s as [|c s]; [done|]. destruct (match_ref (String c s)) as [n|] eqn:E.
  - apply match_ref_spec in E as (Hn & rest & E). rewrite E. apply Href; [done|].
    eapply IH; [|reflexivity]. rewrite E, ref_text_head. cbn. rewrite str_length_app. lia.
  - apply Hchar; [done|]. eapply IH; [|reflexivity]. cbn. lia.
Qed.

Lemma app_past (a pre t : string) (s : string) (c : ascii) :
  str_has c a = false -> a +:+ s = pre +:+ String c t -> exists pre', pre = a +:+ pre' /\ s = pre' +:+ String c t.
Proof.
  revert pre. induction a as [|d a IH]; intros pre Ha E; [by exists pre|].
  rewrite str_app_cons in E. cbn in Ha. apply orb_false_iff in Ha as [Hd Ha].
  destruct pre as [|e pre]; injection E as E1 E2.
  - subst d. by rewrite Ascii.eqb_refl in Hd.
  - subst e. destruct (IH pre Ha E2) as (pre' & -> & ->). by exists pre'.
Qed.

Lemma name_no_dollar (n : string) : all_chars ref_char n = true -> str_has "$" n = false.
Proof.
  induction n as [|c n IH]; [done|]. cbn. intros [Hc Hn]%andb_true_iff. apply orb_false_iff. split; [|by apply IH].
  apply Ascii.eqb_neq. by intros ->.
Qed.

Lemma is_name_chars (n : string) : is_name n = true -> all_chars ref_char n = true.
Proof.
  destruct n as [|c n]; [done|]. cbn. intros [Hc Hn]%andb_true_iff. apply andb_true_iff.
  split; [unfold ref_char; by rewrite Hc|done].
Qed.

Lemma str_has_ref_tail (n : string) : is_name n = true -> str_has "$" ("{" +:+ (n +:+ "}")) = false.
Proof. intros Hn%is_name_chars%name_no_dollar. rewrite !str_has_app, Hn. reflexivity. Qed.

Lemma names_agree (n m a b : string) :
  is_name n = true -> is_name m = true -> ref_text n +:+ a = ref_text m +:+ b -> n = m /\ a = b.
Proof.
  intros Hn Hm E. assert (En : match_ref (ref_text n +:+ a) = Some n) by (apply match_ref_spec; eauto).
  assert (Em : match_ref (ref_text m +:+ b) = Some m) by (apply match_ref_spec; eauto).
  rewrite E, Em in En. injection En as ->. split; [done|]. by apply str_app_inj_l in E.
Qed.

Lemma mentions_ref (n m s : string) : is_name m = true -> mentions n (ref_text m +:+ s) <-> n = m \/ mentions n s.
Proof.
  intros Hm. split.
  - intros (Hn & [|c pre] & post & E).
    + left. rewrite str_app_nil_l in E. by apply names_agree in E as [-> _].
    + right. rewrite (ref_text_head m), (ref_text_head n), str_app_cons in E. injection E as _ E.
      apply app_past in E as (pre' & _ & ->); [|by apply str_has_ref_tail].
      split; [done|]. exists pre', post. by rewrite ref_text_head.
  - intros [->|(Hn & pre & post & ->)].
    + split; [done|]. by exists "", s.
    + split; [done|]. exists (ref_text m +:+ pre), post. by rewrite str_app_assoc.
Qed.

Lemma mentions_char (n : string) (c : ascii) (s : string) :
  match_ref (String c s) = None -> mentions n (String c s) <-> mentions n s.
Proof.
  intros Hc. split.
  - intros (Hn & [|d pre] & post & E).
    + rewrite str_app_nil_l in E. exfalso.
      assert (match_ref (String c s) = Some n) as Hs by (apply match_ref_spec; eauto). by rewrite Hs in Hc.
    + rewrite str_app_cons in E. injection E as _ ->. by split; [|exists pre, post].
  - intros (Hn & pre & post & ->). split; [done|]. by exists (String c pre), post.
Qed.

(** The names a string's pieces refer to are those it contains. *)
Lemma pieces_mention (s n : string) : Ref n ∈ pieces 0 s <-> mentions n s.
Proof.
  induction s as [|m s Hm IH|c s Hc IH] using string_pieces_ind.
  - cbn. rewrite elem_of_nil. split; [done|]. intros (_ & pre & post & E). by destruct pre.
  - rewrite pieces_ref, mentions_ref, elem_of_cons, IH by done. naive_solver.
  - rewrite pieces_char, mentions_char, elem_of_cons, IH by done. naive_solver.
Qed.

(** ** Expanding *)

Section expand.
  Context (env : string -> option string).

Abbreviation text_of s := (foldr String.append "" (map (expand_piece env) (pieces 0 s))).
Abbreviation missing_in s := (flat_map (missing_of env) (pieces 0 s)).

Lemma missing_spec (s n : string) : n ∈ missing_in s <-> mentions n s /\ env n = None.
Proof.
  rewrite <- pieces_mention. split.
  - intros (p & Hp & Hn)%list_elem_of_In%in_flat_map. apply list_elem_of_In in Hp. destruct p as [c|m]; [done|].
    cbn in Hn. destruct (env m) eqn:Em; [done|]. by destruct Hn as [->|[]].
  - intros [Hp Hn]. apply list_elem_of_In, in_flat_map. exists (Ref n). split; [by apply list_elem_of_In|].
    cbn. rewrite Hn. by left.
Qed.

Lemma text_expands (s : string) : missing_in s = [] -> expands env s (text_of s).
Proof.
  induction s as [|m s Hm IH|c s Hc IH] using string_pieces_ind.
  - constructor.
  - rewrite pieces_ref by done. cbn. destruct (env m) as [val|] eqn:Em; [|done]. cbn. intros Hs.
    eapply expands_ref; eauto.
  - rewrite pieces_char by done. cbn. intros Hs. constructor; [|by apply IH].
    intros n rest Hn E. assert (match_ref (String c s) = Some n) as Es by (apply match_ref_spec; eauto).
    by rewrite Es in Hc.
Qed.

(** A string without the two characters has no reference. *)
Lemma no_mention (s n : string) : go_contains s "${" = false -> ~ mentions n s.
Proof.
  intros Hs (_ & pre & post & ->). revert Hs. induction pre as [|c pre IH].
  - unfold ref_text. autorewrite with gostr. cbn. by destruct (n +:+ String "}" post).
  - rewrite str_app_cons. cbn [go_contains]. intros Hs. apply IH. by case_match.
Qed.

Lemma text_same (s : string) : go_contains s "${" = false -> text_of s = s.
Proof.
  induction s as [|m s Hm IH|c s Hc IH] using string_pieces_ind.
  - done.
  - intros Hs. exfalso. eapply (no_mention _ m); [exact Hs|]. split; [done|]. by exists "", s.
  - rewrite pieces_char by done. cbn [map foldr expand_piece]. intros Hs. rewrite IH; [done|].
    cbn [go_contains] in Hs. by case_match.
Qed.

Lemma expandValue_str (s : string) :
  expandValue env (JStr s) = (JStr (text_of s), list_to_set (missing_in s)).
Proof.
  cbn. destruct (go_contains s "${") eqn:E; cbn; [done|]. rewrite text_same by done. f_equal.
  destruct (missing_in s) as [|n l] eqn:El; [done|]. exfalso.
  assert (Hn : n ∈ missing_in s) by (rewrite El; left). apply missing_spec in Hn as [Hn _].
  by apply (no_mention s n).
Qed.

Lemma expandValue_missing (v : json) (n : string) :
  n ∈ (expandValue env v).2 <-> mentioned n v /\ env n = None.
Proof.
  induction v as [| | |s|l IH|m IH] using json_nested_ind; try (cbn; split; [set_solver|by intros [[] _]]).
  - by cbn; split; [set_solver|intros [Hm _]; inversion Hm].
  - by cbn; split; [set_solver|intros [Hm _]; inversion Hm].
  - by cbn; split; [set_solver|intros [Hm _]; inversion Hm].
  - rewrite expandValue_str. cbn. rewrite elem_of_list_to_set, missing_spec.
    split; intros [H1 H2]; (split; [|done]); [by constructor|by inversion H1].
  - cbn. rewrite elem_of_union_list. rewrite Forall_forall in IH. split.
    + intros (X & HX & Hn). rewrite map_map in HX. apply list_elem_of_In, in_map_iff in HX as (v & <- & Hv).
      apply list_elem_of_In in Hv. apply IH in Hn as [Hm Hn]; [|done]. split; [by eapply mentioned_arr|done].
    + intros [Hm Hn]. inversion Hm as [|? v Hv Hmv|]; subst. exists (expandValue env v).2. split.
      * rewrite map_map. apply list_elem_of_In, in_map_iff. exists v. split; [done|by apply list_elem_of_In].
      * by apply IH.
  - cbn. rewrite elem_of_union_list. rewrite Forall_forall in IH. split.
    + intros (X & HX & Hn). rewrite map_map in HX. apply list_elem_of_In, in_map_iff in HX as ([k v] & <- & Hv).
      apply list_elem_of_In in Hv. apply (IH _ Hv) in Hn as [Hm Hn]. split; [by eapply mentioned_obj|done].
    + intros [Hm Hn]. inversion Hm as [| |? k v Hv Hmv]; subst. exists (expandValue env v).2. split.
      * rewrite map_map. apply list_elem_of_In, in_map_iff. exists (k, v). split; [done|by apply list_elem_of_In].
      * by apply (IH _ Hv).
Qed.

Lemma none_missing {A} (f : A -> json * gset string) (l : list A) (x : A) :
  ⋃ (map snd (map f l)) = ∅ -> x ∈ l -> (f x).2 = ∅.
Proof.
  intros Hu Hx. apply set_eq. intros n. split; [|set_solver]. intros Hn. rewrite <- Hu.
  apply elem_of_union_list. exists (f x).2. split; [|done]. rewrite map_map.
  apply list_elem_of_In, in_map_iff. exists x. split; [done|by apply list_elem_of_In].
Qed.

Lemma expandValue_expands (v : json) :
  (expandValue env v).2 = ∅ -> expands_json env v (expandValue env v).1.
Proof.
  induction v as [|b|s|s|l IH|m IH] using json_nested_ind; try (intros _; by apply expands_scalar).
  - rewrite expandValue_str. cbn [fst snd]. intros Hm. apply expands_str, text_expands.
    destruct (missing_in s) as [|n l] eqn:E; [done|]. cbn in Hm. exfalso. set_solver.
  - cbn. intros Hm. apply expands_arr. rewrite map_map. apply Forall2_fmap_r, Forall_Forall2_diag.
    rewrite Forall_forall in IH |- *. intros x Hx. apply IH; [done|]. by eapply (none_missing (expandValue env)).
  - cbn. intros Hm. apply expands_obj. rewrite map_map. apply Forall2_fmap_r, Forall_Forall2_diag.
    rewrite Forall_forall in IH |- *. intros [k x] Hx. split; [done|]. apply (IH _ Hx).
    rewrite map_map in Hm.
    eapply (none_missing (fun kv : string * json => expandValue env kv.2) m (k, x)); [|done].
    by rewrite map_map.
Qed.

(** The trigger's data is expanded exactly or not at all. Every string in
    it gets, from the left, the value of each variable it refers to in place of
    the reference, names of members and every other part of the spec staying;
    a value that itself looks like a reference is not read again. When some
    variable is not set, the spec is refused with an error whose text is the
    spec's name and the names of all the unset variables the data refers to,
    sorted and once each, and so with no value that did resolve. *)
Theorem expand_env_exact (s : Spec) :
  match ExpandEnv env s with
  | Ok s' =>
      (forall n, mentioned n (JObj (tr_Data (s_Trigger s))) -> env n <> None) /\
      exists data', expands_json env (JObj (tr_Data (s_Trigger s))) (JObj data') /\
      s' = mkEval (s_Name s) (s_Flow s) (mkTrigger (tr_Node (s_Trigger s)) (tr_Port (s_Trigger s)) data')
             (s_Timeout s) (s_Expect s) (s_Path s)
  | Err e =>
      exists names, e = ErrorString (s_Name s +:+ ": unset environment variable(s): " +:+ go_join ", " names) /\
      names <> [] /\ NoDup names /\ Sorted str_le names /\
      forall n, n ∈ names <-> mentioned n (JObj (tr_Data (s_Trigger s))) /\ env n = None
  end.
Proof.
  unfold ExpandEnv. destruct s as [name flow [node port data] timeout exp path]. cbn [s_Trigger s_Name tr_Data tr_Node tr_Port].
  destruct data as [|kv data].
  { split; [intros n Hn; inversion Hn as [| |? k v Hv]; by apply not_elem_of_nil in Hv|].
    exists []. split; [|done]. by apply expands_obj. }
  set (d := JObj (kv :: data)). pose proof (expandValue_missing d) as Hm. pose proof (expandValue_expands d) as He.
  destruct (expandValue env d) as [d' missing] eqn:Ed. cbn [fst snd] in *.
  destruct (elements missing) as [|n names] eqn:En.
  - apply elements_empty_inv in En. assert (missing = ∅) as -> by (by apply leibniz_equiv). split.
    + intros n Hn Hu. assert (n ∈ (∅ : gset string)) by (by apply Hm). set_solver.
    + specialize (He eq_refl). inversion He as [| |? m' Hm'|]; subst; [|done]. by exists m'.
  - eexists. split; [done|]. rewrite <- En. pose proof (go_sort_strings_perm (elements missing)) as Hp.
    split; [|split; [|split]].
    + intros E. rewrite E in Hp. apply Permutation_nil in Hp. by rewrite Hp in En.
    + rewrite Hp. apply NoDup_elements.
    + apply go_sort_strings_sorted.
    + intros x. rewrite Hp, elem_of_elements. apply Hm.
Qed.
End expand.

(** ** Verdicts *)

Section check.
  Context `{MapRange (list string)} `{MapRange Bound}.
  Variable number : string -> spec_float.
  Variable float_text : spec_float -> string.
  Variable value_text : json -> string.
  Variable marshal : json -> result goerror string.
  Variable unmarshal : string -> result goerror json.
  Variable ajson_unmarshal : string -> result goerror json.
  Variable ajson_eval : json -> string -> result goerror json.
  Variable unpack : json -> result goerror json.
  Variable compile : string -> result goerror (string -> bool).

Abbreviation value_at := (valueAt unmarshal ajson_unmarshal ajson_eval unpack).
Abbreviation holds_of := (satisfies number float_text value_text marshal compile).
Abbreviation verdict :=
  (Check_ number float_text value_text marshal unmarshal ajson_unmarshal ajson_eval unpack compile).

(** A payload arrived at a port: under the very key, or, where there is no such
    key, under one that ends in the reference. *)
Definition arrived (payloads : gmap string (list string)) (ref payload : string) : Prop :=
  match payloads !! ref with
  | Some l => payload ∈ l
  | None => exists pre l, payloads !! (pre +:+ ref) = Some l /\ payload ∈ l
  end.

Lemma matchPayloads_arrived (payloads : gmap string (list string)) (ref payload : string) :
  payload ∈ matchPayloads payloads ref <-> arrived payloads ref payload.
Proof.
  unfold matchPayloads, arrived. destruct (payloads !! ref) as [l|]; [done|].
  rewrite list_elem_of_In, in_flat_map. split.
  - intros ([k l] & Hk & Hp). apply list_elem_of_In in Hk. rewrite map_range_perm in Hk.
    apply elem_of_map_to_list in Hk. cbn [fst snd] in Hp.
    destruct (go_has_suffix k ref) eqn:E1; cbn [orb] in Hp.
    + apply has_suffix_iff in E1 as [pre ->]. exists pre, l. split; [done|by apply list_elem_of_In].
    + destruct (go_has_suffix k ("." +:+ ref)) eqn:E2; [|done].
      apply has_suffix_iff in E2 as [pre ->]. exists (pre +:+ "."), l. rewrite str_app_assoc.
      split; [done|by apply list_elem_of_In].
  - intros (pre & l & Hk & Hp). exists (pre +:+ ref, l). split.
    + apply list_elem_of_In. rewrite map_range_perm. by apply elem_of_map_to_list.
    + cbn [fst snd]. assert (go_has_suffix (pre +:+ ref) ref = true) as -> by (apply has_suffix_iff; eauto).
      by apply list_elem_of_In.
Qed.

Lemma any_satisfies_none (a : Arrival) (payloads : list string) (seen : string) :
  any_satisfies number float_text value_text marshal unmarshal ajson_unmarshal ajson_eval unpack compile a payloads seen = None
  <-> exists payload value, payload ∈ payloads /\ value_at payload (a_Path a) = Ok value /\ (holds_of a value).1 = true.
Proof.
  revert seen. induction payloads as [|p l IH]; intros seen; cbn [any_satisfies].
  - split; [done|]. intros (? & ? & Hp & _). by apply not_elem_of_nil in Hp.
  - destruct (value_at p (a_Path a)) as [v|e] eqn:Ev; [destruct (holds_of a v) as [[] s] eqn:Es|]; rewrite ?IH; split.
    all: try (intros (q & w & Hq & Hw & Hh); exists q, w; by split; [right|]).
    all: try (intros (q & w & [->|Hq]%elem_of_cons & Hw & Hh); [rewrite Ev in Hw; simplify_eq|by exists q, w]).
    + intros _. exists p, v. rewrite Es. by split; [left|].
    + done.
    + by rewrite Es in Hh.
Qed.

Lemma checkArrival_nil (a : Arrival) (got : Observed) :
  checkArrival number float_text value_text marshal unmarshal ajson_unmarshal ajson_eval unpack compile a got = [] <->
  exists payload value, arrived (o_Payloads got) (a_At a) payload /\
    value_at payload (a_Path a) = Ok value /\ (holds_of a value).1 = true.
Proof.
  setoid_rewrite <- matchPayloads_arrived. unfold checkArrival.
  destruct (matchPayloads (o_Payloads got) (a_At a)) as [|p l] eqn:E.
  - split; [done|]. intros (q & w & Hq & _). by apply not_elem_of_nil in Hq.
  - rewrite <- any_satisfies_none with (seen := ""). by destruct (any_satisfies _ _ _ _ _ _ _ _ _ a (p :: l) "").
Qed.

Lemma check_silent_nil (got : Observed) (port : string) :
  check_silent got port = [] <-> forall payload, ~ arrived (o_Payloads got) port payload.
Proof.
  setoid_rewrite <- matchPayloads_arrived. unfold check_silent.
  destruct (matchPayloads (o_Payloads got) port) as [|p l].
  - split; [|done]. intros _ q. apply not_elem_of_nil.
  - split; [done|]. intros Hn. destruct (Hn p). by left.
Qed.

(** A metered amount within its bounds. *)
Definition within (amount : spec_float) (b : Bound) : Prop :=
  (forall lo, b_Min b = Some lo -> SFltb amount lo = false) /\ (forall hi, b_Max b = Some hi -> SFltb hi amount = false).

Lemma bound_nil {A} (o : option spec_float) (c : spec_float -> bool) (x : spec_float -> A) :
  match o with Some f => if c f then [x f] else [] | None => [] end = [] <-> forall f, o = Some f -> c f = false.
Proof.
  destruct o as [f|]; [|done]. destruct (c f) eqn:E.
  - split; [done|]. intros Hf. by rewrite (Hf f eq_refl) in E.
  - split; [|done]. by intros _ f' [= <-].
Qed.

Lemma check_usage_nil (got : Observed) (unit : string) (bound : Bound) :
  check_usage float_text got (unit, bound) = [] <->
  exists amount, o_Usage got !! unit = Some amount /\ within amount bound.
Proof.
  unfold check_usage, within. destruct (o_Usage got !! unit) as [amount|]; [|by split; [done|intros (? & ? & _)]].
  rewrite app_nil.
  rewrite (bound_nil (b_Min bound) (fun lo => SFltb amount lo)
             (fun lo => mkFailure ("expected " +:+ unit +:+ " >= " +:+ float_text lo) (float_text amount))).
  rewrite (bound_nil (b_Max bound) (fun hi => SFltb hi amount)
             (fun hi => mkFailure ("expected " +:+ unit +:+ " <= " +:+ float_text hi) (float_text amount))).
  split; [intros Hb; by exists amount|by intros (? & [= <-] & Hb)].
Qed.

(** C20. An eval passes exactly when all of its claims hold: the run left as
    many unhandled errors as expected, none where nothing is said; each
    arrival is satisfied by at least one payload that reached the port, through
    its path; nothing reached a port that must stay silent; and every bounded
    unit was metered, within its bounds. The order in which the payloads and
    the bounds are walked never matters. A port is addressed by its key, or by
    any text a key ends with where no key is that text. *)
Theorem check_passes_iff (spec : Spec) (got : Observed) :
  verdict spec got = [] <->
  o_Errors got = default 0%Z (ex_Errors (s_Expect spec)) /\
  (forall a, a ∈ ex_Arrives (s_Expect spec) ->
     exists payload value, arrived (o_Payloads got) (a_At a) payload /\
       value_at payload (a_Path a) = Ok value /\ (holds_of a value).1 = true) /\
  (forall port payload, port ∈ ex_Silent (s_Expect spec) -> ~ arrived (o_Payloads got) port payload) /\
  (forall unit bound, ex_Usage (s_Expect spec) !! unit = Some bound ->
     exists amount, o_Usage got !! unit = Some amount /\ within amount bound).
Proof.
  unfold Check_. rewrite !app_nil, !flat_map_nil. setoid_rewrite checkArrival_nil. setoid_rewrite check_silent_nil.
  assert (He : check_errors spec got = [] <-> o_Errors got = default 0%Z (ex_Errors (s_Expect spec))).
  { unfold check_errors. by destruct (Z.eqb_spec (o_Errors got) (default 0%Z (ex_Errors (s_Expect spec)))). }
  assert (Hu : (forall x, x ∈ map_range (ex_Usage (s_Expect spec)) -> check_usage float_text got x = []) <->
               forall unit bound, ex_Usage (s_Expect spec) !! unit = Some bound ->
                 exists amount, o_Usage got !! unit = Some amount /\ within amount bound).
  { setoid_rewrite map_range_perm. split.
    - intros Hx unit bound Hb. apply check_usage_nil, Hx. by apply elem_of_map_to_list.
    - intros Hx [unit bound] Hb. apply elem_of_map_to_list in Hb. apply check_usage_nil. eauto. }
  rewrite He, Hu. naive_solver.
Qed.
End check.
