(* ===== verification/Manager.v ===== *)
(** * The Kubernetes manager

    [pkg/resource/manager.go]: what the platform and the tools do to the
    cluster. Projects own flows, pages and scenarios, flows own nodes; deleting
    a node or a flow is followed by the removal of what still refers to it; and
    a module's port is exposed through the service and the ingress of its
    release.

    The API server is the class [Client], one instance per kind of object: what
    each call answers in a state of the cluster and the state it leaves. The
    laws a server keeps are [ClientLaws], beside the theorems. Waiting is the
    class [Poller], [apimachinery]'s poll. A nil map written to and a nil
    pointer read are panics, here [None]. Helm's releases and the watch are
    calls of libraries only and not modelled. *)
From S2P Require Import Prelude GoErrors Names Graph.

Open Scope string_scope.
Open Scope list_scope.

(** ** Objects *)

Record TypeMeta := mkType { tm_APIVersion : string; tm_Kind : string }.

Record OwnerReference := mkOwner {
  or_APIVersion : string;
  or_Kind : string;
  or_Name : string;
  or_UID : string;
  or_Controller : option bool;
}.

Record ObjectMeta := mkMeta {
  om_Name : string;
  om_GenerateName : string;
  om_Namespace : string;
  om_UID : string;
  om_Labels : gmap string string;
  om_Annotations : option (gmap string string);    (* none: nil *)
  om_Owners : list OwnerReference;
}.

Record TinyProject := mkProject { pj_type : TypeMeta; pj_meta : ObjectMeta; pj_Description : string }.
Record TinyFlow := mkFlow { fl_type : TypeMeta; fl_meta : ObjectMeta }.

Record TinyWidget := mkWidget {
  w_Port : string;
  w_Name : string;
  w_SchemaPatch : string;
  w_GridX : Z; w_GridY : Z; w_GridW : Z; w_GridH : Z;
}.
Record TinyWidgetPage := mkPage { pg_type : TypeMeta; pg_meta : ObjectMeta; pg_Widgets : list TinyWidget }.

Record ScenarioPortData := mkPortData { spd_Port : string; spd_Data : string }.
Record TinyScenario := mkScenario { sc_type : TypeMeta; sc_meta : ObjectMeta; sc_Ports : list ScenarioPortData }.

Record ModuleComponent := mkModuleComponent {
  mc_Name : string; mc_Description : string; mc_Info : string; mc_Tags : list string }.
Record TinyModule := mkModule {
  tmo_meta : ObjectMeta;
  tmo_Image : string;
  tmo_Name : string;                               (* of the status *)
  tmo_Version : string;
  tmo_Components : list ModuleComponent;
}.

(** A TinyNode with its type, owners and the module of its status. *)
Record NodeResource := mkResource {
  nr_type : TypeMeta;
  nr_Owners : list OwnerReference;
  nr_Module : string;
  nr_node : TinyNode;
}.

Record ServicePort := mkServicePort { sp_Name : string; sp_Port : Z; sp_TargetPort : Z }.
Record Service := mkService { sv_meta : ObjectMeta; sv_Ports : list ServicePort }.

Record IngressPath := mkPath {
  ip_Path : string;
  ip_PathType : option string;
  ip_Service : option (string * Z);                (* none: another backend *)
}.
Record IngressRule := mkRule { r_Host : string; r_HTTP : option (list IngressPath) }.
Record IngressTLS := mkTLS { t_Hosts : list string; t_SecretName : string }.
Record Ingress := mkIngress { ig_meta : ObjectMeta; ig_Rules : list IngressRule; ig_TLS : list IngressTLS }.

Record Pod := mkPod { pod_meta : ObjectMeta }.

(** ** The API server *)

Class Object (A : Type) := { o_namespace : A -> string; o_name : A -> string; o_labels : A -> gmap string string }.

#[export] Instance project_object : Object TinyProject :=
  { o_namespace p := om_Namespace (pj_meta p); o_name p := om_Name (pj_meta p); o_labels p := om_Labels (pj_meta p) }.
#[export] Instance flow_object : Object TinyFlow :=
  { o_namespace p := om_Namespace (fl_meta p); o_name p := om_Name (fl_meta p); o_labels p := om_Labels (fl_meta p) }.
#[export] Instance page_object : Object TinyWidgetPage :=
  { o_namespace p := om_Namespace (pg_meta p); o_name p := om_Name (pg_meta p); o_labels p := om_Labels (pg_meta p) }.
#[export] Instance scenario_object : Object TinyScenario :=
  { o_namespace p := om_Namespace (sc_meta p); o_name p := om_Name (sc_meta p); o_labels p := om_Labels (sc_meta p) }.
#[export] Instance module_object : Object TinyModule :=
  { o_namespace p := om_Namespace (tmo_meta p); o_name p := om_Name (tmo_meta p); o_labels p := om_Labels (tmo_meta p) }.
#[export] Instance node_object : Object NodeResource :=
  { o_namespace n := n_Namespace (nr_node n); o_name n := n_Name (nr_node n); o_labels n := n_Labels (nr_node n) }.
#[export] Instance service_object : Object Service :=
  { o_namespace p := om_Namespace (sv_meta p); o_name p := om_Name (sv_meta p); o_labels p := om_Labels (sv_meta p) }.
#[export] Instance ingress_object : Object Ingress :=
  { o_namespace p := om_Namespace (ig_meta p); o_name p := om_Name (ig_meta p); o_labels p := om_Labels (ig_meta p) }.
#[export] Instance pod_object : Object Pod :=
  { o_namespace p := om_Namespace (pod_meta p); o_name p := om_Name (pod_meta p); o_labels p := om_Labels (pod_meta p) }.

(** Keys are a namespace and a name; a selector is the labels to match. *)
Class Client (S A : Type) `{Object A} := {
  api_get : string -> string -> S -> result goerror A;
  api_list : string -> gmap string string -> S -> result goerror (list A);
  api_create : A -> S -> S * result goerror A;     (* the object as it is stored *)
  api_update : A -> S -> S * error;
  api_delete : string -> string -> S -> S * error;
  api_delete_all : string -> gmap string string -> S -> S * error;
}.

Class ApiErrors := { IsNotFound : goerror -> bool; IsAlreadyExists : goerror -> bool }.

(** [wait.PollUntilContextTimeout], at once and then every interval: interval,
    timeout, condition. *)
Class Poller (S : Type) := { poll_until : Z -> Z -> (S -> result goerror bool) -> S -> S * error }.

(** ** Labels and annotations *)

Definition GroupVersion : string := "operator.tinysystems.io/v1alpha1".
Definition ProjectNameAnnotation : string := "tinysystems.io/project-name".
Definition FlowDescriptionAnnotation : string := "tinysystems.io/flow-description".
Definition PageTitleAnnotation : string := "tinysystems.io/page-name".
Definition PageSortIdxAnnotation : string := "tinysystems.io/page-sort-idx".
Definition ScenarioNameAnnotation : string := "tinysystems.io/scenario-name".
Definition IngressHostNameSuffixAnnotation : string := "tinysystems.io/ingress-hostname-suffix".

Definition one_label (k v : string) : gmap string string := {[ k := v ]}.
Definition flow_labels (project flow : string) : gmap string string :=
  <[FlowNameLabel := flow]> (one_label ProjectNameLabel project).

(** The type of an object that came without, by its kind. *)
Definition typed (kind : string) (t : TypeMeta) : TypeMeta :=
  mkType (if tm_APIVersion t =? "" then GroupVersion else tm_APIVersion t)
         (if tm_Kind t =? "" then kind else tm_Kind t).

Definition owned_by (t : TypeMeta) (m : ObjectMeta) : list OwnerReference :=
  [mkOwner (tm_APIVersion t) (tm_Kind t) (om_Name m) (om_UID m) (Some true)].

Definition set_owners (l : list OwnerReference) (n : NodeResource) : NodeResource :=
  mkResource (nr_type n) l (nr_Module n) (nr_node n).
Definition set_annotation (k v : string) (m : ObjectMeta) (old : gmap string string) : ObjectMeta :=
  mkMeta (om_Name m) (om_GenerateName m) (om_Namespace m) (om_UID m) (om_Labels m) (Some (<[k := v]> old)) (om_Owners m).
Definition set_widgets (l : list TinyWidget) (p : TinyWidgetPage) : TinyWidgetPage :=
  mkPage (pg_type p) (pg_meta p) l.
Definition set_resource_node (node : TinyNode) (n : NodeResource) : NodeResource :=
  mkResource (nr_type n) (nr_Owners n) (nr_Module n) node.

(** A new object of a project. *)
Definition new_meta (ns name project : string) (annotations : gmap string string) (owners : list OwnerReference) : ObjectMeta :=
  mkMeta "" (SanitizeResourceName name) ns "" (one_label ProjectNameLabel project) (Some annotations) owners.

Section manager.
  Context {S : Type} `{ApiErrors} `{Poller S}.
  Context `{!Client S TinyProject} `{!Client S TinyFlow} `{!Client S NodeResource} `{!Client S TinyWidgetPage}
    `{!Client S TinyScenario} `{!Client S TinyModule}.

(** The manager's namespace. *)
  Variable namespace : string.

(** ** Projects and flows *)

Definition GetProject (name ns : string) (s : S) : result goerror TinyProject :=
  match api_get ns name s with
  | Err e => Err e
  | Ok p => Ok (mkProject (typed "TinyProject" (pj_type p)) (pj_meta p) (pj_Description p))
  end.

Definition GetFLow (name ns : string) (s : S) : result goerror TinyFlow :=
  match api_get ns name s with
  | Err e => Err e
  | Ok f => Ok (mkFlow (typed "TinyFlow" (fl_type f)) (fl_meta f))
  end.

Definition CreateProject (ns name : string) (s : S) : S * result goerror TinyProject :=
  let proj := mkProject (mkType "" "")
    (mkMeta "" (SanitizeResourceName name) ns "" ∅ (Some {[ ProjectNameAnnotation := name ]}) []) "" in
  match api_create proj s with
  | (s, Err e) => (s, Err (ErrorString ("unable to create project " +:+ error_text e)))
  | (s, Ok p) => (s, Ok p)
  end.

Definition CreateFlow (ns projectName name : string) (s : S) : S * result goerror string :=
  if projectName =? "" then (s, Err (ErrorString "project name is required"))
  else
    match GetProject projectName ns s with
    | Err e => (s, Err (WrapError "failed to get project for owner reference: " e))
    | Ok project =>
        let flow := mkFlow (mkType "" "")
          (new_meta ns name projectName {[ FlowDescriptionAnnotation := name ]}
             (owned_by (pj_type project) (pj_meta project))) in
        match api_create flow s with
        | (s, Err e) => (s, Err (ErrorString ("unable to create project " +:+ error_text e)))
        | (s, Ok f) => (s, Ok (om_Name (fl_meta f)))
        end
    end.

Definition GetProjectList (s : S) : result goerror (list TinyProject) :=
  match api_list namespace ∅ s with
  | Err e => Err (ErrorString ("service list error: " +:+ error_text e))
  | Ok l => Ok l
  end.

Definition GetFlowList (projectName : string) (s : S) : result goerror (list TinyFlow) :=
  match api_list namespace (one_label ProjectNameLabel projectName) s with
  | Err e => Err (ErrorString ("service list error: " +:+ error_text e))
  | Ok l => Ok l
  end.

(** None: the flow's annotations are a nil map, and writing one panics. *)
Definition RenameFlow (name ns newName : string) (s : S) : option (S * error) :=
  match api_get ns name s with
  | Err e => Some (s, Some e)
  | Ok flow =>
      match om_Annotations (fl_meta flow) with
      | None => None
      | Some old =>
          Some (api_update (mkFlow (fl_type flow) (set_annotation FlowDescriptionAnnotation newName (fl_meta flow) old)) s)
      end
  end.

Definition RenameProject (name ns newName : string) (s : S) : S * error :=
  match api_get ns name s with
  | Err e => (s, Some e)
  | Ok project =>
      let old := default ∅ (om_Annotations (pj_meta project)) in
      api_update (mkProject (pj_type project) (set_annotation ProjectNameAnnotation newName (pj_meta project) old)
                    (pj_Description project)) s
  end.

Definition UpdateProjectDescription (name ns description : string) (s : S) : S * error :=
  match api_get ns name s with
  | Err e => (s, Some e)
  | Ok project => api_update (mkProject (pj_type project) (pj_meta project) description) s
  end.

Definition DeleteFlow (flowResourceName : string) (s : S) : S * error :=
  api_delete (A := TinyFlow) namespace flowResourceName s.
Definition DeleteProject (projectName : string) (s : S) : S * error :=
  api_delete (A := TinyProject) namespace projectName s.

(** ** Pages and scenarios *)

Definition CreatePage (requestedPageName projectName ns : string) (idx : Z) (s : S) : S * result goerror string :=
  match GetProject projectName ns s with
  | Err e => (s, Err (WrapError "failed to get project for owner reference: " e))
  | Ok project =>
      let page := mkPage (mkType "" "")
        (new_meta ns requestedPageName projectName
           (<[PageTitleAnnotation := requestedPageName]> {[ PageSortIdxAnnotation := go_itoa idx ]})
           (owned_by (pj_type project) (pj_meta project))) [] in
      match api_create page s with
      | (s, Err e) => (s, Err e)
      | (s, Ok p) => (s, Ok (om_Name (pg_meta p)))
      end
  end.

Definition UpdatePage (page : TinyWidgetPage) (s : S) : S * error := api_update page s.
Definition DeletePage (page : TinyWidgetPage) (s : S) : S * error :=
  api_delete (A := TinyWidgetPage) (o_namespace page) (o_name page) s.

Definition CreateScenario (scenarioName projectName : string) (s : S) : S * result goerror TinyScenario :=
  match GetProject projectName namespace s with
  | Err e => (s, Err (WrapError "failed to get project for owner reference: " e))
  | Ok project =>
      let scenario := mkScenario (mkType "" "")
        (new_meta namespace scenarioName projectName {[ ScenarioNameAnnotation := scenarioName ]}
           (owned_by (pj_type project) (pj_meta project))) [] in
      match api_create scenario s with
      | (s, Err e) => (s, Err (WrapError "failed to create scenario: " e))
      | (s, Ok p) => (s, Ok p)
      end
  end.

Definition GetProjectScenarios (projectName : string) (s : S) : result goerror (list TinyScenario) :=
  api_list namespace (one_label ProjectNameLabel projectName) s.
Definition GetScenario (name ns : string) (s : S) : result goerror TinyScenario := api_get ns name s.
Definition UpdateScenario (scenario : TinyScenario) (s : S) : S * error := api_update scenario s.
Definition DeleteScenario (scenario : TinyScenario) (s : S) : S * error :=
  api_delete (A := TinyScenario) (o_namespace scenario) (o_name scenario) s.

Definition GetProjectPageWidgets (projectName : string) (s : S) : result goerror (list TinyWidgetPage) :=
  api_list namespace (one_label ProjectNameLabel projectName) s.

Definition MoveWidgetPageToPos (s : S) : error := None.

(** ** Nodes *)

Definition GetNode (name ns : string) (s : S) : result goerror NodeResource :=
  match api_get ns name s with
  | Err e => Err e
  | Ok n => Ok (mkResource (typed "TinyNode" (nr_type n)) (nr_Owners n) (nr_Module n) (nr_node n))
  end.

Definition CreateNode (node : NodeResource) (s : S) : S * result goerror NodeResource :=
  let flowName := label (nr_node node) FlowNameLabel in
  if flowName =? "" then api_create node s
  else
    match GetFLow flowName (n_Namespace (nr_node node)) s with
    | Err e => (s, Err (WrapError "failed to get flow for owner reference: " e))
    | Ok flow => api_create (set_owners (owned_by (fl_type flow) (fl_meta flow)) node) s
    end.

Definition UpdateNode (node : NodeResource) (s : S) : S * error := api_update node s.
Definition DeleteNode (node : NodeResource) (s : S) : S * error :=
  api_delete (A := NodeResource) (o_namespace node) (o_name node) s.

Definition GetProjectFlowNodes (projectName flowName : string) (s : S) : result goerror (list NodeResource) :=
  api_list namespace (flow_labels projectName flowName) s.
Definition GetProjectNodes (projectName : string) (s : S) : result goerror (list NodeResource) :=
  api_list namespace (one_label ProjectNameLabel projectName) s.
Definition DeleteFlowNodes (project flow : string) (s : S) : S * error :=
  api_delete_all (A := NodeResource) namespace (flow_labels project flow) s.

(** ** What still refers to a deleted node *)

(** An update whose failure is only logged: the names of the objects that were
    not updated, in the order of the log. *)
Definition update_logged {A} `{Client S A} (x : A) (acc : S * list string) : S * list string :=
  match api_update x acc.1 with
  | (s, None) => (s, acc.2)
  | (s, Some _) => (s, acc.2 ++ [o_name x])
  end.

Definition clean_node (deletedNodeName : string) (acc : S * list string) (n : NodeResource) : S * list string :=
  if n_Name (nr_node n) =? deletedNodeName then acc
  else
    let '(node, changed) := RemoveNodeReferences (nr_node n) deletedNodeName in
    if changed then update_logged (set_resource_node node n) acc else acc.

Definition CleanupNodeReferences (projectName deletedNodeName : string) (s : S) : S * list string * error :=
  match GetProjectNodes projectName s with
  | Err e => (s, [], Some (WrapError "get project nodes: " e))
  | Ok nodes => (fold_left (clean_node deletedNodeName) nodes (s, []), None)
  end.

(** A page without the widgets of the nodes of the prefixes. *)
Definition keeps (prefixes : list string) (w : TinyWidget) : bool :=
  negb (existsb (go_has_prefix (w_Port w)) prefixes).

Definition clean_page (prefixes : list string) (acc : S * list string) (p : TinyWidgetPage) : S * list string :=
  let filtered := List.filter (keeps prefixes) (pg_Widgets p) in
  if (length filtered =? length (pg_Widgets p))%nat then acc
  else update_logged (set_widgets filtered p) acc.

Definition CleanupWidgetReferences (projectName deletedNodeName : string) (s : S) : S * list string * error :=
  match GetProjectPageWidgets projectName s with
  | Err e => (s, [], Some (WrapError "get widget pages: " e))
  | Ok pages => (fold_left (clean_page [deletedNodeName +:+ ":"]) pages (s, []), None)
  end.

Definition CleanupFlowWidgetReferences (projectName flowResourceName : string) (s : S) : S * list string * error :=
  match api_list (A := NodeResource) namespace (flow_labels projectName flowResourceName) s with
  | Err e => (s, [], Some (WrapError "list flow nodes: " e))
  | Ok [] => (s, [], None)
  | Ok nodes =>
      let prefixes := map (fun n => n_Name (nr_node n) +:+ ":") nodes in
      match GetProjectPageWidgets projectName s with
      | Err e => (s, [], Some (WrapError "get widget pages: " e))
      | Ok pages => (fold_left (clean_page prefixes) pages (s, []), None)
      end
  end.

(** ** Modules *)

Definition CreateModule (name version : string) (s : S) : S * error :=
  let m := mkModule (mkMeta (SanitizeResourceName name) "" namespace "" ∅ (Some ∅) [])
             (name +:+ ":" +:+ version) "" "" [] in
  match api_create m s with
  | (s, Ok _) => (s, None)
  | (s, Err e) => (s, if IsAlreadyExists e then None else Some e)
  end.

Definition GetInstalledComponents (s : S) : result goerror (list (string * string * list ModuleComponent)) :=
  match api_list namespace ∅ s with
  | Err e => Err (ErrorString ("nodes list error: " +:+ error_text e))
  | Ok mods => Ok (map (fun v : TinyModule => (tmo_Name v, tmo_Version v, tmo_Components v)) mods)
  end.

(** ** Waiting for the controller *)

Definition DefaultSyncTimeout : Z := 30000000000.
Definition DefaultSyncPollInterval : Z := 500000000.

Definition sync_timeout (timeout : Z) : Z := if (timeout =? 0)%Z then DefaultSyncTimeout else timeout.

Definition isNodeSynced (n : NodeResource) : bool :=
  let st := n_Status (nr_node n) in
  if nr_Module n =? "" then false
  else if negb (st_Status st =? "OK") then false
  else if st_Error st then false
  else negb (st_ObservedGeneration st <? n_Generation (nr_node n))%Z.

Definition created_condition (name ns : string) (s : S) : result goerror bool :=
  match GetNode name ns s with
  | Err e => if IsNotFound e then Ok false else Err e
  | Ok n =>
      let st := n_Status (nr_node n) in
      if (n_Generation (nr_node n) <=? st_ObservedGeneration st)%Z
      then if st_Error st then Ok true else Ok (isNodeSynced n)
      else Ok false
  end.

Definition WaitForNodeSync (name ns : string) (timeout : Z) (s : S) : S * error :=
  poll_until DefaultSyncPollInterval (sync_timeout timeout) (created_condition name ns) s.

Definition updated_condition (name ns : string) (prevGeneration : Z) (s : S) : result goerror bool :=
  match GetNode name ns s with
  | Err e => Err e
  | Ok n =>
      if (prevGeneration <? n_Generation (nr_node n))%Z && isNodeSynced n then Ok true
      else Ok (isNodeSynced n)
  end.

Definition waitForNodeSyncWithGeneration (name ns : string) (prevGeneration timeout : Z) (s : S) : S * error :=
  poll_until DefaultSyncPollInterval timeout (updated_condition name ns prevGeneration) s.

Definition CreateNodeSync (node : NodeResource) (timeout : Z) (s : S) : S * error :=
  match CreateNode node s with
  | (s, Err e) => (s, Some e)
  | (s, Ok n) => WaitForNodeSync (n_Name (nr_node n)) (n_Namespace (nr_node n)) (sync_timeout timeout) s
  end.

Definition UpdateNodeSync (node : NodeResource) (timeout : Z) (s : S) : S * error :=
  let name := n_Name (nr_node node) in let ns := n_Namespace (nr_node node) in
  match GetNode name ns s with
  | Err e => (s, Some (WrapError "failed to get current node: " e))
  | Ok current =>
      match UpdateNode node s with
      | (s, Some e) => (s, Some e)
      | (s, None) => waitForNodeSyncWithGeneration name ns (n_Generation (nr_node current)) (sync_timeout timeout) s
      end
  end.

Definition deleted_condition (name ns : string) (s : S) : result goerror bool :=
  match GetNode name ns s with
  | Err e => if IsNotFound e then Ok true else Err e
  | Ok _ => Ok false
  end.

Definition WaitForNodeDeletion (name ns : string) (timeout : Z) (s : S) : S * error :=
  poll_until DefaultSyncPollInterval (sync_timeout timeout) (deleted_condition name ns) s.
End manager.
