(* ===== verification/Ingress.v ===== *)
(** * Exposing a module's port

    [pkg/resource/manager.go], [ExposePort] and [DisclosePort]: the port is
    added to the service of the module's release, and rules and certificates
    for its hostnames to the ingress; disclosing takes both back. Ports are
    [int32]; the lock that serialises the two operations is not modelled, since
    each runs alone on a state of the cluster. The manager's pod name is the
    environment's HOSTNAME, a parameter. A nil pointer read is a panic, here
    [None]. *)
From S2P Require Import Prelude GoErrors Manager.

Open Scope string_scope.
Open Scope list_scope.

(** [int32(port)]. *)
Definition to_int32 (z : Z) : Z := ((z + 2 ^ 31) mod 2 ^ 32 - 2 ^ 31)%Z.

(** ** Rules and certificates *)

(** The rule of an exposed port: every path, to the service. *)
Definition service_rule (service : string) (port : Z) : list IngressPath :=
  [mkPath "/" (Some "Prefix") (Some (service, to_int32 port))].

(** The first rule of the host gets the rule, or one is added. *)
Fixpoint set_rule (hostname : string) (http : list IngressPath) (rules : list IngressRule) : list IngressRule :=
  match rules with
  | [] => [mkRule hostname (Some http)]
  | r :: rules' => if r_Host r =? hostname then mkRule (r_Host r) (Some http) :: rules'
                   else r :: set_rule hostname http rules'
  end.

Definition has_tls (tls : list IngressTLS) (hostname : string) : bool :=
  existsb (fun t => existsb (String.eqb hostname) (t_Hosts t)) tls.

Definition new_tls (hostname : string) : IngressTLS := mkTLS [hostname] (hostname +:+ "-tls").

Definition set_ingress (rules : list IngressRule) (tls : list IngressTLS) (ig : Ingress) : Ingress :=
  mkIngress (ig_meta ig) rules tls.

(** The ingress of [addRulesIngress], as it is updated. *)
Definition added_rules (service : string) (hostnames : list string) (port : Z) (ig : Ingress) : Ingress :=
  set_ingress
    (fold_left (fun rules hostname => set_rule hostname (service_rule service port) rules) hostnames (ig_Rules ig))
    (ig_TLS ig ++ map new_tls (List.filter (fun hostname => negb (has_tls (ig_TLS ig) hostname)) hostnames))
    ig.

(** The paths of a rule in order: the rule is saved once for each path before
    the first to the service's port, which deletes its host. None: a path
    whose backend is no service. *)
Fixpoint walk_paths (service : string) (port : Z) (rule : IngressRule) (paths : list IngressPath)
    : option (list IngressRule * list string) :=
  match paths with
  | [] => Some ([], [])
  | p :: paths' =>
      match ip_Service p with
      | None => None
      | Some (name, number) =>
          if (number =? to_int32 port)%Z && (name =? service) then Some ([], [r_Host rule])
          else match walk_paths service port rule paths' with
               | None => None
               | Some (rules, hosts) => Some (rule :: rules, hosts)
               end
      end
  end.

Fixpoint walk_rules (service : string) (port : Z) (rules : list IngressRule) : option (list IngressRule * list string) :=
  match rules with
  | [] => Some ([], [])
  | rule :: rules' =>
      match r_HTTP rule with
      | None => walk_rules service port rules'
      | Some paths =>
          match walk_paths service port rule paths with
          | None => None
          | Some (kept, hosts) =>
              match walk_rules service port rules' with
              | None => None
              | Some (kept', hosts') => Some (kept ++ kept', hosts ++ hosts')
              end
          end
      end
  end.

(** The ingress of [removeRulesIngress], as it is updated. *)
Definition removed_rules (service : string) (port : Z) (ig : Ingress) : option Ingress :=
  match walk_rules service port (ig_Rules ig) with
  | None => None
  | Some (rules, deleted) =>
      let tls := List.filter (fun t => negb (existsb (fun h => existsb (String.eqb h) deleted) (t_Hosts t))) (ig_TLS ig) in
      Some (set_ingress rules tls ig)
  end.

(** ** The service's ports *)

Definition has_port (port : Z) (ports : list ServicePort) : bool :=
  existsb (fun p => (sp_Port p =? to_int32 port)%Z) ports.
Definition with_service_port (port : Z) (ports : list ServicePort) : list ServicePort :=
  ports ++ [mkServicePort ("port" +:+ go_itoa port) (to_int32 port) (to_int32 port)].
Definition without_service_port (port : Z) (ports : list ServicePort) : list ServicePort :=
  List.filter (fun p => negb (sp_Port p =? to_int32 port)%Z) ports.

Section exposure.
  Context {S : Type} `{!Client S Service} `{!Client S Ingress} `{!Client S Pod}.
  Variable namespace : string.
  Variable HOSTNAME : string.

Definition release_labels (releaseName : string) : gmap string string :=
  <["app.kubernetes.io/name" := "tinysystems-operator"]> {[ "app.kubernetes.io/instance" := releaseName ]}.

Definition getReleaseNameByPodName (podName : string) (s : S) : result goerror string :=
  match api_get (A := Pod) namespace podName s with
  | Err e => Err (ErrorString ("unable to find current pod: " +:+ error_text e))
  | Ok pod =>
      let releaseName := default "" (o_labels pod !! "app.kubernetes.io/instance") in
      if releaseName =? "" then Err (ErrorString "release name label not found") else Ok releaseName
  end.

Definition getReleaseService (releaseName : string) (s : S) : result goerror Service :=
  match api_list namespace (<["app.kubernetes.io/component" := "manager"]> (release_labels releaseName)) s with
  | Err e => Err (ErrorString ("service list error: " +:+ error_text e))
  | Ok [] => Err (ErrorString "unable to find manager service")
  | Ok [svc] => Ok svc
  | Ok (_ :: _ :: _) => Err (ErrorString "service is ambigous")
  end.

Definition getReleaseIngress (releaseName : string) (s : S) : result goerror Ingress :=
  match api_list namespace (release_labels releaseName) s with
  | Err e => Err (ErrorString ("service list error: " +:+ error_text e))
  | Ok [] => Err (ErrorString "unable to find manager ingress")
  | Ok [ig] => Ok ig
  | Ok (_ :: _ :: _) => Err (ErrorString "ingress is ambigous")
  end.

Definition getIngressAutoHostnamePrefix (ig : Ingress) : string :=
  default "" (default ∅ (om_Annotations (ig_meta ig)) !! IngressHostNameSuffixAnnotation).

(** The service as the caller goes on with it, its name at least. *)
Definition exposeServicePort (svc : Service) (port : Z) (s : S) : S * error :=
  if has_port port (sv_Ports svc) then (s, None)
  else api_update (mkService (sv_meta svc) (with_service_port port (sv_Ports svc))) s.

Definition discloseServicePort (svc : Service) (port : Z) (s : S) : S * error :=
  api_update (mkService (sv_meta svc) (without_service_port port (sv_Ports svc))) s.

Definition addRulesIngress (ig : Ingress) (svc : Service) (hostnames : list string) (port : Z) (s : S)
    : S * result goerror (list string) :=
  match hostnames with
  | [] => (s, Err (ErrorString "no hostnames provided"))
  | _ => match api_update (added_rules (o_name svc) hostnames port ig) s with
         | (s, Some e) => (s, Err e)
         | (s, None) => (s, Ok hostnames)
         end
  end.

Definition removeRulesIngress (ig : Ingress) (svc : Service) (port : Z) (s : S) : option (S * error) :=
  match removed_rules (o_name svc) port ig with
  | None => None
  | Some ig => Some (api_update ig s)
  end.

Definition ExposePort (autoHostName : string) (hostnames : list string) (port : Z) (s : S)
    : S * result goerror (list string) :=
  if HOSTNAME =? "" then (s, Err (ErrorString "unable to determine the current pod's name"))
  else if match hostnames with [] => autoHostName =? "" | _ => false end
  then (s, Err (ErrorString "empty hostnames provided"))
  else
    match getReleaseNameByPodName HOSTNAME s with
    | Err e => (s, Err (ErrorString ("unable to find release name: " +:+ error_text e)))
    | Ok releaseName =>
        match getReleaseService releaseName s with
        | Err e => (s, Err (ErrorString ("unable to get service: " +:+ error_text e)))
        | Ok svc =>
            match getReleaseIngress releaseName s with
            | Err _ => (s, Err (ErrorString "no ingress"))
            | Ok ig =>
                match exposeServicePort svc port s with
                | (s, Some e) => (s, Err e)
                | (s, None) =>
                    let prefix := getIngressAutoHostnamePrefix ig in
                    let hostnames := if negb (prefix =? "") && negb (autoHostName =? "")
                                     then hostnames ++ [autoHostName +:+ "-" +:+ prefix] else hostnames in
                    addRulesIngress ig svc hostnames port s
                end
            end
        end
    end.

Definition DisclosePort (port : Z) (s : S) : option (S * error) :=
  if HOSTNAME =? "" then Some (s, None)
  else
    match getReleaseNameByPodName HOSTNAME s with
    | Err e => Some (s, Some (ErrorString ("unable to find release name: " +:+ error_text e)))
    | Ok releaseName =>
        match getReleaseService releaseName s with
        | Err e => Some (s, Some (ErrorString ("unable to get service: " +:+ error_text e)))
        | Ok svc =>
            match getReleaseIngress releaseName s with
            | Err _ => Some (s, Some (ErrorString "no ingress"))
            | Ok ig =>
                match discloseServicePort svc port s with
                | (s, Some e) => Some (s, Some e)
                | (s, None) => removeRulesIngress ig svc port s
                end
            end
        end
    end.
End exposure.
