(* ===== verification/ManagerSpec.v ===== *)
(** * What the manager leaves behind

    After a node or a flow is deleted, nothing of the project refers to it any
    more, but where an update was refused, which is logged; everything else is
    as it was. Exposing a port and disclosing it again gives the ingress and
    the service back, for rules of the shape the manager itself writes; rules
    of other shapes are damaged. *)
From S2P Require Import Prelude GoErrors Names Graph Manager Ingress.

Open Scope string_scope.
Open Scope list_scope.

(** ** A server's laws *)

Definition o_key {A} `{Object A} (x : A) : string * string := (o_namespace x, o_name x).

(** What the server stores of an object that is written: it may set what is
    not the writer's. *)
Class Settled (A : Type) := settled : A -> A -> Prop.
#[export] Instance node_settled : Settled NodeResource :=
  fun x y => n_Spec (nr_node y) = n_Spec (nr_node x) /\ n_Labels (nr_node y) = n_Labels (nr_node x).
#[export] Instance page_settled : Settled TinyWidgetPage :=
  fun x y => pg_Widgets y = pg_Widgets x /\ om_Labels (pg_meta y) = om_Labels (pg_meta x).

(** Objects are stored under their keys; a list holds the selected ones, once
    each; an update reaches one object, and one that failed may have reached
    it all the same. *)
Class ClientLaws (S A : Type) `{Client S A} `{Settled A} := {
  stored : string * string -> S -> option A;
  stored_key k s x : stored k s = Some x -> o_key x = k;
  list_stored ns sel s l : api_list ns sel s = Ok l ->
    (forall x, x ∈ l <-> stored (o_key x) s = Some x /\ o_namespace x = ns /\ sel ⊆ o_labels x) /\ NoDup (map o_key l);
  update_other x s k : k <> o_key x -> stored k (api_update x s).1 = stored k s;
  update_done x s : (api_update x s).2 = None ->
    exists y, stored (o_key x) (api_update x s).1 = Some y /\ settled x y;
  update_failed x s e : (api_update x s).2 = Some e ->
    stored (o_key x) (api_update x s).1 = stored (o_key x) s \/
    exists y, stored (o_key x) (api_update x s).1 = Some y /\ settled x y;
}.

(** A server that keeps a map of the objects of a kind in some part of its
    state, and refuses the updates of some of them. *)
Section memory.
  Context {S A : Type} `{Object A} `{Settled A}.
  Variable part : S -> gmap (string * string) A.
  Variable put : gmap (string * string) A -> S -> S.
  Hypothesis part_put : forall m s, part (put m s) = m.
  Variable refused : string -> bool.
  Hypothesis settled_refl : forall x : A, settled x x.

Abbreviation mem := (gmap (string * string) A).
Definition mem_get (k : string * string) (m : mem) : option A :=
  match m !! k with Some x => if decide (o_key x = k) then Some x else None | None => None end.
Definition mem_select (ns : string) (sel : gmap string string) (m : mem) : list A :=
  List.filter (fun x => bool_decide (o_namespace x = ns /\ sel ⊆ o_labels x))
    (omap (fun kx => mem_get kx.1 m) (map_to_list m)).

Definition mem_client : Client S A := {|
  api_get ns name s := match mem_get (ns, name) (part s) with Some x => Ok x | None => Err (ErrorString "not found") end;
  api_list ns sel s := Ok (mem_select ns sel (part s));
  api_create x s := (put (<[o_key x := x]> (part s)) s, Ok x);
  api_update x s := if refused (o_name x) then (s, Some (ErrorString "conflict")) else (put (<[o_key x := x]> (part s)) s, None);
  api_delete ns name s := (put (delete (ns, name) (part s)) s, None);
  api_delete_all ns sel s :=
    (put (fold_right (fun x m => delete (o_key x) m) (part s) (mem_select ns sel (part s))) s, None);
|}.
#[local] Existing Instance mem_client.

Lemma mem_get_key (k : string * string) (m : mem) (x : A) : mem_get k m = Some x <-> m !! k = Some x /\ o_key x = k.
Proof. unfold mem_get. destruct (m !! k) as [y|]; [case_decide|]; naive_solver. Qed.

Lemma mem_keys (l : list ((string * string) * A)) (m : mem) :
  NoDup l.*1 -> (forall kx, kx ∈ l -> m !! kx.1 = Some kx.2) ->
  NoDup (map o_key (omap (fun kx => mem_get kx.1 m) l)) /\
  forall x, x ∈ omap (fun kx => mem_get kx.1 m) l -> o_key x ∈ l.*1.
Proof.
  induction l as [|[k x] l IH]; cbn; [split; [constructor|by intros ? ?%not_elem_of_nil]|].
  intros [Hk Hl]%NoDup_cons Hm. destruct IH as [IHn IHk]; [done|intros; apply Hm; by right|].
  destruct (mem_get k m) as [y|] eqn:E; [apply mem_get_key in E as [_ E]|].
  - cbn. split.
    + constructor; [|done]. intros Hy. apply list_elem_of_In, in_map_iff in Hy as (z & Ez & Hz).
      apply list_elem_of_In in Hz. apply IHk in Hz. by rewrite Ez, E in Hz.
    + intros z [->|Hz]%elem_of_cons; [rewrite E; left|right; by apply IHk].
  - split; [done|]. intros z Hz. right. by apply IHk.
Qed.

#[local] Program Instance mem_laws : ClientLaws S A := { stored k s := mem_get k (part s) }.
Next Obligation. intros k s x Hx. by apply mem_get_key in Hx as [_ Hx]. Qed.
Next Obligation.
  intros ns sel s l [= <-]. set (m := part s). unfold mem_select. split.
  - intros x. rewrite list_elem_of_In, filter_In, bool_decide_eq_true, <- list_elem_of_In, list_elem_of_omap.
    split.
    + intros [([k y] & _ & Hx) Hs]. split; [|done]. pose proof Hx as Hx'.
      apply mem_get_key in Hx' as [_ Ek]. cbn [fst] in *. by rewrite Ek.
    + intros [Hx Hs]. split; [|done]. exists (o_key x, x). split; [|done].
      apply elem_of_map_to_list. by apply mem_get_key in Hx as [Hx _].
  - destruct (mem_keys (map_to_list m) m) as [Hn _]; [apply NoDup_fst_map_to_list| |].
    { intros [k x] Hk. by apply elem_of_map_to_list in Hk. }
    revert Hn. induction (omap _ _) as [|x xs IH]; [done|]. cbn. intros [Hx Hxs]%NoDup_cons.
    destruct (bool_decide _); [|by apply IH]. cbn. constructor; [|by apply IH].
    intros Hin. apply Hx. apply list_elem_of_In, in_map_iff in Hin as (z & Ez & [Hz _]%filter_In).
    apply list_elem_of_In, in_map_iff. by exists z.
Qed.
Next Obligation.
  intros x s k Hk. cbn [api_update mem_client]. destruct (refused (o_name x)); [done|]. cbn [fst]. rewrite part_put. unfold mem_get. by rewrite lookup_insert_ne.
Qed.
Next Obligation.
  intros x s. cbn [api_update mem_client]. destruct (refused (o_name x)); [done|]. intros _. exists x. split; [|apply settled_refl].
  apply mem_get_key. split; [|done]. cbn [fst]. by rewrite part_put, lookup_insert_eq.
Qed.
Next Obligation. intros x s e. cbn [api_update mem_client]. destruct (refused (o_name x)); [|done]. by left. Qed.
End memory.

(** ** Cleaning a list of objects *)

Section cleaning.
  Context {S A : Type} `{HA : Object A} `{HC : !Client S A} `{HS : Settled A} `{HL : !ClientLaws S A}.
  Variable clean : A -> option A.
  Hypothesis clean_key : forall x y, clean x = Some y -> o_key y = o_key x.

Definition clean_one (acc : S * list string) (x : A) : S * list string :=
  match clean x with Some y => update_logged y acc | None => acc end.

(** An object after its turn: cleaned and stored, or as it was where there was
    nothing to clean, or named in the log. *)
Definition cleaned (logged : list string) (s : S) (x : A) : Prop :=
  match clean x with
  | None => stored (o_key x) s = Some x
  | Some y => o_name x ∈ logged \/ exists z, stored (o_key x) s = Some z /\ settled y z
  end.

Lemma update_logged_spec (y : A) (s : S) (logged : list string) :
  let '(s', logged') := update_logged y (s, logged) in
  (forall k, k <> o_key y -> stored k s' = stored k s) /\ (forall n, n ∈ logged -> n ∈ logged') /\
  (o_name y ∈ logged' \/ exists z, stored (o_key y) s' = Some z /\ settled y z).
Proof.
  unfold update_logged. cbn [fst snd]. pose proof (update_done y s) as Hd. pose proof (update_other y s) as Ho.
  destruct (api_update y s) as [s' [e|]]; cbn [fst snd] in *.
  - split; [intros k; apply Ho|]. split; [intros n; rewrite elem_of_app; by left|].
    left. rewrite elem_of_app. right. left.
  - split; [intros k; apply Ho|]. split; [done|]. right. by apply Hd.
Qed.

Lemma clean_list (l : list A) (s : S) (logged : list string) :
  NoDup (map o_key l) -> (forall x, x ∈ l -> stored (o_key x) s = Some x) ->
  let '(s', logged') := fold_left clean_one l (s, logged) in
  (forall k, k ∉ map o_key l -> stored k s' = stored k s) /\ (forall n, n ∈ logged -> n ∈ logged') /\
  forall x, x ∈ l -> cleaned logged' s' x.
Proof.
  revert s logged. induction l as [|x l IH]; intros s logged; cbn [map fold_left].
  { intros _ _. split; [done|]. split; [done|]. intros x Hx. by apply not_elem_of_nil in Hx. }
  intros [Hx Hl]%NoDup_cons Hs. unfold clean_one at 2.
  assert (Hstep : let '(s1, logged1) := match clean x with Some y => update_logged y (s, logged) | None => (s, logged) end in
    (forall k, k <> o_key x -> stored k s1 = stored k s) /\ (forall n, n ∈ logged -> n ∈ logged1) /\
    cleaned logged1 s1 x).
  { unfold cleaned. destruct (clean x) as [y|] eqn:E.
    - pose proof (update_logged_spec y s logged) as Hu. apply clean_key in E.
      assert (En : o_name y = o_name x) by (unfold o_key in E; congruence). rewrite <- E, <- En.
      by destruct (update_logged y (s, logged)).
    - split; [done|]. split; [done|]. apply Hs. left. }
  destruct (match clean x with Some y => update_logged y (s, logged) | None => (s, logged) end) as [s1 logged1].
  destruct Hstep as (Ho & Hg & Hc). specialize (IH s1 logged1 Hl).
  destruct (fold_left clean_one l (s1, logged1)) as [s2 logged2]. destruct IH as (Ho2 & Hg2 & Hc2).
  { intros z Hz. rewrite Ho; [apply Hs; by right|]. intros Ek. apply Hx. rewrite <- Ek.
    apply list_elem_of_In, in_map_iff. exists z. split; [done|by apply list_elem_of_In]. }
  split; [|split; [auto|]].
  - intros k Hk. apply not_elem_of_cons in Hk as [Hk1 Hk2]. by rewrite Ho2, Ho.
  - intros z [->|Hz]%elem_of_cons; [|by apply Hc2].
    unfold cleaned in *. rewrite Ho2 by done. destruct (clean x); [|done]. destruct Hc as [Hc|Hc]; [left; auto|by right].
Qed.
End cleaning.

(** ** After a node is deleted *)

Section nodes.
  Context {S : Type} `{!Client S NodeResource} `{!ClientLaws S NodeResource}.

Definition without_references (deleted : string) (n : NodeResource) : option NodeResource :=
  if n_Name (nr_node n) =? deleted then None
  else let '(node, changed) := RemoveNodeReferences (nr_node n) deleted in
       if changed then Some (set_resource_node node n) else None.

Lemma clean_node_one (deleted : string) (acc : S * list string) (n : NodeResource) :
  clean_node deleted acc n = clean_one (without_references deleted) acc n.
Proof.
  unfold clean_node, clean_one, without_references. destruct (n_Name (nr_node n) =? deleted); [done|].
  by destruct (RemoveNodeReferences (nr_node n) deleted) as [node []].
Qed.

(** No edge of the node leads to the deleted one and no configuration comes
    from it; its other edges and configurations are those of [n], in order. *)
Definition forgets (deleted : string) (n n' : NodeResource) : Prop :=
  spec_Edges (n_Spec (nr_node n')) =
    List.filter (fun e => negb (edge_targets deleted e)) (spec_Edges (n_Spec (nr_node n))) /\
  spec_Ports (n_Spec (nr_node n')) =
    List.filter (fun pc => negb (config_from deleted pc)) (spec_Ports (n_Spec (nr_node n))).

Lemma without_references_key (deleted : string) (x y : NodeResource) :
  without_references deleted x = Some y -> o_key y = o_key x.
Proof.
  unfold without_references, RemoveNodeReferences. destruct (_ =? deleted); [done|].
  destruct (existsb _ _ || existsb _ _); [|done]. by intros [= <-].
Qed.

Lemma without_references_forgets (deleted : string) (x : NodeResource) :
  n_Name (nr_node x) <> deleted ->
  forgets deleted x (default x (without_references deleted x)).
Proof.
  intros Hx%String.eqb_neq. unfold without_references, forgets. rewrite Hx.
  pose proof (remove_node_references_clean (nr_node x) deleted) as Hr.
  destruct (RemoveNodeReferences (nr_node x) deleted) as [node []]; cbn [default set_resource_node nr_node id].
  - by destruct Hr as (-> & -> & _).
  - destruct Hr as (He & Hp & _ & [Hn _] & _). specialize (Hn eq_refl). by subst node.
Qed.

Lemma selected_label (n : NodeResource) (k v : string) :
  v <> "" -> label (nr_node n) k = v -> one_label k v ⊆ o_labels n.
Proof.
  unfold label. cbn. intros Hv Hl. apply map_singleton_subseteq_l. destruct (n_Labels (nr_node n) !! k); cbn in Hl; congruence.
Qed.

(** C26. After a node is deleted and its references cleaned up, no other node of
    the project leads to it or is configured for it: each node that was listed
    keeps exactly its other edges and configurations, in order, unless its
    update was refused, and then its name is in the log. Nodes of other
    projects and namespaces, and the deleted one, are not written. *)
Theorem cleanup_forgets_node (ns project deleted : string) (s s' : S) (logged : list string) :
  CleanupNodeReferences ns project deleted s = (s', logged, None) ->
  (forall n, stored (o_key n) s = Some n -> o_namespace n = ns -> label (nr_node n) ProjectNameLabel = project ->
     project <> "" -> o_name n <> deleted -> o_name n ∉ logged ->
     exists n', stored (o_key n) s' = Some n' /\ forgets deleted n n') /\
  (forall k n, stored k s = Some n -> o_namespace n <> ns \/ label (nr_node n) ProjectNameLabel <> project \/
     o_name n = deleted -> stored k s' = Some n).
Proof.
  unfold CleanupNodeReferences, GetProjectNodes.
  destruct (api_list ns (one_label ProjectNameLabel project) s) as [nodes|e] eqn:El; [|done].
  apply list_stored in El as [Hl Hn]. rewrite (fold_left_ext _ _ _ _ (clean_node_one deleted)).
  pose proof (clean_list _ (without_references_key deleted) nodes s [] Hn) as Hc.
  destruct (fold_left _ nodes (s, [])) as [s1 logged1]. intros [= <- <-].
  destruct Hc as (Ho & _ & Hc); [intros x Hx; by apply Hl|]. split.
  - intros n Hs Hns Hp Hp0 Hd Hg.
    assert (Hin : n ∈ nodes) by (apply Hl; split; [done|split; [done|by apply selected_label]]).
    pose proof (without_references_forgets deleted n Hd) as Hf. specialize (Hc n Hin). unfold cleaned in Hc.
    destruct (without_references deleted n) as [y|]; [|by exists n].
    destruct Hc as [Hc|(z & Hz & Hze & Hzl)]; [done|]. exists z. split; [done|]. cbn in Hf. unfold forgets in *.
    by rewrite Hze.
  - intros k n Hk Hother. pose proof (stored_key _ _ _ Hk) as <-.
    destruct (decide (o_key n ∈ map o_key nodes)) as [Hin|Hout]; [|by rewrite Ho].
    apply list_elem_of_In, in_map_iff in Hin as (x & Ex & Hx). apply list_elem_of_In in Hx.
    pose proof (proj1 (Hl x) Hx) as (Hsx & Hnx & Hlx). rewrite Ex, Hk in Hsx. injection Hsx as <-.
    destruct Hother as [Hn1|[Hn1|Hn1]]; [done| |].
    + destruct Hn1. unfold label. change (one_label ProjectNameLabel project ⊆ n_Labels (nr_node n)) in Hlx.
      unfold one_label in Hlx. apply map_singleton_subseteq_l in Hlx. by rewrite Hlx.
    + specialize (Hc n Hx). unfold cleaned, without_references in Hc. cbn in Hn1. rewrite Hn1, String.eqb_refl in Hc.
      done.
Qed.
End nodes.

(** ** After a flow is deleted *)

Section pages.
  Context {S : Type} `{!Client S NodeResource} `{!ClientLaws S NodeResource}.
  Context `{!Client S TinyWidgetPage} `{!ClientLaws S TinyWidgetPage}.

Definition without_widgets (prefixes : list string) (p : TinyWidgetPage) : option TinyWidgetPage :=
  let filtered := List.filter (keeps prefixes) (pg_Widgets p) in
  if (length filtered =? length (pg_Widgets p))%nat then None else Some (set_widgets filtered p).

Lemma clean_page_one (prefixes : list string) (acc : S * list string) (p : TinyWidgetPage) :
  clean_page prefixes acc p = clean_one (without_widgets prefixes) acc p.
Proof. unfold clean_page, clean_one, without_widgets. by destruct (_ =? _)%nat. Qed.

Lemma without_widgets_key (prefixes : list string) (x y : TinyWidgetPage) :
  without_widgets prefixes x = Some y -> o_key y = o_key x.
Proof. unfold without_widgets. destruct (_ =? _)%nat; [done|]. by intros [= <-]. Qed.

Lemma filter_length_id {A} (f : A -> bool) (l : list A) :
  length (List.filter f l) = length l -> List.filter f l = l.
Proof.
  induction l as [|a l IH]; [done|]. cbn. destruct (f a); cbn.
  - intros [= E]. by rewrite IH.
  - intros E. pose proof (filter_length_le f l). lia.
Qed.

Lemma without_widgets_exact (prefixes : list string) (x : TinyWidgetPage) :
  pg_Widgets (default x (without_widgets prefixes x)) = List.filter (keeps prefixes) (pg_Widgets x).
Proof.
  unfold without_widgets. destruct (Nat.eqb_spec (length (List.filter (keeps prefixes) (pg_Widgets x))) (length (pg_Widgets x))) as [E|E].
  - cbn. symmetry. by apply filter_length_id.
  - done.
Qed.

(** The widget shows a port of a node of the flow. *)
Definition shows_flow (ns project flow : string) (s : S) (w : TinyWidget) : Prop :=
  exists n : NodeResource, stored (o_key n) s = Some n /\ o_namespace n = ns /\
    flow_labels project flow ⊆ o_labels n /\ exists port, w_Port w = o_name n +:+ ":" +:+ port.

Lemma keeps_false (prefixes : list string) (w : TinyWidget) :
  keeps prefixes w = false <-> exists p, p ∈ prefixes /\ go_has_prefix (w_Port w) p = true.
Proof.
  unfold keeps. rewrite negb_false_iff, existsb_exists. by setoid_rewrite list_elem_of_In.
Qed.

(** Before a flow is deleted, the dashboard pages of its project lose the
    widgets of the flow's nodes and no other: each page listed keeps exactly
    the widgets that show no port of a node of the flow, in order, unless its
    update was refused and logged; pages that are not the project's are not
    written. *)
Theorem cleanup_flow_widgets_exact (ns project flow : string) (s s' : S) (logged : list string) :
  CleanupFlowWidgetReferences ns project flow s = (s', logged, None) ->
  (forall p : TinyWidgetPage, stored (o_key p) s = Some p -> o_namespace p = ns ->
     one_label ProjectNameLabel project ⊆ o_labels p -> o_name p ∉ logged ->
     exists p' (keep : TinyWidget -> bool), stored (o_key p) s' = Some p' /\
       pg_Widgets p' = List.filter keep (pg_Widgets p) /\
       forall w, keep w = false <-> shows_flow ns project flow s w) /\
  (forall k (p : TinyWidgetPage), stored k s = Some p ->
     o_namespace p <> ns \/ ~ one_label ProjectNameLabel project ⊆ o_labels p -> stored k s' = Some p).
Proof.
  unfold CleanupFlowWidgetReferences, GetProjectPageWidgets.
  destruct (api_list ns (flow_labels project flow) s) as [nodes|e] eqn:En; [|done].
  apply list_stored in En as [Hnodes _].
  set (prefixes := map (fun n => n_Name (nr_node n) +:+ ":") nodes).
  assert (Hkeep : forall w, keeps prefixes w = false <-> shows_flow ns project flow s w).
  { intros w. rewrite keeps_false. unfold shows_flow. split.
    - intros (p & Hp & Hw). apply list_elem_of_In, in_map_iff in Hp as (n & <- & Hn). apply list_elem_of_In, Hnodes in Hn as (H1 & H2 & H3).
      apply has_prefix_iff in Hw as [port Hport]. exists n. split_and!; [done..|]. exists port.
      rewrite Hport. cbn. by rewrite str_app_assoc.
    - intros (n & H1 & H2 & H3 & port & Hport). exists (n_Name (nr_node n) +:+ ":"). split.
      + apply list_elem_of_In, in_map_iff. exists n. split; [done|]. by apply list_elem_of_In, Hnodes.
      + apply has_prefix_iff. exists port. rewrite Hport. cbn. by rewrite str_app_assoc. }
  assert (Hall : forall w, nodes = [] -> keeps prefixes w = true) by (by intros w ->).
  destruct nodes as [|n nodes].
  { intros E. injection E as <- <-. split; [|by intros k p Hp _]. intros p Hp _ _ _. exists p, (keeps prefixes). split; [done|]. split; [|done].
    symmetry. apply filter_all, forallb_forall. intros w _. by apply Hall. }
  destruct (api_list ns (one_label ProjectNameLabel project) s) as [pages|e] eqn:Ep; [|done].
  apply list_stored in Ep as [Hp Hn]. rewrite (fold_left_ext _ _ _ _ (clean_page_one prefixes)).
  pose proof (clean_list _ (without_widgets_key prefixes) pages s [] Hn) as Hc.
  destruct (fold_left _ pages (s, [])) as [s1 logged1]. intros [= <- <-].
  destruct Hc as (Ho & _ & Hc); [intros x Hx; by apply Hp|]. split.
  - intros p Hs Hns Hpl Hg. specialize (Hc p (proj2 (Hp p) (conj Hs (conj Hns Hpl)))). unfold cleaned in Hc.
    pose proof (without_widgets_exact prefixes p) as Hf. destruct (without_widgets prefixes p) as [y|].
    + destruct Hc as [Hc|(z & Hz & Hzw & _)]; [done|]. exists z, (keeps prefixes). split; [done|]. split; [|done].
      by rewrite Hzw, <- Hf.
    + exists p, (keeps prefixes). by split; [|split].
  - intros k p Hk Hother. rewrite Ho; [done|]. intros Hin. apply list_elem_of_In, in_map_iff in Hin as (x & Ex & Hx).
    apply list_elem_of_In, Hp in Hx as (Hsx & Hnx & Hlx). rewrite Ex in Hsx. rewrite Hk in Hsx. injection Hsx as <-.
    by destruct Hother.
Qed.
End pages.

(** ** Exposing and disclosing *)

(** Whether a path leads to the service's port. *)
Definition leads (service : string) (port : Z) (p : IngressPath) : bool :=
  match ip_Service p with Some (name, number) => (number =? to_int32 port)%Z && (name =? service) | None => false end.

(** The paths before the first that leads to the port. *)
Fixpoint before (service : string) (port : Z) (paths : list IngressPath) : nat :=
  match paths with [] => 0 | p :: l => if leads service port p then 0 else Datatypes.S (before service port l) end.

Definition rule_paths (r : IngressRule) : list IngressPath := default [] (r_HTTP r).
Definition exposes (service : string) (port : Z) (r : IngressRule) : bool := existsb (leads service port) (rule_paths r).
Definition all_services (r : IngressRule) : bool :=
  forallb (fun p => match ip_Service p with Some _ => true | None => false end) (rule_paths r).

Lemma walk_paths_exact (service : string) (port : Z) (r : IngressRule) (paths : list IngressPath) :
  forallb (fun p => match ip_Service p with Some _ => true | None => false end) paths = true ->
  walk_paths service port r paths =
  Some (repeat r (before service port paths), if existsb (leads service port) paths then [r_Host r] else []).
Proof.
  induction paths as [|p l IH]; [done|]. cbn. intros [Hp Hl]%andb_true_iff. unfold leads.
  destruct (ip_Service p) as [[name number]|]; [|done].
  destruct ((number =? to_int32 port)%Z && (name =? service)); [done|]. cbn. by rewrite (IH Hl).
Qed.

Lemma walk_rules_exact (service : string) (port : Z) (rules : list IngressRule) :
  forallb all_services rules = true ->
  walk_rules service port rules =
  Some (flat_map (fun r => repeat r (before service port (rule_paths r))) rules,
        map r_Host (List.filter (exposes service port) rules)).
Proof.
  induction rules as [|r rules IH]; [done|]. cbn [forallb walk_rules flat_map List.filter].
  intros [Hr Hl]%andb_true_iff. rewrite (IH Hl). unfold all_services in Hr.
  assert (He : exposes service port r = existsb (leads service port) (rule_paths r)) by done. rewrite He.
  unfold rule_paths in Hr |- *. destruct (r_HTTP r) as [paths|]; cbn [default id] in *; [|done].
  rewrite (walk_paths_exact service port r paths Hr). by destruct (existsb (leads service port) paths).
Qed.

(** What disclosing a port leaves of an ingress whose paths all lead to
    services. A rule is kept once for every path it has before the first one to
    the service's port: so a rule of one path to elsewhere is kept, a rule of
    one path to the port is removed, but a rule of several paths to elsewhere
    is repeated, one with other paths before is kept though its host counts as
    removed, and a rule without paths is lost. Certificates that name a host of
    a rule to the port are removed, with all their hosts, and no others. *)
Theorem disclose_exact (service : string) (port : Z) (ig : Ingress) :
  forallb all_services (ig_Rules ig) = true ->
  exists ig', removed_rules service port ig = Some ig' /\ ig_meta ig' = ig_meta ig /\
    ig_Rules ig' = flat_map (fun r => repeat r (before service port (rule_paths r))) (ig_Rules ig) /\
    forall t, t ∈ ig_TLS ig' <-> t ∈ ig_TLS ig /\
      ~ exists r, r ∈ ig_Rules ig /\ exposes service port r = true /\ r_Host r ∈ t_Hosts t.
Proof.
  intros Hs. unfold removed_rules. rewrite walk_rules_exact by done. eexists. split; [done|]. split; [done|].
  split; [done|]. intros t. cbn. rewrite list_elem_of_In, filter_In, <- list_elem_of_In.
  enough (existsb (fun h => existsb (String.eqb h) (map r_Host (List.filter (exposes service port) (ig_Rules ig)))) (t_Hosts t) = true
          <-> exists r, r ∈ ig_Rules ig /\ exposes service port r = true /\ r_Host r ∈ t_Hosts t) as E.
  { by rewrite <- E, negb_true_iff, not_true_iff_false. }
  rewrite existsb_exists. split.
  - intros (h & Hh & Hd). apply existsb_exists in Hd as (h' & Hin & ->%String.eqb_eq).
    apply in_map_iff in Hin as (r & <- & [Hr He]%filter_In). exists r. by rewrite !list_elem_of_In.
  - intros (r & Hr & He & Hh). apply list_elem_of_In in Hr, Hh. exists (r_Host r). split; [done|].
    apply existsb_exists. exists (r_Host r). split; [|apply String.eqb_refl].
    apply in_map_iff. exists r. split; [done|]. by apply filter_In.
Qed.

(** A rule of one path. *)
Definition single (r : IngressRule) : bool := match rule_paths r with [p] => true | _ => false end.

(** The rules of the exposed hosts, one each. *)
Definition opened (service : string) (port : Z) (hostnames : list string) (rules : list IngressRule) : Prop :=
  (forall r, r ∈ rules -> r_HTTP r = Some (service_rule service port) /\ r_Host r ∈ hostnames).

Lemma set_rule_fresh (h : string) (http : list IngressPath) (rules extra : list IngressRule) :
  (forall r, r ∈ rules -> r_Host r <> h) -> set_rule h http (rules ++ extra) = rules ++ set_rule h http extra.
Proof.
  induction rules as [|r rules IH]; [done|]. intros Hr. cbn.
  destruct (String.eqb_spec (r_Host r) h) as [E|]; [destruct (Hr r); [by left|done]|].
  rewrite IH; [done|]. intros x Hx. apply Hr. by right.
Qed.

Lemma set_rule_opened (service h : string) (port : Z) (hostnames : list string) (extra : list IngressRule) :
  h ∈ hostnames -> opened service port hostnames extra ->
  opened service port hostnames (set_rule h (service_rule service port) extra) /\
  h ∈ map r_Host (set_rule h (service_rule service port) extra) /\
  forall x, x ∈ map r_Host extra -> x ∈ map r_Host (set_rule h (service_rule service port) extra).
Proof.
  intros Hh. induction extra as [|r extra IH]; intros Ho; cbn.
  - split; [|split; [left|by intros x ?%not_elem_of_nil]]. intros r Hr. apply list_elem_of_singleton in Hr as ->. done.
  - destruct (Ho r) as [Hr1 Hr2]; [left|]. destruct (String.eqb_spec (r_Host r) h) as [<-|Hne].
    + split; [|split; [left|done]]. intros x [->|Hx]%elem_of_cons; [done|]. apply Ho. by right.
    + destruct IH as (H1 & H2 & H3); [intros x Hx; apply Ho; by right|]. split; [|split].
      * intros x [->|Hx]%elem_of_cons; [done|]. by apply H1.
      * cbn. by right.
      * cbn. intros x [->|Hx]%elem_of_cons; [left|right; by apply H3].
Qed.

Lemma added_rules_shape (service : string) (port : Z) (all hostnames : list string) (rules extra : list IngressRule) :
  (forall h r, h ∈ hostnames -> r ∈ rules -> r_Host r <> h) -> (forall h, h ∈ hostnames -> h ∈ all) ->
  opened service port all extra ->
  exists extra', fold_left (fun rules h => set_rule h (service_rule service port) rules) hostnames (rules ++ extra) =
    rules ++ extra' /\ opened service port all extra' /\
    (forall x, x ∈ map r_Host extra -> x ∈ map r_Host extra') /\ forall h, h ∈ hostnames -> h ∈ map r_Host extra'.
Proof.
  revert extra. induction hostnames as [|h hs IH]; intros extra Hr Ha Ho; cbn.
  { exists extra. split_and!; [done..|]. by intros h ?%not_elem_of_nil. }
  rewrite set_rule_fresh by (intros r Hin; apply Hr; [left|done]).
  destruct (set_rule_opened service h port all extra) as (H1 & H2 & H3); [apply Ha; left|done|].
  destruct (IH (set_rule h (service_rule service port) extra)) as (e' & E & Ho' & Hk & Hall); [..|exists e'].
  - intros x r Hx. apply Hr. by right.
  - intros x Hx. apply Ha. by right.
  - done.
  - split_and!; [done|done|auto|]. intros x [->|Hx]%elem_of_cons; auto.
Qed.

Lemma flat_map_ext' {A B} (f g : A -> list B) (l : list A) :
  (forall x, x ∈ l -> f x = g x) -> flat_map f l = flat_map g l.
Proof.
  induction l as [|x l IH]; [done|]. intros E. cbn. rewrite (E x) by left. f_equal. apply IH. intros y Hy. apply E. by right.
Qed.

Lemma flat_map_single {A} (l : list A) : flat_map (fun x => [x]) l = l.
Proof. induction l as [|x l IH]; [done|]. cbn. by rewrite IH. Qed.

Lemma flat_map_none {A B} (l : list A) : flat_map (fun _ => @nil B) l = [].
Proof. by induction l. Qed.

(** C30. Exposing a port and disclosing it again is the identity, on the rules
    and certificates of an ingress whose rules have one path each, to services
    and none of them to this port, and on the ports of a service without the
    port, when none of the hostnames is in use. *)
Theorem expose_disclose_roundtrip (service : string) (port : Z) (hostnames : list string) (ig : Ingress)
    (ports : list ServicePort) :
  forallb (fun r => single r && all_services r && negb (exposes service port r)) (ig_Rules ig) = true ->
  forallb (fun h => negb (existsb (fun r => r_Host r =? h) (ig_Rules ig)) && negb (has_tls (ig_TLS ig) h)) hostnames = true ->
  has_port port ports = false ->
  removed_rules service port (added_rules service hostnames port ig) = Some ig /\
  without_service_port port (with_service_port port ports) = ports.
Proof.
  intros Hr Hh Hp. split.
  2: { unfold without_service_port, with_service_port. rewrite List.filter_app. cbn. rewrite Z.eqb_refl. cbn. rewrite app_nil_r.
       apply filter_all, forallb_forall. intros p Hin. apply negb_true_iff. unfold has_port in Hp.
       destruct (_ =? _)%Z eqn:E; [|done]. rewrite <- Hp. symmetry. apply existsb_exists. eauto. }
  rewrite forallb_forall in Hr, Hh. setoid_rewrite <- list_elem_of_In in Hr. setoid_rewrite <- list_elem_of_In in Hh.
  destruct (added_rules_shape service port hostnames hostnames (ig_Rules ig) []) as (extra & E & Ho & _ & Hall).
  { intros h r Hin Hrin <-. apply Hh, andb_true_iff in Hin as [Hn _]. apply negb_true_iff in Hn.
    rewrite <- not_true_iff_false in Hn. apply Hn, existsb_exists. exists r.
    split; [by apply list_elem_of_In|apply String.eqb_refl]. }
  { done. } { by intros r ?%not_elem_of_nil. }
  rewrite app_nil_r in E. unfold added_rules, removed_rules. cbn. rewrite E.
  assert (Hopen : forall r, r ∈ extra -> all_services r = true /\ exposes service port r = true /\
                    before service port (rule_paths r) = 0%nat).
  { intros r Hin. destruct (Ho r Hin) as [Hhttp _]. unfold all_services, exposes, rule_paths. rewrite Hhttp. cbn.
    by rewrite Z.eqb_refl, String.eqb_refl. }
  assert (Hold : forall r, r ∈ ig_Rules ig -> all_services r = true /\ exposes service port r = false /\
                    before service port (rule_paths r) = 1%nat).
  { intros r Hin. apply Hr in Hin as [[H1 H2]%andb_true_iff H3]%andb_true_iff. apply negb_true_iff in H3.
    split_and!; [done..|]. unfold single, exposes in *. destruct (rule_paths r) as [|p [|]]; [done| |done].
    cbn in *. rewrite orb_false_r in H3. by rewrite H3. }
  rewrite walk_rules_exact.
  2: { rewrite forallb_app. apply andb_true_iff. split; apply forallb_forall; intros r Hin; apply list_elem_of_In in Hin;
       [by apply Hold|by apply Hopen]. }
  rewrite flat_map_app, (List.filter_app (exposes service port)), (filter_none _ (ig_Rules ig)), (filter_all _ extra).
  2: { apply forallb_forall. intros r Hin. by apply Hopen, list_elem_of_In. }
  2: { apply forallb_forall. intros r Hin. apply list_elem_of_In in Hin. apply negb_true_iff. by apply Hold. }
  rewrite (flat_map_ext' _ (fun r => [r]) (ig_Rules ig)), (flat_map_ext' _ (fun _ => []) extra).
  2: { intros r Hin. by destruct (Hopen r Hin) as (_ & _ & ->). }
  2: { intros r Hin. by destruct (Hold r Hin) as (_ & _ & ->). }
  rewrite flat_map_single, flat_map_none, app_nil_r. cbn [app]. unfold set_ingress. cbn.
  destruct ig as [meta rules tls]. cbn in *. do 2 f_equal. rewrite List.filter_app, filter_all, filter_none.
  - apply app_nil_r.
  - apply forallb_forall. intros t Ht. apply in_map_iff in Ht as (h & <- & [Hin _]%filter_In).
    apply list_elem_of_In, Hall in Hin. cbn. rewrite orb_false_r, negb_involutive. apply existsb_exists. exists h.
    split; [by apply list_elem_of_In|apply String.eqb_refl].
  - apply forallb_forall. intros t Ht. apply negb_true_iff, not_true_iff_false. intros (h & Hht & Hd)%existsb_exists.
    apply existsb_exists in Hd as (h' & Hin & ->%String.eqb_eq). apply in_map_iff in Hin as (r & <- & Hin).
    apply list_elem_of_In, Ho in Hin as [_ Hin]. apply Hh, andb_true_iff in Hin as [_ Hn].
    apply negb_true_iff, not_true_iff_false in Hn. apply Hn. apply existsb_exists. exists t. split; [done|].
    apply existsb_exists. exists (r_Host r). split; [done|apply String.eqb_refl].
Qed.

(** A rule of two paths to elsewhere comes back twice, a rule without paths
    is lost, and a certificate shared with another host goes with the exposed
    one. *)
Example disclose_damages :
  let elsewhere := mkPath "/api" (Some "Prefix") (Some ("other", 80%Z)) in
  let ig := mkIngress (mkMeta "ing" "" "ns" "" ∅ None [])
    [mkRule "a" (Some [elsewhere; elsewhere]); mkRule "b" None; mkRule "c" (Some (service_rule "svc" 8080))]
    [mkTLS ["c"; "a"] "shared"] in
  removed_rules "svc" 8080 ig =
  Some (mkIngress (ig_meta ig) [mkRule "a" (Some [elsewhere; elsewhere]); mkRule "a" (Some [elsewhere; elsewhere])] []).
Proof. reflexivity. Qed.

(** ** Waiting *)

(** The states of the cluster a poll sees, in order, until its deadline; it
    ends at the first that meets the condition or fails. *)
Class PollerLaws (S : Type) `{Poller S} := {
  ticks : Z -> Z -> S -> list S;
  poll_ends interval timeout condition s :
    match poll_until interval timeout condition s with
    | (s', None) => exists pre post, ticks interval timeout s = pre ++ s' :: post /\
        (forall x, x ∈ pre -> condition x = Ok false) /\ condition s' = Ok true
    | (_, Some e) =>
        (exists pre x post, ticks interval timeout s = pre ++ x :: post /\
           (forall y, y ∈ pre -> condition y = Ok false) /\ condition x = Err e) \/
        forall x, x ∈ ticks interval timeout s -> condition x = Ok false
    end;
}.

Section waiting.
  Context {S : Type} `{ApiErrors} `{PollerLaws S} `{!Client S NodeResource}.

(** The controller has seen the node's specification. *)
Definition seen (n : NodeResource) : Prop :=
  (n_Generation (nr_node n) <= st_ObservedGeneration (n_Status (nr_node n)))%Z.

Definition running (n : NodeResource) : Prop :=
  nr_Module n <> "" /\ st_Status (n_Status (nr_node n)) = "OK" /\ st_Error (n_Status (nr_node n)) = false.

(** Nothing to wait for any more: the controller reports the node. *)
Definition reported (name ns : string) (s : S) : Prop :=
  exists n, GetNode name ns s = Ok n /\ seen n /\ (st_Error (n_Status (nr_node n)) = true \/ running n).

Definition pending (name ns : string) (s : S) : Prop :=
  (exists e, GetNode name ns s = Err e /\ IsNotFound e = true) \/
  exists n, GetNode name ns s = Ok n /\
    (~ seen n \/ st_Error (n_Status (nr_node n)) = false /\ ~ running n).

Lemma isNodeSynced_spec (n : NodeResource) : isNodeSynced n = true <-> seen n /\ running n.
Proof.
  unfold isNodeSynced, seen, running. destruct (String.eqb_spec (nr_Module n) "") as [->|];
    [naive_solver|]. destruct (String.eqb_spec (st_Status (n_Status (nr_node n))) "OK"); [|naive_solver].
  cbn [negb]. destruct (st_Error _); [naive_solver|]. rewrite negb_true_iff, Z.ltb_ge. naive_solver.
Qed.

Lemma created_condition_true (name ns : string) (s : S) :
  created_condition name ns s = Ok true <-> reported name ns s.
Proof.
  unfold created_condition, reported. destruct (GetNode name ns s) as [n|e].
  2: { split; [by destruct (IsNotFound e)|by intros (? & ? & _)]. }
  destruct (Z.leb_spec (n_Generation (nr_node n)) (st_ObservedGeneration (n_Status (nr_node n)))) as [Hs|Hs].
  - destruct (st_Error (n_Status (nr_node n))) eqn:Ee.
    + split; [|done]. intros _. exists n. split; [done|]. split; [done|by left].
    + split.
      * intros [= Hn]. apply isNodeSynced_spec in Hn as [_ Hn]. exists n. split; [done|]. split; [done|by right].
      * intros (m & [= <-] & _ & [He|Hr]); [by rewrite He in Ee|]. f_equal. by apply isNodeSynced_spec.
  - split; [done|]. intros (m & [= <-] & Hseen & _). unfold seen in Hseen. lia.
Qed.

Lemma created_condition_false (name ns : string) (s : S) :
  created_condition name ns s = Ok false <-> pending name ns s.
Proof.
  unfold created_condition, pending. destruct (GetNode name ns s) as [n|e].
  2: { destruct (IsNotFound e) eqn:Ee; split; try done; [intros _; left; by exists e|].
       intros [(x & [= <-] & Hx)|(? & ? & _)]; [by rewrite Hx in Ee|done]. }
  destruct (Z.leb_spec (n_Generation (nr_node n)) (st_ObservedGeneration (n_Status (nr_node n)))) as [Hs|Hs].
  - destruct (st_Error (n_Status (nr_node n))) eqn:Ee.
    + split; [done|]. intros [(? & ? & _)|(m & [= <-] & [Hn|[He _]])]; [done|done|by rewrite He in Ee].
    + split.
      * intros [= Hn]. right. exists n. split; [done|]. right. split; [done|]. intros Hr.
        assert (isNodeSynced n = true) as Ht by by apply isNodeSynced_spec. by rewrite Ht in Hn.
      * intros [(? & ? & _)|(m & [= <-] & [Hn|[_ Hr]])]; [done|done|]. f_equal. apply not_true_iff_false.
        rewrite isNodeSynced_spec. by intros [_ Hr'].
  - split; [|done]. intros _. right. exists n. split; [done|]. left. unfold seen. lia.
Qed.

Lemma first_decides {A} (c : A -> result goerror bool) (pre pre' post post' : list A) (x x' : A) :
  pre ++ x :: post = pre' ++ x' :: post' -> (forall y, y ∈ pre -> c y = Ok false) -> (forall y, y ∈ pre' -> c y = Ok false) ->
  c x <> Ok false -> c x' <> Ok false -> x = x'.
Proof.
  revert pre'. induction pre as [|y pre IH]; intros [|y' pre'] E Hp Hp' Hx Hx'; cbn in E; injection E as E1 E2.
  - done.
  - subst. destruct Hx. apply Hp'. left.
  - subst. destruct Hx'. apply Hp. left.
  - eapply IH; [exact E2|..]; [| |done|done]; intros z Hz; [apply Hp|apply Hp']; by right.
Qed.

(** Waiting for a created node ends without error exactly when, before
    the deadline, the cluster is polled in a state where the controller has
    seen the node's specification and reports it as running or as failed, and
    at every poll before it the node was missing, not seen yet or not running
    yet. A node whose component failed so ends the wait without error. *)
Theorem wait_ends_when_reported (name ns : string) (timeout : Z) (s : S) :
  (WaitForNodeSync name ns timeout s).2 = None <->
  exists pre x post, ticks DefaultSyncPollInterval (sync_timeout timeout) s = pre ++ x :: post /\
    (forall y, y ∈ pre -> pending name ns y) /\ reported name ns x.
Proof.
  unfold WaitForNodeSync. setoid_rewrite <- created_condition_true. setoid_rewrite <- created_condition_false.
  pose proof (poll_ends DefaultSyncPollInterval (sync_timeout timeout) (created_condition name ns) s) as Hp.
  destruct (poll_until _ _ _ _) as [s' [e|]]; cbn [snd].
  - split; [done|]. intros (pre & x & post & E & Hpre & Hx). exfalso.
    destruct Hp as [(pre' & x' & post' & E' & Hpre' & Hx')|Hall].
    + rewrite E in E'. assert (x = x') as <- by (eapply first_decides; [exact E'|done..|congruence|congruence]). congruence.
    + rewrite (Hall x) in Hx; [done|]. rewrite E, elem_of_app. right. left.
  - destruct Hp as (pre & post & E & Hpre & Hx). split; [|done]. intros _. by exists pre, s', post.
Qed.
End waiting.

(** ** A cluster *)

Module Sample.
Definition cluster : Type := gmap (string * string) NodeResource * gmap (string * string) TinyWidgetPage.
Definition stubborn (name : string) : bool := name =? "f.s".

#[export] Instance nodes_client : Client cluster NodeResource := mem_client fst (fun m s => (m, s.2)) stubborn.
#[export] Instance pages_client : Client cluster TinyWidgetPage := mem_client snd (fun m s => (s.1, m)) stubborn.
#[export] Instance nodes_laws : ClientLaws cluster NodeResource :=
  mem_laws fst (fun m s => (m, s.2)) (fun m s => eq_refl) stubborn (fun x => conj eq_refl eq_refl).
#[export] Instance pages_laws : ClientLaws cluster TinyWidgetPage :=
  mem_laws snd (fun m s => (s.1, m)) (fun m s => eq_refl) stubborn (fun x => conj eq_refl eq_refl).

Definition node (name : string) (edges : list TinyNodeEdge) : NodeResource :=
  mkResource (mkType "" "") [] "m" (mkNode name "ns" (flow_labels "p" "f") 1 (mkSpec "m" "c" [] edges) empty_status).
Definition page : TinyWidgetPage :=
  mkPage (mkType "" "") (mkMeta "page" "" "ns" "" (one_label ProjectNameLabel "p") None [])
    [mkWidget "f.a:_control" "A" "" 0 0 1 1; mkWidget "g.a:_control" "G" "" 0 1 1 1].

Definition a : NodeResource := node "f.a" [mkEdge "e1" "out" "f.b:in" "f" None; mkEdge "e2" "out" "f.s:in" "f" None].
Definition before_cleanup : cluster :=
  (list_to_map (map (fun n => (o_key n, n)) [a; node "f.s" [mkEdge "e3" "out" "f.b:in" "f" None]]),
   list_to_map [(o_key page, page)]).

Definition ingress : Ingress :=
  mkIngress (mkMeta "ing" "" "ns" "" ∅ None []) [mkRule "a" (Some (service_rule "other" 80))] [mkTLS ["a"] "a-tls"].

End Sample.
Import Sample.

Lemma cleanup_forgets_node_witness :
  let r := CleanupNodeReferences "ns" "p" "f.b" before_cleanup in
  r.1.2 = ["f.s"] /\ exists n', stored ("ns", "f.a") r.1.1 = Some n' /\ forgets "f.b" a n'.
Proof.
  split; [vm_compute; reflexivity|].
  destruct (CleanupNodeReferences "ns" "p" "f.b" before_cleanup) as [[s' logged] e] eqn:E.
  assert (He : e = None) by (apply (f_equal snd) in E; vm_compute in E; by rewrite <- E). subst e.
  assert (Hg : logged = ["f.s"]) by (apply (f_equal (fun r => r.1.2)) in E; vm_compute in E; by rewrite <- E). subst logged.
  refine (proj1 (cleanup_forgets_node "ns" "p" "f.b" before_cleanup s' ["f.s"] E) a _ _ _ _ _ _);
    [vm_compute; reflexivity|reflexivity|vm_compute; reflexivity|discriminate|discriminate|].
  intros Hin. apply list_elem_of_singleton in Hin. discriminate.
Defined.

Lemma cleanup_flow_widgets_exact_witness :
  let r := CleanupFlowWidgetReferences "ns" "p" "f" before_cleanup in
  exists p', stored ("ns", "page") r.1.1 = Some p' /\ map w_Port (pg_Widgets p') = ["g.a:_control"] /\
  exists keep : TinyWidget -> bool, pg_Widgets p' = List.filter keep (pg_Widgets page) /\
    forall w, keep w = false <-> shows_flow "ns" "p" "f" before_cleanup w.
Proof.
  destruct (CleanupFlowWidgetReferences "ns" "p" "f" before_cleanup) as [[s' logged] e] eqn:E.
  assert (He : e = None) by (apply (f_equal snd) in E; vm_compute in E; by rewrite <- E). subst e.
  assert (Hg : logged = []) by (apply (f_equal (fun r => r.1.2)) in E; vm_compute in E; by rewrite <- E). subst logged.
  assert (Hs : match stored ("ns", "page") s' with Some p' => map w_Port (pg_Widgets p') = ["g.a:_control"] | None => False end).
  { apply (f_equal (fun r => r.1.1)) in E. cbn [fst] in E. subst s'. vm_compute. reflexivity. }
  destruct (proj1 (cleanup_flow_widgets_exact "ns" "p" "f" before_cleanup s' [] E) page) as (p' & keep & Hp & Hk & Hw);
    [vm_compute; reflexivity|reflexivity|apply map_singleton_subseteq_l; vm_compute; reflexivity|
     apply not_elem_of_nil|].
  exists p'. cbn [fst snd]. change (o_key page) with ("ns", "page") in Hp. rewrite Hp in Hs.
  split; [exact Hp|]. split; [exact Hs|]. exists keep. by split.
Defined.

Lemma disclose_exact_witness :
  exists ig', removed_rules "svc" 8080 (added_rules "svc" ["b"] 8080 ingress) = Some ig' /\
    ig_Rules ig' = ig_Rules ingress.
Proof.
  destruct (disclose_exact "svc" 8080 (added_rules "svc" ["b"] 8080 ingress)) as (ig' & E & _ & Hr & _); [reflexivity|].
  exists ig'. split; [exact E|]. rewrite Hr. reflexivity.
Defined.

Lemma expose_disclose_roundtrip_witness :
  removed_rules "svc" 8080 (added_rules "svc" ["b"; "c"] 8080 ingress) = Some ingress /\
  without_service_port 8080 (with_service_port 8080 [mkServicePort "http" 80 80]) = [mkServicePort "http" 80 80].
Proof. apply (expose_disclose_roundtrip "svc" 8080 ["b"; "c"] ingress); reflexivity. Defined.
