(* ===== verification/Publish.v ===== *)
(** * What leaves the machine with an export

    [pkg/tools/graph_redact.go] and [scenario_capture.go]: before a solution is
    published, the configurations and schemas of its elements lose the values
    that look like credentials; a payload pinned as sample data loses them
    before it is stored.

    An element is its data: the fields whose values are decoded JSON or raw
    bytes, and its handles, each a map of the same kind; a handle of another
    type is left alone and not listed. *)
From S2P Require Import Prelude Json Redact Shape.
From Stdlib Require Import SpecFloat.

Open Scope string_scope.
Open Scope list_scope.

Definition RedactedValue : string := Redact.Value.
Definition PublishedSecretValue : string := "".

(** ** Sample data of a trace *)

(** By key name, then by the shape of the text. *)
Definition RedactSecrets (v : json) : json := (SecretsByShape (Secrets v)).1.

(** A hop of a recorded run, and its events. *)
Record TraceEventInfo := mkEventInfo { tei_Name : string; tei_Data : gmap string string }.
Record TraceSpanInfo := mkSpanInfo {
  tsi_SpanID : string;
  tsi_ParentSpanID : string;
  tsi_Name : string;
  tsi_From : string;
  tsi_To : string;
  tsi_Port : string;
  tsi_EdgeID : string;
  tsi_DurationMs : spec_float;
  tsi_Status : string;
  tsi_Events : list TraceEventInfo;
  tsi_Usage : gmap string spec_float;
}.

Section extract.
  Variable unmarshal_map : string -> option (option (list (string * json))).  (* none inside: null *)

Definition extract_event (port : string) (out : gmap string (list (string * json))) (ev : TraceEventInfo)
    : gmap string (list (string * json)) :=
  match tei_Data ev !! "payload" with
  | None => out
  | Some payload =>
      if payload =? "" then out
      else match unmarshal_map payload with Some (Some obj) => <[port := obj]> out | _ => out end
  end.

Definition ExtractScenarioPorts (spans : list TraceSpanInfo) : gmap string (list (string * json)) :=
  fold_left (fun out sp => if tsi_Port sp =? "" then out
                           else fold_left (extract_event (tsi_Port sp)) (tsi_Events sp) out) spans ∅.
End extract.

(** ** Values of a published element *)

(** [out[f] = ""] where it is a credential's text. *)
Definition blank_field (f : string) (m : list (string * json)) : list (string * json) :=
  match obj_get f m with
  | Some (JStr s) => if negb (s =? "") && negb (IsExpression s) then obj_set f (JStr PublishedSecretValue) m else m
  | _ => m
  end.

Definition redact_example (e : json) : json := match e with JStr _ => JStr RedactedValue | _ => e end.

Definition blank_examples (m : list (string * json)) : list (string * json) :=
  match obj_get "examples" m with
  | Some (JArr l) => obj_set "examples" (JArr (map redact_example l)) m
  | _ => m
  end.

Fixpoint redactSchemaValue (key : string) (v : json) : json :=
  match v with
  | JObj m =>
      let out := (fun kv => (kv.1, redactSchemaValue kv.1 kv.2)) <$> m in
      JObj (if IsSecretKey key then blank_examples (blank_field "const" (blank_field "default" out)) else out)
  | JArr l => JArr (redactSchemaValue key <$> l)
  | _ => v
  end.

Definition RedactSchemaSecrets (v : json) : json := redactSchemaValue "" v.

Fixpoint replaceRedacted (v : json) : json :=
  match v with
  | JObj m => JObj ((fun kv => (kv.1, replaceRedacted kv.2)) <$> m)
  | JArr l => JArr (replaceRedacted <$> l)
  | JStr x => if x =? RedactedValue then JStr PublishedSecretValue else v
  | _ => v
  end.

Definition blankSecrets (v : json) : json := replaceRedacted (RedactSecrets v).
Definition blankSchemaSecrets (v : json) : json := replaceRedacted (RedactSchemaSecrets v).

Inductive pval : Type := Decoded (v : json) | Raw (s : string).

Section elements.
  Variable unmarshal : string -> option json.
  Variable marshal : json -> option string.

(** Bytes that cannot be read or written back are dropped. *)
Definition redactAny (v : pval) (redact : json -> json) : pval :=
  match v with
  | Decoded v => Decoded (redact v)
  | Raw raw => match unmarshal raw with
               | None => Decoded JNull
               | Some decoded => match marshal (redact decoded) with None => Decoded JNull | Some out => Raw out end
               end
  end.

Definition redact_field (kv : string * pval) : string * pval :=
  match kv.2 with
  | Decoded JNull => kv
  | v => if kv.1 =? "configuration" then (kv.1, redactAny v blankSecrets)
         else if kv.1 =? "schema" then (kv.1, redactAny v blankSchemaSecrets) else kv
  end.

Definition redactConfigSchema (m : list (string * pval)) : list (string * pval) := map redact_field m.

Record Element := mkElement { el_fields : list (string * pval); el_handles : list (list (string * pval)) }.

(** None: an element without data. *)
Definition RedactGraphElements (elements : list (option Element)) : list (option Element) :=
  map (option_map (fun e => mkElement (redactConfigSchema (el_fields e)) (map redactConfigSchema (el_handles e)))) elements.

(** nil bytes where there are none. *)
Definition redactBytes (b : string) (redact : json -> json) : string :=
  if b =? "" then "" else match redactAny (Raw b) redact with Raw out => out | Decoded _ => "" end.
Definition RedactConfigurationBytes (b : string) : string := redactBytes b RedactSecrets.
Definition RedactSchemaBytes (b : string) : string := redactBytes b RedactSchemaSecrets.
End elements.

(** ** What stays readable *)

Lemma replace_leaves (v : json) (key : string) :
  leaves key (replaceRedacted v) =
  (fun kv => (kv.1, if kv.2 =? RedactedValue then PublishedSecretValue else kv.2)) <$> leaves key v.
Proof.
  revert key. induction v as [|b|n|s|l IH|m IH] using json_nested_ind; intros key; try done.
  - cbn [replaceRedacted]. by destruct (s =? RedactedValue) eqn:E; cbn; rewrite ?E.
  - cbn [replaceRedacted]. rewrite !leaves_arr, list_fmap_bind. apply bind_fmap_leaves.
    eapply Forall_impl; [exact IH|]. intros x Hx. apply Hx.
  - cbn [replaceRedacted]. rewrite !leaves_obj, list_fmap_bind. apply bind_fmap_leaves.
    eapply Forall_impl; [exact IH|]. intros [k x] Hx. apply Hx.
Qed.

Lemma marker_clean : TextByShape RedactedValue = (RedactedValue, false).
Proof. apply text_clean_id. vm_compute. reflexivity. Qed.

(** No string looks like a credential, and under a credential's name there is
    nothing but what is left of an expression. *)
Definition clean_configuration (v : json) : Prop :=
  forall k s, (k, s) ∈ leaves "" v ->
    clean s = true /\ (IsSecretKey k = true -> s = "" \/ exists e, IsExpression e = true /\ s = (TextByShape e).1).

Lemma blank_secrets_clean (v : json) : clean_configuration (blankSecrets v).
Proof.
  unfold clean_configuration, blankSecrets, RedactSecrets. intros k s Hin. rewrite replace_leaves in Hin.
  pose proof (secrets_by_shape_spec (Secrets v) "") as Hs. destruct (SecretsByShape (Secrets v)) as [v' c].
  destruct Hs as (Hl & _). cbn [fst] in Hin. rewrite Hl in Hin. unfold Secrets in Hin. rewrite value_leaves in Hin.
  rewrite <- !list_fmap_compose in Hin. apply list_elem_of_fmap in Hin as ([k0 s0] & E & _).
  unfold compose in E. injection E as -> ->. rewrite mask_key. cbn [fst]. split.
  { destruct (_ =? _); [vm_compute; reflexivity|apply text_clean]. }
  intros Hk.
  assert (Hm : (mask IsSecretKey (k0, s0)).2 = s0 /\ (s0 = "" \/ IsExpression s0 = true) \/
               (mask IsSecretKey (k0, s0)).2 = RedactedValue).
  { unfold mask. cbn [fst snd]. rewrite Hk, andb_true_r. destruct (String.eqb_spec s0 "") as [->|]; [left; auto|].
    destruct (IsExpression s0); [left; auto|by right]. }
  destruct Hm as [[-> [->|He]]| ->].
  - left. reflexivity.
  - destruct (_ =? _); [by left|]. right. by exists s0.
  - left. vm_compute. reflexivity.
Qed.

(** The objects of a document with the name each is found under; the elements
    of an array are found under the array's. *)
Fixpoint objects (key : string) (v : json) : list (string * list (string * json)) :=
  match v with
  | JObj m => (key, m) :: (m ≫= fun kv => objects kv.1 kv.2)
  | JArr l => l ≫= objects key
  | _ => []
  end.

(** What a property declares for the value: literal text only where it is
    empty or an expression; no text among its examples. *)
Definition no_literal (m : list (string * json)) : Prop :=
  (forall f s, f = "default" \/ f = "const" -> obj_get f m = Some (JStr s) -> s = "" \/ IsExpression s = true) /\
  (forall l s, obj_get "examples" m = Some (JArr l) -> JStr s ∈ l -> s = "").

Definition clean_schema (v : json) : Prop :=
  forall k m, (k, m) ∈ objects "" v -> IsSecretKey k = true -> no_literal m.

Lemma replace_get (m : list (string * json)) (k : string) :
  obj_get k ((fun kv => (kv.1, replaceRedacted kv.2)) <$> m) = replaceRedacted <$> obj_get k m.
Proof. apply (obj_get_map replaceRedacted). Qed.

Lemma replace_str (v : json) (s : string) :
  replaceRedacted v = JStr s -> s = "" \/ v = JStr s.
Proof.
  destruct v; try discriminate. cbn. destruct (String.eqb_spec s0 RedactedValue) as [->|].
  - intros [= <-]. by left.
  - intros [= <-]. by right.
Qed.

Lemma replace_objects (v : json) (key k : string) (m : list (string * json)) :
  (k, m) ∈ objects key (replaceRedacted v) ->
  exists m0, (k, m0) ∈ objects key v /\ m = (fun kv => (kv.1, replaceRedacted kv.2)) <$> m0.
Proof.
  revert key. induction v as [|b|n|s|l IH|m' IH] using json_nested_ind; intros key; cbn [replaceRedacted objects];
    try (by intros Hin; apply not_elem_of_nil in Hin).
  - destruct (s =? RedactedValue); cbn; intros Hin; by apply not_elem_of_nil in Hin.
  - intros (x & Hin & Hx)%list_elem_of_bind. apply list_elem_of_fmap in Hx as (y & -> & Hy).
    rewrite Forall_forall in IH. destruct (IH y Hy key Hin) as (m0 & H0 & E). exists m0. split; [|done].
    apply list_elem_of_bind. eauto.
  - intros [E|Hin]%elem_of_cons.
    + injection E as -> ->. exists m'. split; [left|done].
    + apply list_elem_of_bind in Hin as ([k1 x] & Hin & Hx). apply list_elem_of_fmap in Hx as ([k2 y] & E & Hy).
      injection E as -> ->. rewrite Forall_forall in IH. destruct (IH _ Hy k2 Hin) as (m0 & H0 & E).
      exists m0. split; [right|done]. apply list_elem_of_bind. by exists (k2, y).
Qed.

(** The property as [redactSchemaValue] leaves it: what may still be the
    marker becomes empty when the markers are replaced. *)
Definition no_literal_but_marker (m : list (string * json)) : Prop :=
  (forall f s, f = "default" \/ f = "const" -> obj_get f m = Some (JStr s) -> s = "" \/ IsExpression s = true) /\
  (forall l s, obj_get "examples" m = Some (JArr l) -> JStr s ∈ l -> s = RedactedValue).

Lemma blank_field_get (f g : string) (m : list (string * json)) :
  obj_get g (blank_field f m) =
  match obj_get f m with
  | Some (JStr s) => if negb (s =? "") && negb (IsExpression s) && (g =? f) then Some (JStr "") else obj_get g m
  | _ => obj_get g m
  end.
Proof.
  unfold blank_field. destruct (obj_get f m) as [[]|]; try done.
  destruct (negb (s =? "") && negb (IsExpression s)); [|done]. cbn [andb]. rewrite obj_get_set.
  rewrite String.eqb_sym. by destruct (g =? f).
Qed.

Lemma blank_field_other (f g : string) (m : list (string * json)) :
  g <> f -> obj_get g (blank_field f m) = obj_get g m.
Proof.
  intros Hne%String.eqb_neq. rewrite blank_field_get, Hne. destruct (obj_get f m) as [[]|]; try done. by rewrite andb_false_r.
Qed.

Lemma blank_field_same (f s : string) (m : list (string * json)) :
  obj_get f (blank_field f m) = Some (JStr s) -> s = "" \/ IsExpression s = true.
Proof.
  rewrite blank_field_get, String.eqb_refl. destruct (obj_get f m) as [x|] eqn:E; [|done].
  destruct x as [| | |t| |]; try congruence. rewrite andb_true_r.
  destruct (String.eqb_spec t "") as [->|]; cbn [negb andb]; [intros H; left; congruence|].
  destruct (IsExpression t) eqn:Ee; cbn [negb]; intros H; [right|left]; congruence.
Qed.

Lemma blanked_no_literal (out : list (string * json)) :
  no_literal_but_marker (blank_examples (blank_field "const" (blank_field "default" out))).
Proof.
  set (m := blank_field "const" (blank_field "default" out)).
  assert (Hm : forall f s, f = "default" \/ f = "const" -> obj_get f m = Some (JStr s) -> s = "" \/ IsExpression s = true).
  { intros f s [-> | ->] Hg; unfold m in Hg.
    - rewrite blank_field_other in Hg by done. by apply blank_field_same in Hg.
    - by apply blank_field_same in Hg. }
  unfold blank_examples. destruct (obj_get "examples" m) as [x|] eqn:Ex; [destruct x as [| | | |ex|]|].
  5: { split.
    - intros f s Hf. rewrite obj_get_set. destruct Hf as [-> | ->]; cbn; intros Hg; (eapply Hm; [|exact Hg]); auto.
    - intros l s. rewrite obj_get_set. cbn. intros [= <-] Hin. apply list_elem_of_In, in_map_iff in Hin as (e & E & _).
      destruct e; cbn in E; congruence. }
  all: split; [exact Hm|intros l str Hg; congruence].
Qed.

Lemma in_obj_set (f k : string) (v x : json) (m : list (string * json)) :
  (k, x) ∈ obj_set f v m -> (k, x) ∈ m \/ k = f /\ x = v.
Proof.
  induction m as [|[k1 y] m IH]; cbn.
  - intros [= -> ->]%list_elem_of_singleton. by right.
  - destruct (k1 =? f) eqn:E.
    + apply String.eqb_eq in E as ->. intros [[= -> ->]|Hin]%elem_of_cons; [by right|left; by right].
    + intros [->|Hin]%elem_of_cons; [left; left|]. destruct (IH Hin) as [H|H]; [left; by right|by right].
Qed.

Lemma blanked_objects (out : list (string * json)) (k : string) (m : list (string * json)) :
  (k, m) ∈ (blank_examples (blank_field "const" (blank_field "default" out)) ≫= fun kv => objects kv.1 kv.2) ->
  (k, m) ∈ (out ≫= fun kv => objects kv.1 kv.2).
Proof.
  assert (Hf : forall f l, (k, m) ∈ (blank_field f l ≫= fun kv => objects kv.1 kv.2) -> (k, m) ∈ (l ≫= fun kv => objects kv.1 kv.2)).
  { intros f l. unfold blank_field. destruct (obj_get f l) as [[]|]; try done. destruct (_ && _); [|done].
    intros ([k1 x] & Hx & Hin)%list_elem_of_bind. apply in_obj_set in Hin as [Hin|[-> ->]].
    - apply list_elem_of_bind. by exists (k1, x).
    - by apply not_elem_of_nil in Hx. }
  intros Hin. apply (Hf "default"), (Hf "const"). unfold blank_examples in Hin.
  set (l := blank_field "const" (blank_field "default" out)) in *.
  destruct (obj_get "examples" l) as [e|] eqn:E; [destruct e as [| | | |ex|]|]; try done.
  apply list_elem_of_bind in Hin as ([k1 x] & Hx & Hin). apply in_obj_set in Hin as [Hin|[-> ->]].
  - apply list_elem_of_bind. by exists (k1, x).
  - apply obj_get_in in E. apply list_elem_of_bind. exists ("examples", JArr ex). split; [|done].
    cbn [fst snd objects] in *. apply list_elem_of_bind in Hx as (y & Hy & Hin).
    apply list_elem_of_In, in_map_iff in Hin as (z & <- & Hz). apply list_elem_of_bind. exists z.
    split; [|by apply list_elem_of_In]. destruct z; try done.
Qed.

Lemma schema_objects (v : json) (key k : string) (m : list (string * json)) :
  (k, m) ∈ objects key (redactSchemaValue key v) -> IsSecretKey k = true -> no_literal_but_marker m.
Proof.
  revert key. induction v as [|b|n|s|l IH|m' IH] using json_nested_ind; intros key; cbn [redactSchemaValue objects];
    try (by intros Hin; apply not_elem_of_nil in Hin).
  - intros (x & Hin & Hx)%list_elem_of_bind Hk. apply list_elem_of_fmap in Hx as (y & -> & Hy).
    rewrite Forall_forall in IH. by apply (IH y Hy key).
  - set (out := (fun kv => (kv.1, redactSchemaValue kv.1 kv.2)) <$> m'). intros [E|Hin]%elem_of_cons Hk.
    + injection E as -> ->. rewrite Hk. apply blanked_no_literal.
    + assert (Hout : (k, m) ∈ (out ≫= fun kv => objects kv.1 kv.2)).
      { destruct (IsSecretKey key); [by apply blanked_objects|done]. }
      apply list_elem_of_bind in Hout as ([k1 x] & Hx & Ho). apply list_elem_of_fmap in Ho as ([k2 y] & [= -> ->] & Hy).
      rewrite Forall_forall in IH. by apply (IH (k2, y) Hy k2).
Qed.

Lemma blank_schema_clean (v : json) : clean_schema (blankSchemaSecrets v).
Proof.
  intros k m Hin Hk. unfold blankSchemaSecrets in Hin. apply replace_objects in Hin as (m0 & Hin & ->).
  destruct (schema_objects v "" k m0 Hin Hk) as [Hd He]. split.
  - intros f s Hf. rewrite replace_get. destruct (obj_get f m0) as [x|] eqn:E; [|done]. cbn. intros [= Hx].
    apply replace_str in Hx as [->| ->]; [by left|]. by apply (Hd f).
  - intros l s. rewrite replace_get. destruct (obj_get "examples" m0) as [x|] eqn:E; [|done]. cbn. intros [= Hx] Hs.
    destruct x as [| | | |l0|]; try discriminate; [cbn in Hx; by destruct (_ =? _)|]. injection Hx as <-.
    apply list_elem_of_fmap in Hs as (y & Ey & Hy). symmetry in Ey. apply replace_str in Ey as Hs; destruct Hs as [->| ->]; [done|].
    specialize (He l0 s eq_refl Hy) as ->. cbn in Ey. by injection Ey as <-.
Qed.

(** ** Published elements *)

Section published.
  Variable unmarshal : string -> option json.
  Variable marshal : json -> option string.
  Hypothesis roundtrip : forall v out, marshal v = Some out -> unmarshal out = Some v.

(** What a reader makes of a value. *)
Definition readable (p : pval) : option json := match p with Decoded v => Some v | Raw s => unmarshal s end.

Lemma redactAny_reads (p : pval) (redact : json -> json) (v : json) :
  readable (redactAny unmarshal marshal p redact) = Some v -> v = JNull \/ exists u, v = redact u.
Proof.
  destruct p as [u|raw]; cbn [redactAny].
  - intros [= <-]. right. by exists u.
  - destruct (unmarshal raw) as [u|]; [|by intros [= <-]; left]. destruct (marshal (redact u)) as [out|] eqn:E.
    + cbn. rewrite (roundtrip _ _ E). intros [= <-]. right. by exists u.
    + intros [= <-]. by left.
Qed.

(** C22. What a published element holds, in its data and in each of its
    handles: whatever can be read from a configuration has no text that looks
    like a credential anywhere, and under a credential's name nothing but what
    is left of an expression; and a property of a schema with a credential's
    name has no literal text as its default, its constant or among its
    examples. Bytes that cannot be read are not published. *)
Theorem published_elements_clean (elements : list (option Element)) (e : Element) (fields : list (string * pval))
    (p : pval) (v : json) :
  Some e ∈ RedactGraphElements unmarshal marshal elements -> fields ∈ el_fields e :: el_handles e ->
  readable p = Some v ->
  (("configuration", p) ∈ fields -> clean_configuration v) /\ (("schema", p) ∈ fields -> clean_schema v).
Proof.
  intros He Hf Hv. unfold RedactGraphElements in He. apply list_elem_of_In, in_map_iff in He as ([e0|] & E & _); [|done].
  injection E as <-. cbn [el_fields el_handles] in Hf.
  assert (Hfields : exists m, fields = redactConfigSchema unmarshal marshal m).
  { apply elem_of_cons in Hf as [->|Hf]; [eauto|]. apply list_elem_of_In, in_map_iff in Hf as (m & <- & _). eauto. }
  destruct Hfields as [m ->]. unfold redactConfigSchema.
  assert (Hnull : clean_configuration JNull /\ clean_schema JNull).
  { split; [intros k s Hin|intros k s Hin]; by apply not_elem_of_nil in Hin. }
  split; intros Hin; apply list_elem_of_In, in_map_iff in Hin as ([k q] & E & _); unfold redact_field in E; cbn [fst snd] in E.
  - assert (Hq : q = Decoded JNull /\ p = q \/ p = redactAny unmarshal marshal q blankSecrets).
    { destruct q as [[]|]; repeat case_match; simplify_eq; auto. }
    destruct Hq as [[-> ->]| ->]; [injection Hv as <-; apply Hnull|].
    apply redactAny_reads in Hv as [->|[u ->]]; [apply Hnull|apply blank_secrets_clean].
  - assert (Hq : q = Decoded JNull /\ p = q \/ p = redactAny unmarshal marshal q blankSchemaSecrets).
    { destruct q as [[]|]; repeat case_match; simplify_eq; auto. }
    destruct Hq as [[-> ->]| ->]; [injection Hv as <-; apply Hnull|].
    apply redactAny_reads in Hv as [->|[u ->]]; [apply Hnull|apply blank_schema_clean].
Qed.
End published.

(** What a schema may still leak: a default that is an object is left alone,
    also when a member of it has a credential's name. *)
Example schema_default_leaks :
  blankSchemaSecrets (JObj [("properties", JObj [("context", JObj [("default", JObj [("apiKey", JStr "hunter2")])])])]) =
  JObj [("properties", JObj [("context", JObj [("default", JObj [("apiKey", JStr "hunter2")])])])].
Proof. reflexivity. Qed.

Lemma published_elements_clean_witness :
  let unmarshal := fun s => if s =? "raw" then Some (JObj [("apiKey", JStr "hunter2")]) else if s =? "out" then Some (JObj [("apiKey", JStr "")]) else None in
  let marshal := fun v => if bool_decide (v = JObj [("apiKey", JStr "")]) then Some "out" else None in
  RedactGraphElements unmarshal marshal [Some (mkElement [("configuration", Raw "raw")] [])] =
    [Some (mkElement [("configuration", Raw "out")] [])] /\
  clean_configuration (JObj [("apiKey", JStr "")]).
Proof.
  intros unmarshal marshal. split; [vm_compute; reflexivity|].
  refine (proj1 (published_elements_clean unmarshal marshal _ [Some (mkElement [("configuration", Raw "raw")] [])]
    (mkElement [("configuration", Raw "out")] []) [("configuration", Raw "out")] (Raw "out") (JObj [("apiKey", JStr "")]) _ _ _) _).
  - intros v out. unfold marshal. destruct (bool_decide _) eqn:E; [|discriminate]. apply bool_decide_eq_true in E as ->.
    intros [= <-]. reflexivity.
  - apply list_elem_of_singleton. vm_compute. reflexivity.
  - left.
  - reflexivity.
  - left.
Defined.
