(* ===== verification/FlowIssues.v ===== *)
(** * Structural faults and readiness of a flow

    [pkg/tools/flow_validate.go]: what a project's elements say is wrong with a
    flow: broken edges, unwired nodes and error ports, settings that are missing
    or ignored. [signal_readiness.go]: the wait before a trigger is fired, and
    the nodes that did not come up. [position_tracker.go]: where new nodes go.

    Elements are the decoded objects of [ReadProjectElements]; a list of
    strings and a list of values that came through JSON read the same. *)
From S2P Require Import Prelude GoErrors Json.

Open Scope string_scope.
Open Scope list_scope.

Definition element : Type := list (string * json).

(** [m[key].(string)], empty where it is none. *)
Definition mapStr (m : element) (key : string) : string := default "" (as_str (fld m key)).

Definition data_of (el : element) : element := default [] (as_obj (fld el "data")).
Definition has_data (el : element) : bool := match as_obj (fld el "data") with Some _ => true | None => false end.

Definition elemIsEdge (el : element) : bool :=
  if mapStr el "type" =? "tinyEdge" then true
  else if mapStr el "type" =? "tinyNode" then false
  else negb (mapStr el "source" =? "") && negb (mapStr el "target" =? "").

Definition elemDataStr (el : element) (key : string) : string := mapStr (data_of el) key.

Definition strings (v : json) : list string := omap as_str (default [] (as_arr v)).

Definition elemDataStrings (el : element) (key : string) : list string := strings (fld (data_of el) key).
Definition elemOutPorts (el : element) : list string :=
  strings (fld (default [] (as_obj (fld (data_of el) "ports"))) "out").

(** ** Faults *)

(** The nodes edges touch, and those with an edge from the error port. *)
Definition connected (elements : list element) (id : string) : bool :=
  existsb (fun el => elemIsEdge el && ((mapStr el "source" =? id) || (mapStr el "target" =? id))) elements.
Definition errPortWired (elements : list element) (id : string) : bool :=
  existsb (fun el => elemIsEdge el && (mapStr el "source" =? id) && (mapStr el "sourceHandle" =? "error")) elements.

Definition edge_issues (el : element) : list string :=
  let e := elemDataStr el "error" in
  if negb (elemIsEdge el) || (e =? "") then []
  else ["BROKEN EDGE " +:+ mapStr el "id" +:+ ": " +:+ e +:+ " — fix the expression or delete the edge."].

Definition node_issues (elements : list element) (el : element) : list string :=
  let id := mapStr el "id" in
  let component := elemDataStr el "component" in
  if elemIsEdge el || (id =? "") then []
  else
    (let ce := elemDataStr el "config_error" in
     if ce =? "" then [] else ["NODE " +:+ id +:+ " (" +:+ component +:+ "): " +:+ ce]) ++
    (match elemDataStrings el "settings_unknown_keys" with
     | [] => []
     | unknown =>
         ["IGNORED SETTINGS on " +:+ id +:+ " (" +:+ component +:+ "): " +:+ go_join ", " unknown +:+
          " — the component has no such setting, so " +:+
          (match unknown with [_] => "it is" | _ => "they are" end) +:+
          " dropped and does nothing. Check the spelling against get_component_info, and remember a credential belongs on the input port that consumes it, never in settings."]
     end) ++
    (if negb (connected elements id)
     then ["DANGLING NODE " +:+ id +:+ " (" +:+ component +:+ "): no edges at all — wire it into the flow or delete it."]
     else flat_map (fun p =>
            if (p =? "error") && negb (errPortWired elements id)
            then ["UNCONNECTED ERROR PORT on " +:+ id +:+ " (" +:+ component +:+
                  "): wire the error port to a recovery/debug node, or disable it (settings.enableErrorPort=false) — an unwired error port silently drops failures."]
            else []) (elemOutPorts el)).

Definition FlowIssues (elements : list element) : list string :=
  flat_map edge_issues elements ++ flat_map (node_issues elements) elements.

(** ** Readiness *)

Definition bool_field (m : element) (k : string) : bool := default false (as_bool (fld m k)).

Definition IsStartFire (data : element) : bool := bool_field data "send" || bool_field data "start".

Definition goodNodeStatus (s : string) : bool :=
  existsb (String.eqb s) ["OK"; "Running"; "Ready"; "Started"; "Stopped"; "Idle"].

(** The elements of the flow that owns the node; all where it is not found. *)
Definition flowScopedElements (all : list element) (nodeID : string) : list element :=
  let flow := match List.find (fun el => mapStr el "id" =? nodeID) all with
              | Some el => mapStr el "flow" | None => "" end in
  if flow =? "" then all else List.filter (fun el => mapStr el "flow" =? flow) all.

(** The nodes with data, by their type alone. *)
Definition status_nodes (els : list element) : list element :=
  List.filter (fun el => negb (mapStr el "type" =? "tinyEdge") && has_data el) els.

Definition statusSignature (els : list element) : string * bool :=
  let nodes := status_nodes els in
  (go_join "|" (map (fun el => mapStr el "id" +:+ "=" +:+ elemDataStr el "status") nodes),
   forallb (fun el => negb (elemDataStr el "status" =? "")) nodes).

Definition collapseStatus (s : string) : string :=
  let s := go_trim_space (go_replace_char "010" " " s) in
  if (240 <? String.length s)%nat then string_take 240 s +:+ "…" else s.

Definition NodeStatusFaults (els : list element) : list string :=
  flat_map (fun el => let st := elemDataStr el "status" in
              if (st =? "") || goodNodeStatus st then []
              else ["node " +:+ mapStr el "id" +:+ " failed to come up: " +:+ collapseStatus st]) (status_nodes els).

Definition NotReadyNodes (els : list element) : list string :=
  map (fun el => mapStr el "id") (List.filter (fun el => elemDataStr el "status" =? "") (status_nodes els)).

(** What the poll [i] reads, none where it fails, and whether the context ends
    while it sleeps afterwards. *)
Section readiness.
  Variable read : nat -> option (list element).
  Variable cancelled : nat -> bool.
  Variable nodeID : string.

(** [left] polls to go: the elements seen last and the number of polls. *)
Fixpoint wait_ready (left i : nat) (last : list element) (prevSig : string) (stable : nat) : list element * nat :=
  match left with
  | O => (last, i)
  | S left' =>
      match read i with
      | None => if cancelled i then (last, S i) else wait_ready left' (S i) last prevSig stable
      | Some elements =>
          let last := flowScopedElements elements nodeID in
          let '(sig, allSettled) := statusSignature last in
          if allSettled then (last, S i)
          else
            let '(stable, prevSig) := if sig =? prevSig then (S stable, prevSig) else (0%nat, sig) in
            if (2 <=? stable)%nat && (3 <=? i)%nat then (last, S i)
            else if cancelled i then (last, S i) else wait_ready left' (S i) last prevSig stable
      end
  end.

Definition WaitFlowReady : list element * nat := wait_ready 30 0 [] "" 0.
End readiness.

(** ** Positions *)

Record NodePosition := mkPosition { np_NodeID : string; np_FlowName : string; np_X : Z; np_Y : Z }.

(** By flow. *)
Abbreviation PositionTracker := (gmap string (list NodePosition)).

Definition positions (t : PositionTracker) (flowName : string) : list NodePosition := default [] (t !! flowName).

Definition RecordPosition (flowName nodeID : string) (x y : Z) (t : PositionTracker) : PositionTracker :=
  <[flowName := positions t flowName ++ [mkPosition nodeID flowName x y]]> t.

Definition GetMaxX (flowName : string) (t : PositionTracker) : Z :=
  fold_left (fun maxX pos => if (maxX <? np_X pos)%Z then np_X pos else maxX) (positions t flowName) 0%Z.

Definition GetNextY (flowName : string) (targetX columnWidth : Z) (t : PositionTracker) : Z :=
  (150 + 360 * Z.of_nat (length (List.filter (fun pos => Z.abs (np_X pos - targetX) <? columnWidth)%Z (positions t flowName))))%Z.

Definition GetAllPositions (flowName : string) (t : PositionTracker) : list NodePosition := positions t flowName.

(** ** What the faults mean *)

Lemma flat_map_none_iff {A B} (f : A -> list B) (l : list A) : flat_map f l = [] <-> forall x, x ∈ l -> f x = [].
Proof.
  induction l as [|a l IH]; cbn; [by split; [intros _ x Hx; by apply not_elem_of_nil in Hx|]|]. split.
  - intros [Ha Hl]%app_nil x [->|Hx]%elem_of_cons; [done|]. by apply IH.
  - intros Hx. rewrite (Hx a) by left. apply IH. intros x Hin. apply Hx. by right.
Qed.

(** An edge of the elements that leaves or reaches the node. *)
Definition touches (el : element) (id : string) : Prop :=
  elemIsEdge el = true /\ (mapStr el "source" = id \/ mapStr el "target" = id).

Lemma connected_iff (elements : list element) (id : string) :
  connected elements id = true <-> exists el, el ∈ elements /\ touches el id.
Proof.
  unfold connected, touches. rewrite existsb_exists. setoid_rewrite <- list_elem_of_In.
  setoid_rewrite andb_true_iff. setoid_rewrite orb_true_iff. by setoid_rewrite String.eqb_eq.
Qed.

Lemma errPortWired_iff (elements : list element) (id : string) :
  errPortWired elements id = true <->
  exists el, el ∈ elements /\ elemIsEdge el = true /\ mapStr el "source" = id /\ mapStr el "sourceHandle" = "error".
Proof.
  unfold errPortWired. rewrite existsb_exists. setoid_rewrite <- list_elem_of_In.
  setoid_rewrite andb_true_iff. setoid_rewrite andb_true_iff. setoid_rewrite String.eqb_eq. naive_solver.
Qed.

(** A flow has no faults to report exactly when no edge carries an error;
    and every node with an id has no setting missing or ignored, is reached or
    left by some edge, and has an edge from its error port if it publishes
    one. *)
Theorem flow_is_sound_iff (elements : list element) :
  FlowIssues elements = [] <->
  (forall el, el ∈ elements -> elemIsEdge el = true -> elemDataStr el "error" = "") /\
  (forall el, el ∈ elements -> elemIsEdge el = false -> mapStr el "id" <> "" ->
     elemDataStr el "config_error" = "" /\ elemDataStrings el "settings_unknown_keys" = [] /\
     (exists e, e ∈ elements /\ touches e (mapStr el "id")) /\
     ("error" ∈ elemOutPorts el -> exists e, e ∈ elements /\ elemIsEdge e = true /\
        mapStr e "source" = mapStr el "id" /\ mapStr e "sourceHandle" = "error")).
Proof.
  unfold FlowIssues. rewrite app_nil, !flat_map_none_iff. apply Morphisms_Prop.and_iff_morphism.
  - split; intros H el Hin; specialize (H el Hin); unfold edge_issues in *.
    + intros He. rewrite He in H. cbn in H. by destruct (String.eqb_spec (elemDataStr el "error") "").
    + destruct (elemIsEdge el); [|done]. by rewrite H.
  - split; intros H el Hin; specialize (H el Hin); unfold node_issues in *.
    + intros He Hid. apply String.eqb_neq in Hid. rewrite He, Hid in H. cbn [orb] in H.
      apply app_nil in H as [H1 H]. apply app_nil in H as [H2 H3]. split; [|split; [|split]].
      * by destruct (String.eqb_spec (elemDataStr el "config_error") "").
      * by destruct (elemDataStrings el "settings_unknown_keys") as [|? []].
      * apply connected_iff. by destruct (connected elements (mapStr el "id")).
      * intros Hp. destruct (connected elements (mapStr el "id")); [|done]. cbn [negb] in H3.
        rewrite flat_map_none_iff in H3. specialize (H3 "error" Hp). cbn in H3.
        apply errPortWired_iff. by destruct (errPortWired elements (mapStr el "id")).
    + destruct (elemIsEdge el) eqn:He; [done|]. destruct (String.eqb_spec (mapStr el "id") "") as [|Hid]; [done|].
      destruct (H eq_refl Hid) as (-> & -> & Hc & Hw). apply connected_iff in Hc as ->. cbn.
      apply flat_map_none_iff. intros p Hp. destruct (String.eqb_spec p "error") as [->|]; [|done].
      apply Hw, errPortWired_iff in Hp as ->. done.
Qed.

(** ** What the wait and the tracker give *)

Section wait.
  Variable read : nat -> option (list element).
  Variable cancelled : nat -> bool.
  Variable nodeID : string.

(** [els] is what was read last of [n] polls. *)
Definition last_seen (els : list element) (n : nat) : Prop :=
  (els = [] /\ forall i, (i < n)%nat -> read i = None) \/
  exists i elements, (i < n)%nat /\ read i = Some elements /\ els = flowScopedElements elements nodeID /\
    forall j, (i < j < n)%nat -> read j = None.

(** No read of the first [n] polls had a status for every node. *)
Definition unsettled (n : nat) : Prop :=
  forall i, (i < n)%nat -> match read i with
    | Some elements => (statusSignature (flowScopedElements elements nodeID)).2 = false
    | None => True
    end.

Lemma unsettled_next (i : nat) :
  unsettled i -> match read i with
    | Some elements => (statusSignature (flowScopedElements elements nodeID)).2 = false
    | None => True
    end -> unsettled (S i).
Proof. intros Hu Hi j Hj. destruct (decide (j = i)) as [->|]; [done|]. apply Hu. lia. Qed.

Lemma last_seen_failed (els : list element) (i : nat) :
  last_seen els i -> read i = None -> last_seen els (S i).
Proof.
  intros Hs Hi.
  assert (Hn : forall P : nat -> Prop, (forall j, P j -> (j < i)%nat -> read j = None) ->
               forall j, P j -> (j < S i)%nat -> read j = None).
  { intros P HP j Hj Hlt. destruct (decide (j = i)) as [->|]; [done|]. apply HP; [done|lia]. }
  destruct Hs as [[-> Hs]|(k & elements & Hk & Hr & -> & Hs)].
  - left. split; [done|]. intros j. by apply (Hn (fun _ => True)); auto.
  - right. exists k, elements. split; [lia|]. split; [done|]. split; [done|]. intros j [Hj1 Hj2].
    apply (Hn (fun j => k < j)%nat); auto.
Qed.

Lemma wait_ready_spec (left i : nat) (last : list element) (prevSig : string) (stable : nat) :
  last_seen last i -> unsettled i ->
  let '(els, polls) := wait_ready read cancelled nodeID left i last prevSig stable in
  (polls <= i + left)%nat /\ last_seen els polls /\
  (unsettled polls \/ exists p, polls = S p /\ unsettled p).
Proof.
  revert i last prevSig stable.
  induction left as [|left IH]; intros i last prevSig stable Hs Hu; cbn [wait_ready].
  { split; [lia|]. split; [done|by left]. }
  pose proof (unsettled_next i Hu) as Hu'.
  destruct (read i) as [elements|] eqn:Er.
  - assert (Hseen : last_seen (flowScopedElements elements nodeID) (S i)).
    { right. exists i, elements. split; [lia|]. split; [done|]. split; [done|]. lia. }
    destruct (statusSignature (flowScopedElements elements nodeID)) as [sig settled] eqn:Esig.
    assert (Hend : (S i <= i + S left)%nat /\ last_seen (flowScopedElements elements nodeID) (S i) /\
                   (unsettled (S i) \/ exists p, S i = S p /\ unsettled p)).
    { split; [lia|]. split; [done|]. right. by exists i. }
    destruct settled; [exact Hend|]. specialize (Hu' eq_refl).
    destruct (if sig =? prevSig then (S stable, prevSig) else (0%nat, sig)) as [stable' prevSig'].
    destruct (_ && _)%nat; [exact Hend|]. destruct (cancelled i); [exact Hend|].
    specialize (IH (S i) _ prevSig' stable' Hseen Hu').
    destruct (wait_ready _ _ _ left _ _ _ _) as [els polls]. destruct IH as (? & ? & ?). split; [lia|done].
  - pose proof (last_seen_failed last i Hs Er) as Hseen. specialize (Hu' I).
    destruct (cancelled i); [split; [lia|]; split; [done|by left]|].
    specialize (IH (S i) _ prevSig stable Hseen Hu').
    destruct (wait_ready _ _ _ left _ _ _ _) as [els polls]. destruct IH as (? & ? & ?). split; [lia|done].
Qed.

(** The wait before a trigger always ends: after 30 reads at most, with the
    flow as it was read last; and it ends at the first read in which every node
    has a status, if nothing ended it before. *)
Theorem wait_flow_ready_ends :
  let '(els, polls) := WaitFlowReady read cancelled nodeID in
  (polls <= 30)%nat /\ last_seen els polls /\
  forall i, (i < polls)%nat -> match read i with
    | Some elements => (statusSignature (flowScopedElements elements nodeID)).2 = true -> polls = S i
    | None => True
    end.
Proof.
  unfold WaitFlowReady. pose proof (wait_ready_spec 30 0 [] "" 0) as H.
  destruct (wait_ready _ _ _ _ _ _ _ _) as [els polls].
  destruct H as (Hp & Hs & Hu); [left; split; [done|lia]|intros i Hi; lia|].
  split; [lia|]. split; [exact Hs|]. intros i Hi. destruct Hu as [Hu|(p & -> & Hu)].
  - specialize (Hu i Hi). destruct (read i); [|done]. by rewrite Hu.
  - destruct (decide (i = p)) as [->|]; [by destruct (read p)|]. specialize (Hu i ltac:(lia)).
    destruct (read i); [|done]. by rewrite Hu.
Qed.
End wait.

(** Nodes placed one after the other in a column never share a place. *)
Lemma next_y_fresh (flowName nodeID : string) (x w y : Z) (t : PositionTracker) :
  (0 < w)%Z -> GetNextY flowName x w (RecordPosition flowName nodeID x y t) = (GetNextY flowName x w t + 360)%Z.
Proof.
  intros Hw. unfold GetNextY, RecordPosition, positions. rewrite lookup_insert_eq. cbn [default id].
  rewrite List.filter_app, length_app. cbn [List.filter np_X]. rewrite Z.sub_diag.
  destruct (Z.ltb_spec (Z.abs 0) w); cbn [length]; lia.
Qed.
