(* ===== verification/Authoring.v ===== *)
(** * Schemas and sample data an author did not write

    [pkg/tools/schema_required.go] and [build_flow_scenarios.go],
    [scenario_scaffold_live.go]: what the tools that build flows derive from a
    specification and the ports' published schemas: which settings a component
    does not know, which fields take any shape, a schema for the data that fills
    them, and placeholder samples for what an edge's expressions read.

    Schemas come as bytes; [unmarshal] is the JSON decoder. A map that is nil
    and one that is empty read the same. Maps are lists in the order Go walks
    them; the order of a set of paths is [MapRange]'s. Values are trees: a
    sample taken from an enumeration of objects is not shared. *)
From S2P Require Import Prelude GoErrors Names Graph Json.

Open Scope string_scope.
Open Scope list_scope.

Abbreviation obj := (list (string * json)).

(** ** Expressions and paths in text *)

Fixpoint take_while (p : ascii -> bool) (s : string) : string :=
  match s with String c s' => if p c then String c (take_while p s') else "" | EmptyString => "" end.

(** [expressionRe], "{{...}}", at the start of a string: the inner text. *)
Definition match_expression (s : string) : option string :=
  if go_has_prefix s "{{" then
    let inner := take_while (fun c => negb (Ascii.eqb c "}")) (string_drop 2 s) in
    if negb (inner =? "") && go_has_prefix (string_drop (2 + String.length inner) s) "}}" then Some inner else None
  else None.

(** All matches from the left; [skip] counts the characters of the last one. *)
Fixpoint expressions (skip : nat) (s : string) : list string :=
  match s with
  | EmptyString => []
  | String _ s' =>
      match skip with
      | S n => expressions n s'
      | O => match match_expression s with
             | Some inner => inner :: expressions (String.length inner + 3) s'
             | None => expressions 0 s'
             end
      end
  end.

(** The inner text of a string that is one expression and nothing else. *)
Definition whole_expression (s : string) : option string :=
  match expressions 0 s with
  | inner :: _ => if ("{{" +:+ inner +:+ "}}") =? s then Some inner else None
  | [] => None
  end.

Definition name_start (c : ascii) : bool := is_upper c || is_lower c || Ascii.eqb c "_".
Definition name_char (c : ascii) : bool := name_start c || is_digit c.

(** The length of "[3]" or "[*]" at the start. *)
Definition index_length (s : string) : nat :=
  match s with
  | String "[" s' =>
      let digits := String.length (take_while is_digit s') in
      if (0 <? digits)%nat && go_has_prefix (string_drop digits s') "]" then digits + 2
      else if go_has_prefix s' "*]" then 3 else 0
  | _ => 0
  end.

(** The length of ".name" with its index at the start. *)
Definition segment_length (s : string) : nat :=
  match s with
  | String "." (String c s') =>
      if name_start c then
        let n := String.length (take_while name_char s') in
        2 + n + index_length (string_drop n s')
      else 0
  | _ => 0
  end.

Fixpoint segments_length (fuel : nat) (s : string) : nat :=
  match fuel with
  | O => 0
  | S f => match segment_length s with O => 0 | n => n + segments_length f (string_drop n s) end
  end.

(** [jsonPathRe]: the paths of an expression, without their "$.". *)
Fixpoint json_paths (skip : nat) (s : string) : list string :=
  match s with
  | EmptyString => []
  | String c s' =>
      match skip with
      | S n => json_paths n s'
      | O =>
          if Ascii.eqb c "$" then
            match segments_length (String.length s') s' with
            | O => json_paths 0 s'
            | n => string_drop 1 (string_take n s') :: json_paths n s'
            end
          else json_paths 0 s'
      end
  end.

(** [segmentRe]: a key and whether it has an index. *)
Definition segment (raw : string) : option (string * bool) :=
  match raw with
  | String c s' =>
      if name_start c then
        let name := take_while name_char s' in
        let rest := string_drop (String.length name) s' in
        if rest =? "" then Some (String c name, false)
        else if (index_length rest =? String.length rest)%nat then Some (String c name, true) else None
      else None
  | EmptyString => None
  end.

Definition segments (path : string) : list (option (string * bool)) := map segment (go_split "." path).

(** The distinct paths a configuration reads. *)
Fixpoint collectExpressions (v : json) : gset string :=
  match v with
  | JStr x => list_to_set (flat_map (json_paths 0) (expressions 0 x))
  | JObj m => ⋃ (map (fun kv => collectExpressions kv.2) m)
  | JArr l => ⋃ (map collectExpressions l)
  | _ => ∅
  end.

Definition extractPathsFromConfig `{MapRange unit} (v : json) : list string :=
  map fst (map_range (gset_to_gmap tt (collectExpressions v))).

(** ** Schemas *)

Definition obj_of (v : option json) : obj := default [] (v ≫= as_obj).
Definition str_field (m : obj) (k : string) : string := default "" (obj_get k m ≫= as_str).
Definition bool_of (m : obj) (k : string) : bool := default false (obj_get k m ≫= as_bool).
Definition present (m : obj) (k : string) : bool := negb (is_nil (fld m k)).

Record PortDetail := mkPortDetail {
  pd_Name : string;
  pd_Description : string;
  pd_Schema : string;
  pd_Example : string;
}.
Record ComponentInfo := mkComponentInfo {
  ci_Name : string;
  ci_Description : string;
  ci_Info : string;
  ci_InputPorts : list string;
  ci_OutputPorts : list string;
  ci_Tags : list string;
  ci_InputPortDetails : list PortDetail;
  ci_OutputPortDetails : list PortDetail;
  ci_SettingsSchema : string;
}.

(** No bytes where the component or the port is not known. *)
Definition portSchemaBytes (comp : option ComponentInfo) (portName : string) (isInput : bool) : string :=
  match comp with
  | None => ""
  | Some c =>
      let ports := if isInput then ci_InputPortDetails c else ci_OutputPortDetails c in
      match List.find (fun p => pd_Name p =? portName) ports with Some p => pd_Schema p | None => "" end
  end.

Definition defs_prefix : string := "#/$defs/".

(** One [$ref] into the definitions; the node itself where it leads nowhere. *)
Definition resolveSchemaNode (root : obj) (node : option obj) : option obj :=
  match node with
  | None => None
  | Some n =>
      let ref := str_field n "$ref" in
      if negb (go_has_prefix ref defs_prefix) then Some n
      else match obj_get "$defs" root ≫= as_obj with
           | None => Some n
           | Some defs => match obj_get (go_trim_prefix ref defs_prefix) defs ≫= as_obj with
                          | None => Some n
                          | Some target => Some target
                          end
           end
  end.

(** The same, nothing where it leads nowhere. *)
Definition deref (node : obj) (defs : obj) : option obj :=
  let ref := str_field node "$ref" in
  if ref =? "" then Some node
  else if negb (go_has_prefix ref defs_prefix) then None
  else obj_get (go_trim_prefix ref defs_prefix) defs ≫= as_obj.

Section schemas.
  Variable unmarshal : string -> option json.

(** [json.Unmarshal] into a map: null is a nil map. *)
Definition read_object (bytes : string) : option obj :=
  match unmarshal bytes with Some (JObj m) => Some m | Some JNull => Some [] | _ => None end.

(** The settings a closed schema names; none for an open one. *)
Definition settingsProps (schemaBytes : string) : obj :=
  match read_object schemaBytes with
  | None => []
  | Some root =>
      let node :=
        match obj_get "$ref" root ≫= as_str with
        | Some ref => match obj_get "$defs" root ≫= as_obj with
                      | Some defs => default root (obj_get (go_trim_prefix ref defs_prefix) defs ≫= as_obj)
                      | None => root
                      end
        | None => root
        end in
      let open := match obj_get "additionalProperties" node with
                  | Some (JBool false) | None => false
                  | Some _ => true
                  end in
      if open then [] else obj_of (obj_get "properties" node)
  end.

Definition show_names (l : list string) : string := "[" +:+ go_join " " l +:+ "]".

Definition unknownSettings (alias : string) (settings : obj) (schemaBytes : string) : string :=
  if (length settings =? 0)%nat || (schemaBytes =? "") then ""
  else
    let props := settingsProps schemaBytes in
    if (length props =? 0)%nat then ""
    else match List.filter (fun k => negb (existsb (String.eqb k) (obj_keys props))) (obj_keys settings) with
         | [] => ""
         | unknown =>
             "node '" +:+ alias +:+ "' sets unknown setting(s) " +:+ show_names (go_sort_strings unknown) +:+
             " — the component ignores settings it doesn't declare, so those fields silently do nothing. Valid settings: " +:+
             show_names (go_sort_strings (obj_keys props)) +:+
             ". Use these exact names (get_component_info reports the `settings` schema)."
         end.

Definition lowerFirstByte (s : string) : string :=
  match s with String c s' => String (lower_ascii c) s' | EmptyString => "" end.

(** The fields declared configurable, sorted. *)
Definition configurableFieldsIn (schemaBytes : string) : list string :=
  if schemaBytes =? "" then []
  else match read_object schemaBytes with
       | None => []
       | Some root =>
           match obj_get "$defs" root ≫= as_obj with
           | None => []
           | Some defs =>
               go_sort_strings (elements (list_to_set (flat_map (fun kv =>
                 match as_obj kv.2 with
                 | Some def => if bool_of def "configurable" && negb (kv.1 =? "") then [lowerFirstByte kv.1] else []
                 | None => []
                 end) defs) : gset string))
           end
       end.

Definition has_shape (m : obj) : bool := present m "properties" || present m "items" || present m "additionalProperties".
Definition scalar_type (m : obj) : bool := negb (str_field m "type" =? "") && negb (str_field m "type" =? "object").

(** A definition's own top-level field, if nothing says what it holds. *)
Definition shapeless_def (v : json) : list string :=
  match as_obj v with
  | None => []
  | Some def =>
      let path := str_field def "path" in
      if negb (go_has_prefix path "$.") then []
      else
        let field := go_trim_prefix path "$." in
        if str_has "." field || str_has "[" field then []
        else if bool_of def "configurable" then [field]
        else if has_shape def || scalar_type def then [] else [field]
  end.

(** The properties of the root that nothing says anything about. *)
Definition shapeless_inline (v : json) : list string :=
  match as_obj v with
  | None => []
  | Some def =>
      if negb (str_field def "path" =? "$") then []
      else flat_map (fun kv => match as_obj kv.2 with
             | None => []
             | Some prop => if present prop "$ref" || has_shape prop || present prop "enum" || scalar_type prop
                            then [] else [kv.1]
             end) (obj_of (obj_get "properties" def))
  end.

(** As a set: a name that both passes find is listed once in the code. *)
Definition shapelessFieldsIn (schemaBytes : string) : list string :=
  if schemaBytes =? "" then []
  else match read_object schemaBytes ≫= fun root => obj_get "$defs" root ≫= as_obj with
       | None => []
       | Some defs =>
           let out := flat_map (fun kv => shapeless_def kv.2) defs in
           fold_left (fun out f => if existsb (String.eqb f) out then out else out ++ [f])
             (flat_map (fun kv => shapeless_inline kv.2) defs) out
       end.

(** ** Placeholders *)

Definition leaf_name (path : string) : string :=
  let leaf := default "" (last (go_split "." path)) in
  match segment leaf with Some (key, _) => key | None => leaf end.
Definition placeholderFor (path : string) : string := "<" +:+ leaf_name path +:+ ">".

Definition sample_of_type (t marker : string) : json :=
  if t =? "string" then JStr marker
  else if (t =? "integer") || (t =? "number") then JNum "0"
  else if t =? "boolean" then JBool false
  else if t =? "array" then JArr []
  else if t =? "object" then JObj []
  else JStr marker.

(** One step along a path: the property, its reference, and its items where
    the segment has an index. *)
Definition schema_step (defs : obj) (seg : string * bool) (cur : obj) : option obj :=
  match obj_get seg.1 (obj_of (obj_get "properties" cur)) ≫= as_obj with
  | None => None
  | Some next =>
      match deref next defs with
      | None => None
      | Some next => if seg.2 then match obj_get "items" next ≫= as_obj with
                                   | None => None
                                   | Some items => deref items defs
                                   end
                     else Some next
      end
  end.

Fixpoint schema_at (defs : obj) (segs : list (option (string * bool))) (cur : obj) : option (obj * string) :=
  match segs with
  | [] => None
  | None :: _ => None
  | Some seg :: segs' =>
      match schema_step defs seg cur with
      | None => None
      | Some next => match segs' with [] => Some (next, seg.1) | _ => schema_at defs segs' next end
      end
  end.

(** The root of the document: the definition at "$", or where it refers to. *)
Definition schema_root (root : obj) : option obj :=
  let defs := obj_of (obj_get "$defs" root) in
  match List.find (fun kv => match as_obj kv.2 with Some def => str_field def "path" =? "$" | None => false end) defs with
  | Some (_, def) => as_obj def
  | None => deref root defs
  end.

Definition typedPlaceholder (schemaBytes path : string) : option json :=
  if schemaBytes =? "" then None
  else match read_object schemaBytes with
       | None => None
       | Some root =>
           match schema_root root with
           | None => None
           | Some cur =>
               match schema_at (obj_of (obj_get "$defs" root)) (segments path) cur with
               | None => None
               | Some (next, leaf) => Some (sample_of_type (str_field next "type") ("<" +:+ leaf +:+ ">"))
               end
           end
       end.

Definition shapelessPlaceholder (path : string) (targetExample : json) : json :=
  match targetExample with
  | JArr _ => JArr []
  | JObj _ => JObj []
  | JNum _ => JNum "0"
  | JBool _ => JBool false
  | _ => JStr (placeholderFor path)
  end.
(** A sample of a node's declared type, six levels deep at most; none where the
    node declares no type. *)
Fixpoint placeholderForSchema (fuel : nat) (root : obj) (node : option obj) (marker : string) : option json :=
  match fuel with
  | O => None
  | S f =>
      match resolveSchemaNode root node with
      | None => None
      | Some node =>
          match obj_get "enum" node ≫= as_arr with
          | Some (x :: _) => Some x
          | _ =>
              if present node "const" then Some (fld node "const")
              else
                let t := str_field node "type" in
                let t := if t =? "" then if present node "items" then "array"
                                         else if present node "properties" then "object" else "" else t in
                if t =? "string" then Some (JStr marker)
                else if (t =? "integer") || (t =? "number") then Some (JNum "0")
                else if t =? "boolean" then Some (JBool false)
                else if t =? "array" then
                  Some (JArr [default (JObj []) (placeholderForSchema f root (obj_get "items" node ≫= as_obj) marker)])
                else if t =? "object" then
                  Some (JObj (omap (fun kv =>
                    match resolveSchemaNode root (as_obj kv.2) with
                    | None => None
                    | Some child =>
                        let t := str_field child "type" in
                        if match obj_get "enum" child ≫= as_arr with Some (_ :: _) => true | _ => false end ||
                           present child "const" ||
                           existsb (String.eqb t) ["string"; "integer"; "number"; "boolean"]
                        then (fun v => (kv.1, v)) <$> placeholderForSchema f root (Some child) ("<" +:+ kv.1 +:+ ">")
                        else None
                    end) (obj_of (obj_get "properties" node))))
                else None
          end
      end
  end.

(** The paths of a string that is one whole expression. *)
Definition whole_paths (c : string) : list string :=
  match whole_expression c with Some inner => json_paths 0 inner | None => [] end.

(** The leaves of a configuration with the node of the target's schema at their
    position. *)
Fixpoint with_schema (root : obj) (cfg : json) (schema : option obj) : list (string * option obj) :=
  let schema := resolveSchemaNode root schema in
  match cfg with
  | JObj m =>
      let props := obj_of (schema ≫= obj_get "properties") in
      flat_map (fun kv => with_schema root kv.2 (obj_get kv.1 props ≫= as_obj)) m
  | JArr l => let items := (schema ≫= obj_get "items") ≫= as_obj in flat_map (fun v => with_schema root v items) l
  | JStr c => [(c, schema)]
  | _ => []
  end.

Definition put_paths (value : string -> option json) (out : obj) (paths : list string) : obj :=
  fold_left (fun out p => match value p with Some v => obj_set p v out | None => out end) paths out.

Definition targetSchemaPlaceholders (config : obj) (targetSchema : string) : obj :=
  if targetSchema =? "" then []
  else match read_object targetSchema with
       | None => []
       | Some root =>
           fold_left (fun out leaf =>
             match leaf with
             | (_, None) => out
             | (c, Some schema) =>
                 put_paths (fun p => placeholderForSchema 6 root (Some schema) (placeholderFor p)) out (whole_paths c)
             end) (with_schema root (JObj config) (Some root)) []
       end.

(** The value a constrained node accepts: of its enumeration, its constant, or
    of a scalar type other than text. *)
Definition constrained_value (schema : obj) : option json :=
  match obj_get "enum" schema ≫= as_arr with
  | Some (x :: _) => Some x
  | _ =>
      if present schema "const" then Some (fld schema "const")
      else let t := str_field schema "type" in
           if (t =? "integer") || (t =? "number") then Some (JNum "0")
           else if t =? "boolean" then Some (JBool false) else None
  end.

Definition targetConstrainedValues (config : obj) (targetSchema : string) : obj :=
  if targetSchema =? "" then []
  else match read_object targetSchema with
       | None => []
       | Some root =>
           fold_left (fun out leaf =>
             match leaf with
             | (_, None) => out
             | (c, Some schema) => put_paths (fun _ => constrained_value schema) out (whole_paths c)
             end) (with_schema root (JObj config) (Some root)) []
       end.
End schemas.

(** The leaves of a configuration with the example at their position; nil where
    there is none. *)
Fixpoint with_example (cfg example : json) : list (string * json) :=
  match cfg with
  | JObj m =>
      let ex := as_obj example in
      flat_map (fun kv => with_example kv.2 (match ex with Some ex => fld ex kv.1 | None => JNull end)) m
  | JArr l =>
      let x := match example with JArr (x :: _) => x | _ => JNull end in
      flat_map (fun v => with_example v x) l
  | JStr c => if is_nil example then [] else [(c, example)]
  | _ => []
  end.

Definition targetExampleTypes (config toSettings : obj) : obj :=
  fold_left (fun out leaf => put_paths (fun _ => Some leaf.2) out (whole_paths leaf.1))
    (with_example (JObj config) (JObj toSettings)) [].

(** ** Writing along a path *)

(** The first writer of a leaf wins; what is in the way of a path is replaced. *)
Fixpoint set_path (dst : obj) (segs : list (option (string * bool))) (value : json) : obj :=
  match segs with
  | Some (key, isArray) :: rest =>
      if negb isArray then
        match rest with
        | [] => if present dst key then dst else obj_set key value dst
        | _ => obj_set key (JObj (set_path (obj_of (obj_get key dst)) rest value)) dst
        end
      else
        let '(first, tail) := match obj_get key dst with Some (JArr (x :: l)) => (x, l) | _ => (JObj [], []) end in
        match rest with
        | [] => obj_set key (JArr (first :: tail)) dst
        | _ => obj_set key (JArr (JObj (set_path (default [] (as_obj first)) rest value) :: tail)) dst
        end
  | _ => dst
  end.

Definition setPath (dst : obj) (path : string) (value : json) : obj := set_path dst (segments path) value.

Definition pathsUnderFields (paths fields : list string) : list string :=
  List.filter (fun p =>
    let first := default "" (head (go_split "." p)) in
    let first := match segment first with Some (key, _) => key | None => first end in
    existsb (String.eqb first) fields) paths.

(** ** Schemas of data *)

Fixpoint typeSchemaOf (v : json) : json :=
  match v with
  | JStr _ => JObj [("type", JStr "string")]
  | JBool _ => JObj [("type", JStr "boolean")]
  | JNum _ => JObj [("type", JStr "number")]
  | JArr l => JObj (("type", JStr "array") :: match l with x :: _ => [("items", typeSchemaOf x)] | [] => [] end)
  | JObj m => JObj [("type", JStr "object"); ("properties", JObj (map (fun kv => (kv.1, typeSchemaOf kv.2)) m))]
  | JNull => JObj []
  end.

(** What an expression resolves to, nil where nothing is known. *)
Abbreviation Resolver := (option (string -> json)).

Definition resolved_schema (resolve : Resolver) (paths : list string) : json :=
  match resolve with
  | None => JObj []
  | Some f => match List.find (fun p => negb (is_nil (f p))) paths with
              | Some p => typeSchemaOf (f p)
              | None => JObj []
              end
  end.

Fixpoint deriveValueSchema (resolve : Resolver) (v : json) : json :=
  match v with
  | JObj m => JObj [("type", JStr "object"); ("properties", JObj (map (fun kv => (kv.1, deriveValueSchema resolve kv.2)) m))]
  | JArr l => JObj (("type", JStr "array") :: match l with x :: _ => [("items", deriveValueSchema resolve x)] | [] => [] end)
  | JStr x => match whole_expression x with
              | None => JObj [("type", JStr "string")]
              | Some inner => resolved_schema resolve (json_paths 0 inner)
              end
  | JBool _ => JObj [("type", JStr "boolean")]
  | JNum _ => JObj [("type", JStr "number")]
  | JNull => JObj []
  end.

Definition fillMissingSchemas (data userSchema : obj) (configurable : list string) (resolve : Resolver) : obj :=
  fold_left (fun out field =>
    match obj_get field data with
    | None => out
    | Some val =>
        match obj_get field out with
        | Some _ => out
        | None => if match val with JStr _ => field =? "context" | _ => false end then out
                  else obj_set field (deriveValueSchema resolve val) out
        end
    end) configurable userSchema.

Definition requireSchemaForData (data userSchema : obj) (configurable : list string) : list string :=
  List.filter (fun field =>
    match obj_get field data with
    | None => false
    | Some val => match obj_get field userSchema with
                  | Some _ => false
                  | None => negb ((field =? "context") && match val with JStr _ => true | _ => false end)
                  end
    end) configurable.

Definition schemaRequiredError (kind owner : string) (fields : list string) : error :=
  match fields with
  | [] => None
  | _ => Some (ErrorString (kind +:+ " '" +:+ owner +:+ "' fills configurable field(s) " +:+ show_names fields +:+
           " without a schema. Declare each field's shape in the schema parameter — the platform no longer infers schemas from value shape."))
  end.

(** Nil where the example does not have the path. *)
Fixpoint walk_example (cur : json) (segs : list (option (string * bool))) : json :=
  match segs with
  | [] => cur
  | None :: _ => JNull
  | Some (key, isArray) :: rest =>
      match as_obj cur ≫= obj_get key with
      | None => JNull
      | Some next =>
          if isArray then match next with JArr (x :: _) => walk_example x rest | _ => JNull end
          else walk_example next rest
      end
  end.

Definition walkExample (example : option obj) (path : string) : json :=
  match example with None => JNull | Some ex => walk_example (JObj ex) (segments path) end.

Definition exampleResolver (unmarshal : string -> option json) (sourcePortSchema : string) (sourceSettings : option obj)
    (path : string) : json :=
  match typedPlaceholder unmarshal sourcePortSchema path with
  | Some v => v
  | None => walkExample sourceSettings path
  end.

(** ** Samples of a flow *)

Record scaffoldEdge := mkScaffoldEdge {
  se_FromAlias : string;
  se_FromPort : string;
  se_Configuration : obj;
  se_ToSettings : obj;
  se_ToSchema : string;
}.

Section scaffold.
  Context `{MapRange unit}.
  Variable unmarshal : string -> option json.

(** One path of an edge. [constrained] outranks what the target's schema
    declares, and that what its example shows; a path of a field with a type
    gets a sample of that type, or none. *)
Definition scaffold_path (schemaBytes : string) (shapeless : list string) (constrained declared targetTypes : obj)
    (mock : obj) (p : string) : obj :=
  match obj_get p constrained with
  | Some v => setPath mock p v
  | None =>
      if match pathsUnderFields [p] shapeless with [] => false | _ => true end then
        match obj_get p declared with
        | Some v => setPath mock p v
        | None => setPath mock p (shapelessPlaceholder p (fld targetTypes p))
        end
      else match typedPlaceholder unmarshal schemaBytes p with
           | Some v => setPath mock p v
           | None => mock
           end
  end.

Definition scaffold_edge (componentByAlias : gmap string ComponentInfo) (createdNodes : gmap string string)
    (portData : gmap string obj) (e : scaffoldEdge) : gmap string obj :=
  let schemaBytes := portSchemaBytes (componentByAlias !! se_FromAlias e) (se_FromPort e) false in
  let shapeless := shapelessFieldsIn unmarshal schemaBytes in
  let paths := extractPathsFromConfig (JObj (se_Configuration e)) in
  match shapeless, pathsUnderFields paths shapeless, createdNodes !! se_FromAlias e with
  | [], _, _ | _, [], _ | _, _, None => portData
  | _, _, Some nodeID =>
      if nodeID =? "" then portData
      else
        let port := nodeID +:+ ":" +:+ se_FromPort e in
        let mock := fold_left
          (scaffold_path schemaBytes shapeless [] (targetSchemaPlaceholders unmarshal (se_Configuration e) (se_ToSchema e))
             (targetExampleTypes (se_Configuration e) (se_ToSettings e)))
          paths (default [] (portData !! port)) in
        <[port := mock]> portData
  end.

Definition scaffold_samples (componentByAlias : gmap string ComponentInfo) (createdNodes : gmap string string)
    (edges : list scaffoldEdge) : gmap string obj :=
  fold_left (scaffold_edge componentByAlias createdNodes) edges ∅.
End scaffold.
