(* ===== verification/AuthoringSpec.v ===== *)
(** * Derived schemas and samples: what they promise

    Theorems about [Authoring]: a scaffolded sample answers every expression of
    the edges it was made for, a placeholder has the type its schema declares,
    and a derived schema describes the data it was derived from. *)
From S2P Require Import Prelude GoErrors Names Graph Json Authoring.

Open Scope string_scope.
Open Scope list_scope.

(** ** Paths found in text are well formed *)

(** A path as a list of keys, each with whether it is indexed. *)
Abbreviation segs := (list (option (string * bool))).
Definition well_formed (l : segs) : Prop := l <> [] /\ Forall is_Some l.

Lemma take_while_app (p : ascii -> bool) (s : string) :
  s = take_while p s +:+ string_drop (String.length (take_while p s)) s.
Proof.
  induction s as [|c s IH]; [done|]. cbn [take_while]. destruct (p c); [|done].
  cbn [String.length string_drop]. rewrite str_app_cons. by rewrite <- IH.
Qed.

Lemma take_while_idem (p : ascii -> bool) (a b : string) :
  take_while p a = a -> match b with String c _ => p c = false | EmptyString => True end ->
  take_while p (a +:+ b) = a.
Proof.
  induction a as [|c a IH]; intros Ha Hb; cbn [take_while] in Ha.
  - rewrite str_app_nil_l. destruct b as [|c b]; [done|]. cbn [take_while]. by rewrite Hb.
  - rewrite str_app_cons. cbn [take_while]. destruct (p c); [|done]. injection Ha as Ha. by rewrite IH.
Qed.

Lemma take_while_twice (p : ascii -> bool) (s : string) : take_while p (take_while p s) = take_while p s.
Proof. induction s as [|c s IH]; [done|]. cbn [take_while]. destruct (p c) eqn:E; [|done]. cbn [take_while]. by rewrite E, IH. Qed.

Lemma take_while_none (p : ascii -> bool) (c : ascii) (s : string) :
  (forall x, p x = true -> x <> c) -> str_has c (take_while p s) = false.
Proof.
  intros Hp. induction s as [|x s IH]; [done|]. cbn [take_while]. destruct (p x) eqn:E; [|done].
  cbn [str_has]. rewrite IH. destruct (Ascii.eqb_spec x c) as [->|]; [|done]. by destruct (Hp _ E).
Qed.

Lemma digit_not (x c : ascii) : is_digit x = true -> is_digit c = false -> x <> c.
Proof. intros Hx Hc ->. congruence. Qed.

(** An index at the start of a string is an index of its own. *)
Lemma index_split (s : string) :
  index_length s <> 0 ->
  exists idx rest, s = idx +:+ rest /\ index_length s = String.length idx /\ index_length idx = String.length idx /\
    str_has "." idx = false /\ go_has_prefix idx "[" = true.
Proof.
  destruct s as [|c s]; [done|]. unfold index_length. cbn beta.
  destruct (Ascii.eqb_spec c "[") as [->|Hne].
  2:{ intros H. exfalso. apply H. by repeat (destruct c as [[] [] [] [] [] [] [] []]; try done). }
  set (ds := take_while is_digit s).
  destruct ((0 <? String.length ds)%nat && go_has_prefix (string_drop (String.length ds) s) "]") eqn:E.
  - intros _. apply andb_true_iff in E as [Hpos Hend]. apply has_prefix_iff in Hend as [rest Hrest].
    exists (String "[" (ds +:+ "]")), rest.
    assert (Hs : s = (ds +:+ "]") +:+ rest).
    { rewrite str_app_assoc, <- Hrest. apply take_while_app. }
    assert (Hds : take_while is_digit (ds +:+ "]") = ds).
    { apply take_while_idem; [apply take_while_twice|done]. }
    rewrite str_app_cons. split; [by f_equal|]. split; [|split; [|split; [|apply has_prefix_iff; by eexists]]].
    + cbn [String.length]. rewrite str_length_app. cbn [String.length]. lia.
    + rewrite Hds, Hpos, string_drop_app. cbn [andb]. change (go_has_prefix "]" "]") with true. cbn iota.
      cbn [String.length]. rewrite str_length_app. cbn [String.length]. lia.
    + cbn [str_has]. change (Ascii.eqb "[" ".") with false. rewrite str_has_app. unfold ds.
      by rewrite take_while_none by (intros x Hx; by apply (digit_not x)).
  - destruct (go_has_prefix s "*]") eqn:E2; [|done]. intros _. apply has_prefix_iff in E2 as [rest ->].
    by exists "[*]", rest.
Qed.

(** A segment at the start of a string is a key and an index of its own. *)
Lemma segment_split (s : string) :
  segment_length s <> 0 ->
  exists w rest, s = String "." (w +:+ rest) /\ segment_length s = S (String.length w) /\
    str_has "." w = false /\ is_Some (segment w).
Proof.
  destruct s as [|d [|c s]]; [done|by destruct d as [[] [] [] [] [] [] [] []]|].
  unfold segment_length. cbn beta. destruct (Ascii.eqb_spec d ".") as [->|Hne].
  2:{ intros H. exfalso. apply H. by repeat (destruct d as [[] [] [] [] [] [] [] []]; try done). }
  destruct (name_start c) eqn:Hc; [intros _|done].
  set (name := take_while name_char s). set (rest := string_drop (String.length name) s).
  assert (Hs : s = name +:+ rest) by apply take_while_app.
  assert (Hdot : str_has "." (String c name) = false).
  { cbn [str_has]. unfold name. rewrite take_while_none by (intros x Hx ->; done).
    destruct (Ascii.eqb_spec c ".") as [->|]; [|done]. done. }
  destruct (decide (index_length rest = 0)) as [Hi|Hi].
  - exists (String c name), rest. rewrite Hi. split; [by rewrite str_app_cons, <- Hs|].
    split; [cbn [String.length]; lia|]. split; [done|]. unfold segment. rewrite Hc.
    replace (take_while name_char name) with name by (symmetry; apply take_while_twice).
    rewrite <- (str_app_nil_r name) at 2. rewrite string_drop_app. by eexists.
  - destruct (index_split _ Hi) as (idx & rest' & Hrest & Hlen & Hidx & Hnd & Hpre).
    exists (String c (name +:+ idx)), rest'. split.
    { rewrite str_app_cons, str_app_assoc, <- Hrest. by rewrite <- Hs. }
    split; [rewrite Hlen; cbn [String.length]; rewrite str_length_app; lia|].
    split.
    { change (String c (name +:+ idx)) with (String c name +:+ idx). by rewrite str_has_app, Hdot, Hnd. }
    unfold segment. rewrite Hc.
    rewrite take_while_idem; [|apply take_while_twice|apply has_prefix_iff in Hpre as [r ->]; done].
    rewrite string_drop_app, Hidx, Nat.eqb_refl. destruct (idx =? ""); by eexists.
Qed.

(** Segments put back together. *)
Definition dotted (ws : list string) : string := foldr (fun w acc => String "." (w +:+ acc)) "" ws.

Lemma segments_length_split (fuel : nat) (s : string) :
  exists ws, string_take (segments_length fuel s) s = dotted ws /\
    Forall (fun w => str_has "." w = false /\ is_Some (segment w)) ws /\
    (segments_length fuel s <> 0 -> ws <> []).
Proof.
  revert s. induction fuel as [|fuel IH]; intros s; [by exists []|]. cbn [segments_length].
  destruct (segment_length s) as [|n] eqn:E; [by exists []; destruct s|].
  destruct (segment_split s) as (w & rest & -> & Hlen & Hw); [by rewrite E|].
  rewrite E in Hlen. injection Hlen as ->.
  destruct (IH (string_drop (S (String.length w)) (String "." (w +:+ rest)))) as (ws & Hws & Hall & _).
  cbn [string_drop] in Hws. rewrite string_drop_app in Hws. cbn [string_drop]. rewrite string_drop_app.
  exists (w :: ws). split; [|by split; [constructor|]]. cbn [dotted foldr Nat.add string_take]. f_equal.
  change (foldr _ "" ws) with (dotted ws). rewrite <- Hws. clear. induction w as [|c w IH]; [done|].
  rewrite !str_app_cons. cbn [String.length Nat.add string_take]. by rewrite IH.
Qed.

Lemma dotted_pieces (ws : list string) :
  ws <> [] -> Forall (fun w => str_has "." w = false) ws -> go_split "." (string_drop 1 (dotted ws)) = ws.
Proof.
  induction ws as [|w ws IH]; intros Hne Hall; [done|]. apply Forall_cons in Hall as [Hw Hall].
  cbn [dotted foldr string_drop]. change (foldr _ "" ws) with (dotted ws).
  replace (string_drop 0 (w +:+ dotted ws)) with (w +:+ dotted ws) by (by destruct (w +:+ dotted ws)).
  destruct ws as [|w2 ws].
  - change (dotted []) with "". rewrite str_app_nil_r. by apply go_split_nosep.
  - change (dotted (w2 :: ws)) with (String "." (w2 +:+ dotted ws)). rewrite go_split_app by done. f_equal.
    rewrite <- IH by done. cbn [dotted foldr string_drop]. by destruct (w2 +:+ _).
Qed.

Lemma json_paths_well_formed (s : string) (n : nat) (p : string) :
  p ∈ json_paths n s -> well_formed (segments p).
Proof.
  revert n. induction s as [|c s IH]; intros n; cbn [json_paths]; [by intros ?%not_elem_of_nil|].
  destruct n as [|n]; [|apply IH]. destruct (Ascii.eqb c "$"); [|apply IH].
  destruct (segments_length (String.length s) s) as [|n] eqn:E; [apply IH|].
  intros [->|Hin]%elem_of_cons; [|by apply IH in Hin].
  destruct (segments_length_split (String.length s) s) as (ws & Hws & Hall & Hne). rewrite E in Hws, Hne.
  rewrite Hws. unfold segments. specialize (Hne ltac:(done)).
  rewrite dotted_pieces; [|done|by eapply Forall_impl; [exact Hall|intros ? []]].
  split; [by destruct ws|]. apply Forall_fmap. by eapply Forall_impl; [exact Hall|intros ? []].
Qed.

(** Every path the tools collect from a configuration is one. *)
Lemma extracted_well_formed `{MapRange unit} (v : json) (p : string) :
  p ∈ extractPathsFromConfig v -> well_formed (segments p).
Proof.
  unfold extractPathsFromConfig. rewrite list_elem_of_fmap. intros ([q []] & -> & Hin).
  rewrite map_range_perm, elem_of_map_to_list, lookup_gset_to_gmap_Some in Hin. destruct Hin as [Hin _]. cbn [fst].
  revert q Hin. induction v as [| | |s|l IH|m IH] using json_nested_ind; intros p; cbn [collectExpressions];
    try by intros ?%not_elem_of_empty.
  - rewrite elem_of_list_to_set, list_elem_of_bind. intros (x & Hin & _). by eapply json_paths_well_formed.
  - rewrite elem_of_union_list. intros (X & HX & Hp). apply list_elem_of_fmap in HX as (x & -> & Hx).
    rewrite Forall_forall in IH. by eapply IH.
  - rewrite elem_of_union_list. intros (X & HX & Hp). apply list_elem_of_fmap in HX as (x & -> & Hx).
    rewrite Forall_forall in IH. by eapply IH.
Qed.

(** ** Writing along a path *)

(** No null anywhere: what a reader takes for absent. *)
Fixpoint null_free (v : json) : bool :=
  match v with
  | JNull => false
  | JArr l => forallb null_free l
  | JObj m => forallb (fun kv => null_free kv.2) m
  | _ => true
  end.

Lemma null_free_get (m : obj) (k : string) (v : json) :
  null_free (JObj m) = true -> obj_get k m = Some v -> null_free v = true.
Proof. intros Hm Hg%obj_get_in. cbn in Hm. rewrite forallb_forall in Hm. by apply (Hm (k, v)), list_elem_of_In. Qed.

Lemma null_free_set (m : obj) (k : string) (v : json) :
  null_free (JObj m) = true -> null_free v = true -> null_free (JObj (obj_set k v m)) = true.
Proof.
  cbn. induction m as [|[k' x] m IH]; cbn; [by intros _ ->|]. intros [Hx Hm]%andb_true_iff Hv.
  destruct (k' =? k); cbn; [by rewrite Hv|by rewrite Hx, IH].
Qed.

Lemma null_free_obj_of (m : obj) (k : string) :
  null_free (JObj m) = true -> null_free (JObj (obj_of (obj_get k m))) = true.
Proof.
  intros Hm. unfold obj_of. destruct (obj_get k m) as [v|] eqn:E; [|done].
  pose proof (null_free_get _ _ _ Hm E). by destruct v.
Qed.

(** What an array on the way is, or is made. *)
Definition first_element (dst : obj) (key : string) : json * list json :=
  match obj_get key dst with Some (JArr (x :: l)) => (x, l) | _ => (JObj [], []) end.

Lemma null_free_first (dst : obj) (key : string) :
  null_free (JObj dst) = true ->
  null_free (first_element dst key).1 = true /\ forallb null_free (first_element dst key).2 = true.
Proof.
  intros Hd. unfold first_element. destruct (obj_get key dst) as [v|] eqn:E; [|done].
  pose proof (null_free_get _ _ _ Hd E) as Hv. destruct v as [| | | |[|x l]|]; try done. by apply andb_true_iff in Hv.
Qed.

Lemma set_path_indexed (dst : obj) (key : string) (rest : segs) (value : json) :
  set_path dst (Some (key, true) :: rest) value =
    obj_set key (JArr ((match rest with
                        | [] => (first_element dst key).1
                        | _ => JObj (set_path (default [] (as_obj (first_element dst key).1)) rest value)
                        end) :: (first_element dst key).2)) dst.
Proof.
  cbn [set_path]. fold (first_element dst key). unfold first_element.
  destruct (obj_get key dst) as [[| | | |[|x l]|]|]; by destruct rest.
Qed.

Lemma set_path_null_free (dst : obj) (l : segs) (value : json) :
  null_free (JObj dst) = true -> null_free value = true -> null_free (JObj (set_path dst l value)) = true.
Proof.
  revert dst. induction l as [|[[key []]|] rest IH]; intros dst Hd Hv; [done| | |done].
  - rewrite set_path_indexed. destruct (null_free_first dst key Hd) as [Hx Hl]. apply null_free_set; [done|].
    apply andb_true_iff. split; [|done]. destruct rest; [done|]. apply IH; [|done].
    by destruct (first_element dst key).1.
  - cbn [set_path negb]. destruct rest as [|s rest]; [destruct (present dst key); [done|by apply null_free_set]|].
    apply null_free_set; [done|]. apply IH; [by apply null_free_obj_of|done].
Qed.

(** A sample answers a path: its reader finds something. *)
Definition answers (v : json) (l : segs) : bool := negb (is_nil (walk_example v l)).

Lemma answers_step (dst : obj) (key : string) (indexed : bool) (rest : segs) :
  answers (JObj dst) (Some (key, indexed) :: rest) =
    match obj_get key dst with
    | None => false
    | Some next => if indexed then match next with JArr (x :: _) => answers x rest | _ => false end else answers next rest
    end.
Proof.
  unfold answers. cbn [walk_example as_obj mbind option_bind]. destruct (obj_get key dst) as [next|]; [|done].
  destruct indexed; [|done]. by destruct next as [| | | |[|x l]|].
Qed.

Lemma answers_end (v : json) : null_free v = true -> answers v [] = true.
Proof. by destruct v. Qed.

Lemma null_free_present (dst : obj) (key : string) :
  null_free (JObj dst) = true -> present dst key = match obj_get key dst with Some _ => true | None => false end.
Proof.
  intros Hd. unfold present, fld. destruct (obj_get key dst) as [v|] eqn:E; [|done].
  pose proof (null_free_get _ _ _ Hd E). by destruct v.
Qed.

(** What is written along a path is found along it. *)
Lemma set_path_answers (dst : obj) (l : segs) (value : json) :
  well_formed l -> null_free (JObj dst) = true -> null_free value = true -> answers (JObj (set_path dst l value)) l = true.
Proof.
  intros [Hne Hl]. revert dst. induction l as [|s rest IH]; [done|]. intros dst Hd Hv.
  apply Forall_cons in Hl as [[[key []] ->] Hl].
  - rewrite set_path_indexed, answers_step, obj_get_set, String.eqb_refl.
    destruct rest as [|s rest]; [by apply answers_end, null_free_first|].
    apply IH; [done|done| |done]. destruct (null_free_first dst key Hd) as [Hx _]. by destruct (first_element dst key).1.
  - cbn [set_path negb]. rewrite answers_step. destruct rest as [|s rest].
    + rewrite null_free_present by done. destruct (obj_get key dst) as [v|] eqn:E.
      * rewrite E. by eapply answers_end, null_free_get.
      * rewrite obj_get_set, String.eqb_refl. by apply answers_end.
    + rewrite obj_get_set, String.eqb_refl. apply IH; [done|done|by apply null_free_obj_of|done].
Qed.

(** Writing along [q] destroys what is read along [p]: they take one key for a
    list and for an object. *)
Fixpoint clash (p q : segs) : bool :=
  match p, q with
  | Some (k, i) :: p', Some (k', i') :: q' =>
      if k =? k' then
        match i, i' with
        | false, true => match p' with [] => false | _ => true end
        | true, false => match q' with [] => false | _ => true end
        | _, _ => clash p' q'
        end
      else false
  | _, _ => false
  end.

Lemma answers_object (v : json) (s : option (string * bool)) (l : segs) :
  answers v (s :: l) = true -> exists m, v = JObj m.
Proof. destruct v, s as [[]|]; try done. intros _. by eexists. Qed.

Lemma set_path_keeps (p q : segs) (dst : obj) (value : json) :
  clash p q = false -> null_free (JObj dst) = true -> null_free value = true ->
  answers (JObj dst) p = true -> answers (JObj (set_path dst q value)) p = true.
Proof.
  revert q dst. induction p as [|[[k i]|] p IH]; intros q dst Hc Hd Hv Ha; [done| |done].
  destruct q as [|[[k' i']|] q]; [done| |done]. cbn [clash] in Hc. rewrite answers_step in Ha.
  destruct (obj_get k dst) as [next|] eqn:E; [|done].
  destruct i'.
  - rewrite set_path_indexed, answers_step, obj_get_set.
    destruct (String.eqb_spec k k') as [<-|Hne].
    2:{ destruct (String.eqb_spec k' k) as [->|]; [done|]. by rewrite E. }
    rewrite String.eqb_refl. destruct i.
    + destruct next as [| | | |[|x l]|]; try done. unfold first_element. rewrite E. cbn [fst snd].
      destruct q as [|s q]; [done|]. destruct p as [|s' p]; [done|].
      destruct (answers_object _ _ _ Ha) as [m ->]. cbn [as_obj default id].
      apply IH; [done| |done|done]. pose proof (null_free_get _ _ _ Hd E) as Hn. by apply andb_true_iff in Hn as [Hn _].
    + by destruct p.
  - cbn [set_path negb]. destruct q as [|s q].
    + rewrite null_free_present by done. rewrite answers_step. destruct (obj_get k' dst) eqn:E'; [by rewrite E|].
      rewrite obj_get_set. destruct (String.eqb_spec k' k) as [->|]; [congruence|by rewrite E].
    + rewrite answers_step, obj_get_set. destruct (String.eqb_spec k k') as [<-|Hne].
      2:{ destruct (String.eqb_spec k' k) as [->|]; [done|]. by rewrite E. }
      rewrite String.eqb_refl. destruct i; [done|]. destruct p as [|s' p]; [done|].
      destruct (answers_object _ _ _ Ha) as [m ->]. unfold obj_of. rewrite E. cbn [mbind option_bind as_obj default id].
      apply IH; [done| |done|done]. by apply (null_free_get _ _ _ Hd E).
Qed.

(** ** Scaffolded samples *)

Section scaffolded.
  Context `{MapRange unit}.
  Variable unmarshal : string -> option json.

(** The value a path of an edge is given, if any. *)
Definition path_sample (bytes : string) (shapeless : list string) (constrained declared types : obj) (p : string)
    : option json :=
  match obj_get p constrained with
  | Some v => Some v
  | None =>
      if match pathsUnderFields [p] shapeless with [] => false | _ => true end
      then Some (default (shapelessPlaceholder p (fld types p)) (obj_get p declared))
      else typedPlaceholder unmarshal bytes p
  end.

Lemma scaffold_path_sample (bytes : string) (shapeless : list string) (constrained declared types mock : obj) (p : string) :
  scaffold_path unmarshal bytes shapeless constrained declared types mock p =
    match path_sample bytes shapeless constrained declared types p with Some v => setPath mock p v | None => mock end.
Proof.
  unfold scaffold_path, path_sample. destruct (obj_get p constrained); [done|].
  destruct (match pathsUnderFields [p] shapeless with [] => false | _ => true end); [by destruct (obj_get p declared)|done].
Qed.

(** Writing samples along a list of paths. *)
Lemma write_samples (sample : string -> option json) (paths : list string) (mock : obj) :
  (forall p, p ∈ paths -> well_formed (segments p)) ->
  (forall p v, p ∈ paths -> sample p = Some v -> null_free v = true) ->
  null_free (JObj mock) = true ->
  let mock' := fold_left (fun m p => match sample p with Some v => setPath m p v | None => m end) paths mock in
  null_free (JObj mock') = true /\
  (forall r, (forall q, q ∈ paths -> clash r (segments q) = false) ->
     answers (JObj mock) r = true -> answers (JObj mock') r = true) /\
  (forall p, p ∈ paths -> is_Some (sample p) ->
     (forall q, q ∈ paths -> clash (segments p) (segments q) = false) -> answers (JObj mock') (segments p) = true).
Proof.
  revert mock. induction paths as [|x paths IH]; intros mock Hwf Hnf Hm; cbn beta zeta.
  - split; [done|]. split; [done|]. by intros p ?%not_elem_of_nil.
  - set (m1 := match sample x with Some v => setPath mock x v | None => mock end).
    assert (Hm1 : null_free (JObj m1) = true).
    { unfold m1. destruct (sample x) as [v|] eqn:E; [|done]. apply set_path_null_free; [done|]. apply (Hnf x); [by left|done]. }
    destruct (IH m1) as (H1 & Hkeep & Hnew);
      [by intros p Hp; apply Hwf; right|by intros p v Hp; apply Hnf; right|done|].
    split; [exact H1|].
    assert (Hk : forall r, (forall q, q ∈ x :: paths -> clash r (segments q) = false) ->
                   answers (JObj m1) r = true ->
                   answers (JObj (fold_left (fun m p => match sample p with Some v => setPath m p v | None => m end) paths m1)) r = true).
    { intros r Hr. apply Hkeep. intros q Hq. apply Hr. by right. }
    split.
    + intros r Hr Ha. apply Hk; [done|]. unfold m1. destruct (sample x) as [v|] eqn:E; [|done].
      apply set_path_keeps; [apply Hr; by left|done| |done]. apply (Hnf x); [by left|done].
    + intros p [->|Hp]%elem_of_cons Hs Hc.
      * apply Hk; [done|]. unfold m1. destruct Hs as [v Hv]. rewrite Hv. apply set_path_answers; [apply Hwf; by left|done|].
        apply (Hnf x); [by left|done].
      * apply Hnew; [done|done|]. intros q Hq. apply Hc. by right.
Qed.

Section project.
  Variable componentByAlias : gmap string ComponentInfo.
  Variable createdNodes : gmap string string.

Definition source_schema (e : scaffoldEdge) : string := portSchemaBytes (componentByAlias !! se_FromAlias e) (se_FromPort e) false.
Definition edge_paths (e : scaffoldEdge) : list string := extractPathsFromConfig (JObj (se_Configuration e)).
Definition edge_shapeless (e : scaffoldEdge) : list string := shapelessFieldsIn unmarshal (source_schema e).

(** The port an edge asks a sample of: one that the edge reads a shapeless
    field of. *)
Definition scaffold_port (e : scaffoldEdge) : option string :=
  match edge_shapeless e, pathsUnderFields (edge_paths e) (edge_shapeless e), createdNodes !! se_FromAlias e with
  | [], _, _ | _, [], _ | _, _, None => None
  | _, _, Some nodeID => if nodeID =? "" then None else Some (nodeID +:+ ":" +:+ se_FromPort e)
  end.

Definition edge_sample (e : scaffoldEdge) : string -> option json :=
  path_sample (source_schema e) (edge_shapeless e) []
    (targetSchemaPlaceholders unmarshal (se_Configuration e) (se_ToSchema e))
    (targetExampleTypes (se_Configuration e) (se_ToSettings e)).

Lemma scaffold_edge_port (portData : gmap string obj) (e : scaffoldEdge) :
  scaffold_edge unmarshal componentByAlias createdNodes portData e =
    match scaffold_port e with
    | None => portData
    | Some port =>
        <[port := fold_left (fun m p => match edge_sample e p with Some v => setPath m p v | None => m end)
                    (edge_paths e) (default [] (portData !! port))]> portData
    end.
Proof.
  unfold scaffold_edge, scaffold_port, edge_shapeless, edge_paths, edge_sample, source_schema.
  set (sh := shapelessFieldsIn unmarshal (portSchemaBytes (componentByAlias !! se_FromAlias e) (se_FromPort e) false)).
  destruct sh as [|f sh'] eqn:Esh; [done|]. rewrite <- Esh. destruct (pathsUnderFields _ sh); [done|].
  destruct (createdNodes !! se_FromAlias e) as [nodeID|]; [|done]. destruct (nodeID =? ""); [done|].
  apply (f_equal (fun m => <[_ := m]> portData)), fold_left_ext. intros m p. apply scaffold_path_sample.
Qed.

Definition samples_null_free (edges : list scaffoldEdge) : Prop :=
  forall e p v, e ∈ edges -> p ∈ edge_paths e -> edge_sample e p = Some v -> null_free v = true.

(** The edges of one port agree on which keys hold lists. *)
Definition paths_agree (edges : list scaffoldEdge) : Prop :=
  forall e1 e2 p q, e1 ∈ edges -> e2 ∈ edges -> scaffold_port e1 = scaffold_port e2 ->
    p ∈ edge_paths e1 -> q ∈ edge_paths e2 -> clash (segments p) (segments q) = false.

Lemma scaffold_all (all edges : list scaffoldEdge) (portData : gmap string obj) :
  samples_null_free all -> paths_agree all -> edges ⊆ all ->
  (forall port mock, portData !! port = Some mock -> null_free (JObj mock) = true) ->
  let portData' := fold_left (scaffold_edge unmarshal componentByAlias createdNodes) edges portData in
  (forall port mock e p, portData !! port = Some mock -> e ∈ all -> scaffold_port e = Some port -> p ∈ edge_paths e ->
     answers (JObj mock) (segments p) = true ->
     exists mock', portData' !! port = Some mock' /\ answers (JObj mock') (segments p) = true) /\
  (forall e port p, e ∈ edges -> scaffold_port e = Some port -> p ∈ edge_paths e -> is_Some (edge_sample e p) ->
     exists mock', portData' !! port = Some mock' /\ answers (JObj mock') (segments p) = true).
Proof.
  intros Hnf Hag. revert portData. induction edges as [|x edges IH]; intros portData Hsub Hpd; cbn beta zeta.
  - split; [by eauto|]. by intros e port p ?%not_elem_of_nil.
  - cbn [fold_left]. rewrite scaffold_edge_port. assert (Hx : x ∈ all) by (apply Hsub; by left).
    assert (Hsub' : edges ⊆ all) by (intros z Hz; apply Hsub; by right).
    destruct (scaffold_port x) as [px|] eqn:Epx.
    2:{ destruct (IH portData Hsub' Hpd) as [H1 H2]. split; [exact H1|].
        intros e port p [->|He]%elem_of_cons Hp; [congruence|]. by apply H2. }
    destruct (write_samples (edge_sample x) (edge_paths x) (default [] (portData !! px))) as (Hn & Hkeep & Hnew).
    { intros p. apply extracted_well_formed. }
    { intros p v. by apply Hnf. }
    { destruct (portData !! px) as [mock|] eqn:E; [by apply (Hpd px)|done]. }
    set (m1 := fold_left _ (edge_paths x) _) in *.
    destruct (IH (<[px := m1]> portData) Hsub') as [H1 H2].
    { intros port mock [[<- <-]|[_ Hl]]%lookup_insert_Some; [exact Hn|by eapply Hpd]. }
    split.
    + intros port mock e p Hl He Hport Hp Ha. destruct (decide (px = port)) as [->|Hne].
      * apply (H1 port m1 e p); [by rewrite lookup_insert_eq|done|done|done|]. apply Hkeep.
        { intros q Hq. apply (Hag e x); try done. congruence. }
        by rewrite Hl.
      * apply (H1 port mock e p); try done. by rewrite lookup_insert_ne.
    + intros e port p [->|He]%elem_of_cons Hport Hp Hs; [|by apply (H2 e)].
      assert (port = px) as -> by congruence.
      apply (H1 px m1 x p); [by rewrite lookup_insert_eq|done|done|done|]. apply Hnew; [done|done|].
      intros q Hq. by apply (Hag x x).
Qed.

End project.
End scaffolded.

(** *** A concrete pass *)

Section demo.
#[local] Instance demo_range : MapRange unit := map_range_some_order unit.

Definition demo_unmarshal (s : string) : option json :=
  if s =? "source" then
    Some (JObj [("$defs", JObj [("Context", JObj [("path", JStr "$.context"); ("configurable", JBool true)]);
                                ("Root", JObj [("path", JStr "$"); ("properties", JObj [
                                   ("context", JObj [("$ref", JStr "#/$defs/Context")]);
                                   ("count", JObj [("type", JStr "integer")])])])])])
  else if s =? "target" then
    Some (JObj [("properties", JObj [("names", JObj [("type", JStr "array"); ("items", JObj [("type", JStr "string")])])])])
  else None.

Definition demo_source : ComponentInfo := mkComponentInfo "src" "" "" [] [] [] [] [mkPortDetail "out" "" "source" ""] "".
Definition demo_edge : scaffoldEdge :=
  mkScaffoldEdge "a" "out"
    [("names", JStr "{{$.context.items[0].names}}"); ("n", JStr "{{$.count}} of {{$.context.items[0].size}}")] [] "target".

Abbreviation demo_components := ({["a" := demo_source]} : gmap string ComponentInfo).
Abbreviation demo_nodes := ({["a" := "node-1"]} : gmap string string).

Lemma demo_hypotheses :
  samples_null_free demo_unmarshal demo_components [demo_edge] /\
  paths_agree demo_unmarshal demo_components demo_nodes [demo_edge].
Proof.
  assert (E : edge_paths demo_edge = ["count"; "context.items[0].size"; "context.items[0].names"]) by (vm_compute; reflexivity).
  assert (Hc : forallb (fun p => forallb (fun q => negb (clash (segments p) (segments q))) (edge_paths demo_edge))
                 (edge_paths demo_edge) = true) by (vm_compute; reflexivity).
  assert (Hn : forallb (fun p => match edge_sample demo_unmarshal demo_components demo_edge p with
                                 | Some v => null_free v | None => true end) (edge_paths demo_edge) = true)
    by (vm_compute; reflexivity).
  rewrite forallb_forall in Hc, Hn. split.
  - intros e p v ->%list_elem_of_singleton Hp Hv. apply list_elem_of_In in Hp.
    pose proof (Hn p Hp) as Hpn. by rewrite Hv in Hpn.
  - intros e1 e2 p q ->%list_elem_of_singleton ->%list_elem_of_singleton _ Hp Hq. apply list_elem_of_In in Hp, Hq.
    pose proof (Hc p Hp) as Hpq. rewrite forallb_forall in Hpq. by apply negb_true_iff, Hpq.
Qed.


(** What lies at a prefix of a longer path is not left alone: a value written
    there first is replaced by the object the longer path needs. *)
Example longer_path_clobbers :
  setPath (setPath [] "user" (JStr "<user>")) "user.name" (JStr "<name>") =
    [("user", JObj [("name", JStr "<name>")])].
Proof. reflexivity. Qed.
End demo.

(** ** Placeholders and the schemas they stand for *)

(** The type a node declares, or shows by its other fields. *)
Definition schema_type (n : obj) : string :=
  let t := str_field n "type" in
  if t =? "" then if present n "items" then "array" else if present n "properties" then "object" else "" else t.

(** Of the types a placeholder is made for; every value has another type. *)
Definition has_type (t : string) (v : json) : bool :=
  if t =? "string" then match v with JStr _ => true | _ => false end
  else if t =? "integer" then match v with JNum s => match parse_decimal s with Some _ => true | None => false end | _ => false end
  else if t =? "number" then match v with JNum _ => true | _ => false end
  else if t =? "boolean" then match v with JBool _ => true | _ => false end
  else if t =? "array" then match v with JArr (_ :: _) => true | _ => false end
  else if t =? "object" then match v with JObj _ => true | _ => false end
  else true.

(** A value fits a schema, seen [depth] levels deep: it is one of the
    enumeration, the constant, or of the declared type with members that fit.
    Lists are to have an element, for a schema may ask for one. *)
Fixpoint conforms (depth : nat) (root : obj) (node : option obj) (v : json) : Prop :=
  match depth with
  | O => True
  | S d =>
      match resolveSchemaNode root node with
      | None => True
      | Some n =>
          match obj_get "enum" n ≫= as_arr with
          | Some (x :: l) => v ∈ x :: l
          | _ =>
              if present n "const" then v = fld n "const"
              else has_type (schema_type n) v = true /\
                match v with
                | JArr l => Forall (conforms d root (obj_get "items" n ≫= as_obj)) l
                | JObj m => Forall (fun kv => conforms d root (obj_get kv.1 (obj_of (obj_get "properties" n)) ≫= as_obj) kv.2) m
                | _ => True
                end
          end
      end
  end.

(** No definition is a reference to another. *)
Definition flat_definitions (root : obj) : Prop :=
  Forall (fun kv => match as_obj kv.2 with
                    | Some def => go_has_prefix (str_field def "$ref") defs_prefix = false
                    | None => True
                    end) (obj_of (obj_get "$defs" root)).

Definition wf_node (node : option obj) : Prop := match node with Some n => json_wf (JObj n) | None => True end.

Lemma wf_get (m : obj) (k : string) : json_wf (JObj m) -> wf_node (obj_get k m ≫= as_obj).
Proof. intros Hm. destruct (obj_get k m) as [v|] eqn:E; [|done]. pose proof (wf_member _ _ _ Hm E). by destruct v. Qed.

Lemma wf_get_of (m : obj) (k : string) : json_wf (JObj m) -> json_wf (JObj (obj_of (obj_get k m))).
Proof.
  intros Hm. unfold obj_of. pose proof (wf_get m k Hm) as H. destruct (obj_get k m ≫= as_obj); [done|]. by split; [constructor|].
Qed.

Lemma wf_resolve (root : obj) (node : option obj) :
  json_wf (JObj root) -> wf_node node -> wf_node (resolveSchemaNode root node).
Proof.
  intros Hr Hn. destruct node as [n|]; [|done]. unfold resolveSchemaNode. destruct (negb _); [done|].
  pose proof (wf_get root "$defs" Hr) as Hd. destruct (obj_get "$defs" root ≫= as_obj) as [defs|]; [|done].
  cbn in Hd. pose proof (wf_get defs (go_trim_prefix (str_field n "$ref") defs_prefix) Hd) as Ht. by destruct (_ ≫= _).
Qed.

Lemma resolve_twice (root : obj) (node : option obj) (n : obj) :
  flat_definitions root -> resolveSchemaNode root node = Some n -> resolveSchemaNode root (Some n) = Some n.
Proof.
  intros Hf. destruct node as [n0|]; [|done]. unfold resolveSchemaNode at 1.
  destruct (negb (go_has_prefix (str_field n0 "$ref") defs_prefix)) eqn:En; [intros [= <-]; unfold resolveSchemaNode; by rewrite En|].
  unfold flat_definitions, obj_of in Hf.
  destruct (obj_get "$defs" root ≫= as_obj) as [defs|] eqn:Ed;
    [|intros [= <-]; unfold resolveSchemaNode; by rewrite En, Ed].
  cbn [default id] in Hf. destruct (obj_get (go_trim_prefix (str_field n0 "$ref") defs_prefix) defs) as [t|] eqn:Et.
  - cbn [mbind option_bind]. destruct (as_obj t) as [target|] eqn:Ea.
    + intros [= <-]. unfold resolveSchemaNode. rewrite Forall_forall in Hf. specialize (Hf _ (obj_get_in _ _ _ Et)).
      cbn [snd] in Hf. rewrite Ea in Hf. by rewrite Hf.
    + intros [= <-]. unfold resolveSchemaNode. rewrite En, Ed, Et. cbn [mbind option_bind]. by rewrite Ea.
  - intros [= <-]. unfold resolveSchemaNode. by rewrite En, Ed, Et.
Qed.

Lemma conforms_resolved (root : obj) (node : option obj) (n : obj) (d : nat) (v : json) :
  flat_definitions root -> resolveSchemaNode root node = Some n -> conforms d root (Some n) v -> conforms d root node v.
Proof. intros Hf Hn. destruct d as [|d]; [done|]. cbn [conforms]. by rewrite (resolve_twice _ _ _ Hf Hn), Hn. Qed.

Lemma enum_first (e : option (list json)) (rest : option json) (P : Prop) (v : json) :
  (rest = Some v -> P) ->
  match e with Some (x :: _) => Some x | _ => rest end = Some v ->
  match e with Some (x :: l) => v ∈ x :: l | _ => P end.
Proof. intros HP. destruct e as [[|x l]|]; [done|intros [= ->]; by left|done]. Qed.

Lemma enum_absent (e : option (list json)) (rest : option json) (P : Prop) (v : json) :
  (rest = None -> P) ->
  match e with Some (x :: _) => Some x | _ => rest end = None ->
  match e with Some (x :: l) => v ∈ x :: l | _ => P end.
Proof. intros HP. by destruct e as [[|x l]|]. Qed.

Lemma no_placeholder_any_object (d : nat) (root : obj) (node : option obj) (marker : string) :
  placeholderForSchema d root node marker = None -> conforms d root node (JObj []).
Proof.
  destruct d as [|d]; [done|]. cbn [placeholderForSchema conforms]. destruct (resolveSchemaNode root node) as [n|]; [|done].
  fold (schema_type n). apply enum_absent. unfold has_type. destruct (present n "const"); [done|].
  destruct (schema_type n =? "string"); [done|]. destruct (schema_type n =? "integer"); [done|].
  destruct (schema_type n =? "number"); [done|]. destruct (schema_type n =? "boolean"); [done|].
  destruct (schema_type n =? "array"); [done|]. by destruct (schema_type n =? "object").
Qed.

Lemma placeholder_conforms (d : nat) (root : obj) (node : option obj) (marker : string) (v : json) :
  json_wf (JObj root) -> flat_definitions root -> wf_node node ->
  placeholderForSchema d root node marker = Some v -> conforms d root node v.
Proof.
  intros Hr Hf. revert node marker v. induction d as [|d IH]; intros node marker v Hn; [done|].
  cbn [placeholderForSchema conforms]. pose proof (wf_resolve root node Hr Hn) as Hw.
  destruct (resolveSchemaNode root node) as [n|]; [|done]. cbn in Hw. fold (schema_type n).
  apply enum_first.
  destruct (present n "const"); [by intros [= <-]|]. unfold has_type.
  destruct (schema_type n =? "string") eqn:E1; [by intros [= <-]|].
  destruct (schema_type n =? "integer") eqn:E2; [by intros [= <-]|].
  destruct (schema_type n =? "number") eqn:E3; [by intros [= <-]|]. cbn [orb].
  destruct (schema_type n =? "boolean") eqn:E4; [by intros [= <-]|].
  destruct (schema_type n =? "array") eqn:E5.
  { intros [= <-]. split; [done|]. constructor; [|constructor].
    destruct (placeholderForSchema d root (obj_get "items" n ≫= as_obj) marker) as [e|] eqn:Ee; cbn [default id].
    - by eapply IH, Ee; apply wf_get.
    - by eapply no_placeholder_any_object. }
  destruct (schema_type n =? "object"); [|done]. intros [= <-]. split; [done|]. apply Forall_forall.
  intros [k w] Hin. cbn [fst snd]. apply list_elem_of_omap in Hin as ([k' raw] & Hin & Hk). cbn [fst snd] in Hk.
  destruct (resolveSchemaNode root (as_obj raw)) as [child|] eqn:Ec; [|done]. destruct (_ || _ || _) in Hk; [|done].
  destruct (placeholderForSchema d root (Some child) _) as [w'|] eqn:Ew; [|done]. injection Hk as <- <-.
  pose proof (wf_get_of n "properties" Hw) as Hp.
  assert (Hg : obj_get k' (obj_of (obj_get "properties" n)) = Some raw).
  { apply obj_get_nodup; [by apply json_wf_obj in Hp as [? _]|done]. }
  rewrite Hg. cbn [mbind option_bind]. eapply conforms_resolved; [done|exact Ec|]. eapply IH, Ew.
  cbn. pose proof (wf_get (obj_of (obj_get "properties" n)) k' Hp) as Hc. rewrite Hg in Hc. cbn [mbind option_bind] in Hc.
  pose proof (wf_resolve root (as_obj raw) Hr Hc) as Hc'. by rewrite Ec in Hc'.
Qed.

Lemma put_paths_get (value : string -> option json) (out : obj) (paths : list string) (p : string) (v : json) :
  obj_get p (put_paths value out paths) = Some v -> obj_get p out = Some v \/ p ∈ paths /\ value p = Some v.
Proof.
  unfold put_paths. revert out. induction paths as [|q paths IH]; intros out; cbn [fold_left]; [by left|].
  intros [Hg|[Hin Hv]]%IH; [|right; split; [by right|done]].
  destruct (value q) as [w|] eqn:E; [|by left]. rewrite obj_get_set in Hg.
  destruct (String.eqb_spec q p) as [->|]; [|by left]. injection Hg as ->. right. split; [by left|done].
Qed.

(** The samples of a list of leaves come from its leaves. *)
Lemma leaves_get (value : obj -> string -> option json) (leaves : list (string * option obj)) (out : obj) (p : string)
    (v : json) :
  obj_get p (fold_left (fun out leaf => match leaf with
                                        | (_, None) => out
                                        | (c, Some schema) => put_paths (value schema) out (whole_paths c)
                                        end) leaves out) = Some v ->
  obj_get p out = Some v \/ exists c schema, (c, Some schema) ∈ leaves /\ p ∈ whole_paths c /\ value schema p = Some v.
Proof.
  revert out. induction leaves as [|[c [schema|]] leaves IH]; intros out; cbn [fold_left]; [by left| |].
  - intros [Hg|(c' & s & Hin & Hrest)]%IH; [|right; exists c', s; split; [by right|done]].
    apply put_paths_get in Hg as [Hg|[Hp Hv]]; [by left|]. right. exists c, schema. split; [by left|done].
  - intros [Hg|(c' & s & Hin & Hrest)]%IH; [by left|]. right. exists c', s. split; [by right|done].
Qed.

Lemma with_schema_wf (root : obj) (cfg : json) (schema : option obj) (c : string) (n : option obj) :
  json_wf (JObj root) -> wf_node schema -> (c, n) ∈ with_schema root cfg schema -> wf_node n.
Proof.
  intros Hr. revert schema. induction cfg as [| | |s|l IH|m IH] using json_nested_ind; intros schema Hs;
    cbn [with_schema]; try by intros ?%not_elem_of_nil.
  - intros [= -> ->]%list_elem_of_singleton. by apply wf_resolve.
  - pose proof (wf_resolve root schema Hr Hs) as Hw. intros (x & Hin & Hx)%list_elem_of_bind.
    rewrite Forall_forall in IH. eapply (IH x Hx); [|exact Hin].
    destruct (resolveSchemaNode root schema) as [n'|]; [|done]. by apply wf_get.
  - pose proof (wf_resolve root schema Hr Hs) as Hw. intros (x & Hin & Hx)%list_elem_of_bind.
    rewrite Forall_forall in IH. eapply (IH x Hx); [|exact Hin].
    apply wf_get. unfold obj_of. destruct (resolveSchemaNode root schema) as [n'|]; [|by split; [constructor|]].
    cbn [mbind option_bind]. pose proof (wf_get n' "properties" Hw) as Hp.
    destruct (obj_get "properties" n' ≫= as_obj); [done|by split; [constructor|]].
Qed.

Section placeholders.
  Variable unmarshal : string -> option json.

(** A placeholder never contradicts the schema of the port it is mapped
    into: the sample that [targetSchemaPlaceholders] gives a path is made for a
    position of the configuration that is nothing but an expression of that
    path, and the sample fits the schema declared there - it is of the
    enumeration, the constant, or of the declared type with members that fit,
    and a list has an element - six levels deep. *)
Theorem placeholder_never_contradicts (config root : obj) (targetSchema p : string) (v : json) :
  read_object unmarshal targetSchema = Some root -> json_wf (JObj root) -> flat_definitions root ->
  obj_get p (targetSchemaPlaceholders unmarshal config targetSchema) = Some v ->
  exists c leaf, (c, Some leaf) ∈ with_schema root (JObj config) (Some root) /\ p ∈ whole_paths c /\
    conforms 6 root (Some leaf) v.
Proof.
  unfold targetSchemaPlaceholders. intros Hread Hr Hf. rewrite Hread. destruct (targetSchema =? ""); [done|].
  intros [|(c & leaf & Hin & Hp & Hv)]%(leaves_get (fun schema p =>
    placeholderForSchema 6 root (Some schema) (placeholderFor p))); [done|].
  exists c, leaf. split; [done|]. split; [done|]. eapply placeholder_conforms; [done|done| |exact Hv].
  by apply (with_schema_wf root (JObj config) (Some root) c (Some leaf)).
Qed.
End placeholders.

Lemma placeholder_never_contradicts_witness :
  exists c leaf root, (c, Some leaf) ∈ with_schema root (JObj (se_Configuration demo_edge)) (Some root) /\
    "context.items[0].names" ∈ whole_paths c /\ conforms 6 root (Some leaf) (JArr [JStr "<names>"]).
Proof.
  destruct (read_object demo_unmarshal "target") as [root|] eqn:E; [|vm_compute in E; discriminate].
  destruct (placeholder_never_contradicts demo_unmarshal (se_Configuration demo_edge) root "target"
              "context.items[0].names" (JArr [JStr "<names>"])) as (c & leaf & H).
  - exact E.
  - vm_compute in E. injection E as <-. cbn. repeat constructor; set_solver.
  - vm_compute in E. injection E as <-. by constructor.
  - vm_compute. reflexivity.
  - by exists c, leaf, root.
Defined.

(** ** Derived schemas *)

(** A schema fragment describes a value. *)
Fixpoint describes (s : obj) (v : json) : bool :=
  let t := str_field s "type" in
  if t =? "" then true
  else match v with
       | JNull => false
       | JStr _ => t =? "string"
       | JBool _ => t =? "boolean"
       | JNum _ => t =? "number"
       | JArr l => (t =? "array") && match obj_get "items" s ≫= as_obj with
                                     | Some items => forallb (describes items) l
                                     | None => true
                                     end
       | JObj m => (t =? "object") && forallb (fun kv =>
                     match obj_get kv.1 (obj_of (obj_get "properties" s)) ≫= as_obj with
                     | Some p => describes p kv.2
                     | None => true
                     end) m
       end.

(** Every list holds data of one shape. *)
Fixpoint uniform (v : json) : bool :=
  match v with
  | JArr l => forallb uniform l &&
      match l with [] => true | x :: _ => forallb (fun y => bool_decide (deriveValueSchema None y = deriveValueSchema None x)) l end
  | JObj m => forallb (fun kv => uniform kv.2) m
  | _ => true
  end.

Lemma derived_is_object (resolve : Resolver) (v : json) : exists s, deriveValueSchema resolve v = JObj s.
Proof.
  assert (Ht : forall x, exists s, typeSchemaOf x = JObj s) by (intros []; by eexists).
  destruct v; try by eexists. cbn. destruct (whole_expression s); [|by eexists].
  unfold resolved_schema. destruct resolve as [f|]; [|by eexists]. destruct (List.find _ _); [apply Ht|by eexists].
Qed.

Lemma derived_describes (v : json) :
  json_wf v -> uniform v = true -> exists s, deriveValueSchema None v = JObj s /\ describes s v = true.
Proof.
  induction v as [| | |s|l IH|m IH] using json_nested_ind; intros Hw Hu; try by eexists.
  - cbn. destruct (whole_expression s); by eexists.
  - apply json_wf_arr in Hw. cbn [uniform] in Hu. apply andb_true_iff in Hu as [Hu Hsame].
    eexists. split; [reflexivity|]. destruct l as [|x l]; [done|]. cbn [describes].
    change (str_field _ "type") with "array". cbn [String.eqb Ascii.eqb Bool.eqb andb].
    destruct (derived_is_object None x) as [sx Hsx].
    change (obj_get "items" _ ≫= as_obj) with (as_obj (deriveValueSchema None x)). rewrite Hsx. cbn [as_obj].
    rewrite forallb_forall in *. rewrite Forall_forall in IH, Hw. intros y Hy.
    pose proof (Hsame y Hy) as Hs%bool_decide_eq_true. pose proof Hy as Hy'%list_elem_of_In.
    destruct (IH y Hy' (Hw y Hy') (Hu y Hy)) as (sy & Hsy & Hd). rewrite Hs, Hsx in Hsy. by injection Hsy as <-.
  - apply json_wf_obj in Hw as [Hnd Hw]. cbn [uniform] in Hu. eexists. split; [reflexivity|]. cbn [describes].
    change (str_field _ "type") with "object". cbn [String.eqb Ascii.eqb Bool.eqb andb].
    change (obj_of (obj_get "properties" _)) with (map (fun kv => (kv.1, deriveValueSchema None kv.2)) m).
    rewrite forallb_forall in *. rewrite Forall_forall in IH, Hw. intros [k y] Hy. cbn [fst snd].
    pose proof Hy as Hy'%list_elem_of_In.
    rewrite obj_get_map, (obj_get_nodup _ _ _ Hnd Hy'). cbn [fmap option_fmap option_map mbind option_bind].
    destruct (IH _ Hy' (Hw _ Hy') (Hu _ Hy)) as (sy & Hsy & Hd). cbn [snd] in *. by rewrite Hsy.
Qed.

(** What is filled in for a field. *)
Definition filled (data : obj) (resolve : Resolver) (field : string) : option json :=
  match obj_get field data with
  | None => None
  | Some val => if match val with JStr _ => field =? "context" | _ => false end then None
                else Some (deriveValueSchema resolve val)
  end.

Lemma fill_missing_get (data userSchema : obj) (configurable : list string) (resolve : Resolver) (k : string) :
  obj_get k (fillMissingSchemas data userSchema configurable resolve) =
    match obj_get k userSchema with
    | Some u => Some u
    | None => if existsb (String.eqb k) configurable then filled data resolve k else None
    end.
Proof.
  unfold fillMissingSchemas. revert userSchema. induction configurable as [|f fields IH]; intros out; cbn [fold_left existsb].
  - by destruct (obj_get k out).
  - rewrite IH. clear IH. unfold filled. destruct (String.eqb_spec k f) as [<-|Hne]; cbn [orb].
    + destruct (obj_get k data) as [val|]; [|by destruct (obj_get k out), (existsb (String.eqb k) fields)].
      destruct (obj_get k out) as [u|] eqn:E; [by rewrite E|].
      destruct (match val with JStr _ => k =? "context" | _ => false end); [by rewrite E; destruct (existsb _ _)|].
      by rewrite obj_get_set, String.eqb_refl.
    + destruct (obj_get f data) as [val|]; [|done]. destruct (obj_get f out); [done|].
      destruct (match val with JStr _ => f =? "context" | _ => false end); [done|]. rewrite obj_get_set.
      by destruct (String.eqb_spec f k) as [->|].
Qed.

(** Filling in the schemas of a node's settings: an entry of the author is
    kept as it is; every other entry is for a field that the component declares
    configurable and the settings fill, and it describes the data there if its
    lists are of one shape; and no filled field is left without a schema. *)
Theorem settings_schemas_describe (data userSchema : obj) (configurable : list string) :
  json_wf (JObj data) ->
  let schemas := fillMissingSchemas data userSchema configurable None in
  (forall k u, obj_get k userSchema = Some u -> obj_get k schemas = Some u) /\
  (forall k e, obj_get k userSchema = None -> obj_get k schemas = Some e ->
     k ∈ configurable /\ exists v, obj_get k data = Some v /\ e = deriveValueSchema None v /\
       (uniform v = true -> exists s, e = JObj s /\ describes s v = true)) /\
  requireSchemaForData data schemas configurable = [].
Proof.
  intros Hw schemas. subst schemas. split; [|split].
  - intros k u Hu. by rewrite fill_missing_get, Hu.
  - intros k e Hu. rewrite fill_missing_get, Hu. destruct (existsb _ _) eqn:Ex; [|done].
    apply existsb_exists in Ex as (k' & Hin & <-%String.eqb_eq). unfold filled.
    destruct (obj_get k data) as [v|] eqn:Ed; [|done].
    destruct (match v with JStr _ => k =? "context" | _ => false end); [done|]. intros [= <-].
    split; [by apply list_elem_of_In|]. exists v. do 2 (split; [done|]). intros Huni.
    apply derived_describes; [|done]. by eapply wf_member.
  - unfold requireSchemaForData. apply filter_none, forallb_forall. intros k Hin. apply negb_true_iff.
    rewrite fill_missing_get. unfold filled. destruct (obj_get k data) as [v|]; [|done].
    destruct (obj_get k userSchema); [done|].
    assert (existsb (String.eqb k) configurable = true) as ->
      by (apply existsb_exists; exists k; by rewrite String.eqb_refl).
    destruct v; try done. by destruct (k =? "context").
Qed.

Lemma settings_schemas_describe_witness :
  requireSchemaForData [("context", JObj [("token", JStr "x"); ("ids", JArr [JNum "1"; JNum "2"])])]
    (fillMissingSchemas [("context", JObj [("token", JStr "x"); ("ids", JArr [JNum "1"; JNum "2"])])] [] ["context"] None)
    ["context"] = [].
Proof.
  apply (settings_schemas_describe [("context", JObj [("token", JStr "x"); ("ids", JArr [JNum "1"; JNum "2"])])] [] ["context"]).
  cbn. repeat constructor; set_solver.
Defined.

(** A list is typed by its first element alone. *)
Example mixed_list_mistyped :
  deriveValueSchema None (JArr [JNum "1"; JStr "a"]) =
    JObj [("type", JStr "array"); ("items", JObj [("type", JStr "number")])].
Proof. reflexivity. Qed.

(** An expression that is more than a path is typed by the first path in it
    that resolves: a comparison is taken for a number. *)
Example comparison_mistyped :
  deriveValueSchema (Some (fun _ => JNum "3")) (JStr "{{$.count > 5}}") = JObj [("type", JStr "number")].
Proof. vm_compute. reflexivity. Qed.
