(* ===== verification/Tools.v ===== *)
(** * What the agent tools run on

    [pkg/tools/interface.go]: the execution context a tool is given, a record of
    optional services; [registry.go]; the helpers that the tools which write a
    flow share: [edit_flow_lookup.go], the readers of loose input of
    [edit_flow.go], [flowIssues], [unwireEdge], and the writing half of the two
    scaffolding passes ([build_flow_scenarios.go],
    [scenario_scaffold_live.go]).

    A service is code outside the tools. It is modelled by what it answers,
    which may depend on everything asked before: a tool runs on the history of
    the calls made so far, newest first, and each call is added to it. So is the
    question whether the context is done. The error a call returns is none where
    the service says so; a service that answers without an error answers with a
    result.

    [unmarshal] is the JSON decoder. Input and results are decoded values; a map
    that is nil and one that is empty read the same where the code does not ask,
    and are [None] and [Some []] where it does. *)
From S2P Require Import Prelude GoErrors Names Graph Json FlowIssues Authoring.
From S2P Require GraphExport Manager.

Open Scope string_scope.
Open Scope list_scope.

(** ** Calls *)

Record FlowOperation := mkFlowOperation { fo_Op : string; fo_ID : string; fo_Element : obj }.
Record OperationResult := mkOperationResult { or_Success : bool; or_Error : string }.

Inductive Call : Type :=
| CtxErr
| GetModule (name : string)
| CreateFlow (flowName : string)
| AddNode (component module : string)
| LabelNode (nodeID label : string)
| RepositionNode (nodeID : string) (x y : Z)
| ConfigureNodeSettings (nodeID : string) (settings schema : obj)
| ShareNode (nodeID : string) (flows : list string)
| AddEdge (fromNode fromPort toNode toPort : string)
| ConfigureEdge (edgeID : string) (config schema : obj) (traceID : string)
| ApplyFlowChanges (ops : list FlowOperation)
| InspectPort (nodeID port : string)
| ReadProjectElements
| ListProjectNodeCRs
| ListScenarios
| CreateEmptyScenario (name : string)
| CreateScenarioFromTrace (name traceID : string)
| DeleteScenario (resource : string)
| UpdateScenarioPort (resource port : string) (data : json)
| ListModules
| FetchSolutionExport (idOrSlug : string)
| CreateNodeCR (generateName : string) (node : GraphExport.GraphNode)
| GetNodeCR (name : string)
| UpdateNodeCR (node : GraphExport.GraphNode)
| ApplyDashboardPage (pageTitle : string) (sortIdx : Z) (widgets : list Manager.TinyWidget)
| ApplyScenario (name : string) (ports : list Manager.ScenarioPortData).

(** Calls that only read. *)
Definition reads_only (c : Call) : bool :=
  match c with
  | CtxErr | GetModule _ | InspectPort _ _ | ReadProjectElements | ListProjectNodeCRs | ListScenarios
  | ListModules | FetchSolutionExport _ | GetNodeCR _ => true
  | _ => false
  end.

Abbreviation History := (list Call).

(** What a service answers. *)
Abbreviation Answer A := (History -> result goerror A).

Record ModuleInfo := mkModuleInfo {
  mi_Name : string;
  mi_Version : string;
  mi_Description : string;
  mi_Components : list ComponentInfo;
}.
Record AddNodeResult := mkAddNodeResult { an_NodeID : string; an_Ports : list string }.
Record AddEdgeResult := mkAddEdgeResult { ae_EdgeID : string; ae_NeedsConfiguration : bool }.
Record ConfigureResult := mkConfigureResult {
  cr_Valid : bool;
  cr_Error : string;
  cr_Hint : string;
  cr_Ports : list string;          (* of a node's settings *)
}.
Record PortInspectResult := mkInspect { pi_Schema : json; pi_ExampleData : json }.
Record ScenarioItem := mkScenarioItem { si_ResourceName : string; si_Name : string; si_PortCount : Z }.

Record ScenarioService := mkScenarioService {
  sm_List : Answer (list ScenarioItem);
  sm_CreateEmpty : string -> Answer ScenarioItem;
  sm_UpdatePort : string -> string -> json -> Answer unit;
  sm_CreateFromTrace : string -> string -> Answer ScenarioItem;
  sm_Delete : string -> Answer unit;
}.

Record ModuleService := mkModuleService {
  mc_ListModules : Answer (list ModuleInfo);
  mc_GetModule : string -> Answer (option ModuleInfo);
}.

(** [CreateNodeCR] takes the name prefix apart, which the data of a node here
    does not hold; it answers with the name assigned. *)
Record NodeCRService := mkNodeCRService {
  nc_List : Answer (list TinyNode);
  nc_Create : string -> GraphExport.GraphNode -> Answer string;
  nc_Get : string -> Answer GraphExport.GraphNode;
  nc_Update : GraphExport.GraphNode -> Answer unit;
  nc_IsConflict : goerror -> bool;
}.

Record ExecutionContext := mkExecutionContext {
  ProjectName : string;
  FlowName : string;
  ctx_done : History -> bool;
  ProjectReader : option (Answer (option (list element)));
  ModuleCatalog : option ModuleService;
  FlowCreator : option (string -> Answer string);
  FlowModifier : option (list FlowOperation -> Answer (list OperationResult));
  PortInspector : option (string -> string -> Answer (option PortInspectResult));
  NodeAdder : option (string -> string -> Answer AddNodeResult);
  NodeLabeler : option (string -> string -> Answer unit);
  NodeRepositioner : option (string -> Z -> Z -> Answer unit);
  NodeSettingsConfigurer : option (string -> obj -> obj -> Answer ConfigureResult);
  NodeSharer : option (string -> list string -> Answer (list string));
  EdgeAdder : option (string -> string -> string -> string -> Answer AddEdgeResult);
  EdgeConfigurer : option (string -> obj -> obj -> string -> Answer ConfigureResult);
  TinyNodeCRManager : option NodeCRService;
  ScenarioManager : option ScenarioService;
  SolutionExportFetcher : option (string -> Answer string);
  DashboardPageApplier : option (string -> Z -> list Manager.TinyWidget -> Answer unit);
  ScenarioApplier : option (string -> list Manager.ScenarioPortData -> Answer unit);
}.

(** ** Running on a history *)

Definition M (A : Type) : Type := History -> A * History.
#[export] Instance M_ret : MRet M := fun A a h => (a, h).
#[export] Instance M_bind : MBind M := fun A B k m h => let '(a, h') := m h in k a h'.

(** One call: the answer depends on what came before it. *)
Definition ask {A} (c : Call) (answer : History -> A) : M A := fun h => (answer h, c :: h).

Definition ctx_err (e : ExecutionContext) : M bool := ask CtxErr (ctx_done e).

(** What a tool writes, oldest first. *)
Definition writes (h : History) : list Call := List.filter (fun c => negb (reads_only c)) (rev h).

Record ToolResult (O : Type) := mkToolResult { Success : bool; Output : option O; Error : string }.
Arguments mkToolResult {O}. Arguments Success {O}. Arguments Output {O}. Arguments Error {O}.
Definition refused {O} (msg : string) : ToolResult O := mkToolResult false None msg.

(** ** Loose input *)

(** [m[k].(map[string]interface{})]; nil is [None]. *)
Definition map_at (m : obj) (k : string) : option obj := obj_get k m ≫= as_obj.
(** [m[k].(string)]. *)
Definition str_at (m : obj) (k : string) : option string := obj_get k m ≫= as_str.

Definition numberFrom (v : json) : option Z := match v with JNum s => Some (num_trunc s) | _ => None end.

Section input.
  Variable unmarshal : string -> option json.

Definition positionFrom (raw : json) : option (Z * Z) :=
  match (match raw with JObj m => Some m | JStr s => read_object unmarshal s | _ => None end) with
  | None => None
  | Some pos => match numberFrom (fld pos "x"), numberFrom (fld pos "y") with Some x, Some y => Some (x, y) | _, _ => None end
  end.

(** [json.Unmarshal] into a list of strings: null stands for the empty one. *)
Definition read_string (v : json) : option string := match v with JStr s => Some s | JNull => Some "" | _ => None end.
Definition read_strings (s : string) : option (list string) :=
  match unmarshal s with
  | Some (JArr l) => mapM read_string l
  | Some JNull => Some []
  | _ => None
  end.

Definition stringsFrom (raw : json) : option (list string) :=
  match raw with
  | JArr l => mapM as_str l
  | JStr v =>
      let trimmed := go_trim_space v in
      if trimmed =? "" then Some []
      else if go_has_prefix trimmed "[" then read_strings trimmed
      else Some (List.filter (fun p => negb (p =? "")) (map go_trim_space (go_split "," trimmed)))
  | _ => None
  end.
End input.

(** ** Lookups *)

Definition findNodeIdentity (elements : list element) (nodeID : string) : string * string :=
  match List.find (fun el => (mapStr el "id" =? nodeID) && (mapStr el "type" =? "tinyNode")) elements with
  | Some el => (elemDataStr el "module", elemDataStr el "component")
  | None => ("", "")
  end.

Definition edge_target (elements : list element) (edgeID : string) : string * string :=
  match List.find (fun el => (mapStr el "id" =? edgeID) && (mapStr el "type" =? "tinyEdge")) elements with
  | Some el => (mapStr el "target", mapStr el "targetHandle")
  | None => ("", "")
  end.

Definition component_named (name : string) (m : ModuleInfo) : option ComponentInfo :=
  List.find (fun c => ci_Name c =? name) (mi_Components m).

Section run.
  Variable e : ExecutionContext.

(** The component of a node, none where it cannot be found out. Callers drop
    the error. *)
Definition findNodeComponent (nodeID : string) : M (option ComponentInfo) :=
  match ProjectReader e, ModuleCatalog e with
  | Some read, Some catalog =>
      elements ← ask ReadProjectElements read;
      match elements with
      | Err _ => mret None
      | Ok els =>
          let '(moduleName, componentName) := findNodeIdentity (default [] els) nodeID in
          if (moduleName =? "") || (componentName =? "") then mret None
          else
            m ← ask (GetModule moduleName) (mc_GetModule catalog moduleName);
            mret (match m with Ok (Some m) => component_named componentName m | _ => None end)
      end
  | _, _ => mret None
  end.

(** The code takes the project's elements for given. *)
Definition findEdgeTarget (edgeID : string) : M (string * string) :=
  match ProjectReader e with
  | None => mret ("", "")
  | Some read =>
      elements ← ask ReadProjectElements read;
      mret (match elements with Ok (Some els) => edge_target els edgeID | _ => ("", "") end)
  end.

Definition flowIssues : M (list string) :=
  match ProjectReader e with
  | None => mret []
  | Some read =>
      if ProjectName e =? "" then mret []
      else data ← ask ReadProjectElements read;
           mret (match data with Ok (Some els) => FlowIssues els | _ => [] end)
  end.

Definition delete_op (id kind : string) : list FlowOperation := [mkFlowOperation "delete" id [("type", JStr kind)]].

Definition left_wired (why : string) : string := "edge left wired WITHOUT configuration — " +:+ why.

(** Empty where the edge is gone. *)
Definition unwireEdge (edgeID : string) : M string :=
  match FlowModifier e with
  | None => mret (left_wired "no flow modifier available to remove it; delete it manually or it will run on target defaults")
  | Some apply =>
      let ops := delete_op edgeID "tinyEdge" in
      r ← ask (ApplyFlowChanges ops) (apply ops);
      mret (match r with
            | Err err => left_wired ("removal failed: " +:+ error_text err)
            | Ok (r :: _) => if or_Success r then "" else left_wired ("removal failed: " +:+ or_Error r)
            | Ok [] => ""
            end)
  end.

(** ** Writing scaffolded samples *)

Definition ScaffoldScenarioName : string := "auto-scaffold".

(** The scenario the samples go to, found or made; or what went wrong. *)
Definition scaffold_scenario (sm : ScenarioService) (skipping : string) : M (result string string) :=
  scenarios ← ask ListScenarios (sm_List sm);
  match scenarios with
  | Err err => mret (Err ("scaffold: list scenarios failed (" +:+ error_text err +:+ ")" +:+ skipping))
  | Ok scs =>
      let found := match List.find (fun sc => si_Name sc =? ScaffoldScenarioName) scs with
                   | Some sc => si_ResourceName sc | None => "" end in
      if negb (found =? "") then mret (Ok found)
      else
        created ← ask (CreateEmptyScenario ScaffoldScenarioName) (sm_CreateEmpty sm ScaffoldScenarioName);
        mret (match created with
              | Err err => Err ("scaffold: create scenario failed (" +:+ error_text err +:+ ")")
              | Ok sc => Ok (si_ResourceName sc)
              end)
  end.

(** The samples of the ports, in this order: the number written, and a warning
    for each that was not. What was decoded can be encoded. *)
Fixpoint write_ports (sm : ScenarioService) (resource : string) (ports : list (string * obj)) : M (nat * list string) :=
  match ports with
  | [] => mret (0, [])
  | (port, mock) :: ports' =>
      r ← ask (UpdateScenarioPort resource port (JObj mock)) (sm_UpdatePort sm resource port (JObj mock));
      rest ← write_ports sm resource ports';
      mret (match r with
            | Err err => (rest.1, ("scaffold: write " +:+ port +:+ " failed (" +:+ error_text err +:+ ")") :: rest.2)
            | Ok _ => (S rest.1, rest.2)
            end)
  end.

Section scaffolding.
  Context `{MapRange unit} `{MapRange obj} `{MapRange TinyNode}.
  Variable unmarshal : string -> option json.

(** After a build: from the edges of the specification. *)
Definition scaffoldScenarios (createdNodes : gmap string string) (componentByAlias : gmap string ComponentInfo)
    (edges : list scaffoldEdge) : M (list string) :=
  match ScenarioManager e with
  | None => mret []
  | Some sm =>
      if ProjectName e =? "" then mret []
      else
        let portData := scaffold_samples unmarshal componentByAlias createdNodes edges in
        if (size portData =? 0)%nat then mret []
        else
          resource ← scaffold_scenario sm " — skipping auto-scaffold";
          match resource with
          | Err w => mret [w]
          | Ok resource => written ← write_ports sm resource (map_range portData); mret written.2
          end
  end.

(** *** From the project as it is *)

Definition schemaByPort (nodes : list TinyNode) : gmap string string :=
  fold_left (fun m n => fold_left (fun m ps =>
    if ps_Schema ps =? "" then m else <[n_Name n +:+ ":" +:+ ps_Name ps := ps_Schema ps]> m) (st_Ports (n_Status n)) m) nodes ∅.

Definition settingsByNode (nodes : list TinyNode) : gmap string obj :=
  fold_left (fun m n => fold_left (fun m ps =>
    if (ps_Name ps =? SettingsPort) && negb (ps_Configuration ps =? "") then
      match read_object unmarshal (ps_Configuration ps) with Some settings => <[n_Name n := settings]> m | None => m end
    else m) (st_Ports (n_Status n)) m) nodes ∅.

Definition edge_config (target : TinyNode) (sourcePort targetPort : string) : obj :=
  match List.find (fun pc => (pc_From pc =? sourcePort) && (pc_Port pc =? targetPort) && negb (pc_Configuration pc =? ""))
          (spec_Ports (n_Spec target)) with
  | Some pc => default [] (read_object unmarshal (pc_Configuration pc))
  | None => []
  end.

(** One edge of a node: what its sample needs to hold. *)
Definition scaffold_live_edge (nodes : gmap string TinyNode) (schemas : gmap string string) (settings : gmap string obj)
    (source : string) (portData : gmap string obj) (edge : TinyNodeEdge) : gmap string obj :=
  let sourcePort := source +:+ ":" +:+ e_Port edge in
  let schemaBytes := default "" (schemas !! sourcePort) in
  let shapeless := shapelessFieldsIn unmarshal schemaBytes in
  let '(targetName, targetPort) := ParseFullPortName (e_To edge) in
  match nodes !! targetName with
  | None => portData
  | Some target =>
      let config := edge_config target sourcePort targetPort in
      let paths := extractPathsFromConfig (JObj config) in
      match shapeless, config, pathsUnderFields paths shapeless with
      | [], _, _ | _, [], _ | _, _, [] => portData
      | _, _, _ =>
          let targetSchema := default "" (schemas !! e_To edge) in
          <[sourcePort := fold_left
             (scaffold_path unmarshal schemaBytes shapeless (targetConstrainedValues unmarshal config targetSchema)
                (targetSchemaPlaceholders unmarshal config targetSchema)
                (targetExampleTypes config (default [] (settings !! targetName))))
             paths (default [] (portData !! sourcePort))]> portData
      end
  end.

Definition live_samples (nodeList : list TinyNode) : gmap string obj :=
  let nodes : gmap string TinyNode := fold_left (fun m n => <[n_Name n := n]> m) nodeList ∅ in
  let ranged := map_range nodes in
  let schemas := schemaByPort (map snd ranged) in
  let settings := settingsByNode (map snd ranged) in
  fold_left (fun portData kv => fold_left (scaffold_live_edge nodes schemas settings kv.1) (spec_Edges (n_Spec kv.2)) portData)
    ranged ∅.

Definition ScaffoldLiveScenarios : M (nat * list string) :=
  match ScenarioManager e, TinyNodeCRManager e with
  | Some sm, Some crs =>
      if ProjectName e =? "" then mret (0, ["scaffold: node reader or scenario manager not configured"])
      else
        nodeList ← ask ListProjectNodeCRs (nc_List crs);
        match nodeList with
        | Err err => mret (0, ["scaffold: list nodes failed (" +:+ error_text err +:+ ")"])
        | Ok nodeList =>
            let portData := live_samples nodeList in
            if (size portData =? 0)%nat then mret (0, [])
            else
              resource ← scaffold_scenario sm "";
              match resource with
              | Err w => mret (0, [w])
              | Ok resource => write_ports sm resource (sort_stable fst (map_range portData))
              end
        end
  | _, _ => mret (0, ["scaffold: node reader or scenario manager not configured"])
  end.
End scaffolding.
End run.
