(* ===== verification/ToolsSpec.v ===== *)
(** * Reasoning about what a tool asks for

    A weakest-precondition style triple for the programs of [Tools]: a
    postcondition speaks of the value a program returns and of the calls it
    made, newest first, whatever was asked before. *)
From S2P Require Import Prelude GoErrors Names Graph Json FlowIssues Authoring Tools.

Open Scope string_scope.
Open Scope list_scope.

Lemma run_bind {A B} (m : M A) (k : A -> M B) (h : History) : (m ≫= k) h = let '(a, h') := m h in k a h'.
Proof. reflexivity. Qed.

Definition wp {A} (m : M A) (Q : A -> list Call -> Prop) : Prop :=
  forall h, exists l, (m h).2 = l ++ h /\ Q (m h).1 l.

Lemma wp_ret {A} (a : A) (Q : A -> list Call -> Prop) : Q a [] -> wp (mret a) Q.
Proof. intros HQ h. by exists []. Qed.

Lemma wp_ask {A} (c : Call) (answer : History -> A) (Q : A -> list Call -> Prop) :
  (forall a, Q a [c]) -> wp (ask c answer) Q.
Proof. intros HQ h. by exists [c]. Qed.

Lemma wp_bind {A B} (m : M A) (k : A -> M B) (Q : B -> list Call -> Prop) :
  wp m (fun a l => wp (k a) (fun b l' => Q b (l' ++ l))) -> wp (m ≫= k) Q.
Proof.
  intros Hm h. destruct (Hm h) as (l & Hl & Hk). unfold mbind, M_bind. destruct (m h) as [a h1]. cbn [fst snd] in *. subst h1.
  destruct (Hk (l ++ h)) as (l' & Hl' & HQ). exists (l' ++ l). by rewrite Hl', (assoc_L (++)).
Qed.

Lemma wp_mono {A} (m : M A) (P Q : A -> list Call -> Prop) :
  wp m P -> (forall a l, P a l -> Q a l) -> wp m Q.
Proof. intros HP HPQ h. destruct (HP h) as (l & Hl & H). exists l. auto. Qed.

Lemma wp_and {A} (m : M A) (P Q : A -> list Call -> Prop) : wp m P -> wp m Q -> wp m (fun a l => P a l /\ Q a l).
Proof.
  intros HP HQ h. destruct (HP h) as (l & Hl & H), (HQ h) as (l' & Hl' & H'). exists l. split; [done|]. split; [done|].
  rewrite Hl in Hl'. apply (inj (fun l => l ++ h)) in Hl'. by subst.
Qed.

(** One call, then the rest. *)
Lemma wp_ask_then {A B} (c : Call) (answer : History -> A) (k : A -> M B) (Q : B -> list Call -> Prop) :
  (forall a, wp (k a) (fun b l => Q b (l ++ [c]))) -> wp (ask c answer ≫= k) Q.
Proof. intros Hk. apply wp_bind, wp_ask. exact Hk. Qed.

Lemma wp_ret_then {A B} (a : A) (k : A -> M B) (Q : B -> list Call -> Prop) :
  wp (k a) (fun b l => Q b (l ++ [])) -> wp (mret a ≫= k) Q.
Proof. intros Hk. by apply wp_bind, wp_ret. Qed.

(** Only calls of a kind. *)
Definition only (P : Call -> Prop) {A} (m : M A) : Prop := wp m (fun _ l => Forall P l).

Lemma only_ret (P : Call -> Prop) {A} (a : A) : only P (mret a).
Proof. by apply wp_ret. Qed.

Lemma only_ask (P : Call -> Prop) {A} (c : Call) (answer : History -> A) : P c -> only P (ask c answer).
Proof. intros Hc. apply wp_ask. by repeat constructor. Qed.

Lemma only_bind (P : Call -> Prop) {A B} (m : M A) (k : A -> M B) :
  only P m -> (forall a, only P (k a)) -> only P (m ≫= k).
Proof.
  intros Hm Hk. apply wp_bind. eapply wp_mono; [exact Hm|]. intros a l Hl. eapply wp_mono; [apply Hk|].
  intros b l' Hl'. by apply Forall_app.
Qed.

Lemma only_mono (P Q : Call -> Prop) {A} (m : M A) : (forall c, P c -> Q c) -> only P m -> only Q m.
Proof. intros HPQ Hm. eapply wp_mono; [exact Hm|]. intros a l Hl. by eapply Forall_impl; [exact Hl|]. Qed.

Create HintDb calls.
#[export] Hint Resolve only_ret only_ask only_bind : calls.

(** Goes through a program case by case. *)
Ltac only_tac :=
  repeat first [ done | simple apply only_ret | solve [eauto 3 with calls] | simple apply only_ask; done
               | simple apply only_bind; [|intros ?] | progress cbv zeta | case_match ].

(** What only reads leaves what was written alone. *)
Lemma writes_app (l h : list Call) : writes (l ++ h) = writes h ++ writes l.
Proof. unfold writes. by rewrite rev_app_distr, List.filter_app. Qed.

Lemma writes_reads (l : list Call) : Forall (fun c => reads_only c = true) l -> writes l = [].
Proof.
  intros Hl. unfold writes. apply filter_none, forallb_forall. intros c Hc. rewrite Forall_forall in Hl.
  apply in_rev, list_elem_of_In in Hc. by rewrite (Hl c Hc).
Qed.

Lemma writes_in (c : Call) (l : list Call) : c ∈ writes l -> c ∈ l.
Proof. unfold writes. rewrite !list_elem_of_In, filter_In, <- in_rev. tauto. Qed.

Lemma writes_forall (P : Call -> Prop) (l : list Call) :
  Forall (fun c => reads_only c = true \/ P c) l -> Forall P (writes l).
Proof.
  rewrite !Forall_forall. intros Hl c Hc. pose proof (writes_in _ _ Hc) as Hin. destruct (Hl c Hin) as [Hr|]; [|done].
  unfold writes in Hc. rewrite list_elem_of_In, filter_In, Hr in Hc. by destruct Hc.
Qed.

Section tools.
  Variable e : ExecutionContext.

Definition deletes (c : Call) : Prop := exists ops, c = ApplyFlowChanges ops.
Definition scenario_call (c : Call) : Prop :=
  match c with ListScenarios | ListProjectNodeCRs | CreateEmptyScenario _ | UpdateScenarioPort _ _ _ => True | _ => False end.

Lemma only_flowIssues : only (fun c => reads_only c = true) (flowIssues e).
Proof. unfold flowIssues. only_tac. Qed.

Lemma only_findNodeComponent (nodeID : string) : only (fun c => reads_only c = true) (findNodeComponent e nodeID).
Proof. unfold findNodeComponent. only_tac. Qed.

Lemma only_findEdgeTarget (edgeID : string) : only (fun c => reads_only c = true) (findEdgeTarget e edgeID).
Proof. unfold findEdgeTarget. only_tac. Qed.

Lemma only_unwireEdge (edgeID : string) : only deletes (unwireEdge e edgeID).
Proof. unfold unwireEdge. only_tac; apply only_ask; by eexists. Qed.

Lemma only_scaffold_scenario (sm : ScenarioService) (s : string) : only scenario_call (scaffold_scenario sm s).
Proof. unfold scaffold_scenario. only_tac. Qed.

Lemma only_write_ports (sm : ScenarioService) (resource : string) (ports : list (string * obj)) :
  only scenario_call (write_ports sm resource ports).
Proof. induction ports as [|[port mock] ports IH]; cbn [write_ports]; only_tac. Qed.
End tools.
#[export] Hint Resolve only_flowIssues only_findNodeComponent only_findEdgeTarget only_unwireEdge
  only_scaffold_scenario only_write_ports : calls.

Lemma only_scaffoldScenarios `{MapRange unit} `{MapRange obj} (e : ExecutionContext) (unmarshal : string -> option json)
    (createdNodes : gmap string string) (byAlias : gmap string ComponentInfo) (edges : list scaffoldEdge) :
  only scenario_call (scaffoldScenarios e unmarshal createdNodes byAlias edges).
Proof. unfold scaffoldScenarios. only_tac. Qed.

Lemma only_ScaffoldLiveScenarios `{MapRange unit} `{MapRange obj} `{MapRange TinyNode} (e : ExecutionContext)
    (unmarshal : string -> option json) :
  only scenario_call (ScaffoldLiveScenarios e unmarshal).
Proof. unfold ScaffoldLiveScenarios. only_tac. Qed.
#[export] Hint Resolve only_scaffoldScenarios only_ScaffoldLiveScenarios : calls.
