(* ===== verification/BuildFlow.v ===== *)
(** * Building a flow in one call

    [pkg/tools/build_flow.go], the whole of [Execute]: the specification is read
    and checked, missing schemas are derived, and then nodes are created, given
    their settings, wired, and the edges configured, in that order; what fails
    is reported and the rest goes on. Dead stores ([aliasToPortList]) are left
    out. *)
From S2P Require Import Prelude GoErrors Names Graph Json FlowIssues Authoring Tools.

Open Scope string_scope.
Open Scope list_scope.

(** ** The specification *)

Record nodeSpec := mkNodeSpec {
  ns_Alias : string;
  ns_Component : string;
  ns_Module : string;
  ns_Settings : option obj;
  ns_SettingsSchema : obj;
  ns_Position : option (Z * Z);
  ns_Label : string;
}.

Record edgeSpec := mkEdgeSpec {
  es_From : string;
  es_To : string;
  es_Configuration : option obj;
  es_Schema : obj;
  es_FromAlias : string;
  es_FromPort : string;
  es_ToAlias : string;
  es_ToPort : string;
}.

Definition parseAliasPort (s : string) : option (string * string) :=
  match go_splitn ":" 2 s with
  | [alias; port] => if (alias =? "") || (port =? "") then None else Some (alias, port)
  | _ => None
  end.

Definition at_index (what : string) (i : nat) : string := what +:+ "[" +:+ go_itoa (Z.of_nat i) +:+ "]".

Section build_flow.
  Context `{MapRange unit} `{MapRange obj}.
  Variable unmarshal : string -> option json.

Definition parse_node (i : nat) (aliases : list string) (raw : json) : result string nodeSpec :=
  match as_obj raw with
  | None => Err (at_index "nodes" i +:+ ": expected object")
  | Some m =>
      let alias := default "" (str_at m "alias") in
      let component := default "" (str_at m "component") in
      let module := default "" (str_at m "module") in
      if alias =? "" then Err (at_index "nodes" i +:+ ": alias is required")
      else if component =? "" then Err (at_index "nodes" i +:+ " (" +:+ alias +:+ "): component is required")
      else if module =? "" then Err (at_index "nodes" i +:+ " (" +:+ alias +:+ "): module is required")
      else if existsb (String.eqb alias) aliases then Err (at_index "nodes" i +:+ ": duplicate alias '" +:+ alias +:+ "'")
      else Ok (mkNodeSpec alias component module (map_at m "settings") (default [] (map_at m "settings_schema"))
                 (positionFrom unmarshal (fld m "position")) (default "" (str_at m "label")))
  end.

Fixpoint parse_nodes (i : nat) (aliases : list string) (raws : list json) : result string (list nodeSpec) :=
  match raws with
  | [] => Ok []
  | raw :: raws' =>
      rbind (parse_node i aliases raw) (fun n =>
      rbind (parse_nodes (S i) (ns_Alias n :: aliases) raws') (fun ns => Ok (n :: ns)))
  end.

Definition parse_edge (i : nat) (aliases : list string) (raw : json) : result string edgeSpec :=
  match as_obj raw with
  | None => Err (at_index "edges" i +:+ ": expected object")
  | Some m =>
      let from := default "" (str_at m "from") in
      let to := default "" (str_at m "to") in
      if (from =? "") || (to =? "") then Err (at_index "edges" i +:+ ": from and to are required")
      else
        match parseAliasPort from with
        | None => Err (at_index "edges" i +:+ ": invalid from format '" +:+ from +:+ "', expected 'alias:port'")
        | Some (fromAlias, fromPort) =>
            match parseAliasPort to with
            | None => Err (at_index "edges" i +:+ ": invalid to format '" +:+ to +:+ "', expected 'alias:port'")
            | Some (toAlias, toPort) =>
                if negb (existsb (String.eqb fromAlias) aliases) then
                  Err (at_index "edges" i +:+ ": unknown node alias '" +:+ fromAlias +:+ "' in from")
                else if negb (existsb (String.eqb toAlias) aliases) then
                  Err (at_index "edges" i +:+ ": unknown node alias '" +:+ toAlias +:+ "' in to")
                else Ok (mkEdgeSpec from to (map_at m "configuration") (default [] (map_at m "schema"))
                           fromAlias fromPort toAlias toPort)
            end
        end
  end.

Fixpoint parse_edges (i : nat) (aliases : list string) (raws : list json) : result string (list edgeSpec) :=
  match raws with
  | [] => Ok []
  | raw :: raws' =>
      rbind (parse_edge i aliases raw) (fun s => rbind (parse_edges (S i) aliases raws') (fun es => Ok (s :: es)))
  end.

(** ** Checks against the catalogue *)

Abbreviation Catalogue := (gmap string ComponentInfo).

Variable e : ExecutionContext.

(** The components of the nodes; each module is asked for once. *)
Fixpoint check_components (getModule : string -> Answer (option ModuleInfo)) (cache : gmap string ModuleInfo)
    (byAlias : Catalogue) (nodes : list nodeSpec) : M (result string Catalogue) :=
  match nodes with
  | [] => mret (Ok byAlias)
  | n :: nodes' =>
      info ← match cache !! ns_Module n with
             | Some info => mret (Ok info)
             | None =>
                 r ← ask (GetModule (ns_Module n)) (getModule (ns_Module n));
                 mret (match r with
                       | Err err => Err ("failed to lookup module '" +:+ ns_Module n +:+ "': " +:+ error_text err)
                       | Ok None => Err ("module '" +:+ ns_Module n +:+ "' not found. Check installed modules.")
                       | Ok (Some info) => Ok info
                       end)
             end;
      match info with
      | Err msg => mret (Err msg)
      | Ok info =>
          match last (List.filter (fun c => ci_Name c =? ns_Component n) (mi_Components info)) with
          | None => mret (Err ("component '" +:+ ns_Component n +:+ "' not found in module '" +:+ ns_Module n +:+
                               "'. Available: " +:+ show_names (map ci_Name (mi_Components info))))
          | Some c => check_components getModule (<[ns_Module n := info]> cache) (<[ns_Alias n := c]> byAlias) nodes'
          end
      end
  end.

Definition components (nodes : list nodeSpec) : M (result string Catalogue) :=
  match ModuleCatalog e with
  | None => mret (Ok ∅)
  | Some catalog => check_components (mc_GetModule catalog) ∅ ∅ nodes
  end.

(** ** Derived schemas *)

Definition is_filled (m : option obj) : bool := match m with Some (_ :: _) => true | _ => false end.

(** A node with the schemas of its settings, and what is wrong with them. *)
Definition derive_node (byAlias : Catalogue) (n : nodeSpec) : nodeSpec * list string :=
  match byAlias !! ns_Alias n, ns_Settings n with
  | Some comp, Some ((_ :: _) as settings) =>
      let bytes := portSchemaBytes (Some comp) "_settings" true in
      let filled := fillMissingSchemas settings (ns_SettingsSchema n) (configurableFieldsIn unmarshal bytes) None in
      let u := unknownSettings unmarshal (ns_Alias n) settings bytes in
      (mkNodeSpec (ns_Alias n) (ns_Component n) (ns_Module n) (ns_Settings n) filled (ns_Position n) (ns_Label n),
       if u =? "" then [] else [u])
  | _, _ => (n, [])
  end.

Definition settings_of (nodes : list nodeSpec) (alias : string) : option obj :=
  match List.find (fun n => ns_Alias n =? alias) nodes with Some n => ns_Settings n | None => None end.

Definition derive_edge (byAlias : Catalogue) (nodes : list nodeSpec) (s : edgeSpec) : edgeSpec :=
  match byAlias !! es_ToAlias s, es_Configuration s with
  | Some target, Some ((_ :: _) as config) =>
      let configurable := configurableFieldsIn unmarshal (portSchemaBytes (Some target) (es_ToPort s) true) in
      let resolve := exampleResolver unmarshal (portSchemaBytes (byAlias !! es_FromAlias s) (es_FromPort s) false)
                       (settings_of nodes (es_FromAlias s)) in
      mkEdgeSpec (es_From s) (es_To s) (es_Configuration s) (fillMissingSchemas config (es_Schema s) configurable (Some resolve))
        (es_FromAlias s) (es_FromPort s) (es_ToAlias s) (es_ToPort s)
  | _, _ => s
  end.

(** ** What is built *)

Record nodeCreated := mkNodeCreated {
  nc_alias : string;
  nc_node_id : string;
  nc_ports : list string;
  nc_settings_valid : option bool;
}.

(** An edge made, with what the response says of it. *)
Record edgeCreated := mkEdgeCreated {
  ec_spec : edgeSpec;
  ec_edge_id : string;
  ec_config_valid : option bool;
  ec_verified : option bool;
  ec_hint : string;
  ec_removed : bool;
}.

Record Build := mkBuild {
  b_nodeIDs : gmap string string;
  b_nodes : list nodeCreated;
  b_edges : list edgeCreated;
  b_errors : list string;
  b_warnings : list string;
}.

Definition failed (msg : string) (b : Build) : Build :=
  mkBuild (b_nodeIDs b) (b_nodes b) (b_edges b) (b_errors b ++ [msg]) (b_warnings b).
Definition warned (msgs : list string) (b : Build) : Build :=
  mkBuild (b_nodeIDs b) (b_nodes b) (b_edges b) (b_errors b) (b_warnings b ++ msgs).

Definition created (n : nodeSpec) (r : AddNodeResult) (b : Build) : Build :=
  mkBuild (<[ns_Alias n := an_NodeID r]> (b_nodeIDs b))
    (b_nodes b ++ [mkNodeCreated (ns_Alias n) (an_NodeID r) (an_Ports r) None]) (b_edges b) (b_errors b) (b_warnings b).

(** *** Nodes *)

Definition label_node (n : nodeSpec) (nodeID : string) : M (list string) :=
  match NodeLabeler e with
  | None => mret []
  | Some label =>
      if ns_Label n =? "" then mret []
      else r ← ask (LabelNode nodeID (ns_Label n)) (label nodeID (ns_Label n));
           mret (match r with
                 | Ok _ => []
                 | Err err => ["node '" +:+ ns_Alias n +:+ "' was created but could not be named: " +:+ error_text err]
                 end)
  end.

Definition place_node (n : nodeSpec) (nodeID : string) : M (list string) :=
  match NodeRepositioner e, ns_Position n with
  | Some move, Some (x, y) =>
      r ← ask (RepositionNode nodeID x y) (move nodeID x y);
      mret (match r with
            | Ok _ => []
            | Err err => ["node '" +:+ ns_Alias n +:+ "' was created but could not be moved to the position you gave: " +:+
                          error_text err]
            end)
  | _, _ => mret []
  end.

Fixpoint create_nodes (add : string -> string -> Answer AddNodeResult) (nodes : list nodeSpec) (b : Build) : M Build :=
  match nodes with
  | [] => mret b
  | n :: nodes' =>
      cancelled ← ctx_err e;
      if (cancelled : bool) then mret (failed ("cancelled during node creation (" +:+ ns_Alias n +:+ ")") b)
      else
        r ← ask (AddNode (ns_Component n) (ns_Module n)) (add (ns_Component n) (ns_Module n));
        match r with
        | Err err => create_nodes add nodes' (failed ("node '" +:+ ns_Alias n +:+ "': " +:+ error_text err) b)
        | Ok r =>
            w1 ← label_node n (an_NodeID r);
            w2 ← place_node n (an_NodeID r);
            create_nodes add nodes' (created n r (warned (w1 ++ w2) b))
        end
  end.

(** *** Settings *)

Definition with_hint (msg hint : string) : string := if hint =? "" then msg else msg +:+ " (hint: " +:+ hint +:+ ")".

(** The first entry of the alias. *)
Fixpoint mark_settings (alias : string) (r : ConfigureResult) (l : list nodeCreated) : list nodeCreated :=
  match l with
  | [] => []
  | nc :: l' =>
      if nc_alias nc =? alias then
        mkNodeCreated (nc_alias nc) (nc_node_id nc) (match cr_Ports r with [] => nc_ports nc | ports => ports end)
          (Some (cr_Valid r)) :: l'
      else nc :: mark_settings alias r l'
  end.

Definition settings_applied (alias : string) (r : ConfigureResult) (b : Build) : Build :=
  mkBuild (b_nodeIDs b) (mark_settings alias r (b_nodes b)) (b_edges b) (b_errors b) (b_warnings b).

Fixpoint configure_nodes (nodes : list nodeSpec) (b : Build) : M Build :=
  match nodes with
  | [] => mret b
  | n :: nodes' =>
      match ns_Settings n, b_nodeIDs b !! ns_Alias n with
      | Some settings, Some nodeID =>
          cancelled ← ctx_err e;
          if (cancelled : bool) then mret (failed ("cancelled during settings (" +:+ ns_Alias n +:+ ")") b)
          else
            match NodeSettingsConfigurer e with
            | None =>
                configure_nodes nodes'
                  (warned ["node '" +:+ ns_Alias n +:+ "': settings configurer not available, skipping settings"] b)
            | Some configure =>
                r ← ask (ConfigureNodeSettings nodeID settings (ns_SettingsSchema n))
                      (configure nodeID settings (ns_SettingsSchema n));
                match r with
                | Err err =>
                    configure_nodes nodes' (warned ["node '" +:+ ns_Alias n +:+ "' settings: " +:+ error_text err] b)
                | Ok r =>
                    let msg := with_hint ("node '" +:+ ns_Alias n +:+ "' settings rejected: " +:+ cr_Error r) (cr_Hint r) in
                    configure_nodes nodes' (settings_applied (ns_Alias n) r (if cr_Valid r then b else warned [msg] b))
                end
            end
      | _, _ => configure_nodes nodes' b
      end
  end.

(** *** Edges *)

Definition edge_name (s : edgeSpec) : string := "edge " +:+ es_From s +:+ " -> " +:+ es_To s.

Definition wired (s : edgeSpec) (edgeID : string) (b : Build) : Build :=
  mkBuild (b_nodeIDs b) (b_nodes b) (b_edges b ++ [mkEdgeCreated s edgeID None None "" false]) (b_errors b) (b_warnings b).

Fixpoint create_edges (add : string -> string -> string -> string -> Answer AddEdgeResult) (edges : list edgeSpec)
    (b : Build) : M Build :=
  match edges with
  | [] => mret b
  | s :: edges' =>
      match b_nodeIDs b !! es_FromAlias s, b_nodeIDs b !! es_ToAlias s with
      | Some fromID, Some toID =>
          cancelled ← ctx_err e;
          if (cancelled : bool) then
            mret (failed ("cancelled during edge creation (" +:+ es_From s +:+ " -> " +:+ es_To s +:+ ")") b)
          else
            r ← ask (AddEdge fromID (es_FromPort s) toID (es_ToPort s)) (add fromID (es_FromPort s) toID (es_ToPort s));
            match r with
            | Err err => create_edges add edges' (failed (edge_name s +:+ ": " +:+ error_text err) b)
            | Ok r => create_edges add edges' (wired s (ae_EdgeID r) b)
            end
      | _, _ => create_edges add edges' (failed (edge_name s +:+ ": skipped, source or target node was not created") b)
      end
  end.

(** *** Configurations *)

(** An edge whose configuration was not taken. *)
Definition rejected_edge (ce : edgeCreated) (verified : option bool) (removed : bool) : edgeCreated :=
  mkEdgeCreated (ec_spec ce) (ec_edge_id ce) (Some false) verified "" removed.

Definition accepted_edge (ce : edgeCreated) (hint : string) : edgeCreated :=
  mkEdgeCreated (ec_spec ce) (ec_edge_id ce) (Some true) (Some (hint =? "")) hint false.

(** One edge: how it is left, and what is said of it. *)
Definition configure_edge (configure : string -> obj -> obj -> string -> Answer ConfigureResult) (ce : edgeCreated)
    (config : obj) : M (edgeCreated * list string * list string) :=
  let s := ec_spec ce in
  r ← ask (ConfigureEdge (ec_edge_id ce) config (es_Schema s) "") (configure (ec_edge_id ce) config (es_Schema s) "");
  match r with
  | Err err =>
      let msg := edge_name s +:+ " config: " +:+ error_text err in
      note ← unwireEdge e (ec_edge_id ce);
      mret (rejected_edge ce None (note =? ""), [if note =? "" then msg else msg +:+ " (" +:+ note +:+ ")"], [])
  | Ok r =>
      if cr_Valid r then
        mret (accepted_edge ce (cr_Hint r), [],
              if cr_Hint r =? "" then [] else [edge_name s +:+ ": " +:+ cr_Hint r])
      else
        let msg := with_hint (edge_name s +:+ " validation: " +:+ cr_Error r) (cr_Hint r) in
        note ← unwireEdge e (ec_edge_id ce);
        mret (rejected_edge ce (Some false) (note =? ""),
              [if note =? "" then msg +:+ " — edge removed; re-send it with a corrected configuration"
               else msg +:+ " (" +:+ note +:+ ")"], [])
  end.

(** The edges as they are left, the errors and the warnings. *)
Fixpoint configure_edges (edges : list edgeCreated) : M (list edgeCreated * list string * list string) :=
  match edges with
  | [] => mret ([], [], [])
  | ce :: edges' =>
      let s := ec_spec ce in
      match es_Configuration s with
      | None => rest ← configure_edges edges'; mret (ce :: rest.1.1, rest.1.2, rest.2)
      | Some config =>
          cancelled ← ctx_err e;
          if (cancelled : bool) then
            mret (ce :: edges', ["cancelled during edge config (" +:+ es_From s +:+ " -> " +:+ es_To s +:+ ")"], [])
          else
            match EdgeConfigurer e with
            | None =>
                rest ← configure_edges edges';
                mret (ce :: rest.1.1, rest.1.2,
                      (edge_name s +:+ ": edge configurer not available, skipping configuration") :: rest.2)
            | Some configure =>
                one ← configure_edge configure ce config;
                rest ← configure_edges edges';
                mret (one.1.1 :: rest.1.1, one.1.2 ++ rest.1.2, one.2 ++ rest.2)
            end
      end
  end.

Definition configured (out : list edgeCreated * list string * list string) (b : Build) : Build :=
  mkBuild (b_nodeIDs b) (b_nodes b) out.1.1 (b_errors b ++ out.1.2) (b_warnings b ++ out.2).

(** ** The response *)

Record BuildOutput := mkBuildOutput {
  bo_nodes_created : list nodeCreated;
  bo_edges_created : list edgeCreated;
  bo_errors : list string;
  bo_warnings : list string;
  bo_hint : string;
}.

Definition hint_of (errors warnings : list string) : string :=
  match errors, warnings with
  | _ :: _, _ => "Some operations failed — use edit_flow to fix the specific issues listed in errors[]."
  | [], _ :: _ =>
      "Flow built, but " +:+ go_itoa (Z.of_nat (length warnings)) +:+
      " warning(s) in warnings[] — each is an edge whose expression the validator can't verify. Resolve them before relying on the flow: add a `schema` hint to the edge when it navigates into a generic/any-typed value (e.g. $.context.foo), or a scenario (sample port data) when a typed field has no sample. Then send_signal to verify runtime."
  | [], [] =>
      "Flow built. Find the trigger node in nodes_created and call send_signal(node_id) to verify behavior, then get_trace_detail(trace_id) to inspect the result."
  end.

Definition response (b : Build) : ToolResult BuildOutput :=
  match b_nodes b with
  | [] => mkToolResult false (Some (mkBuildOutput [] (b_edges b) (b_errors b) (b_warnings b) ""))
            ("no nodes were created. Errors: " +:+ go_join "; " (b_errors b))
  | _ => mkToolResult true (Some (mkBuildOutput (b_nodes b) (b_edges b) (b_errors b) (b_warnings b)
                                    (hint_of (b_errors b) (b_warnings b)))) ""
  end.

Definition scaffold_edges (byAlias : Catalogue) (nodes : list nodeSpec) (edges : list edgeSpec) : list scaffoldEdge :=
  map (fun s => mkScaffoldEdge (es_FromAlias s) (es_FromPort s) (default [] (es_Configuration s))
                  (default [] (settings_of nodes (es_ToAlias s)))
                  (portSchemaBytes (byAlias !! es_ToAlias s) (es_ToPort s) true)) edges.

Definition create_flow : M unit :=
  match FlowCreator e with
  | None => mret tt
  | Some create => if FlowName e =? "" then mret tt
                   else _ ← ask (CreateFlow (FlowName e)) (create (FlowName e)); mret tt
  end.

(** Everything that writes, on a specification that was accepted. *)
Definition build (addNode : string -> string -> Answer AddNodeResult)
    (addEdge : string -> string -> string -> string -> Answer AddEdgeResult) (byAlias : Catalogue)
    (nodes : list nodeSpec) (edges : list edgeSpec) : M Build :=
  _ ← create_flow;
  b ← create_nodes addNode nodes (mkBuild ∅ [] [] [] []);
  b ← configure_nodes nodes b;
  b ← create_edges addEdge edges b;
  scaffolded ← scaffoldScenarios e unmarshal (b_nodeIDs b) byAlias (scaffold_edges byAlias nodes edges);
  out ← configure_edges (b_edges b);
  issues ← flowIssues e;
  mret (warned issues (configured out (warned scaffolded b))).

Definition issues_error (issues : list string) : string :=
  "build_flow found " +:+ go_itoa (Z.of_nat (length issues)) +:+ " issue(s) — fix all of these, then resend the whole call:
- " +:+ go_join "
- " issues.

Definition Execute (input : obj) : M (ToolResult BuildOutput) :=
  match NodeAdder e, EdgeAdder e with
  | None, _ => mret (refused "node adder not configured")
  | _, None => mret (refused "edge adder not configured")
  | Some addNode, Some addEdge =>
      match default [] (obj_get "nodes" input ≫= as_arr) with
      | [] => mret (refused "at least one node is required")
      | nodesRaw =>
          match parse_nodes 0 [] nodesRaw with
          | Err msg => mret (refused msg)
          | Ok nodes =>
              match parse_edges 0 (map ns_Alias nodes) (default [] (obj_get "edges" input ≫= as_arr)) with
              | Err msg => mret (refused msg)
              | Ok edges =>
                  byAlias ← components nodes;
                  match byAlias with
                  | Err msg => mret (refused msg)
                  | Ok byAlias =>
                      let derived := map (derive_node byAlias) nodes in
                      let nodes := map fst derived in
                      match flat_map snd derived with
                      | (_ :: _) as issues => mret (refused (issues_error issues))
                      | [] =>
                          b ← build addNode addEdge byAlias nodes (map (derive_edge byAlias nodes) edges);
                          mret (response b)
                      end
                  end
              end
          end
      end
  end.
End build_flow.
