(* ===== verification/BuildFlowSpec.v ===== *)
(** * What a build does and what its response means

    Theorems about [BuildFlow]: a build that is refused writes nothing, one that
    is not writes in phases; a response without errors means that everything
    asked for is there; an edge whose configuration was rejected does not stay
    behind unreported. *)
From S2P Require Import Prelude GoErrors Names Graph Json FlowIssues Authoring Tools ToolsSpec BuildFlow.

Open Scope string_scope.
Open Scope list_scope.

(** ** The phases of a build *)

Definition flow_call (c : Call) : Prop := match c with CreateFlow _ => True | _ => False end.
Definition node_call (c : Call) : Prop :=
  match c with AddNode _ _ | LabelNode _ _ | RepositionNode _ _ _ => True | _ => False end.
Definition settings_call (c : Call) : Prop := match c with ConfigureNodeSettings _ _ _ => True | _ => False end.
Definition edge_call (c : Call) : Prop := match c with AddEdge _ _ _ _ => True | _ => False end.
Definition config_call (c : Call) : Prop :=
  match c with ConfigureEdge _ _ _ _ | ApplyFlowChanges _ => True | _ => False end.

Definition in_phases (l : list Call) : Prop :=
  exists flow nodes settings edges samples configs,
    l = flow ++ nodes ++ settings ++ edges ++ samples ++ configs /\
    Forall flow_call flow /\ Forall node_call nodes /\ Forall settings_call settings /\ Forall edge_call edges /\
    Forall scenario_call samples /\ Forall config_call configs.

(** Reading is allowed everywhere. *)
Definition or_reads (P : Call -> Prop) (c : Call) : Prop := reads_only c = true \/ P c.

Ltac calls_tac := repeat first [ solve [only_tac] | simple apply only_ask; by (left + right) | only_tac ].

Section build.
  Context `{MapRange unit} `{MapRange obj}.
  Variable unmarshal : string -> option json.
  Variable e : ExecutionContext.

Lemma only_ctx_err (P : Call -> Prop) : only (or_reads P) (ctx_err e).
Proof. apply only_ask. by left. Qed.
#[local] Hint Resolve only_ctx_err : calls.

Lemma only_reads (P : Call -> Prop) {A} (m : M A) : only (fun c => reads_only c = true) m -> only (or_reads P) m.
Proof. apply only_mono. by left. Qed.

Lemma only_check_components (getModule : string -> Answer (option ModuleInfo)) (nodes : list nodeSpec) (cache : gmap string ModuleInfo)
    (byAlias : gmap string ComponentInfo) :
  only (fun c => reads_only c = true) (check_components getModule cache byAlias nodes).
Proof. revert cache byAlias. induction nodes as [|n nodes IH]; intros cache byAlias; cbn [check_components]; only_tac. Qed.

Lemma only_components (nodes : list nodeSpec) : only (fun c => reads_only c = true) (components e nodes).
Proof. unfold components. destruct (ModuleCatalog e); [apply only_check_components|apply only_ret]. Qed.

Lemma only_create_flow : only (or_reads flow_call) (create_flow e).
Proof. unfold create_flow. only_tac; apply only_ask; by right. Qed.

Lemma only_label_node (n : nodeSpec) (nodeID : string) : only (or_reads node_call) (label_node e n nodeID).
Proof. unfold label_node. only_tac; apply only_ask; by right. Qed.

Lemma only_place_node (n : nodeSpec) (nodeID : string) : only (or_reads node_call) (place_node e n nodeID).
Proof. unfold place_node. only_tac; apply only_ask; by right. Qed.
#[local] Hint Resolve only_label_node only_place_node : calls.

Lemma only_create_nodes (add : string -> string -> Answer AddNodeResult) (nodes : list nodeSpec) (b : Build) :
  only (or_reads node_call) (create_nodes e add nodes b).
Proof. revert b. induction nodes as [|n nodes IH]; intros b; cbn [create_nodes]; only_tac; apply only_ask; by right. Qed.

Lemma only_configure_nodes (nodes : list nodeSpec) (b : Build) : only (or_reads settings_call) (configure_nodes e nodes b).
Proof. revert b. induction nodes as [|n nodes IH]; intros b; cbn [configure_nodes]; only_tac; apply only_ask; by right. Qed.

Lemma only_create_edges (add : string -> string -> string -> string -> Answer AddEdgeResult) (edges : list edgeSpec) (b : Build) :
  only (or_reads edge_call) (create_edges e add edges b).
Proof. revert b. induction edges as [|s edges IH]; intros b; cbn [create_edges]; only_tac; apply only_ask; by right. Qed.

Lemma only_unwire (edgeID : string) : only (or_reads config_call) (unwireEdge e edgeID).
Proof. eapply only_mono; [|apply only_unwireEdge]. intros c [ops ->]. by right. Qed.
#[local] Hint Resolve only_unwire : calls.

Lemma only_configure_edges (edges : list edgeCreated) : only (or_reads config_call) (configure_edges e edges).
Proof.
  induction edges as [|ce edges IH]; cbn [configure_edges]; unfold configure_edge; only_tac; apply only_ask; by right.
Qed.

Lemma build_phases addNode addEdge byAlias nodes edges :
  wp (build unmarshal e addNode addEdge byAlias nodes edges) (fun _ l => in_phases (writes l)).
Proof.
  unfold build.
  apply wp_bind. eapply wp_mono; [apply only_create_flow|]. intros [] l0 Hc0.
  apply wp_bind. eapply wp_mono; [apply only_create_nodes|]. intros b1 l1 Hc1.
  apply wp_bind. eapply wp_mono; [apply only_configure_nodes|]. intros b2 l2 Hc2.
  apply wp_bind. eapply wp_mono; [apply only_create_edges|]. intros b3 l3 Hc3.
  apply wp_bind. eapply wp_mono; [apply only_scaffoldScenarios|]. intros w l4 Hc4.
  apply wp_bind. eapply wp_mono; [apply only_configure_edges|]. intros out l5 Hc5.
  apply wp_bind. eapply wp_mono; [apply only_flowIssues|]. intros issues l6 Hc6.
  apply wp_ret. cbn [app]. rewrite !writes_app, (writes_reads _ Hc6), app_nil_r.
  exists (writes l0), (writes l1), (writes l2), (writes l3), (writes l4), (writes l5).
  split; [done|]. repeat split; apply writes_forall; try done.
  eapply Forall_impl; [exact Hc4|]. by right.
Qed.


(** ** A response without errors *)

Lemma create_nodes_complete (add : string -> string -> Answer AddNodeResult) (nodes : list nodeSpec) (b : Build) :
  wp (create_nodes e add nodes b) (fun b' _ =>
    b_edges b' = b_edges b /\ (b_warnings b' = [] -> b_warnings b = []) /\
    (b_errors b' = [] ->
       b_errors b = [] /\ map nc_alias (b_nodes b') = map nc_alias (b_nodes b) ++ map ns_Alias nodes /\
       forall a, is_Some (b_nodeIDs b !! a) \/ a ∈ map ns_Alias nodes -> is_Some (b_nodeIDs b' !! a))).
Proof.
  revert b. induction nodes as [|n nodes IH]; intros b; cbn [create_nodes].
  - apply wp_ret. do 2 (split; [done|]). intros Hb. split; [done|]. rewrite app_nil_r. split; [done|].
    by intros a [?|?%not_elem_of_nil].
  - apply wp_ask_then. intros [].
    { apply wp_ret. split; [done|]. split; [done|]. cbn. by intros [_ ?]%app_nil. }
    apply wp_ask_then. intros [r|err].
    2:{ eapply wp_mono; [apply IH|]. intros b' _ (He & Hw & Hrest). split; [exact He|]. split; [exact Hw|].
        intros Hb. destruct (Hrest Hb) as [Hb1 _]. by apply app_nil in Hb1 as [_ ?]. }
    apply wp_bind. eapply wp_mono; [apply only_label_node|]. intros w1 l1 _.
    apply wp_bind. eapply wp_mono; [apply only_place_node|]. intros w2 l2 _.
    eapply wp_mono; [apply IH|]. intros b' _ (He & Hw & Hrest). split; [exact He|]. split; [by intros [? _]%Hw%app_nil|].
    intros Hb. destruct (Hrest Hb) as (Hb1 & Hn & Hids). split; [exact Hb1|].
    split; [rewrite Hn; cbn; by rewrite map_app, <- (assoc_L (++))|].
    intros a Ha. apply Hids. cbn [created b_nodeIDs]. cbn [map] in Ha. rewrite elem_of_cons in Ha.
    destruct (decide (ns_Alias n = a)) as [->|Hne]; [left; rewrite lookup_insert_eq; by eexists|].
    rewrite lookup_insert_ne by done. naive_solver.
Qed.

(** What is recorded of the settings of an alias. *)
Definition settings_state (alias : string) (l : list nodeCreated) : option bool :=
  List.find (fun nc => nc_alias nc =? alias) l ≫= nc_settings_valid.

Lemma mark_settings_aliases (alias : string) (r : ConfigureResult) (l : list nodeCreated) :
  map nc_alias (mark_settings alias r l) = map nc_alias l.
Proof. induction l as [|nc l IH]; [done|]. cbn. destruct (nc_alias nc =? alias); cbn; [done|by rewrite IH]. Qed.

Lemma mark_settings_state (alias a : string) (r : ConfigureResult) (l : list nodeCreated) :
  settings_state a (mark_settings alias r l) =
    if (alias =? a) && existsb (String.eqb a) (map nc_alias l) then Some (cr_Valid r) else settings_state a l.
Proof.
  unfold settings_state. induction l as [|nc l IH]; [by rewrite andb_false_r|]. cbn [mark_settings map existsb].
  destruct (String.eqb_spec (nc_alias nc) alias) as [<-|Hne]; cbn [List.find nc_alias].
  - rewrite (String.eqb_sym a). by destruct (String.eqb_spec (nc_alias nc) a) as [<-|].
  - destruct (String.eqb_spec (nc_alias nc) a) as [<-|Hne2].
    + by destruct (String.eqb_spec alias (nc_alias nc)) as [->|].
    + rewrite IH. by destruct (String.eqb_spec a (nc_alias nc)) as [->|].
Qed.

Lemma configure_nodes_complete (nodes : list nodeSpec) (b : Build) :
  wp (configure_nodes e nodes b) (fun b' _ =>
    b_edges b' = b_edges b /\ b_nodeIDs b' = b_nodeIDs b /\ map nc_alias (b_nodes b') = map nc_alias (b_nodes b) /\
    (b_errors b' = [] -> b_errors b = []) /\
    (b_warnings b' = [] -> b_warnings b = [] /\
       (forall a, settings_state a (b_nodes b) = Some true -> settings_state a (b_nodes b') = Some true) /\
       (b_errors b' = [] -> forall n, n ∈ nodes -> is_Some (ns_Settings n) -> is_Some (b_nodeIDs b !! ns_Alias n) ->
          ns_Alias n ∈ map nc_alias (b_nodes b) -> settings_state (ns_Alias n) (b_nodes b') = Some true))).
Proof.
  revert b. induction nodes as [|n nodes IH]; intros b; cbn [configure_nodes].
  { apply wp_ret. repeat (split; [done|]). intros _ n ?%not_elem_of_nil. done. }
  destruct (ns_Settings n) as [settings|] eqn:Es.
  2:{ eapply wp_mono; [apply IH|]. intros b' _ (H1 & H2 & H3 & H4 & H5). do 4 (split; [done|]).
      intros Hw. destruct (H5 Hw) as (Hw' & Hk & Hn). split; [done|]. split; [done|].
      intros He n' [->|Hin]%elem_of_cons; [rewrite Es; by intros []|by apply Hn]. }
  destruct (b_nodeIDs b !! ns_Alias n) as [nodeID|] eqn:Eid.
  2:{ eapply wp_mono; [apply IH|]. intros b' _ (H1 & H2 & H3 & H4 & H5). do 4 (split; [done|]).
      intros Hw. destruct (H5 Hw) as (Hw' & Hk & Hn). split; [done|]. split; [done|].
      intros He n' [->|Hin]%elem_of_cons; [rewrite Eid; by intros _ []|by apply Hn]. }
  apply wp_ask_then. intros [].
  { apply wp_ret. do 3 (split; [done|]). split; [by intros [_ ?]%app_nil|]. intros Hw. split; [done|]. split; [done|].
    by intros [_ ?]%app_nil. }
  destruct (NodeSettingsConfigurer e) as [configure|].
  2:{ eapply wp_mono; [apply IH|]. intros b' _ (H1 & H2 & H3 & H4 & H5). do 4 (split; [done|]).
      intros Hw. by destruct (H5 Hw) as [[_ ?]%app_nil _]. }
  apply wp_ask_then. intros [r|err].
  2:{ eapply wp_mono; [apply IH|]. intros b' _ (H1 & H2 & H3 & H4 & H5). do 4 (split; [done|]).
      intros Hw. by destruct (H5 Hw) as [[_ ?]%app_nil _]. }
  cbv zeta. eapply wp_mono; [apply IH|]. intros b' _ (H1 & H2 & H3 & H4 & H5).
  destruct (cr_Valid r) eqn:Er.
  2:{ do 2 (split; [done|]). split; [rewrite H3; apply mark_settings_aliases|]. split; [exact H4|].
      intros Hw. by destruct (H5 Hw) as [[_ ?]%app_nil _]. }
  do 2 (split; [done|]). split; [rewrite H3; apply mark_settings_aliases|]. split; [exact H4|].
  intros Hw. destruct (H5 Hw) as (Hw' & Hk & Hn). split; [exact Hw'|].
  cbn [settings_applied b_nodes b_nodeIDs] in Hk, Hn. split.
  - intros a Ha. apply Hk. rewrite mark_settings_state, Er. by destruct ((ns_Alias n =? a) && _).
  - intros He n' [->|Hin]%elem_of_cons Hs Hid Hal.
    + apply Hk. rewrite mark_settings_state, String.eqb_refl, Er. cbn [andb].
      assert (existsb (String.eqb (ns_Alias n)) (map nc_alias (b_nodes b)) = true) as ->; [|done].
      apply existsb_exists. exists (ns_Alias n). split; [by apply list_elem_of_In|by apply String.eqb_refl].
    + apply Hn; try done. by rewrite mark_settings_aliases.
Qed.

(** An edge that nothing was said of yet. *)
Definition fresh_edge (ce : edgeCreated) : Prop := ec_config_valid ce = None.

Lemma create_edges_complete (add : string -> string -> string -> string -> Answer AddEdgeResult) (edges : list edgeSpec)
    (b : Build) :
  wp (create_edges e add edges b) (fun b' _ =>
    b_nodes b' = b_nodes b /\ (Forall fresh_edge (b_edges b) -> Forall fresh_edge (b_edges b')) /\
    (b_warnings b' = b_warnings b) /\
    (b_errors b' = [] -> b_errors b = [] /\ map ec_spec (b_edges b') = map ec_spec (b_edges b) ++ edges)).
Proof.
  revert b. induction edges as [|s edges IH]; intros b; cbn [create_edges].
  { apply wp_ret. do 3 (split; [done|]). by rewrite app_nil_r. }
  assert (Hfail : forall msg, wp (create_edges e add edges (failed msg b)) (fun b' _ =>
    b_nodes b' = b_nodes b /\ (Forall fresh_edge (b_edges b) -> Forall fresh_edge (b_edges b')) /\
    (b_warnings b' = b_warnings b) /\
    (b_errors b' = [] -> b_errors b = [] /\ map ec_spec (b_edges b') = map ec_spec (b_edges b) ++ s :: edges))).
  { intros msg. eapply wp_mono; [apply IH|]. intros b' _ (H1 & H2 & H3 & H4). do 3 (split; [done|]).
    intros Hb. by destruct (H4 Hb) as [[_ ?]%app_nil _]. }
  destruct (b_nodeIDs b !! es_FromAlias s) as [fromID|]; [|apply Hfail].
  destruct (b_nodeIDs b !! es_ToAlias s) as [toID|]; [|apply Hfail].
  apply wp_ask_then. intros [].
  { apply wp_ret. do 3 (split; [done|]). by intros [_ ?]%app_nil. }
  apply wp_ask_then. intros [r|err].
  2:{ eapply wp_mono; [apply Hfail|]. intros b' l HQ. exact HQ. }
  eapply wp_mono; [apply IH|]. intros b' _ (H1 & H2 & H3 & H4). split; [done|]. split.
  { intros Hf. apply H2. apply Forall_app. split; [done|]. by repeat constructor. }
  split; [done|]. intros Hb. destruct (H4 Hb) as [Hb1 Hs]. split; [done|]. rewrite Hs. cbn [wired b_edges].
  by rewrite map_app, <- (assoc_L (++)).
Qed.

Definition mentions (msg sub : string) : Prop := exists a b, msg = a +:+ sub +:+ b.
Definition left_wired_note : string := "edge left wired WITHOUT configuration".

Lemma unwire_outcome (edgeID : string) :
  wp (unwireEdge e edgeID) (fun note l =>
    (note = "" /\ ApplyFlowChanges (delete_op edgeID "tinyEdge") ∈ l) \/ (note <> "" /\ mentions note left_wired_note)).
Proof.
  assert (Hleft : forall why, left_wired why <> "" /\ mentions (left_wired why) left_wired_note).
  { intros why. split; [done|]. exists "", (" — " +:+ why). reflexivity. }
  unfold unwireEdge. destruct (FlowModifier e) as [apply|]; [|apply wp_ret; right; apply Hleft].
  cbv zeta. apply wp_ask_then. intros [[|r rs]|err]; apply wp_ret; cbn [app].
  - left. split; [done|by left].
  - destruct (or_Success r); [left; split; [done|by left]|right; apply Hleft].
  - right. apply Hleft.
Qed.

(** How a configured edge ends: reported as taken, or rejected and either
    deleted or reported as still wired; or nothing is said of it, because the
    call was cancelled or nothing can configure edges. *)
Definition edge_outcome (errors warnings : list string) (l : list Call) (ce : edgeCreated) : Prop :=
  match es_Configuration (ec_spec ce), ec_config_valid ce with
  | None, v => v = None
  | Some _, None => errors <> [] \/ EdgeConfigurer e = None /\ warnings <> []
  | Some _, Some true => ec_verified ce = Some true \/ warnings <> []
  | Some _, Some false =>
      errors <> [] /\
      if ec_removed ce then ApplyFlowChanges (delete_op (ec_edge_id ce) "tinyEdge") ∈ l
      else exists msg, msg ∈ errors /\ mentions msg left_wired_note
  end.

Lemma edge_outcome_mono (es es' ws ws' : list string) (l l' : list Call) (ce : edgeCreated) :
  es ⊆ es' -> ws ⊆ ws' -> l ⊆ l' -> edge_outcome es ws l ce -> edge_outcome es' ws' l' ce.
Proof.
  assert (Hne : forall a b : list string, a ⊆ b -> a <> [] -> b <> []).
  { intros a b Hab Ha ->. destruct a as [|x a]; [done|]. by apply (not_elem_of_nil x), Hab; left. }
  intros He Hw Hl. unfold edge_outcome. destruct (es_Configuration _); [|done].
  destruct (ec_config_valid ce) as [[]|]; [naive_solver| |naive_solver].
  intros [H1 H2]. split; [by eapply Hne|]. destruct (ec_removed ce); [by apply Hl|]. destruct H2 as (msg & Hm & H2).
  exists msg. split; [by apply He|done].
Qed.

Lemma mentions_within (msg sub a b : string) : mentions msg sub -> mentions (a +:+ msg +:+ b) sub.
Proof. intros (x & y & ->). exists (a +:+ x), (y +:+ b). by rewrite !str_app_assoc. Qed.

Lemma mentions_in_parens (msg note sub : string) : mentions note sub -> mentions (msg +:+ " (" +:+ note +:+ ")") sub.
Proof. intros Hm. rewrite <- (str_app_assoc msg " ("). by apply mentions_within. Qed.

Lemma configure_edge_outcome configure (ce : edgeCreated) (config : obj) :
  es_Configuration (ec_spec ce) = Some config ->
  wp (configure_edge e configure ce config) (fun out l =>
    ec_spec out.1.1 = ec_spec ce /\ edge_outcome out.1.2 out.2 l out.1.1).
Proof.
  intros Hc. unfold configure_edge. cbv zeta. apply wp_ask_then. intros [r|err].
  - destruct (cr_Valid r).
    + apply wp_ret. split; [done|]. unfold edge_outcome. cbn. rewrite Hc.
      destruct (String.eqb_spec (cr_Hint r) ""); [by left|by right].
    + apply wp_bind. eapply wp_mono; [apply unwire_outcome|]. intros note l Hnote. apply wp_ret. split; [done|].
      unfold edge_outcome. cbn. rewrite Hc. split; [done|]. destruct Hnote as [[-> Hin]|[Hne Hm]].
      * cbn. apply elem_of_app. by left.
      * destruct (String.eqb_spec note "") as [|_]; [done|]. eexists. split; [by left|].
        exact (mentions_in_parens _ _ _ Hm).
  - apply wp_bind. eapply wp_mono; [apply unwire_outcome|]. intros note l Hnote. apply wp_ret. split; [done|].
    unfold edge_outcome. cbn. rewrite Hc. split; [done|]. destruct Hnote as [[-> Hin]|[Hne Hm]].
    + cbn. apply elem_of_app. by left.
    + destruct (String.eqb_spec note "") as [|_]; [done|]. eexists. split; [by left|].
      exact (mentions_in_parens _ _ _ Hm).
Qed.

Lemma configure_edges_outcome (edges : list edgeCreated) :
  Forall fresh_edge edges ->
  wp (configure_edges e edges) (fun out l =>
    map ec_spec out.1.1 = map ec_spec edges /\ Forall (edge_outcome out.1.2 out.2 l) out.1.1).
Proof.
  induction edges as [|ce edges IH]; intros Hf; cbn [configure_edges]; [by apply wp_ret|].
  apply Forall_cons in Hf as [Hce Hf]. specialize (IH Hf). cbv zeta.
  assert (Hlater : forall es ws l l' out, es ⊆ out.1.2 -> ws ⊆ out.2 -> l ⊆ l' ->
    Forall (edge_outcome es ws l) out.1.1 -> Forall (edge_outcome out.1.2 out.2 l') out.1.1).
  { intros es ws l l' out He Hw Hl Hall. eapply Forall_impl; [exact Hall|]. intros ce'. by apply edge_outcome_mono. }
  destruct (es_Configuration (ec_spec ce)) as [config|] eqn:Ec.
  2:{ apply wp_bind. eapply wp_mono; [exact IH|]. intros rest l [Hs Hr]. apply wp_ret. cbn. split; [by rewrite Hs|].
      constructor; [unfold edge_outcome; by rewrite Ec|exact Hr]. }
  apply wp_ask_then. intros [].
  { apply wp_ret. cbn. split; [done|]. clear IH Hlater. constructor.
    - unfold edge_outcome. rewrite Ec, Hce. by left.
    - eapply Forall_impl; [exact Hf|]. intros ce' Hce'. unfold edge_outcome. rewrite Hce'.
      destruct (es_Configuration (ec_spec ce')); [by left|reflexivity]. }
  destruct (EdgeConfigurer e) as [configure|] eqn:Econf.
  - apply wp_bind. eapply wp_mono; [by apply configure_edge_outcome|]. intros one l1 [Hs1 Ho1].
    apply wp_bind. eapply wp_mono; [exact IH|]. intros rest l2 [Hs2 Ho2]. apply wp_ret. cbn. split; [by rewrite Hs1, Hs2|].
    constructor.
    + eapply edge_outcome_mono; [..|exact Ho1]; set_solver.
    + eapply Forall_impl; [exact Ho2|]. intros ce'. apply edge_outcome_mono; set_solver.
  - apply wp_bind. eapply wp_mono; [exact IH|]. intros rest l [Hs Hr]. apply wp_ret. cbn. split; [by rewrite Hs|].
    constructor; [unfold edge_outcome; rewrite Ec, Hce; by right|].
    eapply Forall_impl; [exact Hr|]. intros ce'. apply edge_outcome_mono; set_solver.
Qed.

Definition ends (s : edgeSpec) : string * string := (es_From s, es_To s).

(** Everything a build is asked for, when nothing went wrong. *)
Definition complete (nodes : list nodeSpec) (edges : list edgeSpec) (b : Build) : Prop :=
  (b_errors b = [] -> map nc_alias (b_nodes b) = map ns_Alias nodes /\ map ec_spec (b_edges b) = edges) /\
  (b_errors b = [] -> b_warnings b = [] -> forall n, n ∈ nodes -> is_Some (ns_Settings n) ->
     exists nc, nc ∈ b_nodes b /\ nc_alias nc = ns_Alias n /\ nc_settings_valid nc = Some true).

Lemma build_complete addNode addEdge byAlias nodes edges :
  wp (build unmarshal e addNode addEdge byAlias nodes edges) (fun b l =>
    complete nodes edges b /\ Forall (edge_outcome (b_errors b) (b_warnings b) l) (b_edges b)).
Proof.
  unfold build.
  apply wp_bind. eapply wp_mono; [apply only_create_flow|]. intros [] l0 _.
  apply wp_bind. eapply wp_mono; [apply create_nodes_complete|]. intros b1 l1 (He1 & Hw1 & Hn1).
  apply wp_bind. eapply wp_mono; [apply configure_nodes_complete|]. intros b2 l2 (He2 & Hi2 & Ha2 & Herr2 & Hset2).
  apply wp_bind. eapply wp_mono; [apply create_edges_complete|]. intros b3 l3 (Hn3 & Hf3 & Hw3 & He3).
  apply wp_bind. eapply wp_mono; [apply only_scaffoldScenarios|]. intros w l4 _.
  apply wp_bind. eapply wp_mono.
  { apply configure_edges_outcome, Hf3. rewrite He2, He1. constructor. }
  intros out l5 [Hs5 Ho5].
  apply wp_bind. eapply wp_mono; [apply only_flowIssues|]. intros issues l6 _.
  apply wp_ret. cbn [warned configured b_errors b_edges b_nodes b_warnings]. split.
  - unfold complete. cbn [warned configured b_errors b_edges b_nodes b_warnings]. split.
    + intros [Hb3 Hout]%app_nil. destruct (He3 Hb3) as [Hb2 Hsp]. destruct (Hn1 (Herr2 Hb2)) as (_ & Hal & _).
      rewrite Hn3, Ha2, Hal. split; [done|]. rewrite Hs5, Hsp, He2, He1. done.
    + intros [Hb3 Hout]%app_nil [[[Hw _]%app_nil _]%app_nil _]%app_nil n Hin Hs.
      destruct (He3 Hb3) as [Hb2 _]. destruct (Hn1 (Herr2 Hb2)) as (_ & Hal & Hids). rewrite Hw3 in Hw.
      destruct (Hset2 Hw) as (_ & _ & Hst).
      assert (Hn : ns_Alias n ∈ map ns_Alias nodes) by (apply list_elem_of_fmap; eauto).
      specialize (Hst Hb2 n Hin Hs (Hids _ (or_intror Hn))). rewrite Hal in Hst. specialize (Hst Hn).
      unfold settings_state in Hst. destruct (List.find _ (b_nodes b2)) as [nc|] eqn:Ef; [|done].
      apply find_some in Ef as [Hnc Heq%String.eqb_eq]. exists nc. rewrite Hn3.
      split; [by apply list_elem_of_In|done].
  - eapply Forall_impl; [exact Ho5|]. intros ce. apply edge_outcome_mono; set_solver.
Qed.

(** A build that was not refused, and what it was asked for. *)
Definition accepted (input : obj) (nodes : list nodeSpec) (edges : list edgeSpec) : Prop :=
  parse_nodes unmarshal 0 [] (default [] (obj_get "nodes" input ≫= as_arr)) = Ok nodes /\
  parse_edges 0 (map ns_Alias nodes) (default [] (obj_get "edges" input ≫= as_arr)) = Ok edges.

Lemma derive_node_same (byAlias : gmap string ComponentInfo) (n : nodeSpec) :
  ns_Alias (derive_node unmarshal byAlias n).1 = ns_Alias n /\ ns_Settings (derive_node unmarshal byAlias n).1 = ns_Settings n.
Proof. unfold derive_node. destruct (byAlias !! ns_Alias n), (ns_Settings n) as [[|kv m]|] eqn:E; by cbn; rewrite ?E. Qed.

Lemma derive_edge_same (byAlias : gmap string ComponentInfo) (nodes : list nodeSpec) (s : edgeSpec) :
  ends (derive_edge unmarshal byAlias nodes s) = ends s /\
  es_Configuration (derive_edge unmarshal byAlias nodes s) = es_Configuration s.
Proof. unfold derive_edge. destruct (byAlias !! es_ToAlias s), (es_Configuration s) as [[|kv m]|] eqn:E; by rewrite ?E. Qed.

(** The response of a build, with the calls it made. *)
Lemma response_complete (input : obj) :
  wp (Execute unmarshal e input) (fun r l =>
    forall out, Output r = Some out -> exists nodes edges b, accepted input nodes edges /\
      bo_errors out = b_errors b /\ bo_warnings out = b_warnings b /\ bo_nodes_created out = b_nodes b /\
      bo_edges_created out = b_edges b /\ Success r = negb (length (b_nodes b) =? 0)%nat /\ nodes <> [] /\
      (b_errors b = [] -> map nc_alias (b_nodes b) = map ns_Alias nodes /\
         map (fun ce => ends (ec_spec ce)) (b_edges b) = map ends edges /\
         map (fun ce => es_Configuration (ec_spec ce)) (b_edges b) = map es_Configuration edges) /\
      (b_errors b = [] -> b_warnings b = [] -> forall n, n ∈ nodes -> is_Some (ns_Settings n) ->
         exists nc, nc ∈ b_nodes b /\ nc_alias nc = ns_Alias n /\ nc_settings_valid nc = Some true) /\
      Forall (edge_outcome (b_errors b) (b_warnings b) l) (b_edges b)).
Proof.
  unfold Execute. destruct (NodeAdder e) as [addNode|]; [|by apply wp_ret].
  destruct (EdgeAdder e) as [addEdge|]; [|by apply wp_ret].
  unfold accepted. destruct (default [] (obj_get "nodes" input ≫= as_arr)) as [|raw raws]; [by apply wp_ret|].
  destruct (parse_nodes _ _ _ _) as [nodes|msg] eqn:En; [|by apply wp_ret].
  destruct (parse_edges _ _ _) as [edges|msg] eqn:Ee; [|by apply wp_ret].
  apply wp_bind. eapply wp_mono; [apply only_components|]. intros [byAlias|msg] l Hl; cbn beta zeta; [|by apply wp_ret].
  destruct (flat_map snd _) as [|u us]; [|by apply wp_ret].
  apply wp_bind. eapply wp_mono; [apply build_complete|]. intros b l' [[Hc1 Hc2] Hout]. apply wp_ret. cbn [app].
  intros out Ho. exists nodes, edges, b. split; [by rewrite Ee|].
  assert (Hal : map ns_Alias (map fst (map (derive_node unmarshal byAlias) nodes)) = map ns_Alias nodes).
  { rewrite !map_map. apply map_ext. intros n. apply derive_node_same. }
  repeat (split; [unfold response in Ho |- *; by destruct (b_nodes b); injection Ho as <-|]).
  split. { intros ->. cbn in En. destruct (parse_node _ _ _ _); [|done]. cbn in En. by destruct (parse_nodes _ _ _ _). }
  split; [|split].
  - intros Hb. destruct (Hc1 Hb) as [Hn Hs]. rewrite Hn, Hal. split; [done|].
    rewrite <- !(map_map ec_spec), Hs, !map_map. split; apply map_ext; intros s; apply derive_edge_same.
  - intros Hb Hw n Hin Hset. destruct (Hc2 Hb Hw (derive_node unmarshal byAlias n).1) as (nc & Hnc & Ha & Hv).
    + rewrite map_map. apply list_elem_of_fmap. by exists n.
    + by rewrite (proj2 (derive_node_same _ _)).
    + exists nc. by rewrite <- (proj1 (derive_node_same byAlias n)).
  - eapply Forall_impl; [exact Hout|]. intros ce. apply edge_outcome_mono; set_solver.
Qed.


End build.

(** *** A concrete build *)

Section demo.
#[local] Instance demo_range : MapRange unit := map_range_some_order unit.
#[local] Instance demo_range_obj : MapRange obj := map_range_some_order obj.

(** Services that take everything, except a configuration with the key "bad". *)
Definition demo_context (configurable : bool) : ExecutionContext :=
  {| ProjectName := "p"; FlowName := "f"; ctx_done := fun _ => false; ProjectReader := None; ModuleCatalog := None;
     FlowCreator := Some (fun flow _ => Ok flow);
     FlowModifier := Some (fun ops _ => Ok [mkOperationResult true ""]);
     PortInspector := None;
     NodeAdder := Some (fun component _ h => Ok (mkAddNodeResult (component +:+ "-" +:+ go_itoa (Z.of_nat (length h))) ["out"]));
     NodeLabeler := None; NodeRepositioner := None;
     NodeSettingsConfigurer := Some (fun _ _ _ _ => Ok (mkConfigureResult true "" "" []));
     NodeSharer := None;
     EdgeAdder := Some (fun f fp t tp _ => Ok (mkAddEdgeResult (f +:+ ":" +:+ fp +:+ "-" +:+ t +:+ ":" +:+ tp) true));
     EdgeConfigurer := if configurable then Some (fun _ config _ _ _ =>
       Ok (mkConfigureResult (match obj_get "bad" config with Some _ => false | None => true end) "no such field" "" [])) else None;
     TinyNodeCRManager := None; ScenarioManager := None;
     SolutionExportFetcher := None; DashboardPageApplier := None; ScenarioApplier := None |}.

Definition demo_spec (config : obj) : obj :=
  [("nodes", JArr [JObj [("alias", JStr "a"); ("component", JStr "ticker"); ("module", JStr "m"); ("settings", JObj [("delay", JNum "5")])];
                   JObj [("alias", JStr "b"); ("component", JStr "debug"); ("module", JStr "m")]]);
   ("edges", JArr [JObj [("from", JStr "a:out"); ("to", JStr "b:in"); ("configuration", JObj config)]])].

Definition demo_run (config : obj) : ToolResult BuildOutput * History :=
  Execute (fun _ => None) (demo_context true) (demo_spec config) [].



(** Cancelled before the edges are configured, a build leaves them wired
    without a configuration, and with no attempt to remove them. *)
Definition cancelled_context : ExecutionContext :=
  let c := demo_context true in
  {| ProjectName := "p"; FlowName := "f";
     ctx_done := fun h => existsb (fun c => match c with AddEdge _ _ _ _ => true | _ => false end) h;
     ProjectReader := None; ModuleCatalog := None; FlowCreator := None; FlowModifier := FlowModifier c; PortInspector := None;
     NodeAdder := NodeAdder c; NodeLabeler := None; NodeRepositioner := None;
     NodeSettingsConfigurer := NodeSettingsConfigurer c; NodeSharer := None; EdgeAdder := EdgeAdder c;
     EdgeConfigurer := EdgeConfigurer c; TinyNodeCRManager := None; ScenarioManager := None;
     SolutionExportFetcher := None; DashboardPageApplier := None; ScenarioApplier := None |}.

Example cancelled_build_leaves_edge_bare :
  let '(r, h) := Execute (fun _ => None) cancelled_context (demo_spec [("data", JStr "{{$}}")]) [] in
  Success r = true /\ existsb (fun c => match c with ApplyFlowChanges _ | ConfigureEdge _ _ _ _ => true | _ => false end) h = false
  /\ (length <$> (bo_edges_created <$> Output r)) = Some 1.
Proof. vm_compute. done. Qed.
End demo.
