(* ===== verification/EditFlow.v ===== *)
(** * Editing a flow one step at a time

    [pkg/tools/edit_flow.go]: the actions of [edit_flow], each with its checks,
    its calls and its response. A response is a decoded object. [decode_error]
    is the text of the JSON decoder's error. *)
From S2P Require Import Prelude GoErrors Names Graph Json FlowIssues Authoring Tools.

Open Scope string_scope.
Open Scope list_scope.

Abbreviation Edit := (ToolResult obj).
Definition done_with (out : obj) : Edit := mkToolResult true (Some out) "".

(** [output] with a key where its text is not empty. *)
Definition with_text (k v : string) (out : obj) : obj := if v =? "" then out else obj_set k (JStr v) out.
Definition strings_json (l : list string) : json := JArr (map JStr l).

Section edit_flow.
  Context `{MapRange unit} `{MapRange obj} `{MapRange TinyNode}.
  Variable unmarshal : string -> option json.
  Variable decode_error : string -> string.
  Variable e : ExecutionContext.

Definition text_at (input : obj) (k : string) : string := default "" (str_at input k).

(** ** Nodes *)

(** None where the component may be added. *)
Definition check_component (component module : string) : M (option string) :=
  match ModuleCatalog e with
  | None => mret None
  | Some catalog =>
      r ← ask (GetModule module) (mc_GetModule catalog module);
      mret (match r with
            | Err err => Some ("failed to lookup module: " +:+ error_text err)
            | Ok None => Some ("module " +:+ go_quote module +:+ " not found. Use list_modules to see available modules.")
            | Ok (Some m) =>
                match component_named component m with
                | Some _ => None
                | None => Some ("component " +:+ go_quote component +:+ " not found in module " +:+ go_quote module +:+
                                ". Available: " +:+ show_names (map ci_Name (mi_Components m)))
                end
            end)
  end.

Definition editFlowAddNode (input : obj) : M Edit :=
  match NodeAdder e with
  | None => mret (refused "node adder not configured")
  | Some add =>
      let component := text_at input "component" in
      let module := text_at input "module" in
      if component =? "" then mret (refused "component is required for add_node")
      else if module =? "" then mret (refused "module is required for add_node")
      else
        wrong ← check_component component module;
        match wrong with
        | Some msg => mret (refused msg)
        | None =>
            r ← ask (AddNode component module) (add component module);
            mret (match r with
                  | Err err => refused ("failed to add node: " +:+ error_text err)
                  | Ok r => done_with [("node_id", JStr (an_NodeID r)); ("ports", strings_json (an_Ports r));
                              ("hint", JStr "Use edit_flow with action=add_edge to connect this node to other nodes.")]
                  end)
        end
  end.

(** Deleting a node and deleting an edge. *)
Definition delete_element (what kind key : string) (input : obj) : M Edit :=
  match FlowModifier e with
  | None => mret (refused "flow modifier not configured")
  | Some apply =>
      let id := text_at input key in
      if id =? "" then mret (refused (key +:+ " is required for delete_" +:+ what))
      else
        let ops := delete_op id kind in
        r ← ask (ApplyFlowChanges ops) (apply ops);
        mret (match r with
              | Err err => refused ("failed to delete " +:+ what +:+ ": " +:+ error_text err)
              | Ok [] => refused ("failed to delete " +:+ what +:+ ": unknown error")
              | Ok (r :: _) =>
                  if or_Success r then done_with [("deleted", JBool true); (key, JStr id)]
                  else refused ("failed to delete " +:+ what +:+ ": " +:+
                                (if or_Error r =? "" then "unknown error" else or_Error r))
              end)
  end.

Definition editFlowDeleteNode : obj -> M Edit := delete_element "node" "tinyNode" "node_id".
Definition editFlowDeleteEdge : obj -> M Edit := delete_element "edge" "tinyEdge" "edge_id".

(** What the caller gave where an object or its text is wanted. *)
Inductive given : Type := GivenObject (m : obj) | GivenBadText (msg : string) | NotGiven.
Definition given_at (input : obj) (k : string) : given :=
  match obj_get k input with
  | Some (JObj m) => GivenObject m
  | Some (JStr s) => match read_object unmarshal s with Some m => GivenObject m | None => GivenBadText (decode_error s) end
  | _ => NotGiven
  end.

Definition settings_schema (nodeID : string) (settings schema : obj) : M obj :=
  match settings with
  | [] => mret schema
  | _ =>
      comp ← findNodeComponent e nodeID;
      mret (match comp with
            | Some c => fillMissingSchemas settings schema
                          (configurableFieldsIn unmarshal (portSchemaBytes (Some c) "_settings" true)) None
            | None => schema
            end)
  end.

(** None where the step was made or not asked for. *)
Definition label_step (nodeID : string) (name : option string) : M (option string) :=
  match name with
  | None => mret None
  | Some name =>
      match NodeLabeler e with
      | None => mret (Some "naming a node is not supported here")
      | Some f => r ← ask (LabelNode nodeID name) (f nodeID name);
                  mret (match r with Err err => Some ("failed to name node: " +:+ error_text err) | Ok _ => None end)
      end
  end.

Definition position_step (nodeID : string) (position : option (Z * Z)) : M (option string) :=
  match position with
  | None => mret None
  | Some (x, y) =>
      match NodeRepositioner e with
      | None => mret (Some "repositioning is not supported here")
      | Some f => r ← ask (RepositionNode nodeID x y) (f nodeID x y);
                  mret (match r with Err err => Some ("failed to reposition node: " +:+ error_text err) | Ok _ => None end)
      end
  end.

Definition position_json (p : Z * Z) : json := JObj [("x", JNum (go_itoa p.1)); ("y", JNum (go_itoa p.2))].

(** The response to accepted settings. *)
Definition settings_done (nodeID : string) (r : ConfigureResult) : obj :=
  let out := [("valid", JBool true); ("node_id", JStr nodeID)] in
  let hint := "Settings may have changed available ports. Use these port names for edit_flow add_edge." in
  match cr_Ports r with
  | [] => with_text "hint" (cr_Hint r) out
  | ports => out ++ [("ports", strings_json ports);
                     ("hint", JStr (if cr_Hint r =? "" then hint else hint +:+ " " +:+ cr_Hint r))]
  end.

Definition rejected (r : ConfigureResult) : Edit :=
  mkToolResult false (Some (with_text "hint" (cr_Hint r) [("valid", JBool false); ("error", JStr (cr_Error r))])) (cr_Error r).

Definition editFlowConfigureNode (input : obj) : M Edit :=
  match NodeSettingsConfigurer e with
  | None => mret (refused "node settings configurer not configured")
  | Some configure =>
      let nodeID := text_at input "node_id" in
      if nodeID =? "" then mret (refused "node_id is required for configure_node")
      else
        let name := str_at input "label" in
        let position := positionFrom unmarshal (fld input "position") in
        wrong ← label_step nodeID name;
        match wrong with
        | Some msg => mret (refused msg)
        | None =>
            wrong ← position_step nodeID position;
            match wrong with
            | Some msg => mret (refused msg)
            | None =>
                match given_at input "settings" with
                | GivenBadText msg => mret (refused ("settings string is not valid JSON: " +:+ msg))
                | NotGiven =>
                    match position, name with
                    | None, None => mret (refused "configure_node needs settings, a position, a label, or any combination")
                    | _, _ => mret (done_with ([("node_id", JStr nodeID)] ++
                                (match position with Some p => [("position", position_json p)] | None => [] end) ++
                                (match name with Some s => [("label", JStr s)] | None => [] end)))
                    end
                | GivenObject settings =>
                    schema ← settings_schema nodeID settings (default [] (map_at input "schema"));
                    r ← ask (ConfigureNodeSettings nodeID settings schema) (configure nodeID settings schema);
                    mret (match r with
                          | Err err => refused ("failed to configure node settings: " +:+ error_text err)
                          | Ok r => if cr_Valid r then done_with (settings_done nodeID r) else rejected r
                          end)
                end
            end
        end
  end.

Definition editFlowShareNode (input : obj) : M Edit :=
  match NodeSharer e with
  | None => mret (refused "sharing a node is not supported here")
  | Some share =>
      let nodeID := text_at input "node_id" in
      if nodeID =? "" then mret (refused "node_id is required for share_node")
      else
        match stringsFrom unmarshal (fld input "flows") with
        | None => mret (refused "flows must be an array of flow names for share_node (pass [] to un-share)")
        | Some flows =>
            r ← ask (ShareNode nodeID flows) (share nodeID flows);
            mret (match r with
                  | Err err => refused ("failed to share node: " +:+ error_text err)
                  | Ok shared =>
                      done_with [("node_id", JStr nodeID); ("flows", strings_json shared);
                        ("hint", JStr (match shared with
                           | [] => "Node is no longer shared; only its own flow can see it."
                           | _ => "Those flows can now wire to this node. It stays read-only there — it moves and configures only in the flow that owns it."
                           end))]
                  end)
        end
  end.

(** ** Edges *)

Definition edge_schema (edgeID : string) (config schema : obj) : M obj :=
  match config with
  | [] => mret schema
  | _ =>
      target ← findEdgeTarget e edgeID;
      if target.1 =? "" then mret schema
      else
        comp ← findNodeComponent e target.1;
        mret (match comp with
              | Some c => fillMissingSchemas config schema
                            (configurableFieldsIn unmarshal (portSchemaBytes (Some c) target.2 true)) None
              | None => schema
              end)
  end.

Definition editFlowConfigureEdge (input : obj) : M Edit :=
  match EdgeConfigurer e with
  | None => mret (refused "edge configurer not configured")
  | Some configure =>
      let edgeID := text_at input "edge_id" in
      let traceID := text_at input "trace_id" in
      if edgeID =? "" then mret (refused "edge_id is required for configure_edge")
      else
        match given_at input "configuration" with
        | GivenBadText msg => mret (refused ("configuration string is not valid JSON: " +:+ msg))
        | NotGiven => mret (refused "configuration is required for configure_edge and must be a JSON object or JSON string")
        | GivenObject config =>
            schema ← edge_schema edgeID config (default [] (map_at input "schema"));
            r ← ask (ConfigureEdge edgeID config schema traceID) (configure edgeID config schema traceID);
            mret (match r with
                  | Err err => refused ("failed to configure edge: " +:+ error_text err)
                  | Ok r =>
                      if cr_Valid r then
                        done_with (with_text "hint" (cr_Hint r)
                          [("valid", JBool true); ("edge_id", JStr edgeID); ("verified", JBool (cr_Hint r =? ""))])
                      else rejected r
                  end)
        end
  end.

(** ["_settings"]: every component publishes it. *)
Definition nodeHasPublishedPorts (nodeID : string) : M bool :=
  match PortInspector e with
  | None => mret false
  | Some inspect => r ← ask (InspectPort nodeID "_settings") (inspect nodeID "_settings"); mret (is_ok r)
  end.

(** None where the port exists or may come to exist. *)
Definition check_port (nodeID port side kind : string) : M (option string) :=
  match PortInspector e with
  | None => mret None
  | Some inspect =>
      r ← ask (InspectPort nodeID port) (inspect nodeID port);
      if is_ok r then mret None
      else
        published ← nodeHasPublishedPorts nodeID;
        mret (if (published : bool) then
                Some (side +:+ " port " +:+ go_quote port +:+ " does not exist on node " +:+ nodeID +:+
                      " — confirm the component's " +:+ kind +:+ " ports with get_component_info")
              else None)
  end.

Definition target_port_info (toNode toPort : string) : M obj :=
  match PortInspector e with
  | None => mret []
  | Some inspect =>
      r ← ask (InspectPort toNode toPort) (inspect toNode toPort);
      mret (match r with
            | Ok (Some info) =>
                [("target_port_schema", pi_Schema info)] ++
                (if is_nil (pi_ExampleData info) then [] else [("target_port_example", pi_ExampleData info)])
            | _ => []
            end)
  end.

(** An edge that was just made, configured in the same call. *)
Definition configure_new_edge (input : obj) (edgeID : string) : M Edit :=
  res ← editFlowConfigureEdge (obj_set "edge_id" (JStr edgeID) input);
  mret (mkToolResult (Success res)
          (Some (obj_set "edge_created" (JBool true) (obj_set "edge_id" (JStr edgeID) (default [] (Output res))))) (Error res)).

Definition editFlowAddEdge (input : obj) : M Edit :=
  match EdgeAdder e with
  | None => mret (refused "edge adder not configured")
  | Some add =>
      let fromNode := text_at input "from_node" in
      let fromPort := text_at input "from_port" in
      let toNode := text_at input "to_node" in
      let toPort := text_at input "to_port" in
      if (fromNode =? "") || (fromPort =? "") then mret (refused "from_node and from_port are required for add_edge")
      else if (toNode =? "") || (toPort =? "") then mret (refused "to_node and to_port are required for add_edge")
      else
        wrong ← check_port fromNode fromPort "source" "output";
        match wrong with
        | Some msg => mret (refused msg)
        | None =>
            wrong ← check_port toNode toPort "target" "input";
            match wrong with
            | Some msg => mret (refused msg)
            | None =>
                r ← ask (AddEdge fromNode fromPort toNode toPort) (add fromNode fromPort toNode toPort);
                match r with
                | Err err => mret (refused ("failed to add edge: " +:+ error_text err))
                | Ok r =>
                    match obj_get "configuration" input with
                    | Some (JObj _ | JStr _) => configure_new_edge input (ae_EdgeID r)
                    | _ =>
                        let out := [("edge_id", JStr (ae_EdgeID r)); ("needs_configuration", JBool (ae_NeedsConfiguration r))] in
                        if negb (ae_NeedsConfiguration r) then mret (done_with out)
                        else
                          info ← target_port_info toNode toPort;
                          mret (done_with (out ++
                            [("hint", JStr "Use edit_flow with action=configure_edge and configuration matching the target_port_schema below.")] ++ info))
                    end
                end
            end
        end
  end.

(** ** The tool *)

Definition scaffoldAfterEdgeChange (res : Edit) : M Edit :=
  match ScenarioManager e, TinyNodeCRManager e with
  | Some _, Some _ =>
      if negb (Success res) then mret res
      else
        live ← ScaffoldLiveScenarios e unmarshal;
        mret (match live, Output res with
              | (0, []), _ | _, None => res
              | (written, warnings), Some out =>
                  let out := if (0 <? written)%nat then obj_set "scenario_ports_scaffolded" (JNum (go_itoa (Z.of_nat written))) out else out in
                  let out := match warnings with [] => out | _ => obj_set "scenario_warnings" (strings_json warnings) out end in
                  mkToolResult (Success res) (Some out) (Error res)
              end)
  | _, _ => mret res
  end.

Definition Execute (input : obj) : M Edit :=
  let action := text_at input "action" in
  if action =? "add_node" then editFlowAddNode input
  else if action =? "delete_node" then editFlowDeleteNode input
  else if action =? "add_edge" then res ← editFlowAddEdge input; scaffoldAfterEdgeChange res
  else if action =? "delete_edge" then editFlowDeleteEdge input
  else if action =? "configure_edge" then res ← editFlowConfigureEdge input; scaffoldAfterEdgeChange res
  else if action =? "configure_node" then editFlowConfigureNode input
  else if action =? "share_node" then editFlowShareNode input
  else mret (refused ("unknown action " +:+ go_quote action +:+
         "; expected add_node, delete_node, add_edge, delete_edge, configure_edge, configure_node, share_node")).
End edit_flow.
