(* ===== verification/EditFlowSpec.v ===== *)
(** * An edit does what it was asked, in order, and stops at the first failure

    Each action of [edit_flow] has a plan, read off its input: the writes it
    should make. The theorems say that an edit writes a prefix of its plan, the
    whole of it where it reports success, and that a port that cannot exist is
    never wired. *)
From S2P Require Import Prelude GoErrors Names Graph Json FlowIssues Authoring Tools ToolsSpec EditFlow.

Open Scope string_scope.
Open Scope list_scope.

(** ** Plans *)

Section plan.
  Variable unmarshal : string -> option json.
  Variable decode_error : string -> string.

(** A configuration of an edge with what the caller gave, whatever schema is
    derived for it. *)
Definition configures (input : obj) (is_edge : string -> Prop) (c : Call) : Prop :=
  exists edgeID config schema, is_edge edgeID /\
    given_at unmarshal decode_error input "configuration" = GivenObject config /\
    c = ConfigureEdge edgeID config schema (text_at input "trace_id").

Definition label_plan (input : obj) : list (Call -> Prop) :=
  match str_at input "label" with Some name => [eq (LabelNode (text_at input "node_id") name)] | None => [] end.
Definition position_plan (input : obj) : list (Call -> Prop) :=
  match positionFrom unmarshal (fld input "position") with
  | Some (x, y) => [eq (RepositionNode (text_at input "node_id") x y)]
  | None => []
  end.
Definition settings_plan (input : obj) : list (Call -> Prop) :=
  match given_at unmarshal decode_error input "settings" with
  | GivenObject settings => [fun c => exists schema, c = ConfigureNodeSettings (text_at input "node_id") settings schema]
  | _ => []
  end.

Definition plan (input : obj) : list (Call -> Prop) :=
  let action := text_at input "action" in
  if action =? "add_node" then [eq (AddNode (text_at input "component") (text_at input "module"))]
  else if action =? "delete_node" then [eq (ApplyFlowChanges (delete_op (text_at input "node_id") "tinyNode"))]
  else if action =? "add_edge" then
    [eq (AddEdge (text_at input "from_node") (text_at input "from_port") (text_at input "to_node") (text_at input "to_port"))] ++
    match obj_get "configuration" input with Some (JObj _ | JStr _) => [configures input (fun _ => True)] | _ => [] end
  else if action =? "delete_edge" then [eq (ApplyFlowChanges (delete_op (text_at input "edge_id") "tinyEdge"))]
  else if action =? "configure_edge" then [configures input (eq (text_at input "edge_id"))]
  else if action =? "configure_node" then label_plan input ++ position_plan input ++ settings_plan input
  else if action =? "share_node" then
    [fun c => exists flows, stringsFrom unmarshal (fld input "flows") = Some flows /\
                            c = ShareNode (text_at input "node_id") flows]
  else [].
End plan.

(** Calls that match the start of a plan. *)
Fixpoint follows (plan : list (Call -> Prop)) (l : list Call) {struct l} : Prop :=
  match l, plan with
  | [], _ => True
  | c :: l', P :: plan' => P c /\ follows plan' l'
  | _ :: _, [] => False
  end.

(** What an edit writes, apart from samples, oldest first. *)
Definition scenario_write (c : Call) : bool :=
  match c with CreateEmptyScenario _ | UpdateScenarioPort _ _ _ => true | _ => false end.
Definition edit_writes (l : list Call) : list Call := List.filter (fun c => negb (scenario_write c)) (writes l).

Lemma edit_writes_app (l h : list Call) : edit_writes (l ++ h) = edit_writes h ++ edit_writes l.
Proof. unfold edit_writes. by rewrite writes_app, List.filter_app. Qed.

Lemma edit_writes_reads (l : list Call) : Forall (fun c => reads_only c = true) l -> edit_writes l = [].
Proof. intros Hl. unfold edit_writes. by rewrite writes_reads. Qed.

Lemma edit_writes_scenario (l : list Call) : Forall scenario_call l -> edit_writes l = [].
Proof.
  intros Hl. unfold edit_writes, writes. apply filter_none, forallb_forall. intros c Hc.
  apply filter_In in Hc as [Hc Hr]. apply in_rev, list_elem_of_In in Hc. rewrite Forall_forall in Hl.
  specialize (Hl c Hc). by destruct c.
Qed.

Lemma follows_app (p q : list (Call -> Prop)) (l : list Call) :
  follows p l -> follows (p ++ q) l.
Proof. revert p. induction l as [|c l IH]; intros [|P p]; cbn; [done|done|done|]. intros [? ?]. auto. Qed.

Lemma follows_both (p q : list (Call -> Prop)) (l m : list Call) :
  follows p l -> length l = length p -> follows q m -> follows (p ++ q) (l ++ m).
Proof. revert l. induction p as [|P p IH]; intros [|c l]; cbn; [done|done|done|]. intros [? ?] [= ?] ?. auto. Qed.

(** The contract of an edit. *)
Definition keeps_plan (p : list (Call -> Prop)) (res : Edit) (l : list Call) : Prop :=
  follows p (edit_writes l) /\ (Success res = true -> length (edit_writes l) = length p).

Lemma refused_keeps (p : list (Call -> Prop)) (msg : string) (l : list Call) :
  edit_writes l = [] -> keeps_plan p (refused msg) l.
Proof. intros Hl. unfold keeps_plan. rewrite Hl. by split. Qed.

Section edit.
  Context `{MapRange unit} `{MapRange obj} `{MapRange TinyNode}.
  Variable unmarshal : string -> option json.
  Variable decode_error : string -> string.
  Variable e : ExecutionContext.

Lemma only_settings_schema (nodeID : string) (settings schema : obj) :
  only (fun c => reads_only c = true) (settings_schema unmarshal e nodeID settings schema).
Proof. unfold settings_schema. only_tac. Qed.

Lemma only_edge_schema (edgeID : string) (config schema : obj) :
  only (fun c => reads_only c = true) (edge_schema unmarshal e edgeID config schema).
Proof. unfold edge_schema. only_tac. Qed.

Lemma only_check_component (component module : string) :
  only (fun c => reads_only c = true) (check_component e component module).
Proof. unfold check_component. only_tac. Qed.

Lemma only_check_port (nodeID port side kind : string) :
  only (fun c => reads_only c = true) (check_port e nodeID port side kind).
Proof. unfold check_port, nodeHasPublishedPorts. only_tac. Qed.

Lemma only_target_port_info (toNode toPort : string) :
  only (fun c => reads_only c = true) (target_port_info e toNode toPort).
Proof. unfold target_port_info. only_tac. Qed.

(** After something that only reads. *)
Lemma wp_after_reads {A B} (m : M A) (k : A -> M B) (Q : B -> list Call -> Prop) :
  only (fun c => reads_only c = true) m ->
  (forall a l, edit_writes l = [] -> wp (k a) (fun b l' => Q b (l' ++ l))) -> wp (m ≫= k) Q.
Proof.
  intros Hm Hk. apply wp_bind. eapply wp_mono; [exact Hm|]. intros a l Hl. by apply Hk, edit_writes_reads.
Qed.

Ltac refuse := apply wp_ret, refused_keeps; cbn [app]; by rewrite ?edit_writes_app.

Lemma add_node_keeps (input : obj) :
  wp (editFlowAddNode e input) (keeps_plan [eq (AddNode (text_at input "component") (text_at input "module"))]).
Proof.
  unfold editFlowAddNode. destruct (NodeAdder e) as [add|]; [|refuse]. cbv zeta.
  destruct (_ =? ""); [refuse|]. destruct (_ =? ""); [refuse|].
  apply wp_after_reads; [apply only_check_component|]. intros [msg|] l Hl; [apply wp_ret, refused_keeps; exact Hl|].
  apply wp_ask_then. intros r. apply wp_ret. cbn [app]. unfold keeps_plan.
  change (?c :: l) with ([c] ++ l). rewrite edit_writes_app, Hl. by destruct r.
Qed.

Lemma delete_keeps (what kind key : string) (input : obj) :
  wp (delete_element e what kind key input) (keeps_plan [eq (ApplyFlowChanges (delete_op (text_at input key) kind))]).
Proof.
  unfold delete_element. destruct (FlowModifier e) as [apply|]; [|refuse]. cbv zeta.
  destruct (_ =? ""); [refuse|]. apply wp_ask_then. intros r. apply wp_ret. cbn [app].
  split; [by split|]. destruct r as [[|r rs]|]; try done.
Qed.

Lemma share_keeps (input : obj) :
  wp (editFlowShareNode unmarshal e input)
    (keeps_plan [fun c => exists flows, stringsFrom unmarshal (fld input "flows") = Some flows /\
                                        c = ShareNode (text_at input "node_id") flows]).
Proof.
  unfold editFlowShareNode. destruct (NodeSharer e) as [share|]; [|refuse]. cbv zeta.
  destruct (_ =? ""); [refuse|]. destruct (stringsFrom _ _) as [flows|] eqn:E; [|refuse].
  apply wp_ask_then. intros r. apply wp_ret. cbn [app]. split; [|done]. split; [|done]. by exists flows.
Qed.

Lemma configure_edge_keeps (input : obj) (is_edge : string -> Prop) :
  is_edge (text_at input "edge_id") ->
  wp (editFlowConfigureEdge unmarshal decode_error e input)
    (keeps_plan [configures unmarshal decode_error input is_edge]).
Proof.
  intros Hid. unfold editFlowConfigureEdge. destruct (EdgeConfigurer e) as [configure|]; [|refuse]. cbv zeta.
  destruct (_ =? ""); [refuse|]. destruct (given_at _ _ _ _) as [config|msg|] eqn:Eg; [|refuse|refuse].
  apply wp_after_reads; [apply only_edge_schema|]. intros schema l Hl. apply wp_ask_then. intros r. apply wp_ret. cbn [app].
  unfold keeps_plan. change (?c :: l) with ([c] ++ l). rewrite edit_writes_app, Hl.
  split; [|by destruct r as [r|]; [destruct (cr_Valid r)|]]. split; [|done]. by exists (text_at input "edge_id"), config, schema.
Qed.

(** A step of an edit, none where it went well. *)
Definition step_keeps (p : list (Call -> Prop)) (r : option string) (l : list Call) : Prop :=
  follows p (edit_writes l) /\ (r = None -> length (edit_writes l) = length p).

Lemma step_then (p q : list (Call -> Prop)) (step : M (option string)) (rest : M Edit) :
  wp step (step_keeps p) -> wp rest (keeps_plan q) ->
  wp (wrong ← step; match wrong with Some msg => mret (refused msg) | None => rest end) (keeps_plan (p ++ q)).
Proof.
  intros Hstep Hrest. apply wp_bind. eapply wp_mono; [exact Hstep|]. intros [msg|] l [Hf Hl].
  - apply wp_ret. split; [by apply follows_app|done].
  - eapply wp_mono; [exact Hrest|]. intros r l' [Hf' Hl']. unfold keeps_plan. rewrite edit_writes_app, !length_app.
    split; [apply follows_both; auto|]. intros Hs. rewrite Hl by done. by rewrite Hl'.
Qed.

Lemma label_keeps (input : obj) :
  wp (label_step e (text_at input "node_id") (str_at input "label")) (step_keeps (label_plan input)).
Proof.
  unfold label_step, label_plan. destruct (str_at input "label") as [name|]; [|by apply wp_ret].
  destruct (NodeLabeler e) as [f|]; [|by apply wp_ret]. apply wp_ask_then. intros r. by apply wp_ret.
Qed.

Lemma position_keeps (input : obj) :
  wp (position_step e (text_at input "node_id") (positionFrom unmarshal (fld input "position")))
    (step_keeps (position_plan unmarshal input)).
Proof.
  unfold position_step, position_plan. destruct (positionFrom _ _) as [[x y]|]; [|by apply wp_ret].
  destruct (NodeRepositioner e) as [f|]; [|by apply wp_ret]. apply wp_ask_then. intros r. by apply wp_ret.
Qed.

Lemma configure_node_keeps (input : obj) :
  wp (editFlowConfigureNode unmarshal decode_error e input)
    (keeps_plan (label_plan input ++ position_plan unmarshal input ++ settings_plan unmarshal decode_error input)).
Proof.
  unfold editFlowConfigureNode. destruct (NodeSettingsConfigurer e) as [configure|]; [|refuse]. cbv zeta.
  destruct (_ =? ""); [refuse|]. apply step_then; [apply label_keeps|]. apply step_then; [apply position_keeps|].
  unfold settings_plan. destruct (given_at _ _ _ _) as [settings|msg|]; [|refuse|].
  - apply wp_after_reads; [apply only_settings_schema|]. intros schema l Hl. apply wp_ask_then. intros r. apply wp_ret.
    cbn [app]. unfold keeps_plan. change (?c :: l) with ([c] ++ l). rewrite edit_writes_app, Hl.
    split; [|by destruct r as [r|]; [destruct (cr_Valid r)|]]. split; [|done]. by exists schema.
  - destruct (positionFrom _ _), (str_at input "label"); by apply wp_ret.
Qed.

Lemma text_at_set (input : obj) (k k' : string) (v : json) :
  k <> k' -> text_at (obj_set k v input) k' = text_at input k'.
Proof. intros Hne. unfold text_at, str_at. rewrite obj_get_set. by destruct (String.eqb_spec k k'). Qed.

Lemma configures_set (input : obj) (v : json) (c : Call) :
  configures unmarshal decode_error (obj_set "edge_id" v input) (fun _ => True) c ->
  configures unmarshal decode_error input (fun _ => True) c.
Proof.
  intros (edgeID & config & schema & _ & Hg & ->). exists edgeID, config, schema. split; [done|].
  rewrite text_at_set by done. split; [|done]. unfold given_at in *. by rewrite obj_get_set in Hg.
Qed.

Lemma configure_new_edge_keeps (input : obj) (edgeID : string) :
  wp (configure_new_edge unmarshal decode_error e input edgeID)
    (keeps_plan [configures unmarshal decode_error input (fun _ => True)]).
Proof.
  unfold configure_new_edge. apply wp_bind.
  eapply wp_mono; [apply (configure_edge_keeps (obj_set "edge_id" (JStr edgeID) input) (fun _ => True) I)|].
  intros r l [Hf Hl]. apply wp_ret. cbn [app]. split; [|exact Hl]. revert Hf.
  destruct (edit_writes l) as [|c [|c' l']]; cbn; [done| |by intros [_ ?]]. intros [Hc _]. split; [|done].
  by eapply configures_set.
Qed.

Lemma add_edge_keeps (input : obj) :
  wp (editFlowAddEdge unmarshal decode_error e input)
    (keeps_plan ([eq (AddEdge (text_at input "from_node") (text_at input "from_port") (text_at input "to_node") (text_at input "to_port"))] ++
      match obj_get "configuration" input with
      | Some (JObj _ | JStr _) => [configures unmarshal decode_error input (fun _ => True)]
      | _ => []
      end)).
Proof.
  unfold editFlowAddEdge. destruct (EdgeAdder e) as [add|]; [|refuse]. cbv zeta.
  destruct (_ || _); [refuse|]. destruct (_ || _); [refuse|].
  apply wp_after_reads; [apply only_check_port|]. intros [msg|] l1 Hl1; [apply wp_ret, refused_keeps; exact Hl1|].
  apply wp_after_reads; [apply only_check_port|].
  intros [msg|] l2 Hl2; [apply wp_ret, refused_keeps; cbn [app]; by rewrite edit_writes_app, Hl1, Hl2|].
  set (c := AddEdge _ _ _ _). set (q := match obj_get "configuration" input with Some (JObj _ | JStr _) => _ | _ => [] end).
  assert (Hc : forall res l, keeps_plan q res l -> keeps_plan ([eq c] ++ q) res (((l ++ [c]) ++ l2) ++ l1)).
  { intros res l [Hf Hl]. unfold keeps_plan. rewrite !edit_writes_app, Hl1, Hl2. cbn [app]. split; [by split|].
    intros Hs. cbn. by rewrite Hl. }
  apply wp_ask_then. intros [r|err].
  2:{ apply wp_ret. unfold keeps_plan. rewrite !edit_writes_app, Hl1, Hl2. by split. }
  assert (Hmap : forall m, wp m (keeps_plan q) -> wp m (fun b l' => keeps_plan ([eq c] ++ q) b (((l' ++ [c]) ++ l2) ++ l1))).
  { intros m Hm. eapply wp_mono; [exact Hm|]. exact Hc. }
  apply Hmap. subst q.
  assert (Hrest : wp (let out := [("edge_id", JStr (ae_EdgeID r)); ("needs_configuration", JBool (ae_NeedsConfiguration r))] in
     if negb (ae_NeedsConfiguration r) then mret (done_with out)
     else info ← target_port_info e (text_at input "to_node") (text_at input "to_port");
          mret (done_with (out ++
            [("hint", JStr "Use edit_flow with action=configure_edge and configuration matching the target_port_schema below.")] ++ info)))
     (keeps_plan [])).
  { cbv zeta. destruct (negb _); [by apply wp_ret|]. apply wp_after_reads; [apply only_target_port_info|].
    intros info l Hl. apply wp_ret. unfold keeps_plan. by rewrite edit_writes_app, Hl. }
  destruct (obj_get "configuration" input) as [[| | |s|l|m]|]; try exact Hrest; apply configure_new_edge_keeps.
Qed.

Lemma scaffold_keeps (p : list (Call -> Prop)) (m : M Edit) :
  wp m (keeps_plan p) -> wp (res ← m; scaffoldAfterEdgeChange unmarshal e res) (keeps_plan p).
Proof.
  intros Hm. apply wp_bind. eapply wp_mono; [exact Hm|]. intros res l Hres.
  assert (Hsame : wp (mret res) (fun b l' => keeps_plan p b (l' ++ l))) by (apply wp_ret; exact Hres).
  unfold scaffoldAfterEdgeChange. destruct (ScenarioManager e); [|exact Hsame].
  destruct (TinyNodeCRManager e); [|exact Hsame]. destruct (negb (Success res)); [exact Hsame|].
  apply wp_bind. eapply wp_mono; [apply only_ScaffoldLiveScenarios|]. intros [written warnings] l' Hl'. apply wp_ret.
  cbn [app]. unfold keeps_plan. rewrite edit_writes_app, (edit_writes_scenario _ Hl'), app_nil_r.
  destruct written as [|w], warnings as [|x xs], (Output res); exact Hres.
Qed.


(** A node that publishes ports, and not this one. *)
Definition port_missing (inspect : string -> string -> Answer (option PortInspectResult)) (node port : string) : Prop :=
  forall h, is_ok (inspect node port h) = false /\ is_ok (inspect node "_settings" h) = true.

Lemma check_port_missing inspect (node port side kind : string) (h : History) :
  PortInspector e = Some inspect -> port_missing inspect node port ->
  exists msg l, check_port e node port side kind h = (Some msg, l ++ h) /\ writes l = [].
Proof.
  intros Hi Hm. unfold check_port, nodeHasPublishedPorts. rewrite Hi. unfold mbind, M_bind, ask.
  rewrite (proj1 (Hm h)), (proj2 (Hm _)). by eexists _, [InspectPort node "_settings"; InspectPort node port].
Qed.

(** A port that does not exist is never wired: when one end of the edge is
    on a node that has published its ports and the port is not among them,
    [add_edge] fails and nothing at all was written. *)
Theorem missing_port_never_wired inspect (input : obj) (h : History) :
  PortInspector e = Some inspect -> text_at input "action" = "add_edge" ->
  port_missing inspect (text_at input "from_node") (text_at input "from_port") \/
  port_missing inspect (text_at input "to_node") (text_at input "to_port") ->
  Success (Execute unmarshal decode_error e input h).1 = false /\
  exists l, (Execute unmarshal decode_error e input h).2 = l ++ h /\ writes l = [].
Proof.
  intros Hi Ha Hm. unfold Execute. rewrite Ha. cbn -[editFlowAddEdge].
  assert (Hadd : Success (editFlowAddEdge unmarshal decode_error e input h).1 = false /\
    exists l, (editFlowAddEdge unmarshal decode_error e input h).2 = l ++ h /\ writes l = []).
  2:{ rewrite run_bind. destruct (editFlowAddEdge _ _ _ _ _) as [res h1]. cbn [fst snd] in Hadd.
      destruct Hadd as [Hs Hl]. unfold scaffoldAfterEdgeChange. rewrite Hs. by destruct (ScenarioManager e), (TinyNodeCRManager e). }
  unfold editFlowAddEdge. destruct (EdgeAdder e); [|split; [done|by exists []]]. cbv zeta.
  destruct (_ || _); [split; [done|by exists []]|]. destruct (_ || _); [split; [done|by exists []]|].
  rewrite !(run_bind (check_port e (text_at input "from_node") _ _ _)).
  destruct (only_check_port (text_at input "from_node") (text_at input "from_port") "source" "output" h) as (l1 & Hl1 & Hr1).
  destruct (check_port e (text_at input "from_node") _ _ _ h) as [[msg|] h1] eqn:E1; cbn [fst snd] in Hl1; subst h1.
  { split; [done|]. exists l1. split; [done|by apply writes_reads]. }
  destruct Hm as [Hm|Hm].
  { destruct (check_port_missing inspect _ _ "source" "output" h Hi Hm) as (msg & l & E & _). congruence. }
  destruct (check_port_missing inspect _ _ "target" "input" (l1 ++ h) Hi Hm) as (msg & l & E & Hw).
  rewrite !(run_bind (check_port e _ _ _ _)), E. split; [done|]. exists (l ++ l1). cbn. split; [by rewrite (assoc_L (++))|].
  by rewrite writes_app, (writes_reads _ Hr1), Hw.
Qed.
End edit.

Section demo.
#[local] Instance demo_range : MapRange unit := map_range_some_order unit.
#[local] Instance demo_range_obj : MapRange obj := map_range_some_order obj.
#[local] Instance demo_range_node : MapRange TinyNode := map_range_some_order TinyNode.

Definition demo_inspect (node port : string) : Answer (option PortInspectResult) := fun _ =>
  if (port =? "_settings") || (port =? "out") then Ok (Some (mkInspect JNull JNull)) else Err (ErrorString "no such port").

Definition demo_context : ExecutionContext :=
  {| ProjectName := "p"; FlowName := "f"; ctx_done := fun _ => false; ProjectReader := None; ModuleCatalog := None;
     FlowCreator := None; FlowModifier := None; PortInspector := Some demo_inspect; NodeAdder := None; NodeLabeler := None;
     NodeRepositioner := None; NodeSettingsConfigurer := None; NodeSharer := None;
     EdgeAdder := Some (fun f fp t tp _ => Ok (mkAddEdgeResult "e1" true));
     EdgeConfigurer := Some (fun _ _ _ _ _ => Ok (mkConfigureResult false "type mismatch" "" []));
     TinyNodeCRManager := None; ScenarioManager := None;
     SolutionExportFetcher := None; DashboardPageApplier := None; ScenarioApplier := None |}.

Definition demo_edit (to_port : string) : obj :=
  [("action", JStr "add_edge"); ("from_node", JStr "a"); ("from_port", JStr "out"); ("to_node", JStr "b");
   ("to_port", JStr to_port); ("configuration", JObj [("x", JStr "{{$}}")])].

Lemma missing_port_never_wired_witness :
  Success (Execute (fun _ => None) (fun s => s) demo_context (demo_edit "nowhere") []).1 = false /\
  exists l, (Execute (fun _ => None) (fun s => s) demo_context (demo_edit "nowhere") []).2 = l ++ [] /\ writes l = [].
Proof.
  apply (missing_port_never_wired (fun _ => None) (fun s => s) demo_context demo_inspect (demo_edit "nowhere") []).
  - reflexivity.
  - reflexivity.
  - right. intros h. split; reflexivity.
Defined.

(** An edge added together with a configuration that is rejected stays wired
    without one: nothing is deleted. *)
Example rejected_configuration_leaves_edge :
  let '(r, h) := Execute (fun _ => None) (fun s => s) demo_context (demo_edit "out") [] in
  Success r = false /\
  writes h = [AddEdge "a" "out" "b" "out"; ConfigureEdge "e1" [("x", JStr "{{$}}")] [] ""].
Proof. vm_compute. done. Qed.
End demo.
