(* ===== verification/Traces.v ===== *)
(** * Recorded traces

    [pkg/utils/trace.go]: what a recorded trace says of a flow - the order and
    latency of its ports and edges, errors, the data of ports - and how it is
    put on the nodes and edges of the canvas. [pkg/utils/stats.go]: the
    recordings as the collector sends them and the events of the live
    statistics; its streams are gRPC and left out. The identifiers of a span are
    not read here and left out as well.

    A latency is a float64 that only ever holds whole milliseconds and is
    modelled as an integer; [format_width] is [fmt.Sprintf("%fpx")] of the
    quotient it is given. Data bytes are text; nil bytes are [None]. *)
From S2P Require Import Prelude Names Json Elements Cleaning Backoff.
From Stdlib Require Import SpecFloat.

Open Scope string_scope.
Open Scope list_scope.

(** ** Recordings *)

Record SpanAttribute := mkAttribute { sa_Key : string; sa_Value : string }.
Record SpanEvent := mkSpanEvent { se_Name : string; se_Attributes : list SpanAttribute }.
Record Span := mkSpan {
  sp_StartTimeUnixNano : Z;
  sp_EndTimeUnixNano : Z;
  sp_Attributes : list SpanAttribute;
  sp_Events : list SpanEvent;
}.

(** The values an attribute of the collector may have. *)
Inductive AnyValue : Type :=
| StringValue (s : string)
| BoolValue (b : bool)
| IntValue (z : Z)
| DoubleValue (text : string)     (* as FormatFloat writes it *)
| BytesValue (s : string)
| OtherValue.

Definition attributeValue (v : option AnyValue) : string :=
  match v with
  | Some (StringValue s) | Some (BytesValue s) | Some (DoubleValue s) => s
  | Some (BoolValue b) => if b then "true" else "false"
  | Some (IntValue z) => go_itoa z
  | Some OtherValue | None => ""
  end.

(** What [GetTraceByID] makes of a span: times are uint64 to the collector. *)
Record ApiEvent := mkApiEvent { ae_Name : string; ae_Attributes : list (string * option AnyValue) }.
Record ApiSpan := mkApiSpan {
  as_StartTimeUnixNano : Z;
  as_EndTimeUnixNano : Z;
  as_Attributes : list (string * option AnyValue);
  as_Events : list ApiEvent;
}.

Definition api_attributes (l : list (string * option AnyValue)) : list SpanAttribute :=
  map (fun a => mkAttribute a.1 (attributeValue a.2)) l.
Definition api_span (s : ApiSpan) : Span :=
  mkSpan (wrap64 (as_StartTimeUnixNano s)) (wrap64 (as_EndTimeUnixNano s)) (api_attributes (as_Attributes s))
    (map (fun e => mkSpanEvent (ae_Name e) (api_attributes (ae_Attributes e))) (as_Events s)).

(** ** Live statistics *)

Record StatsEvent := mkStatsEvent { sev_Metric : string; sev_Value : spec_float }.

(** The statistics of an element after an event, and whether they changed. *)
Definition ProcessStatsEvent (stats : option GoMap) (event : StatsEvent) : option GoMap * bool :=
  match stats with
  | None => (None, false)
  | Some m =>
      match m !! sev_Metric event with
      | Some (GFloat current) =>
          if SFleb (sev_Value event) current then (stats, false)
          else (Some (<[sev_Metric event := GFloat (sev_Value event)]> m), true)
      | _ => (Some (<[sev_Metric event := GFloat (sev_Value event)]> m), true)
      end
  end.

Definition ShouldAnimateEdge (lastActivityTimestamp nowSeconds : spec_float) : bool :=
  if SFeqb lastActivityTimestamp (S754_zero false) then false
  else SFltb (SFsub 53 1024 nowSeconds lastActivityTimestamp) EdgeAnimationTimeout.

(** The value of the last attribute with a key. *)
Definition last_attribute (k : string) (l : list SpanAttribute) : string :=
  default "" (last (map sa_Value (List.filter (fun a => sa_Key a =? k) l))).
(** The value of the first one. *)
Definition first_attribute (k : string) (l : list SpanAttribute) : option string :=
  sa_Value <$> List.find (fun a => sa_Key a =? k) l.

(** ** Statistics of a trace *)

Record TraceStatistics := mkStatistics {
  ts_Errors : gmap string string;
  ts_Latencies : gmap string Z;
  ts_Sequence : list string;
  ts_Data : gset string;
}.

Definition NewTraceStatistics : TraceStatistics := mkStatistics ∅ ∅ [] ∅.

(** An event's part of the span's error message. *)
Definition event_error (errMsg : string) (ev : SpanEvent) : string :=
  let errMsg :=
    if (se_Name ev =? "error") || (se_Name ev =? "exception") then
      default errMsg (last (map sa_Value (List.filter (fun a => sa_Key a =? "exception.message") (se_Attributes ev))))
    else errMsg in
  if se_Name ev =? "expression_error" then
    let expr := last_attribute "expression" (se_Attributes ev) in
    let exprErr := last_attribute "error" (se_Attributes ev) in
    if negb (expr =? "") && negb (exprErr =? "") then "expression {{" +:+ expr +:+ "}}: " +:+ exprErr else errMsg
  else errMsg.

(** The payloads of a span's data events. *)
Definition payloads (s : Span) : list string :=
  omap (fun ev => if se_Name ev =? "data" then first_attribute "payload" (se_Attributes ev) else None) (sp_Events s).

(** What a span is counted under, and the port it is about. *)
Definition span_key (s : Span) : string * string :=
  let port := last_attribute "port" (sp_Attributes s) in
  let from := last_attribute "from" (sp_Attributes s) in
  let to := last_attribute "to" (sp_Attributes s) in
  if port =? "" then (if from =? "signal" then to else from +:+ "|" +:+ to, to) else (port, port).

Definition span_latency (s : Span) : Z := Z.quot (wrap64 (sp_EndTimeUnixNano s - sp_StartTimeUnixNano s)) 1000000.

Abbreviation RuntimeData := (gmap string (option string)).

Definition some_text (p : string) : option string := if p =? "" then None else Some p.

Definition extract_span (acc : TraceStatistics * RuntimeData) (s : Span) : TraceStatistics * RuntimeData :=
  let '(ts, runtimeData) := acc in
  let errMsg := fold_left event_error (sp_Events s) "" in
  let '(key, port) := span_key s in
  let errors := if errMsg =? "" then ts_Errors ts else <[port := errMsg]> (ts_Errors ts) in
  if key =? "" then (mkStatistics errors (ts_Latencies ts) (ts_Sequence ts) (ts_Data ts), runtimeData)
  else
    let found := payloads s in
    let data := if existsb (fun p => negb (p =? "")) found then {[key]} ∪ ts_Data ts else ts_Data ts in
    let runtimeData := fold_left (fun m p => <[port := some_text p]> m) found runtimeData in
    let runtimeData :=
      match found, runtimeData !! port with
      | [], None => if port =? "" then runtimeData else <[port := None]> runtimeData
      | _, _ => runtimeData
      end in
    (mkStatistics errors (<[key := (default 0 (ts_Latencies ts !! key) + span_latency s)%Z]> (ts_Latencies ts))
       (ts_Sequence ts ++ [key]) data, runtimeData).

(** nil runtime data where there is no trace. *)
Definition ExtractTraceStatistics (trace : option (list Span)) : TraceStatistics * RuntimeData :=
  match trace with
  | None => (NewTraceStatistics, ∅)
  | Some spans => fold_left extract_span spans (NewTraceStatistics, ∅)
  end.

(** The payloads alone: of the spans that name a port, the first "port"
    attribute deciding; empty payloads are passed over. *)
Definition ExtractRuntimeDataFromTrace (trace : option (list Span)) : gmap string string :=
  match trace with
  | None => ∅
  | Some spans =>
      fold_left (fun m s =>
        match first_attribute "port" (sp_Attributes s) with
        | None | Some "" => m
        | Some port =>
            fold_left (fun m ev =>
              if se_Name ev =? "data" then
                match List.find (fun a => (sa_Key a =? "payload") && negb (sa_Value a =? "")) (se_Attributes ev) with
                | Some a => <[port := sa_Value a]> m
                | None => m
                end
              else m) (sp_Events s) m
        end) spans ∅
  end.

(** ** On the canvas *)

Fixpoint index_from (i : Z) (s : string) (l : list string) : Z :=
  match l with [] => (-1)%Z | x :: l' => if x =? s then i else index_from (i + 1) s l' end.
Definition getIndexByValue (l : list string) (s : string) : Z := index_from 0 s l.

Section canvas.
  Context `{MapRange Z}.
  Variable format_width : Z -> Z -> string.

(** [4 / total * (total - seq)], at least 2, as numerator and denominator. *)
Definition getStrokeWidth (seq total : Z) : string :=
  if (2 * total <=? 4 * (total - seq))%Z then format_width (4 * (total - seq)) total else format_width 2 1.

Definition trace_entry (hasError : bool) (latency : Z) (port : string) (sequence : Z) : json :=
  JObj [("error", JBool hasError); ("latency", JNum (go_itoa latency)); ("port", JStr port);
        ("sequence", JNum (go_itoa sequence))].

Definition handle_port (nodeID : string) (h : list (string * json)) : string := GetPortFullName nodeID (GetStr (fld h "id")).

(** The first pass: errors on handles. *)
Definition mark_handle (ts : TraceStatistics) (nodeID : string) (h : json) : json :=
  match as_obj h with
  | None => h
  | Some m => match ts_Errors ts !! handle_port nodeID m with Some er => JObj (obj_set "error" (JStr er) m) | None => h end
  end.
Definition handle_failed (ts : TraceStatistics) (nodeID : string) (h : json) : bool :=
  match as_obj h with Some m => match ts_Errors ts !! handle_port nodeID m with Some _ => true | None => false end | None => false end.

(** The second: the first source handle with a latency. *)
Definition source_latency (ts : TraceStatistics) (nodeID : string) (h : json) : option (Z * string * Z) :=
  match as_obj h with
  | None => None
  | Some m =>
      if GetStr (fld m "type") =? "target" then None
      else (fun lat => (lat, GetStr (fld m "id"), getIndexByValue (ts_Sequence ts) (handle_port nodeID m)))
             <$> ts_Latencies ts !! handle_port nodeID m
  end.

(** The third: the first target handle with an edge that has one. *)
Definition target_latency (ts : TraceStatistics) (nodeID : string) (h : json) : option (Z * string * Z) :=
  match as_obj h with
  | None => None
  | Some m =>
      if negb (GetStr (fld m "type") =? "target") then None
      else (fun kl => (kl.2, GetStr (fld m "id"), getIndexByValue (ts_Sequence ts) kl.1))
             <$> List.find (fun kl => go_has_suffix kl.1 ("|" +:+ handle_port nodeID m)) (map_range (ts_Latencies ts))
  end.

(** The last: any port of the node. *)
Definition hidden_latency (ts : TraceStatistics) (nodeID : string) : option (Z * string * Z) :=
  (fun kl => (kl.2, (ParseFullPortName kl.1).2, getIndexByValue (ts_Sequence ts) kl.1))
    <$> List.find (fun kl => (ParseFullPortName kl.1).1 =? nodeID) (map_range (ts_Latencies ts)).

Fixpoint first_some {A B} (f : A -> option B) (l : list A) : option B :=
  match l with [] => None | x :: l' => match f x with Some y => Some y | None => first_some f l' end end.

Definition node_latency (ts : TraceStatistics) (nodeID : string) (handles : list json) : option (Z * string * Z) :=
  match first_some (source_latency ts nodeID) handles with
  | Some r => Some r
  | None => match first_some (target_latency ts nodeID) handles with
            | Some r => Some r
            | None => hidden_latency ts nodeID
            end
  end.

Definition ApplyTraceStatToNode (nodeMap : list (string * json)) (ts : option TraceStatistics) : list (string * json) :=
  match ts, as_obj (fld nodeMap "data") with
  | Some ts, Some data =>
      let nodeID := GetStr (fld nodeMap "id") in
      match as_arr (fld data "handles") with
      | None => nodeMap
      | Some handles =>
          let hasError := existsb (handle_failed ts nodeID) handles in
          let data := obj_set "handles" (JArr (map (mark_handle ts nodeID) handles)) data in
          let data := match node_latency ts nodeID handles with
                      | Some (lat, port, seq) => obj_set "trace" (trace_entry hasError lat port seq) data
                      | None => if hasError then obj_set "trace" (JObj [("error", JBool true)]) data else data
                      end in
          obj_set "data" (JObj data) nodeMap
      end
  | _, _ => nodeMap
  end.

Definition ApplyTraceStatToEdge (edgeMap : list (string * json)) (ts : option TraceStatistics) : list (string * json) :=
  match ts with
  | None => edgeMap
  | Some ts =>
      let to := GetPortFullName (GetStr (fld edgeMap "target")) (GetStr (fld edgeMap "targetHandle")) in
      let from := GetPortFullName (GetStr (fld edgeMap "source")) (GetStr (fld edgeMap "sourceHandle")) in
      let edgeKey := from +:+ "|" +:+ to in
      match ts_Latencies ts !! edgeKey with
      | None => edgeMap
      | Some latency =>
          let seq := getIndexByValue (ts_Sequence ts) edgeKey in
          let info := [("latency", JNum (go_itoa latency)); ("sequence", JNum (go_itoa seq))] in
          let info := match ts_Errors ts !! to with
                      | Some er => obj_set "error" (JStr er) info
                      | None => match ts_Errors ts !! from with Some er => obj_set "error" (JStr er) info | None => info end
                      end in
          let data := default [] (as_obj (fld edgeMap "data")) in
          let style := default [] (as_obj (fld edgeMap "style")) in
          obj_set "style" (JObj (obj_set "strokeWidth" (JStr (getStrokeWidth seq (Z.of_nat (length (ts_Sequence ts))))) style))
            (obj_set "data" (JObj (obj_set "trace" (JObj info) data)) edgeMap)
      end
  end.
End canvas.

(** ** What a trace says *)

Definition kept (s : Span) : bool := negb ((span_key s).1 =? "").
Definition under (k : string) (s : Span) : bool := (span_key s).1 =? k.
Definition about (p : string) (s : Span) : bool := kept s && ((span_key s).2 =? p).

Definition sum_latency (spans : list Span) : Z := foldr (fun s acc => (span_latency s + acc)%Z) 0%Z spans.

Lemma sum_latency_snoc (spans : list Span) (s : Span) : sum_latency (spans ++ [s]) = (sum_latency spans + span_latency s)%Z.
Proof. unfold sum_latency. induction spans as [|x l IH]; cbn in *; lia. Qed.

Lemma filter_snoc {A} (p : A -> bool) (l : list A) (x : A) :
  List.filter p (l ++ [x]) = List.filter p l ++ if p x then [x] else [].
Proof. rewrite List.filter_app. cbn. by destruct (p x). Qed.

Lemma existsb_snoc {A} (p : A -> bool) (l : list A) (x : A) : existsb p (l ++ [x]) = existsb p l || p x.
Proof. rewrite existsb_app. cbn. by rewrite orb_false_r. Qed.

(** Writing a list of values one after the other. *)
Lemma fold_insert_lookup {A B} (f : A -> B) (port p : string) (l : list A) (m : gmap string B) :
  fold_left (fun m x => <[port := f x]> m) l m !! p =
    match last l with Some x => if port =? p then Some (f x) else m !! p | None => m !! p end.
Proof.
  induction l as [|x l IH] using rev_ind; [done|]. rewrite fold_left_app, last_snoc. cbn [fold_left].
  destruct (String.eqb_spec port p) as [->|Hne]; [by rewrite lookup_insert_eq|].
  rewrite lookup_insert_ne by done. rewrite IH. by destruct (last l).
Qed.

(** What is recorded of a port: nothing if no span is about it; no data if no
    span about it has a payload; or the last payload. *)
Definition recorded (p : string) (spans : list Span) : option (option string) :=
  let about_p := List.filter (about p) spans in
  match about_p with
  | [] => None
  | _ => Some (last (flat_map payloads about_p) ≫= some_text)
  end.

Lemma extract_snoc (spans : list Span) (s : Span) :
  ExtractTraceStatistics (Some (spans ++ [s])) = extract_span (ExtractTraceStatistics (Some spans)) s.
Proof. unfold ExtractTraceStatistics. by rewrite fold_left_app. Qed.

Lemma last_app_some {A} (l l' : list A) : last (l ++ l') = match last l' with Some x => Some x | None => last l end.
Proof.
  induction l' as [|x l' _] using rev_ind; [by rewrite app_nil_r|]. by rewrite (assoc_L (++)), !last_snoc.
Qed.

Lemma recorded_snoc (p : string) (spans : list Span) (s : Span) :
  recorded p (spans ++ [s]) =
    if about p s then Some (match last (payloads s) with
                            | Some x => some_text x
                            | None => default None (recorded p spans)
                            end)
    else recorded p spans.
Proof.
  unfold recorded. rewrite filter_snoc. destruct (about p s); [|by rewrite app_nil_r].
  cbv zeta. rewrite flat_map_app, last_app_some. cbn [flat_map]. rewrite app_nil_r.
  destruct (List.filter (about p) spans) as [|y l]; cbn [app default]; by destruct (last (payloads s)).
Qed.

Section statistics.
  Variable spans : list Span.

Lemma extract_data (p : string) : p <> "" -> (ExtractTraceStatistics (Some spans)).2 !! p = recorded p spans.
Proof.
  intros Hp. induction spans as [|s l IH] using rev_ind; [done|]. rewrite extract_snoc, recorded_snoc.
  destruct (ExtractTraceStatistics (Some l)) as [ts rd]. cbn [snd] in IH. unfold extract_span, about, kept.
  destruct (span_key s) as [key port]. cbn [fst snd]. destruct (String.eqb_spec key "") as [->|Hk]; cbn [negb andb snd]; [done|].
  set (found := payloads s). set (rd1 := fold_left _ found rd).
  assert (E1 : rd1 !! p = match last found with Some x => if port =? p then Some (some_text x) else rd !! p | None => rd !! p end)
    by apply fold_insert_lookup.
  destruct found as [|x found'] eqn:Ef.
  - cbn [last] in *. subst rd1. cbn [fold_left] in *. destruct (rd !! port) as [d|] eqn:Ed.
    + rewrite IH. destruct (String.eqb_spec port p) as [->|]; [|done]. rewrite <- IH, Ed. by destruct d.
    + destruct (String.eqb_spec port "") as [->|Hport].
      * rewrite IH. by destruct (String.eqb_spec "" p) as [<-|].
      * destruct (String.eqb_spec port p) as [->|Hne]; [|by rewrite lookup_insert_ne].
        rewrite lookup_insert_eq, <- IH, Ed. done.
  - rewrite E1. destruct (last (x :: found')) as [y|] eqn:El; [|by apply last_None in El].
    by destruct (port =? p).
Qed.

Lemma extract_sequence :
  ts_Sequence (ExtractTraceStatistics (Some spans)).1 = map (fun s => (span_key s).1) (List.filter kept spans).
Proof.
  induction spans as [|s l IH] using rev_ind; [done|]. rewrite extract_snoc, filter_snoc, map_app, <- IH.
  destruct (ExtractTraceStatistics (Some l)) as [ts rd]. unfold extract_span, kept.
  destruct (span_key s) as [key port] eqn:E. cbn [fst]. destruct (key =? ""); cbn; [by rewrite app_nil_r|by rewrite E].
Qed.

Lemma extract_latency (k : string) :
  ts_Latencies (ExtractTraceStatistics (Some spans)).1 !! k =
    match List.filter (fun s => kept s && under k s) spans with [] => None | l => Some (sum_latency l) end.
Proof.
  induction spans as [|s l IH] using rev_ind; [done|]. rewrite extract_snoc, filter_snoc.
  destruct (ExtractTraceStatistics (Some l)) as [ts rd]. cbn [fst] in IH. unfold extract_span, kept, under in *.
  destruct (span_key s) as [key port]. cbn [fst]. destruct (String.eqb_spec key "") as [->|Hk]; cbn [negb andb fst ts_Latencies].
  { rewrite app_nil_r. exact IH. }
  set (old := List.filter _ l) in *. destruct (String.eqb_spec key k) as [->|Hne].
  - rewrite lookup_insert_eq, IH. destruct old as [|x old]; cbn [app default id].
    + cbn. f_equal. lia.
    + change (x :: old ++ [s]) with ((x :: old) ++ [s]). by rewrite sum_latency_snoc.
  - rewrite lookup_insert_ne by done. rewrite app_nil_r. exact IH.
Qed.

(** C24. What the statistics of a trace say, exactly: the sequence lists the
    keys of the spans that have one, in the order of the spans; the latency of a
    key is the sum over its spans, and there is one exactly for the keys of the
    sequence; and the data of a port is missing when no span is about it, none
    when no span about it has a payload, and the last payload otherwise - so a
    port that a run went through is never taken for one without recording. *)
Theorem trace_statistics_exact :
  let '(ts, runtimeData) := ExtractTraceStatistics (Some spans) in
  ts_Sequence ts = map (fun s => (span_key s).1) (List.filter kept spans) /\
  (forall k, ts_Latencies ts !! k =
     match List.filter (fun s => kept s && under k s) spans with [] => None | l => Some (sum_latency l) end) /\
  (forall k, is_Some (ts_Latencies ts !! k) <-> k ∈ ts_Sequence ts) /\
  (forall p, p <> "" -> runtimeData !! p = recorded p spans).
Proof.
  pose proof extract_sequence as Hs. pose proof extract_latency as Hl. pose proof extract_data as Hd.
  destruct (ExtractTraceStatistics (Some spans)) as [ts rd]. cbn [fst snd] in *. split; [done|]. split; [done|].
  split; [|done]. intros k. rewrite Hl, Hs. rewrite list_elem_of_fmap. split.
  - destruct (List.filter (fun s => kept s && under k s) spans) as [|s l] eqn:E; [by intros [? ?]|]. intros _.
    assert (Hin : In s (List.filter (fun s => kept s && under k s) spans)) by (rewrite E; by left).
    apply filter_In in Hin as [Hin [Hk Hu]%andb_true_iff]. exists s. split; [by apply String.eqb_eq in Hu|].
    apply list_elem_of_In, filter_In. by split.
  - intros (s & -> & Hin). apply list_elem_of_In, filter_In in Hin as [Hin Hk].
    assert (Hin2 : In s (List.filter (fun s0 => kept s0 && under (span_key s).1 s0) spans)).
    { apply filter_In. split; [done|]. unfold under. apply andb_true_iff. split; [done|apply String.eqb_refl]. }
    by destruct (List.filter (fun s0 => kept s0 && under (span_key s).1 s0) spans).
Qed.
End statistics.

(** A span without any attribute - one of another subsystem, which the code
    means to ignore - is counted, as an edge from nowhere to nowhere. *)
Example foreign_span_counted :
  ts_Sequence (ExtractTraceStatistics (Some [mkSpan 0 2000000 [] []])).1 = ["|"] /\
  ts_Latencies (ExtractTraceStatistics (Some [mkSpan 0 2000000 [] []])).1 !! "|" = Some 2%Z.
Proof. by vm_compute. Qed.
