(* ===== verification/Usage.v ===== *)
(** * What runs consume, and what the tools say of recorded runs

    [module/usage.go]: the amounts a hop meters. [pkg/tools/get_usage.go],
    [get_trace_detail.go], [get_traces.go]: the tools that read recorded runs.

    Amounts are float64 and are added in the order the code adds them. The
    reader of traces is a service; the parser of durations, the conversion of a
    float that is out of range and the decoder of number literals are
    parameters. *)
From S2P Require Import Prelude GoErrors Json Backoff Publish Authoring Tools.
From Stdlib Require Import SpecFloat.

Open Scope string_scope.
Open Scope list_scope.

(** ** Metering *)

Definition UsageAttrPrefix : string := "tiny.usage.".

Abbreviation Amounts := (gmap string spec_float).

Definition zero : spec_float := S754_zero false.
Definition float_add (a b : spec_float) : spec_float := SFadd prec64 emax64 a b.

(** The calls of a sink are serialised by its mutex; a sink is the state they
    work on. *)
Definition add (counts : Amounts) (unit : string) (amount : spec_float) : Amounts :=
  <[unit := float_add (default zero (counts !! unit)) amount]> counts.

Definition total (counts : Amounts) : option Amounts := if decide (counts = ∅) then None else Some counts.

(** The sink of the context, if it has one. *)
Definition Meter (sink : option Amounts) (unit : string) (amount : spec_float) : option Amounts :=
  if (unit =? "") || SFleb amount zero then sink
  else (fun counts => add counts unit amount) <$> sink.

(** ** get_usage *)

Record TraceSummary := mkSummary {
  tsum_ID : string;
  tsum_Spans : Z;
  tsum_Errors : Z;
  tsum_Data : Z;
  tsum_Duration : Z;
  tsum_Start : Z;
  tsum_End : Z;
}.

(** A node's name is what precedes the last colon of the target. *)
Definition nodeOf (span : TraceSpanInfo) : string :=
  let target := if tsi_To span =? "" then tsi_Port span else tsi_To span in
  match go_cut_last ":" target with
  | Some (before, _) => before
  | None => if target =? "" then "(unknown)" else target
  end.

Record UsageRow := mkUsageRow { ur_node : string; ur_usage : Amounts }.

Record UsageReport := mkUsageReport {
  window_hours : spec_float;
  runs_examined : Z;
  runs_with_usage : Z;
  ur_total : Amounts;
  by_node : list UsageRow;
  ur_truncated : option string;
  ur_hint : option string;
}.

(** The tools' reader of traces. *)
Record TraceReader := mkTraceReader {
  ReadTraces : string -> string -> Z -> Z -> Z -> result goerror (list TraceSummary);
  ReadTraceDetail : string -> string -> result goerror (list TraceSpanInfo);
}.

Section usage.
  Context `{MapRange spec_float} `{MapRange Amounts} `{SliceSort}.

Definition rankOf (units : Amounts) : spec_float :=
  fold_left (fun sum ua => float_add sum ua.2) (map_range units) zero.

Definition nodeBreakdown (byNode : gmap string Amounts) : list UsageRow :=
  slice_sort (fun a b => SFltb (rankOf (ur_usage b)) (rankOf (ur_usage a)))
    (map (fun nu => mkUsageRow nu.1 nu.2) (map_range byNode)).

Abbreviation Tally := (Amounts * gmap string Amounts)%type.

Definition count_unit (node : string) (t : Tally) (ua : string * spec_float) : Tally :=
  (add t.1 ua.1 ua.2, <[node := add (default ∅ (t.2 !! node)) ua.1 ua.2]> t.2).

Definition metered (span : TraceSpanInfo) : bool := negb (bool_decide (tsi_Usage span = ∅)).

Definition count_span (t : Tally) (span : TraceSpanInfo) : Tally :=
  if metered span then fold_left (count_unit (nodeOf span)) (map_range (tsi_Usage span)) t else t.

(** One run: the tally, and whether anything was metered in it. *)
Definition count_run (acc : Tally * Z) (detail : result goerror (list TraceSpanInfo)) : Tally * Z :=
  match detail with
  | Err _ => acc
  | Ok spans => (fold_left count_span spans acc.1, (acc.2 + if existsb metered spans then 1 else 0)%Z)
  end.

Section tool.
  Variable out_of_range : spec_float -> Z.
  Variable reader : option TraceReader.
  Variable ProjectName : string.

Definition positive_or (fallback : Z) (v : json) : Z :=
  match numberFrom v with Some z => if (0 <? z)%Z then z else fallback | None => fallback end.

Definition GetUsage (input : obj) : ToolResult UsageReport :=
  match reader with
  | None => refused "trace reader not configured"
  | Some r =>
      let hours := float_of_int (positive_or 24 (fld input "lookback_hours")) in
      let maxTraces := positive_or 200 (fld input "max_traces") in
      let flow := default "" (str_at input "flow") in
      let lookback := duration_of_float out_of_range (float_mul hours (float_of_int (3600 * Second))) in
      match ReadTraces r ProjectName flow lookback 0 maxTraces with
      | Err err => refused ("read traces: " +:+ error_text err)
      | Ok summaries =>
          let '(total, byNode, runsWithUsage) :=
            fold_left count_run (map (fun s => ReadTraceDetail r ProjectName (tsum_ID s)) summaries) (∅, ∅, 0%Z) in
          let examined := Z.of_nat (length summaries) in
          mkToolResult true (Some (mkUsageReport hours examined runsWithUsage total (nodeBreakdown byNode)
            (if (maxTraces <=? examined)%Z
             then Some ("stopped at " +:+ go_itoa maxTraces +:+ " runs — the window holds more, so this total covers only the newest " +:+ go_itoa maxTraces)
             else None)
            (if bool_decide (total = ∅)
             then Some "Nothing metered in this window. Either nothing ran, or the components that ran do not meter — only paid work reports units."
             else None))) ""
      end
  end.

(** ** get_trace_detail *)

Inductive TraceIssue : Type :=
| ErrorIssue (span_id from to port : string) (detail : gmap string string)
| ExpressionIssue (span_id from to port expression error : string).

Record TraceDetail := mkTraceDetail {
  td_trace_id : string;
  td_total_spans : Z;
  td_errors : Z;
  td_spans : list TraceSpanInfo;
  td_usage : option Amounts;
  td_issues : option (list TraceIssue);
}.

Definition span_usage (t : Amounts) (s : TraceSpanInfo) : Amounts :=
  fold_left (fun t ua => add t ua.1 ua.2) (map_range (tsi_Usage s)) t.
Definition totalUsage (spans : list TraceSpanInfo) : Amounts := fold_left span_usage spans ∅.

Definition scan_event (s : TraceSpanInfo) (acc : Z * list TraceIssue) (e : TraceEventInfo) : Z * list TraceIssue :=
  let '(errors, issues) := acc in
  if (tei_Name e =? "error") || (tei_Name e =? "exception")
  then ((errors + 1)%Z, issues ++ [ErrorIssue (tsi_SpanID s) (tsi_From s) (tsi_To s) (tsi_Port s) (tei_Data e)])
  else if tei_Name e =? "expression_error"
  then (errors, issues ++ [ExpressionIssue (tsi_SpanID s) (tsi_From s) (tsi_To s) (tsi_Port s)
                             (default "" (tei_Data e !! "expression")) (default "" (tei_Data e !! "error"))])
  else acc.

Definition scan_spans (spans : list TraceSpanInfo) : Z * list TraceIssue :=
  fold_left (fun acc s => fold_left (scan_event s) (tsi_Events s) acc) spans (0%Z, []).

Definition GetTraceDetail (input : obj) : ToolResult TraceDetail :=
  if ProjectName =? "" then refused "project context is required"
  else match reader with
  | None => refused "trace reader not configured"
  | Some r =>
      let traceID := default "" (str_at input "trace_id") in
      if traceID =? "" then refused "trace_id is required"
      else match ReadTraceDetail r ProjectName traceID with
           | Err err => refused ("failed to get trace detail: " +:+ error_text err)
           | Ok spans =>
               let '(errors, issues) := scan_spans spans in
               let usage := totalUsage spans in
               mkToolResult true (Some (mkTraceDetail traceID (Z.of_nat (length spans)) errors spans
                 (if bool_decide (usage = ∅) then None else Some usage)
                 (match issues with [] => None | _ => Some issues end))) ""
           end
  end.

(** ** get_traces *)

Record TraceList := mkTraceList {
  tl_project : string;
  tl_total : Z;
  tl_error_traces : Z;
  tl_traces : list TraceSummary;
}.

  Variable number : string -> spec_float.                 (* the float64 of a literal *)
  Variable ParseDuration : string -> result goerror Z.    (* time *)

(** A positive number, converted to an int. *)
Definition float_input (v : json) : option Z :=
  match v with
  | JNum s => if SFltb zero (number s) then Some (duration_of_float out_of_range (number s)) else None
  | _ => None
  end.

Definition keep_trace (errorsOnly : bool) (limit : Z) (acc : Z * list TraceSummary) (tr : TraceSummary) : Z * list TraceSummary :=
  let '(errorTraces, filtered) := acc in
  let errorTraces := if (0 <? tsum_Errors tr)%Z then (errorTraces + 1)%Z else errorTraces in
  if errorsOnly && (tsum_Errors tr =? 0)%Z then (errorTraces, filtered)
  else if (Z.of_nat (length filtered) <? limit)%Z then (errorTraces, filtered ++ [tr])
  else (errorTraces, filtered).

Definition GetTraces (input : obj) : ToolResult TraceList :=
  if ProjectName =? "" then refused "project context is required"
  else match reader with
  | None => refused "trace reader not configured"
  | Some r =>
      let flowName := default "" (str_at input "flow") in
      let errorsOnly := match fld input "errors_only" with JBool b => b | _ => false end in
      let limit := match float_input (fld input "limit") with Some l => Z.min l 50 | None => 20%Z end in
      let offset := default 0%Z (float_input (fld input "offset")) in
      let lookback := match str_at input "time_range" with
                      | None | Some "" => (3600 * Second)%Z
                      | Some tr => match ParseDuration tr with Ok parsed => parsed | Err _ => (3600 * Second)%Z end
                      end in
      let fetchLimit := if errorsOnly then Z.min (limit * 5) 200 else limit in
      match ReadTraces r ProjectName flowName lookback offset fetchLimit with
      | Err err => refused ("failed to get traces: " +:+ error_text err)
      | Ok traces =>
          let '(errorTraces, filtered) := fold_left (keep_trace errorsOnly limit) traces (0%Z, []) in
          mkToolResult true (Some (mkTraceList ProjectName (Z.of_nat (length filtered)) errorTraces filtered)) ""
      end
  end.
End tool.
End usage.

(** ** What a report says *)

(** Floats that are not NaN are ordered. *)
Lemma float_lt_asym (a b : spec_float) : SFltb a b = true -> SFltb b a = false.
Proof.
  unfold SFltb, SFcompare. destruct a as [[]|[]| |[] m e], b as [[]|[]| |[] m' e']; try done;
    rewrite (Z.compare_antisym e e'); destruct (e ?= e')%Z; cbn; try done;
    change (Pos.compare_cont Eq) with Pos.compare; rewrite (Pos.compare_antisym m m'); by destruct (m ?= m')%positive.
Qed.

Lemma float_le_trans (a b c : spec_float) : b <> S754_nan ->
  SFltb a b = false -> SFltb b c = false -> SFltb a c = false.
Proof.
  intros Hb. unfold SFltb, SFcompare.
  destruct a as [[]|[]| |[] m e], b as [[]|[]| |[] m' e'], c as [[]|[]| |[] m'' e'']; try done; cbn;
    change (Pos.compare_cont Eq) with Pos.compare;
    destruct (Z.compare_spec e e'), (Z.compare_spec e' e''), (Z.compare_spec e e''); try done; try lia;
    destruct (Pos.compare_spec m m'), (Pos.compare_spec m' m''), (Pos.compare_spec m m''); try done; lia.
Qed.

Lemma fold_add_lookup (u : string) (l : list (string * spec_float)) (m : Amounts) : NoDup l.*1 ->
  fold_left (fun t ua => add t ua.1 ua.2) l m !! u =
    match (list_to_map l : Amounts) !! u with Some a => Some (float_add (default zero (m !! u)) a) | None => m !! u end.
Proof.
  revert m. induction l as [|[u' a] l IH]; intros m Hnd; [done|]. apply NoDup_cons in Hnd as [Hu Hnd].
  cbn [fold_left fst snd]. rewrite IH, list_to_map_cons by done. destruct (decide (u' = u)) as [->|Hne].
  - rewrite lookup_insert_eq. rewrite (not_elem_of_list_to_map_1 l u) by done. unfold add. by rewrite lookup_insert_eq.
  - rewrite lookup_insert_ne by done. unfold add. by rewrite lookup_insert_ne.
Qed.

Section report.
  Context `{MapRange spec_float} `{MapRange Amounts} `{SliceSort}.

(** The amounts of a unit, and their sum from the left; none if no span
    metered it. *)
Definition metered_sum (u : string) (spans : list TraceSpanInfo) : option spec_float :=
  match omap (fun s => tsi_Usage s !! u) spans with
  | [] => None
  | amounts => Some (fold_left float_add amounts zero)
  end.

Lemma metered_sum_snoc (u : string) (spans : list TraceSpanInfo) (s : TraceSpanInfo) :
  metered_sum u (spans ++ [s]) =
    match tsi_Usage s !! u with
    | Some a => Some (float_add (default zero (metered_sum u spans)) a)
    | None => metered_sum u spans
    end.
Proof.
  unfold metered_sum. rewrite omap_app. cbn. destruct (tsi_Usage s !! u) as [a|]; [|by rewrite app_nil_r].
  destruct (omap (fun s => tsi_Usage s !! u) spans) as [|x l] eqn:E; [done|]. cbn [app default].
  by rewrite (fold_left_app _ l [a]).
Qed.

Lemma span_usage_lookup (t : Amounts) (s : TraceSpanInfo) (u : string) :
  span_usage t s !! u = match tsi_Usage s !! u with Some a => Some (float_add (default zero (t !! u)) a) | None => t !! u end.
Proof.
  unfold span_usage. rewrite fold_add_lookup.
  - replace (list_to_map (map_range (tsi_Usage s)) : Amounts) with (tsi_Usage s); [done|].
    rewrite (list_to_map_proper (map_range (tsi_Usage s)) (map_to_list (tsi_Usage s))).
    + by rewrite list_to_map_to_list.
    + rewrite map_range_perm. apply NoDup_fst_map_to_list.
    + apply map_range_perm.
  - rewrite map_range_perm. apply NoDup_fst_map_to_list.
Qed.

Lemma total_usage_lookup (u : string) (spans : list TraceSpanInfo) : totalUsage spans !! u = metered_sum u spans.
Proof.
  unfold totalUsage. induction spans as [|s l IH] using rev_ind; [done|].
  by rewrite fold_left_app, metered_sum_snoc, <- IH; cbn [fold_left]; rewrite span_usage_lookup.
Qed.

Lemma count_units (n : string) (l : list (string * spec_float)) (t : Amounts * gmap string Amounts) :
  fold_left (count_unit n) l t =
    (fold_left (fun m ua => add m ua.1 ua.2) l t.1,
     match l with [] => t.2 | _ => <[n := fold_left (fun m ua => add m ua.1 ua.2) l (default ∅ (t.2 !! n))]> t.2 end).
Proof.
  revert t. induction l as [|ua l IH]; intros [m b]; [done|]. cbn [fold_left]. rewrite IH. cbn [count_unit fst snd].
  f_equal. rewrite lookup_insert_eq. cbn [default id]. destruct l; [done|]. by rewrite insert_insert_eq.
Qed.

Lemma count_span_unmetered (t : Amounts * gmap string Amounts) (s : TraceSpanInfo) :
  metered s = false -> count_span t s = t /\ forall u, tsi_Usage s !! u = None.
Proof.
  unfold count_span. intros E. rewrite E. split; [done|]. unfold metered in E.
  apply negb_false_iff, bool_decide_eq_true in E. intros u. by rewrite E.
Qed.

Lemma count_span_metered (t : Amounts * gmap string Amounts) (s : TraceSpanInfo) : metered s = true ->
  count_span t s = (span_usage t.1 s, <[nodeOf s := span_usage (default ∅ (t.2 !! nodeOf s)) s]> t.2).
Proof.
  unfold count_span. intros E. rewrite E, count_units. f_equal.
  destruct (map_range (tsi_Usage s)) eqn:Er; [|unfold span_usage; by rewrite Er].
  unfold metered in E. apply negb_true_iff, bool_decide_eq_false in E. exfalso. apply E.
  apply map_to_list_empty_iff. pose proof (map_range_perm (tsi_Usage s)) as Hp. rewrite Er in Hp. by apply Permutation_nil_l in Hp.
Qed.

(** The spans a node metered on, and whether there are any. *)
Definition spent_by (n : string) (spans : list TraceSpanInfo) : list TraceSpanInfo :=
  List.filter (fun s => nodeOf s =? n) spans.

Lemma tally_total (spans : list TraceSpanInfo) (t : Amounts * gmap string Amounts) :
  (fold_left count_span spans t).1 = fold_left span_usage spans t.1.
Proof.
  revert t. induction spans as [|s l IH]; intros t; [done|]. cbn [fold_left]. rewrite IH. f_equal.
  destruct (metered s) eqn:E; [by rewrite count_span_metered|].
  destruct (count_span_unmetered t s E) as [-> Hn]. apply map_eq. intros u. by rewrite span_usage_lookup, Hn.
Qed.

Lemma tally_nodes (n : string) (spans : list TraceSpanInfo) :
  match (fold_left count_span spans (∅, ∅)).2 !! n with
  | Some units => existsb metered (spent_by n spans) = true /\ forall u, units !! u = metered_sum u (spent_by n spans)
  | None => existsb metered (spent_by n spans) = false /\ forall u, metered_sum u (spent_by n spans) = None
  end.
Proof.
  induction spans as [|s l IH] using rev_ind; [done|]. rewrite fold_left_app. cbn [fold_left].
  set (t := fold_left count_span l (∅, ∅)) in *. unfold spent_by in *. rewrite List.filter_app. cbn [List.filter].
  assert (Hother : nodeOf s <> n -> (count_span t s).2 !! n = t.2 !! n).
  { intros Hne. destruct (metered s) eqn:E; [|by destruct (count_span_unmetered t s E) as [-> _]].
    rewrite count_span_metered by done. cbn [snd]. by rewrite lookup_insert_ne. }
  destruct (String.eqb_spec (nodeOf s) n) as [Hn|Hn]; [|by rewrite Hother, app_nil_r].
  rewrite existsb_app. cbn [existsb]. rewrite orb_false_r. destruct (metered s) eqn:E.
  - rewrite count_span_metered, Hn by done. cbn [snd]. rewrite lookup_insert_eq, orb_true_r. split; [done|].
    intros u. rewrite span_usage_lookup, metered_sum_snoc. destruct (t.2 !! n) as [units|]; destruct IH as [_ IH]; cbn [default id].
    + by rewrite IH.
    + by rewrite IH, lookup_empty.
  - destruct (count_span_unmetered t s E) as [-> Hu]. rewrite orb_false_r.
    destruct (t.2 !! n) as [units|]; destruct IH as [He IH]; (split; [done|]); intros u; by rewrite metered_sum_snoc, Hu.
Qed.

(** What of the runs could be read. *)
Definition readable (details : list (result goerror (list TraceSpanInfo))) : list (list TraceSpanInfo) :=
  omap (fun d => match d with Ok spans => Some spans | Err _ => None end) details.

Lemma count_runs (details : list (result goerror (list TraceSpanInfo))) (t : Amounts * gmap string Amounts) (n : Z) :
  fold_left count_run details (t, n) =
    (fold_left count_span (concat (readable details)) t,
     (n + Z.of_nat (length (List.filter (existsb metered) (readable details))))%Z).
Proof.
  revert t n. induction details as [|d l IH]; intros t n; [by rewrite Z.add_0_r|]. cbn [fold_left].
  destruct d as [spans|err]; [|apply IH]. cbn [count_run fst snd]. rewrite IH. change (readable (Ok spans :: l)) with (spans :: readable l).
  cbn [concat List.filter]. rewrite fold_left_app. f_equal.
  destruct (existsb metered spans); cbn [length]; lia.
Qed.

Lemma breakdown_perm (byNode : gmap string Amounts) :
  nodeBreakdown byNode ≡ₚ map (fun nu => mkUsageRow nu.1 nu.2) (map_to_list byNode).
Proof. unfold nodeBreakdown. rewrite slice_sort_perm. apply Permutation_map, map_range_perm. Qed.

Lemma breakdown_row (byNode : gmap string Amounts) (row : UsageRow) :
  row ∈ nodeBreakdown byNode <-> byNode !! ur_node row = Some (ur_usage row).
Proof.
  rewrite breakdown_perm, list_elem_of_fmap, <- elem_of_map_to_list. split.
  - by intros ([n m] & -> & Hin).
  - intros Hin. exists (ur_node row, ur_usage row). by destruct row.
Qed.

Lemma breakdown_nodup (byNode : gmap string Amounts) : NoDup (map ur_node (nodeBreakdown byNode)).
Proof.
  rewrite breakdown_perm, map_map. cbn. apply NoDup_fst_map_to_list.
Qed.

Lemma breakdown_sorted (byNode : gmap string Amounts) :
  (forall row, row ∈ nodeBreakdown byNode -> rankOf (ur_usage row) <> S754_nan) ->
  Sorted (fun a b => SFltb (rankOf (ur_usage a)) (rankOf (ur_usage b)) = false) (nodeBreakdown byNode).
Proof.
  intros Hn. apply slice_sort_sorted.
  - intros x y _ _. apply float_lt_asym.
  - intros x y z Hx Hy Hz Hxy Hyz. apply (float_le_trans _ (rankOf (ur_usage y))); [|done..].
    apply Hn. unfold nodeBreakdown. by rewrite slice_sort_perm.
Qed.

  Variable out_of_range : spec_float -> Z.

(** C25. What the usage report says, exactly, of the runs the reader lists: the
    total of a unit is the sum of its amounts over all spans of the runs that
    could be read, in order, and it is missing exactly where no span metered it;
    each node that metered something has one row, and its amounts are the sums
    over its spans; the runs counted as metered are those with a metered span;
    the report says that it stopped short exactly when as many runs were listed
    as asked for; and, where no sum is NaN, no row ranks below a later one. *)
Theorem usage_report_exact (r : TraceReader) (project : string) (input : obj) (summaries : list TraceSummary)
    (Hread : ReadTraces r project (default "" (str_at input "flow"))
               (duration_of_float out_of_range
                  (float_mul (float_of_int (positive_or 24 (fld input "lookback_hours"))) (float_of_int (3600 * Second))))
               0 (positive_or 200 (fld input "max_traces")) = Ok summaries) :
  let runs := readable (map (fun s => ReadTraceDetail r project (tsum_ID s)) summaries) in
  let spans := concat runs in
  exists report, GetUsage out_of_range (Some r) project input = mkToolResult true (Some report) "" /\
    (forall u, ur_total report !! u = metered_sum u spans) /\
    NoDup (map ur_node (by_node report)) /\
    (forall n, n ∈ map ur_node (by_node report) <-> exists s, s ∈ spans /\ nodeOf s = n /\ tsi_Usage s <> ∅) /\
    (forall row u, row ∈ by_node report -> ur_usage row !! u = metered_sum u (spent_by (ur_node row) spans)) /\
    runs_examined report = Z.of_nat (length summaries) /\
    runs_with_usage report = Z.of_nat (length (List.filter (existsb metered) runs)) /\
    (is_Some (ur_truncated report) <-> (positive_or 200 (fld input "max_traces") <= Z.of_nat (length summaries))%Z) /\
    ((forall row, row ∈ by_node report -> rankOf (ur_usage row) <> S754_nan) ->
     Sorted (fun a b => SFltb (rankOf (ur_usage a)) (rankOf (ur_usage b)) = false) (by_node report)).
Proof.
  intros runs spans. unfold GetUsage. rewrite Hread, count_runs. fold runs. fold spans.
  pose proof (tally_total spans (∅, ∅)) as Ht. pose proof (fun n => tally_nodes n spans) as Hb.
  destruct (fold_left count_span spans (∅, ∅)) as [tot byNode]. cbn [fst snd] in Ht, Hb.
  eexists. split; [reflexivity|]. cbn [ur_total by_node runs_examined runs_with_usage ur_truncated].
  split; [intros u; rewrite Ht; apply total_usage_lookup|]. split; [apply breakdown_nodup|]. split.
  - intros n. rewrite list_elem_of_fmap. specialize (Hb n). split.
    + intros (row & -> & Hrow%breakdown_row). rewrite Hrow in Hb. destruct Hb as [(s & [Hin Hn%String.eqb_eq]%filter_In & Hs)%existsb_exists _].
      exists s. split; [by apply list_elem_of_In|]. split; [done|]. by apply negb_true_iff, bool_decide_eq_false in Hs.
    + intros (s & Hin & Hn & Hs). destruct (byNode !! n) as [units|] eqn:E.
      { exists (mkUsageRow n units). split; [done|]. by apply breakdown_row. }
      destruct Hb as [Hb _]. assert (Ht' : existsb metered (spent_by n spans) = true); [|by rewrite Hb in Ht'].
      apply existsb_exists. exists s. split; [apply filter_In; split; [by apply list_elem_of_In|by apply String.eqb_eq]|].
      by apply negb_true_iff, bool_decide_eq_false.
  - split; [intros row u Hrow%breakdown_row; specialize (Hb (ur_node row)); rewrite Hrow in Hb; by apply Hb|].
    split; [done|]. split; [done|]. split; [|apply breakdown_sorted].
    destruct (Z.leb_spec (positive_or 200 (fld input "max_traces")) (Z.of_nat (length summaries))); split; try done; try lia.
Qed.
End report.

(** *** Metering *)

(** The amounts of a unit that count. *)
Definition counted (u : string) (calls : list (string * spec_float)) : list spec_float :=
  map snd (List.filter (fun c => (c.1 =? u) && negb (SFleb c.2 zero)) calls).

Lemma meter_exact (calls : list (string * spec_float)) (u : string) : u <> "" ->
  exists counts, fold_left (fun sink c => Meter sink c.1 c.2) calls (Some ∅) = Some counts /\
    counts !! u = match counted u calls with [] => None | amounts => Some (fold_left float_add amounts zero) end.
Proof.
  intros Hu. induction calls as [|c l (counts & IH & Hc)] using rev_ind; [by exists ∅|].
  rewrite fold_left_app, IH. cbn [fold_left]. unfold counted in *. rewrite List.filter_app, map_app. cbn [List.filter].
  unfold Meter. destruct (String.eqb_spec (c.1) "") as [E|Hne]; cbn [orb].
  { exists counts. split; [done|]. rewrite E. destruct (String.eqb_spec "" u); [congruence|]. cbn. by rewrite app_nil_r. }
  destruct (SFleb c.2 zero) eqn:Ez; cbn [negb]; rewrite ?andb_false_r, ?andb_true_r.
  { exists counts. split; [done|]. cbn. by rewrite app_nil_r. }
  exists (add counts c.1 c.2). split; [done|]. unfold add. destruct (String.eqb_spec (c.1) u) as [->|Hcu].
  - rewrite lookup_insert_eq, Hc. cbn [map]. destruct (map snd _) as [|x m]; [done|]. cbn [app default id].
    by rewrite (fold_left_app _ m [c.2]).
  - rewrite lookup_insert_ne by done. cbn [map]. by rewrite app_nil_r.
Qed.

(** ** Witnesses *)

Definition demo_span (to_ : string) (unit : string) (n : Z) : TraceSpanInfo :=
  mkSpanInfo "s" "" "hop" "" to_ "" "" zero "" [] {[unit := float_of_int n]}.
Definition demo_reader : TraceReader :=
  mkTraceReader (fun _ _ _ _ _ => Ok (map (fun i => mkSummary i 1 0 0 0 0 0) ["a"; "b"; "c"]))
    (fun _ id => if id =? "b" then Err (ErrorString "gone")
                 else Ok [demo_span "llm:in" "tokens" 7; demo_span "api:in" "calls" 1]).

Lemma usage_report_exact_witness :
  let S1 := map_range_some_order spec_float in
  let S2 := map_range_some_order Amounts in
  let S3 := insertion_sort in
  exists report, GetUsage (fun _ => 0%Z) (Some demo_reader) "p" [] = mkToolResult true (Some report) "" /\
    ur_total report !! "tokens" = Some (float_of_int 14) /\ runs_examined report = 3%Z /\ runs_with_usage report = 2%Z.
Proof.
  intros S1 S2 S3.
  destruct (usage_report_exact (fun _ => 0%Z) demo_reader "p" [] (map (fun i => mkSummary i 1 0 0 0 0 0) ["a"; "b"; "c"]) eq_refl)
    as (report & E & Ht & _ & _ & _ & Hx & Hw & _).
  exists report. split; [exact E|]. rewrite Ht, Hx, Hw. clear. split; [|split; [reflexivity|]].
  all: vm_compute. all: reflexivity.
Defined.
