(* ===== verification/CloneSolution.v ===== *)
(** * Installing a solution into a project

    [pkg/tools/clone_solution.go]: [clone_solution], which creates the flows and
    nodes of a published solution under fresh names, wires them with every
    reference to a node rewritten, and applies its pages and scenarios. The
    nodes come from [GraphImport.NodesFromGraphElements].

    Decoding the export is a parameter. A node's name prefix for the cluster is
    an argument of the call that creates it. *)
From S2P Require Import Prelude GoErrors Names Graph Json Elements GraphExport GraphImport Authoring Tools.
From S2P Require Manager.

Open Scope string_scope.
Open Scope list_scope.

Record exportEnvelopePage := mkEnvelopePage { xp_Name : string; xp_Title : string; xp_SortIdx : Z; xp_Widgets : list Manager.TinyWidget }.
Record exportEnvelopeFlow := mkEnvelopeFlow { xf_ResourceName : string; xf_Name : string }.
Record exportEnvelopeScenario := mkEnvelopeScenario { xs_Name : string; xs_Ports : list Manager.ScenarioPortData }.
Record exportEnvelope := mkEnvelope {
  xe_Version : Z;
  xe_Type : string;
  xe_Title : string;
  xe_TinyFlows : list exportEnvelopeFlow;
  xe_Elements : list obj;
  xe_Pages : list exportEnvelopePage;
  xe_Scenarios : list exportEnvelopeScenario;
}.

(** ** Names *)

Abbreviation Mapping := (gmap string string).

Definition remapNodeRef (ref : string) (mapping : Mapping) : string :=
  match go_cut ":" ref with
  | None => ref
  | Some (node, port) => match mapping !! node with Some newName => newName +:+ ":" +:+ port | None => ref end
  end.

Definition GetNodeGenerateName `{Md5} (projectName flowName moduleName componentName : string) : string :=
  GetNodeFullName (GetFlowHashPrefix projectName flowName) (SanitizeResourceName moduleName) (SanitizeResourceName componentName)
    +:+ "-".

(** ** A node's resource *)

Definition map_node (f : TinyNode -> TinyNode) (n : GraphNode) : GraphNode :=
  mkGraphNode (f (gn_node n)) (gn_annotations n) (gn_module n) (gn_lastUpdate n).
Definition wired_with (edges : list TinyNodeEdge) (ports : list TinyNodePortConfig) (n : GraphNode) : GraphNode :=
  map_node (fun t => with_ports (with_edges t edges) ports) n.

(** Go's zero value of a node, which a missing key reads as. *)
Definition zero_node : GraphNode :=
  mkGraphNode (mkNode "" "" ∅ 0 (mkSpec "" "" [] []) empty_status) ∅ "" None.
Definition node_at (nodes : gmap string GraphNode) (id : string) : GraphNode := default zero_node (nodes !! id).

Definition flow_of (src : GraphNode) : string := label (gn_node src) FlowNameLabel.

(** The copy that is created: no name, no edges, only the configurations that
    refer to nothing, the labels of the new flow. *)
Definition fresh_copy (project newFlow : string) (flowMapping : Mapping) (src : GraphNode) : GraphNode :=
  let n := gn_node src in
  let labels := <[FlowNameLabel := newFlow]> (<[ProjectNameLabel := project]> (n_Labels n)) in
  let spec := mkSpec (spec_Module (n_Spec n)) (spec_Component (n_Spec n))
                (List.filter (fun pc => pc_From pc =? "") (spec_Ports (n_Spec n))) [] in
  let shared := annotation src SharedWithFlowsAnnotation in
  mkGraphNode (mkNode "" (n_Namespace n) labels (n_Generation n) spec (n_Status n))
    (if shared =? "" then gn_annotations src
     else <[SharedWithFlowsAnnotation := ResolveSharedFlows shared flowMapping]> (gn_annotations src))
    (gn_module src) (gn_lastUpdate src).

Definition new_edge (newName newFlow : string) (nameMapping : Mapping) (edge : TinyNodeEdge) : TinyNodeEdge :=
  let to_ := remapNodeRef (e_To edge) nameMapping in
  mkEdge (newName +:+ "_" +:+ e_Port edge +:+ "-" +:+ go_replace_char ":" "_" to_) (e_Port edge) to_ newFlow (e_RetryPolicy edge).

Definition new_port (newFlow : string) (nameMapping : Mapping) (port : TinyNodePortConfig) : TinyNodePortConfig :=
  mkPortConfig (remapNodeRef (pc_From port) nameMapping) (pc_Port port) (pc_Schema port) (pc_Configuration port)
    (if pc_FlowID port =? "" then "" else newFlow).

(** The live node with the source's wiring. *)
Definition wire_like (src : GraphNode) (newName newFlow : string) (nameMapping : Mapping) (live : GraphNode) : GraphNode :=
  wired_with (map (new_edge newName newFlow nameMapping) (gn_edges src))
    (map (new_port newFlow nameMapping) (gn_ports src)) live.

(** ** Phases *)

Record FlowCreated := mkFlowCreated { fc_title : string; fc_flow : string; fc_nodes : Z }.

Record CloneOutput := mkCloneOutput {
  co_solution : string;
  co_project : string;
  co_flows_created : list FlowCreated;
  co_nodes_created : Z;
  co_scenarios_applied : Z;
  co_dashboard_widgets : Z;
  co_dashboard_pages : Z;
  co_missing_modules : list string;
  co_warnings : list string;
  co_errors : list string;
}.

(** What phase 1 leaves behind. *)
Record Cloned := mkCloned {
  cl_names : Mapping;
  cl_errors : list string;
  cl_modules : gset string;
  cl_widgets : Z;
}.

Section clone.
  Context `{Md5} `{MapRange unit}.
  Variable marshal : json -> result goerror string.
  Variable decode : string -> result goerror exportEnvelope.
  Variable e : ExecutionContext.

Section nodes.
  Variable nodes : gmap string GraphNode.
  Variable order : list string.

(** Phase 0. *)
Fixpoint create_flows (create : string -> Answer string) (flows : list exportEnvelopeFlow) (flowMapping : Mapping)
    (created : list FlowCreated) : M (result string (Mapping * list FlowCreated)) :=
  match flows with
  | [] => mret (Ok (flowMapping, created))
  | f :: flows' =>
      r ← ask (CreateFlow (xf_Name f)) (create (xf_Name f));
      match r with
      | Err err => mret (Err ("failed to create flow " +:+ go_quote (xf_Name f) +:+ ": " +:+ error_text err))
      | Ok newFlow =>
          let count := length (List.filter (fun id => flow_of (node_at nodes id) =? xf_ResourceName f) order) in
          create_flows create flows' (<[xf_ResourceName f := newFlow]> flowMapping)
            (created ++ [mkFlowCreated (xf_Name f) newFlow (Z.of_nat count)])
      end
  end.

Definition generate_name (newFlow : string) (src : GraphNode) : string :=
  GetNodeGenerateName (ProjectName e) newFlow (spec_Module (n_Spec (gn_node src))) (spec_Component (n_Spec (gn_node src))).

(** Phase 1. *)
Fixpoint create_nodes (crs : NodeCRService) (flowMapping : Mapping) (ids : list string) (c : Cloned) : M (result string Cloned) :=
  match ids with
  | [] => mret (Ok c)
  | oldID :: ids' =>
      let src := node_at nodes oldID in
      match flowMapping !! flow_of src with
      | None =>
          create_nodes crs flowMapping ids'
            (mkCloned (cl_names c)
               (cl_errors c ++ ["node " +:+ go_quote oldID +:+ " references flow " +:+ go_quote (flow_of src) +:+ " absent from tinyFlows"])
               (cl_modules c) (cl_widgets c))
      | Some newFlow =>
          let copy := fresh_copy (ProjectName e) newFlow flowMapping src in
          r ← ask (CreateNodeCR (generate_name newFlow src) copy) (nc_Create crs (generate_name newFlow src) copy);
          match r with
          | Err err => mret (Err ("failed to create node " +:+ go_quote oldID +:+ ": " +:+ error_text err))
          | Ok newName =>
              create_nodes crs flowMapping ids'
                (mkCloned (<[oldID := newName]> (cl_names c)) (cl_errors c)
                   ({[spec_Module (n_Spec (gn_node src))]} ∪ cl_modules c)
                   (if label (gn_node src) DashboardLabel =? "" then cl_widgets c else (cl_widgets c + 1)%Z))
          end
      end
  end.

(** One node of phase 2: at most [n] attempts, again only on a conflict. *)
Fixpoint wire_node (crs : NodeCRService) (newName : string) (wire : GraphNode -> GraphNode) (n : nat)
    (lastErr : option goerror) : M (option goerror) :=
  match n with
  | O => mret lastErr
  | S n' =>
      live ← ask (GetNodeCR newName) (nc_Get crs newName);
      match live with
      | Err err => mret (Some err)
      | Ok live =>
          r ← ask (UpdateNodeCR (wire live)) (nc_Update crs (wire live));
          match r with
          | Ok _ => mret None
          | Err err => if nc_IsConflict crs err then wire_node crs newName wire n' (Some err) else mret (Some err)
          end
      end
  end.

Definition attempts : nat := 5.

(** Phase 2. *)
Fixpoint wire_nodes (crs : NodeCRService) (flowMapping nameMapping : Mapping) (ids : list string) : M (option string) :=
  match ids with
  | [] => mret None
  | oldID :: ids' =>
      let src := node_at nodes oldID in
      match nameMapping !! oldID, gn_edges src, gn_ports src with
      | None, _, _ | _, [], [] => wire_nodes crs flowMapping nameMapping ids'
      | Some newName, _, _ =>
          let newFlow := default "" (flowMapping !! flow_of src) in
          failed ← wire_node crs newName (wire_like src newName newFlow nameMapping) attempts None;
          match failed with
          | Some err => mret (Some ("failed to wire node " +:+ go_quote newName +:+ ": " +:+ error_text err))
          | None => wire_nodes crs flowMapping nameMapping ids'
          end
      end
  end.
End nodes.

(** Phase 2.5. *)
Definition new_widget (nameMapping : Mapping) (w : Manager.TinyWidget) : option Manager.TinyWidget :=
  let port := remapNodeRef (Manager.w_Port w) nameMapping in
  if (port =? Manager.w_Port w) && negb (str_has ":" (Manager.w_Port w)) then None
  else Some (Manager.mkWidget port (Manager.w_Name w) (Manager.w_SchemaPatch w) (Manager.w_GridX w) (Manager.w_GridY w) (Manager.w_GridW w) (Manager.w_GridH w)).

Definition page_title (p : exportEnvelopePage) : string := if xp_Title p =? "" then xp_Name p else xp_Title p.

Fixpoint apply_pages (apply : string -> Z -> list Manager.TinyWidget -> Answer unit) (nameMapping : Mapping)
    (pages : list exportEnvelopePage) : M (Z * list string) :=
  match pages with
  | [] => mret (0%Z, [])
  | p :: pages' =>
      match omap (new_widget nameMapping) (xp_Widgets p) with
      | [] => apply_pages apply nameMapping pages'
      | widgets =>
          r ← ask (ApplyDashboardPage (page_title p) (xp_SortIdx p) widgets) (apply (page_title p) (xp_SortIdx p) widgets);
          rest ← apply_pages apply nameMapping pages';
          mret (match r with
                | Err err => (rest.1, ("dashboard page " +:+ go_quote (page_title p) +:+ " not applied: " +:+ error_text err) :: rest.2)
                | Ok _ => ((1 + rest.1)%Z, rest.2)
                end)
      end
  end.

Definition pages_phase (nameMapping : Mapping) (pages : list exportEnvelopePage) : M (Z * list string) :=
  match DashboardPageApplier e, pages with
  | Some apply, _ => apply_pages apply nameMapping pages
  | None, [] => mret (0%Z, [])
  | None, _ => mret (0%Z, [go_itoa (Z.of_nat (length pages)) +:+ " dashboard page(s) were not applied (no page applier configured)"])
  end.

(** Phase 3. *)
Definition new_sample (nameMapping : Mapping) (p : Manager.ScenarioPortData) : Manager.ScenarioPortData :=
  Manager.mkPortData (remapNodeRef (Manager.spd_Port p) nameMapping) (Manager.spd_Data p).

Fixpoint apply_scenarios (apply : string -> list Manager.ScenarioPortData -> Answer unit) (nameMapping : Mapping)
    (scenarios : list exportEnvelopeScenario) : M (Z * list string) :=
  match scenarios with
  | [] => mret (0%Z, [])
  | sc :: scenarios' =>
      if (xs_Name sc =? "") || bool_decide (xs_Ports sc = []) then apply_scenarios apply nameMapping scenarios'
      else
        let remapped := map (new_sample nameMapping) (xs_Ports sc) in
        r ← ask (ApplyScenario (xs_Name sc) remapped) (apply (xs_Name sc) remapped);
        rest ← apply_scenarios apply nameMapping scenarios';
        mret (match r with
              | Err err => (rest.1, ("scenario " +:+ go_quote (xs_Name sc) +:+ " not applied: " +:+ error_text err) :: rest.2)
              | Ok _ => ((1 + rest.1)%Z, rest.2)
              end)
  end.

Definition scenarios_phase (nameMapping : Mapping) (scenarios : list exportEnvelopeScenario) : M (Z * list string) :=
  match ScenarioApplier e, scenarios with
  | Some apply, _ => apply_scenarios apply nameMapping scenarios
  | None, [] => mret (0%Z, [])
  | None, _ => mret (0%Z, [go_itoa (Z.of_nat (length scenarios)) +:+
                          " scenarios in the solution were not applied (no scenario applier configured)"])
  end.

Definition missing_modules (used : gset string) : M (list string) :=
  match ModuleCatalog e with
  | None => mret []
  | Some catalog =>
      mods ← ask ListModules (mc_ListModules catalog);
      mret (match mods with
            | Err _ => []
            | Ok mods => go_sort_strings (List.filter (fun m => negb (existsb (String.eqb m) (map mi_Name mods)))
                                            (map fst (map_range (gset_to_gmap tt used))))
            end)
  end.

(** Everything from phase 0 on. *)
Definition install (create : string -> Answer string) (crs : NodeCRService) (export : exportEnvelope)
    (nodes : gmap string GraphNode) (order : list string) : M (ToolResult CloneOutput) :=
  flows ← create_flows nodes order create (xe_TinyFlows export) ∅ [];
  match flows with
  | Err msg => mret (refused msg)
  | Ok (flowMapping, created) =>
      cloned ← create_nodes nodes crs flowMapping order (mkCloned ∅ [] ∅ 0);
      match cloned with
      | Err msg => mret (refused msg)
      | Ok c =>
          failed ← wire_nodes nodes crs flowMapping (cl_names c) order;
          match failed with
          | Some msg => mret (refused msg)
          | None =>
              pages ← pages_phase (cl_names c) (xe_Pages export);
              scenarios ← scenarios_phase (cl_names c) (xe_Scenarios export);
              missing ← missing_modules (cl_modules c);
              let out := mkCloneOutput (xe_Title export) (ProjectName e) created (Z.of_nat (size (cl_names c)))
                           scenarios.1 (cl_widgets c) pages.1 missing (pages.2 ++ scenarios.2) (cl_errors c) in
              mret (match cl_errors c with
                    | [] => mkToolResult true (Some out) ""
                    | errors => mkToolResult false (Some out) (go_join "; " errors)
                    end)
          end
      end
  end.

Definition Execute (input : obj) : M (ToolResult CloneOutput) :=
  match SolutionExportFetcher e, FlowCreator e, TinyNodeCRManager e with
  | None, _, _ => mret (refused "solution export fetch not configured")
  | _, None, _ => mret (refused "flow creator not configured")
  | _, _, None => mret (refused "node CR manager not configured")
  | Some fetch, Some create, Some crs =>
      if ProjectName e =? "" then mret (refused "no project in context — pass 'project'")
      else
        let id := match str_at input "solution" with None | Some "" => default "" (str_at input "solution_uuid") | Some s => s end in
        if id =? "" then mret (refused "'solution' (slug or UUID) is required")
        else
          raw ← ask (FetchSolutionExport id) (fetch id);
          match raw with
          | Err err => mret (refused ("failed to fetch solution export: " +:+ error_text err))
          | Ok raw =>
              match decode raw with
              | Err err => mret (refused ("invalid solution export: " +:+ error_text err))
              | Ok export =>
                  if negb (xe_Type export =? "solution") || bool_decide (length (xe_TinyFlows export) = 0%nat)
                  then mret (refused "solution export has no flows")
                  else
                    match NodesFromGraphElements marshal (xe_Elements export) with
                    | (_, _, (_ :: _) as errs) =>
                        mret (refused ("solution export failed reconstruction (" +:+ go_itoa (Z.of_nat (length errs)) +:+
                                       " errors): " +:+ go_join "; " errs))
                    | (_, [], []) => mret (refused "solution has no nodes")
                    | (nodes, order, []) => install create crs export nodes order
                    end
              end
          end
  end.
End clone.
