(* ===== verification/CloneSpec.v ===== *)
(** * A clone is the solution, under new names

    What [clone_solution] reports as a success has created every node of the
    solution and wired it like its original, with every reference to a node of
    the solution turned into one to its clone. *)
From S2P Require Import Prelude GoErrors Names Graph Json Elements GraphExport GraphImport ImportSpec Authoring Tools ToolsSpec CloneSolution.
From S2P Require Manager.

Open Scope string_scope.
Open Scope list_scope.

(** ** Calls and their answers *)

(** A call was made, on a history of this kind. *)
Definition answered (h : History) (c : Call) (P : History -> Prop) : Prop := exists l h0, h = l ++ c :: h0 /\ P h0.

Lemma answered_now (h : History) (c : Call) (P : History -> Prop) : P h -> answered (c :: h) c P.
Proof. intros HP. by exists [], h. Qed.

Lemma answered_later (l h : History) (c : Call) (P : History -> Prop) : answered h c P -> answered (l ++ h) c P.
Proof. intros (l' & h0 & -> & HP). exists (l ++ l'), h0. by rewrite (assoc_L (++)). Qed.

Lemma answered_next (c' c : Call) (h : History) (P : History -> Prop) : answered h c P -> answered (c' :: h) c P.
Proof. apply (answered_later [c']). Qed.
#[local] Hint Resolve answered_now answered_next answered_later : core.

(** A program only adds to the history. *)
Definition extends (h h' : History) : Prop := exists l, h' = l ++ h.
Lemma extends_refl (h : History) : extends h h.
Proof. by exists []. Qed.
Lemma extends_cons (c : Call) (h h' : History) : extends (c :: h) h' -> extends h h'.
Proof. intros [l ->]. exists (l ++ [c]). by rewrite <- (assoc_L (++)). Qed.
Lemma extends_trans (h h' h'' : History) : extends h h' -> extends h' h'' -> extends h h''.
Proof. intros [l ->] [l' ->]. exists (l' ++ l). by rewrite (assoc_L (++)). Qed.
Lemma answered_extends (h h' : History) (c : Call) (P : History -> Prop) : extends h h' -> answered h c P -> answered h' c P.
Proof. intros [l ->]. apply answered_later. Qed.

Section clone.
  Context `{Md5} `{MapRange unit}.
  Variable marshal : json -> result goerror string.
  Variable decode : string -> result goerror exportEnvelope.
  Variable e : ExecutionContext.

Section phases.
  Variable nodes : gmap string GraphNode.
  Variable order : list string.
  Variable crs : NodeCRService.

Lemma create_flows_spec (create : string -> Answer string) (flows : list exportEnvelopeFlow) (fm : Mapping)
    (created : list FlowCreated) (h : History) :
  match create_flows nodes order create flows fm created h with
  | (Ok (fm', _), h') =>
      extends h h' /\ (forall r new, fm' !! r = Some new -> fm !! r = Some new \/
        exists f, f ∈ flows /\ xf_ResourceName f = r /\
                  answered h' (CreateFlow (xf_Name f)) (fun h0 => create (xf_Name f) h0 = Ok new))
  | (Err _, _) => True
  end.
Proof.
  revert fm created h. induction flows as [|f flows IH]; intros fm created h; cbn [create_flows].
  { split; [apply extends_refl|]. by left. }
  rewrite run_bind. unfold ask. destruct (create (xf_Name f) h) as [newFlow|err] eqn:Ef; [|done].
  set (created' := created ++ _). specialize (IH (<[xf_ResourceName f := newFlow]> fm) created' (CreateFlow (xf_Name f) :: h)).
  destruct (create_flows nodes order create flows _ created' _) as [[[fm' cr]|] h']; [|done].
  destruct IH as [Hext Hfm]. split; [by eapply extends_cons|]. intros r new Hr. destruct (Hfm r new Hr) as [Hold|(f' & Hin & Hf')].
  - destruct (decide (xf_ResourceName f = r)) as [<-|Hne]; [|rewrite lookup_insert_ne in Hold by done; by left].
    rewrite lookup_insert_eq in Hold. injection Hold as <-. right. exists f. split; [by left|]. split; [done|].
    eapply answered_extends; [exact Hext|]. by apply answered_now.
  - right. exists f'. split; [by right|done].
Qed.

(** A node was created as a copy of its original. *)
Definition created_as (fm names : Mapping) (h : History) (id : string) : Prop :=
  let src := node_at nodes id in
  exists newFlow newName, fm !! flow_of src = Some newFlow /\ names !! id = Some newName /\
    answered h (CreateNodeCR (generate_name e newFlow src) (fresh_copy (ProjectName e) newFlow fm src))
      (fun h0 => nc_Create crs (generate_name e newFlow src) (fresh_copy (ProjectName e) newFlow fm src) h0 = Ok newName).

Lemma create_nodes_spec (fm : Mapping) (ids : list string) (c : Cloned) (h : History) :
  match create_nodes e nodes crs fm ids c h with
  | (Ok c', h') =>
      extends h h' /\ (cl_errors c' = [] ->
        cl_errors c = [] /\ dom (cl_names c') = list_to_set ids ∪ dom (cl_names c) /\
        (forall id, id ∉ ids -> cl_names c' !! id = cl_names c !! id) /\
        Forall (created_as fm (cl_names c') h') ids)
  | (Err _, _) => True
  end.
Proof.
  revert c h. induction ids as [|id ids IH]; intros c h; cbn [create_nodes].
  { split; [apply extends_refl|]. intros Hc. split; [done|]. split; [set_solver|]. by split. }
  set (src := node_at nodes id). destruct (fm !! flow_of src) as [newFlow|] eqn:Ef.
  - rewrite run_bind. unfold ask.
    set (copy := fresh_copy _ _ _ src). set (gen := generate_name e newFlow src).
    destruct (nc_Create crs gen copy h) as [newName|err] eqn:En; [|done].
    set (c1 := mkCloned _ _ _ _). specialize (IH c1 (CreateNodeCR gen copy :: h)).
    destruct (create_nodes e nodes crs fm ids c1 _) as [[c'|] h']; [|done]. destruct IH as [Hext IH].
    split; [by eapply extends_cons|]. intros Hc. destruct (IH Hc) as (He & Hd & Hk & Hall). cbn [c1 cl_errors cl_names] in *.
    split; [done|]. split; [rewrite Hd, dom_insert_L; set_solver|]. split.
    + intros id' Hid'. rewrite Hk by set_solver. rewrite lookup_insert_ne; [done|set_solver].
    + constructor; [|done]. destruct (decide (id ∈ ids)) as [Hin|Hnin]; [by rewrite Forall_forall in Hall; apply Hall|].
      exists newFlow, newName. split; [done|]. split; [by rewrite Hk, lookup_insert_eq|].
      eapply answered_extends; [exact Hext|]. by apply answered_now.
  - set (c1 := mkCloned _ _ _ _). specialize (IH c1 h). destruct (create_nodes e nodes crs fm ids c1 h) as [[c'|] h']; [|done].
    destruct IH as [Hext IH]. split; [done|]. intros Hc. destruct (IH Hc) as (He & _). cbn [c1 cl_errors] in He.
    by apply app_eq_nil in He as [_ ?].
Qed.

(** A node was read and at once written back with this wiring, and that was
    accepted. *)
Definition rewired (newName : string) (wire : GraphNode -> GraphNode) (h : History) : Prop :=
  exists live, answered h (UpdateNodeCR (wire live)) (fun h1 =>
    nc_Update crs (wire live) h1 = Ok tt /\ exists h0, h1 = GetNodeCR newName :: h0 /\ nc_Get crs newName h0 = Ok live).

Lemma wire_node_spec (newName : string) (wire : GraphNode -> GraphNode) (n : nat) (lastErr : option goerror) (h : History) :
  let '(r, h') := wire_node crs newName wire n lastErr h in
  exists l, h' = l ++ h /\ (length l <= 2 * n)%nat /\
    (r = None -> (n = 0%nat /\ lastErr = None) \/ rewired newName wire h').
Proof.
  revert lastErr h. induction n as [|n IH]; intros lastErr h; cbn [wire_node].
  { exists []. split; [done|]. split; [done|]. by left. }
  rewrite run_bind. unfold ask. destruct (nc_Get crs newName h) as [live|err] eqn:Eg.
  2:{ exists [GetNodeCR newName]. split; [done|]. split; [cbn; lia|done]. }
  rewrite run_bind. set (h1 := GetNodeCR newName :: h). destruct (nc_Update crs (wire live) h1) as [[]|err] eqn:Eu.
  { exists [UpdateNodeCR (wire live); GetNodeCR newName]. split; [done|]. split; [cbn; lia|]. intros _. right.
    exists live. apply answered_now. split; [done|]. by exists h. }
  destruct (nc_IsConflict crs err).
  2:{ exists [UpdateNodeCR (wire live); GetNodeCR newName]. split; [done|]. split; [cbn; lia|done]. }
  specialize (IH (Some err) (UpdateNodeCR (wire live) :: h1)).
  destruct (wire_node crs newName wire n (Some err) (UpdateNodeCR (wire live) :: h1)) as [r h']. destruct IH as (l & -> & Hl & Hr).
  exists (l ++ [UpdateNodeCR (wire live); GetNodeCR newName]). split; [by rewrite <- (assoc_L (++))|].
  rewrite length_app. split; [cbn; lia|]. intros Hn. destruct (Hr Hn) as [[_ ?]|?]; [done|by right].
Qed.

Definition wired_like (fm names : Mapping) (h : History) (id : string) : Prop :=
  let src := node_at nodes id in
  forall newName, names !! id = Some newName -> gn_edges src = [] /\ gn_ports src = [] \/
    rewired newName (wire_like src newName (default "" (fm !! flow_of src)) names) h.

Lemma rewired_extends (newName : string) (wire : GraphNode -> GraphNode) (h h' : History) :
  extends h h' -> rewired newName wire h -> rewired newName wire h'.
Proof. intros Hext (live & Ha). exists live. by eapply answered_extends. Qed.

Lemma wire_nodes_spec (fm names : Mapping) (ids : list string) (h : History) :
  let '(r, h') := wire_nodes nodes crs fm names ids h in
  extends h h' /\ (r = None -> Forall (wired_like fm names h') ids).
Proof.
  revert h. induction ids as [|id ids IH]; intros h; cbn [wire_nodes].
  { split; [apply extends_refl|]. by constructor. }
  set (src := node_at nodes id).
  assert (Hskip : (forall newName, names !! id = Some newName -> gn_edges src = [] /\ gn_ports src = []) ->
    let '(r, h') := wire_nodes nodes crs fm names ids h in
    extends h h' /\ (r = None -> Forall (wired_like fm names h') (id :: ids))).
  { intros Hn. specialize (IH h). destruct (wire_nodes nodes crs fm names ids h) as [r h']. destruct IH as [Hext IH].
    split; [done|]. intros Hr. constructor; [|by apply IH]. intros newName Hname. left. by apply Hn with newName. }
  destruct (names !! id) as [newName|] eqn:En; [|by apply Hskip].
  destruct (gn_edges src) as [|ed eds] eqn:Ee, (gn_ports src) as [|pt pts] eqn:Ep; [by apply Hskip| | |].
  all: clear Hskip; rewrite run_bind; set (wire := wire_like src newName _ names);
    pose proof (wire_node_spec newName wire attempts None h) as Hw;
    destruct (wire_node crs newName wire attempts None h) as [failed h1]; destruct Hw as (l & Eh & _ & Hw);
    (assert (Hext1 : extends h h1) by (by exists l)); (destruct failed as [err|]; [split; [done|done]|]);
    specialize (IH h1); destruct (wire_nodes nodes crs fm names ids h1) as [r h']; destruct IH as [Hext IH];
    (split; [by eapply extends_trans|]); intros Hr; (constructor; [|by apply IH]);
    intros newName' Hname; rewrite En in Hname; injection Hname as <-; right;
    (eapply rewired_extends; [exact Hext|]); destruct (Hw eq_refl) as [[? _]|?]; done.
Qed.
End phases.

(** Pages, scenarios and modules only add calls. *)
Lemma only_extends (P : Call -> Prop) {A} (m : M A) (h : History) : only P m -> extends h (m h).2.
Proof. intros Hm. destruct (Hm h) as (l & Hl & _). by exists l. Qed.

Lemma only_pages (names : Mapping) (pages : list exportEnvelopePage) : only (fun _ => True) (pages_phase e names pages).
Proof.
  unfold pages_phase. destruct (DashboardPageApplier e) as [apply|]; [|only_tac].
  induction pages as [|p pages IH]; cbn [apply_pages]; only_tac.
Qed.

Lemma only_scenarios (names : Mapping) (scs : list exportEnvelopeScenario) : only (fun _ => True) (scenarios_phase e names scs).
Proof.
  unfold scenarios_phase. destruct (ScenarioApplier e) as [apply|]; [|only_tac].
  induction scs as [|s scs IH]; cbn [apply_scenarios]; only_tac.
Qed.

Lemma only_missing (used : gset string) : only (fun _ => True) (missing_modules e used).
Proof. unfold missing_modules. only_tac. Qed.

Lemma created_extends (nodes : gmap string GraphNode) (crs : NodeCRService) (fm names : Mapping) (h h' : History) (id : string) :
  extends h h' -> created_as nodes crs fm names h id -> created_as nodes crs fm names h' id.
Proof.
  intros Hext (newFlow & newName & Hf & Hn & Ha). exists newFlow, newName. split; [done|]. split; [done|]. by eapply answered_extends.
Qed.

Lemma wired_extends (nodes : gmap string GraphNode) (crs : NodeCRService) (fm names : Mapping) (h h' : History) (id : string) :
  extends h h' -> wired_like nodes crs fm names h id -> wired_like nodes crs fm names h' id.
Proof. intros Hext Hw newName Hn. destruct (Hw newName Hn) as [?|?]; [by left|right; by eapply rewired_extends]. Qed.

(** Flow names come from the service that created the flows. *)
Definition flows_created (create : string -> Answer string) (flows : list exportEnvelopeFlow) (fm : Mapping) (h : History) : Prop :=
  forall r new, fm !! r = Some new -> exists f, f ∈ flows /\ xf_ResourceName f = r /\
    answered h (CreateFlow (xf_Name f)) (fun h0 => create (xf_Name f) h0 = Ok new).

(** From the export on. *)
Lemma install_spec (create : string -> Answer string) (crs : NodeCRService) (export : exportEnvelope)
    (nodes : gmap string GraphNode) (order : list string) (h : History) :
  let '(r, h') := install e create crs export nodes order h in
  Success r = true -> extends h h' /\ exists out fm names, Output r = Some out /\
    co_errors out = [] /\ co_nodes_created out = Z.of_nat (size (list_to_set (C := gset string) order)) /\
    dom names = list_to_set order /\ flows_created create (xe_TinyFlows export) fm h' /\
    Forall (created_as nodes crs fm names h') order /\ Forall (wired_like nodes crs fm names h') order.
Proof.
  unfold install. rewrite run_bind. pose proof (create_flows_spec nodes order create (xe_TinyFlows export) ∅ [] h) as Hf.
  destruct (create_flows nodes order create (xe_TinyFlows export) ∅ [] h) as [[[fm created]|msg] h1]; [|done].
  destruct Hf as [Hx1 Hf]. rewrite run_bind. pose proof (create_nodes_spec nodes crs fm order (mkCloned ∅ [] ∅ 0) h1) as Hc.
  destruct (create_nodes e nodes crs fm order (mkCloned ∅ [] ∅ 0) h1) as [[c|msg] h2]; [|done]. destruct Hc as [Hx2 Hc].
  rewrite run_bind. pose proof (wire_nodes_spec nodes crs fm (cl_names c) order h2) as Hw.
  destruct (wire_nodes nodes crs fm (cl_names c) order h2) as [[msg|] h3]; [done|]. destruct Hw as [Hx3 Hw]. specialize (Hw eq_refl).
  rewrite run_bind. pose proof (only_extends _ _ h3 (only_pages (cl_names c) (xe_Pages export))) as Hx4.
  destruct (pages_phase e (cl_names c) (xe_Pages export) h3) as [pages h4]. cbn [snd] in Hx4.
  rewrite run_bind. pose proof (only_extends _ _ h4 (only_scenarios (cl_names c) (xe_Scenarios export))) as Hx5.
  destruct (scenarios_phase e (cl_names c) (xe_Scenarios export) h4) as [scenarios h5]. cbn [snd] in Hx5.
  rewrite run_bind. pose proof (only_extends _ _ h5 (only_missing (cl_modules c))) as Hx6.
  destruct (missing_modules e (cl_modules c) h5) as [missing h6]. cbn [snd] in Hx6.
  assert (Hx36 : extends h3 h6) by (eapply extends_trans; [exact Hx4|]; by eapply extends_trans).
  assert (Hx26 : extends h2 h6) by by eapply extends_trans.
  assert (Hx16 : extends h1 h6) by by eapply extends_trans.
  destruct (cl_errors c) as [|er ers] eqn:Ec; [|done]. intros _. destruct (Hc eq_refl) as (_ & Hd & _ & Hcr). cbn [cl_names] in Hd.
  rewrite dom_empty_L, (right_id_L ∅ (∪)) in Hd. split; [by eapply extends_trans|]. eexists _, fm, (cl_names c). split; [reflexivity|]. cbn.
  split; [done|]. split; [by rewrite <- size_dom, Hd|]. split; [done|]. split; [|split].
  - intros r new Hr. destruct (Hf r new Hr) as [?|(f & Hin & Hr' & Ha)]; [done|]. exists f. split; [done|]. split; [done|].
    by eapply answered_extends.
  - eapply Forall_impl; [exact Hcr|]. intros id. by apply created_extends.
  - eapply Forall_impl; [exact Hw|]. intros id. by apply wired_extends.
Qed.

(** ** References *)

Lemma remap_known (node port newName : string) (names : Mapping) :
  str_has ":" node = false -> names !! node = Some newName -> remapNodeRef (node +:+ ":" +:+ port) names = newName +:+ ":" +:+ port.
Proof. intros Hn Hm. unfold remapNodeRef. change (":" +:+ port) with (String ":" port). by rewrite go_cut_app, Hm. Qed.

(** What the imported nodes refer to is imported. *)
Lemma import_references (els : list obj) (nodes : gmap string GraphNode) (order : list string) (errs : list string) (id : string)
    (n : GraphNode) : NodesFromGraphElements marshal els = (nodes, order, errs) -> nodes !! id = Some n ->
  (forall ed, ed ∈ gn_edges n -> exists target port, target ∈ order /\ e_To ed = target +:+ ":" +:+ port) /\
  (forall pc, pc ∈ gn_ports n -> pc_From pc = "" \/ exists source port, source ∈ order /\ pc_From pc = source +:+ ":" +:+ port).
Proof.
  intros E Hn. pose proof (import_spec marshal els) as Hs. rewrite E in Hs. destruct Hs as (_ & Hord & Hlook & _).
  assert (Hland : forall el, lands (dom nodes) el = true ->
    GetStr (fld el "source") ∈ order /\ GetStr (fld el "target") ∈ order).
  { intros el [[_ H1]%andb_true_iff H2]%andb_true_iff. apply bool_decide_eq_true in H1, H2.
    rewrite elem_of_dom, <- Hord in H1. by rewrite elem_of_dom, <- Hord in H2. }
  rewrite Hlook in Hn. destruct (first_node marshal els id) as [n0|] eqn:Efirst; [|done]. injection Hn as <-.
  unfold first_node in Efirst. destruct (List.find _ els) as [el|]; [|done].
  apply fmap_Some in Efirst as (data & _ & ->). cbn. split.
  - intros ed. unfold edges_from. rewrite list_elem_of_fmap. intros (el' & -> & Hin).
    apply list_elem_of_In, filter_In in Hin as [_ [Hl _]%andb_true_iff]. destruct (Hland el' Hl) as [_ Ht]. by eexists _, _.
  - intros pc. unfold gn_ports. cbn. rewrite elem_of_app. intros [Hin|Hin].
    + left. apply list_elem_of_omap in Hin as (hi & Hhi & Hcfg). unfold import_handles in Hhi.
      destruct (fld data "handles"); try by apply elem_of_nil in Hhi. apply list_elem_of_omap in Hhi as (hd & _ & Hhd).
      unfold import_handle in Hhd. repeat case_match; simplify_eq/=; done.
    + right. unfold configs_to in Hin. apply list_elem_of_omap in Hin as (el' & _ & Hcfg). destruct (lands (dom nodes) el') eqn:El; [|done].
      destruct (Hland el' El) as [Hsrc _]. case_match; [|done]. unfold import_edge_config in Hcfg.
      repeat case_match; simplify_eq/=; try done. by eexists _, _.
Qed.

(** C9. A clone that reports success is the whole solution: the export was
    fetched and rebuilt without an error; every node of it was created, under
    the labels of the new flow its own flow became, as a copy without references
    ([fresh_copy]); every node with edges or configurations was then read and at
    once written back, and that write was accepted, with the edges and
    configurations of the original in their order and every reference renamed
    ([wire_like]); and each of these edges leads to the clone of the node the
    original led to. The number reported is the number of nodes. *)
Theorem clone_is_complete (input : obj) (h : History) :
  let '(r, h') := Execute marshal decode e input h in
  Success r = true -> exists crs create export nodes order fm names out,
    TinyNodeCRManager e = Some crs /\ FlowCreator e = Some create /\ Output r = Some out /\
    (exists fetch id raw, SolutionExportFetcher e = Some fetch /\ decode raw = Ok export /\
       answered h' (FetchSolutionExport id) (fun h0 => fetch id h0 = Ok raw)) /\
    NodesFromGraphElements marshal (xe_Elements export) = (nodes, order, []) /\
    co_errors out = [] /\ co_nodes_created out = Z.of_nat (length order) /\
    flows_created create (xe_TinyFlows export) fm h' /\
    Forall (created_as nodes crs fm names h') order /\ Forall (wired_like nodes crs fm names h') order /\
    (forall id ed, id ∈ order -> ed ∈ gn_edges (node_at nodes id) -> exists target port newTarget,
       e_To ed = target +:+ ":" +:+ port /\ names !! target = Some newTarget /\
       (str_has ":" target = false -> remapNodeRef (e_To ed) names = newTarget +:+ ":" +:+ port)).
Proof.
  unfold Execute. destruct (SolutionExportFetcher e) as [fetch|] eqn:E1; [|done]. destruct (FlowCreator e) as [create|] eqn:E2; [|done].
  destruct (TinyNodeCRManager e) as [crs|] eqn:E3; [|done]. destruct (ProjectName e =? ""); [done|].
  set (id := match str_at input "solution" with None => _ | _ => _ end). destruct (id =? ""); [done|].
  rewrite run_bind. unfold ask. destruct (fetch id h) as [raw|] eqn:Ef; [|done]. destruct (decode raw) as [export|] eqn:Ed; [|done].
  destruct (negb (xe_Type export =? "solution") || _); [done|].
  destruct (NodesFromGraphElements marshal (xe_Elements export)) as [[nodes order] errs] eqn:En.
  destruct order as [|o order']; [by destruct errs|]. destruct errs; [|done]. set (order := o :: order') in *.
  pose proof (install_spec create crs export nodes order (FetchSolutionExport id :: h)) as Hi.
  destruct (install e create crs export nodes order _) as [r h']. intros Hok.
  destruct (Hi Hok) as (Hx & out & fm & names & Ho & He & Hn & Hd & Hf & Hc & Hw).
  pose proof (import_spec marshal (xe_Elements export)) as Hs. rewrite En in Hs. destruct Hs as (Hnd & Hord & _).
  exists crs, create, export, nodes, order, fm, names, out. split; [done|]. split; [done|]. split; [done|]. split.
  { exists fetch, id, raw. split; [done|]. split; [done|]. eapply answered_extends; [exact Hx|]. by apply answered_now. }
  split; [done|]. split; [done|]. split; [by rewrite Hn, size_list_to_set|]. split; [done|]. split; [done|]. split; [done|].
  intros id' ed Hin Hed. apply Hord in Hin as [n Hin]. unfold node_at in Hed. rewrite Hin in Hed. cbn [default id] in Hed.
  destruct (import_references _ _ _ _ _ _ En Hin) as [Href _]. destruct (Href ed Hed) as (target & port & Ht & Heq).
  assert (Hname : is_Some (names !! target)) by (apply elem_of_dom; rewrite Hd; by apply elem_of_list_to_set).
  destruct Hname as [newTarget Hname]. exists target, port, newTarget. split; [done|]. split; [done|].
  intros Hcolon. rewrite Heq. by apply remap_known.
Qed.
End clone.

(** ** A concrete clone *)

Section demo.
#[local] Instance demo_md5 : Md5 := md5_some.
#[local] Instance demo_range : MapRange unit := map_range_some_order unit.

Definition demo_node (id flow : string) (shared : string) : obj :=
  [("id", JStr id); ("type", JStr "tinyNode"); ("flow", JStr flow);
   ("data", JObj [("component", JStr "c"); ("module", JStr "m"); ("shared_with_flows", JStr shared)])].
Definition demo_edge (source target flow : string) : obj :=
  [("id", JStr "e"); ("type", JStr "tinyEdge"); ("source", JStr source); ("sourceHandle", JStr "out");
   ("target", JStr target); ("targetHandle", JStr "in"); ("flow", JStr flow);
   ("data", JObj [("configuration", JObj [])])].

Definition demo_export : exportEnvelope :=
  mkEnvelope 1 "solution" "Demo" [mkEnvelopeFlow "f" "Flow"; mkEnvelopeFlow "g" "Other"]
    [demo_node "a" "f" "g"; demo_node "b" "g" ""; demo_edge "a" "b" "g"] [] [].

(** A cluster that names nodes after the number of calls so far. *)
Definition demo_name (h : History) : string := "new" +:+ go_itoa (Z.of_nat (length h)).
Definition demo_crs : NodeCRService :=
  mkNodeCRService (fun _ => Ok []) (fun _ _ h => Ok (demo_name h))
    (fun name _ => Ok (mkGraphNode (mkNode name "" ∅ 0 (mkSpec "" "" [] []) empty_status) ∅ "" None)) (fun _ _ => Ok tt) (fun _ => false).
Definition demo_context : ExecutionContext :=
  {| ProjectName := "p"; FlowName := ""; ctx_done := fun _ => false; ProjectReader := None; ModuleCatalog := None;
     FlowCreator := Some (fun flow _ => Ok ("p-" +:+ flow)); FlowModifier := None; PortInspector := None; NodeAdder := None;
     NodeLabeler := None; NodeRepositioner := None; NodeSettingsConfigurer := None; NodeSharer := None; EdgeAdder := None;
     EdgeConfigurer := None; TinyNodeCRManager := Some demo_crs; ScenarioManager := None;
     SolutionExportFetcher := Some (fun _ _ => Ok "{}"); DashboardPageApplier := None; ScenarioApplier := None |}.

Definition demo_clone : ToolResult CloneOutput * History :=
  Execute (fun _ => Ok "{}") (fun _ => Ok demo_export) demo_context [("solution", JStr "demo")] [].

Lemma clone_is_complete_witness :
  exists out order, Output demo_clone.1 = Some out /\ co_nodes_created out = Z.of_nat (length order) /\ order = ["a"; "b"].
Proof.
  pose proof (clone_is_complete (fun _ => Ok "{}") (fun _ => Ok demo_export) demo_context [("solution", JStr "demo")] []) as T.
  unfold demo_clone. destruct (Execute _ _ demo_context _ []) as [r h'] eqn:E.
  assert (Hs : Success r = true) by (vm_compute in E; injection E as <- <-; reflexivity).
  destruct (T Hs) as (crs & create & export & nodes & order & fm & names & out & _ & _ & Ho & (fetch & id & raw & _ & Hd & _) & Hn & _ & Hc & _).
  exists out, order. split; [exact Ho|]. split; [exact Hc|]. injection Hd as <-. vm_compute in Hn. by injection Hn.
Defined.

(** An edge drawn on the flow a node is shared into comes out on the node's own
    flow. *)
Example shared_edge_changes_flow :
  exists n, UpdateNodeCR n ∈ demo_clone.2 /\ map e_FlowID (gn_edges n) = ["p-Flow"] /\
  map e_FlowID (gn_edges (node_at (NodesFromGraphElements (fun _ => Ok "{}") (xe_Elements demo_export)).1.1 "a")) = ["g"].
Proof.
  destruct demo_clone as [r h] eqn:E. vm_compute in E. injection E as <- <-. eexists. split; [right; right; left|]. by vm_compute.
Qed.
End demo.
