(* ===== verification/Rules.v ===== *)
(** * Rules a module and a solution must satisfy

    [pkg/solution/validate.go]: what the widgets of a solution may look like,
    checked before an upload and at an import. [cli/validate.go] and
    [component_shape.go]: what the error ports of a module's components declare.

    Decoding JSON is a parameter. The problems of a solution are sorted, so no
    result depends on the order in which a map is ranged over; the order of the
    members of a decoded object is the one they were decoded in. *)
From S2P Require Import Prelude GoErrors Graph Json Redact GraphExport Authoring.

Open Scope string_scope.
Open Scope list_scope.

(** ** Properties a schema declares *)

Definition declared (m : obj) : list string :=
  match obj_get "properties" m with Some (JObj props) => obj_keys props | _ => [] end.

(** Anywhere in the document. *)
Fixpoint schemaHasProperty (node : json) (want : string) : bool :=
  match node with
  | JObj m => existsb (String.eqb want) (declared m) || existsb (fun kv => schemaHasProperty kv.2 want) m
  | JArr l => existsb (fun v => schemaHasProperty v want) l
  | _ => false
  end.

Fixpoint property_names (v : json) : gset string :=
  match v with
  | JObj m => list_to_set (declared m) ∪ ⋃ (map (fun kv => property_names kv.2) m)
  | JArr l => ⋃ (map property_names l)
  | _ => ∅
  end.
Definition schemaPropertyNames (schema : obj) : gset string := property_names (JObj schema).

(** ** Error ports of a module *)

Record componentPortShape := mkPortShape {
  cp_Name : string; cp_Label : option string; cp_Source : bool; cp_Position : option Z;
  cp_Schema : option obj; cp_DefaultData : option obj }.
Record componentShape := mkShape {
  cs_Name : string; cs_Description : string; cs_Info : option string; cs_Tags : option (list string);
  cs_Ports : option (list componentPortShape) }.

Definition errorPortName : string := "error".

Definition missing_fields (schema : obj) : list string :=
  List.filter (fun req => negb (bool_decide (req ∈ schemaPropertyNames schema))) ["context"; "error"; "retryable"].

Definition port_warning (component : string) (p : componentPortShape) : option string :=
  if negb (cp_Name p =? errorPortName) || negb (cp_Source p) then None
  else match cp_Schema p with
       | None => None
       | Some schema =>
           match missing_fields schema with
           | [] => None
           | missing =>
               Some ("component " +:+ go_quote component +:+ " error port is missing " +:+ show_names missing +:+
                     " — emit module.NewError(ctx, err) (module.ErrorMessage) so the retry component and the platform can supervise it; wrap transient failures with module.Retryable")
           end
       end.

Definition validateErrorPorts (components : list componentShape) : list string :=
  flat_map (fun c => omap (port_warning (cs_Name c)) (default [] (cs_Ports c))) components.

(** ** Widgets of a solution *)

Section widgets.
  Context `{MapRange TinyNode}.
  Variable unmarshal : string -> option json.

Definition isPerRunTrigger (node : TinyNode) : bool :=
  match List.find (fun ps => (ps_Name ps =? ControlPort) && negb (ps_Schema ps =? "")) (st_Ports (n_Status node)) with
  | None => false
  | Some ps => match read_object unmarshal (ps_Schema ps) with
               | None => false
               | Some schema => schemaHasProperty (JObj schema) "send"
               end
  end.

Definition feedsPersistedConfig (node : TinyNode) : bool :=
  match spec_Edges (n_Spec node) with
  | [] => false
  | edges => forallb (fun ed => match go_cut ":" (e_To ed) with Some (_, port) => port =? "config" | None => false end) edges
  end.

(** The member "context" of a document, in any case, as a map; the last one
    decides, and a member of another type is an error. *)
Definition context_member (acc : option obj) (kv : string * json) : option obj :=
  match acc with
  | None => None
  | Some ctx =>
      if go_equal_fold kv.1 "context" then
        match kv.2 with
        | JObj m => Some (fold_left (fun ctx kv => obj_set kv.1 kv.2 ctx) m ctx)
        | JNull => Some []
        | _ => None
        end
      else Some ctx
  end.

Definition read_context (bytes : string) : option obj :=
  match unmarshal bytes with
  | Some (JObj m) => fold_left context_member m (Some [])
  | Some JNull => Some []
  | _ => None
  end.

Definition settingsContextFields (node : TinyNode) : list string :=
  match List.find (fun pc => (pc_Port pc =? SettingsPort) && negb (pc_Configuration pc =? "")) (spec_Ports (n_Spec node)) with
  | None => []
  | Some pc => match read_context (pc_Configuration pc) with
               | None => []
               | Some ctx => go_sort_strings (obj_keys ctx)
               end
  end.

Definition without (fields : list string) (drop : string) : list string := List.filter (fun f => negb (f =? drop)) fields.

Definition shortNodeName (name : string) : string :=
  match go_cut_last "." name with Some (_, rest) => if rest =? "" then name else rest | None => name end.

(** The credential of a form that is filled on every run. *)
Definition mixed_credential (node : TinyNode) : option string :=
  if isPerRunTrigger node && negb (feedsPersistedConfig node) then
    let fields := settingsContextFields node in
    if (1 <? length fields)%nat then List.find IsSecretKey fields else None
  else None.

(** The inputs of a widget that are given the whole message. *)
Definition passthrough (pc : TinyNodePortConfig) : list string :=
  if (pc_From pc =? "") || (pc_Configuration pc =? "") then []
  else match read_object unmarshal (pc_Configuration pc) with
       | None => []
       | Some cfg => omap (fun kv => match kv.2 with
                                     | JStr s => if go_trim_space s =? "{{$}}" then Some kv.1 else None
                                     | _ => None
                                     end) cfg
       end.

Definition node_problems (name : string) (node : TinyNode) : list string :=
  if label node DashboardLabel =? "" then []
  else
    let short := shortNodeName name in
    match mixed_credential node with
    | None => []
    | Some f => [short +:+ ": widget form carries the credential " +:+ go_quote f +:+ " alongside per-run inputs " +:+
                 show_names (without (settingsContextFields node) f) +:+
                 " — send the credential once into inject.config from its own widget, and keep this form to what changes per run"]
    end ++
    map (fun field => short +:+ ": widget input " +:+ go_quote field +:+
           " maps the whole message ({{$}}) — map the specific value a person reads, e.g. {" +:+ go_quote "answer" +:+ ": " +:+
           go_quote "{{$.outputData.messages[0].content}}" +:+ "}")
      (flat_map passthrough (spec_Ports (n_Spec node))).

Definition newline : string := String "010" "".

Definition CheckWidgetShape (nodesMap : gmap string TinyNode) : result goerror unit :=
  match flat_map (fun kv => node_problems kv.1 kv.2) (map_range nodesMap) with
  | [] => Ok tt
  | problems =>
      Err (ErrorString (go_itoa (Z.of_nat (length problems)) +:+ " dashboard widget(s) would confuse whoever installs this:" +:+
                        newline +:+ "  " +:+ go_join (newline +:+ "  ") (go_sort_strings problems)))
  end.
End widgets.

(** ** What the walks look for *)

(** A document inside another. *)
Inductive inside : json -> json -> Prop :=
| inside_here v : inside v v
| inside_member v k w m : (k, w) ∈ m -> inside v w -> inside v (JObj m)
| inside_item v w l : w ∈ l -> inside v w -> inside v (JArr l).

Lemma declares_iff (want : string) (m : obj) :
  existsb (String.eqb want) (declared m) = true <->
  exists props, obj_get "properties" m = Some (JObj props) /\ want ∈ obj_keys props.
Proof.
  unfold declared. rewrite existsb_exists. split.
  - intros (x & Hin & ->%String.eqb_eq). destruct (obj_get "properties" m) as [[]|]; try done. eexists. split; [done|].
    by apply list_elem_of_In.
  - intros (props & -> & Hin). exists want. split; [by apply list_elem_of_In|apply String.eqb_refl].
Qed.

Lemma schema_has_property_iff (v : json) (want : string) :
  schemaHasProperty v want = true <->
  exists m props, inside (JObj m) v /\ obj_get "properties" m = Some (JObj props) /\ want ∈ obj_keys props.
Proof.
  split.
  - induction v as [| | | |l IH|m IH] using json_nested_ind; cbn; try done.
    + rewrite existsb_exists. intros (x & Hin%list_elem_of_In & Hx). rewrite Forall_forall in IH.
      destruct (IH x Hin Hx) as (m & props & Hi & Hp). exists m, props. split; [by eapply inside_item|done].
    + rewrite orb_true_iff, declares_iff, existsb_exists. intros [(props & Hp)|([k x] & Hin%list_elem_of_In & Hx)].
      * exists m, props. split; [constructor|done].
      * rewrite Forall_forall in IH. destruct (IH _ Hin Hx) as (m' & props & Hi & Hp). exists m', props.
        split; [by eapply inside_member|done].
  - intros (m & props & Hi & Hp). remember (JObj m) as d eqn:Ed. induction Hi as [v|v k w m' Hin _ IH|v w l Hin _ IH]; subst; cbn.
    + apply orb_true_iff. left. apply declares_iff. by exists props.
    + apply orb_true_iff. right. apply existsb_exists. exists (k, w). split; [by apply list_elem_of_In|by apply IH].
    + apply existsb_exists. exists w. split; [by apply list_elem_of_In|by apply IH].
Qed.

(** The two walks, of the two packages, agree. *)
Lemma property_names_iff (v : json) (want : string) : want ∈ property_names v <-> schemaHasProperty v want = true.
Proof.
  induction v as [| | | |l IH|m IH] using json_nested_ind; cbn; try (split; [by intros ?%elem_of_empty|done]).
  - rewrite elem_of_union_list, existsb_exists. rewrite Forall_forall in IH. split.
    + intros (X & (x & -> & Hin)%list_elem_of_fmap & Hx). exists x. split; [by apply list_elem_of_In|by apply IH].
    + intros (x & Hin%list_elem_of_In & Hx). exists (property_names x). split; [apply list_elem_of_fmap; by exists x|by apply IH].
  - rewrite elem_of_union, elem_of_list_to_set, elem_of_union_list, orb_true_iff, !existsb_exists. rewrite Forall_forall in IH.
    split; (intros [Hd|Hm]; [left|right]).
    + exists want. split; [by apply list_elem_of_In|apply String.eqb_refl].
    + destruct Hm as (X & (kv & -> & Hin)%list_elem_of_fmap & Hx). exists kv. split; [by apply list_elem_of_In|by apply IH].
    + destruct Hd as (x & Hin & ->%String.eqb_eq). by apply list_elem_of_In.
    + destruct Hm as (kv & Hin%list_elem_of_In & Hx). exists (property_names kv.2).
      split; [apply list_elem_of_fmap; by exists kv|by apply IH].
Qed.

(** A module has no warnings exactly when every error port that has a schema
    declares the fields of an error message. *)
Lemma error_ports_conform (components : list componentShape) :
  validateErrorPorts components = [] <->
  (forall c p schema, c ∈ components -> p ∈ default [] (cs_Ports c) -> cp_Name p = "error" -> cp_Source p = true ->
     cp_Schema p = Some schema -> {["context"; "error"; "retryable"]} ⊆ schemaPropertyNames schema).
Proof.
  unfold validateErrorPorts. rewrite flat_map_nil. split.
  - intros Hw c p schema Hc Hp Hname Hsrc Hs. specialize (Hw c Hc).
    assert (Hn : port_warning (cs_Name c) p = None).
    { destruct (port_warning (cs_Name c) p) as [w|] eqn:E; [|done].
      assert (Hin : w ∈ omap (port_warning (cs_Name c)) (default [] (cs_Ports c))) by (apply list_elem_of_omap; by exists p).
      rewrite Hw in Hin. by apply elem_of_nil in Hin. }
    unfold port_warning in Hn. rewrite Hname, Hsrc, Hs in Hn. cbn in Hn. unfold missing_fields in Hn. cbn in Hn.
    repeat (case_bool_decide; cbn in Hn; try done). set_solver.
  - intros Hall c Hc. destruct (omap _ _) as [|w l] eqn:E; [done|].
    assert (Hin : w ∈ omap (port_warning (cs_Name c)) (default [] (cs_Ports c))) by (rewrite E; by left).
    apply list_elem_of_omap in Hin as (p & Hp & Hw). unfold port_warning in Hw.
    destruct (String.eqb_spec (cp_Name p) errorPortName) as [Hname|]; [|done]. destruct (cp_Source p) eqn:Hsrc; [|done]. cbn in Hw.
    destruct (cp_Schema p) as [schema|] eqn:Hs; [|done]. specialize (Hall c p schema Hc Hp Hname Hsrc Hs).
    unfold missing_fields in Hw. cbn in Hw. rewrite !bool_decide_eq_true_2 in Hw by set_solver. done.
Qed.

(** ** Accepted widgets *)

Section accepted.
  Variable unmarshal : string -> option json.

(** A form that is filled on every run carries a credential beside other
    inputs. *)
Definition mixes_credential (node : TinyNode) : Prop :=
  isPerRunTrigger unmarshal node = true /\ feedsPersistedConfig node = false /\
  (1 < length (settingsContextFields unmarshal node))%nat /\
  exists f, f ∈ settingsContextFields unmarshal node /\ IsSecretKey f = true.

(** An input of the widget is given the whole message. *)
Definition takes_whole_message (node : TinyNode) : Prop :=
  exists pc cfg field s, pc ∈ spec_Ports (n_Spec node) /\ pc_From pc <> "" /\ pc_Configuration pc <> "" /\
    read_object unmarshal (pc_Configuration pc) = Some cfg /\ (field, JStr s) ∈ cfg /\ go_trim_space s = "{{$}}".

Lemma mixed_credential_none (node : TinyNode) : mixed_credential unmarshal node = None <-> ~ mixes_credential node.
Proof.
  unfold mixed_credential, mixes_credential.
  destruct (isPerRunTrigger unmarshal node); cbn [andb]; [|by split; [intros _ [? ?]|]].
  destruct (feedsPersistedConfig node); cbn [negb]; [by split; [intros _ (_ & ? & _)|]|].
  destruct (Nat.ltb_spec 1 (length (settingsContextFields unmarshal node))); [|split; [intros _ (_ & _ & ? & _); lia|done]].
  split.
  - intros Hn (_ & _ & _ & f & Hin & Hf). apply list_elem_of_In in Hin. pose proof (List.find_none _ _ Hn f Hin) as Hf'. congruence.
  - intros Hn. destruct (List.find IsSecretKey _) as [f|] eqn:E; [|done]. exfalso. apply Hn.
    apply List.find_some in E as [Hin Hf]. repeat split; [done|]. exists f. split; [by apply list_elem_of_In|done].
Qed.

Lemma passthrough_nil (node : TinyNode) :
  flat_map (passthrough unmarshal) (spec_Ports (n_Spec node)) = [] <-> ~ takes_whole_message node.
Proof.
  rewrite flat_map_nil. unfold takes_whole_message. split.
  - intros Hall (pc & cfg & field & s & Hin & Hfrom & Hcfg & Hr & Hkv & Hs). specialize (Hall pc Hin).
    unfold passthrough in Hall. apply String.eqb_neq in Hfrom, Hcfg. rewrite Hfrom, Hcfg, Hr in Hall. cbn in Hall.
    assert (Hf : field ∈ (omap (fun kv : string * json => match kv.2 with
        JStr s => if go_trim_space s =? "{{$}}" then Some kv.1 else None | _ => None end) cfg)).
    { apply list_elem_of_omap. exists (field, JStr s). split; [done|]. cbn. by rewrite Hs. }
    rewrite Hall in Hf. by apply elem_of_nil in Hf.
  - intros Hn pc Hin. unfold passthrough. destruct (String.eqb_spec (pc_From pc) "") as [|Hfrom]; [done|].
    destruct (String.eqb_spec (pc_Configuration pc) "") as [|Hcfg]; [done|]. cbn [orb].
    destruct (read_object unmarshal (pc_Configuration pc)) as [cfg|] eqn:Hr; [|done].
    destruct (omap _ cfg) as [|field l] eqn:E; [done|]. exfalso.
    assert (Hf : field ∈ field :: l) by left. rewrite <- E in Hf. apply list_elem_of_omap in Hf as ([k v] & Hkv & Hv).
    destruct v as [| | |s| |]; try done. cbn in Hv. destruct (String.eqb_spec (go_trim_space s) "{{$}}"); [|done].
    apply Hn. by exists pc, cfg, k, s.
Qed.

Lemma node_problems_nil (name : string) (node : TinyNode) :
  node_problems unmarshal name node = [] <->
  (label node DashboardLabel <> "" -> ~ mixes_credential node /\ ~ takes_whole_message node).
Proof.
  unfold node_problems. destruct (String.eqb_spec (label node DashboardLabel) "") as [|Hl]; [by split|].
  rewrite app_nil, <- mixed_credential_none, <- passthrough_nil.
  destruct (mixed_credential unmarshal node) as [f|]; [split; [by intros [? _]|intros Hx; by destruct (Hx Hl)]|].
  destruct (flat_map _ _); cbn; [by split|]. split; [by intros [_ ?]|]. intros Hx. by destruct (Hx Hl).
Qed.

(** C23. A solution passes the rules on its widgets exactly when no node on a
    dashboard breaks one: a form that is submitted on every run - its control
    port's schema declares "send" somewhere - and that does not only feed ports
    named "config" has no credential among two or more fields; and no input of
    the widget is given the whole message. The verdict, the text of the error
    included, does not depend on the order in which the nodes are ranged over. *)
Theorem widgets_accepted_iff (R : MapRange TinyNode) (nodes : gmap string TinyNode) :
  (CheckWidgetShape unmarshal nodes = Ok tt <->
   forall name node, nodes !! name = Some node -> label node DashboardLabel <> "" ->
     ~ mixes_credential node /\ ~ takes_whole_message node) /\
  (forall R' : MapRange TinyNode, @CheckWidgetShape R' unmarshal nodes = CheckWidgetShape unmarshal nodes).
Proof.
  unfold CheckWidgetShape. split.
  - set (problems := flat_map _ _). assert (Hp : problems = [] <-> forall name node, nodes !! name = Some node ->
      label node DashboardLabel <> "" -> ~ mixes_credential node /\ ~ takes_whole_message node).
    { unfold problems. rewrite flat_map_nil. setoid_rewrite map_range_perm. split.
      - intros Hall name node Hn. specialize (Hall (name, node)). rewrite elem_of_map_to_list in Hall.
        by apply node_problems_nil with name, Hall.
      - intros Hall [name node] Hin%elem_of_map_to_list. apply node_problems_nil, (Hall name node Hin). }
    rewrite <- Hp. by destruct problems.
  - intros R'. set (problem := fun kv : string * TinyNode => node_problems unmarshal kv.1 kv.2).
    set (l' := flat_map problem (@map_range _ R' nodes)). set (l := flat_map problem (@map_range _ R nodes)).
    assert (Hp : l' ≡ₚ l) by (apply Permutation_flat_map; by rewrite !map_range_perm).
    pose proof (Permutation_length Hp) as Hlen. pose proof (go_sort_strings_proper l' l Hp) as Hsort.
    destruct l' as [|x l'], l as [|y l]; congruence.
Qed.
End accepted.

(** * An export as it is written and read

    [pkg/utils/project_export.go]: the fields of schemas that only the running
    system uses, which are taken out of an export, and the warnings about an
    import that do not stop it. Schemas are decoded or still bytes, as in
    [Publish]; the log is the list of warnings, in order. *)

From S2P Require Import Names Elements ImportValidation Publish.

(** ** Internal fields of schemas *)

(** A definition, and whether it had a path of the running system. *)
Definition internal_path (def : json) : bool :=
  match def with JObj m => match obj_get "path" m with Some (JStr p) => go_has_prefix p "$" | _ => false end | _ => false end.

Definition strip_def (def : json) : json :=
  if internal_path def then match def with JObj m => JObj (obj_delete "path" m) | _ => def end else def.

(** None where nothing changes. *)
Definition strip_schema (schema : obj) : option obj :=
  match obj_get "$defs" schema with
  | Some (JObj defs) =>
      if existsb (fun kv => internal_path kv.2) defs
      then Some (obj_set "$defs" (JObj (map (fun kv => (kv.1, strip_def kv.2)) defs)) schema)
      else None
  | _ => None
  end.

Section strip.
  Variable unmarshal : string -> option json.
  Variable marshal : json -> option string.

(** Of a handle's schema: bytes that cannot be read or written back stay. *)
Definition stripPathFromSchema (schema : pval) : pval :=
  match schema with
  | Decoded (JObj m) => match strip_schema m with Some m' => Decoded (JObj m') | None => schema end
  | Raw s =>
      match read_object unmarshal s ≫= strip_schema with
      | Some m' => match marshal (JObj m') with Some b => Raw b | None => schema end
      | None => schema
      end
  | _ => schema
  end.

Definition strip_handle (h : list (string * pval)) : list (string * pval) :=
  map (fun kv => if kv.1 =? "schema" then (kv.1, stripPathFromSchema kv.2) else kv) h.

(** The elements that are nodes: type, and the handles of the data. *)
Definition StripSchemaInternalFields (elements : list (string * Element)) : list (string * Element) :=
  map (fun te => if te.1 =? "tinyNode" then (te.1, mkElement (el_fields te.2) (map strip_handle (el_handles te.2))) else te) elements.
End strip.

(** ** Warnings *)

Inductive warning : Type :=
| NoFlows
| NodeEmptyID (i : nat)
| MissingField (i : nat) (id field : string)
| UnknownFlow (i : nat) (id flow : string)
| WidgetWithoutPort (page widget : nat)
| WidgetPortFormat (page widget : nat)
| WidgetEmptyNode (page widget : nat)
| WidgetEmptyPort (page widget : nat).

Definition warn_if (b : bool) (w : warning) : list warning := if b then [w] else [].

Definition text_of (m : obj) (k : string) : string := default "" (obj_get k m ≫= as_str).

Definition flow_warning (i : nat) (id : string) (elem : obj) (flowSet : gset string) : list warning :=
  let flow := text_of elem "flow" in
  if flow =? "" then [MissingField i id "flow"] else warn_if (negb (bool_decide (flow ∈ flowSet))) (UnknownFlow i id flow).

Definition validateNodeElement (i : nat) (id : string) (elem : obj) (flowSet : gset string) : list warning :=
  warn_if (id =? "") (NodeEmptyID i) ++ flow_warning i id elem flowSet ++
  match obj_get "data" elem ≫= as_obj with
  | None => [MissingField i id "data"]
  | Some data =>
      warn_if (text_of data "component" =? "") (MissingField i id "data.component") ++
      warn_if (text_of data "module" =? "") (MissingField i id "data.module")
  end.

Definition validateEdgeElement (i : nat) (id : string) (elem : obj) (flowSet : gset string) : list warning :=
  flat_map (fun k => warn_if (text_of elem k =? "") (MissingField i id k)) ["source"; "target"; "sourceHandle"; "targetHandle"] ++
  flow_warning i id elem flowSet.

Definition widget_warning (page i : nat) (w : ExportWidget) : list warning :=
  if ew_Port w =? "" then [WidgetWithoutPort page i]
  else match go_cut ":" (ew_Port w) with
       | None => [WidgetPortFormat page i]
       | Some (node, port) => warn_if (node =? "") (WidgetEmptyNode page i) ++ warn_if (port =? "") (WidgetEmptyPort page i)
       end.

Definition validatePage (page : nat) (p : ExportPage) : list warning := concat (imap (widget_warning page) (ep_Widgets p)).

Definition element_warning (flowSet : gset string) (i : nat) (elem : obj) : list warning :=
  let id := text_of elem "id" in
  let kind := text_of elem "type" in
  if kind =? "tinyNode" then validateNodeElement i id elem flowSet
  else if (kind =? "tinyEdge") || (kind =? "edge") then validateEdgeElement i id elem flowSet else [].

(** The known flows, and what was logged. *)
Definition ValidateProjectExport (data : ProjectExport) : gset string * list warning :=
  let flowSet := list_to_set (map ef_ResourceName (pe_TinyFlows data)) in
  (flowSet, warn_if (bool_decide (pe_TinyFlows data = [])) NoFlows ++
            concat (imap (element_warning flowSet) (pe_Elements data)) ++ concat (imap validatePage (pe_Pages data))).

(** ** Stripped schemas *)

Lemma strip_def_clean (def : json) : internal_path (strip_def def) = false.
Proof.
  unfold strip_def. destruct (internal_path def) eqn:E; [|done]. destruct def; try done. cbn. by rewrite obj_get_delete.
Qed.

Lemma strip_def_id (def : json) : internal_path def = false -> strip_def def = def.
Proof. unfold strip_def. by intros ->. Qed.

(** Nothing but the paths goes: a stripped schema has the members of the old
    one, its definitions under the same names in the same order, each without
    its path where that was internal and untouched otherwise; and stripping
    again changes nothing. *)
Lemma strip_schema_exact (schema schema' : obj) : strip_schema schema = Some schema' ->
  exists defs, obj_get "$defs" schema = Some (JObj defs) /\
    obj_get "$defs" schema' = Some (JObj (map (fun kv => (kv.1, strip_def kv.2)) defs)) /\
    (forall k, k <> "$defs" -> obj_get k schema' = obj_get k schema) /\
    (forall name def, (name, def) ∈ defs -> internal_path def = false -> strip_def def = def) /\
    strip_schema schema' = None.
Proof.
  unfold strip_schema. destruct (obj_get "$defs" schema) as [[| | | | |defs]|] eqn:E; try discriminate.
  destruct (existsb _ defs); [|discriminate]. intros [= <-]. exists defs. split; [done|]. rewrite obj_get_set, String.eqb_refl. split; [done|].
  split; [intros k Hk; rewrite obj_get_set; by destruct (String.eqb_spec "$defs" k); [congruence|]|]. split; [intros name def _; apply strip_def_id|].
  destruct (existsb _ (map _ defs)) eqn:Ee; [|done]. apply existsb_exists in Ee as (kv & Hin & Hp).
  apply in_map_iff in Hin as (kv0 & <- & _). cbn in Hp. by rewrite strip_def_clean in Hp.
Qed.
