(* ===== verification/Catalog.v ===== *)
(** * Choosing a component

    [pkg/tools/list_modules.go] and [get_component_info.go]: the catalogue an
    agent chooses from - abbreviated notes, the fields a component cannot run
    without, the fields it answers with - and the full description of one
    component. Decoding JSON is a parameter. *)
From S2P Require Import Prelude GoErrors Graph Json Authoring Tools.

Open Scope string_scope.
Open Scope list_scope.

(** ** Names and notes *)

Definition system_port (name : string) : bool :=
  (name =? SettingsPort) || (name =? ControlPort) || (name =? ReconcilePort) || (name =? ClientPort) || (name =? IdentityPort).

Definition wireablePorts (names : list string) : list string := List.filter (fun n => negb (system_port n)) names.

Definition sentence_end (c : ascii) : bool := Ascii.eqb c "." || Ascii.eqb c "!" || Ascii.eqb c "?".
(** What follows a sentence: a blank or a line feed. *)
Definition prose_follows (rest : string) : bool :=
  match rest with String c _ => Ascii.eqb c " " || Ascii.eqb c "010" | EmptyString => false end.

Definition keepWhole : nat := 120.
Definition minSentence : nat := 40.

(** The length of the first sentence of [s], from byte [i] of the note on; none
    for the whole note. *)
Fixpoint sentence_length (i : nat) (s : string) : option nat :=
  match s with
  | EmptyString => None
  | String c rest =>
      if negb (sentence_end c) then sentence_length (S i) rest
      else if rest =? "" then None
      else if negb (prose_follows rest) then sentence_length (S i) rest
      else if (S i <? minSentence)%nat then sentence_length (S i) rest
      else Some (S i)
  end.

Definition firstSentence (info : string) : string :=
  let info := go_trim_space info in
  if (String.length info <=? keepWhole)%nat then info
  else match sentence_length 0 info with Some n => string_take n info | None => info end.

(** ** Schemas *)

Section schemas.
  Variable unmarshal : string -> option json.

(** [any.([]interface{})]. *)
Definition items_at (m : obj) (k : string) : list json := default [] (obj_get k m ≫= as_arr).

Definition requiredAndProperties (root : obj) : list json * obj :=
  match map_at root "properties" with
  | Some props => (items_at root "required", props)
  | None =>
      match str_at root "$ref" with
      | None => ([], [])
      | Some ref =>
          if negb (go_has_prefix ref "#/$defs/") then ([], [])
          else match map_at root "$defs" ≫= (fun defs => map_at defs (go_trim_prefix ref "#/$defs/")) with
               | None => ([], [])
               | Some def => (items_at def "required", default [] (map_at def "properties"))
               end
      end
  end.

(** A field a caller need not supply. *)
Definition answered_already (prop : option json) : bool :=
  match prop with
  | Some (JObj p) => bool_decide (is_Some (obj_get "default" p)) || bool_decide (obj_get "type" p = Some (JStr "boolean"))
  | _ => false
  end.

Definition required_name (properties : obj) (item : json) : option string :=
  match item with
  | JStr name => if (name =? "") || answered_already (obj_get name properties) then None else Some name
  | _ => None
  end.

Definition requiredFieldsIn (schema : string) : list string :=
  if schema =? "" then []
  else match read_object unmarshal schema with
       | None => []
       | Some root => let '(required, properties) := requiredAndProperties root in omap (required_name properties) required
       end.

Definition requiredInputs (c : ComponentInfo) : list string :=
  map (fun n => "settings." +:+ n) (requiredFieldsIn (ci_SettingsSchema c)) ++
  flat_map (fun d => if system_port (pd_Name d) then [] else map (fun n => pd_Name d +:+ "." +:+ n) (requiredFieldsIn (pd_Schema d)))
    (ci_InputPortDetails c).

Definition shape_field (kv : string * json) : option string :=
  if kv.1 =? "context" then None
  else Some (match kv.2 with
             | JObj p => if bool_decide (obj_get "type" p = Some (JStr "array")) then kv.1 +:+ "[]" else kv.1
             | _ => kv.1
             end).

Definition topLevelFields (schema : string) : list string :=
  if schema =? "" then []
  else match read_object unmarshal schema with
       | None => []
       | Some root => go_sort_strings (omap shape_field (requiredAndProperties root).2)
       end.

Definition strings_json (l : list string) : json := JArr (map JStr l).

Definition output_shape (shapes : obj) (d : PortDetail) : obj :=
  if system_port (pd_Name d) then shapes
  else match topLevelFields (pd_Schema d) with
       | [] => shapes
       | fields => obj_set (pd_Name d) (strings_json fields) shapes
       end.
Definition outputShapes (c : ComponentInfo) : obj := fold_left output_shape (ci_OutputPortDetails c) [].

(** ** list_modules *)

(** A field that is left out where it has nothing to say. *)
Definition field_if {A} (k : string) (present : bool) (v : A) (enc : A -> json) : obj := if present then [(k, enc v)] else [].
Definition text_if (k v : string) : obj := field_if k (negb (v =? "")) v JStr.
Definition list_if (k : string) (l : list string) : obj := field_if k (negb (bool_decide (l = []))) l strings_json.

Definition component_summary (c : ComponentInfo) : obj :=
  [("name", JStr (ci_Name c)); ("description", JStr (ci_Description c))] ++
  text_if "info" (firstSentence (ci_Info c)) ++
  list_if "input_ports" (wireablePorts (ci_InputPorts c)) ++
  list_if "output_ports" (wireablePorts (ci_OutputPorts c)) ++
  list_if "requires" (requiredInputs c) ++
  field_if "outputs" (negb (bool_decide (outputShapes c = []))) (outputShapes c) JObj.

Definition module_summary (m : ModuleInfo) : obj :=
  [("name", JStr (mi_Name m))] ++ text_if "description" (mi_Description m) ++ text_if "version" (mi_Version m) ++
  [("components", JArr (map (fun c => JObj (component_summary c)) (mi_Components m)))].

(** Without the hint, which is a constant. *)
Definition ListModulesTool (e : ExecutionContext) : M (ToolResult obj) :=
  match ModuleCatalog e with
  | None => mret (refused "module catalog not configured")
  | Some catalog =>
      r ← ask ListModules (mc_ListModules catalog);
      mret (match r with
            | Err err => refused ("failed to list modules: " +:+ error_text err)
            | Ok modules =>
                mkToolResult true (Some [("modules", JArr (map (fun m => JObj (module_summary m)) modules));
                                         ("total", JNum (go_itoa (Z.of_nat (length modules))))]) ""
            end)
  end.

(** ** get_component_info *)

(** The last detail of a name. *)
Definition detail_of (details : list PortDetail) (name : string) : option PortDetail :=
  last (List.filter (fun d => pd_Name d =? name) details).

Definition decoded_if (k bytes : string) : obj :=
  if bytes =? "" then [] else match unmarshal bytes with Some v => [(k, v)] | None => [] end.

Definition port_info (details : list PortDetail) (name : string) : obj :=
  [("name", JStr name)] ++
  match detail_of details name with
  | None => []
  | Some d => text_if "description" (pd_Description d) ++ decoded_if "schema" (pd_Schema d) ++ decoded_if "example" (pd_Example d)
  end.

(** The ports of a list, once each and without the system ones. *)
Fixpoint port_names (seen : list string) (source : list string) : list string :=
  match source with
  | [] => []
  | name :: source' =>
      if system_port name || existsb (String.eqb name) seen then port_names seen source'
      else name :: port_names (name :: seen) source'
  end.

Definition buildPortList (names : list string) (details : list PortDetail) : list obj :=
  let source := match details with [] => names | _ => map pd_Name details end in
  map (port_info details) (port_names [] source).

(** The raw schema is put out as it is; [raw] is its document. *)
Definition component_details (raw : string -> json) (m : ModuleInfo) (c : ComponentInfo) : obj :=
  let inputPorts := buildPortList (ci_InputPorts c) (ci_InputPortDetails c) in
  let outputPorts := buildPortList (ci_OutputPorts c) (ci_OutputPortDetails c) in
  let ports k (l : list obj) := field_if k (negb (bool_decide (l = []))) l (fun l => JArr (map JObj l)) in
  [("module_name", JStr (mi_Name m)); ("name", JStr (ci_Name c)); ("description", JStr (ci_Description c))] ++
  text_if "info" (ci_Info c) ++ text_if "module_version" (mi_Version m) ++
  ports "input_ports" inputPorts ++ ports "output_ports" outputPorts ++
  [("has_output", JBool (negb (bool_decide (outputPorts = []))))] ++
  field_if "settings_schema" (negb (ci_SettingsSchema c =? "")) (ci_SettingsSchema c) raw.

Fixpoint full_modules (catalog : ModuleService) (light : list ModuleInfo) : M (list ModuleInfo) :=
  match light with
  | [] => mret []
  | m :: light' =>
      full ← ask (GetModule (mi_Name m)) (mc_GetModule catalog (mi_Name m));
      rest ← full_modules catalog light';
      mret ((match full with Ok (Some full) => full | _ => m end) :: rest)
  end.

Definition find_in (componentName : string) (modules : list ModuleInfo) : option (ModuleInfo * ComponentInfo) :=
  head (flat_map (fun m => match component_named componentName m with Some c => [(m, c)] | None => [] end) modules).

Definition describe (raw : string -> json) (componentName notFound : string) (modules : list ModuleInfo) : ToolResult obj :=
  match find_in componentName modules with
  | Some (m, c) => mkToolResult true (Some (component_details raw m c)) ""
  | None => refused notFound
  end.

Definition GetComponentInfo (raw : string -> json) (e : ExecutionContext) (input : obj) : M (ToolResult obj) :=
  match ModuleCatalog e with
  | None => mret (refused "module catalog not configured")
  | Some catalog =>
      let moduleName := match str_at input "module" with None | Some "" => default "" (str_at input "module_name") | Some s => s end in
      let componentName := default "" (str_at input "component") in
      if componentName =? "" then mret (refused "component is required")
      else if negb (moduleName =? "") then
        m ← ask (GetModule moduleName) (mc_GetModule catalog moduleName);
        mret (match m with
              | Err err => refused ("failed to get module: " +:+ error_text err)
              | Ok None => refused ("module '" +:+ moduleName +:+ "' not found")
              | Ok (Some m) =>
                  describe raw componentName ("component '" +:+ componentName +:+ "' not found in module '" +:+ moduleName +:+ "'") [m]
              end)
      else
        all ← ask ListModules (mc_ListModules catalog);
        match all with
        | Err err => mret (refused ("failed to list modules: " +:+ error_text err))
        | Ok light =>
            modules ← full_modules catalog light;
            mret (describe raw componentName ("component '" +:+ componentName +:+ "' not found") modules)
        end
  end.
End schemas.

(** ** Abbreviation *)

(** Where a note may be cut: after a mark that prose follows, late enough. *)
Definition cut_at (s : string) (n : nat) : Prop :=
  (minSentence <= n)%nat /\ exists body c rest, s = (body +:+ String c rest) /\ String.length body + 1 = n /\
    sentence_end c = true /\ prose_follows rest = true.

Lemma sentence_length_spec (before s : string) :
  match sentence_length (String.length before) s with
  | Some n => cut_at (before +:+ s) n /\ forall k, (String.length before < k < n)%nat -> ~ cut_at (before +:+ s) k
  | None => forall k, (String.length before < k)%nat -> ~ cut_at (before +:+ s) k
  end.
Proof.
  revert before. induction s as [|c s IH]; intros before; cbn [sentence_length].
  { intros k Hk (_ & body & c & rest & E & Hn & _). rewrite str_app_nil_r in E. subst before.
    rewrite str_length_app in Hk. cbn in Hk. lia. }
  specialize (IH (before +:+ String c "")). rewrite str_app_assoc, str_app_cons, str_app_nil_l in IH.
  rewrite str_length_app in IH. cbn [String.length] in IH. replace (String.length before + 1) with (S (String.length before)) in IH by lia.
  (* a cut at the next byte is at [c] *)
  assert (Hnext : cut_at (before +:+ String c s) (S (String.length before)) ->
    (minSentence <= S (String.length before))%nat /\ sentence_end c = true /\ prose_follows s = true).
  { intros (Hm & body & c' & rest & E & Hn & Hc & Hr). split; [done|].
    assert (Hlen : String.length body = String.length before) by lia.
    pose proof (f_equal (string_take (String.length before)) E) as Et. rewrite string_take_app in Et.
    rewrite <- Hlen in Et at 1. rewrite string_take_app in Et. subst body. apply str_app_inj_l in E. by injection E as <- <-. }
  assert (Hskip : (forall k, k = S (String.length before) -> ~ cut_at (before +:+ String c s) k) ->
    match sentence_length (S (String.length before)) s with
    | Some n => cut_at (before +:+ String c s) n /\ forall k, (String.length before < k < n)%nat -> ~ cut_at (before +:+ String c s) k
    | None => forall k, (String.length before < k)%nat -> ~ cut_at (before +:+ String c s) k
    end).
  { intros Hs. destruct (sentence_length _ s) as [n|].
    - destruct IH as [Hc Hk]. split; [done|]. intros k Hk'. destruct (decide (k = S (String.length before))); [by apply Hs|apply Hk; lia].
    - intros k Hk'. destruct (decide (k = S (String.length before))); [by apply Hs|apply IH; lia]. }
  destruct (sentence_end c) eqn:Ec; cbn [negb]; [|apply Hskip; intros k -> Hx%Hnext; by destruct Hx as (_ & ? & _)].
  destruct (String.eqb_spec s "") as [->|Hs].
  { intros k Hk (_ & body & c' & rest & E & Hn & _ & Hr). apply (f_equal String.length) in E. rewrite !str_length_app in E.
    cbn in E. destruct rest; cbn in *; [done|lia]. }
  destruct (prose_follows s) eqn:Ep; cbn [negb]; [|apply Hskip; intros k -> Hx%Hnext; by destruct Hx as (_ & _ & ?)].
  destruct (Nat.ltb_spec (S (String.length before)) minSentence) as [Hm|Hm]; [apply Hskip; intros k -> Hx%Hnext; destruct Hx; lia|].
  split; [|lia]. split; [done|]. exists before, c, s. split; [done|]. split; [lia|done].
Qed.

(** An abbreviated note is a prefix of the trimmed note: the whole of it where it
    is short or has no sentence to end it, and otherwise up to the first mark at
    which it may be cut. *)
Lemma first_sentence_spec (info : string) :
  let note := go_trim_space info in
  (firstSentence info = note /\ ((String.length note <= keepWhole)%nat \/ forall k, ~ cut_at note k)) \/
  (exists n, (keepWhole < String.length note)%nat /\ firstSentence info = string_take n note /\ cut_at note n /\
     forall k, (k < n)%nat -> ~ cut_at note k).
Proof.
  unfold firstSentence. cbv zeta. set (note := go_trim_space info).
  destruct (Nat.leb_spec (String.length note) keepWhole) as [Hl|Hl]; [left; split; [done|by left]|].
  pose proof (sentence_length_spec "" note) as Hs. cbn [String.length] in Hs. change ("" +:+ note) with note in Hs.
  assert (H0 : ~ cut_at note 0) by (intros [Hm _]; unfold minSentence in Hm; lia).
  destruct (sentence_length 0 note) as [n|].
  - right. exists n. destruct Hs as [Hc Hk]. split; [done|]. split; [done|]. split; [done|]. intros [|k] Hk'; [done|]. apply Hk. lia.
  - left. split; [done|]. right. intros [|k]; [done|]. apply Hs. lia.
Qed.

(** The ports listed are each of the component's once, without the system's. *)
Lemma port_names_spec (source seen : list string) :
  NoDup (port_names seen source) /\
  (forall n, n ∈ port_names seen source <-> n ∈ source /\ system_port n = false /\ n ∉ seen).
Proof.
  revert seen. induction source as [|name l IH]; intros seen; cbn [port_names].
  { split; [constructor|]. intros n. rewrite elem_of_nil. tauto. }
  assert (Hseen : existsb (String.eqb name) seen = true <-> name ∈ seen).
  { rewrite existsb_exists. setoid_rewrite String.eqb_eq. split; [intros (x & Hx & <-); by apply list_elem_of_In|].
    intros Hx. exists name. by rewrite <- list_elem_of_In. }
  destruct (system_port name) eqn:Es; cbn [orb].
  - destruct (IH seen) as [Hnd Hin]. split; [done|]. intros n. rewrite Hin, elem_of_cons. split; [tauto|].
    intros ([->|?] & Hsys & Hn); [congruence|done].
  - destruct (existsb (String.eqb name) seen) eqn:Eb.
    + destruct (IH seen) as [Hnd Hin]. split; [done|]. intros n. rewrite Hin, elem_of_cons. split; [tauto|].
      intros ([->|?] & Hsys & Hn); [|done]. by destruct Hn; apply Hseen.
    + destruct (IH (name :: seen)) as [Hnd Hin]. split.
      * constructor; [|done]. rewrite Hin, elem_of_cons. tauto.
      * intros n. rewrite elem_of_cons, Hin, !elem_of_cons. destruct (decide (n = name)) as [->|Hne].
        -- split; [|by left]. intros _. split; [by left|]. split; [done|]. intros Hx%Hseen. congruence.
        -- split; [intros [?|(? & ? & ?)]; [done|tauto]|]. intros ([?|?] & ? & ?); [done|]. right. split; [done|]. split; [done|]. tauto.
Qed.
