(* ===== verification/AgentTools.v ===== *)
(** * Running tools, evaluations and scenarios

    [pkg/tools/registry.go]: the tools by name, and how a result is put in text.
    [run_eval.go]: a flow is fired and the run checked, and the check perhaps
    kept. [scenario.go]: the tool on the samples of a project; its scaffolding
    is [Tools.ScaffoldLiveScenarios].

    Encoding and decoding of JSON, and of the YAML specs, are parameters; so are
    the host's runner and store of evaluations. Hints that are constants are
    left out. *)
From S2P Require Import Prelude GoErrors Json Evals Graph Authoring Tools.
From Stdlib Require Import SpecFloat.

Open Scope string_scope.
Open Scope list_scope.

(** ** The registry *)

Section registry.
  Context {Out : Type}.
  Abbreviation Tool := (string * (obj -> M (ToolResult Out)))%type.
  Abbreviation Registry := (gmap string (obj -> M (ToolResult Out))).

Definition NewRegistry : Registry := ∅.
Definition Register (r : Registry) (tool : Tool) : Registry := <[tool.1 := tool.2]> r.

Definition Execute (r : Registry) (name : string) (input : obj) : M (ToolResult Out) :=
  match r !! name with
  | None => mret (refused ("unknown tool: " +:+ name))
  | Some tool => tool input
  end.

(** What is encoded: an output, or an error with the output that goes with it. *)
Inductive Encoded := Plain (out : option Out) | WithError (error : string) (out : Out).

Definition quoted_error (error : string) : string := "{" +:+ go_quote "error" +:+ ": " +:+ error +:+ "}".

Definition format (marshal : Encoded -> result goerror string) (result : ToolResult Out) : string * bool :=
  if negb (Success result) then
    let plain := quoted_error (go_quote (Error result)) in
    match Output result with
    | None => (plain, false)
    | Some out => match marshal (WithError (Error result) out) with Ok output => (output, false) | Err _ => (plain, false) end
    end
  else match marshal (Plain (Output result)) with
       | Ok output => (output, true)
       | Err err => (quoted_error ("" +:+ String "034" ("failed to marshal output: " +:+ error_text err +:+ String "034" "")), false)
       end.

Definition ExecuteAndFormat (marshal : Encoded -> result goerror string) (r : Registry) (name : string) (input : obj)
    : M (string * bool) :=
  result ← Execute r name input; mret (format marshal result).

(** A name runs the tool registered last under it. *)
Lemma registered_last (tools : list Tool) (name : string) :
  fold_left Register tools NewRegistry !! name = snd <$> last (List.filter (fun t => t.1 =? name) tools).
Proof.
  induction tools as [|t l IH] using rev_ind; [done|]. rewrite fold_left_app, List.filter_app. cbn [fold_left List.filter].
  unfold Register. destruct (String.eqb_spec (t.1) name) as [->|Hne].
  - by rewrite lookup_insert_eq, last_snoc.
  - by rewrite lookup_insert_ne, app_nil_r.
Qed.
End registry.

(** ** run_eval *)

Record EvalOutcome := mkOutcome {
  eo_Passed : bool;
  eo_Failures : list string;
  eo_TraceID : string;
  eo_Observed : Observed;
  eo_Errors : Z;
  eo_Usage : gmap string spec_float;
}.

Record ArrivalEntry := mkArrivalEntry { ar_at : string; ar_messages : Z; ar_sample : option string }.

Record EvalReport := mkEvalReport {
  er_name : string;
  er_passed : bool;
  er_errors : Z;
  er_trace_id : string;
  er_failures : list string;
  er_usage : gmap string spec_float;
  er_arrived : option (list ArrivalEntry);   (* and the hint *)
  er_saved_to : option string;
  er_save_error : option string;
  er_save_warning : option string;
}.

Section run_eval.
  Context `{MapRange (list string)}.
  Variable marshal : json -> result goerror string.
  Variable yaml_list : string -> result goerror (list Spec).
  Variable yaml_one : string -> result goerror Spec.
  Variable runner : option (Spec -> result goerror EvalOutcome).
  Variable store : option (Spec -> result goerror string).

Definition copy_key (input : obj) (raw : obj) (key : string) : obj :=
  match obj_get key input with Some v => obj_set key v raw | None => raw end.

Definition eval_input (input : obj) : obj :=
  let raw := fold_left (copy_key input) ["name"; "flow"; "trigger"; "expect"] [] in
  let raw := match obj_get "name" raw with Some _ => raw | None => obj_set "name" (JStr "unnamed eval") raw end in
  match numberFrom (fld input "timeout_seconds") with
  | Some seconds => if (0 <? seconds)%Z then obj_set "timeout" (JStr (go_itoa seconds +:+ "s")) raw else raw
  | None => raw
  end.

Definition specFromInput (input : obj) : result goerror Spec :=
  match marshal (JObj (eval_input input)) with
  | Err err => Err err
  | Ok encoded =>
      match Parse yaml_list yaml_one "run_eval" encoded with
      | Err err => Err err
      | Ok [spec] => Ok spec
      | Ok specs => Err (ErrorString ("expected one eval, got " +:+ go_itoa (Z.of_nat (length specs))))
      end
  end.

Definition truncatePayload (s : string) (n : nat) : string :=
  if (String.length s <=? n)%nat then s else string_take n s +:+ "… (truncated)".

Definition arrivalReport (got : Observed) : list ArrivalEntry :=
  map (fun kv => mkArrivalEntry kv.1 (Z.of_nat (length kv.2)) ((fun p => truncatePayload p 600) <$> head kv.2))
    (map_range (o_Payloads got)).

(** Nothing that this tool takes for an expectation. *)
Definition expects_nothing (spec : Spec) : bool :=
  bool_decide (ex_Arrives (s_Expect spec) = []) && bool_decide (dom (ex_Usage (s_Expect spec)) = ∅).

Definition base_report (spec : Spec) (o : EvalOutcome) : EvalReport :=
  mkEvalReport (s_Name spec) (eo_Passed o) (eo_Errors o) (eo_TraceID o) (eo_Failures o) (eo_Usage o)
    (if expects_nothing spec then Some (arrivalReport (eo_Observed o)) else None) None None None.

Definition with_save (r : EvalReport) (saved error warning : option string) : EvalReport :=
  mkEvalReport (er_name r) (er_passed r) (er_errors r) (er_trace_id r) (er_failures r) (er_usage r) (er_arrived r) saved error warning.

(** The report, and the spec that was handed to the store. *)
Definition save (spec : Spec) (o : EvalOutcome) (out : EvalReport) : EvalReport * option Spec :=
  match store with
  | None => (with_save out None (Some "this host cannot save evals") None, None)
  | Some keep =>
      if expects_nothing spec
      then (with_save out None (Some "nothing to save: an eval with no expectations asserts nothing. Add expect.arrives first.") None, None)
      else (match keep spec with
            | Err err => with_save out None (Some (error_text err)) None
            | Ok location =>
                with_save out (Some location) None
                  (if eo_Passed o then None
                   else Some "saved a check that does not currently pass — it will fail until the flow is fixed")
            end, Some spec)
  end.

Definition RunEval (input : obj) : ToolResult EvalReport * option Spec :=
  match runner with
  | None => (refused "eval runner not configured", None)
  | Some run =>
      match specFromInput input with
      | Err err => (refused (error_text err), None)
      | Ok spec =>
          match run spec with
          | Err err => (refused (error_text err), None)
          | Ok outcome =>
              let out := base_report spec outcome in
              let wanted := match fld input "save" with JBool b => b | _ => false end in
              let '(out, kept) := if wanted then save spec outcome out else (out, None) in
              (mkToolResult true (Some out) "", kept)
          end
      end
  end.

(** A check that is kept was asked for, expects something, and is the one that
    was run; and whoever reads the report learns where it went, or why it did
    not, and whether it holds at all. *)
Lemma kept_check (input : obj) (spec : Spec) (r : ToolResult EvalReport) :
  RunEval input = (r, Some spec) ->
  exists run o keep out, runner = Some run /\ run spec = Ok o /\ store = Some keep /\ specFromInput input = Ok spec /\
    fld input "save" = JBool true /\ expects_nothing spec = false /\ r = mkToolResult true (Some out) "" /\
    match keep spec with
    | Ok location => er_saved_to out = Some location /\ er_save_error out = None /\ (er_save_warning out = None <-> eo_Passed o = true)
    | Err err => er_saved_to out = None /\ er_save_error out = Some (error_text err)
    end.
Proof.
  unfold RunEval. destruct runner as [run|]; [|done]. destruct (specFromInput input) as [sp|]; [|done].
  destruct (run sp) as [o|] eqn:Er; [|done]. cbv zeta.
  destruct (fld input "save") as [|[]| | | |] eqn:Es; try discriminate. unfold save.
  destruct store as [keep|]; [|discriminate]. destruct (expects_nothing sp) eqn:Ee; [discriminate|].
  intros [= <- ->]. eexists run, o, keep, _. do 6 (split; [done|]). split; [reflexivity|].
  destruct (keep spec) as [location|err]; cbn; [|done]. split; [done|]. split; [done|]. by destruct (eo_Passed o).
Qed.
End run_eval.

(** A check that only says where nothing may arrive counts as one without
    expectations: it is run, and refused by the store. *)
Definition silent_spec : Spec :=
  mkEval "quiet" "f" (mkTrigger "n" "_control" []) 0 (mkExpect None ["n:error"] [] ∅) "".

Example silent_check_not_saved :
  let H := map_range_some_order (list string) in
  let '(r, kept) := RunEval (fun _ => Ok "x") (fun _ => Ok []) (fun _ => Ok silent_spec)
                      (Some (fun _ => Ok (mkOutcome true [] "t" (mkObserved ∅ 0 0 ∅) 0 ∅))) (Some (fun _ => Ok "file"))
                      [("save", JBool true)] in
  kept = None /\ (Output r ≫= er_save_error) =
    Some "nothing to save: an eval with no expectations asserts nothing. Add expect.arrives first.".
Proof. by vm_compute. Qed.

(** ** Scenarios *)

Section scenarios.
  Context `{MapRange unit} `{MapRange obj} `{MapRange TinyNode}.
  Variable unmarshal : string -> option json.
  Variable e : ExecutionContext.

Inductive ScenarioReport :=
| ListedScenarios (items : list ScenarioItem)
| CreatedScenario (item : ScenarioItem)
| UpdatedScenario (resource port : string)
| DeletedScenario (resource : string)
| Scaffolded (ports_written : nat) (warnings : list string) (hint : string).

(** [data == nil]. *)
Definition given_data (input : obj) : option json :=
  match obj_get "data" input with None | Some JNull => None | Some v => Some v end.

Definition nothing_to_scaffold : string :=
  "Nothing to scaffold: every edge either verifies from its schemas alone or already has sample data.".

Definition scenario_action (sm : ScenarioService) (action : string) (input : obj) : M (ToolResult ScenarioReport) :=
  let name := default "" (str_at input "name") in
  let traceID := default "" (str_at input "trace_id") in
  let resource := default "" (str_at input "resource_name") in
  let port := default "" (str_at input "port") in
  let report {A} (what : string) (ok : A -> ScenarioReport) (r : result goerror A) :=
    match r with
    | Err err => refused ("failed to " +:+ what +:+ ": " +:+ error_text err)
    | Ok x => mkToolResult true (Some (ok x)) ""
    end in
  if action =? "list" then r ← ask ListScenarios (sm_List sm); mret (report "list scenarios" ListedScenarios r)
  else if action =? "create" then
    if name =? "" then mret (refused "name is required for create")
    else if negb (traceID =? "") then
      r ← ask (CreateScenarioFromTrace name traceID) (sm_CreateFromTrace sm name traceID); mret (report "create scenario" CreatedScenario r)
    else r ← ask (CreateEmptyScenario name) (sm_CreateEmpty sm name); mret (report "create scenario" CreatedScenario r)
  else if action =? "update" then
    if resource =? "" then mret (refused "resource_name is required for update")
    else if port =? "" then mret (refused "port is required for update")
    else match given_data input with
         | None => mret (refused "data is required for update")
         | Some data =>
             r ← ask (UpdateScenarioPort resource port data) (sm_UpdatePort sm resource port data);
             mret (report "update scenario port" (fun _ => UpdatedScenario resource port) r)
         end
  else if action =? "scaffold" then
    r ← ScaffoldLiveScenarios e unmarshal;
    mret (mkToolResult true (Some (Scaffolded r.1 r.2
      (if (r.1 =? 0)%nat then nothing_to_scaffold
       else "Placeholder samples written. They prove the SHAPE, not the values — pin a real trace with scenarios(action=create, trace_id=...) once the flow runs."))) "")
  else if action =? "delete" then
    if resource =? "" then mret (refused "resource_name is required for delete")
    else r ← ask (DeleteScenario resource) (sm_Delete sm resource); mret (report "delete scenario" (fun _ => DeletedScenario resource) r)
  else mret (refused ("unknown action " +:+ go_quote action +:+ "; expected list, create, scaffold, update, delete")).

Definition ScenariosTool (input : obj) : M (ToolResult ScenarioReport) :=
  match ScenarioManager e with
  | None => mret (refused "scenario manager not configured")
  | Some sm => scenario_action sm (default "" (str_at input "action")) input
  end.
End scenarios.

(** A scaffold that could not read the nodes reports success, and that there was
    nothing to do. *)
Definition failing_scenarios : ScenarioService :=
  mkScenarioService (fun _ => Ok []) (fun _ _ => Err (ErrorString "")) (fun _ _ _ _ => Ok tt) (fun _ _ _ => Err (ErrorString ""))
    (fun _ _ => Ok tt).
Definition unreadable_nodes : ExecutionContext :=
  {| ProjectName := "p"; FlowName := ""; ctx_done := fun _ => false; ProjectReader := None; ModuleCatalog := None;
     FlowCreator := None; FlowModifier := None; PortInspector := None; NodeAdder := None;
     NodeLabeler := None; NodeRepositioner := None; NodeSettingsConfigurer := None; NodeSharer := None; EdgeAdder := None;
     EdgeConfigurer := None;
     TinyNodeCRManager := Some (mkNodeCRService (fun _ => Err (ErrorString "timeout")) (fun _ _ _ => Err (ErrorString ""))
                                  (fun _ _ => Err (ErrorString "")) (fun _ _ => Err (ErrorString "")) (fun _ => false));
     ScenarioManager := Some failing_scenarios;
     SolutionExportFetcher := None; DashboardPageApplier := None; ScenarioApplier := None |}.

Example failed_scaffold_reads_done :
  let R1 := map_range_some_order unit in
  let R2 := map_range_some_order obj in
  let R3 := map_range_some_order TinyNode in
  (ScenariosTool (fun _ => None) unreadable_nodes [("action", JStr "scaffold")] []).1 =
    mkToolResult true (Some (Scaffolded 0 ["scaffold: list nodes failed (timeout)"] nothing_to_scaffold)) "".
Proof. by vm_compute. Qed.
