(* ===== verification/Wire.v ===== *)
(** * Callers outside the SDK

    [pkg/wire/publish.go] and [rpc.go]: the clients that inject a signal at a
    node's port, or call a component as a tool, over the subjects and headers of
    [Transport]. The constants are declared again on this side, because the
    callers cannot reach the SDK's internals; the theorem says that the two
    sides agree.

    The NATS connection is a parameter ([WireClient]); a message is published
    with the subject of its native reply field, empty where it has none. *)
From S2P Require Import Prelude GoErrors Names Graph Run Json Reflect ExecState Backoff.
From S2P Require Import World Send Runner RunnerSpec Transport TransportSpec.

Open Scope string_scope.

(** ** Headers, as this side writes them *)

Definition HeaderFrom : string := "x-from".
Definition HeaderTo : string := "x-to".
Definition HeaderEdgeID : string := "x-edge-id".
Definition HeaderReplyInbox : string := "x-reply-inbox".
Definition HeaderError : string := "x-error".
Definition HeaderErrorCode : string := "x-error-code".
Definition HeaderEmpty : string := "x-empty".
Definition HeaderMode : string := "x-mode".
Definition SignalOrigin : string := "signal".

Definition WireSubjectFor (moduleName : string) : string := "tinymodule" +:+ "." +:+ moduleName +:+ ".msg".
Definition WireSubjectForSystem (moduleName : string) : string := "tinymodule" +:+ "." +:+ moduleName +:+ ".sysmsg".

Record Options := mkOptions {
  op_EdgeID : string;
  op_From : string;
  op_WaitForReply : bool;
  op_Timeout : Z;
}.

Class WireClient (CS S : Type) := {
  nc_connected : bool;
  nc_inbox : M CS S string;
  nc_subscribe : string -> M CS S error;
  nc_publish : NatsMsg -> string -> M CS S error;
  nc_next : Ctx -> string -> M CS S (result goerror NatsMsg);
}.

(** ** Messages *)

Definition signal_subject (moduleName port : string) : string :=
  if go_has_prefix port "_" then WireSubjectForSystem moduleName else WireSubjectFor moduleName.

Definition signal_headers (targetNode port : string) (opts : Options) : gmap string string :=
  when (negb (op_EdgeID opts =? "")) (<[HeaderEdgeID := op_EdgeID opts]>)
    (when (negb (op_From opts =? "")) (<[HeaderFrom := op_From opts]>) {[HeaderTo := targetNode +:+ ":" +:+ port]}).

Definition signal_msg (moduleName targetNode port data : string) (opts : Options) (inbox : string) : NatsMsg :=
  mkNats (signal_subject moduleName port) data
    (when (op_WaitForReply opts) (<[HeaderReplyInbox := inbox]>) (signal_headers targetNode port opts)).

Definition rpc_msg (moduleName componentName data inbox : string) : NatsMsg :=
  mkNats (WireSubjectFor moduleName) data
    (<[HeaderReplyInbox := inbox]> (<[HeaderMode := "rpc"]> {[HeaderTo := componentName]})).

(** What the caller makes of a reply. *)
Definition read_answer (reply : NatsMsg) : result goerror (option string) :=
  let e := header reply HeaderError in
  if negb (e =? "") then
    let code := header reply HeaderErrorCode in
    if negb (code =? "") then Err (CodedError code (Some (ErrorString e))) else Err (ErrorString e)
  else if (header reply HeaderEmpty =? "1") || (nm_Data reply =? "") then Ok None
  else Ok (Some (nm_Data reply)).

(** ** Calls *)

Section client.
  Context {CS S : Type} `{WireClient CS S}.

Definition reply_timeout (timeout : Z) : Z := if (timeout =? 0)%Z then (30 * Second)%Z else timeout.

Definition await (ctx : Ctx) (timeout : Z) (inbox : string) : M CS S (result goerror (option string)) :=
  (let* w := get in
   let* reply := nc_next (with_timeout ctx (reply_timeout timeout) w) inbox in
   ret match reply with Ok m => read_answer m | Err e => Err e end)%run.

Definition Publish (ctx : Ctx) (targetNode port data : string) (opts : Options) : M CS S (result goerror (option string)) :=
  (if negb nc_connected then ret (Err (ErrorString "nats conn is nil"))
   else if str_has ":" targetNode
   then ret (Err (ErrorString ("targetNode must be the bare node FQN without :port — got " +:+ go_quote targetNode)))
   else match ParseFullName targetNode with
   | Err err => ret (Err (WrapError "parse target node: " err))
   | Ok (moduleName, _) =>
       if negb (op_WaitForReply opts) then
         let* refused := nc_publish (signal_msg moduleName targetNode port data opts "") "" in
         ret match refused with Some e => Err (WrapError "publish: " e) | None => Ok None end
       else
         let* inbox := nc_inbox in
         let* refused := nc_subscribe inbox in
         match refused with
         | Some e => ret (Err (WrapError "subscribe reply inbox: " e))
         | None =>
             let* refused := nc_publish (signal_msg moduleName targetNode port data opts inbox) inbox in
             match refused with
             | Some e => ret (Err (WrapError "publish: " e))
             | None => await ctx (op_Timeout opts) inbox
             end
         end
   end)%run.

Definition PublishRPC (ctx : Ctx) (moduleName componentName data : string) (timeout : Z) : M CS S (result goerror (option string)) :=
  (if negb nc_connected then ret (Err (ErrorString "nats conn is nil"))
   else if moduleName =? "" then ret (Err (ErrorString "moduleName is required"))
   else if componentName =? "" then ret (Err (ErrorString "componentName is required"))
   else
     let* inbox := nc_inbox in
     let* refused := nc_subscribe inbox in
     match refused with
     | Some e => ret (Err (WrapError "subscribe reply inbox: " e))
     | None =>
         let* refused := nc_publish (rpc_msg moduleName componentName data inbox) "" in
         match refused with
         | Some e => ret (Err (WrapError "publish rpc: " e))
         | None => await ctx timeout inbox
         end
     end)%run.
End client.

(** ** The two sides agree *)

Lemma read_answer_same (reply : NatsMsg) : read_answer reply = read_reply reply.
Proof. reflexivity. Qed.

(** Every header of a signal. *)
Lemma signal_header (moduleName targetNode port data : string) (opts : Options) (inbox k : string) :
  header (signal_msg moduleName targetNode port data opts inbox) k =
    if "x-reply-inbox" =? k then (if op_WaitForReply opts then inbox else "")
    else if "x-edge-id" =? k then op_EdgeID opts
    else if "x-from" =? k then op_From opts
    else if "x-to" =? k then targetNode +:+ ":" +:+ port else "".
Proof.
  change (header ?m k) with (hdr (nm_Header m) k). unfold signal_msg, signal_headers.
  unfold HeaderReplyInbox, HeaderEdgeID, HeaderFrom, HeaderTo. cbn [nm_Header].
  repeat (rewrite hdr_insert || rewrite hdr_singleton || rewrite hdr_when).
  destruct (op_WaitForReply opts), (String.eqb_spec (op_EdgeID opts) "") as [E1|], (String.eqb_spec (op_From opts) "") as [E2|];
    cbn [negb]; try rewrite E1; try rewrite E2.
  all: by by_name.
Qed.

Definition clean_signal (targetNode port inbox : string) (opts : Options) : Prop :=
  clean_header (targetNode +:+ ":" +:+ port) = true /\ clean_header (op_EdgeID opts) = true /\
  clean_header (op_From opts) = true /\ clean_header inbox = true.

Lemma signal_clean (moduleName targetNode port data : string) (opts : Options) (inbox : string) :
  clean_signal targetNode port inbox opts -> clean_headers (nm_Header (signal_msg moduleName targetNode port data opts inbox)).
Proof.
  intros (? & ? & ? & ?). unfold signal_msg, signal_headers. cbn [nm_Header].
  repeat (apply clean_when; intros); auto 10.
Qed.

(** What the caller is told of an outcome at the receiver. *)
Definition told `{Lib} `{NatsWire} (res : result goerror (any goval)) : result goerror (option string) :=
  match res with
  | Err err => if error_text err =? "" then Ok None else Err (remote_error err)
  | Ok v => if any_nil v || (payload v =? "") then Ok None else Ok (Some (payload v))
  end.

Definition clean_outcome (res : result goerror (any goval)) : Prop :=
  match res with
  | Err err => clean_header (error_text err) = true /\ clean_header (ErrorCode (Some err)) = true
  | Ok _ => True
  end.

Lemma read_told `{Lib} `{NatsWire} (inbox : string) (res : result goerror (any goval)) :
  clean_outcome res -> read_reply (transit (encode_reply inbox res)) = told res.
Proof.
  destruct res as [v|err]; cbn [clean_outcome told]; [intros _|intros [Ht Hc]; by rewrite read_error_reply].
  unfold encode_reply. destruct (any_nil v) eqn:En; cbn [orb].
  - rewrite transit_clean by (cbn; by apply clean_singleton). reflexivity.
  - rewrite transit_clean by (cbn; by apply map_Forall_empty). unfold read_reply, header. cbn. by destruct (payload v =? "").
Qed.


(** ** A sample connection *)

Definition sample_nc : WireClient unit Sample.Store := {|
  nc_connected := true;
  nc_inbox := ret "inbox";
  nc_subscribe _ := ret None;
  nc_publish _ reply := ret (if reply =? "" then Some (ErrorString "no reply subject") else None);
  nc_next _ _ := ret (Ok (empty_reply "inbox"));
|}.


(** A tool call publishes its message without a native reply subject, which the
    core receiver answers to: its answer goes nowhere, and the call times out.
    Only the JetStream receiver reads the header the inbox travels in. *)
Example rpc_has_no_reply_subject :
  @PublishRPC _ _ sample_nc background "m" "tool" "{}" 0 Sample.world =
    Val (Err (WrapError "publish rpc: " (ErrorString "no reply subject"))) Sample.world /\
  @Publish _ _ sample_nc background "p.m.z" "in" "{}" (mkOptions "" "signal" true 0) Sample.world = Val (Ok None) Sample.world /\
  header (rpc_msg "m" "tool" "{}" "inbox") headerReplyInbox = "inbox".
Proof. by vm_compute. Qed.
