(* ===== verification/Rbac.v ===== *)
(** * Does the declared access cover the calls?

    [cli/rbaccheck.go]: the check of a module's declared access against the
    Kubernetes calls its code makes. What the type checker resolves - the
    method, the types of the receiver and of the arguments, the position - is
    the input; the packages' loading and their syntax are third-party. *)
From S2P Require Import Prelude.

Open Scope string_scope.
Open Scope list_scope.

(** ** Resources and verbs *)

Abbreviation groupResource := (string * string)%type.
Abbreviation Rules := (gmap groupResource (list string)).

Definition show_resource (gr : groupResource) : string := if gr.1 =? "" then gr.2 else gr.1 +:+ "/" +:+ gr.2.

Definition clientVerbs (method : string) : option (list string) :=
  if method =? "Get" then Some ["get"]
  else if method =? "List" then Some ["list"]
  else if method =? "Watch" then Some ["watch"]
  else if method =? "Create" then Some ["create"]
  else if method =? "Delete" then Some ["delete"]
  else if method =? "Update" then Some ["update"]
  else if method =? "Patch" then Some ["patch"]
  else if method =? "DeleteAllOf" then Some ["delete"; "list"]
  else None.

Definition read_verbs : list string := ["get"; "list"; "patch"; "update"; "watch"].
Definition baseAccess : list (groupResource * list string) :=
  [(("apps", "deployments"), read_verbs); (("", "pods"), read_verbs); (("", "services"), read_verbs);
   (("networking.k8s.io", "ingresses"), read_verbs)].

Definition apiGroups : list (string * string) :=
  [("k8s.io/api/core/v1", ""); ("k8s.io/api/apps/v1", "apps"); ("k8s.io/api/batch/v1", "batch");
   ("k8s.io/api/networking/v1", "networking.k8s.io"); ("k8s.io/api/rbac/v1", "rbac.authorization.k8s.io");
   ("k8s.io/api/policy/v1", "policy"); ("k8s.io/api/admissionregistration/v1", "admissionregistration.k8s.io");
   ("k8s.io/api/autoscaling/v1", "autoscaling"); ("k8s.io/api/autoscaling/v2", "autoscaling");
   ("k8s.io/api/storage/v1", "storage.k8s.io"); ("k8s.io/api/certificates/v1", "certificates.k8s.io");
   ("k8s.io/api/coordination/v1", "coordination.k8s.io"); ("k8s.io/api/events/v1", "events.k8s.io");
   ("k8s.io/apimachinery/pkg/apis/meta/v1", "")].

(** [strings.TrimSuffix]. *)
Definition go_trim_suffix (s p : string) : string :=
  if go_has_suffix s p then string_take (String.length s - String.length p) s else s.

(** The lowercased kind in the plural. *)
Definition pluralize (kind : string) : string :=
  let lower := go_to_lower kind in
  if go_has_suffix lower "s" || go_has_suffix lower "x" || go_has_suffix lower "ch" || go_has_suffix lower "sh" then lower +:+ "es"
  else if go_has_suffix lower "y" then go_trim_suffix lower "y" +:+ "ies"
  else lower +:+ "s".

(** What the type checker says of an expression: a pointer, a named type with
    the path of its package - none for a predeclared one - or another type. *)
Inductive GoType : Type :=
| PointerTo (t : GoType)
| NamedType (path : option string) (name : string)
| OtherType.

Fixpoint namedOf (t : GoType) : option (option string * string) :=
  match t with PointerTo t' => namedOf t' | NamedType path name => Some (path, name) | OtherType => None end.

(** Of one argument; no type where the checker has none. *)
Definition arg_resource (arg : option GoType) : option groupResource :=
  match arg ≫= namedOf with
  | Some (Some path, name) =>
      match List.find (fun pg => pg.1 =? path) apiGroups with
      | None => None
      | Some (_, group) =>
          let kind := go_trim_suffix name "List" in
          if kind =? "" then None else Some (group, pluralize kind)
      end
  | _ => None
  end.

Definition resourceOf (args : list (option GoType)) : option groupResource := head (omap arg_resource args).

(** ** Rules *)

Definition rule_access (declared : Rules) (gr : groupResource) (verb : string) : bool :=
  existsb (fun v => (v =? verb) || (v =? "*")) (default [] (declared !! gr)).

Definition permits (declared : Rules) (gr : groupResource) (verb : string) : bool :=
  existsb (fun candidate => rule_access declared candidate verb) [gr; (gr.1, "*"); ("*", gr.2); ("*", "*")].

Definition grant (out : Rules) (gr : groupResource) (verbs : list string) : Rules :=
  <[gr := default [] (out !! gr) ++ verbs]> out.

Definition rule := (list string * list string * list string)%type.

Definition add_rule (out : Rules) (r : rule) : Rules :=
  let '(groups, resources, verbs) := r in
  fold_left (fun out gr => grant out gr verbs) (flat_map (fun g => map (pair g) resources) groups) out.

Definition DeclaredRules (enableBase : bool) (extra : list rule) : Rules :=
  let out := if enableBase then fold_left (fun out b => grant out b.1 b.2) baseAccess ∅ else ∅ in
  fold_left add_rule extra out.

(** ** The check *)

(** A call's selector: its method, its receiver's type as it is written, the
    types of its arguments, its position. *)
Record ClientCall := mkClientCall {
  cc_method : string;
  cc_receiver : option string;
  cc_args : list (option GoType);
  cc_position : string;
}.

Definition client_types : list string :=
  map (String.append "sigs.k8s.io/controller-runtime/pkg/client.") ["Client"; "WithWatch"; "Writer"; "Reader"].

Definition isK8sClient (receiver : option string) : bool :=
  match receiver with None => false | Some s => existsb (fun t => go_contains s t) client_types end.

Record RBACFinding := mkRBACFinding { rf_Resource : groupResource; rf_Verb : string; rf_Position : string }.

Definition finding_key (gr : groupResource) (verb : string) : string := show_resource gr +:+ "|" +:+ verb.

(** What a call needs: nothing for a call the check cannot see through. *)
Definition needs (c : ClientCall) : list (groupResource * string) :=
  match clientVerbs (cc_method c) with
  | None => []
  | Some verbs =>
      if negb (isK8sClient (cc_receiver c)) then []
      else match resourceOf (cc_args c) with None => [] | Some gr => map (pair gr) verbs end
  end.

Definition check_need (declared : Rules) (position : string) (acc : gset string * list RBACFinding) (need : groupResource * string)
    : gset string * list RBACFinding :=
  let '(seen, findings) := acc in
  if permits declared need.1 need.2 then acc
  else
    let key := finding_key need.1 need.2 in
    if bool_decide (key ∈ seen) then acc
    else ({[key]} ∪ seen, findings ++ [mkRBACFinding need.1 need.2 position]).

Definition check_call (declared : Rules) (acc : gset string * list RBACFinding) (c : ClientCall) : gset string * list RBACFinding :=
  fold_left (check_need declared (cc_position c)) (needs c) acc.

Definition finding_less (a b : RBACFinding) : bool :=
  let x := show_resource (rf_Resource a) in
  let y := show_resource (rf_Resource b) in
  if negb (x =? y) then String.ltb x y else String.ltb (rf_Verb a) (rf_Verb b).

Definition CheckRBACCoverage `{SliceSort} (calls : list ClientCall) (declared : Rules) : list RBACFinding :=
  slice_sort finding_less (fold_left (check_call declared) calls (∅, [])).2.

(** ** What is granted *)

Definition any_of (x : string) (l : list string) : Prop := x ∈ l \/ "*" ∈ l.

(** The rules cover a verb on a resource: one of them names its group, its
    resource and the verb, or a star for each. *)
Definition granted (enableBase : bool) (extra : list rule) (gr : groupResource) (verb : string) : Prop :=
  (enableBase = true /\ exists b, b ∈ baseAccess /\ b.1 = gr /\ verb ∈ b.2) \/
  (exists r, r ∈ extra /\ any_of gr.1 r.1.1 /\ any_of gr.2 r.1.2 /\ any_of verb r.2).

Definition rule_grants (r : rule) : list (groupResource * list string) :=
  map (fun gr => (gr, r.2)) (flat_map (fun g => map (pair g) r.1.2) r.1.1).
Definition all_grants (enableBase : bool) (extra : list rule) : list (groupResource * list string) :=
  (if enableBase then baseAccess else []) ++ flat_map rule_grants extra.

Definition verbs_at (out : Rules) (gr : groupResource) : list string := default [] (out !! gr).

Lemma grant_verbs (out : Rules) (gr gr' : groupResource) (verbs : list string) (v : string) :
  v ∈ verbs_at (grant out gr verbs) gr' <-> v ∈ verbs_at out gr' \/ (gr = gr' /\ v ∈ verbs).
Proof.
  unfold verbs_at, grant. destruct (decide (gr = gr')) as [->|Hne].
  - rewrite lookup_insert_eq. cbn [default id]. rewrite elem_of_app. naive_solver.
  - rewrite lookup_insert_ne by done. naive_solver.
Qed.

Lemma grants_verbs (l : list (groupResource * list string)) (out : Rules) (gr : groupResource) (v : string) :
  v ∈ verbs_at (fold_left (fun out b => grant out b.1 b.2) l out) gr <->
  v ∈ verbs_at out gr \/ exists b, b ∈ l /\ b.1 = gr /\ v ∈ b.2.
Proof.
  revert out. induction l as [|b l IH]; intros out; cbn [fold_left]; [set_solver|]. rewrite IH, grant_verbs. set_solver.
Qed.

Lemma add_rule_grants (out : Rules) (r : rule) :
  add_rule out r = fold_left (fun out b => grant out b.1 b.2) (rule_grants r) out.
Proof.
  destruct r as [[groups resources] verbs]. unfold add_rule, rule_grants. cbn [fst snd].
  generalize (flat_map (fun g => map (pair g) resources) groups). intros l. revert out.
  induction l as [|gr l IH]; intros out; [done|]. cbn [map fold_left fst snd]. apply IH.
Qed.

Lemma declared_grants (enableBase : bool) (extra : list rule) :
  DeclaredRules enableBase extra = fold_left (fun out b => grant out b.1 b.2) (all_grants enableBase extra) ∅.
Proof.
  unfold DeclaredRules, all_grants. rewrite fold_left_app.
  replace (fold_left _ (if enableBase then baseAccess else []) ∅)
    with (if enableBase then fold_left (fun out b => grant out b.1 b.2) baseAccess ∅ else ∅ : Rules) by by destruct enableBase.
  generalize (if enableBase then fold_left (fun out b => grant out b.1 b.2) baseAccess ∅ else ∅ : Rules).
  induction extra as [|r extra IH]; intros out; [done|]. cbn [fold_left flat_map]. by rewrite IH, fold_left_app, add_rule_grants.
Qed.

Lemma declared_verbs (enableBase : bool) (extra : list rule) (gr : groupResource) (v : string) :
  v ∈ verbs_at (DeclaredRules enableBase extra) gr <->
  (enableBase = true /\ exists b, b ∈ baseAccess /\ b.1 = gr /\ v ∈ b.2) \/
  (exists r, r ∈ extra /\ gr.1 ∈ r.1.1 /\ gr.2 ∈ r.1.2 /\ v ∈ r.2).
Proof.
  rewrite declared_grants, grants_verbs. unfold verbs_at at 1. rewrite lookup_empty. cbn [default id].
  assert (Hr : forall b r, b ∈ rule_grants r <-> b.1.1 ∈ r.1.1 /\ b.1.2 ∈ r.1.2 /\ b.2 = r.2).
  { intros [[g k] vs] [[groups resources] verbs]. unfold rule_grants. rewrite list_elem_of_fmap. cbn [fst snd]. split.
    - intros ([g' k'] & [= -> -> ->] & Hin). apply list_elem_of_In, in_flat_map in Hin as (g0 & Hg & Hk).
      apply in_map_iff in Hk as (k0 & [= <- <-] & Hk). by rewrite <- !list_elem_of_In in *.
    - intros (Hg & Hk & ->). exists (g, k). split; [done|]. apply list_elem_of_In, in_flat_map. exists g.
      split; [by apply list_elem_of_In|]. apply in_map. by apply list_elem_of_In. }
  assert (Hall : forall b, b ∈ all_grants enableBase extra <->
    (enableBase = true /\ b ∈ baseAccess) \/ exists r, r ∈ extra /\ b ∈ rule_grants r).
  { intros b. unfold all_grants. rewrite elem_of_app.
    assert (Hf : b ∈ flat_map rule_grants extra <-> exists r, r ∈ extra /\ b ∈ rule_grants r)
      by (rewrite list_elem_of_In, in_flat_map; by setoid_rewrite <- list_elem_of_In).
    rewrite Hf. destruct enableBase; [tauto|]. rewrite elem_of_nil. split; [intros [[]|?]; by right|].
    intros [[? _]|?]; [done|by right]. }
  setoid_rewrite Hall. setoid_rewrite Hr. split.
  - intros [Hn|(b & [[He Hb]|(rl & Hrl & Hg & Hk & Hv)] & Hgr & Hin)]; [by apply elem_of_nil in Hn| |].
    + left. split; [done|]. by exists b.
    + right. exists rl. subst gr. by rewrite <- Hv.
  - intros [(He & b & Hb & Hgr & Hin)|(rl & Hrl & Hg & Hk & Hv)]; right.
    + exists b. split; [by left|done].
    + exists (gr, rl.2). split; [right; by exists rl|done].
Qed.

Lemma rule_access_iff (declared : Rules) (gr : groupResource) (verb : string) :
  rule_access declared gr verb = true <-> any_of verb (verbs_at declared gr).
Proof.
  unfold rule_access, any_of, verbs_at. rewrite existsb_exists. setoid_rewrite orb_true_iff. setoid_rewrite String.eqb_eq.
  setoid_rewrite <- list_elem_of_In. naive_solver.
Qed.

(** A verb is permitted exactly when a rule covers it, unless the base access
    is what covers it by a star - it names none. *)
Lemma permits_iff (enableBase : bool) (extra : list rule) (gr : groupResource) (verb : string) :
  gr.1 <> "*" -> gr.2 <> "*" -> permits (DeclaredRules enableBase extra) gr verb = true <-> granted enableBase extra gr verb.
Proof.
  intros Hg Hk. assert (Hbase : forall b, b ∈ baseAccess -> b.1.1 <> "*" /\ b.1.2 <> "*" /\ "*" ∉ b.2).
  { intros b Hb. cbv [baseAccess read_verbs] in Hb. repeat (apply elem_of_cons in Hb as [->|Hb]; [cbn; set_solver|]).
    by apply elem_of_nil in Hb. }
  unfold permits. rewrite existsb_exists. setoid_rewrite rule_access_iff. setoid_rewrite <- list_elem_of_In.
  unfold any_of at 1. setoid_rewrite declared_verbs. unfold granted, any_of. destruct gr as [g k]. cbn [fst snd] in *. split.
  - intros (c & Hc & Hv). assert (Hcases : (c.1 = g \/ c.1 = "*") /\ (c.2 = k \/ c.2 = "*")) by set_solver.
    destruct Hv as [[(He & b & Hb & Hgr & Hin)|(r & Hr & H1 & H2 & H3)]|[(He & b & Hb & Hgr & Hin)|(r & Hr & H1 & H2 & H3)]].
    + left. split; [done|]. exists b. destruct (Hbase b Hb) as (B1 & B2 & _). rewrite Hgr in B1, B2.
      split; [done|]. split; [|done]. rewrite Hgr. destruct c as [c1 c2]. cbn in *. destruct Hcases as [[->|?] [->|?]]; done.
    + right. exists r. destruct Hcases as [[<-|E1] [<-|E2]]; rewrite ?E1, ?E2 in *; naive_solver.
    + destruct (Hbase b Hb) as (_ & _ & B3). done.
    + right. exists r. destruct Hcases as [[<-|E1] [<-|E2]]; rewrite ?E1, ?E2 in *; naive_solver.
  - intros [(He & b & Hb & Hgr & Hin)|(r & Hr & H1 & H2 & H3)].
    + exists (g, k). split; [set_solver|]. left. left. split; [done|]. by exists b.
    + assert (Hc : exists c, c ∈ [(g, k); (g, "*"); ("*", k); ("*", "*")] /\ c.1 ∈ r.1.1 /\ c.2 ∈ r.1.2).
      { destruct H1 as [H1|H1], H2 as [H2|H2]; [exists (g, k)|exists (g, "*")|exists ("*", k)|exists ("*", "*")]; set_solver. }
      destruct Hc as (c & Hc & C1 & C2). exists c. split; [done|]. destruct H3 as [H3|H3]; [left|right]; right; by exists r.
Qed.

(** ** What is reported *)

Definition key_of (f : RBACFinding) : string := finding_key (rf_Resource f) (rf_Verb f).
Definition lacking (declared : Rules) (pn : string * (groupResource * string)) : Prop := permits declared pn.2.1 pn.2.2 = false.
Definition finding_of (pn : string * (groupResource * string)) : RBACFinding := mkRBACFinding pn.2.1 pn.2.2 pn.1.

(** Every need of the calls with its position, in the order they are met. *)
Definition all_needs (calls : list ClientCall) : list (string * (groupResource * string)) :=
  flat_map (fun c => map (pair (cc_position c)) (needs c)) calls.

Lemma check_calls_flat (declared : Rules) (calls : list ClientCall) (acc : gset string * list RBACFinding) :
  fold_left (check_call declared) calls acc = fold_left (fun acc pn => check_need declared pn.1 acc pn.2) (all_needs calls) acc.
Proof.
  revert acc. induction calls as [|c calls IH]; intros acc; [done|]. cbn [fold_left all_needs flat_map].
  rewrite IH, fold_left_app. f_equal. unfold check_call. generalize (needs c), acc. clear.
  intros l. induction l as [|x l IHl]; intros acc; [done|]. cbn [fold_left map]. by rewrite IHl.
Qed.

(** The keys seen are those of the findings, each once; every finding is of a
    need that lacks, and every need that lacks has its key. *)
Lemma check_needs_spec (declared : Rules) (l : list (string * (groupResource * string))) (acc : gset string * list RBACFinding) :
  acc.1 = list_to_set (map key_of acc.2) -> NoDup (map key_of acc.2) ->
  let out := fold_left (fun acc pn => check_need declared pn.1 acc pn.2) l acc in
  NoDup (map key_of out.2) /\
  (forall f, f ∈ out.2 -> f ∈ acc.2 \/ exists pn, pn ∈ l /\ lacking declared pn /\ f = finding_of pn) /\
  (forall f, f ∈ acc.2 -> f ∈ out.2) /\
  (forall pn, pn ∈ l -> lacking declared pn -> key_of (finding_of pn) ∈ map key_of out.2).
Proof.
  revert acc. induction l as [|[pos [gr v]] l IH]; intros [seen found] Hseen Hnd; cbn [fold_left fst snd] in *.
  { split; [done|]. split; [by left|]. split; [done|]. intros pn Hpn. by apply elem_of_nil in Hpn. }
  cbn [check_need fst snd]. set (key := finding_key gr v). destruct (permits declared gr v) eqn:Ep.
  - destruct (IH (seen, found) Hseen Hnd) as (H1 & H2 & H3 & H4). split; [done|].
    split; [intros f Hf; destruct (H2 f Hf) as [|(pn & ? & ?)]; [by left|right; exists pn; set_solver]|].
    split; [done|]. intros pn [->|Hpn]%elem_of_cons Hl; [unfold lacking in Hl; cbn [fst snd] in Hl; congruence|by apply H4].
  - case_bool_decide as Hk.
    + destruct (IH (seen, found) Hseen Hnd) as (H1 & H2 & H3 & H4). split; [done|].
      split; [intros f Hf; destruct (H2 f Hf) as [|(pn & ? & ?)]; [by left|right; exists pn; set_solver]|].
      split; [done|]. intros pn [->|Hpn]%elem_of_cons Hl; [|by apply H4].
      change (key ∈ map key_of (fold_left (fun acc pn => check_need declared pn.1 acc pn.2) l (seen, found)).2).
      rewrite Hseen, elem_of_list_to_set, list_elem_of_fmap in Hk. destruct Hk as (f & -> & Hf). apply list_elem_of_fmap_2. by apply H3.
    + set (f0 := mkRBACFinding gr v pos).
      destruct (IH ({[key]} ∪ seen, found ++ [f0])) as (H1 & H2 & H3 & H4); cbn [fst snd] in *.
      { rewrite Hseen, map_app. cbn. rewrite list_to_set_app_L. set_solver. }
      { rewrite map_app. apply NoDup_app. split; [done|]. split; [|apply NoDup_singleton].
        intros x Hx Hx'. apply list_elem_of_singleton in Hx' as ->. apply Hk. rewrite Hseen. by apply elem_of_list_to_set. }
      split; [done|]. split.
      { intros f Hf. destruct (H2 f Hf) as [[?|?%list_elem_of_singleton]%elem_of_app|(pn & ? & ?)];
          [by left|right; exists (pos, (gr, v)); set_solver|right; exists pn; set_solver]. }
      split; [intros f Hf; apply H3; set_solver|].
      intros pn [->|Hpn]%elem_of_cons Hl; [|by apply H4]. apply list_elem_of_fmap_2, (H3 f0). set_solver.
Qed.

Lemma all_needs_iff (calls : list ClientCall) (pos : string) (need : groupResource * string) :
  (pos, need) ∈ all_needs calls <-> exists c, c ∈ calls /\ cc_position c = pos /\ need ∈ needs c.
Proof.
  unfold all_needs. rewrite list_elem_of_In, in_flat_map. split.
  - intros (c & Hc & (n & [= <- <-] & Hn)%in_map_iff). exists c. by rewrite !list_elem_of_In.
  - intros (c & Hc & <- & Hn). exists c. rewrite <- list_elem_of_In. split; [done|]. apply in_map. by apply list_elem_of_In.
Qed.

(** What a call needs names no star and no bar. *)
Lemma plural_ends_s (kind : string) : exists p, pluralize kind = p +:+ "s".
Proof.
  unfold pluralize. destruct (_ || _); [exists (go_to_lower kind +:+ "e"); by rewrite str_app_assoc|].
  destruct (go_has_suffix _ _); [exists (go_trim_suffix (go_to_lower kind) "y" +:+ "ie"); by rewrite str_app_assoc|by eexists].
Qed.

Lemma needs_proper (c : ClientCall) (gr : groupResource) (v : string) :
  (gr, v) ∈ needs c -> gr.1 <> "*" /\ gr.2 <> "*" /\ str_has "|" v = false.
Proof.
  unfold needs. destruct (clientVerbs (cc_method c)) as [verbs|] eqn:Ev; [|by intros ?%elem_of_nil].
  destruct (isK8sClient (cc_receiver c)); [|by intros ?%elem_of_nil]. cbn [negb].
  destruct (resourceOf (cc_args c)) as [gr'|] eqn:Er; [|by intros ?%elem_of_nil].
  intros (v' & [= <- <-] & Hv)%list_elem_of_fmap. apply and_assoc. split.
  - unfold resourceOf in Er. apply head_Some_elem_of, list_elem_of_omap in Er as (arg & _ & Ha). unfold arg_resource in Ha.
    destruct (arg ≫= namedOf) as [[[path|] name]|]; [|done..]. destruct (List.find _ apiGroups) as [[p group]|] eqn:Ef; [|done].
    destruct (_ =? ""); [done|]. injection Ha as <-. cbn [fst snd]. split.
    + apply find_some in Ef as [Ef _]. cbv [apiGroups] in Ef. cbn [In] in Ef.
      repeat (destruct Ef as [[= _ <-]|Ef]; [discriminate|]). done.
    + destruct (plural_ends_s (go_trim_suffix name "List")) as [q ->]. by destruct q as [|x [|]].
  - unfold clientVerbs in Ev. repeat (destruct (_ =? _); [injection Ev as <-; set_solver|]). done.
Qed.

Lemma str_le_refl (a : string) : str_le a a.
Proof. unfold str_le. destruct (String.leb_total a a) as [H|H]; exact H. Qed.

Lemma nltb_iff (a b : string) : String.ltb a b = false <-> str_le b a.
Proof.
  split; [apply nltb_le|]. unfold String.ltb, str_le, String.leb. rewrite (String.compare_antisym b a).
  by destruct (String.compare a b).
Qed.

Lemma finding_less_false (a b : RBACFinding) :
  finding_less a b = false <->
  str_le (show_resource (rf_Resource b)) (show_resource (rf_Resource a)) /\
  (show_resource (rf_Resource a) = show_resource (rf_Resource b) -> str_le (rf_Verb b) (rf_Verb a)).
Proof.
  unfold finding_less. destruct (String.eqb_spec (show_resource (rf_Resource a)) (show_resource (rf_Resource b))) as [->|Hne]; cbn [negb].
  - rewrite nltb_iff. split; [intros H; split; [apply str_le_refl|by intros _]|by intros [_ H]; apply H].
  - rewrite nltb_iff. split; [by intros H; split|by intros [H _]].
Qed.

Lemma finding_less_asym (a b : RBACFinding) : finding_less a b = true -> finding_less b a = false.
Proof.
  intros H. rewrite finding_less_false. unfold finding_less in H.
  destruct (String.eqb_spec (show_resource (rf_Resource a)) (show_resource (rf_Resource b))) as [->|Hne]; cbn [negb] in H; apply ltb_le in H.
  - split; [apply str_le_refl|done].
  - split; [done|]. intros E. by rewrite E in Hne.
Qed.

Lemma finding_less_trans (a b c : RBACFinding) : finding_less a b = false -> finding_less b c = false -> finding_less a c = false.
Proof.
  rewrite !finding_less_false. intros [H1 H2] [H3 H4]. split; [by eapply str_le_trans|]. intros E.
  assert (E' : show_resource (rf_Resource a) = show_resource (rf_Resource b)) by (apply str_le_antisym; [by rewrite E|done]).
  eapply str_le_trans; [apply H4; congruence|by apply H2].
Qed.

Lemma key_of_inj (f : RBACFinding) (gr : groupResource) (v : string) :
  str_has "|" (rf_Verb f) = false -> str_has "|" v = false -> key_of f = finding_key gr v ->
  show_resource (rf_Resource f) = show_resource gr /\ rf_Verb f = v.
Proof.
  unfold key_of, finding_key. intros Hf Hv E. apply (f_equal (go_cut_last "|")) in E.
  change ("|" +:+ rf_Verb f) with (String "|" (rf_Verb f)) in E. change ("|" +:+ v) with (String "|" v) in E.
  rewrite !go_cut_last_app in E by done. by injection E.
Qed.

(** C27. The check tells exactly what the declaration leaves out: a finding is of
    a call under the module, at its position, that needs this verb on this
    resource while neither the base access nor a declared rule - by name or by
    star - grants it; every such need has its finding; each resource and verb is
    reported once; and the report is in the order of resources and verbs. *)
Theorem rbac_check_exact `{SliceSort} (calls : list ClientCall) (enableBase : bool) (extra : list rule) :
  let found := CheckRBACCoverage calls (DeclaredRules enableBase extra) in
  (forall f, f ∈ found -> exists c, c ∈ calls /\ cc_position c = rf_Position f /\ (rf_Resource f, rf_Verb f) ∈ needs c /\
     ~ granted enableBase extra (rf_Resource f) (rf_Verb f)) /\
  (forall c gr v, c ∈ calls -> (gr, v) ∈ needs c -> ~ granted enableBase extra gr v ->
     exists f, f ∈ found /\ show_resource (rf_Resource f) = show_resource gr /\ rf_Verb f = v) /\
  NoDup (map (fun f => (show_resource (rf_Resource f), rf_Verb f)) found) /\
  StronglySorted (fun a b => finding_less b a = false) found.
Proof.
  cbv zeta. unfold CheckRBACCoverage. rewrite check_calls_flat. set (declared := DeclaredRules enableBase extra).
  destruct (check_needs_spec declared (all_needs calls) (∅, []) eq_refl (NoDup_nil_2)) as (Hnd & Hsound & _ & Hcomplete).
  set (out := (fold_left _ (all_needs calls) (∅, [])).2) in *.
  pose proof (slice_sort_perm _ finding_less out) as Hperm.
  assert (Hin : forall f, f ∈ out -> exists c, c ∈ calls /\ cc_position c = rf_Position f /\ (rf_Resource f, rf_Verb f) ∈ needs c /\
     ~ granted enableBase extra (rf_Resource f) (rf_Verb f)).
  { intros f Hf. destruct (Hsound f Hf) as [[]%elem_of_nil|([pos [gr v]] & Hpn & Hl & ->)].
    apply all_needs_iff in Hpn as (c & Hc & Hpos & Hn). exists c. destruct (needs_proper c gr v Hn) as (Hg & Hk & _).
    repeat (split; [done|]). cbn [finding_of rf_Resource rf_Verb fst snd]. rewrite <- permits_iff by done. unfold lacking in Hl. cbn [fst snd] in Hl. fold declared. by rewrite Hl. }
  split; [intros f Hf; apply Hin; by rewrite <- Hperm|]. split.
  { intros c gr v Hc Hn Hgr. destruct (needs_proper c gr v Hn) as (Hg & Hk & Hv).
    assert (Hpn : (cc_position c, (gr, v)) ∈ all_needs calls) by (apply all_needs_iff; by exists c).
    apply Hcomplete, list_elem_of_fmap in Hpn as (f & E & Hf);
      [|apply not_true_is_false; unfold declared; by rewrite permits_iff].
    destruct (Hin f Hf) as (c' & _ & _ & Hn' & _). destruct (needs_proper _ _ _ Hn') as (_ & _ & Hv').
    exists f. split; [by rewrite Hperm|]. apply key_of_inj; [done..|]. by symmetry. }
  split.
  - rewrite Hperm. apply (NoDup_fmap_1 (fun sv => sv.1 +:+ "|" +:+ sv.2)). by rewrite <- list_fmap_compose.
  - apply Sorted_StronglySorted; [intros a b c H1 H2; by eapply finding_less_trans|].
    apply slice_sort_sorted; intros; [by apply finding_less_asym|by eapply finding_less_trans].
Qed.

(** A module that creates and deletes pods under the base access, which does
    neither, and lists jobs. *)
Definition sample_call (method path name position : string) : ClientCall :=
  mkClientCall method (Some "sigs.k8s.io/controller-runtime/pkg/client.Client")
    [Some (NamedType (Some "context") "Context"); Some (PointerTo (NamedType (Some path) name))] position.

Example missing_verbs_reported :
  @CheckRBACCoverage insertion_sort
    [sample_call "DeleteAllOf" "k8s.io/api/core/v1" "Pod" "a.go:1"; sample_call "Create" "k8s.io/api/batch/v1" "Job" "a.go:2";
     sample_call "Get" "k8s.io/api/core/v1" "Pod" "a.go:3"; sample_call "Delete" "k8s.io/api/core/v1" "PodList" "b.go:1"]
    (DeclaredRules true [(["batch"], ["*"], ["list"])]) =
  [mkRBACFinding ("batch", "jobs") "create" "a.go:2"; mkRBACFinding ("", "pods") "delete" "a.go:1"].
Proof. vm_compute. reflexivity. Qed.

(** The plural of a kind that is one already is not the resource's name: no rule
    that grants [endpoints] covers the call. *)
Example endpoints_never_covered :
  @CheckRBACCoverage insertion_sort [sample_call "Get" "k8s.io/api/core/v1" "Endpoints" "a.go:1"]
    (DeclaredRules false [([""], ["endpoints"], ["get"])]) = [mkRBACFinding ("", "endpointses") "get" "a.go:1"].
Proof. vm_compute. reflexivity. Qed.
