(* ===== verification/Supervise.v ===== *)
(** * The receivers of the durable wire

    [internal/transport/jetstream.go]: the streams and consumers behind the
    subjects of [Names], and the loop that owns a consumer and rebuilds it when
    the broker has lost it ([superviseConsumer]). The loop is a step relation:
    its labels are the answers of the broker, what the client library's error
    callback reports, and which case a [select] takes; the statements between
    two of them are one step. What the broker has stored is a state of its own,
    and [answers] says which labels agree with it. *)
From S2P Require Import Prelude GoErrors Names Graph Run Backoff.

Open Scope string_scope.

(** ** Streams and consumers *)

Inductive RetentionPolicy : Type := WorkQueuePolicy | LimitsPolicy.
Inductive DeliverPolicy : Type := DeliverAllPolicy | DeliverNewPolicy.

Record StreamConfig := mkStream {
  st_Name : string;
  st_Subjects : list string;
  st_Retention : RetentionPolicy;
  st_MaxAge : Z;
  st_Duplicates : Z;
}.

Record ConsumerConfig := mkConsumer {
  co_Durable : string;
  co_FilterSubject : string;
  co_DeliverPolicy : DeliverPolicy;
  co_AckWait : Z;
  co_MaxDeliver : Z;
  co_InactiveThreshold : Z;
}.

Definition EdgeStreamName : string := "module-edges".
Definition EdgeStreamSubjects : string := "tinymodule.*.msg".
Definition SysStreamName : string := "module-sysmsgs".
Definition SysStreamSubjects : string := "tinymodule.*.sysmsg".

Definition Minute : Z := (60 * Second)%Z.
Definition sysStreamMaxAge : Z := (60 * Minute)%Z.
Definition sysConsumerInactiveThreshold : Z := (5 * Minute)%Z.
Definition edgeAckWait : Z := (30 * Second)%Z.
Definition edgeInProgressInterval : Z := (10 * Second)%Z.
Definition edgeMaxDeliver : Z := 3.
Definition consumerHealthInterval : Z := (20 * Second)%Z.

(** What [EnsureEdgeStream] and [EnsureSysmsgStream] ask for. *)
Definition edge_stream : StreamConfig :=
  mkStream EdgeStreamName [EdgeStreamSubjects] WorkQueuePolicy (60 * Minute) (2 * Minute).
Definition sysmsg_stream : StreamConfig :=
  mkStream SysStreamName [SysStreamSubjects] LimitsPolicy sysStreamMaxAge (2 * Minute).

(** What the two receivers supervise. *)
Definition StartReceiver (moduleName : string) : StreamConfig * ConsumerConfig :=
  (edge_stream, mkConsumer moduleName (SubjectFor moduleName) DeliverAllPolicy edgeAckWait edgeMaxDeliver 0).

Definition StartSystemPortReceiver (moduleName podName : string) : result goerror (StreamConfig * ConsumerConfig) :=
  if podName =? "" then Err (ErrorString "podName is required for fan-out consumer naming")
  else Ok (sysmsg_stream,
           mkConsumer (moduleName +:+ "-sys-" +:+ podName) (SubjectForSystem moduleName) DeliverNewPolicy
             edgeAckWait edgeMaxDeliver sysConsumerInactiveThreshold).

(** ** The supervision loop *)

Section supervise.
  (** The three errors of the client that say a consumer or its stream is gone. *)
  Variable gone_error : goerror -> bool.

Definition isConsumerGone (err : error) : bool :=
  match err with None => false | Some e => existsb gone_error (chain e) end.

Inductive phase : Type :=
| Top          (* the head of the loop *)
| Ensuring     (* in ensureStream *)
| Creating     (* in CreateOrUpdateConsumer *)
| Consuming    (* in Consume *)
| Watching     (* in the select of the watch loop *)
| Sleeping     (* in sleepCtx *)
| Returned.

#[export] Instance phase_eq_dec : EqDecision phase.
Proof. solve_decision. Defined.

(** [su_gen] counts the turns that came to [Consume]; [su_live] are the
    consume contexts that are not stopped; [su_lost] is whether this turn's
    rebuild channel is closed. *)
Record Supervisor := mkSup {
  su_phase : phase;
  su_cancelled : bool;
  su_gen : nat;
  su_live : list nat;
  su_lost : bool;
}.

Inductive label : Type :=
| Cancel                               (* the context is cancelled *)
| Drop                                 (* the broker loses its store *)
| Reported (gen : nat) (err : goerror) (* the error callback of one Consume *)
| CheckCtx
| Ensured (err : error)
| Created (err : error)
| Consumed (err : error)
| SeeCancel                            (* the watch takes ctx.Done() *)
| SeeLost                              (* the watch takes rebuild *)
| Tick (err : error)                   (* the watch takes the ticker; the answer of the lookup *)
| Woken (elapsed : bool).              (* the wait is over, or the context is *)

Definition goto (p : phase) (s : Supervisor) : Supervisor := mkSup p (su_cancelled s) (su_gen s) (su_live s) (su_lost s).

(** [cc.Stop()] on the context of this turn. *)
Definition stop (s : Supervisor) : Supervisor :=
  mkSup (su_phase s) (su_cancelled s) (su_gen s) (List.filter (fun g => negb (g =? su_gen s)%nat) (su_live s)) (su_lost s).

Definition init : Supervisor := mkSup Top false 0 [] false.

Definition step (s : Supervisor) (l : label) : option Supervisor :=
  match l, su_phase s with
  | Cancel, _ => Some (mkSup (su_phase s) true (su_gen s) (su_live s) (su_lost s))
  | Drop, _ => Some s
  | Reported gen e, (Consuming | Watching) =>
      Some (if (gen =? su_gen s)%nat && isConsumerGone (Some e)
            then mkSup (su_phase s) (su_cancelled s) (su_gen s) (su_live s) true else s)
  | Reported _ _, _ => Some s
  | CheckCtx, Top => Some (goto (if su_cancelled s then Returned else Ensuring) s)
  | Ensured None, Ensuring => Some (goto Creating s)
  | Ensured (Some _), Ensuring => Some (goto Sleeping s)
  | Created None, Creating => Some (mkSup Consuming (su_cancelled s) (S (su_gen s)) (su_live s) false)
  | Created (Some _), Creating => Some (goto Sleeping s)
  | Consumed None, Consuming => Some (mkSup Watching (su_cancelled s) (su_gen s) (su_gen s :: su_live s) (su_lost s))
  | Consumed (Some _), Consuming => Some (goto Sleeping s)
  | SeeCancel, Watching => if su_cancelled s then Some (goto Returned (stop s)) else None
  | SeeLost, Watching => if su_lost s then Some (goto Sleeping (stop s)) else None
  | Tick e, Watching => Some (if isConsumerGone e then goto Sleeping (stop s) else s)
  | Woken true, Sleeping => Some (goto Top s)
  | Woken false, Sleeping => if su_cancelled s then Some (goto Returned s) else None
  | _, _ => None
  end.

Fixpoint steps (s : Supervisor) (ls : list label) : option Supervisor :=
  match ls with [] => Some s | l :: ls' => s' ← step s l; steps s' ls' end.

Definition reachable (s : Supervisor) : Prop := exists ls, steps init ls = Some s.

(** ** One live consumer at most *)

Definition sup_ok (s : Supervisor) : Prop :=
  su_live s = (if decide (su_phase s = Watching) then [su_gen s] else []) /\
  (su_phase s = Returned -> su_cancelled s = true).

Lemma stop_live (s : Supervisor) : su_live s = [su_gen s] -> su_live (stop s) = [].
Proof. intros H. unfold stop. cbn. rewrite H. cbn. by rewrite Nat.eqb_refl. Qed.

Lemma sup_ok_init : sup_ok init.
Proof. by split. Qed.

Lemma sup_ok_step (s s' : Supervisor) (l : label) : sup_ok s -> step s l = Some s' -> sup_ok s'.
Proof.
  destruct s as [p c g live lost]. intros [Hl Hr] H. unfold sup_ok, step in *. cbn in *.
  destruct l as [| |gen e| |[e|]|[e|]|[e|]| | |e|[]], p; cbn in *; simplify_eq/=; try done;
    repeat match goal with H : (if ?b then _ else _) = Some _ |- _ => destruct b eqn:?; simplify_eq/= end;
    repeat match goal with |- context [if ?b then _ else _] => destruct b eqn:?; cbn end;
    rewrite ?Nat.eqb_refl in *; by cbn in *.
Qed.

Lemma steps_ok (s s' : Supervisor) (ls : list label) : sup_ok s -> steps s ls = Some s' -> sup_ok s'.
Proof.
  revert s. induction ls as [|l ls IH]; cbn; intros s H E; [by simplify_eq|].
  apply bind_Some in E as (t & Ht & E). exact (IH t (sup_ok_step s t l H Ht) E).
Qed.

Lemma reachable_ok (s : Supervisor) : reachable s -> sup_ok s.
Proof. intros [ls H]. exact (steps_ok init s ls sup_ok_init H). Qed.

(** ** The broker *)

(** Whether the stream and this receiver's consumer are stored. *)
Record Broker := mkBroker { bk_stream : bool; bk_consumer : bool }.

(** The labels that agree with what is stored: a consumer is created on a stream
    that is there, and a lookup finds the consumer exactly when it is there. *)
Definition answers (b : Broker) (l : label) : option Broker :=
  match l with
  | Drop => Some (mkBroker false false)
  | Ensured None => Some (mkBroker true (bk_consumer b))
  | Created None => if bk_stream b then Some (mkBroker true true) else None
  | Tick None => if bk_consumer b then Some b else None
  | Tick (Some e) => if isConsumerGone (Some e) && bk_consumer b then None else Some b
  | _ => Some b
  end.

Definition joint (sb : Supervisor * Broker) (l : label) : option (Supervisor * Broker) :=
  s ← step sb.1 l; b ← answers sb.2 l; Some (s, b).

Fixpoint joints (sb : Supervisor * Broker) (ls : list label) : option (Supervisor * Broker) :=
  match ls with [] => Some sb | l :: ls' => sb' ← joint sb l; joints sb' ls' end.

(** A step of the loop itself, not of those around it. *)
Definition own (l : label) : bool := match l with Cancel | Drop | Reported _ _ => false | _ => true end.

(** The broker answers, keeps its store, and nobody cancels. *)
Definition calm (b : Broker) (l : label) : bool :=
  match l with
  | Cancel | Drop | Ensured (Some _) | Consumed (Some _) => false
  | Created (Some _) => negb (bk_stream b)
  | Tick (Some e) => isConsumerGone (Some e)
  | _ => true
  end.

Fixpoint calm_run (b : Broker) (ls : list label) : bool :=
  match ls with
  | [] => true
  | l :: ls' => calm b l && match answers b l with Some b' => calm_run b' ls' | None => false end
  end.

Definition receiving (sb : Supervisor * Broker) : Prop := su_phase sb.1 = Watching /\ bk_consumer sb.2 = true.

#[export] Instance receiving_dec (sb : Supervisor * Broker) : Decision (receiving sb).
Proof. unfold receiving. apply _. Defined.

(** How many steps are left, at most, until the consumer is watched again. *)
Definition distance (sb : Supervisor * Broker) : nat :=
  match su_phase sb.1 with
  | Watching => if bk_consumer sb.2 then 0 else 6
  | Consuming => if bk_consumer sb.2 then 1 else 7
  | Creating => if bk_stream sb.2 then 2 else 6
  | Ensuring => 3
  | Top => 4
  | Sleeping => 5
  | Returned => 0
  end.

Lemma joint_calm (s s' : Supervisor) (b b' : Broker) (l : label) :
  joint (s, b) l = Some (s', b') -> calm b l = true -> su_cancelled s = false -> ~ receiving (s, b) -> su_phase s <> Returned ->
  su_cancelled s' = false /\ su_phase s' <> Returned /\ (distance (s', b') + (if own l then 1 else 0) <= distance (s, b))%nat.
Proof.
  destruct s as [p c g live lost], b as [st co]. unfold joint, receiving, distance, calm, own. cbn [fst snd].
  intros (t & Ht & (u & Hu & [= <- <-])%bind_Some)%bind_Some Hc Hca Hn Hr. cbn in Hca, Hn, Hr. subst c.
  destruct l as [| |gen e| |[e|]|[e|]|[e|]| | |[e|]|[]], p; cbn in *; try discriminate; try congruence;
    repeat match goal with
    | H : (if ?b then _ else _) = Some _ |- _ => destruct b eqn:?
    | H : Some _ = Some _ |- _ => injection H as <-
    end; try discriminate; cbn in *;
    repeat match goal with |- context [if ?b then _ else _] => destruct b eqn:? end; cbn; try tauto; try discriminate;
    try (split; [done|split; [done|lia]]); try congruence.
Qed.

Lemma joints_calm (ls : list label) (s s' : Supervisor) (b b' : Broker) :
  joints (s, b) ls = Some (s', b') -> calm_run b ls = true -> su_cancelled s = false -> su_phase s <> Returned ->
  (distance (s, b) <= length (List.filter own ls))%nat ->
  exists ls1 ls2 t c, ls = (ls1 ++ ls2)%list /\ joints (s, b) ls1 = Some (t, c) /\ receiving (t, c).
Proof.
  revert s b. induction ls as [|l ls IH]; intros s b Hj Hcalm Hc Hr Hd.
  { exists [], [], s, b. split; [done|]. split; [done|]. cbn in Hd.
    destruct s as [[] ? ? ? ?], b as [[] []]; cbn in *; try lia; by repeat split. }
  destruct (decide (receiving (s, b))) as [Hin|Hout]; [by exists [], (l :: ls), s, b|].
  cbn [joints] in Hj. apply bind_Some in Hj as ([t c] & Ht & Hj). cbn [calm_run] in Hcalm.
  apply andb_true_iff in Hcalm as [Hl Hrest].
  destruct (joint_calm s t b c l Ht Hl Hc Hout Hr) as (Hc' & Hr' & Hd').
  assert (Ha : answers b l = Some c).
  { unfold joint in Ht. cbn in Ht. apply bind_Some in Ht as (? & _ & (? & Ha & [= _ <-])%bind_Some). done. }
  rewrite Ha in Hrest.
  destruct (IH t c Hj Hrest Hc' Hr') as (ls1 & ls2 & u & d & -> & Hu & Hrec).
  { cbn [List.filter] in Hd. destruct (own l); cbn [length] in Hd; lia. }
  exists (l :: ls1), ls2, u, d. split; [done|]. split; [|done]. cbn [joints]. by rewrite Ht.
Qed.

Lemma joints_steps (ls : list label) (s s' : Supervisor) (b b' : Broker) : joints (s, b) ls = Some (s', b') -> steps s ls = Some s'.
Proof.
  revert s b. induction ls as [|l ls IH]; intros s b H; [by injection H as -> _|]. cbn in *.
  apply bind_Some in H as ([t c] & Ht & H). unfold joint in Ht. cbn in Ht. apply bind_Some in Ht as (? & -> & (? & _ & [= -> ->])%bind_Some).
  cbn. by eapply IH.
Qed.

Lemma steps_app (ls1 ls2 : list label) (s : Supervisor) : steps s (ls1 ++ ls2) = (t ← steps s ls1; steps t ls2).
Proof. revert s. induction ls1 as [|l ls1 IH]; intros s; [done|]. cbn. destruct (step s l); [apply IH|done]. Qed.

(** The step a loop that is not cancelled can take while the broker answers. *)
Definition next_label (e : goerror) (sb : Supervisor * Broker) : label :=
  match su_phase sb.1 with
  | Ensuring => Ensured None
  | Creating => Created (if bk_stream sb.2 then None else Some e)
  | Consuming => Consumed None
  | Watching => Tick (if bk_consumer sb.2 then None else Some e)
  | Sleeping => Woken true
  | Top | Returned => CheckCtx
  end.

Lemma next_label_enabled (e : goerror) (s : Supervisor) (b : Broker) :
  isConsumerGone (Some e) = true -> su_phase s <> Returned ->
  own (next_label e (s, b)) = true /\ calm b (next_label e (s, b)) = true /\ is_Some (joint (s, b) (next_label e (s, b))).
Proof.
  intros He Hr. destruct s as [p c g live lost], b as [st co]. destruct p; try done; destruct st, co;
    unfold joint, next_label, calm, own, step, answers; cbn [su_phase bk_stream bk_consumer fst snd mbind option_bind];
    rewrite ?He; cbn [andb negb mbind option_bind]; eauto.
Qed.

(** C14. A receiver heals. The loop holds a live consumer while it watches one and
    none otherwise, and returns only when its context is cancelled. Whatever
    happened before - failed calls, a store the broker lost in the middle of
    anything, reports on consumers long stopped - once the broker answers and
    nobody cancels, the loop can always go on, and seven steps of its own are
    enough to come to a state that watches a consumer the broker has. *)
Theorem receiver_self_heals (s : Supervisor) (b : Broker) (e : goerror) :
  reachable s -> su_cancelled s = false -> isConsumerGone (Some e) = true ->
  su_live s = (if decide (su_phase s = Watching) then [su_gen s] else []) /\ su_phase s <> Returned /\
  (exists l, own l = true /\ calm b l = true /\ is_Some (joint (s, b) l)) /\
  (forall ls s' b', joints (s, b) ls = Some (s', b') -> calm_run b ls = true -> (7 <= length (List.filter own ls))%nat ->
     exists ls1 ls2 t c, ls = (ls1 ++ ls2)%list /\ joints (s, b) ls1 = Some (t, c) /\
       receiving (t, c) /\ su_live t = [su_gen t]).
Proof.
  intros Hreach Hc He. destruct (reachable_ok s Hreach) as [Hl Hr].
  assert (Hnr : su_phase s <> Returned) by (intros E; specialize (Hr E); congruence).
  split; [done|]. split; [done|]. split; [exists (next_label e (s, b)); by apply next_label_enabled|].
  intros ls s' b' Hj Hcalm Hn.
  destruct (joints_calm ls s s' b b' Hj Hcalm Hc Hnr) as (ls1 & ls2 & t & c & -> & Ht & Hrec).
  { assert (distance (s, b) <= 7)%nat by (destruct s as [[] ? ? ? ?], b as [[] []]; cbn; lia). lia. }
  exists ls1, ls2, t, c. split; [done|]. split; [done|]. split; [done|].
  assert (Ht' : reachable t).
  { destruct Hreach as [ls0 H0]. exists (ls0 ++ ls1)%list. rewrite steps_app, H0. exact (joints_steps ls1 s t b c Ht). }
  destruct (reachable_ok t Ht') as [Hlt _]. destruct Hrec as [Hp _]. cbn in Hp. by rewrite Hlt, Hp.
Qed.
End supervise.

(** The broker loses its store while the consumer is watched. *)
Definition demo_gone (e : goerror) : bool := match e with ErrorString "nats: consumer not found" => true | _ => false end.
Definition lost_start : list label :=
  [CheckCtx; Ensured None; Created None; Consumed None; Tick None; Drop; Reported 0 (ErrorString "nats: consumer not found")].

Lemma receiver_self_heals_witness :
  exists s ls1 ls2 t c, steps demo_gone init lost_start = Some s /\ su_live s = [1%nat] /\
    [Tick (Some (ErrorString "nats: consumer not found")); Woken true; CheckCtx; Ensured None; Created None; Consumed None; Tick None]
      = (ls1 ++ ls2)%list /\
    joints demo_gone (s, mkBroker false false) ls1 = Some (t, c) /\ receiving (t, c) /\ su_live t = [su_gen t].
Proof.
  destruct (steps demo_gone init lost_start) as [s|] eqn:E; [|discriminate E].
  destruct (receiver_self_heals demo_gone s (mkBroker false false) (ErrorString "nats: consumer not found"))
    as (Hl & _ & _ & Hheal); [by exists lost_start|by injection E as <-|reflexivity|].
  assert (Es : s = mkSup Watching false 1 [1%nat] false) by (injection E as <-; reflexivity). subst s.
  destruct (Hheal [Tick (Some (ErrorString "nats: consumer not found")); Woken true; CheckCtx; Ensured None; Created None; Consumed None; Tick None]
    (mkSup Watching false 2 [2%nat] false) (mkBroker true true)) as (ls1 & ls2 & t & c & H1 & H2 & H3 & H4);
    [reflexivity|reflexivity|cbn; lia|].
  exists (mkSup Watching false 1 [1%nat] false), ls1, ls2, t, c. done.
Defined.

(** ** Which messages a receiver reads

    NATS matches a subject against a pattern token by token, where a star stands
    for any one token; the greater-than sign, which stands for the rest, is not
    used here. *)
Class NatsSubjects := {
  matches : string -> string -> bool;
  matches_tokens : forall pattern subject, str_has ">" pattern = false ->
    matches pattern subject = true <-> Forall2 (fun p t => p = "*" \/ p = t) (go_split "." pattern) (go_split "." subject);
}.

Definition stored_in `{NatsSubjects} (st : StreamConfig) (subject : string) : bool := existsb (fun p => matches p subject) (st_Subjects st).
Definition reads `{NatsSubjects} (r : StreamConfig * ConsumerConfig) (subject : string) : bool :=
  stored_in r.1 subject && matches (co_FilterSubject r.2) subject.

Lemma split_subject (m : string) (kind : string) : str_has "." m = false -> str_has "." kind = false ->
  go_split "." ("tinymodule" +:+ "." +:+ m +:+ "." +:+ kind) = ["tinymodule"; m; kind].
Proof.
  intros Hm Hk. change ("." +:+ m +:+ "." +:+ kind) with (String "." (m +:+ String "." kind)).
  rewrite !go_split_app by done. by rewrite go_split_nosep.
Qed.

Lemma tokens3 `{NatsSubjects} (p k m k' : string) :
  str_has "." p = false -> str_has ">" p = false -> str_has "." m = false -> str_has "." k = false -> str_has ">" k = false ->
  str_has "." k' = false -> k <> "*" ->
  matches ("tinymodule" +:+ "." +:+ p +:+ "." +:+ k) ("tinymodule" +:+ "." +:+ m +:+ "." +:+ k') = true <->
  (p = "*" \/ p = m) /\ k = k'.
Proof.
  intros Hp1 Hp2 Hm Hk1 Hk2 Hk' Hstar. rewrite matches_tokens.
  - rewrite !split_subject by done. rewrite !Forall2_cons, Forall2_nil. naive_solver.
  - rewrite !str_has_app. by rewrite Hp2, Hk2.
Qed.

(** A module name as a receiver subscribes with it. *)
Definition plain_module (m : string) : Prop := str_has "." m = false /\ str_has ">" m = false /\ m <> "*".

(** A message for a node is stored in one of the two streams, by its port, and
    read by the receivers of the node's module and no other. *)
Lemma receivers_read_their_module `{NatsSubjects} (To m c r pod : string) (sys : StreamConfig * ConsumerConfig) :
  ParseFullName To = Ok (m, c) -> plain_module r -> StartSystemPortReceiver r pod = Ok sys ->
  stored_in edge_stream (SubjectFor m) = true /\ stored_in sysmsg_stream (SubjectFor m) = false /\
  stored_in edge_stream (SubjectForSystem m) = false /\ stored_in sysmsg_stream (SubjectForSystem m) = true /\
  (reads (StartReceiver r) (SubjectFor m) = true <-> r = m) /\ reads (StartReceiver r) (SubjectForSystem m) = false /\
  (reads sys (SubjectForSystem m) = true <-> r = m) /\ reads sys (SubjectFor m) = false.
Proof.
  intros Hp (Hr1 & Hr2 & Hr3) Hs. unfold StartSystemPortReceiver in Hs. destruct (pod =? "") eqn:Ep; [done|]. injection Hs as <-.
  assert (Hm : str_has "." m = false).
  { unfold ParseFullName in Hp. pose proof (go_split_pieces "." To) as Hpieces.
    destruct (go_split "." To) as [|x [|m' [|c' rest]]]; try discriminate. injection Hp as -> ->.
    by inversion Hpieces as [|? ? _ Ht]; inversion Ht. }
  assert (Hstored : forall k k', str_has "." k = false -> str_has ">" k = false -> str_has "." k' = false -> k <> "*" ->
    matches ("tinymodule" +:+ "." +:+ "*" +:+ "." +:+ k) ("tinymodule" +:+ "." +:+ m +:+ "." +:+ k') = true <-> k = k')
    by (intros; rewrite tokens3 by done; naive_solver).
  assert (Hread : forall k k', str_has "." k = false -> str_has ">" k = false -> str_has "." k' = false -> k <> "*" ->
    matches ("tinymodule" +:+ "." +:+ r +:+ "." +:+ k) ("tinymodule" +:+ "." +:+ m +:+ "." +:+ k') = true <-> r = m /\ k = k')
    by (intros; rewrite tokens3 by done; naive_solver).
  unfold reads, stored_in. cbn [fst snd st_Subjects edge_stream sysmsg_stream StartReceiver co_FilterSubject existsb].
  unfold EdgeStreamSubjects, SysStreamSubjects, SubjectFor, SubjectForSystem, subjectPrefix.
  change "tinymodule.*.msg" with ("tinymodule" +:+ "." +:+ "*" +:+ "." +:+ "msg").
  change "tinymodule.*.sysmsg" with ("tinymodule" +:+ "." +:+ "*" +:+ "." +:+ "sysmsg").
  change (m +:+ ".msg") with (m +:+ "." +:+ "msg"). change (m +:+ ".sysmsg") with (m +:+ "." +:+ "sysmsg").
  change (r +:+ ".msg") with (r +:+ "." +:+ "msg"). change (r +:+ ".sysmsg") with (r +:+ "." +:+ "sysmsg").
  rewrite !orb_false_r, !andb_true_iff, !andb_false_iff, <- !not_true_iff_false.
  rewrite !Hstored, !Hread by done. naive_solver.
Qed.

(** Pods of one module have consumers of their own. *)
Lemma pod_consumers_distinct (m p1 p2 : string) (r1 r2 : StreamConfig * ConsumerConfig) :
  StartSystemPortReceiver m p1 = Ok r1 -> StartSystemPortReceiver m p2 = Ok r2 -> co_Durable r1.2 = co_Durable r2.2 -> p1 = p2.
Proof.
  unfold StartSystemPortReceiver. destruct (p1 =? ""), (p2 =? ""); try done. intros [= <-] [= <-]. cbn [snd co_Durable].
  intros H%str_app_inj_l. by apply str_app_inj_l in H.
Qed.

(** Pods of two modules may not: the names run into each other, and the two
    receivers rewrite each other's consumer in the one stream. *)
Example consumer_names_collide :
  match StartSystemPortReceiver "a" "b-sys-c", StartSystemPortReceiver "a-sys-b" "c" with
  | Ok (s1, c1), Ok (s2, c2) =>
      (st_Name s1 =? st_Name s2) && (co_Durable c1 =? co_Durable c2) && negb (co_FilterSubject c1 =? co_FilterSubject c2)
  | _, _ => false
  end = true.
Proof. reflexivity. Qed.

(** Matching as the documentation of NATS describes it. *)
Definition token_matches (pattern subject : string) : bool :=
  bool_decide (Forall2 (fun p t => p = "*" \/ p = t) (go_split "." pattern) (go_split "." subject)).

#[export] Instance nats_subjects : NatsSubjects.
Proof. refine {| matches := token_matches |}. intros p s _. apply bool_decide_eq_true. Defined.

Example own_and_other_module :
  (reads (StartReceiver "http-module-v0") (SubjectFor "http-module-v0"),
   reads (StartReceiver "http-module-v0") (SubjectForSystem "http-module-v0"),
   reads (StartReceiver "http-module-v0") (SubjectFor "common-module-v0")) = (true, false, false).
Proof. vm_compute. reflexivity. Qed.

(** ** A slow handler keeps its message *)

(** The times of the ticks while a handler runs for [d]. *)
Definition in_progress_ticks (d : Z) : list Z :=
  map (fun k => (Z.of_nat k * edgeInProgressInterval)%Z) (seq 1 (Z.to_nat (d / edgeInProgressInterval))).

(** The broker gives a message up where it hears nothing for longer than the
    wait: not on delivery, not by a tick, not by the acknowledgement. *)
Fixpoint silent_longer (wait last : Z) (heard : list Z) : bool :=
  match heard with [] => false | t :: heard' => (wait <? t - last)%Z || silent_longer wait t heard' end.

Lemma ticks_not_silent (n k : nat) (d : Z) :
  (Z.of_nat (k + n) = d / edgeInProgressInterval)%Z -> (0 <= d)%Z ->
  silent_longer edgeAckWait (Z.of_nat k * edgeInProgressInterval)
    (map (fun k => (Z.of_nat k * edgeInProgressInterval)%Z) (seq (S k) n) ++ [d]) = false.
Proof.
  unfold edgeInProgressInterval, edgeAckWait, Second. revert k. induction n as [|n IH]; intros k Hk Hd.
  - cbn [seq map app silent_longer]. rewrite orb_false_r. apply Z.ltb_ge. rewrite Nat.add_0_r in Hk.
    pose proof (Z.div_mod d (10 * 1000000000) ltac:(lia)). pose proof (Z.mod_pos_bound d (10 * 1000000000) ltac:(lia)). lia.
  - cbn [seq map app silent_longer]. rewrite IH by lia. rewrite orb_false_r. apply Z.ltb_ge. lia.
Qed.

(** However long a handler runs, its message is not given up while its pod
    lives. *)
Lemma running_handler_keeps_message (d : Z) : (0 <= d)%Z -> silent_longer edgeAckWait 0 (in_progress_ticks d ++ [d]) = false.
Proof.
  intros Hd. apply (ticks_not_silent (Z.to_nat (d / edgeInProgressInterval)) 0 d); [|done].
  rewrite Nat.add_0_l, Z2Nat.id; [done|]. apply Z.div_pos; [done|]. by vm_compute.
Qed.
