(* ===== verification/Telemetry.v ===== *)
(** * Telemetry

    [pkg/metrics]: the address of the collector ([dsn.go]), the options
    ([config.go]), the set-up with its order of effects ([metrics.go],
    [tracing.go], [opentelemetry.go]), the client's life ([client.go]) and the
    identifiers of traces and spans ([tracing.go]). What the OpenTelemetry SDK
    makes of what it is handed - exporters, providers, resources - is a
    parameter; what the set-up hands to it, in order, is the list of [Event]s. *)
From S2P Require Import Prelude GoErrors Backoff.

Open Scope string_scope.

(** ** Addresses: [net.SplitHostPort] and [net.JoinHostPort] *)

Definition addr_error (addr why : string) : goerror := ErrorString ("address " +:+ addr +:+ ": " +:+ why).

Definition SplitHostPort (hostport : string) : result goerror (string * string) :=
  let err why := Err (addr_error hostport why) in
  match go_cut_last ":" hostport with
  | None => err "missing port in address"
  | Some (before, port) =>
      if go_has_prefix hostport "[" then
        match go_cut "]" hostport with
        | None => err "missing ']' in address"
        | Some (bracketed, rest) =>
            let host := go_trim_prefix bracketed "[" in
            if rest =? "" then err "missing port in address"
            else if before =? bracketed +:+ "]" then
              if str_has "[" (go_trim_prefix hostport "[") then err "unexpected '[' in address"
              else if str_has "]" rest then err "unexpected ']' in address"
              else Ok (host, port)
            else if go_has_prefix rest ":" then err "too many colons in address"
            else err "missing port in address"
        end
      else if str_has ":" before then err "too many colons in address"
      else if str_has "[" hostport then err "unexpected '[' in address"
      else if str_has "]" hostport then err "unexpected ']' in address"
      else Ok (before, port)
  end.

Definition JoinHostPort (host port : string) : string :=
  if str_has ":" host then "[" +:+ host +:+ "]:" +:+ port else host +:+ ":" +:+ port.

Definition joinHostPort (host port : string) : string := if port =? "" then host else JoinHostPort host port.

(** ** The collector's address *)

(** What [url.Parse] finds; the user's name where there is a user. *)
Record URL := mkURL { u_Scheme : string; u_Host : string; u_User : option string }.

Record DSN := mkDSN { dsn_original : string; dsn_Scheme : string; dsn_Host : string; dsn_GRPCPort : string; dsn_Token : string }.

Definition OTLPEndpoint (dsn : DSN) : string := joinHostPort (dsn_Host dsn) (dsn_GRPCPort dsn).

Definition dsn_address (host : string) : string * string :=
  let hp := match SplitHostPort host with Ok hp => hp | Err _ => (host, "") end in
  (hp.1, if hp.2 =? "" then "413" else hp.2).

Section dsn.
  Variable url_parse : string -> result goerror URL.

Definition ParseDSN (dsnStr : string) : result goerror DSN :=
  if dsnStr =? "" then Err (ErrorString "DSN is empty (use WithDSN or OTLP_DSN env var)")
  else match url_parse dsnStr with
  | Err err => Err (ErrorString ("can't parse DSN=" +:+ go_quote dsnStr +:+ ": " +:+ error_text err))
  | Ok u =>
      if u_Scheme u =? "" then Err (ErrorString ("DSN=" +:+ go_quote dsnStr +:+ " does not have a scheme"))
      else if u_Host u =? "" then Err (ErrorString ("DSN=" +:+ go_quote dsnStr +:+ " does not have a host"))
      else match u_User u with
      | None => Err (ErrorString ("DSN=" +:+ go_quote dsnStr +:+ " does not have a token"))
      | Some token => let hp := dsn_address (u_Host u) in Ok (mkDSN dsnStr (u_Scheme u) hp.1 hp.2 token)
      end
  end.
End dsn.

(** ** Options *)

Section otel.
  (** The values that are only handed on. *)
  Context {Detector Resource Tls Propagator Provider Sampler BspOption MetricOption : Type}.

Record config := mkConfig {
  cf_dsn : string;
  cf_resourceAttributes : list (string * string);
  cf_resourceDetectors : list Detector;
  cf_resource : option Resource;
  cf_tlsConf : option Tls;
  cf_tracingEnabled : bool;
  cf_textMapPropagator : option Propagator;
  cf_tracerProvider : option Provider;
  cf_traceSampler : option Sampler;
  cf_prettyPrint : bool;
  cf_bspOptions : list BspOption;
  cf_metricsEnabled : bool;
  cf_metricOptions : list MetricOption;
}.

Inductive Option_ : Type :=
| WithDSN (dsn : string)
| WithServiceName (serviceName : string)
| WithServiceVersion (serviceVersion : string)
| WithDeploymentEnvironment (env : string)
| WithResourceAttributes (attrs : list (string * string))
| WithResourceDetectors (detectors : list Detector)
| WithResource (resource : Resource)
| WithTLSConfig (tlsConf : Tls)
| WithTracingEnabled (on : bool)
| WithTracerProvider (provider : Provider)
| WithTraceSampler (sampler : Sampler)
| WithPropagator (propagator : Propagator)
| WithPrettyPrintSpanExporter
| WithBatchSpanProcessorOption (opts : list BspOption)
| WithMetricsEnabled (on : bool)
| WithMetricOption (options : list MetricOption).

Definition WithTracingDisabled : Option_ := WithTracingEnabled false.
Definition WithMetricsDisabled : Option_ := WithMetricsEnabled false.

Definition add_attributes (attrs : list (string * string)) (c : config) : config :=
  mkConfig (cf_dsn c) (cf_resourceAttributes c ++ attrs)%list (cf_resourceDetectors c) (cf_resource c) (cf_tlsConf c) (cf_tracingEnabled c)
    (cf_textMapPropagator c) (cf_tracerProvider c) (cf_traceSampler c) (cf_prettyPrint c) (cf_bspOptions c) (cf_metricsEnabled c) (cf_metricOptions c).

Definition apply (c : config) (o : Option_) : config :=
  let 'mkConfig dsn attrs det res tls tr prop prov sam pp bsp me mo := c in
  match o with
  | WithDSN d => mkConfig d attrs det res tls tr prop prov sam pp bsp me mo
  | WithServiceName s => add_attributes [("service.name", s)] c
  | WithServiceVersion s => add_attributes [("service.version", s)] c
  | WithDeploymentEnvironment s => add_attributes [("deployment.environment", s)] c
  | WithResourceAttributes l => add_attributes l c
  | WithResourceDetectors l => mkConfig dsn attrs (det ++ l)%list res tls tr prop prov sam pp bsp me mo
  | WithResource r => mkConfig dsn attrs det (Some r) tls tr prop prov sam pp bsp me mo
  | WithTLSConfig t => mkConfig dsn attrs det res (Some t) tr prop prov sam pp bsp me mo
  | WithTracingEnabled b => mkConfig dsn attrs det res tls b prop prov sam pp bsp me mo
  | WithTracerProvider p => mkConfig dsn attrs det res tls tr prop (Some p) sam pp bsp me mo
  | WithTraceSampler s => mkConfig dsn attrs det res tls tr prop prov (Some s) pp bsp me mo
  | WithPropagator p => mkConfig dsn attrs det res tls tr (Some p) prov sam pp bsp me mo
  | WithPrettyPrintSpanExporter => mkConfig dsn attrs det res tls tr prop prov sam true bsp me mo
  | WithBatchSpanProcessorOption l => mkConfig dsn attrs det res tls tr prop prov sam pp (bsp ++ l)%list me mo
  | WithMetricsEnabled b => mkConfig dsn attrs det res tls tr prop prov sam pp bsp b mo
  | WithMetricOption l => mkConfig dsn attrs det res tls tr prop prov sam pp bsp me (mo ++ l)%list
  end.

Definition newConfig (LookupEnv : string -> option string) (opts : list Option_) : config :=
  fold_left apply opts (mkConfig (default "" (LookupEnv "OTLP_DSN")) [] [] None None true None None None false [] true []).

(** ** Set-up *)

(** How an exporter's connection is secured. *)
Inductive Creds : Type := OwnTls (conf : Tls) | SystemCerts | Insecure.

Definition credentials (conf : config) (dsn : DSN) : Creds :=
  match cf_tlsConf conf with Some t => OwnTls t | None => if dsn_Scheme dsn =? "https" then SystemCerts else Insecure end.

Record Exporter := mkExporter { ex_endpoint : string; ex_headers : list (string * string); ex_creds : Creds }.

Definition otlpTraceClient (conf : config) (dsn : DSN) : Exporter :=
  mkExporter (OTLPEndpoint dsn) [("origin-dsn", dsn_original dsn)] (credentials conf dsn).
Definition otlpMetricClient (conf : config) (dsn : DSN) : Exporter := mkExporter (OTLPEndpoint dsn) [] (credentials conf dsn).

(** [resource.New] is handed the environment, the detectors and the
    attributes; where it fails the environment alone is used. *)
Record ResourceSpec := mkSpec { rs_detectors : list Detector; rs_attributes : list (string * string) }.

(** A tracer provider: the one of an option, or one with a resource and a
    sampler; and what the set-up changes outside of it, in order. *)
Inductive TracerProvider : Type := GivenProvider (p : Provider) | NewProvider (res : option ResourceSpec) (sampler : option Sampler).

Inductive Event : Type :=
| SetTextMapPropagator (p : option Propagator)   (* None: trace context and baggage *)
| SetTracerProvider (p : TracerProvider)
| RegisterSpanProcessor (p : TracerProvider) (queue : Z) (opts : list BspOption) (to : Exporter)
| RegisterPrettyPrinter (p : TracerProvider)
| SetMeterProvider (opts : list MetricOption) (res : option ResourceSpec) (to : Exporter)
| StoreClient (dsn : DSN) (tp : option TracerProvider) (mp : bool).

(** The SDK: what may fail, and the machine. *)
Record Sdk := mkSdk {
  sdk_resource : ResourceSpec -> error;
  sdk_trace_exporter : Exporter -> error;
  sdk_stdout_exporter : error;
  sdk_metric_exporter : Exporter -> error;
  sdk_runtime_metrics : error;
  sdk_always_sample : Sampler;
  sdk_gomaxprocs : Z;
}.

Definition newResource (sdk : Sdk) (conf : config) : option ResourceSpec :=
  let spec := mkSpec (cf_resourceDetectors conf) (cf_resourceAttributes conf) in
  match sdk_resource sdk spec with Some _ => None | None => Some spec end.

(** Go's division truncates. *)
Definition queueSize (gomaxprocs : Z) : Z :=
  let n := (Z.quot gomaxprocs 2 * 1000)%Z in
  if (n <? 1000)%Z then 1000%Z else if (16000 <? n)%Z then 16000%Z else n.

Definition configurePropagator (sdk : Sdk) (c : config) : config * list Event :=
  (mkConfig (cf_dsn c) (cf_resourceAttributes c) (cf_resourceDetectors c) (cf_resource c) (cf_tlsConf c) (cf_tracingEnabled c)
     (cf_textMapPropagator c) (cf_tracerProvider c) (Some (sdk_always_sample sdk)) (cf_prettyPrint c) (cf_bspOptions c)
     (cf_metricsEnabled c) (cf_metricOptions c),
   [SetTextMapPropagator (cf_textMapPropagator c)]).

(** What was done, and the provider of the client or the error. *)
Definition configureTracing (sdk : Sdk) (conf : config) (dsn : DSN) : list Event * result goerror TracerProvider :=
  let '(provider, set) :=
    match cf_tracerProvider conf with
    | Some p => (GivenProvider p, [])
    | None => let p := NewProvider (newResource sdk conf) (cf_traceSampler conf) in (p, [SetTracerProvider p])
    end in
  let exporter := otlpTraceClient conf dsn in
  match sdk_trace_exporter sdk exporter with
  | Some err => (set, Err (ErrorString ("otlptrace.New failed: " +:+ error_text err)))
  | None =>
      let done := set ++ [RegisterSpanProcessor provider (queueSize (sdk_gomaxprocs sdk)) (cf_bspOptions conf) exporter] in
      if cf_prettyPrint conf then
        match sdk_stdout_exporter sdk with
        | Some err => (done, Err err)
        | None => (done ++ [RegisterPrettyPrinter provider], Ok provider)
        end
      else (done, Ok provider)
  end%list.

Definition configureMetrics (sdk : Sdk) (conf : config) (dsn : DSN) : list Event * error :=
  let exporter := otlpMetricClient conf dsn in
  match sdk_metric_exporter sdk exporter with
  | Some err => ([], Some (ErrorString ("new otlp client error: " +:+ error_text err)))
  | None =>
      ([SetMeterProvider (cf_metricOptions conf) (newResource sdk conf) exporter],
       match sdk_runtime_metrics sdk with
       | Some err => Some (ErrorString ("runtimemetrics.Start failed: " +:+ error_text err))
       | None => None
       end)
  end.

Definition configure_exports (sdk : Sdk) (conf : config) (dsn : DSN) : list Event * error :=
  let '(tracing, tp) :=
    if cf_tracingEnabled conf
    then let '(evs, res) := configureTracing sdk conf dsn in (evs, match res with Ok p => Ok (Some p) | Err e => Err e end)
    else ([], Ok None) in
  match tp with
  | Err err => (tracing, Some err)
  | Ok tp =>
      let '(metrics, err) := if cf_metricsEnabled conf then configureMetrics sdk conf dsn else ([], None) in
      match err with
      | Some e => (tracing ++ metrics, Some e)
      | None => (tracing ++ metrics ++ [StoreClient dsn tp (cf_metricsEnabled conf)], None)
      end
  end%list.

Definition ConfigureOpenTelemetry (url_parse : string -> result goerror URL) (sdk : Sdk) (LookupEnv : string -> option string)
    (opts : list Option_) : list Event * error :=
  match LookupEnv "OTLP_DISABLED" with
  | Some _ => ([], Some (ErrorString "telemetry disabled"))
  | None =>
      let conf := newConfig LookupEnv opts in
      if negb (cf_tracingEnabled conf) && negb (cf_metricsEnabled conf) then ([], None)
      else match ParseDSN url_parse (cf_dsn conf) with
      | Err err => ([], Some (ErrorString ("invalid OTLP_DSN: " +:+ error_text err +:+ " (Opentelemetry is disabled)")))
      | Ok dsn =>
          if dsn_Token dsn =? "<token>"
          then ([], Some (ErrorString ("dummy OTLP_DSN detected: " +:+ go_quote (cf_dsn conf) +:+ " (Opentelemetry is disabled)")))
          else if go_has_suffix (dsn_Host dsn) ":14318"
          then ([], Some (ErrorString ("open-telemetry-go uses OTLP/gRPC exporter, but got host " +:+ go_quote (dsn_Host dsn))))
          else
            let '(conf, propagator) := configurePropagator sdk conf in
            let '(evs, err) := configure_exports sdk conf dsn in
            (propagator ++ evs, err)
      end
  end%list.
End otel.

(** ** The client's life *)

(** The providers of a client; [shutdown] and [flush] are the SDK's. *)
Record client := mkClient { cl_tp : bool; cl_mp : bool }.

Definition Shutdown (tp_shutdown mp_shutdown : error) (c : client) : client * error :=
  let lastErr := if cl_tp c then tp_shutdown else None in
  let lastErr := if cl_mp c then match mp_shutdown with Some e => Some e | None => lastErr end else lastErr in
  (mkClient false false, lastErr).

Definition ForceFlush (tp_flush mp_flush : error) (c : client) : error :=
  let lastErr := if cl_tp c then tp_flush else None in
  if cl_mp c then match mp_flush with Some e => Some e | None => lastErr end else lastErr.

(** A second shutdown has nothing to do; of two failures the first is lost. *)
Lemma shutdown_once (t m t' m' : error) (c : client) : Shutdown t' m' (Shutdown t m c).1 = ((Shutdown t m c).1, None).
Proof. reflexivity. Qed.

Example shutdown_forgets_tracing_failure :
  (Shutdown (Some (ErrorString "trace")) (Some (ErrorString "metric")) (mkClient true true)).2 = Some (ErrorString "metric").
Proof. reflexivity. Qed.

(** ** Identifiers

    Bytes are numbers below 256; the random ones are an argument. *)
Open Scope Z_scope.
Open Scope list_scope.

(** [binary.BigEndian.PutUint]: the [n] low bytes, the highest first. *)
Fixpoint be_bytes (n : nat) (z : Z) : list Z :=
  match n with O => [] | S n' => (z / 256 ^ Z.of_nat n') mod 256 :: be_bytes n' z end.

Definition be_value (l : list Z) : Z := fold_left (fun acc b => 256 * acc + b) l 0.

Definition uint64 (z : Z) : Z := z mod 2 ^ 64.
Definition uint32 (z : Z) : Z := z mod 2 ^ 32.
Definition spanIDPrec : Z := Millisecond.

Definition NewSpanID (unixNano : Z) (random : list Z) : list Z := be_bytes 4 (uint32 (Z.quot unixNano spanIDPrec)) ++ random.
Definition NewIDs (unixNano : Z) (random8 random4 : list Z) : list Z * list Z :=
  (be_bytes 8 (uint64 unixNano) ++ random8, NewSpanID unixNano random4).

(** [bytes.Compare]. *)
Fixpoint bytes_lt (a b : list Z) : bool :=
  match a, b with
  | x :: a', y :: b' => (x <? y) || ((x =? y) && bytes_lt a' b')
  | [], _ :: _ => true
  | _, [] => false
  end.

(** ** Addresses are read back *)

Lemma split_join (host port : string) :
  str_has "[" host = false -> str_has "]" host = false -> str_has ":" port = false -> str_has "[" port = false -> str_has "]" port = false ->
  SplitHostPort (JoinHostPort host port) = Ok (host, port).
Proof.
  intros H1 H2 P1 P2 P3. unfold JoinHostPort. destruct (str_has ":" host) eqn:Ec.
  - replace ("[" +:+ host +:+ "]:" +:+ port)%string with ((("[" +:+ host) +:+ "]") +:+ String ":" port)%string
      by (by rewrite !str_app_assoc).
    unfold SplitHostPort. rewrite go_cut_last_app by done.
    replace ((("[" +:+ host) +:+ "]") +:+ String ":" port)%string with (("[" +:+ host) +:+ String "]" (String ":" port))%string
      by (by rewrite !str_app_assoc).
    rewrite go_cut_app by (cbn; done).
    change (("[" +:+ host) +:+ String "]" (String ":" port))%string with ("[" +:+ (host +:+ String "]" (String ":" port)))%string.
    unfold go_has_prefix. rewrite prefix_refl_app, !trim_prefix_app. cbn [String.eqb].
    rewrite String.eqb_refl, !str_has_app. cbn. by rewrite H1, P2, P3.
  - change (host +:+ ":" +:+ port)%string with (host +:+ String ":" port)%string. unfold SplitHostPort.
    rewrite go_cut_last_app by done.
    assert (Hp : go_has_prefix (host +:+ String ":" port) "[" = false).
    { destruct host as [|c host]; [done|]. cbn. cbn [str_has] in H1. destruct (Ascii.eqb_spec c "["); [done|].
      apply not_true_is_false. rewrite has_prefix_iff. intros [r E]. injection E as E _. congruence. }
    rewrite Hp, Ec, !str_has_app, H1, H2. cbn. by rewrite P2, P3.
Qed.

(** ** Limits *)

Lemma queue_size_bounds (gomaxprocs : Z) : 1000 <= queueSize gomaxprocs <= 16000.
Proof. unfold queueSize. destruct (Z.ltb_spec (Z.quot gomaxprocs 2 * 1000) 1000); [lia|]. destruct (Z.ltb_spec 16000 (Z.quot gomaxprocs 2 * 1000)); lia. Qed.

(** ** Identifiers carry the time *)

Lemma be_bytes_length (n : nat) (z : Z) : length (be_bytes n z) = n.
Proof. induction n; [done|]. cbn. by rewrite IHn. Qed.

Lemma pow256_pos (n : nat) : 0 < 256 ^ Z.of_nat n.
Proof. apply Z.pow_pos_nonneg; lia. Qed.

Lemma mod_step (n : nat) (z : Z) :
  z mod 256 ^ Z.of_nat (S n) = (z / 256 ^ Z.of_nat n) mod 256 * 256 ^ Z.of_nat n + z mod 256 ^ Z.of_nat n.
Proof.
  rewrite Nat2Z.inj_succ, Z.pow_succ_r by lia. pose proof (pow256_pos n). rewrite (Z.mul_comm 256).
  rewrite Z.rem_mul_r by lia. lia.
Qed.

Lemma be_fold (n : nat) (z acc : Z) :
  fold_left (fun acc b => 256 * acc + b) (be_bytes n z) acc = acc * 256 ^ Z.of_nat n + z mod 256 ^ Z.of_nat n.
Proof.
  revert acc. induction n as [|n IH]; intros acc; cbn [be_bytes fold_left]; [rewrite Z.mod_1_r; lia|].
  rewrite IH, mod_step, Nat2Z.inj_succ, Z.pow_succ_r by lia. lia.
Qed.

Lemma be_value_bytes (n : nat) (z : Z) : be_value (be_bytes n z) = z mod 256 ^ Z.of_nat n.
Proof. unfold be_value. rewrite be_fold. lia. Qed.

Lemma bytes_lt_be (n : nat) (a b : Z) (ra rb : list Z) : a mod 256 ^ Z.of_nat n < b mod 256 ^ Z.of_nat n ->
  bytes_lt (be_bytes n a ++ ra) (be_bytes n b ++ rb) = true.
Proof.
  induction n as [|n IH]; intros H; [rewrite !Z.mod_1_r in H; lia|]. rewrite !mod_step in H. cbn [be_bytes app bytes_lt].
  pose proof (pow256_pos n). pose proof (Z.mod_pos_bound a (256 ^ Z.of_nat n) ltac:(lia)).
  pose proof (Z.mod_pos_bound b (256 ^ Z.of_nat n) ltac:(lia)).
  set (x := (a / 256 ^ Z.of_nat n) mod 256) in *. set (y := (b / 256 ^ Z.of_nat n) mod 256) in *.
  destruct (Z.ltb_spec x y); [done|]. cbn [orb]. assert (x = y) by nia. subst. rewrite H4, Z.eqb_refl. cbn. apply IH. nia.
Qed.

(** Trace identifiers sort by the time they were made at, whatever the random
    bytes, and give that time back to the nanosecond; span identifiers give the
    millisecond, modulo the 49.7 days after which it starts again, and sort by
    it within such a period. *)
Theorem ids_sort_by_time (t1 t2 : Z) (r1 r2 s1 s2 : list Z) :
  0 <= t1 < t2 -> t2 < 2 ^ 63 ->
  bytes_lt (NewIDs t1 r1 s1).1 (NewIDs t2 r2 s2).1 = true /\
  be_value (take 8 (NewIDs t1 r1 s1).1) = t1 /\
  be_value (take 4 (NewSpanID t1 s1)) = (t1 / 1000000) mod 2 ^ 32 /\
  (t1 / 1000000 < t2 / 1000000 -> t1 / 1000000 / 2 ^ 32 = t2 / 1000000 / 2 ^ 32 ->
   bytes_lt (NewSpanID t1 s1) (NewSpanID t2 s2) = true).
Proof.
  intros [H0 Hlt] Hmax. unfold NewIDs, NewSpanID, uint64, uint32, spanIDPrec, Millisecond. cbn [fst].
  assert (E64 : forall t, 0 <= t < 2 ^ 63 -> (t mod 2 ^ 64) mod 256 ^ Z.of_nat 8 = t).
  { intros t Ht. rewrite (Z.mod_small t) by lia. apply Z.mod_small. lia. }
  assert (E32 : forall z, (z mod 2 ^ 32) mod 256 ^ Z.of_nat 4 = z mod 2 ^ 32) by (intros z; apply Z.mod_mod; lia).
  split; [apply bytes_lt_be; rewrite !E64 by lia; lia|].
  rewrite !take_app_length' by (by rewrite be_bytes_length). rewrite !be_value_bytes, E64, E32 by lia. split; [done|].
  rewrite !Z.quot_div_nonneg by lia. split; [done|]. intros Hd Hq. apply bytes_lt_be. rewrite !E32.
  pose proof (Z.div_mod (t1 / 1000000) (2 ^ 32)). pose proof (Z.div_mod (t2 / 1000000) (2 ^ 32)). lia.
Qed.

Lemma ids_sort_by_time_witness :
  bytes_lt (NewIDs 1700000000000000000 [255] [9]).1 (NewIDs 1700000000000000001 [0] [1]).1 = true /\
  be_value (take 8 (NewIDs 1700000000000000000 [255] [9]).1) = 1700000000000000000.
Proof.
  destruct (ids_sort_by_time 1700000000000000000 1700000000000000001 [255] [0] [9] [1]) as (H1 & H2 & _); [lia|lia|].
  split; [exact H1|exact H2].
Defined.

Example span_ids_start_again :
  NewSpanID 1700000000000000000 [] = NewSpanID (1700000000000000000 + 2 ^ 32 * 1000000) [].
Proof. vm_compute. reflexivity. Qed.

(** ** Two options that change nothing *)

Close Scope Z_scope.

Section dead.
  Context {Detector Resource Tls Propagator Provider Sampler BspOption MetricOption : Type}.
  Abbreviation Opt := (@Option_ Detector Resource Tls Propagator Provider Sampler BspOption MetricOption).
  Abbreviation Conf := (@config Detector Resource Tls Propagator Provider Sampler BspOption MetricOption).

Definition without_effect (o : Opt) : bool := match o with WithTraceSampler _ | WithResource _ => true | _ => false end.

(** All of a configuration that the set-up reads. *)
Definition visible (c : Conf) : Conf :=
  mkConfig (cf_dsn c) (cf_resourceAttributes c) (cf_resourceDetectors c) None (cf_tlsConf c) (cf_tracingEnabled c)
    (cf_textMapPropagator c) (cf_tracerProvider c) None (cf_prettyPrint c) (cf_bspOptions c) (cf_metricsEnabled c) (cf_metricOptions c).

Lemma apply_visible (c : Conf) (o : Opt) : visible (apply c o) = visible (apply (visible c) o).
Proof. by destruct c, o. Qed.

Lemma apply_without_effect (c : Conf) (o : Opt) : without_effect o = true -> visible (apply c o) = visible c.
Proof. by destruct c, o. Qed.

Lemma fold_visible (opts : list Opt) (c c' : Conf) : visible c = visible c' ->
  visible (fold_left apply opts c) = visible (fold_left apply (List.filter (fun o => negb (without_effect o)) opts) c').
Proof.
  revert c c'. induction opts as [|o opts IH]; intros c c' H; [done|]. cbn [fold_left List.filter].
  destruct (without_effect o) eqn:E; cbn [negb fold_left]; apply IH.
  - by rewrite apply_without_effect.
  - by rewrite (apply_visible c), (apply_visible c'), H.
Qed.

Lemma configure_visible (sdk : Sdk) (c c' : Conf) (dsn : DSN) : visible c = visible c' ->
  configure_exports sdk (configurePropagator sdk c).1 dsn = configure_exports sdk (configurePropagator sdk c').1 dsn /\
  (configurePropagator sdk c).2 = (configurePropagator sdk c').2.
Proof. destruct c, c'. unfold visible. cbn. intros [= <- <- <- <- <- <- <- <- <- <- <-]. by split. Qed.

(** The options for a sampler and for a resource change nothing: the sampler
    is overwritten by the one that takes every trace before the provider is
    made, and the resource is never read. Any list of options has, in every
    environment, the effects and the result of the same list without them. *)
Theorem sampler_and_resource_without_effect (url_parse : string -> result goerror URL) (sdk : @Sdk Detector Tls Sampler)
    (LookupEnv : string -> option string) (opts : list Opt) :
  ConfigureOpenTelemetry url_parse sdk LookupEnv opts =
  ConfigureOpenTelemetry url_parse sdk LookupEnv (List.filter (fun o => negb (without_effect o)) opts).
Proof.
  unfold ConfigureOpenTelemetry. destruct (LookupEnv "OTLP_DISABLED"); [done|]. unfold newConfig.
  set (c0 := mkConfig _ _ _ _ _ _ _ _ _ _ _ _ _). pose proof (fold_visible opts c0 c0 eq_refl) as H.
  set (c := fold_left apply opts c0) in *. set (c' := fold_left apply (List.filter (fun o => negb (without_effect o)) opts) c0) in *. clearbody c c'.
  assert (Hf : cf_tracingEnabled c = cf_tracingEnabled c' /\ cf_metricsEnabled c = cf_metricsEnabled c' /\ cf_dsn c = cf_dsn c')
    by (split_and!; [exact (f_equal cf_tracingEnabled H)|exact (f_equal cf_metricsEnabled H)|exact (f_equal cf_dsn H)]).
  destruct Hf as (-> & -> & ->). destruct (_ && _); [done|]. destruct (ParseDSN _ _) as [dsn|]; [|done].
  destruct (_ =? _); [done|]. destruct (go_has_suffix _ _); [done|].
  destruct (configure_visible sdk c c' dsn H) as [H1 H2].
  destruct (configurePropagator sdk c) as [d evs], (configurePropagator sdk c') as [d' evs']. cbn [fst snd] in H1, H2. by rewrite H1, H2.
Qed.
End dead.

(** The warning about the HTTP port of a collector looks for it in the host, which
    has lost its port by then. *)
Definition sample_url (s : string) : result goerror URL := Ok (mkURL "https" "collector:14318" (Some "key")).
Definition sample_sdk : @Sdk unit unit unit := mkSdk (fun _ => None) (fun _ => None) None (fun _ => None) None tt 8.

Example http_port_not_refused :
  match ConfigureOpenTelemetry sample_url sample_sdk (fun _ => None)
          [WithDSN "https://key@collector:14318" : @Option_ unit unit unit unit unit unit unit unit] with
  | (evs, None) => match last evs with Some (StoreClient dsn _ _) => OTLPEndpoint dsn | _ => "" end
  | _ => ""
  end = "collector:14318".
Proof. vm_compute. reflexivity. Qed.
