(* ===== verification/ServiceTools.v ===== *)
(** * Tools that ask one service

    [pkg/tools]: the tools around a project that hand their input to a service
    of the execution context and report its answer - projects, flows,
    dashboards, modules of the public catalogue, solutions, replays, the schema
    of a port ([interface.go] declares the services). A tool is a program over
    requests ([Prog]): what it asks is part of what it does, and what a service
    answers is not. Payloads that only pass through are JSON as they are
    encoded. *)
From S2P Require Import Prelude GoErrors Names Graph Json FlowIssues Authoring Tools Catalog.
From S2P Require Usage.
From Stdlib Require Import SpecFloat.

Open Scope string_scope.
Open Scope list_scope.

(** ** Data *)

Record ProjectInfo := mkProjectInfo { pj_ResourceName : string; pj_DisplayName : string }.
Record FlowInfo := mkFlowInfo { fi_ResourceName : string; fi_DisplayName : string }.
Record ProjectElements := mkProjectElements { pe_Flows : list FlowInfo; pe_Elements : list element }.
Record SolutionSummary := mkSolutionSummary { ss_UUID : string; ss_Title : string; ss_Description : string; ss_Tags : list string }.
Record InstallProgress := mkInstallProgress { ip_Stage : string; ip_Message : string; ip_LogType : string }.
Record InstallResult := mkInstallResult { ir_Success : bool; ir_ModuleVersionID : string; ir_ReleaseName : string; ir_Error : string }.
Record UninstallResult := mkUninstallResult { ur_Success : bool; ur_Error : string; ur_InUse : list string }.
Record ReplayOutcome := mkReplayOutcome { ro_Hop : string; ro_Unchanged : bool; ro_Compared : Z; ro_Changes : list string }.
Record PlacedWidget := mkPlacedWidget {
  pw_NodeID : string; pw_Port : string; pw_Title : string; pw_X : Z; pw_Y : Z; pw_W : Z; pw_H : Z;
}.
Record DashboardPageInfo := mkPageInfo { pg_Name : string; pg_Title : string; pg_SortIdx : Z; pg_Widgets : list PlacedWidget }.
Record WidgetPlacement := mkPlacement {
  wp_Page : string; wp_NodeID : string; wp_Port : string; wp_Title : string;
  wp_X : Z; wp_Y : Z; wp_W : Z; wp_H : Z; wp_AutoY : bool; wp_Remove : bool;
}.
Record DashboardData := mkDashboardData { dd_ProjectName : string; dd_Widgets : list json }.
Record PortInspection := mkPortInspection {
  pn_NodeID : string; pn_PortName : string; pn_PortType : string; pn_Schema : json; pn_ExampleData : json;
  pn_HasRealData : bool; pn_Configurable : bool; pn_Description : string;
}.

(** ** Requests *)

Inductive Request : Type -> Type :=
| QListProjects : Request (result goerror (list ProjectInfo))
| QReadProject : Request (result goerror ProjectElements)
| QCreateFlow (name : string) : Request (result goerror string)
| QDeleteFlow (flow : string) : Request error
| QInspectPort (nodeID port traceID : string) : Request (result goerror PortInspection)
| QSearchModules (query : string) (limit : Z) : Request (result goerror (list json))
| QGetPublicModule (name : string) : Request (result goerror (option json))
| QInstall (name version : string) (bundles : option (list string)) : Request (list InstallProgress * result goerror InstallResult)
| QUninstall (name : string) : Request (result goerror UninstallResult)
| QSearchSolutions (query : string) (tags : list string) (limit : Z) : Request (result goerror (list SolutionSummary))
| QGetSolution (uuid : string) : Request (result goerror (option json))
| QReadDashboard : Request (result goerror (option DashboardData))
| QSetNodeWidget (nodeID port : string) (enabled : bool) : Request (result goerror string)
| QPlaceWidget (p : WidgetPlacement) : Request (result goerror DashboardPageInfo)
| QListPages : Request (result goerror (list DashboardPageInfo))
| QCreatePage (title : string) : Request (result goerror DashboardPageInfo)
| QDeletePage (page : string) : Request error
| QReplayRun (traceID at_ : string) : Request (result goerror ReplayOutcome).

Inductive Prog : Type :=
| Done (r : ToolResult obj)
| Ask {A : Type} (q : Request A) (k : A -> Prog).

(** The services of a context; each field says whether the interface is set. *)
Record Services := mkServices {
  sv_ProjectName : string;
  sv_FlowName : string;
  sv_FlowTitle : string;
  sv_ProjectReader : bool;
  sv_ProjectLister : bool;
  sv_FlowCreator : bool;
  sv_FlowDeleter : bool;
  sv_PortInspector : bool;
  sv_PublicModuleCatalog : bool;
  sv_ModuleInstaller : bool;
  sv_ModuleUninstaller : bool;
  sv_SolutionSearcher : bool;
  sv_DashboardReader : bool;
  sv_DashboardWriter : bool;
  sv_ReplayRunner : bool;
}.

Definition failed (msg : string) : Prog := Done (refused msg).
Definition failed_with (msg : string) (out : obj) : Prog := Done (mkToolResult false (Some out) msg).
Definition answer (out : obj) : Prog := Done (mkToolResult true (Some out) "").
Definition newline : string := String "010" "".
Definition quote : string := String "034" "".
Definition text (input : obj) (k : string) : string := default "" (str_at input k).
Definition num (z : Z) : json := JNum (go_itoa z).

(** A service that has to be there, and a text that has to be given. *)
Definition needing (service : bool) (msg : string) (p : Prog) : Prog := if service then p else failed msg.
Definition given (input : obj) (k msg : string) (p : string -> Prog) : Prog :=
  let v := text input k in if v =? "" then failed msg else p v.
(** A request whose error ends the tool. *)
Definition or_fail {A} (prefix : string) (q : Request (result goerror A)) (k : A -> Prog) : Prog :=
  Ask q (fun r => match r with Ok a => k a | Err err => failed (prefix +:+ error_text err) end).

Section tools.
  Variable e : Services.

(** ** Projects and flows *)

Definition project_json (p : ProjectInfo) : json :=
  JObj [("resource_name", JStr (pj_ResourceName p)); ("display_name", JStr (pj_DisplayName p))].
Definition flow_json (f : FlowInfo) : json :=
  JObj [("resource_name", JStr (fi_ResourceName f)); ("display_name", JStr (fi_DisplayName f))].

Definition projects_hint (projects : list ProjectInfo) : obj :=
  if negb (sv_ProjectName e =? "") then
    [("current_project", JStr (sv_ProjectName e));
     ("hint", JStr ("This session works on " +:+ go_quote (sv_ProjectName e) +:+
        " — that is where anything you build will go, whatever the 'project' argument says. The other projects are listed for reference only; to work on one, restart with `tiny -p <name>`."))]
  else match projects with
       | [] => [("hint", JStr "No projects in scope. Create one in the cluster (TinyProject CRD) or via the platform UI before continuing.")]
       | _ => [("hint", JStr "Pass a project's resource_name as the 'project' argument to other tools (read_project, build_flow, etc.).")]
       end.

Definition ListProjectsTool (input : obj) : Prog :=
  needing (sv_ProjectLister e) "project lister not configured"
    (or_fail "failed to list projects: " QListProjects (fun projects =>
       answer ([("projects", JArr (map project_json projects)); ("total", num (Z.of_nat (length projects)))] ++ projects_hint projects))).

Definition of_type (kind : string) (els : list element) : list element := List.filter (fun el => mapStr el "type" =? kind) els.
Definition shared (el : element) : bool := match obj_get "shared_with" el with Some _ => true | None => false end.

Definition nodes_per_flow (els : list element) : gmap string Z :=
  fold_left (fun m el => let flow := mapStr el "flow" in <[flow := (default 0 (m !! flow) + 1)%Z]> m) (of_type "tinyNode" els) ∅.

Definition ReadProjectTool `{MapRange Z} (input : obj) : Prog :=
  if sv_ProjectName e =? "" then failed "project context is required"
  else needing (sv_ProjectReader e) "project reader not configured"
    (or_fail "failed to read project: " QReadProject (fun p =>
       let els := pe_Elements p in
       answer [("project", JStr (sv_ProjectName e)); ("current_flow", JStr (sv_FlowName e)); ("current_flow_title", JStr (sv_FlowTitle e));
               ("flows", JArr (map flow_json (pe_Flows p)));
               ("summary", JObj [("total_flows", num (Z.of_nat (length (pe_Flows p))));
                                 ("total_nodes", num (Z.of_nat (length (of_type "tinyNode" els))));
                                 ("total_edges", num (Z.of_nat (length (of_type "tinyEdge" els))));
                                 ("shared_nodes", num (Z.of_nat (length (List.filter shared (of_type "tinyNode" els)))));
                                 ("nodes_per_flow", JObj (map (fun kv => (kv.1, num kv.2)) (map_range (nodes_per_flow els))))]);
               ("elements", JArr (map JObj els));
               ("issues", strings_json (FlowIssues els))])).

Definition CreateFlowTool (input : obj) : Prog :=
  needing (sv_FlowCreator e) "flow creator not configured" (given input "name" "name is required" (fun name =>
    or_fail "failed to create flow: " (QCreateFlow name) (fun resourceName =>
      answer [("flow_name", JStr resourceName); ("display_name", JStr name); ("status", JStr "flow created");
              ("hint", JStr "Use build_flow with a full nodes+edges spec to populate this flow in one call, or edit_flow(action: add_node) to add nodes incrementally.")]))).

Definition DeleteFlowTool (input : obj) : Prog :=
  needing (sv_FlowDeleter e) "flow deleter not configured"
    (given input "flow" "flow is required. Use read_project to list flows in the current project." (fun flow =>
       Ask (QDeleteFlow flow) (fun err => match err with
         | Some err => failed ("failed to delete flow: " +:+ error_text err)
         | None => answer [("deleted", JBool true); ("flow_name", JStr flow)]
         end))).

(** ** Ports *)

(** Later keys replace earlier ones. *)
Definition GetNodePortSchemaTool (input : obj) : Prog :=
  needing (sv_PortInspector e) "port inspector not configured" (given input "node_id" "node_id is required" (fun nodeID =>
    given input "port" "port is required" (fun port =>
      or_fail "failed to inspect port: " (QInspectPort nodeID port (text input "trace_id")) (fun r =>
        answer ([("node_id", JStr (pn_NodeID r)); ("port_name", JStr (pn_PortName r)); ("port_type", JStr (pn_PortType r));
                 ("schema", pn_Schema r); ("example_data", pn_ExampleData r)] ++
                field_if "has_real_data" (pn_HasRealData r) true JBool ++
                field_if "configurable" (pn_Configurable r) true JBool ++
                (if pn_Configurable r then [("note", JStr "This port's schema can be customized by the user")]
                 else field_if "note" (pn_HasRealData r) "example_data contains REAL data from the specified trace" JStr) ++
                text_if "description" (pn_Description r)))))).

(** ** Modules *)

(** [limit] where it is a positive number; one below 1 becomes 0. *)
Definition search_limit (out_of_range : spec_float -> Z) (number : string -> spec_float) (input : obj) : Z :=
  default 20%Z (Usage.float_input out_of_range number (fld input "limit")).

Definition SearchModulesTool (out_of_range : spec_float -> Z) (number : string -> spec_float) (input : obj) : Prog :=
  needing (sv_PublicModuleCatalog e) "public module catalog not configured" (given input "query" "query is required" (fun query =>
    or_fail "search modules failed: " (QSearchModules query (search_limit out_of_range number input)) (fun results =>
      answer [("count", num (Z.of_nat (length results))); ("modules", JArr results);
              ("hint", JStr "Use get_module_info with a module name to see components, port schemas, and install instructions.")]))).

Definition GetModuleInfoTool (input : obj) : Prog :=
  needing (sv_PublicModuleCatalog e) "public module catalog not configured" (given input "module" "module is required" (fun name =>
    or_fail "get module info failed: " (QGetPublicModule name) (fun details =>
      match details with
      | None => failed ("module '" +:+ name +:+ "' not found in public catalog. Use search_modules(query) to discover available modules.")
      | Some d => answer [("module", d); ("hint", JStr "This module is not yet installed in your cluster. Install via Helm, then list_modules will show its components and you can wire them with build_flow / edit_flow.")]
      end))).

(** Absent is nil: the module's own selection. *)
Definition parseBundles (raw : option json) : option (list string) :=
  match raw with
  | Some (JArr l) => Some (omap (fun v => match v with JStr s => if s =? "" then None else Some s | _ => None end) l)
  | Some (JStr s) => if s =? "" then None else Some [s]
  | _ => None
  end.

Definition progress_line (p : InstallProgress) : string :=
  if negb (ip_LogType p =? "") && negb (ip_LogType p =? "info") then "[" +:+ ip_LogType p +:+ "] " +:+ ip_Message p else ip_Message p.

Definition InstallModuleTool (input : obj) : Prog :=
  needing (sv_ModuleInstaller e)
    "install_module is not available in this mode. Use the helm install command from get_module_info instead, or re-run mcp-server with --platform-token to use platform mode."
    (given input "module_name" "module_name is required" (fun name =>
       Ask (QInstall name (text input "version") (parseBundles (obj_get "bundles" input))) (fun pr =>
         let transcript := go_join newline (map progress_line pr.1) in
         match pr.2 with
         | Err err => failed_with ("install failed: " +:+ error_text err) [("transcript", JStr transcript)]
         | Ok r =>
             if negb (ir_Success r) then failed_with (ir_Error r) [("transcript", JStr transcript)]
             else answer ([("module_name", JStr name); ("status", JStr "installed");
                           ("hint", JStr "Module is reconciling. Call list_modules in a few seconds to see its components, then build_flow or edit_flow to use them.")] ++
                          text_if "module_version_id" (ir_ModuleVersionID r) ++ text_if "release_name" (ir_ReleaseName r) ++
                          field_if "transcript" (negb (bool_decide (map progress_line pr.1 = []))) transcript JStr)
         end))).

Definition UninstallModuleTool (input : obj) : Prog :=
  needing (sv_ModuleUninstaller e)
    ("uninstall_module is not available in this mode. Run " +:+ quote +:+ "helm uninstall <release>" +:+ quote +:+ " directly, or re-run mcp-server with --platform-token to use platform mode.")
    (given input "module_name" "module_name is required" (fun name =>
       or_fail "uninstall failed: " (QUninstall name) (fun r =>
         if negb (ur_Success r) then
           failed_with (ur_Error r)
             (match ur_InUse r with
              | [] => []
              | _ => [("in_use", strings_json (ur_InUse r));
                      ("hint", JStr "Delete the flows that contain these nodes, or use edit_flow to remove them, then retry uninstall_module.")]
              end)
         else answer [("module_name", JStr name); ("status", JStr "uninstalled")]))).

(** ** Solutions and replays *)

Definition summary_json (s : SolutionSummary) : json :=
  JObj [("uuid", JStr (ss_UUID s)); ("title", JStr (ss_Title s)); ("description", JStr (ss_Description s)); ("tags", strings_json (ss_Tags s))].

Definition SearchSolutionsTool (input : obj) : Prog :=
  needing (sv_SolutionSearcher e) "solution search not configured" (given input "query" "query is required" (fun query =>
    or_fail "failed to search solutions: " (QSearchSolutions query (omap as_str (items_at input "tags")) 10) (fun solutions =>
      answer [("solutions", JArr (map summary_json solutions)); ("count", num (Z.of_nat (length solutions)));
              ("hint", JStr "Use get_solution with a UUID to see full structure with nodes and edges")]))).

Definition GetSolutionTool (input : obj) : Prog :=
  needing (sv_SolutionSearcher e) "solution search not configured" (given input "solution_uuid" "solution_uuid is required" (fun uuid =>
    or_fail "failed to get solution: " (QGetSolution uuid) (fun solution =>
      match solution with
      | None => failed "solution not found"
      | Some s => answer [("solution", s); ("hint", JStr "Use clone_solution(solution_uuid) to copy this solution's flows and nodes into the current project.")]
      end))).

Definition replay_hint (o : ReplayOutcome) : string :=
  if (ro_Compared o =? 0)%Z then "Nothing was compared, so this proves nothing — the recorded run may have had no hops below the replayed one."
  else if ro_Unchanged o then go_itoa (ro_Compared o) +:+ " port(s) reached with the same shape as the recording."
  else "Each change is a port whose behaviour differs from the recording. A shape change is the kind a module release causes; a port that stopped receiving means the run took a different path.".

Definition ReplayRunTool (input : obj) : Prog :=
  needing (sv_ReplayRunner e) "replay runner not configured"
    (given input "trace_id" "trace_id is required — take one from get_traces" (fun traceID =>
       or_fail "" (QReplayRun traceID (text input "at")) (fun o =>
         answer ([("hop", JStr (ro_Hop o)); ("unchanged", JBool (ro_Unchanged o)); ("compared", num (ro_Compared o))] ++
                 list_if "changes" (ro_Changes o) ++ [("hint", JStr (replay_hint o))])))).

(** ** Dashboards *)

Definition GetDashboardTool (input : obj) : Prog :=
  needing (sv_DashboardReader e) "dashboard reader not configured"
    (if sv_ProjectName e =? "" then failed "no project selected"
     else or_fail "read dashboard: " QReadDashboard (fun data =>
       match data with
       | None | Some (mkDashboardData _ []) =>
           answer [("widgets", JArr []);
                   ("hint", JStr "No dashboard widgets configured for this project. Use set_node_dashboard to add nodes to the dashboard.")]
       | Some d => answer [("project", JStr (dd_ProjectName d)); ("widgets", JArr (dd_Widgets d));
                           ("hint", JStr "For a visual dashboard experience, install the Tiny Systems desktop client: https://tinysystems.io/download")]
       end)).

Definition widget_json (w : PlacedWidget) : json :=
  JObj ([("node_id", JStr (pw_NodeID w)); ("port", JStr (pw_Port w))] ++ text_if "title" (pw_Title w) ++
        [("x", num (pw_X w)); ("y", num (pw_Y w)); ("w", num (pw_W w)); ("h", num (pw_H w))]).
Definition page_json (p : DashboardPageInfo) : json :=
  JObj [("name", JStr (pg_Name p)); ("title", JStr (pg_Title p)); ("sort_idx", num (pg_SortIdx p));
        ("widgets", JArr (map widget_json (pg_Widgets p)))].

(** x, y, w, h and whether the widget goes below what is there. *)
Definition gridOf (input : obj) : Z * Z * Z * Z * bool :=
  match map_at input "grid" with
  | None => (0, 0, 0, 0, true)%Z
  | Some grid =>
      let coordinate k := default 0%Z (numberFrom (fld grid k)) in
      (coordinate "x", coordinate "y", coordinate "w", coordinate "h", negb (bool_decide (is_Some (numberFrom (fld grid "y")))))
  end.

Definition widget_placement (nodeID port title page : string) (enabled : bool) (input : obj) : WidgetPlacement :=
  if enabled then let '(x, y, w, h, autoY) := gridOf input in mkPlacement page nodeID port title x y w h autoY false
  else mkPlacement "" nodeID port title 0 0 0 0 false true.

Definition SetNodeDashboardTool (input : obj) : Prog :=
  needing (sv_DashboardWriter e) "dashboard writer not configured" (given input "node_id" "node_id is required" (fun nodeID =>
    let port := if text input "port" =? "" then ControlPort else text input "port" in
    let enabled := match fld input "enabled" with JBool b => b | _ => true end in
    or_fail "" (QSetNodeWidget nodeID port enabled) (fun _ =>
      or_fail "" (QPlaceWidget (widget_placement nodeID port (text input "title") (text input "page") enabled input)) (fun page =>
        answer ([("node_id", JStr nodeID); ("port", JStr port); ("enabled", JBool enabled); ("page", JStr (pg_Title page));
                 ("page_id", JStr (pg_Name page)); ("widgets", num (Z.of_nat (length (pg_Widgets page))))] ++
                field_if "hint" enabled ("Widget pinned on page " +:+ go_quote (pg_Title page) +:+
                  ". If it renders 'Object is empty', the node's settings.context needs a configurable schema.") JStr))))).

Definition page_action (input : obj) : Prog :=
    (let action := text input "action" in
     if action =? "list" then
       or_fail "" QListPages (fun pages =>
         answer ([("pages", JArr (map page_json pages)); ("count", num (Z.of_nat (length pages)))] ++
                 field_if "hint" (bool_decide (length pages = 0%nat))
                   "No pages yet. Pinning a widget creates the first one, or create it here to choose its title." JStr))
     else if action =? "create" then
       given input "title" "title is required to create a page — it is the tab label the user reads" (fun title =>
         or_fail "" (QCreatePage title) (fun page =>
           answer [("page", page_json page); ("hint", JStr ("Place widgets with set_node_dashboard, page: " +:+ go_quote (pg_Name page) +:+ "."))]))
     else if action =? "delete" then
       given input "page" "page is required to delete — pass the resource name from list" (fun page =>
         Ask (QDeletePage page) (fun err => match err with
           | Some err => failed (error_text err)
           | None => answer [("deleted", JStr page); ("hint", JStr "Layout only — the nodes behind those widgets are untouched and still running.")]
           end))
     else failed ("unknown action " +:+ go_quote action +:+ " — use list, create or delete")).

Definition DashboardPageTool (input : obj) : Prog :=
  needing (sv_DashboardWriter e) "dashboard writer not configured" (page_action input).
End tools.

(** ** Running *)

Definition Handler : Type := forall A, Request A -> A.

(** The requests made, in order, and the result. *)
Fixpoint run (h : Handler) (p : Prog) : list {A & Request A} * ToolResult obj :=
  match p with
  | Done r => ([], r)
  | Ask q k => let '(asked, r) := run h (k (h _ q)) in (existT _ q :: asked, r)
  end.

(** What a service says when it has done, or has, what it was asked for. *)
Definition fine {A} (q : Request A) : A -> bool :=
  match q in Request A return A -> bool with
  | QListProjects | QReadProject | QCreateFlow _ | QInspectPort _ _ _ | QSearchModules _ _ | QSearchSolutions _ _ _
  | QReadDashboard | QSetNodeWidget _ _ _ | QPlaceWidget _ | QListPages | QCreatePage _ | QReplayRun _ _ => fun a => is_ok a
  | QDeleteFlow _ | QDeletePage _ => fun a => match a with None => true | Some _ => false end
  | QGetPublicModule _ | QGetSolution _ => fun a => match a with Ok (Some _) => true | _ => false end
  | QInstall _ _ _ => fun a => match a.2 with Ok r => ir_Success r | Err _ => false end
  | QUninstall _ => fun a => match a with Ok r => ur_Success r | Err _ => false end
  end.

Definition fine_in (h : Handler) (q : {A & Request A}) : bool := fine (projT2 q) (h _ (projT2 q)).

(** Each tool by its name, with what it cannot do without. *)
Record ToolEntry := mkEntry { te_name : string; te_complete : Services -> obj -> bool; te_program : Services -> obj -> Prog }.

Definition has (input : obj) (k : string) : bool := negb (text input k =? "").

Definition page_action_complete (input : obj) : bool :=
  let action := text input "action" in
  (action =? "list") || ((action =? "create") && has input "title") || ((action =? "delete") && has input "page").

Definition service_tools `{MapRange Z} (out_of_range : spec_float -> Z) (number : string -> spec_float) : list ToolEntry :=
  [mkEntry "list_projects" (fun e _ => sv_ProjectLister e) ListProjectsTool;
   mkEntry "read_project" (fun e _ => negb (sv_ProjectName e =? "") && sv_ProjectReader e) (fun e => ReadProjectTool e);
   mkEntry "create_flow" (fun e i => sv_FlowCreator e && has i "name") CreateFlowTool;
   mkEntry "delete_flow" (fun e i => sv_FlowDeleter e && has i "flow") DeleteFlowTool;
   mkEntry "get_node_port_schema" (fun e i => sv_PortInspector e && has i "node_id" && has i "port") GetNodePortSchemaTool;
   mkEntry "search_modules" (fun e i => sv_PublicModuleCatalog e && has i "query") (fun e => SearchModulesTool e out_of_range number);
   mkEntry "get_module_info" (fun e i => sv_PublicModuleCatalog e && has i "module") GetModuleInfoTool;
   mkEntry "install_module" (fun e i => sv_ModuleInstaller e && has i "module_name") InstallModuleTool;
   mkEntry "uninstall_module" (fun e i => sv_ModuleUninstaller e && has i "module_name") UninstallModuleTool;
   mkEntry "search_solutions" (fun e i => sv_SolutionSearcher e && has i "query") SearchSolutionsTool;
   mkEntry "get_solution" (fun e i => sv_SolutionSearcher e && has i "solution_uuid") GetSolutionTool;
   mkEntry "replay_run" (fun e i => sv_ReplayRunner e && has i "trace_id") ReplayRunTool;
   mkEntry "get_dashboard" (fun e _ => sv_DashboardReader e && negb (sv_ProjectName e =? "")) GetDashboardTool;
   mkEntry "set_node_dashboard" (fun e i => sv_DashboardWriter e && has i "node_id") SetNodeDashboardTool;
   mkEntry "dashboard_page" (fun e i => sv_DashboardWriter e && page_action_complete i) DashboardPageTool].

(** What is exact of one program in one case. *)
Definition exact (h : Handler) (complete : bool) (p : Prog) : Prop :=
  let '(asked, r) := run h p in
  (complete = false -> asked = [] /\ Success r = false /\ Output r = None) /\
  (complete = true -> asked <> [] /\ Success r = forallb (fine_in h) asked /\
                      forallb (fine_in h) (removelast asked) = true) /\
  (Success r = true -> exists out, Output r = Some out).

Lemma exact_failed (h : Handler) (msg : string) : exact h false (failed msg).
Proof. unfold exact. cbn. by split_and!. Qed.

Lemma exact_needing (h : Handler) (service complete : bool) (msg : string) (p : Prog) :
  exact h complete p -> exact h (service && complete) (needing service msg p).
Proof. destruct service; [done|intros _; apply exact_failed]. Qed.

Lemma exact_given (h : Handler) (input : obj) (k msg : string) (complete : bool) (p : string -> Prog) :
  (text input k <> "" -> exact h complete (p (text input k))) -> exact h (has input k && complete) (given input k msg p).
Proof.
  unfold given, has. destruct (String.eqb_spec (text input k) "") as [_|Hne]; intros Hp; [apply exact_failed|by apply Hp].
Qed.

(** A single request whose answer decides. *)
Lemma exact_ask {A} (h : Handler) (q : Request A) (k : A -> Prog) :
  (forall a, exists r, k a = Done r /\ Success r = fine q a /\ (fine q a = true -> exists out, Output r = Some out)) -> exact h true (Ask q k).
Proof.
  intros Hk. unfold exact. cbn [run]. destruct (Hk (h A q)) as (r & -> & Hs & Ho). cbn. unfold fine_in. cbn.
  split; [done|]. split; [|by rewrite Hs]. split; [done|]. by rewrite andb_true_r.
Qed.

Lemma exact_fail_or {A} (h : Handler) (prefix : string) (q : Request (result goerror A)) (k : A -> Prog) :
  (forall r, fine q r = is_ok r) -> (forall a, exact h true (k a) \/ exists out, k a = answer out) -> exact h true (or_fail prefix q k).
Proof.
  intros Hf Hk. unfold or_fail, exact. cbn [run]. destruct (h _ q) as [a|err] eqn:E.
  - destruct (Hk a) as [Hx|[out ->]].
    + unfold exact in Hx. destruct (run h (k a)) as [asked r]. destruct Hx as (_ & Hx & Ho). destruct (Hx eq_refl) as (Hne & Hs & Hr).
      split; [done|]. split; [|done]. intros _. split; [done|]. cbn [forallb]. unfold fine_in at 1. cbn. rewrite E, Hf. cbn.
      split; [done|]. destruct asked as [|q' asked]; [done|]. cbn [removelast forallb]. unfold fine_in at 1. cbn. by rewrite E, Hf.
    + cbn. split; [done|]. split; [|by eexists]. intros _. split; [done|]. unfold fine_in. cbn. by rewrite E, Hf.
  - cbn. split; [done|]. split; [|done]. intros _. split; [done|]. unfold fine_in. cbn. by rewrite E, Hf.
Qed.

Lemma exact_given_last (h : Handler) (input : obj) (k msg : string) (p : string -> Prog) :
  (text input k <> "" -> exact h true (p (text input k))) -> exact h (has input k) (given input k msg p).
Proof. intros Hp. pose proof (exact_given h input k msg true p Hp) as Hx. by rewrite andb_true_r in Hx. Qed.

Lemma exact_needing_last (h : Handler) (service : bool) (msg : string) (p : Prog) :
  exact h true p -> exact h service (needing service msg p).
Proof. intros Hp. pose proof (exact_needing h service true msg p Hp) as Hx. by rewrite andb_true_r in Hx. Qed.

(** Whatever an answer decides, once it is there. *)
Ltac answered :=
  repeat match goal with |- context [match ?x with _ => _ end] => destruct x end; cbn; eexists; split_and!; eauto; discriminate.

Ltac exact_step := first
  [ apply exact_needing | apply exact_needing_last | apply exact_given; intros ? | apply exact_given_last; intros ?
  | apply exact_fail_or; [done|intros ?; first [right; by eexists|left]]
  | apply exact_ask; intros []; answered | apply exact_ask; intros [? []]; answered ].

Lemma exact_page_action (input : obj) (h : Handler) : exact h (page_action_complete input) (page_action input).
Proof.
  unfold page_action, page_action_complete. cbv zeta.
  destruct (String.eqb_spec (text input "action") "list") as [->|_]; [cbn [orb]; exact_step|].
  destruct (String.eqb_spec (text input "action") "create") as [->|_]; [cbn [orb andb String.eqb Ascii.eqb Bool.eqb]|].
  - rewrite orb_false_r. repeat exact_step.
  - cbn [orb andb]. destruct (text input "action" =? "delete"); cbn [andb]; [repeat exact_step|apply exact_failed].
Qed.

(** C8. A tool that asks a service is exact. Without its service, or an argument it
    requires, it refuses and has asked nothing. Otherwise it asks, never again
    after an answer that is not what it asked for, and it succeeds - with an
    output - exactly when every answer was. *)
Theorem service_tools_exact `{MapRange Z} (out_of_range : spec_float -> Z) (number : string -> spec_float) (t : ToolEntry)
    (e : Services) (input : obj) (h : Handler) :
  t ∈ service_tools out_of_range number -> exact h (te_complete t e input) (te_program t e input).
Proof.
  intros Hin. unfold service_tools in Hin.
  repeat (apply elem_of_cons in Hin as [->|Hin]); [..|by apply elem_of_nil in Hin]; cbn [te_complete te_program].
  all: unfold ListProjectsTool, ReadProjectTool, CreateFlowTool, DeleteFlowTool, GetNodePortSchemaTool, SearchModulesTool,
    GetModuleInfoTool, InstallModuleTool, UninstallModuleTool, SearchSolutionsTool, GetSolutionTool, ReplayRunTool,
    GetDashboardTool, SetNodeDashboardTool.
  all: rewrite <- ?andb_assoc; repeat exact_step.
  - destruct (sv_ProjectName e =? ""); [apply exact_failed|]. cbn [negb andb]. repeat exact_step.
  - apply exact_ask. intros [progress [[[] version release why]|err]]; cbn; eexists; split_and!; eauto; discriminate.
  - apply exact_ask. intros [[[] why inuse]|err]; cbn; eexists; split_and!; eauto; discriminate.
  - destruct (sv_ProjectName e =? ""); [apply exact_failed|]. cbn [negb]. apply exact_ask.
    intros [[[name []]|]|err]; cbn; eexists; split_and!; eauto; discriminate.
  - apply exact_page_action.
Qed.

(** ** Samples *)

Definition all_services : Services := mkServices "p" "f" "Flow" true true true true true true true true true true true true.

(** A host that has no page to place a widget on. *)
Definition no_page : Handler := fun A q =>
  match q in Request A return A with
  | QListProjects => Ok []
  | QReadProject => Ok (mkProjectElements [] [])
  | QCreateFlow name => Ok name
  | QDeleteFlow _ | QDeletePage _ => None
  | QInspectPort n p _ => Ok (mkPortInspection n p "source" JNull JNull false false "")
  | QSearchModules _ _ => Ok []
  | QGetPublicModule _ | QGetSolution _ => Ok None
  | QInstall _ _ _ => ([], Ok (mkInstallResult true "" "" ""))
  | QUninstall _ => Ok (mkUninstallResult true "" [])
  | QSearchSolutions _ _ _ => Ok []
  | QReadDashboard => Ok None
  | QSetNodeWidget _ _ _ => Ok "page"
  | QPlaceWidget _ => Err (ErrorString "page not found")
  | QListPages => Ok []
  | QCreatePage t => Ok (mkPageInfo "id" t 0 [])
  | QReplayRun _ _ => Ok (mkReplayOutcome "" true 0 [])
  end.

Definition pin_node : Prog := SetNodeDashboardTool all_services [("node_id", JStr "n"); ("page", JStr "Setup")].

Lemma service_tools_exact_witness :
  Success (run no_page pin_node).2 = forallb (fine_in no_page) (run no_page pin_node).1 /\ (run no_page pin_node).1 <> [].
Proof.
  pose proof (@service_tools_exact (map_range_some_order Z) (fun _ => 0%Z) (fun _ => S754_zero false)
    (mkEntry "set_node_dashboard" (fun e i => sv_DashboardWriter e && has i "node_id") SetNodeDashboardTool)
    all_services [("node_id", JStr "n"); ("page", JStr "Setup")] no_page) as H.
  unfold exact in H. change (te_program _ _ _) with pin_node in H. cbn [te_complete] in H. unfold service_tools in H.
  destruct (run no_page pin_node) as [asked r]. destruct H as (_ & H & _); [do 13 apply list_elem_of_further; apply list_elem_of_here|].
  destruct (H eq_refl) as (Hne & Hs & _). split; [exact Hs|exact Hne].
Defined.

(** The widget exists and has no place: the second request was refused, and the
    first is not taken back. *)
Example pinned_without_a_place :
  (map (fun q => match projT2 q with QSetNodeWidget n p b => (n, p, b) | _ => ("", "", false) end) (run no_page pin_node).1,
   (run no_page pin_node).2) =
  ([("n", "_control", true); ("", "", false)], refused "page not found").
Proof. vm_compute. reflexivity. Qed.

(** * The guide an agent reads

    [pkg/tools/prompt_sections.go]: the platform's guide is a text; the parts
    that most flows never need are held back, named in an index, and fetched one
    by one. The text itself ([prompt_core.go]) is an argument. *)

Definition nl : string := String (ascii_of_nat 10) "".

(** key, heading, when it is needed *)
Definition deferredSections : list (string * string * string) :=
  [("dashboards", "Dashboard Widgets", "the flow shows anything to a person");
   ("forms", "Form Schemas", "you are authoring a form or control schema");
   ("agents", "Building Agents", "the flow is a tool-using model loop");
   ("code", "Code / Eval Components", "the flow runs js_eval or another code component");
   ("scenarios", "Scenarios", "you are validating edges against sample data");
   ("endpoints", "Verifying a Live Endpoint", "the flow serves HTTP and you need to prove it answers");
   ("publishing", "Publishing a Solution", "you are publishing the project as a solution")].

Record promptSection := mkSection { ps_heading : string; ps_body : string }.

(** One line: what is collected before the first heading, the sections that are
    closed, and the open one. *)
Definition split_line (acc : list string * list promptSection * option promptSection) (line : string)
    : list string * list promptSection * option promptSection :=
  let '(preamble, sections, current) := acc in
  if go_has_prefix line "## " then
    (preamble, sections ++ option_list current, Some (mkSection (go_trim_space (go_trim_prefix line "## ")) ""))
  else match current with
       | None => (preamble ++ [line], sections, None)
       | Some s => (preamble, sections, Some (mkSection (ps_heading s) (ps_body s +:+ line +:+ nl)))
       end.

Definition splitPrompt (text : string) : string * list promptSection :=
  let '(preamble, sections, current) := fold_left split_line (go_split (ascii_of_nat 10) text) ([], [], None) in
  (go_join nl preamble, sections ++ option_list current).

Definition deferralFor (heading : string) : option string :=
  (fun d => d.1.1) <$> List.find (fun d => go_has_prefix heading d.1.2) deferredSections.

Definition section_text (s : promptSection) : string := "## " +:+ ps_heading s +:+ nl +:+ ps_body s.

Definition index_entry (d : string * string * string) : string :=
  "- get_instructions(section: " +:+ go_quote d.1.1 +:+ ") — read when " +:+ d.2 +:+ nl.

Definition index_head : string :=
  nl +:+ "## Sections Not Included Above" +:+ nl +:+ nl +:+
  "These answer questions most flows never ask, so they are fetched when they apply." +:+ nl +:+
  "Read the matching one BEFORE building that part — do not improvise it." +:+ nl +:+ nl.

Definition str_concat (l : list string) : string := fold_right String.append "" l.

Definition kept (sections : list promptSection) : list promptSection :=
  List.filter (fun s => negb (bool_decide (is_Some (deferralFor (ps_heading s))))) sections.
Definition held_keys (sections : list promptSection) : list string := omap (fun s => deferralFor (ps_heading s)) sections.

Definition corePrompt (text : string) : string :=
  let '(preamble, sections) := splitPrompt text in
  let held := held_keys sections in
  let core := preamble +:+ str_concat (map (fun s => nl +:+ section_text s) (kept sections)) in
  if bool_decide (held = []) then core
  else core +:+ index_head +:+
       str_concat (map index_entry (List.filter (fun d => bool_decide (d.1.1 ∈ held)) deferredSections)).

(** [strings.TrimRight(s, "\n")]. *)
Fixpoint trim_right_nl (s : string) : string :=
  match s with
  | EmptyString => ""
  | String c s' =>
      let r := trim_right_nl s' in
      if (r =? "") && Ascii.eqb c (ascii_of_nat 10) then "" else String c r
  end.

Definition sections_of (key : string) (sections : list promptSection) : list promptSection :=
  List.filter (fun s => bool_decide (deferralFor (ps_heading s) = Some key)) sections.

Definition sectionPrompt (text key : string) : result goerror string :=
  let b := str_concat (map section_text (sections_of key (splitPrompt text).2)) in
  if (0 <? String.length b)%nat then Ok (trim_right_nl b)
  else Err (ErrorString ("unknown section " +:+ go_quote key +:+ "; available: " +:+
              go_join ", " (go_sort_strings (map (fun d => d.1.1) deferredSections)))).

Definition GetInstructions (instructions : string) (input : obj) : ToolResult obj :=
  let section := default "" (str_at input "section") in
  if negb (section =? "") then
    match sectionPrompt instructions section with
    | Err err => refused (error_text err)
    | Ok body => mkToolResult true (Some [("section", JStr section); ("instructions", JStr body)]) ""
    end
  else mkToolResult true (Some [("instructions", JStr (corePrompt instructions))]) "".

(** ** Nothing is lost *)

(** The lines of a section, as they were written. *)
Definition heading_line (line : string) : bool := go_has_prefix line "## ".

(** The lines of a text are those of the preamble and, for each section, a
    heading and the lines of its body. *)
Fixpoint section_lines (lines : list string) : list string * list (string * list string) :=
  match lines with
  | [] => ([], [])
  | line :: lines' =>
      let '(before, sections) := section_lines lines' in
      if heading_line line then ([], (line, before) :: sections) else (line :: before, sections)
  end.

Definition section_of (hb : string * list string) : promptSection :=
  mkSection (go_trim_space (go_trim_prefix hb.1 "## ")) (str_concat (map (fun l => l +:+ nl) hb.2)).

Lemma str_concat_app (a b : list string) : str_concat (a ++ b) = (str_concat a +:+ str_concat b)%string.
Proof. induction a as [|x a IH]; [done|]. change (x +:+ str_concat (a ++ b) = (x +:+ str_concat a) +:+ str_concat b)%string. by rewrite IH, str_app_assoc. Qed.

Lemma split_fold (lines : list string) (preamble : list string) (sections : list promptSection) (s : promptSection) :
  let '(p, done, current) := fold_left split_line lines (preamble, sections, Some s) in
  let '(before, rest) := section_lines lines in
  p = preamble /\
  done ++ option_list current =
    sections ++ mkSection (ps_heading s) (ps_body s +:+ str_concat (map (fun l => l +:+ nl) before)) :: map section_of rest.
Proof.
  revert sections s. induction lines as [|line lines IH]; intros sections s; cbn [section_lines fold_left].
  - cbn. rewrite str_app_nil_r. split; [done|]. by destruct s.
  - cbn [split_line]. destruct (go_has_prefix line "## ") eqn:E.
    + specialize (IH (sections ++ [s]) (mkSection (go_trim_space (go_trim_prefix line "## ")) "")). cbn [option_list].
      destruct (fold_left _ _ _) as [[p done] current], (section_lines lines) as [before rest]. unfold heading_line. rewrite E.
      destruct IH as [-> ->]. split; [done|]. rewrite <- app_assoc. cbn. rewrite str_app_nil_r. unfold section_of at 2. by destruct s.
    + specialize (IH sections (mkSection (ps_heading s) (ps_body s +:+ line +:+ nl))).
      destruct (fold_left _ _ _) as [[p done] current], (section_lines lines) as [before rest]. unfold heading_line. rewrite E.
      destruct IH as [-> ->]. split; [done|]. cbn. by rewrite !str_app_assoc.
Qed.

Lemma split_fold_start (lines preamble : list string) :
  let '(p, done, current) := fold_left split_line lines (preamble, [], None) in
  let '(before, rest) := section_lines lines in
  p = preamble ++ before /\ done ++ option_list current = map section_of rest.
Proof.
  revert preamble. induction lines as [|line lines IH]; intros preamble; cbn [section_lines fold_left]; [by rewrite app_nil_r|].
  cbn [split_line]. destruct (go_has_prefix line "## ") eqn:E.
  - pose proof (split_fold lines preamble [] (mkSection (go_trim_space (go_trim_prefix line "## ")) "")) as H. cbn [option_list app].
    destruct (fold_left _ _ _) as [[p done] current], (section_lines lines) as [before rest]. unfold heading_line. rewrite E.
    destruct H as [-> ->]. by rewrite app_nil_r.
  - specialize (IH (preamble ++ [line])).
    destruct (fold_left _ _ _) as [[p done] current], (section_lines lines) as [before rest]. unfold heading_line. rewrite E.
    destruct IH as [-> ->]. by rewrite <- app_assoc.
Qed.

Lemma splitPrompt_lines (text : string) :
  let '(before, rest) := section_lines (go_split (ascii_of_nat 10) text) in splitPrompt text = (go_join nl before, map section_of rest).
Proof.
  pose proof (split_fold_start (go_split (ascii_of_nat 10) text) []) as H. unfold splitPrompt.
  destruct (fold_left _ _ _) as [[p done] current], (section_lines _) as [before rest]. by destruct H as [-> ->].
Qed.

Lemma section_lines_all (lines : list string) :
  let '(before, rest) := section_lines lines in lines = before ++ flat_map (fun hb => hb.1 :: hb.2) rest.
Proof.
  induction lines as [|line lines IH]; [done|]. cbn. destruct (section_lines lines) as [before rest].
  destruct (heading_line line); cbn; by rewrite IH at 1.
Qed.

Lemma concat_mid {A} (f : A -> string) (l : list A) (x : A) : x ∈ l ->
  exists a b, str_concat (map f l) = (a +:+ f x +:+ b)%string.
Proof.
  intros (l1 & l2 & ->)%list_elem_of_split. rewrite map_app, str_concat_app. cbn. by eexists _, _.
Qed.

Lemma deferral_entry (heading key : string) : deferralFor heading = Some key -> exists d, d ∈ deferredSections /\ d.1.1 = key.
Proof.
  unfold deferralFor. destruct (List.find _ _) as [d|] eqn:E; [|done]. intros [= <-]. apply find_some in E as [E _].
  exists d. split; [by apply list_elem_of_In|done].
Qed.

Lemma section_text_length (s : promptSection) : (0 < String.length (section_text s))%nat.
Proof. unfold section_text. rewrite str_length_app. change (String.length "## ") with 3%nat. lia. Qed.

(** Holding parts of the guide back loses nothing. The guide's lines are those
    before the first heading and, section by section, a heading and the lines
    under it, and that is what the sections hold; every section is in the core
    guide as it was written, or else the core guide's index names the key that
    fetches it, and fetching that key gives it back, with what else the key
    holds, up to blank lines at the end. *)
Theorem no_guide_section_lost (text : string) :
  let '(before, rest) := section_lines (go_split (ascii_of_nat 10) text) in
  go_split (ascii_of_nat 10) text = before ++ flat_map (fun hb => hb.1 :: hb.2) rest /\
  splitPrompt text = (go_join nl before, map section_of rest) /\
  (exists b, corePrompt text = (go_join nl before +:+ b)%string) /\
  forall s, s ∈ map section_of rest ->
    match deferralFor (ps_heading s) with
    | None => exists a b, corePrompt text = (a +:+ nl +:+ section_text s +:+ b)%string
    | Some key =>
        (exists d a b, d ∈ deferredSections /\ d.1.1 = key /\ corePrompt text = (a +:+ index_entry d +:+ b)%string) /\
        (exists a b, sectionPrompt text key = Ok (trim_right_nl (a +:+ section_text s +:+ b)%string))
    end.
Proof.
  pose proof (splitPrompt_lines text) as Hs. pose proof (section_lines_all (go_split (ascii_of_nat 10) text)) as Hl.
  destruct (section_lines _) as [before rest]. split; [done|]. split; [done|]. unfold corePrompt, sectionPrompt. rewrite Hs. cbn [snd].
  split; [case_bool_decide; [by eexists|rewrite str_app_assoc; by eexists]|]. intros s Hin.
  destruct (deferralFor (ps_heading s)) as [key|] eqn:Ed.
  - assert (Hheld : key ∈ held_keys (map section_of rest)) by (apply list_elem_of_omap; by exists s). split.
    + destruct (deferral_entry _ _ Ed) as (d & Hd & Hk). exists d. rewrite bool_decide_false by (intros E; rewrite E in Hheld; by apply elem_of_nil in Hheld).
      destruct (concat_mid index_entry (List.filter (fun d => bool_decide (d.1.1 ∈ held_keys (map section_of rest))) deferredSections) d)
        as (a & b & ->).
      { apply list_elem_of_In, filter_In. split; [by apply list_elem_of_In|]. apply bool_decide_eq_true. by rewrite Hk. }
      eexists (_ +:+ a)%string, b. split; [done|]. split; [done|]. rewrite <- (str_app_assoc _ a). rewrite <- !str_app_assoc. done.
    + destruct (concat_mid section_text (sections_of key (map section_of rest)) s) as (a & b & E).
      { apply list_elem_of_In, filter_In. split; [by apply list_elem_of_In|]. by apply bool_decide_eq_true. }
      rewrite E. exists a, b. rewrite !str_length_app. pose proof (section_text_length s).
      destruct (Nat.ltb_spec 0 (String.length a + (String.length (section_text s) + String.length b))); [done|lia].
  - destruct (concat_mid (fun s => (nl +:+ section_text s)%string) (kept (map section_of rest)) s) as (a & b & E).
    { apply list_elem_of_In, filter_In. split; [by apply list_elem_of_In|]. rewrite Ed. by case_bool_decide as Hd; [destruct Hd|]. }
    rewrite E. case_bool_decide; eexists (go_join nl before +:+ a)%string, _; by rewrite !str_app_assoc.
Qed.

Example sections_held_back :
  let text := "intro" +:+ nl +:+ "## Basics" +:+ nl +:+ "b" +:+ nl +:+ "## Scenarios and samples" +:+ nl +:+ "s" in
  (corePrompt ("intro" +:+ nl +:+ "## Basics" +:+ nl +:+ "b"), match sectionPrompt text "scenarios" with Ok s => s | Err _ => "" end,
   match sectionPrompt text "forms" with Ok _ => "" | Err e => error_text e end) =
  ("intro" +:+ nl +:+ "## Basics" +:+ nl +:+ "b" +:+ nl, "## Scenarios and samples" +:+ nl +:+ "s",
   "unknown section " +:+ go_quote "forms" +:+ "; available: agents, code, dashboards, endpoints, forms, publishing, scenarios").
Proof. vm_compute. reflexivity. Qed.
