(* ===== verification/Startup.v ===== *)
(** * The life of a module's process

    [cli/run.go] and [cli/nats.go]: the checks and the set-up in the order of
    the code, the goroutines it leaves in an errgroup, and how the process ends.
    What other code answers - the API server, the broker, the listener - is a
    [Machine]. The message router of [cli/run.go] is in [Scheduler].

    The errgroup is a state with labels: a signal, a leader that is seen, a
    goroutine that returns. What a goroutine may return, and when, follows its
    body; what a server or a subscription answers is left open. *)
From S2P Require Import Prelude GoErrors Names.

Open Scope string_scope.
Open Scope list_scope.

(** ** Setting up *)

Inductive Worker : Type :=
| LeaderLoop | RunReconciler | NatsReceiver | SysReceiver | GrpcServer | ResourceManager | Operator | ClientPool | SchedulerLoop.

#[export] Instance worker_eq_dec : EqDecision Worker.
Proof. solve_decision. Defined.

(** What the process has done. *)
Inductive Act : Type :=
| Telemetry | EnsuredEdge | EnsuredSysmsg | EnsuredExecKV
| Spawned (w : Worker)
| Registered (addr : string)
| Installed (component : string)
| NotInstalled (component : string)
| Flushed.

(** How it ends before it waits for its goroutines: [os.Exit(1)], which runs no
    deferred call; a return; a panic that the deferred recover takes; or a
    receive that nothing is sent to. The second and third are exit code 0. *)
Inductive Ending : Type := Exit1 | Return | Recovered | Blocked.

#[export] Instance ending_eq_dec : EqDecision Ending.
Proof. solve_decision. Defined.

(** [mc_config] is whether a configuration came out, from the flags and else
    from the cluster; a name is given where it is answered. *)
Record Machine := {
  mc_name : string; mc_version : string;
  getenv : string -> string;
  mc_configure_telemetry : error;
  mc_flags_config : result goerror bool;
  mc_cluster_config : result goerror bool;
  mc_new_manager : error; mc_core_client : error; mc_lock : error; mc_elector : error;
  mc_nats_connect : error; mc_jetstream_new : error;
  mc_edge_stream : error; mc_sysmsg_stream : error; mc_exec_kv : error;
  mc_resource_manager : error;
  mc_listen : result goerror string;
  mc_node_controller : error; mc_module_controller : error; mc_component_controller : error;
  mc_healthz : error; mc_readyz : error;
  mc_create_module : error;
  mc_components : list (string * error);
}.

(** Steps that leave a trace and may end the process. *)
Definition B (A : Type) : Type := list Act * (Ending + A).
Definition done {A} (a : A) : B A := ([], inr a).
Definition act (a : Act) : B unit := ([a], inr tt).
Definition quit {A} (e : Ending) : B A := ([], inl e).
Definition andthen {A C} (m : B A) (k : A -> B C) : B C :=
  match m with
  | (tr, inl e) => (tr, inl e)
  | (tr, inr a) => let '(tr', r) := k a in (tr ++ tr', r)
  end.

Declare Scope boot_scope.
Delimit Scope boot_scope with boot.
Notation "'let*' x ':=' m 'in' k" := (andthen m (fun x => k)) (at level 10, x pattern, m at level 100, k at level 200) : boot_scope.
Notation "m ';;' k" := (andthen m (fun _ => k)) (at level 100, right associativity) : boot_scope.

(** [if err != nil { ...; os.Exit(1) }] and the like. *)
Definition must (err : error) (e : Ending) : B unit := match err with None => done tt | Some _ => quit e end.
Definition unless (stop : bool) (e : Ending) : B unit := if stop then quit e else done tt.

(** [debug.ReadBuildInfo]: the main module and the dependencies, paths with versions. *)
Definition sdkModulePath : string := "github.com/tiny-systems/module".

Definition getSDKVersion (info : option ((string * string) * list (string * string))) : string :=
  match info with
  | None => "unknown"
  | Some (main, deps) =>
      match List.find (fun d => d.1 =? sdkModulePath) deps with
      | Some d => go_trim_prefix d.2 "v"
      | None => if main.1 =? sdkModulePath then go_trim_prefix main.2 "v" else "unknown"
      end
  end.

Section boot.
  Variable m : Machine.

(** The NATS runtime: whether its JetStream handle is there. *)
Definition connectNATS : option bool :=
  if getenv m "TINY_NATS_URL" =? "" then None
  else match mc_nats_connect m with
       | Some _ => None
       | None => Some (match mc_jetstream_new m with Some _ => false | None => true end)
       end.

(** Whether there is a configuration to work with. *)
Definition kubeconfig : option bool :=
  match mc_flags_config m with
  | Ok c => Some c
  | Err _ => match mc_cluster_config m with Ok c => Some c | Err _ => None end
  end.

Definition check_settings : B unit :=
  (unless (mc_name m =? "") Exit1 ;;
   unless (mc_version m =? "") Exit1 ;;
   unless (go_has_prefix (mc_version m) "v") Exit1)%boot.

Definition telemetry : B unit :=
  (if getenv m "OTLP_DSN" =? "" then done tt
   else act Telemetry ;; must (mc_configure_telemetry m) Exit1)%boot.

(** The clients, the lock and the elector. *)
Definition clients : B unit :=
  (match kubeconfig with None => quit Exit1 | Some c => unless (negb c) Exit1 end ;;
   must (mc_new_manager m) Exit1 ;;
   must (mc_core_client m) Exit1 ;;
   unless (getenv m "HOSTNAME" =? "") Exit1 ;;
   must (mc_lock m) Exit1 ;;
   must (mc_elector m) Exit1)%boot.

(** Whether messages leave over NATS, and whether runs are durable. The first
    stream is asked for through the handle, if it is there or not. *)
Definition choose_transport : B (bool * bool) :=
  (match connectNATS with
   | None => done (false, false)
   | Some js =>
       if getenv m "TINY_NATS_TRANSPORT" =? "jetstream" then
         unless (negb js) Recovered ;;
         act EnsuredEdge ;; must (mc_edge_stream m) Exit1 ;;
         act EnsuredSysmsg ;; must (mc_sysmsg_stream m) Exit1 ;;
         act EnsuredExecKV ;; must (mc_exec_kv m) Exit1 ;;
         done (true, true)
       else done (true, false)
   end)%boot.

(** What the server's listener is called by others. *)
Definition listen_address (addr : string) : string :=
  if negb (getenv m "SELF_SERVICE_HOST" =? "") then getenv m "SELF_SERVICE_HOST"
  else "127.0.0.1:" +:+ default "" (last (go_split ":" addr)).

Definition spawn (w : Worker) : B unit := act (Spawned w).

(** The receivers, and the module's address. A server that cannot listen
    returns without a word on the channel that is read here. *)
Definition receivers (nats : bool) : B string :=
  (if nats then
     spawn NatsReceiver ;; spawn SysReceiver ;;
     done ("nats://" +:+ SubjectFor (SanitizeResourceName (mc_name m)))
   else
     spawn GrpcServer ;;
     match mc_listen m with
     | Err _ => quit Blocked
     | Ok addr => done (listen_address addr)
     end)%boot.

Definition controllers : B unit :=
  (must (mc_node_controller m) Return ;;
   must (mc_module_controller m) Return ;;
   must (mc_component_controller m) Return ;;
   must (mc_healthz m) Return ;;
   must (mc_readyz m) Return)%boot.

Definition install (c : string * error) : Act :=
  match c.2 with None => Installed c.1 | Some _ => NotInstalled c.1 end.

(** From the first line to [wg.Wait]; the goroutines that were started. *)
Definition setup : B (list Worker) :=
  (telemetry ;;
   check_settings ;;
   clients ;;
   spawn LeaderLoop ;;
   let* (nats, durable) := choose_transport in
   must (mc_resource_manager m) Exit1 ;;
   (if durable then spawn RunReconciler else done tt) ;;
   let* addr := receivers nats in
   controllers ;;
   must (mc_create_module m) Return ;;
   act (Registered addr) ;;
   (map install (mc_components m), inr tt) ;;
   spawn ResourceManager ;; spawn Operator ;; spawn ClientPool ;; spawn SchedulerLoop ;;
   done ([LeaderLoop] ++ (if durable then [RunReconciler] else []) ++
         (if nats then [NatsReceiver; SysReceiver] else [GrpcServer]) ++
         [ResourceManager; Operator; ClientPool; SchedulerLoop]))%boot.

(** With the deferred calls of an end that runs them. *)
Definition boot : B (list Worker) :=
  match setup with
  | (tr, inl e) => (if bool_decide (e = Return) || bool_decide (e = Recovered) then tr ++ [Flushed] else tr, inl e)
  | r => r
  end.
End boot.

(** ** Running and stopping *)

(** The errgroup: who has not returned, whether its context is cancelled and by
    what (nothing, for a signal), the first error, whether a leader was seen. *)
Record Group := mkGroup {
  gp_running : list Worker;
  gp_cancelled : bool;
  gp_cause : error;
  gp_err : error;
  gp_elected : bool;
}.

Inductive label : Type :=
| Signal
| NewLeader
| Returns (w : Worker) (e : error).

Definition is_nil (e : error) : bool := match e with None => true | Some _ => false end.

(** When a goroutine returns, and what. The leader loop gives the cause of the
    cancellation or, from its wait, nothing; the operator waits for a leader
    before anything else; the pool's connections close without an error. *)
Definition may_return (g : Group) (w : Worker) (e : error) : Prop :=
  match w with
  | LeaderLoop => gp_cancelled g = true /\ (e = None \/ e = gp_cause g)
  | RunReconciler | ResourceManager | ClientPool => gp_cancelled g = true /\ e = None
  | SchedulerLoop => gp_cancelled g = true
  | NatsReceiver | SysReceiver | GrpcServer => gp_cancelled g = true \/ e <> None
  | Operator => gp_elected g = true /\ (gp_cancelled g = true \/ e <> None)
  end.

(** [errgroup]: the first error is kept and cancels the context. *)
Definition returned (g : Group) (w : Worker) (e : error) : Group :=
  let running := List.filter (fun x => negb (bool_decide (x = w))) (gp_running g) in
  match e with
  | None => mkGroup running (gp_cancelled g) (gp_cause g) (gp_err g) (gp_elected g)
  | Some _ => mkGroup running true (if gp_cancelled g then gp_cause g else e)
                (match gp_err g with None => e | Some _ => gp_err g end) (gp_elected g)
  end.

Inductive gstep : Group -> label -> Group -> Prop :=
| GSignal g : gstep g Signal (mkGroup (gp_running g) true (gp_cause g) (gp_err g) (gp_elected g))
| GLeader g : gstep g NewLeader (mkGroup (gp_running g) (gp_cancelled g) (gp_cause g) (gp_err g) true)
| GReturns g w e : w ∈ gp_running g -> may_return g w e -> gstep g (Returns w e) (returned g w e).

Inductive gsteps : Group -> list label -> Group -> Prop :=
| GDone g : gsteps g [] g
| GMore g l g' ls g'' : gstep g l g' -> gsteps g' ls g'' -> gsteps g (l :: ls) g''.

Definition start_group (ws : list Worker) : Group := mkGroup ws false None None false.

(** [wg.Wait] returns when everyone has; an error is exit code 1, without the
    deferred calls. *)
Definition exit_code (g : Group) : option (Z * list Act) :=
  match gp_running g with
  | [] => Some (if is_nil (gp_err g) then (0%Z, [Flushed]) else (1%Z, []))
  | _ => None
  end.

(** The wait between two elections: 5 seconds, doubled to 5 minutes. *)
Definition next_backoff (d : Z) : Z := Z.min (2 * d) 300.

(** ** The leader that is seen

    [OnNewLeader] runs in a goroutine of its own for each leader: it looks
    whether the channel is closed, and closes it. [co_ready] counts those that
    have looked and found it open. *)
Record Callbacks := mkCallbacks { co_closed : bool; co_ready : nat; co_panicked : bool }.
Inductive LeaderSeen : Type := Looks | Closes.
Definition on_new_leader (c : Callbacks) (s : LeaderSeen) : Callbacks :=
  match s with
  | Looks => if co_closed c then c else mkCallbacks false (S (co_ready c)) (co_panicked c)
  | Closes => match co_ready c with
              | O => c
              | S n => mkCallbacks true n (co_panicked c || co_closed c)
              end
  end.

(** Two callbacks that overlap close the channel twice, which ends the process. *)
Example two_leaders_at_once :
  co_panicked (fold_left on_new_leader [Looks; Closes; Looks; Closes] (mkCallbacks false 0 false)) = false /\
  co_panicked (fold_left on_new_leader [Looks; Looks; Closes; Closes] (mkCallbacks false 0 false)) = true.
Proof. split; reflexivity. Qed.

(** ** How a start ends *)

(** What a start needs, part by part. *)
Definition all_nil (l : list error) : bool := forallb is_nil l.

Definition telemetry_ok (m : Machine) : bool := (getenv m "OTLP_DSN" =? "") || is_nil (mc_configure_telemetry m).
Definition settings_ok (m : Machine) : bool :=
  negb (mc_name m =? "") && negb (mc_version m =? "") && negb (go_has_prefix (mc_version m) "v").
Definition clients_ok (m : Machine) : bool :=
  bool_decide (kubeconfig m = Some true) && negb (getenv m "HOSTNAME" =? "") &&
  all_nil [mc_new_manager m; mc_core_client m; mc_lock m; mc_elector m].
Definition controllers_ok (m : Machine) : bool :=
  all_nil [mc_node_controller m; mc_module_controller m; mc_component_controller m; mc_healthz m; mc_readyz m].

(** The transport that is asked for, whatever the broker answers. *)
Definition nats_of (m : Machine) : bool := bool_decide (is_Some (connectNATS m)).
Definition durable_of (m : Machine) : bool := nats_of m && (getenv m "TINY_NATS_TRANSPORT" =? "jetstream").

Definition transport_ok (m : Machine) : bool :=
  negb (durable_of m) ||
  bool_decide (connectNATS m = Some true) && all_nil [mc_edge_stream m; mc_sysmsg_stream m; mc_exec_kv m].

Definition ready (m : Machine) : bool :=
  telemetry_ok m && settings_ok m && clients_ok m && transport_ok m && is_nil (mc_resource_manager m) &&
  (nats_of m || is_ok (mc_listen m)) && controllers_ok m && is_nil (mc_create_module m).

Definition workers (nats durable : bool) : list Worker :=
  [LeaderLoop] ++ (if durable then [RunReconciler] else []) ++ (if nats then [NatsReceiver; SysReceiver] else [GrpcServer]) ++
  [ResourceManager; Operator; ClientPool; SchedulerLoop].

(** All that a process has done when it waits, in order. *)
Definition startup_acts (m : Machine) (nats durable : bool) : list Act :=
  (if getenv m "OTLP_DSN" =? "" then [] else [Telemetry]) ++ [Spawned LeaderLoop] ++
  (if durable then [EnsuredEdge; EnsuredSysmsg; EnsuredExecKV; Spawned RunReconciler] else []) ++
  (if nats then [Spawned NatsReceiver; Spawned SysReceiver; Registered ("nats://" +:+ SubjectFor (SanitizeResourceName (mc_name m)))]
   else [Spawned GrpcServer; Registered (match mc_listen m with Ok a => listen_address m a | Err _ => "" end)]) ++
  map install (mc_components m) ++ [Spawned ResourceManager; Spawned Operator; Spawned ClientPool; Spawned SchedulerLoop].

(** Each part of the set-up goes on exactly when what it needs is there. *)
Lemma telemetry_spec (m : Machine) :
  telemetry m = (if getenv m "OTLP_DSN" =? "" then [] else [Telemetry], if telemetry_ok m then inr tt else inl Exit1).
Proof. unfold telemetry, telemetry_ok. destruct (getenv m "OTLP_DSN" =? ""); [done|]. by destruct (mc_configure_telemetry m). Qed.

Lemma check_settings_spec (m : Machine) : check_settings m = ([], if settings_ok m then inr tt else inl Exit1).
Proof.
  unfold check_settings, settings_ok. destruct (mc_name m =? ""); [done|]. destruct (mc_version m =? ""); [done|].
  by destruct (go_has_prefix (mc_version m) "v").
Qed.

Lemma clients_spec (m : Machine) : clients m = ([], if clients_ok m then inr tt else inl Exit1).
Proof.
  unfold clients, clients_ok. destruct (kubeconfig m) as [[]|]; try done. destruct (mc_new_manager m); [by rewrite andb_false_r|].
  destruct (mc_core_client m); [by rewrite andb_false_r|]. destruct (getenv m "HOSTNAME" =? ""); [done|].
  destruct (mc_lock m); [done|]. by destruct (mc_elector m).
Qed.

Lemma controllers_spec (m : Machine) : controllers m = ([], if controllers_ok m then inr tt else inl Return).
Proof.
  unfold controllers, controllers_ok. destruct (mc_node_controller m); [done|]. destruct (mc_module_controller m); [done|].
  destruct (mc_component_controller m); [done|]. destruct (mc_healthz m); [done|]. by destruct (mc_readyz m).
Qed.

Definition broker_act (a : Act) : bool := match a with EnsuredEdge | EnsuredSysmsg | EnsuredExecKV => true | _ => false end.

Lemma choose_transport_spec (m : Machine) :
  if transport_ok m
  then choose_transport m = (if durable_of m then [EnsuredEdge; EnsuredSysmsg; EnsuredExecKV] else [], inr (nats_of m, durable_of m))
  else exists tr e, choose_transport m = (tr, inl e) /\ forallb broker_act tr = true /\
    (e = Exit1 \/ e = Recovered /\ connectNATS m = Some false).
Proof.
  unfold choose_transport, transport_ok, durable_of, nats_of. destruct (connectNATS m) as [js|]; [|done]. cbn [is_Some].
  rewrite bool_decide_true by by eexists. destruct (getenv m "TINY_NATS_TRANSPORT" =? "jetstream"); [|done].
  destruct js; cbn; [|eexists _, Recovered; split_and!; [done|done|by right]].
  destruct (mc_edge_stream m); cbn; [eexists _, Exit1; split_and!; [done|done|by left]|].
  destruct (mc_sysmsg_stream m); cbn; [eexists _, Exit1; split_and!; [done|done|by left]|].
  destruct (mc_exec_kv m); cbn; [eexists _, Exit1; split_and!; [done|done|by left]|done].
Qed.

Lemma receivers_spec (m : Machine) (nats : bool) :
  receivers m nats =
    (if nats then [Spawned NatsReceiver; Spawned SysReceiver] else [Spawned GrpcServer],
     if nats then inr ("nats://" +:+ SubjectFor (SanitizeResourceName (mc_name m)))
     else match mc_listen m with Ok a => inr (listen_address m a) | Err _ => inl Blocked end).
Proof. unfold receivers. destruct nats; [done|]. by destruct (mc_listen m). Qed.

(** What a process that ends early has not done. *)
Definition early (a : Act) : bool :=
  match a with
  | Telemetry | EnsuredEdge | EnsuredSysmsg | EnsuredExecKV => true
  | Spawned (LeaderLoop | RunReconciler | NatsReceiver | SysReceiver | GrpcServer) => true
  | _ => false
  end.

Lemma broker_early (tr : list Act) : forallb broker_act tr = true -> forallb early tr = true.
Proof. induction tr as [|a tr IH]; [done|]. cbn. rewrite !andb_true_iff. intros [Ha Ht]. split; [by destruct a|by apply IH]. Qed.

(** C16. A module starts exactly when all it needs is there, and then it has done
    exactly the steps of its start-up in their order: a durable module has its
    streams and its bucket before anything receives, a module is registered
    under the address that reaches it before its components are installed, and
    only then does the operator start. A start that ends early has registered
    and installed nothing. It ends with exit code 1, except where a controller
    or the registration of the module fails, where JetStream is asked for on a
    connection without it - exit code 0 each - and where the gRPC server
    cannot listen: then the process waits for its address for ever. *)
Theorem module_starts_iff_ready (m : Machine) :
  if ready m then boot m = (startup_acts m (nats_of m) (durable_of m), inr (workers (nats_of m) (durable_of m)))
  else exists tr e, boot m = (if bool_decide (e = Return) || bool_decide (e = Recovered) then tr ++ [Flushed] else tr, inl e) /\
    forallb early tr = true /\
    match e with
    | Exit1 => telemetry_ok m && settings_ok m && clients_ok m && transport_ok m && is_nil (mc_resource_manager m) = false
    | Return => controllers_ok m && is_nil (mc_create_module m) = false
    | Recovered => connectNATS m = Some false /\ transport_ok m = false
    | Blocked => nats_of m = false /\ is_ok (mc_listen m) = false
    end.
Proof.
  unfold boot, setup, ready. pose proof (controllers_spec m) as Hctl. revert Hctl. generalize (controllers_ok m). intros ctl Hctl.
  rewrite telemetry_spec, check_settings_spec, clients_spec.
  set (tel := if getenv m "OTLP_DSN" =? "" then _ else _).
  assert (Htel : forallb early tel = true) by (unfold tel; by destruct (getenv m "OTLP_DSN" =? "")).
  destruct (telemetry_ok m); cbn; [|by exists tel, Exit1].
  destruct (settings_ok m); cbn; [|exists tel, Exit1; by rewrite app_nil_r].
  destruct (clients_ok m); cbn; [|exists tel, Exit1; by rewrite app_nil_r].
  pose proof (choose_transport_spec m) as Hch. destruct (transport_ok m); cbn.
  2: { destruct Hch as (tr & e & -> & Htr & He). cbn. exists (tel ++ Spawned LeaderLoop :: tr), e.
       rewrite forallb_app, Htel. cbn. rewrite broker_early by done. destruct He as [->|[-> ->]]; cbn; [done|]. by rewrite <- app_assoc. }
  rewrite Hch. cbn. set (brk := if durable_of m then [EnsuredEdge; EnsuredSysmsg; EnsuredExecKV] else []).
  assert (Hbrk : forallb early brk = true) by (unfold brk; by destruct (durable_of m)).
  destruct (mc_resource_manager m); cbn.
  { exists (tel ++ Spawned LeaderLoop :: brk), Exit1. rewrite !app_nil_r, forallb_app, Htel. cbn. by rewrite Hbrk. }
  rewrite receivers_spec, Hctl. unfold startup_acts, workers. fold tel.
  assert (Hearly : forall tr, forallb early tr = true -> forallb early (tel ++ tr) = true) by (intros tr Htr; by rewrite forallb_app, Htel).
  destruct (durable_of m), (nats_of m), (mc_listen m) as [addr|], ctl, (mc_create_module m); cbn; try (by rewrite <- ?app_assoc);
    try (eexists _, Blocked; split_and!; [reflexivity|by apply Hearly|done|done]);
    try (eexists _, Return; split_and!; [reflexivity|by apply Hearly|done]).
Qed.

(** ** How a process stops *)

Definition error_of (l : label) : error := match l with Returns _ e => e | _ => None end.
Definition first_error (ls : list label) : error := head (omap error_of ls).
Definition is_return (l : label) : bool := match l with Returns _ _ => true | _ => false end.
Definition is_leader (l : label) : bool := match l with NewLeader => true | _ => false end.
Definition stops (l : label) : bool := match l with Signal => true | Returns _ (Some _) => true | _ => false end.

Lemma filter_out_length (w : Worker) (l : list Worker) :
  NoDup l -> w ∈ l -> S (length (List.filter (fun x => negb (bool_decide (x = w))) l)) = length l.
Proof.
  induction 1 as [|x l Hx Hl IH]; [by intros H%elem_of_nil|]. intros [->|Hin]%elem_of_cons; cbn [List.filter].
  - rewrite bool_decide_true by done. cbn. f_equal. clear IH Hl. induction l as [|y l IH]; [done|]. cbn.
    rewrite bool_decide_false by (intros ->; set_solver). cbn. f_equal. apply IH. set_solver.
  - rewrite bool_decide_false by (intros ->; done). cbn. by rewrite IH.
Qed.

Lemma filter_out_in (w x : Worker) (l : list Worker) : x ∈ List.filter (fun y => negb (bool_decide (y = w))) l <-> x ∈ l /\ x <> w.
Proof. rewrite !list_elem_of_In, filter_In, negb_true_iff, bool_decide_eq_false. done. Qed.

(** One label, on each part of the state. *)
Lemma gstep_parts (g g' : Group) (l : label) :
  gstep g l g' -> NoDup (gp_running g) ->
  NoDup (gp_running g') /\
  gp_elected g' = gp_elected g || is_leader l /\
  gp_cancelled g' = gp_cancelled g || stops l /\
  gp_err g' = match gp_err g with None => error_of l | Some e => Some e end /\
  ((if is_return l then 1 else 0) + length (gp_running g') = length (gp_running g))%nat /\
  (Operator ∈ gp_running g -> gp_elected g' = false -> Operator ∈ gp_running g').
Proof.
  intros H Hnd. destruct H as [g|g|g w e Hin Hmay]; cbn.
  - rewrite !orb_false_r, orb_true_r. split_and!; try done. by destruct (gp_err g).
  - rewrite !orb_false_r, orb_true_r. split_and!; try done. by destruct (gp_err g).
  - assert (Hf : NoDup (List.filter (fun x => negb (bool_decide (x = w))) (gp_running g))).
    { apply NoDup_ListNoDup, List.NoDup_filter. by apply NoDup_ListNoDup. }
    pose proof (filter_out_length w (gp_running g) Hnd Hin) as Hlen.
    assert (Hop : Operator ∈ gp_running g -> gp_elected g = false -> Operator ∈ List.filter (fun x => negb (bool_decide (x = w))) (gp_running g)).
    { intros Ho He. apply filter_out_in. split; [done|]. intros <-. cbn in Hmay. destruct Hmay. congruence. }
    unfold returned. destruct e as [e|]; cbn; rewrite ?orb_false_r, ?orb_true_r; split_and!; try done; by destruct (gp_err g).
Qed.

Lemma gsteps_parts (g g' : Group) (ls : list label) :
  gsteps g ls g' -> NoDup (gp_running g) ->
  gp_elected g' = gp_elected g || existsb is_leader ls /\
  gp_cancelled g' = gp_cancelled g || existsb stops ls /\
  gp_err g' = match gp_err g with None => first_error ls | Some e => Some e end /\
  (length (List.filter is_return ls) + length (gp_running g') = length (gp_running g))%nat /\
  (Operator ∈ gp_running g -> gp_elected g' = false -> Operator ∈ gp_running g').
Proof.
  induction 1 as [g|g l g1 ls g2 Hl Hls IH]; intros Hnd.
  - cbn. rewrite !orb_false_r. split_and!; try done. by destruct (gp_err g).
  - destruct (gstep_parts g g1 l Hl Hnd) as (Hnd1 & He & Hc & Herr & Hn & Ho).
    destruct (IH Hnd1) as (He' & Hc' & Herr' & Hn' & Ho'). cbn [existsb List.filter].
    rewrite He', He, Hc', Hc, Herr', Herr. rewrite <- !orb_assoc. split_and!; try done.
    + unfold first_error. cbn. destruct (gp_err g); [done|]. by destruct (error_of l).
    + destruct (is_return l); cbn [length]; lia.
    + intros Hin Hel. apply Ho'; [|by rewrite He', He, <- orb_assoc].
      apply Ho; [done|]. rewrite He. rewrite !orb_false_iff in *. naive_solver.
Qed.

Lemma workers_nodup (nats durable : bool) : NoDup (workers nats durable) /\ Operator ∈ workers nats durable.
Proof. destruct nats, durable; (split; [apply (bool_decide_unpack _); by vm_compute|set_solver]). Qed.


(** A signal while nobody has won an election yet. *)
Definition told_to_stop : Group := mkGroup (workers true true) true None None false.


(** ** What the waits come to *)

(** The waits between elections are never reset: 5 minutes from the seventh on. *)
Lemma backoff_settles (n : nat) : (6 <= n)%nat -> Nat.iter n next_backoff 5%Z = 300%Z.
Proof.
  intros Hn. replace n with ((n - 6) + 6)%nat by lia. generalize (n - 6)%nat. intros k. rewrite Nat.iter_add.
  change (Nat.iter 6 next_backoff 5%Z) with 300%Z. induction k as [|k IH]; [done|]. cbn [Nat.iter nat_rect]. unfold Nat.iter in IH. by rewrite IH.
Qed.

(** Examples: a broker whose connection has no JetStream, and a port that is taken. *)
Definition sample_machine (env : list (string * string)) (jetstream_new controller : error) (listen : result goerror string) : Machine := {|
  mc_name := "common-module"; mc_version := "1.2.3";
  getenv := fun k => match List.find (fun kv => kv.1 =? k) (("HOSTNAME", "pod-1") :: env) with Some kv => kv.2 | None => "" end;
  mc_configure_telemetry := None; mc_flags_config := Ok true; mc_cluster_config := Ok true;
  mc_new_manager := None; mc_core_client := None; mc_lock := None; mc_elector := None;
  mc_nats_connect := None; mc_jetstream_new := jetstream_new; mc_edge_stream := None; mc_sysmsg_stream := None; mc_exec_kv := None;
  mc_resource_manager := None; mc_listen := listen;
  mc_node_controller := controller; mc_module_controller := None; mc_component_controller := None; mc_healthz := None; mc_readyz := None;
  mc_create_module := None; mc_components := [("http", None); ("", Some (ErrorString "component name is invalid"))];
|}.

Example sample_start :
  boot (sample_machine [] None None (Ok "[::]:41234")) =
    ([Spawned LeaderLoop; Spawned GrpcServer; Registered "127.0.0.1:41234"; Installed "http"; NotInstalled "";
      Spawned ResourceManager; Spawned Operator; Spawned ClientPool; Spawned SchedulerLoop],
     inr [LeaderLoop; GrpcServer; ResourceManager; Operator; ClientPool; SchedulerLoop]).
Proof. vm_compute. reflexivity. Qed.

(** A port that is taken leaves the process waiting; a broker without JetStream
    and a controller that cannot be set up end it with exit code 0. *)
Example failures_that_look_like_success :
  let broker := [("TINY_NATS_URL", "nats://n"); ("TINY_NATS_TRANSPORT", "jetstream")] in
  boot (sample_machine [] None None (Err (ErrorString "address already in use"))) = ([Spawned LeaderLoop; Spawned GrpcServer], inl Blocked) /\
  boot (sample_machine broker (Some (ErrorString "no JetStream")) None (Ok ":1")) = ([Spawned LeaderLoop; Flushed], inl Recovered) /\
  boot (sample_machine broker None (Some (ErrorString "no kind")) (Ok ":1")) =
    ([Spawned LeaderLoop; EnsuredEdge; EnsuredSysmsg; EnsuredExecKV; Spawned RunReconciler; Spawned NatsReceiver; Spawned SysReceiver; Flushed], inl Return).
Proof. vm_compute. split_and!; reflexivity. Qed.
