(* ===== verification/Commands.v ===== *)
(** * What a module is written with, and the commands of its binary

    The helper a component embeds, what a module registers and declares
    ([module], [registry]); the services its chart brings along
    ([pkg/bundle]); what its binary says of its components and its access, and
    the hooks of its chart ([cli]). *)
From S2P Require Import Prelude GoErrors Json Names Authoring Rules Rbac.

Open Scope string_scope.
Open Scope list_scope.

(** * What a module is written with

    [module/base.go]: the helper a component embeds to keep what it is given.
    [registry/collection.go]: what a module's packages register before it runs.
    [module/requirements.go], [definition.go], [agent_tool.go]: what a module
    and a component declare. The interfaces a component implements are the
    fields of [World.Component]. *)

(** ** Declarations *)

Record AgentToolInfo := mkAgentTool { at_Name : string; at_Description : string; at_InputPort : string; at_OutputPort : string }.

Record ComponentDefinition := mkDefinition {
  df_Name : string; df_Description : string; df_Info : string; df_Script : string;
  df_InputSchema : string; df_OutputSchema : string; df_EnableErrorPort : bool; df_TimeoutSeconds : Z }.

Record RBACRule := mkRule { rr_APIGroups : list string; rr_Resources : list string; rr_Verbs : list string }.
Record RBACRequirements := mkRBAC {
  rb_EnableKubernetesResourceAccess : bool; rb_ExtraRules : list RBACRule; rb_ExtraNamespacedRules : list RBACRule }.
Record StorageRequirements := mkStorage { sr_Enabled : bool; sr_Size : string; sr_StorageClassName : string }.
Record SecretRequirements := mkSecrets { sq_Names : list string }.

Section kit.
  (** Go values of any type. *)
  Variable V : Type.

Record Bundle := mkBundle {
  bd_Name : string; bd_Description : string; bd_ChartRepo : string; bd_ChartName : string; bd_ChartVersion : string;
  bd_DefaultEnabled : bool; bd_ConnectionHint : string; bd_Values : gmap string V; bd_ExposedSchema : gmap string V;
  bd_ValuesYAML : string }.

Record Requirements := mkRequirements {
  rq_RBAC : RBACRequirements; rq_Storage : StorageRequirements; rq_Bundles : list Bundle; rq_Secrets : SecretRequirements }.
End kit.
Arguments mkRequirements {V}. Arguments rq_RBAC {V}.

(** ** The registry

    Package variables, written by [init] functions one after the other. *)
Section registry.
  Context {V Component Factory : Type}.

Record Registry := mkRegistry {
  defaultCollection : list Component;
  moduleRequirements : option (Requirements V);
  runtimeFactories : gmap string Factory }.

Definition empty_registry : Registry := mkRegistry [] None ∅.

Definition Register (c : Component) (r : Registry) : Registry :=
  mkRegistry (defaultCollection r ++ [c])%list (moduleRequirements r) (runtimeFactories r).
Definition Get (r : Registry) : list Component := defaultCollection r.
Definition SetRequirements (q : Requirements V) (r : Registry) : Registry :=
  mkRegistry (defaultCollection r) (Some q) (runtimeFactories r).
Definition GetRequirements (r : Registry) : option (Requirements V) := moduleRequirements r.

(** A factory may be nil. *)
Definition RegisterRuntime (runtime : string) (f : option Factory) (r : Registry) : Registry :=
  match f with
  | Some f => if runtime =? "" then r
              else mkRegistry (defaultCollection r) (moduleRequirements r) (<[runtime := f]> (runtimeFactories r))
  | None => r
  end.
Definition GetRuntime (runtime : string) (r : Registry) : option Factory := runtimeFactories r !! runtime.
Definition Runtimes `{MapRange Factory} (r : Registry) : list string := (map_range (runtimeFactories r)).*1.

Inductive registration : Type :=
| Registers (c : Component)
| Requires (q : Requirements V)
| Implements (runtime : string) (f : option Factory).

Definition register (r : Registry) (x : registration) : Registry :=
  match x with
  | Registers c => Register c r
  | Requires q => SetRequirements q r
  | Implements runtime f => RegisterRuntime runtime f r
  end.

(** What the registrations add up to: every component in order, the last
    requirements, and for each runtime name the last factory. *)
Definition last_factory (runtime : string) (xs : list registration) : option Factory :=
  last (omap (fun x => match x with Implements n f => if (n =? runtime) && negb (n =? "") then f else None | _ => None end) xs).

Lemma registry_keeps_what_was_registered (xs : list registration) (runtime : string) :
  let r := fold_left register xs empty_registry in
  Get r = omap (fun x => match x with Registers c => Some c | _ => None end) xs /\
  GetRequirements r = last (omap (fun x => match x with Requires q => Some q | _ => None end) xs) /\
  GetRuntime runtime r = last_factory runtime xs.
Proof.
  cbn zeta. induction xs as [|x xs IH] using rev_ind; [done|]. destruct IH as (H1 & H2 & H3).
  rewrite fold_left_app. cbn [fold_left]. unfold last_factory in *. rewrite !omap_app. cbn [omap list_omap].
  destruct x as [c|q|n [f|]]; cbn [register]; rewrite ?app_nil_r.
  - unfold Get, GetRequirements, GetRuntime in *. cbn. by rewrite H1.
  - unfold Get, GetRequirements, GetRuntime in *. cbn. by rewrite last_snoc.
  - unfold Get, GetRequirements, GetRuntime, RegisterRuntime in *. cbn.
    destruct (String.eqb_spec n "") as [->|Hn]; cbn [defaultCollection moduleRequirements runtimeFactories]; rewrite ?andb_false_r, ?andb_true_r, ?app_nil_r.
    + by split_and!.
    + split_and!; try done. destruct (String.eqb_spec n runtime) as [->|Hne]; cbn.
      * by rewrite lookup_insert_eq, last_snoc.
      * by rewrite lookup_insert_ne, app_nil_r.
  - cbn. unfold Get, GetRequirements, GetRuntime in *. split_and!; try done.
    destruct ((n =? runtime) && negb (n =? "")); by rewrite app_nil_r.
Qed.
End registry.

(** ** The embedded helper

    The state backend, the identity, the client and the emitter, as they are
    given; nil before. *)
Section base.
  Context {St Id Cl A V : Type}.
  Abbreviation Emitter_ := (string -> A -> Result V).

Record Base := mkBase { ba_state : option St; ba_identity : Id; ba_client : option Cl; ba_emit : option Emitter_ }.

Definition OnState (s : option St) (b : Base) : Base := mkBase s (ba_identity b) (ba_client b) (ba_emit b).
Definition OnIdentity (i : Id) (b : Base) : Base := mkBase (ba_state b) i (ba_client b) (ba_emit b).
Definition OnClient (c : option Cl) (b : Base) : Base := mkBase (ba_state b) (ba_identity b) c (ba_emit b).
Definition OnEmitter (e : option Emitter_) (b : Base) : Base := mkBase (ba_state b) (ba_identity b) (ba_client b) e.

(** A zero result without an emitter: success, and nothing was sent. *)
Definition Emit (b : Base) (port : string) (data : A) : Result V :=
  match ba_emit b with None => mkResult AnyNil | Some e => e port data end.
End base.

(** * The services a module is deployed with

    [pkg/bundle/bundle.go]: the addresses of the releases a module's chart
    brings along, from the environment the chart injects. The escaping of
    [net/url] is the standard library's and modelled here; the theorem reads a
    connection string back the way [net/url] parses it. *)

(** ** [net/url] *)

Definition hex_digit (n : N) : ascii := ascii_of_N (if (n <? 10)%N then 48 + n else 55 + n).
Definition percent (c : ascii) (rest : string) : string :=
  String "%" (String (hex_digit (N_of_ascii c / 16)) (String (hex_digit (N_of_ascii c mod 16)) rest)).

Definition unreserved (c : ascii) : bool :=
  is_alnum c || Ascii.eqb c "-" || Ascii.eqb c "_" || Ascii.eqb c "." || Ascii.eqb c "~".

Fixpoint QueryEscape (s : string) : string :=
  match s with
  | EmptyString => ""
  | String c s' =>
      if Ascii.eqb c " " then String "+" (QueryEscape s')
      else if unreserved c then String c (QueryEscape s')
      else percent c (QueryEscape s')
  end.

(** A path segment keeps some of the reserved characters. *)
Definition segment_char (c : ascii) : bool :=
  unreserved c || Ascii.eqb c "$" || Ascii.eqb c "&" || Ascii.eqb c "+" || Ascii.eqb c ":" || Ascii.eqb c "=" || Ascii.eqb c "@".

Fixpoint PathEscape (s : string) : string :=
  match s with
  | EmptyString => ""
  | String c s' => if segment_char c then String c (PathEscape s') else percent c (PathEscape s')
  end.

(** The value of a hexadecimal digit. *)
Definition unhex (c : ascii) : option N :=
  if is_digit c then Some (N_of_ascii c - 48)%N
  else if in_range "A" "F" c then Some (N_of_ascii c - 55)%N
  else if in_range "a" "f" c then Some (N_of_ascii c - 87)%N
  else None.

(** Unescaping outside a query: a plus sign is itself. *)
Fixpoint unescape (s : string) : option string :=
  match s with
  | EmptyString => Some ""
  | String "%" (String a (String b s')) =>
      match unhex a, unhex b with
      | Some x, Some y => String (ascii_of_N (16 * x + y)) <$> unescape s'
      | _, _ => None
      end
  | String "%" _ => None
  | String c s' => String c <$> unescape s'
  end.

(** The user and password of a URL's authority. *)
Definition userinfo (dsn : string) : option (string * string) :=
  let rest := go_trim_prefix dsn "postgres://" in
  let authority := match go_cut "/" rest with Some (a, _) => a | None => rest end in
  match go_cut_last "@" authority with
  | None => None
  | Some (info, _) =>
      match go_cut ":" info with
      | None => None
      | Some (user, pass) => u ← unescape user; p ← unescape pass; Some (u, p)
      end
  end.

(** ** The package *)

Definition DefaultPort : Z := 80.

Definition upper_ascii (c : ascii) : ascii := if is_lower c then ascii_of_N (N_of_ascii c - 32) else c.
(** [strings.ToUpper] on the ASCII range. *)
Definition go_to_upper (s : string) : string := string_map upper_ascii s.

Section env.
  Variable LookupEnv : string -> option string.   (* os *)

Definition Getenv (k : string) : string := default "" (LookupEnv k).

Definition release_name : option string :=
  match LookupEnv "RELEASE_NAME" with None | Some "" => None | Some r => Some r end.

Definition URL (name : string) : result goerror string :=
  match release_name with
  | None => Err (ErrorString ("bundle.URL(" +:+ go_quote name +:+ "): RELEASE_NAME env not set — module not running inside the operator chart? Set a manual override via the component's settings.baseURL"))
  | Some release => Ok ("http://" +:+ release +:+ "-" +:+ name +:+ ":" +:+ go_itoa DefaultPort)
  end.

Definition URLOr (name fallback : string) : string := match URL name with Ok url => url | Err _ => fallback end.

Definition env_prefix (name : string) : string := "BUNDLE_" +:+ go_to_upper (go_replace_char "-" "_" name).

Definition bundle_host (name : string) : result goerror string :=
  let prefix := env_prefix name in
  let host := Getenv (prefix +:+ "_HOST") in
  if negb (host =? "") then Ok host
  else match release_name with
       | None => Err (ErrorString ("bundle.PostgresDSN(" +:+ go_quote name +:+ "): RELEASE_NAME env not set and no " +:+ prefix +:+ "_HOST override"))
       | Some release => Ok (release +:+ "-" +:+ name)
       end.

Definition dsn (user pass host db : string) : string :=
  "postgres://" +:+ QueryEscape user +:+ ":" +:+ QueryEscape pass +:+ "@" +:+ host +:+ ":5432/" +:+ PathEscape db +:+ "?sslmode=disable".

Definition PostgresDSN (name : string) : result goerror string :=
  let prefix := env_prefix name in
  let user := Getenv (prefix +:+ "_USER") in
  let pass := Getenv (prefix +:+ "_PASSWORD") in
  let db := Getenv (prefix +:+ "_DB") in
  if (user =? "") || (pass =? "") || (db =? "") then
    Err (ErrorString ("bundle.PostgresDSN(" +:+ go_quote name +:+ "): " +:+ prefix +:+
           "_USER/_PASSWORD/_DB env not set — bundle disabled or module not running inside the operator chart; supply a DSN explicitly"))
  else (let! host := bundle_host name in Ok (dsn user pass host db))%go.

Definition Namespace : string := Getenv "RELEASE_NAMESPACE".
Definition Release : string := Getenv "RELEASE_NAME".
End env.

(** ** Credentials survive *)

(** What the escaping writes is not what delimits an authority. *)
Definition delimiter (c : ascii) : bool := Ascii.eqb c "/" || Ascii.eqb c "@" || Ascii.eqb c ":".

Lemma unreserved_plain (c : ascii) : implb (unreserved c) (negb (delimiter c) && negb (Ascii.eqb c "%")) = true.
Proof. revert c. apply ascii_forall. by vm_compute. Qed.

Lemma percent_digits (c : ascii) :
  let a := hex_digit (N_of_ascii c / 16) in let b := hex_digit (N_of_ascii c mod 16) in
  negb (delimiter a) && negb (delimiter b) &&
  match unhex a, unhex b with Some x, Some y => Ascii.eqb (ascii_of_N (16 * x + y)) c | _, _ => false end = true.
Proof.
  cbv zeta. revert c. apply (ascii_forall (fun c => negb (delimiter (hex_digit (N_of_ascii c / 16))) &&
    negb (delimiter (hex_digit (N_of_ascii c mod 16))) &&
    match unhex (hex_digit (N_of_ascii c / 16)), unhex (hex_digit (N_of_ascii c mod 16)) with
    | Some x, Some y => Ascii.eqb (ascii_of_N (16 * x + y)) c | _, _ => false end)). by vm_compute.
Qed.

Lemma escape_no_delimiter (d : ascii) (s : string) : delimiter d = true -> str_has d (QueryEscape s) = false.
Proof.
  intros Hd. assert (Hne : forall c, delimiter c = false -> Ascii.eqb c d = false).
  { intros c Hc. destruct (Ascii.eqb_spec c d) as [->|]; [congruence|done]. }
  induction s as [|c s IH]; [done|]. cbn [QueryEscape].
  destruct (Ascii.eqb c " "); [cbn [str_has]; by rewrite (Hne "+"%char)|].
  destruct (unreserved c) eqn:Eu.
  - pose proof (unreserved_plain c) as Hp. rewrite Eu in Hp. cbn in Hp. apply andb_true_iff in Hp as [Hp%negb_true_iff _].
    cbn [str_has]. by rewrite Hne.
  - pose proof (percent_digits c) as Hp. cbv zeta in Hp. rewrite !andb_true_iff, !negb_true_iff in Hp. destruct Hp as [[Ha Hb] _].
    unfold percent. cbn [str_has]. by rewrite (Hne "%"%char), !Hne.
Qed.

Lemma unescape_escape (s : string) : str_has " " s = false -> unescape (QueryEscape s) = Some s.
Proof.
  induction s as [|c s IH]; [done|]. cbn [str_has]. destruct (Ascii.eqb c " ") eqn:Es; [done|]. intros H. specialize (IH H).
  cbn [QueryEscape]. rewrite Es. destruct (unreserved c) eqn:Eu.
  - pose proof (unreserved_plain c) as Hp. rewrite Eu in Hp. cbn in Hp. apply andb_true_iff in Hp as [_ Hp%negb_true_iff].
    cbn [unescape]. rewrite IH. by destruct c as [[] [] [] [] [] [] [] []].
  - pose proof (percent_digits c) as Hp. cbv zeta in Hp. rewrite !andb_true_iff in Hp. destruct Hp as [_ Hp].
    unfold percent. cbn [unescape]. destruct (unhex _) as [x|]; [|done]. destruct (unhex _) as [y|]; [|done].
    apply Ascii.eqb_eq in Hp. by rewrite Hp, IH.
Qed.

(** The connection string of a bundle carries its credentials: whatever the
    user and the password hold, blanks apart, a parser of URLs reads them back,
    where the host has no slash and no at sign. *)
Theorem postgres_credentials_roundtrip (LookupEnv : string -> option string) (name user pass host : string) :
  Getenv LookupEnv (env_prefix name +:+ "_USER") = user -> Getenv LookupEnv (env_prefix name +:+ "_PASSWORD") = pass ->
  user <> "" -> pass <> "" -> Getenv LookupEnv (env_prefix name +:+ "_DB") <> "" ->
  bundle_host LookupEnv name = Ok host -> str_has "/" host = false -> str_has "@" host = false ->
  str_has " " user = false -> str_has " " pass = false ->
  exists s, PostgresDSN LookupEnv name = Ok s /\ userinfo s = Some (user, pass).
Proof.
  intros Hu Hp Hun Hpn Hdb Hh Hslash Hat Hub Hpb. unfold PostgresDSN. rewrite Hu, Hp, Hh.
  apply String.eqb_neq in Hun, Hpn, Hdb. rewrite Hun, Hpn, Hdb. eexists. split; [reflexivity|].
  unfold userinfo, dsn. rewrite trim_prefix_app.
  set (info := QueryEscape user +:+ ":" +:+ QueryEscape pass).
  set (tail := PathEscape (Getenv LookupEnv (env_prefix name +:+ "_DB")) +:+ "?sslmode=disable").
  replace (QueryEscape user +:+ ":" +:+ QueryEscape pass +:+ "@" +:+ host +:+ ":5432/" +:+ tail)
    with ((info +:+ String "@" (host +:+ ":5432")) +:+ String "/" tail)
    by (unfold info; by repeat rewrite ?str_app_assoc, ?str_app_cons).
  assert (Hno : forall d, delimiter d = true -> str_has d (QueryEscape user) = false /\ str_has d (QueryEscape pass) = false)
    by (intros d Hd; split; by apply escape_no_delimiter).
  rewrite go_cut_app.
  2:{ unfold info. rewrite !str_has_app. destruct (Hno "/"%char eq_refl) as [-> ->]. cbn. rewrite str_has_app. by rewrite Hslash. }
  rewrite go_cut_last_app by (rewrite str_has_app; by rewrite Hat).
  unfold info. change (":" +:+ QueryEscape pass) with (String ":" (QueryEscape pass)).
  rewrite go_cut_app by by destruct (Hno ":"%char eq_refl). by rewrite !unescape_escape.
Qed.

(** A blank comes back as a plus sign: the escaping is a query's, the place is
    not. *)
Example blank_becomes_plus : userinfo (dsn "app" "a b" "db" "main") = Some ("app", "a+b").
Proof. by vm_compute. Qed.

Definition demo_env (k : string) : option string :=
  if k =? "BUNDLE_PG_VECTOR_USER" then Some "app" else if k =? "BUNDLE_PG_VECTOR_PASSWORD" then Some "p@ss:w/rd%+"
  else if k =? "BUNDLE_PG_VECTOR_DB" then Some "main" else if k =? "RELEASE_NAME" then Some "rel" else None.

Lemma postgres_credentials_roundtrip_witness :
  exists s, PostgresDSN demo_env "pg-vector" = Ok s /\ userinfo s = Some ("app", "p@ss:w/rd%+").
Proof.
  apply (postgres_credentials_roundtrip demo_env "pg-vector" "app" "p@ss:w/rd%+" "rel-pg-vector");
    (vm_compute; (reflexivity || discriminate)).
Defined.

(** * The commands of a module's binary

    [cli/components.go], [components-info.go]: what a module says about its
    components. [cli/rbac-values.go], [rbac-check.go]: the access it declares,
    rendered for its chart and held against its code. [cli/pre-install.go],
    [pre-delete.go]: the hooks of its chart. What the API server answers and the
    encodings are parameters; a command is the lines it writes and its exit
    code. *)

(** ** Default data without nulls *)

Fixpoint filter_value (v : json) : option json :=
  match v with
  | JNull => None
  | JObj m =>
      match (fix go m := match m with
                         | [] => []
                         | (k, x) :: m' => match filter_value x with Some y => (k, y) :: go m' | None => go m' end
                         end) m with
      | [] => None
      | m' => Some (JObj m')
      end
  | _ => Some v
  end.

Definition filterNullValues (m : obj) : obj := omap (fun kv => pair kv.1 <$> filter_value kv.2) m.

Lemma filter_value_obj (m : obj) :
  filter_value (JObj m) = match filterNullValues m with [] => None | m' => Some (JObj m') end.
Proof.
  cbn [filter_value]. match goal with |- match ?g m with _ => _ end = _ => replace (g m) with (filterNullValues m); [done|] end.
  unfold filterNullValues. induction m as [|[k x] m IH]; [done|]. cbn [omap list_omap fst snd]. rewrite IH.
  by destruct (filter_value x).
Qed.

(** The value a path of keys leads to. *)
Fixpoint value_at (path : list string) (v : json) : option json :=
  match path with
  | [] => Some v
  | k :: path' => match v with JObj m => obj_get k m ≫= value_at path' | _ => None end
  end.

(** Neither null nor an object: what the filter looks no further into. *)
Definition solid (v : json) : bool := match v with JNull | JObj _ => false | _ => true end.

Lemma get_filtered (m : obj) (k : string) : NoDup m.*1 -> obj_get k (filterNullValues m) = obj_get k m ≫= filter_value.
Proof.
  unfold filterNullValues. induction m as [|[k' x] m IH]; [done|]. cbn [fmap list_fmap fst]. intros [Hk Hnd]%NoDup_cons.
  cbn [omap list_omap fst snd]. rewrite obj_get_cons. destruct (String.eqb_spec k' k) as [->|Hne]; cbn [mbind option_bind].
  - destruct (filter_value x) as [y|] eqn:Ex; cbn [fmap option_fmap option_map].
    + by rewrite obj_get_cons, String.eqb_refl.
    + rewrite IH by done. by rewrite obj_get_fresh.
  - destruct (filter_value x); cbn [fmap option_fmap option_map]; [rewrite obj_get_cons|by rewrite IH].
    destruct (String.eqb_spec k' k); [done|by rewrite IH].
Qed.

Lemma member_wf (m : obj) (k : string) (v : json) : json_wf (JObj m) -> obj_get k m = Some v -> json_wf v.
Proof. rewrite json_wf_obj. intros [_ H] Hk%obj_get_in. by apply (proj1 (Forall_forall _ _) H _ Hk). Qed.

Lemma filtered_value (path : list string) (v w : json) : json_wf v -> solid w = true ->
  filter_value v ≫= value_at path = Some w <-> value_at path v = Some w.
Proof.
  revert v. induction path as [|k path IH]; intros v Hwf Hw.
  - destruct v as [| | | |l|m]; try done; [by split; intros [= <-]|].
    rewrite filter_value_obj. destruct (filterNullValues m); cbn; (split; [|by intros [= <-]]); [done|by intros [= <-]].
  - destruct v as [| | | |l|m]; try done. cbn [value_at].
    assert (Hnd : NoDup m.*1) by (by apply json_wf_obj in Hwf as [? _]).
    transitivity (obj_get k (filterNullValues m) ≫= value_at path = Some w).
    + rewrite filter_value_obj. by destruct (filterNullValues m).
    + rewrite get_filtered by done. destruct (obj_get k m) as [x|] eqn:Ek; [|done]. cbn [mbind option_bind].
      apply IH; [by eapply member_wf|done].
Qed.

Lemma filtered_never_empty (v w : json) : filter_value v = Some w -> w <> JNull /\ w <> JObj [].
Proof.
  destruct v as [| | | |l|m]; try (intros [= <-]; done).
  rewrite filter_value_obj. destruct (filterNullValues m) eqn:E; [done|]. by intros [= <-].
Qed.

(** The default data of a port loses its nulls and nothing else: every value
    that is neither null nor an object is found at the same path as before, and
    no others; and no null and no object without members is left below any
    path of objects. *)
Theorem default_data_without_nulls (m : obj) :
  json_wf (JObj m) ->
  (forall path w, solid w = true -> value_at path (JObj (filterNullValues m)) = Some w <-> value_at path (JObj m) = Some w) /\
  (forall k path w, value_at (k :: path) (JObj (filterNullValues m)) = Some w -> w <> JNull /\ w <> JObj []).
Proof.
  intros Hwf. assert (Hnd : NoDup m.*1) by (by apply json_wf_obj in Hwf as [? _]). split.
  - intros path w Hw. destruct path as [|k path]; [cbn; split; by intros [= <-]|]. cbn [value_at].
    rewrite get_filtered by done. destruct (obj_get k m) as [x|] eqn:Ek; [|done]. cbn [mbind option_bind].
    apply filtered_value; [by eapply member_wf|done].
  - intros k path. revert k m Hwf Hnd. induction path as [|k' path IH]; intros k m Hwf Hnd w; cbn [value_at];
      rewrite get_filtered by done; destruct (obj_get k m) as [x|] eqn:Ek; try done; cbn [mbind option_bind];
      destruct (filter_value x) as [y|] eqn:Ex; try done; cbn [mbind option_bind].
    + intros [= <-]. by eapply filtered_never_empty.
    + assert (Hx : json_wf x) by (by eapply member_wf).
      destruct x as [| | | |l|mx]; try (injection Ex as <-; done); [done|].
      rewrite filter_value_obj in Ex. destruct (filterNullValues mx) eqn:Em; [done|]. injection Ex as <-. rewrite <- Em.
      intros Hv. apply (IH k' mx); [done|by apply json_wf_obj in Hx as [? _]|]. exact Hv.
Qed.

Definition sample_data : obj :=
  [("url", JNull); ("headers", JObj [("auth", JNull)]); ("retry", JObj [("max", JNum "3"); ("after", JNull)]);
   ("list", JArr [JObj [("name", JNull)]])].

Lemma default_data_without_nulls_witness :
  json_wf (JObj sample_data) /\ value_at ["retry"; "max"] (JObj (filterNullValues sample_data)) = Some (JNum "3").
Proof.
  assert (H : json_wf (JObj sample_data)) by (cbn; repeat split; try (apply (bool_decide_unpack _); vm_compute; exact I)).
  split; [exact H|]. by apply (proj1 (default_data_without_nulls sample_data H) ["retry"; "max"] (JNum "3")).
Defined.

(** Nulls in arrays stay, where the schema of an OpenAPI document allows none. *)
Example nulls_in_arrays_stay :
  filterNullValues sample_data = [("retry", JObj [("max", JNum "3")]); ("list", JArr [JObj [("name", JNull)]])].
Proof. reflexivity. Qed.

(** ** What a module says about its components *)

Definition AgentToolTag : string := "agent_tool".
Definition SyncRPCTag : string := "sync_rpc".

Record ComponentInfo_ := mkInfo { ci_Name : string; ci_Description : string; ci_Info : string; ci_Tags : list string }.

Definition add_tag (t : string) (tags : list string) : list string := if existsb (String.eqb t) tags then tags else tags ++ [t].

(** [json.Unmarshal] into a map: null is a nil map. *)
Definition into_map (v : json) : option obj := match v with JObj m => Some m | JNull => Some [] | _ => None end.

Section introspection.
  (** The configuration of a port, its schema and its encoding, where they have one. *)
  Context {A : Type}.
  Variable create_schema encode : A -> option json.

Record PortInfo := mkPortInfo { pt_Name : string; pt_Source : bool; pt_Label : string; pt_Position : Z; pt_Configuration : option A }.

(** A component with the capabilities it declares. *)
Record Introspected := mkIntrospected {
  ic_Info : ComponentInfo_; ic_AgentTool : option AgentToolInfo; ic_SyncRPC : bool; ic_Ports : list PortInfo }.

Definition agent_info (a : option AgentToolInfo) (i : ComponentInfo_) : ComponentInfo_ :=
  match a with
  | None => i
  | Some t => mkInfo (ci_Name i) (ci_Description i) (if at_Description t =? "" then ci_Info i else at_Description t)
                (add_tag AgentToolTag (ci_Tags i))
  end.
Definition sync_info (s : bool) (i : ComponentInfo_) : ComponentInfo_ :=
  if s then mkInfo (ci_Name i) (ci_Description i) (ci_Info i) (add_tag SyncRPCTag (ci_Tags i)) else i.

Definition default_data (c : A) : option obj :=
  match encode c ≫= into_map with
  | None => None
  | Some m => match filterNullValues m with [] => None | m' => Some m' end
  end.

Definition port_shape (p : PortInfo) : componentPortShape :=
  mkPortShape (pt_Name p) (if pt_Label p =? "" then None else Some (pt_Label p)) (pt_Source p) (Some (pt_Position p))
    (c ← pt_Configuration p; create_schema c ≫= into_map) (pt_Configuration p ≫= default_data).

Definition getComponentApi (c : Introspected) : componentShape :=
  let i := sync_info (ic_SyncRPC c) (agent_info (ic_AgentTool c) (ic_Info c)) in
  mkShape (ci_Name i) (ci_Description i) (Some (ci_Info i)) (Some (ci_Tags i)) (Some (map port_shape (ic_Ports c))).

Definition collectComponentsApi (registered : list Introspected) : list componentShape := map getComponentApi registered.

(** [tools components-info]: the shape of the index, or the warnings. *)
Definition discovery (c : componentShape) : json :=
  let member k s := if s =? "" then [] else [(k, JStr s)] in
  JObj ([("name", JStr (cs_Name c))] ++ member "description" (cs_Description c) ++ member "info" (default "" (cs_Info c)) ++
        match default [] (cs_Tags c) with [] => [] | tags => [("tags", JArr (map JStr tags))] end).

Definition components_info (as_json : bool) (registered : list Introspected) : list json + list string :=
  if as_json then inl (map discovery (collectComponentsApi registered))
  else inr (validateErrorPorts (collectComponentsApi registered)).

(** Each capability is a tag, once, and no tag of the author's is lost. *)
Lemma add_tag_in (t x : string) (tags : list string) : x ∈ add_tag t tags <-> x = t \/ x ∈ tags.
Proof.
  unfold add_tag. destruct (existsb (String.eqb t) tags) eqn:E; [|set_solver].
  apply existsb_exists in E as (y & Hin%list_elem_of_In & ->%String.eqb_eq). set_solver.
Qed.

Lemma add_tag_nodup (t : string) (tags : list string) : NoDup tags -> NoDup (add_tag t tags).
Proof.
  unfold add_tag. destruct (existsb (String.eqb t) tags) eqn:E; [done|]. intros H. apply NoDup_app. split_and!; [done| |apply NoDup_singleton].
  intros x Hx ->%list_elem_of_singleton. apply not_true_iff_false in E. apply E. apply existsb_exists. exists t.
  split; [by apply list_elem_of_In|apply String.eqb_refl].
Qed.

Lemma capabilities_are_tags (c : Introspected) :
  exists tags, cs_Tags (getComponentApi c) = Some tags /\ (NoDup (ci_Tags (ic_Info c)) -> NoDup tags) /\
    (forall x, x ∈ tags <-> x ∈ ci_Tags (ic_Info c) \/ (x = AgentToolTag /\ is_Some (ic_AgentTool c)) \/ (x = SyncRPCTag /\ ic_SyncRPC c = true)).
Proof.
  destruct c as [i a s ps]. unfold getComponentApi. cbn [cs_Tags ic_Info ic_AgentTool ic_SyncRPC]. eexists. split; [done|].
  assert (Ha : forall x, x ∈ ci_Tags (agent_info a i) <-> x ∈ ci_Tags i \/ (x = AgentToolTag /\ is_Some a)).
  { intros x. destruct a; cbn; [rewrite add_tag_in; unfold is_Some; naive_solver|]. split; [by left|]. by intros [|[_ [? ?]]]. }
  split.
  - intros Hnd. assert (Hnd' : NoDup (ci_Tags (agent_info a i))) by (destruct a; [by apply add_tag_nodup|done]).
    destruct s; [by apply add_tag_nodup|done].
  - intros x. destruct s; cbn; [rewrite add_tag_in, Ha|rewrite Ha]; naive_solver.
Qed.
End introspection.

(** ** Declared access *)

Definition declares_access (r : RBACRequirements) : bool :=
  rb_EnableKubernetesResourceAccess r || negb (bool_decide (rb_ExtraRules r = [])) || negb (bool_decide (rb_ExtraNamespacedRules r = [])).

(** [tools rbac-values]: the overlay that is written, and the exit code. *)
Definition rbac_values {V} (yaml : RBACRequirements -> result goerror string) (reqs : option (Requirements V)) : string * Z :=
  match reqs with
  | Some q => if declares_access (rq_RBAC q) then match yaml (rq_RBAC q) with Ok out => (out, 0%Z) | Err _ => ("", 1%Z) end else ("", 0%Z)
  | None => ("", 0%Z)
  end.

Definition rule_of (r : RBACRule) : rule := (rr_APIGroups r, rr_Resources r, rr_Verbs r).

(** [tools rbac-check], of the calls that were resolved. *)
Definition rbac_check {V} `{SliceSort} (strict : bool) (reqs : option (Requirements V)) (calls : result goerror (list ClientCall))
    : list RBACFinding * Z :=
  let '(enableBase, extra) :=
    match reqs with
    | Some q => (rb_EnableKubernetesResourceAccess (rq_RBAC q), map rule_of (rb_ExtraRules (rq_RBAC q)))
    | None => (false, [])
    end in
  match calls with
  | Err _ => ([], 1%Z)
  | Ok calls =>
      match CheckRBACCoverage calls (DeclaredRules enableBase extra) with
      | [] => ([], 0%Z)
      | findings => (findings, if strict then 1%Z else 0%Z)
      end
  end.

(** What a module declares for its own namespace is in its overlay, and the
    check reports the call it is declared for. *)
Example namespaced_rules_reported `{SliceSort} :
  let reqs : Requirements unit := mkRequirements
    (mkRBAC false [] [mkRule [""] ["secrets"] ["get"]]) (mkStorage false "" "") [] (mkSecrets []) in
  let call := mkClientCall "Get" (Some "sigs.k8s.io/controller-runtime/pkg/client.Client") [Some (NamedType (Some "k8s.io/api/core/v1") "Secret")] "main.go:1" in
  (rbac_values (fun _ => Ok "rbac: ...") (Some reqs)).1 = "rbac: ..." /\
  (rbac_check true (Some reqs) (Ok [call])).2 = 1%Z.
Proof.
  cbn zeta. split; [reflexivity|]. unfold rbac_check, CheckRBACCoverage.
  match goal with |- context [slice_sort finding_less ?l] => pose proof (slice_sort_perm _ finding_less l) as Hp; destruct (slice_sort finding_less l) end.
  - apply Permutation_nil_l in Hp. by vm_compute in Hp.
  - done.
Qed.

(** ** Hooks *)

Definition reservedNamespaces : list string := ["default"; "kube-system"; "kube-public"; "kube-node-lease"].
Definition managedLabelKey : string := "tinysystems.io/managed".

Definition line_feed : string := String (ascii_of_nat 10) "".

Section hooks.
  Variable IsNotFound IsForbidden : goerror -> bool.

(** The namespace that is asked for, with its labels. *)
Record Hook := mkHook {
  hk_config : error; hk_client : error; hk_get : string -> result goerror (gmap string string) }.

Definition validateNamespace (h : Hook) (ns : string) : error :=
  if ns =? "" then Some (ErrorString "pre-install: RELEASE_NAMESPACE is empty — chart Job spec must inject it via the downward API")
  else if existsb (String.eqb ns) reservedNamespaces then
    Some (ErrorString ("pre-install: refusing to install into reserved namespace " +:+ go_quote ns +:+ ". Create a dedicated namespace:" +:+ line_feed +:+
      "  kubectl create namespace tinysystems" +:+ line_feed +:+ "  kubectl label namespace tinysystems " +:+ managedLabelKey +:+ "=true"))
  else match hk_config h with
  | Some e => Some (WrapError "pre-install: failed to load in-cluster config: " e)
  | None =>
  match hk_client h with
  | Some e => Some (WrapError "pre-install: failed to create k8s client: " e)
  | None =>
  match hk_get h ns with
  | Err e =>
      if IsNotFound e then Some (ErrorString ("pre-install: namespace " +:+ go_quote ns +:+ " not found — should have been created by helm --create-namespace"))
      else if IsForbidden e then
        Some (WrapError ("pre-install: pod ServiceAccount lacks 'get' on namespaces — chart must grant a ClusterRole with resourceNames=[" +:+ go_quote ns +:+ "]. Underlying error: ") e)
      else Some (WrapError ("pre-install: get namespace " +:+ ns +:+ ": ") e)
  | Ok labels =>
      if default "" (labels !! managedLabelKey) =? "true" then None
      else Some (ErrorString ("pre-install: namespace " +:+ go_quote ns +:+ " is not labeled for tinysystems. Either label this namespace to dedicate it:" +:+ line_feed +:+
        "  kubectl label namespace " +:+ ns +:+ " " +:+ managedLabelKey +:+ "=true" +:+ line_feed +:+
        "or pick a different namespace already labeled. This prevents accidentally installing modules into namespaces shared with unrelated workloads."))
  end end end.

(** [RELEASE_NAMESPACE], or else the flag; the exit code. *)
Definition pre_install (h : Hook) (release_namespace namespace : string) : Z :=
  match validateNamespace h (if release_namespace =? "" then namespace else release_namespace) with None => 0%Z | Some _ => 1%Z end.

(** [pre-delete]: the object that is deleted, if the command comes so far, and
    whether it reports it deleted. Its exit code is 0 whatever happens. *)
Definition pre_delete (name namespace : string) (config_ok : bool) (new_client : error) (delete : string * string -> error)
    : option (string * string) * bool :=
  if (name =? "") || negb config_ok then (None, false)
  else match new_client with
       | Some _ => (None, false)
       | None =>
           let module := (namespace, SanitizeResourceName name) in
           (Some module, match delete module with None => true | Some e => IsNotFound e end)
       end.

(** A namespace is accepted exactly when it was dedicated, by its label, and is
    none of the cluster's own. *)
Lemma namespace_accepted_iff (h : Hook) (ns : string) :
  validateNamespace h ns = None <->
  ns <> "" /\ ns ∉ reservedNamespaces /\ hk_config h = None /\ hk_client h = None /\
  exists labels, hk_get h ns = Ok labels /\ labels !! managedLabelKey = Some "true".
Proof.
  unfold validateNamespace. destruct (String.eqb_spec ns "") as [->|Hns]; [naive_solver|].
  assert (Hres : existsb (String.eqb ns) reservedNamespaces = true <-> ns ∈ reservedNamespaces).
  { rewrite existsb_exists. setoid_rewrite String.eqb_eq. split; [by intros (x & Hin%list_elem_of_In & ->)|].
    intros Hin. exists ns. by split; [apply list_elem_of_In|]. }
  destruct (existsb _ _); [naive_solver|]. destruct (hk_config h); [naive_solver|]. destruct (hk_client h); [naive_solver|].
  destruct (hk_get h ns) as [labels|e].
  - destruct (labels !! managedLabelKey) as [v|] eqn:El; cbn [default id].
    + destruct (String.eqb_spec v "true") as [->|Hv]; [|naive_solver]. split; [|done]. intros _. split_and!; try done; [|by exists labels].
      intros Hin. by apply Hres in Hin.
    + cbn. split; [done|]. naive_solver.
  - destruct (IsNotFound e), (IsForbidden e); naive_solver.
Qed.
End hooks.
