(* ===== verification/Collector.v ===== *)
(** * Connections a client keeps

    The collector's client and its stream of statistics ([pkg/utils/client.go],
    [stats.go]), and the port forwards to the cluster
    ([pkg/resource/portforward.go]). *)
From S2P Require Import Prelude GoErrors Backoff Cleaning Traces.
From Stdlib Require Import SpecFloat.

Open Scope string_scope.
Open Scope list_scope.

(** * The collector's client

    [pkg/utils/client.go]: the trace service, which makes one client of the
    collector on first use and asks it for recordings. [pkg/utils/stats.go]: the
    stream of live statistics and its retries, requests and answers. The gRPC
    client and the exponential backoff are parameters; what the backoff promises
    is the class [BackOff]. *)

(** ** The stream of statistics *)

Record Event := mkEvent { ev_Metric : string; ev_Value : spec_float; ev_Datetime : Z; ev_Element : string }.

(** One call of the retried function. *)
Inductive StreamEnd : Type :=
| SawDone (e : goerror)                    (* ctx.Done() before a receive *)
| RecvFailed (e : goerror) (canceled : bool).   (* Recv; whether its code is Canceled *)

Inductive Call : Type :=
| NoStream (e : goerror) (canceled : bool)
| Streamed (batches : list (list Event)) (e : StreamEnd).

(** The call, when it came back (since the subscription began) and what the
    context says then and during the wait that may follow. *)
Record Attempt := mkAttempt { at_call : Call; at_elapsed : Z; at_ctx_err : error; at_wait : error }.

(** The result of the function: [backoff.Permanent], nil included, or an error
    to try again. *)
Inductive Verdict : Type := Permanent (e : error) | Transient (e : goerror).

Definition gave_up (a : Attempt) (canceled : bool) : bool := canceled || match at_ctx_err a with Some _ => true | None => false end.

Definition delivered (handler : bool) (batches : list (list Event)) : list (list Event) :=
  if handler then List.filter (fun b => negb (bool_decide (length b = 0%nat))) batches else [].

Definition stream_once (handler : bool) (a : Attempt) : list (list Event) * Verdict :=
  match at_call a with
  | NoStream e canceled => ([], if gave_up a canceled then Permanent (Some e) else Transient e)
  | Streamed batches (SawDone e) => (delivered handler batches, Permanent (Some e))
  | Streamed batches (RecvFailed e canceled) => (delivered handler batches, if gave_up a canceled then Permanent None else Transient e)
  end.

(** What a policy says after a failure, of the number of failures and the time
    since it was started: a wait, or none where its time is over. *)
Class BackOff := {
  next_backoff : nat -> Z -> option Z;
  MaxElapsedTime : Z;
  stops_after : forall n elapsed, (MaxElapsedTime < elapsed)%Z -> next_backoff n elapsed = None;
  waits_within : forall n elapsed d, next_backoff n elapsed = Some d -> (0 <= d)%Z;
}.

(** The batches the handler is called with and the result, or none while the
    attempts that are given do not end it. *)
Fixpoint subscribe_from `{BackOff} (n : nat) (handler : bool) (attempts : list Attempt) : list (list Event) * option error :=
  match attempts with
  | [] => ([], None)
  | a :: attempts' =>
      let '(batches, v) := stream_once handler a in
      match v with
      | Permanent e => (batches, Some e)
      | Transient e =>
          match next_backoff n (at_elapsed a) with
          | None => (batches, Some (Some e))
          | Some _ =>
              match at_wait a with
              | Some e' => (batches, Some (Some e'))
              | None => let '(more, r) := subscribe_from (S n) handler attempts' in (batches ++ more, r)
              end
          end
      end
  end.
Definition Subscribe `{BackOff} : bool -> list Attempt -> list (list Event) * option error := subscribe_from 0.

(** [time.Unix] of the value in seconds, or the event's own milliseconds. *)
Definition ParseEdgeBusyEvent (out_of_range : spec_float -> Z) (event : Event) : option (string * Z) :=
  if ev_Metric event =? EdgeBusyStatKey then
    Some ("", if (0 <? ev_Datetime event)%Z then ev_Datetime event else (duration_of_float out_of_range (ev_Value event) * 1000)%Z)
  else None.

(** Every event that was received is handed on, in order, and a subscription
    ends only by the context, a cancelled stream, or a backoff that stops. *)
Lemma subscription_hands_on `{BackOff} (handler : bool) (attempts : list Attempt) (n : nat) (r : option error) (batches : list (list Event)) :
  subscribe_from n handler attempts = (batches, r) ->
  exists seen rest, attempts = seen ++ rest /\ batches = flat_map (fun a => (stream_once handler a).1) seen /\
    match r with
    | None => rest = [] /\ forall a, a ∈ seen -> exists e, (stream_once handler a).2 = Transient e
    | Some e => exists a, last seen = Some a /\
        ((stream_once handler a).2 = Permanent e \/
         exists t k, (stream_once handler a).2 = Transient t /\ ((next_backoff k (at_elapsed a) = None /\ e = Some t) \/ (at_wait a <> None /\ e = at_wait a)))
    end.
Proof.
  revert n r batches. induction attempts as [|a attempts IH]; intros n r batches; cbn [subscribe_from].
  { intros [= <- <-]. exists [], []. split_and!; try done. by intros a ?%elem_of_nil. }
  assert (Hone : forall e, (batches, r) = ((stream_once handler a).1, Some e) ->
    ((stream_once handler a).2 = Permanent e \/ exists t k, (stream_once handler a).2 = Transient t /\ ((next_backoff k (at_elapsed a) = None /\ e = Some t) \/ (at_wait a <> None /\ e = at_wait a))) ->
    exists seen rest, a :: attempts = seen ++ rest /\ batches = flat_map (fun a => (stream_once handler a).1) seen /\
      match r with None => rest = [] /\ forall a, a ∈ seen -> exists e, (stream_once handler a).2 = Transient e
      | Some e => exists a, last seen = Some a /\
        ((stream_once handler a).2 = Permanent e \/ exists t k, (stream_once handler a).2 = Transient t /\ ((next_backoff k (at_elapsed a) = None /\ e = Some t) \/ (at_wait a <> None /\ e = at_wait a))) end).
  { intros e [= -> ->] Hv. exists [a], attempts. cbn. rewrite app_nil_r. split_and!; try done. by exists a. }
  destruct (stream_once handler a) as [bs v] eqn:Ea. cbn [fst snd] in *. destruct v as [e|e].
  { intros [= <- <-]. apply (Hone e); [done|by left]. }
  destruct (next_backoff n (at_elapsed a)) as [d|] eqn:En.
  2: { intros [= <- <-]. apply (Hone (Some e)); [done|]. right. exists e, n. split; [done|by left]. }
  destruct (at_wait a) as [e'|] eqn:Ew.
  { intros [= <- <-]. apply (Hone (Some e')); [done|]. right. exists e, n. split; [done|]. right. by rewrite ?Ew. }
  destruct (subscribe_from (S n) handler attempts) as [more r'] eqn:Es. intros [= <- <-].
  destruct (IH (S n) r' more Es) as (seen & rest & -> & -> & Hr). exists (a :: seen), rest. cbn [app flat_map]. rewrite Ea. split_and!; try done.
  destruct r' as [e'|].
  - destruct Hr as (b & Hb & Hv). exists b. split; [|done]. destruct seen; [done|]. exact Hb.
  - destruct Hr as [-> Hall]. split; [done|]. intros b [->|Hin]%elem_of_cons; [|by apply Hall]. exists e. by rewrite Ea.
Qed.

(** A stream that breaks when the policy's time since the first call is over is
    not taken up again, however long it had worked. *)
Lemma old_stream_is_given_up `{BackOff} (handler : bool) (batches : list (list Event)) (e : goerror) (elapsed : Z) (rest : list Attempt) :
  (MaxElapsedTime < elapsed)%Z ->
  Subscribe handler (mkAttempt (Streamed batches (RecvFailed e false)) elapsed None None :: rest) = (delivered handler batches, Some (Some e)).
Proof. intros Ht. unfold Subscribe. cbn. by rewrite stops_after. Qed.

(** The default policy of the library gives up after 15 minutes: a stream that
    ran for 16 and broke. *)
#[export] Instance quarter_hour : BackOff.
Proof.
  refine {| next_backoff n elapsed := if (900 * Second <? elapsed)%Z then None else Some Second; MaxElapsedTime := (900 * Second)%Z |}.
  - intros n elapsed Ht. apply Z.ltb_lt in Ht. by rewrite Ht.
  - intros n elapsed d. destruct (_ <? _)%Z; [done|]. by intros [= <-].
Defined.

Example sixteen_minutes :
  let broken t := mkAttempt (Streamed [[]] (RecvFailed (ErrorString "unavailable") false)) t None None in
  Subscribe true [broken (960 * Second)%Z; broken (961 * Second)%Z] = ([], Some (Some (ErrorString "unavailable"))) /\
  Subscribe true [broken (60 * Second)%Z; broken (61 * Second)%Z] = ([], None).
Proof. vm_compute. split; reflexivity. Qed.

(** ** Requests *)

(** Times are nanoseconds; the zero time is none. *)
Record GetTracesRequest := mkTracesRequest { gt_ProjectID : string; gt_FlowID : string; gt_Start : option Z; gt_End : option Z; gt_Offset : Z }.
Record TraceInfo := mkTraceInfo {
  ti_ID : string; ti_Spans : Z; ti_Errors : Z; ti_Data : Z; ti_Length : Z; ti_Duration : Z; ti_Start : Z; ti_End : Z }.
Record GetTracesResponse := mkTracesResponse { tr_Traces : list TraceInfo; tr_Total : Z; tr_Offset : Z }.
Record TraceData := mkTraceData { td_TraceID : string; td_Spans : list Span }.

Section client.
  (** The collector, at an address. *)
  Variable get_traces : string -> GetTracesRequest -> result goerror GetTracesResponse.
  Variable get_trace : string -> string -> string -> result goerror (list ApiSpan).

Definition StatsClient_GetTraces (conn : string) (req : GetTracesRequest) : result goerror GetTracesResponse :=
  match get_traces conn req with Ok r => Ok r | Err e => Err (WrapError "get traces failed: " e) end.

Definition StatsClient_GetTraceByID (conn projectName traceID : string) : result goerror TraceData :=
  match get_trace conn projectName traceID with
  | Ok spans => Ok (mkTraceData traceID (map api_span spans))
  | Err e => Err (WrapError "get trace by ID failed: " e)
  end.

(** ** The trace service *)

Definition DefaultOtelService : string := "tinysystems-otel-collector".
Definition DefaultOtelPort : Z := 2345.

Record TraceService := mkTraceService { sv_otelService : string; sv_otelPort : Z; sv_statsClient : option string }.

Definition NewTraceService (service : string) (port : Z) : TraceService :=
  mkTraceService (if service =? "" then DefaultOtelService else service) (if (port =? 0)%Z then DefaultOtelPort else port) None.

(** Where the collector is, for a namespace, a service and a port; a connection
    to an address, which is made without a call. *)
  Variable forwarded : string -> string -> Z -> result goerror string.
  Variable new_client : string -> error.

Definition getOrCreateStatsClient (namespace : string) (s : TraceService) : TraceService * result goerror string :=
  match sv_statsClient s with
  | Some c => (s, Ok c)
  | None =>
      match forwarded namespace (sv_otelService s) (sv_otelPort s) with
      | Err e => (s, Err e)
      | Ok addr =>
          match new_client addr with
          | Some e => (s, Err (WrapError "failed to connect to stats service: " e))
          | None => (mkTraceService (sv_otelService s) (sv_otelPort s) (Some addr), Ok addr)
          end
      end
  end.

Definition Close (close : string -> error) (s : TraceService) : TraceService * error :=
  match sv_statsClient s with
  | Some c => (mkTraceService (sv_otelService s) (sv_otelPort s) None, close c)
  | None => (s, None)
  end.

Definition with_client {A} (namespace : string) (s : TraceService) (f : string -> result goerror A) : TraceService * result goerror A :=
  let '(s', c) := getOrCreateStatsClient namespace s in (s', rbind c f).

Definition trace_window (now : Z) (start finish : option Z) : option Z * option Z :=
  (Some (default (now - 900 * Second)%Z start), Some (default now finish)).

Definition GetTraces (now : Z) (namespace projectName flowID : string) (start finish : option Z) (offset : Z) (s : TraceService)
    : TraceService * result goerror GetTracesResponse :=
  let '(a, b) := trace_window now start finish in
  with_client namespace s (fun c => StatsClient_GetTraces c (mkTracesRequest projectName flowID a b offset)).

Definition GetTraceByID (namespace projectName traceID : string) (s : TraceService) : TraceService * result goerror TraceData :=
  with_client namespace s (fun c => StatsClient_GetTraceByID c projectName traceID).

Definition LoadTraceRuntimeData (namespace projectName traceID : string) (s : TraceService) : TraceService * result goerror (gmap string string) :=
  let '(s', t) := GetTraceByID namespace projectName traceID s in
  (s', match t with Ok t => Ok (ExtractRuntimeDataFromTrace (Some (td_Spans t))) | Err e => Err e end).

(** The collector is looked up once: the namespace of the first call is the one
    every later call is answered from, until the service is closed. *)
Lemma one_collector (ns ns' project trace : string) (s : TraceService) (c : string) :
  (getOrCreateStatsClient ns s).2 = Ok c ->
  let s' := (getOrCreateStatsClient ns s).1 in
  sv_statsClient s' = Some c /\ GetTraceByID ns' project trace s' = (s', StatsClient_GetTraceByID c project trace) /\
  (forall close, sv_statsClient (Close close s').1 = None).
Proof.
  intros Hc. cbn zeta. assert (Hs : sv_statsClient (getOrCreateStatsClient ns s).1 = Some c).
  { unfold getOrCreateStatsClient in *. destruct (sv_statsClient s) as [c'|] eqn:E; [cbn in *; congruence|].
    destruct (forwarded ns _ _) as [addr|]; [|done]. destruct (new_client addr); [done|]. cbn in *. congruence. }
  split; [done|]. unfold GetTraceByID, with_client, Close. unfold getOrCreateStatsClient at 1. rewrite Hs. split; [done|]. by intros close.
Qed.
End client.

(** * Port forwards

    [pkg/resource/portforward.go]: one forward per service and port, kept under
    its key behind a mutex that is held for the whole of an operation, so
    operations follow one another. The API server, the listener and the
    forwarding library are parameters; a forward that was ready may die at any
    time, which the library reports on a channel that is read once, before. *)

(** ** Finding a pod *)

Record ServiceSpec := mkServiceSpec { sv_selector : gmap string string }.
Record PodInfo := mkPodInfo { po_Name : string; po_Phase : string }.

Section forward.
  Context `{MapRange string}.
  Variable namespace : string.
  Variable get_service : string -> result goerror ServiceSpec.
  Variable list_pods : string -> result goerror (list PodInfo).

Definition label_selector (s : ServiceSpec) : string :=
  go_join "," (map (fun kv => kv.1 +:+ "=" +:+ kv.2) (map_range (sv_selector s))).

Definition findPodForService (serviceName : string) : result goerror string :=
  match get_service serviceName with
  | Err e => Err (WrapError "failed to get service: " e)
  | Ok svc =>
      if bool_decide (sv_selector svc = ∅) then Err (ErrorString ("service " +:+ serviceName +:+ " has no selector"))
      else match list_pods (label_selector svc) with
           | Err e => Err (WrapError "failed to list pods: " e)
           | Ok pods =>
               match List.find (fun p => po_Phase p =? "Running") pods with
               | Some p => Ok (po_Name p)
               | None => Err (ErrorString ("no running pods found for service " +:+ serviceName))
               end
           end
  end.

(** ** Forwards *)

(** What the select in [createForwarder] takes first. *)
Inductive Readiness : Type := Ready | Failed (e : goerror) | CtxDone (e : goerror) | TimedOut.

(** [af_stopped] is whether the stop channel is closed; [af_alive] whether the
    forwarding goroutine still runs, which nothing here reads. *)
Record activeForwarder := mkForwarder { af_localPort : Z; af_pod : string; af_stopped : bool; af_alive : bool }.

Abbreviation Forwarders := (gmap string activeForwarder).

(** What an attempt met: a free port, the transport and the forwarder, the select. *)
Record ForwardAttempt := mkForwardAttempt { fa_free_port : result goerror Z; fa_setup : error; fa_ready : Readiness }.

Definition createForwarder (a : ForwardAttempt) (podName : string) (localPort : Z) : result goerror activeForwarder :=
  match fa_setup a with
  | Some e => Err e
  | None =>
      match fa_ready a with
      | Ready => Ok (mkForwarder localPort podName false true)
      | Failed e => Err (WrapError "port-forward failed: " e)
      | CtxDone e => Err e
      | TimedOut => Err (ErrorString "timeout waiting for port-forward")
      end
  end.

Definition forward_key (serviceName : string) (servicePort : Z) : string :=
  namespace +:+ "/" +:+ serviceName +:+ ":" +:+ go_itoa servicePort.
Definition local_address (port : Z) : string := "localhost:" +:+ go_itoa port.

Definition new_forward (a : ForwardAttempt) (serviceName key : string) (fs : Forwarders) : Forwarders * result goerror string :=
  match findPodForService serviceName with
  | Err e => (fs, Err (WrapError ("failed to find pod for service " +:+ serviceName +:+ ": ") e))
  | Ok pod =>
      match fa_free_port a with
      | Err e => (fs, Err (WrapError "failed to get free port: " e))
      | Ok port =>
          match createForwarder a pod port with
          | Err e => (fs, Err (WrapError "failed to create port-forward: " e))
          | Ok af => (<[key := af]> fs, Ok (local_address port))
          end
      end
  end.

Definition ForwardService (a : ForwardAttempt) (serviceName : string) (servicePort : Z) (fs : Forwarders) : Forwarders * result goerror string :=
  let key := forward_key serviceName servicePort in
  match fs !! key with
  | Some af => if af_stopped af then new_forward a serviceName key (delete key fs) else (fs, Ok (local_address (af_localPort af)))
  | None => new_forward a serviceName key fs
  end.

(** The stop channels that are closed; closing one twice would panic. *)
Definition StopAll (fs : Forwarders) : Forwarders * list string := (∅, (map_to_list fs).*1).

(** ** A life of a forwarder *)

Inductive op : Type :=
| Forward (a : ForwardAttempt) (serviceName : string) (servicePort : Z)
| Dies (key : string)
| Stop.

Definition apply_op (fs : Forwarders) (o : op) : Forwarders :=
  match o with
  | Forward a s p => (ForwardService a s p fs).1
  | Dies key => alter (fun af => mkForwarder (af_localPort af) (af_pod af) (af_stopped af) false) key fs
  | Stop => (StopAll fs).1
  end.

Definition none_stopped (fs : Forwarders) : Prop := map_Forall (fun _ af => af_stopped af = false) fs.

Lemma new_forward_cases (a : ForwardAttempt) (s key : string) (fs : Forwarders) :
  (exists e, new_forward a s key fs = (fs, Err e)) \/
  (exists pod port, findPodForService s = Ok pod /\ fa_free_port a = Ok port /\
     new_forward a s key fs = (<[key := mkForwarder port pod false true]> fs, Ok (local_address port))).
Proof.
  unfold new_forward, createForwarder. destruct (findPodForService s) as [pod|e]; [|left; by eexists].
  destruct (fa_free_port a) as [port|e]; [|left; by eexists]. destruct (fa_setup a); [left; by eexists|].
  destruct (fa_ready a); [right; by exists pod, port|..]; left; by eexists.
Qed.

Lemma none_stopped_op (fs : Forwarders) (o : op) : none_stopped fs -> none_stopped (apply_op fs o).
Proof.
  intros Hfs. destruct o as [a s p|key|]; cbn; [|apply map_Forall_lookup; intros k af; rewrite lookup_alter|by apply map_Forall_empty].
  - unfold ForwardService. destruct (fs !! forward_key s p) as [af|] eqn:E; [rewrite (Hfs _ _ E); exact Hfs|].
    destruct (new_forward_cases a s (forward_key s p) fs) as [(e & ->)|(pod & port & _ & _ & ->)]; [exact Hfs|]. by apply map_Forall_insert_2.
  - case_decide; [|by apply Hfs]. subst k. destruct (fs !! key) as [af'|] eqn:E; [|done]. cbn. intros [= <-]. by apply (Hfs _ _ E).
Qed.

Lemma reached_none_stopped (os : list op) : none_stopped (fold_left apply_op os ∅).
Proof.
  induction os as [|o os IH] using rev_ind; [by apply map_Forall_empty|]. rewrite fold_left_app. by apply none_stopped_op.
Qed.

(** Whatever a forwarder went through: a service's port has one forward, which
    is made once a running pod of the service answers, and which every later
    call is answered with, until all are stopped - each once. *)
Lemma one_forward_per_port (os : list op) (a : ForwardAttempt) (s : string) (p : Z) :
  let fs := fold_left apply_op os ∅ in
  match fs !! forward_key s p with
  | Some af => ForwardService a s p fs = (fs, Ok (local_address (af_localPort af)))
  | None => (exists e, ForwardService a s p fs = (fs, Err e)) \/
            (exists pod port, findPodForService s = Ok pod /\
               ForwardService a s p fs = (<[forward_key s p := mkForwarder port pod false true]> fs, Ok (local_address port)))
  end /\ NoDup (StopAll fs).2 /\ none_stopped fs.
Proof.
  cbn zeta. pose proof (reached_none_stopped os) as Hfs. split_and!; [|by apply NoDup_fst_map_to_list|done].
  unfold ForwardService. destruct (_ !! forward_key s p) as [af|] eqn:E; [by rewrite (Hfs _ _ E)|].
  destruct (new_forward_cases a s (forward_key s p) (fold_left apply_op os ∅)) as [He|(pod & port & Hp & _ & ->)]; [by left|].
  right. by exists pod, port.
Qed.
End forward.

(** A forward whose pod is gone is answered with for ever: only a stopped one is
    replaced, and nothing stops one that died. *)
Example dead_forward_is_kept `{MapRange string} :
  let svc : string -> result goerror ServiceSpec := fun _ => Ok (mkServiceSpec {["app" := "otel"]}) in
  let pods : string -> result goerror (list PodInfo) := fun _ => Ok [mkPodInfo "old" "Pending"; mkPodInfo "new" "Running"] in
  let a port := mkForwardAttempt (Ok port) None Ready in
  let fs := (ForwardService "tiny" svc pods (a 4001%Z) "otel" 4317 ∅).1 : gmap string activeForwarder in
  let dead := apply_op "tiny" svc pods fs (Dies "tiny/otel:4317") : gmap string activeForwarder in
  (af_alive <$> dead !! "tiny/otel:4317") = Some false /\
  (ForwardService "tiny" svc pods (a 4002%Z) "otel" 4317 dead).2 = Ok "localhost:4001".
Proof. vm_compute. split; reflexivity. Qed.
