(* ===== verification/Orphans.v ===== *)
(** * Keys that a port does not declare

    [internal/scheduler/runner/runner.go], [findOrphanedKeys]: the keys of an
    evaluated edge configuration that the struct of the target port has no field
    for, which decoding drops silently; and the retry gauge of an edge.

    A Go type is what the check looks at: the fields of a struct with their json
    tags, pointers, slices, and whether the type decodes itself. *)
From S2P Require Import Prelude GoErrors Json.

Open Scope string_scope.
Open Scope list_scope.

(** ** Types *)

Inductive GoType : Type :=
| GStruct (unmarshaler : bool) (fields : list (string * string * GoType))   (* name, json tag, type *)
| GPtr (t : GoType)
| GSlice (t : GoType)
| GOther.

(** [if t.Kind() == reflect.Ptr { t = t.Elem() }], once. *)
Definition deref (t : GoType) : GoType := match t with GPtr t' => t' | _ => t end.

(** The name before the options of a tag, where the field has one. *)
Definition tag_name (tag : string) : option string :=
  if (tag =? "") || (tag =? "-") then None
  else let name := match go_cut "," tag with Some (a, _) => a | None => tag end in if name =? "" then None else Some name.

(** The names of the tags with their fields; of two with one name the later. *)
Definition getJSONTagNames (t : GoType) : gmap string GoType :=
  match deref t with
  | GStruct _ fields => fold_left (fun m f => match tag_name f.1.2 with Some n => <[n := f.2]> m | None => m end) fields ∅
  | _ => ∅
  end.

(** The struct a type is checked as: nothing else is looked into, and no type
    that decodes itself. *)
Definition checked_struct (t : GoType) : option (gmap string GoType) :=
  match deref t with GStruct false _ => Some (getJSONTagNames t) | _ => None end.

Definition is_struct (t : GoType) : bool := match t with GStruct _ _ => true | _ => false end.

(** ** The check *)

(** Under a prefix, in an element of a list. *)
Definition at_item (key : string) (i : nat) (o : string) : string := key +:+ "[" +:+ go_itoa (Z.of_nat i) +:+ "]." +:+ o.

(** The orphaned keys of an object; none of anything else. *)
Fixpoint findOrphanedKeys (v : json) (t : GoType) {struct v} : list string :=
  match v with
  | JObj m =>
      match checked_struct t with
      | None => []
      | Some tags =>
          go_sort_strings ((fix go m := match m with
            | [] => []
            | (key, x) :: m' =>
                match tags !! key with
                | None => [key]
                | Some field =>
                    match deref field with
                    | GStruct _ _ => map (fun o => key +:+ "." +:+ o) (findOrphanedKeys x (deref field))
                    | GSlice elem =>
                        if is_struct (deref elem) then
                          match x with
                          | JArr l => (fix items i l := match l with
                              | [] => []
                              | y :: l' => map (at_item key i) (findOrphanedKeys y (deref elem)) ++ items (S i) l'
                              end) 0%nat l
                          | _ => []
                          end
                        else []
                    | _ => []
                    end
                end ++ go m'
            end) m)
      end
  | _ => []
  end.

(** What one member adds. *)
Definition field_orphans (key : string) (x : json) (field : GoType) : list string :=
  match deref field with
  | GStruct _ _ => map (fun o => key +:+ "." +:+ o) (findOrphanedKeys x (deref field))
  | GSlice elem =>
      if is_struct (deref elem) then
        match x with
        | JArr l => concat (imap (fun i y => map (at_item key i) (findOrphanedKeys y (deref elem))) l)
        | _ => []
        end
      else []
  | _ => []
  end.

Definition member_orphans (tags : gmap string GoType) (kv : string * json) : list string :=
  match tags !! kv.1 with None => [kv.1] | Some field => field_orphans kv.1 kv.2 field end.

Lemma find_orphans_obj (m : list (string * json)) (t : GoType) :
  findOrphanedKeys (JObj m) t =
    match checked_struct t with None => [] | Some tags => go_sort_strings (flat_map (member_orphans tags) m) end.
Proof.
  cbn [findOrphanedKeys]. destruct (checked_struct t) as [tags|]; [|done]. f_equal.
  induction m as [|[key x] m IH]; [done|]. cbn [flat_map]. rewrite IH. f_equal. unfold member_orphans, field_orphans. cbn [fst snd].
  destruct (tags !! key) as [field|]; [|done]. destruct (deref field) as [| |elem|]; try done.
  destruct (is_struct (deref elem)); [|done]. destruct x as [| | | |l|]; try done.
  assert (Hi : forall i, (fix items i l := match l with [] => [] | y :: l' => map (at_item key i) (findOrphanedKeys y (deref elem)) ++ items (S i) l' end) i l
                  = concat (imap (fun j y => map (at_item key (i + j)) (findOrphanedKeys y (deref elem))) l)).
  { clear. induction l as [|y l IH]; intros i; [done|]. cbn [imap concat]. rewrite Nat.add_0_r, IH. f_equal. f_equal.
    apply imap_ext. intros j z _. cbn. by rewrite Nat.add_succ_r. }
  rewrite (Hi 0%nat). f_equal.
Qed.

(** The report does not depend on the order in which a map is ranged over. *)
Lemma orphans_any_order (m m' : list (string * json)) (t : GoType) : m ≡ₚ m' -> findOrphanedKeys (JObj m) t = findOrphanedKeys (JObj m') t.
Proof.
  intros Hp. rewrite !find_orphans_obj. destruct (checked_struct t); [|done]. apply go_sort_strings_proper. by apply Permutation_flat_map.
Qed.

Lemma sort_nil (l : list string) : go_sort_strings l = [] <-> l = [].
Proof. split; [|by intros ->]. intros H. pose proof (go_sort_strings_perm l) as Hp. rewrite H in Hp. by apply Permutation_nil_l in Hp. Qed.

(** Nothing is reported exactly when every key has a field, and so in every
    struct below it. *)
Lemma no_orphans_iff (m : list (string * json)) (t : GoType) (tags : gmap string GoType) :
  checked_struct t = Some tags ->
  findOrphanedKeys (JObj m) t = [] <->
  (forall k x, (k, x) ∈ m -> exists field, tags !! k = Some field /\
     (is_struct (deref field) = true -> findOrphanedKeys x (deref field) = []) /\
     (forall elem l i y, deref field = GSlice elem -> is_struct (deref elem) = true -> x = JArr l -> l !! i = Some y -> findOrphanedKeys y (deref elem) = [])).
Proof.
  intros Ht. rewrite find_orphans_obj, Ht, sort_nil, flat_map_nil.
  assert (Hm : forall k x field, field_orphans k x field = [] <->
    (is_struct (deref field) = true -> findOrphanedKeys x (deref field) = []) /\
    (forall elem l i y, deref field = GSlice elem -> is_struct (deref elem) = true -> x = JArr l -> l !! i = Some y -> findOrphanedKeys y (deref elem) = [])).
  { intros k x field. unfold field_orphans. destruct (deref field) as [u fs| |elem|]; cbn [is_struct].
    - split; [intros H%fmap_nil_inv; by split|]. intros [H _]. by rewrite H.
    - split; [by split|done].
    - destruct (is_struct (deref elem)) eqn:Es; [|split; [|done]; intros _; split; [done|]; intros e' l i y [= <-]; congruence].
      destruct x as [| | | |l|]; try (split; [|done]; intros _; split; [done|]; by intros e' l' i y _ _ [=]).
      rewrite <- Permutation_nil_r. split.
      + intros Hc. split; [done|]. intros e' l' i y [= <-] _ [= <-] Hy. apply Permutation_nil_r in Hc.
        assert (Hin : map (at_item k i) (findOrphanedKeys y (deref elem)) ∈ imap (fun i y => map (at_item k i) (findOrphanedKeys y (deref elem))) l).
        { apply list_elem_of_lookup. exists i. by rewrite list_lookup_imap, Hy. }
        apply (concat_nil_Forall _) in Hc. rewrite Forall_forall in Hc. by apply Hc, fmap_nil_inv in Hin.
      + intros [_ H]. apply Permutation_nil_r. apply concat_nil_Forall, Forall_forall. intros z Hz.
        apply list_elem_of_lookup in Hz as [i Hi]. rewrite list_lookup_imap in Hi. apply fmap_Some in Hi as (y & Hy & ->).
        by rewrite (H elem l i y eq_refl Es eq_refl Hy).
    - split; [by split|done]. }
  split.
  - intros Hall k x Hin. specialize (Hall (k, x) Hin). unfold member_orphans in Hall. cbn [fst snd] in Hall.
    destruct (tags !! k) as [field|] eqn:E; [|done]. exists field. split; [done|]. by apply (Hm k).
  - intros Hall [k x] Hin. destruct (Hall k x Hin) as (field & E & H). unfold member_orphans. cbn [fst snd]. rewrite E. by apply Hm.
Qed.

(** Decoding takes a key for a field whatever its case, and a field without a
    tag by its own name; the check reports both. *)
Example decoded_keys_reported :
  findOrphanedKeys (JObj [("URL", JStr "u"); ("Count", JNum "1"); ("route", JStr "r")])
    (GStruct false [("Url", "url", GOther); ("Count", "", GOther); ("Route", "route,omitempty", GOther)]) = ["Count"; "URL"].
Proof. vm_compute. reflexivity. Qed.

Example nested_orphans :
  findOrphanedKeys (JObj [("rules", JArr [JObj [("name", JStr "a")]; JObj [("nmae", JStr "b")]]); ("own", JObj [("x", JNull)]); ("any", JObj [("y", JNull)])])
    (GPtr (GStruct false [("Rules", "rules", GSlice (GPtr (GStruct false [("Name", "name", GOther)])));
                          ("Own", "own", GStruct true []); ("Any", "any", GOther)])) = ["rules[1].nmae"].
Proof. vm_compute. reflexivity. Qed.

(** ** Retries of an edge

    The counters a gauge would show. Nothing calls the two operations. *)
Record retryState := mkRetry { rt_count : Z; rt_lastErr : string }.

Definition incRetry (meter : bool) (edgeID : string) (err : error) (edges : gmap string retryState) : gmap string retryState :=
  if (edgeID =? "") || negb meter then edges
  else <[edgeID := mkRetry (match edges !! edgeID with Some s => rt_count s + 1 | None => 1 end)
                           (match err with Some e => error_text e | None => "" end)]> edges.

Definition clearRetry (meter : bool) (edgeID : string) (edges : gmap string retryState) : gmap string retryState :=
  if meter then delete edgeID edges else edges.
